(* ===== verification/_CoqProject ===== *)
-Q . S2P
Prelude.v
Machine.v
PageAlloc.v
PageAllocSpec.v
PageAllocRefine.v
Heap.v
HeapSeg.v
HeapSpec.v
HeapInv.v
HeapOps.v
HeapClaims.v
Task.v
WaitQueue.v
Sched.v
SchedQueue.v
SchedInv.v
SchedOps.v
SchedLife.v
SchedCreate.v
SchedReap.v
SchedSwitch.v
SchedSys.v
SchedClaims.v
Sync.v
SyncSpec.v
PoolSpec.v
Mutex.v
MutexSys.v
Semaphore.v
SemaphoreSpec.v
Condvar.v
CondvarSpec.v
Ipc.v
IpcSpec.v
SyncSched.v
SyncClaims.v
MmuTable.v
MmuBoot.v
Vmsa.v
VmsaWalk.v
VmsaFault.v
VmBits.v
VmsaSpec.v
VmTree.v
VmMap.v
VmOwn.v
VmUnmap.v
VmBytes.v
VmFrame.v
VmFaultSpec.v
VmCopy.v
VmEnv.v
VmStep.v
VmLife.v
VmCreate.v
VmCtx.v
VmSys.v
VmView.v
VmClaims.v
Fs.v
FsSpec.v
KernelObjects.v
FsSys.v
FsClaims.v
Log.v
Process.v
ProcElf.v
ProcSpec.v
ProcLoad.v
ProcCreate.v
ProcNew.v
ProcClaims.v
Kernel.v
ProcTask.v
Syscall.v
Exception.v
Boot.v
Shell.v
IrqClaims.v
SyscallClaims.v
