(* ===== verification/Prelude.v ===== *)
(** * The ARMv8-A kernel: a verification development

    This library models the kernel of src/src/ (a small SMP kernel for the
    QEMU virt machine, written in C) by executable functions and proves what
    its components promise.  Source paths below are relative to src/src/.
    This file is the prelude; every component has files of its own.

    ** The program

    From the bottom up: the page allocator (kernel/page_alloc.c) owns RAM; the
    heap (kernel/heap.c) takes runs of pages from it and hands out blocks; the
    translation tables (kernel/mmu_table.c, mmu_boot.c, mmu.c, mmu_vmsa.c) use
    both, and make the address spaces in which programs run; files
    (kernel/fs.c, ramfs.c, console.c) and processes (kernel/process.c) are
    objects on the heap.  The scheduler (kernel/sched.c) keeps 32 task slots
    and a run queue for each of four CPUs, takes stacks from the page allocator
    and switches address spaces.  Above it stand the wait queues
    (kernel/wait_queue.c) and the objects on which tasks wait: mutexes,
    semaphores, condition variables and IPC channels; they park and unpark
    tasks, and the scheduler's reaper makes them forget the dead ones.  System
    calls (kernel/syscall.c), exceptions and interrupts (kernel/exception.c,
    timer.c, drivers/interrupt/gicv3.c), start-up (kernel/main.c, loader.c,
    driver.c, device_tree.c, drivers/uart/pl011.c) and the shell
    (kernel/shell.c) use all of these.

    ** How a C function is modelled

    A function on a component's state [S] is a value of [M S A]: it returns a
    result and a new state, or has no outcome ([None]): a null or misaligned
    pointer is followed, an index is out of bounds, a lock is taken twice by
    one CPU or against the lock order, a loop exceeds its fuel.  The theorems
    are total: [wp m Q s] says that [m] returns from [s], and that [Q] holds of
    the outcome.  The statics of a file are a record.  Integers are [Z] with
    their wrap-around written out ([u64], [u32], [s32]).  Physical memory is a map
    of 64-bit words ([Machine.v]): free lists, block headers, page tables, saved
    frames, ELF images and file contents are words of it, reached through the
    kernel's linear map.  Tasks are slots of the task table and a task pointer
    is [option Z].  Address-space, process, vnode and file objects are records
    by their heap address.  Strings of the kernel are strings.  Writes of system
    and device registers are events of a trace; what a register holds when it
    is read is an argument.  Definitions have the names of the C functions.  A
    C name used in two components is qualified by its file ([Task.process] is a
    field of a task, [Vmsa.process] the process object).

    A component's state contains that of the component below ([Sub], [up]);
    what a component needs of the one below is a class of operations and a class
    of laws, so that its theorems hold over any implementation:

    - [Heap.PageSource], [HeapSpec.PageSourceLaws]: pages for the heap and for
      stacks; the page allocator satisfies them (HeapClaims.v).
    - [MmuTable.FrameEnv], [VmsaSpec.FrameLaws]: pages and heap blocks for the
      address spaces; the heap on the page allocator, [kheap], satisfies them
      (VmEnv.v).
    - [Sched.SchedEnv], [SchedInv.SchedEnvLaws]: stacks, the switch of address
      spaces and the console's file for the scheduler.  The composed kernel is
      an instance of the operations (Kernel.v); the laws, which ask that a
      switch to any address space returns, are shown for a bump allocator with
      a switch that is traced (SchedClaims.v) and for the page allocator
      (SyncClaims.v).
    - [Sync.Parking], [WakeLaws], [ParkingLaws]: what the waiting objects need of
      the scheduler: park, unpark, and what these leave alone.  The scheduler
      satisfies them (SyncSched.v).
    - [Sync.PoolKind], [SyncSpec.PoolLaws]: the three pools of objects.
    - [Exception.IrqEnv], [IrqClaims.IrqEnvLaws]: the handler of the shootdown
      interrupt.  [Kernel.StackPages], [Boot.BootEnv]: the page allocator's calls
      that task creation and start-up make.
    - [SyncSched.release_laws]: giving back the stack and the process of a dead
      task.  The page allocator satisfies them for stacks (SyncClaims.v); the
      composed kernel does it with [Kernel.release_task].

    ** Files

    - Machine: memory, the linear map, locks with their order, the trace.
    - PageAlloc (kernel/page_alloc.c); PageAllocSpec, PageAllocRefine: its
      invariant, the abstract ownership map and the refinement.
    - Heap (kernel/heap.c); HeapSeg, HeapSpec, HeapInv, HeapOps: block lists in
      memory, the reference first-fit allocator, the invariant, each operation;
      HeapClaims: the heap on the page allocator.
    - Task (include/kernel/sched.h), WaitQueue (kernel/wait_queue.c).
    - Sched (kernel/sched.c but [sched_reap_dead], [sched_dump_tasks] and the part of
      unload); SchedQueue: run queues as lists, and [picks], the reference of
      the choice of the next task; SchedInv: the invariant; SchedOps, SchedLife,
      SchedCreate, SchedReap, SchedSwitch: the operations keep it; SchedSys: the
      scheduler as a transition system; SchedClaims.
    - Sync: the state of the waiting objects and the pools; SyncSpec, PoolSpec:
      their invariant; Mutex, Semaphore, Condvar, Ipc (the C files of those
      names); MutexSys, SemaphoreSpec, CondvarSpec, IpcSpec: their operations
      and transition systems; SyncSched: [sched_reap_dead] with the detach
      functions, and the scheduler as an implementation of the interface;
      SyncClaims.
    - MmuTable (kernel/mmu_table.c), MmuBoot (kernel/mmu_boot.c, mmu.c); Vmsa,
      VmsaWalk, VmsaFault (kernel/mmu_vmsa.c: contexts, tables, faults and user
      copies); VmBits, VmsaSpec, VmTree, VmMap, VmUnmap: descriptors and tables as
      trees; VmOwn: who owns which page; VmBytes, VmFrame, VmFaultSpec, VmCopy,
      VmStep: what an operation keeps; VmLife, VmCreate, VmCtx: the life of an
      address space; VmEnv; VmSys: the transition system; VmView: the
      architecture's own walk; VmClaims.
    - Fs (kernel/fs.c, ramfs.c, the vnode of console.c); FsSpec, KernelObjects,
      FsSys: the operations and the invariant of all heap objects; FsClaims.
    - Log (kernel/console.c, log.c).
    - Process (kernel/process.c: images and process objects), ProcTask (the
      functions of process.c on tasks); ProcElf, ProcSpec, ProcLoad, ProcCreate,
      ProcNew: creation step by step; ProcClaims.
    - Kernel: the composed state and the whole [schedule]; Syscall
      (kernel/syscall.c); Exception (kernel/exception.c, timer.c, gicv3.c); Boot
      (kernel/main.c, loader.c, driver.c, device_tree.c, pl011.c); Shell
      (kernel/shell.c, [sched_dump_tasks], [kernel_main] and its loop);
      IrqClaims, SyscallClaims.

    ** What the theorems show

    - C1 to C6, memory: page allocator and heap refine ownership of pages and of
      payloads, from start-up through any sequence of calls.
    - C7, wait queues are lists without duplicates, first in first out.
    - C8 to C16, scheduling: one task per CPU and one CPU per task, sound run
      queues; the exact effect of [schedule]; placement of ready tasks; park and
      unpark, sleep, exit and wait, kill, reaping.  C8 and C9 are about runs in
      which no CPU enters [schedule] while the task of another CPU is READY and
      not switched out yet ([switch_safe]); C16 is the run of the code that
      violates this, after which a task runs on two CPUs.
    - C17 to C27, waiting: mutual exclusion and no lost wake-up for mutexes,
      permits of semaphores, signals of condition variables, messages of
      channels, stale handles.  C17 and C18 are about interleavings in which
      only holders unlock and nothing else wakes or kills a client that waits;
      C27 shows that the exit of a child does, and then breaks the mutex.
    - C28 to C36, address spaces: the invariant of every reachable state,
      isolation under the architecture's walk, page faults, user copies, ASIDs,
      mapping and unmapping, release; C33 is a defect of range unmapping.
    - C37, files refine a map from paths to contents.  C38, a created process is
      well formed.  C39, interrupts are acknowledged and ended in balance.  C40,
      [sys_read] delivers the bytes of the file to user memory.
    - Not numbered: [Log.log_u64_reads_back], [Log.hex_reads_back] and
      [Shell.shell_reads_printed_numbers] (printed numbers are read back), and
      [Shell.Session.kernel_runs_a_program], which runs the whole kernel from
      start-up: a program is loaded from the shell, makes system calls and exits.

    ** Bounds and fuel

    Loops over a range use [forM_], [foldM] and [iterM] and need no fuel.  The
    others use [whileM], whose fuel exceeds the number of rounds of any run that
    the theorems are about, which they prove by showing that the function
    returns: a walk of the task list or of a queue makes at most one round for
    each of the 32 slots; of the page free list, one for each page of RAM; of
    the heap's blocks, 128 for each page of the heap ([heap_fuel]), a block
    having at least 32 bytes; a user copy, three for each page of its range
    ([copy_fuel]); a read or write, one for each 128 bytes ([chunk_fuel]); a load
    of a file by the shell, one for each byte.  A broadcast wakes at most the 32
    tasks that can wait.

    ** What is not modelled

    The assembly (arch/arm: vectors, entry, the register switch of a context
    switch) and the atomic instructions of kernel/spinlock.c: a lock is a name
    that is held or not, and a critical section is one step.  A function that
    calls [schedule] in the middle is cut there, and what follows is a second
    definition or a value ([SysBlocked], [ShellWaits]).  Loops that wait for a
    device or another CPU are left out, gic_send_ipi is one event, and
    drivers/interrupt/gicv2.c, which is linked but never called, is left out.
    So are the tests and dumps of kernel/smp_regression.c, mutex_test.c,
    mmu_debug.c and debug_targets.c, the statistics that are only printed, and
    everything outside src/src/ (the user's linker, C library and programs, the
    host's tools).  Most components log through an event of the trace; start-up
    and the shell write to the modelled console.  A task's name, a pointer in
    the code, is a value.  The session of Shell.v runs on one CPU, with
    translation on from the start, so that no boot tables are built in it. *)

From Stdlib Require Export ZArith Lia Bool.
From stdpp Require Export base tactics numbers list gmap sets strings.

#[export] Set Default Goal Selector "!".
Open Scope Z_scope.

(** ** Functional record update

    [r <| f := v |>] replaces one field.  The record declares its eta
    expansion as an instance of [Eta]; the setter of a projection is obtained
    by abstracting the projection out of it. *)

Class Eta (R : Type) := eta_of : R → R.

Class Setter {R T : Type} (proj : R → T) := setf : (T → T) → R → R.

Arguments setf {R T} proj {_} _ _ /.

Ltac build_setter :=
  match goal with
  | |- @Setter ?R ?T ?p =>
      let i := constr:(_ : Eta R) in
      let e := eval red in i in
      match eval pattern p in e with
      | ?g _ =>
          let t := eval cbv beta in (fun (h : T → T) (r : R) => g (fun r' => h (p r')) r) in
          exact t
      end
  end.

#[export] Hint Extern 0 (Setter _) => build_setter : typeclass_instances.

Declare Scope kernel_scope.
Delimit Scope kernel_scope with kernel.

Notation "r <| f := v |>" := (setf f (λ _, v) r)
  (at level 1, f constr at level 11, left associativity,
   format "r  <| f  :=  v |>") : kernel_scope.

(** ** Machine words

    A C [unsigned] value of width [w] is a [Z] in [0, 2^w); every operation
    that may leave the range is followed by its wrap-around. *)

Definition u64 (x : Z) : Z := x mod 2 ^ 64.
Definition u32 (x : Z) : Z := x mod 2 ^ 32.
Definition u16 (x : Z) : Z := x mod 2 ^ 16.
Definition u8 (x : Z) : Z := x mod 2 ^ 8.

(** [(int)v] of a 32-bit pattern, and [(long)v] of a 64-bit one. *)
Definition s32 (x : Z) : Z := let y := u32 x in if y <? 2 ^ 31 then y else y - 2 ^ 32.
Definition s64 (x : Z) : Z := let y := u64 x in if y <? 2 ^ 63 then y else y - 2 ^ 64.

(** [~x] on [unsigned long] and on [unsigned int]. *)
Definition not64 (x : Z) : Z := u64 (Z.lnot x).
Definition not32 (x : Z) : Z := u32 (Z.lnot x).

(** [(value + alignment - 1UL) & ~(alignment - 1UL)] and
    [value & ~(alignment - 1UL)], the two idioms every file repeats. *)
Definition align_up64 (value alignment : Z) : Z :=
  Z.land (u64 (u64 (value + alignment) - 1)) (not64 (alignment - 1)).
Definition align_down64 (value alignment : Z) : Z :=
  Z.land value (not64 (alignment - 1)).

Lemma u64_small x : 0 ≤ x < 2 ^ 64 → u64 x = x.
Proof. apply Z.mod_small. Qed.
Lemma u32_small x : 0 ≤ x < 2 ^ 32 → u32 x = x.
Proof. apply Z.mod_small. Qed.
Lemma u16_small x : 0 ≤ x < 2 ^ 16 → u16 x = x.
Proof. apply Z.mod_small. Qed.

(** [x & ~(2^k - 1)] clears the low [k] bits. *)
Lemma land_not_ones x k : 0 ≤ x < 2 ^ 64 → 0 ≤ k ≤ 64 →
  Z.land x (not64 (2 ^ k - 1)) = x - x mod 2 ^ k.
Proof.
  intros Hx Hk. replace (2 ^ k - 1) with (Z.ones k) by (rewrite Z.ones_equiv; lia).
  unfold not64, u64. rewrite <- Z.land_ones, (Z.land_comm (Z.lnot _)), Z.land_assoc by lia.
  rewrite (Z.land_ones x 64), Z.mod_small by lia. rewrite <- Z.ldiff_land, Z.ldiff_ones_r by lia.
  rewrite Z.shiftl_mul_pow2, Z.shiftr_div_pow2 by lia.
  pose proof (Z.div_mod x (2 ^ k)). lia.
Qed.

Lemma align_up64_eq v k : 0 ≤ v → 0 ≤ k ≤ 64 → v + 2 ^ k ≤ 2 ^ 64 - 1 →
  align_up64 v (2 ^ k) = (v + 2 ^ k - 1) - (v + 2 ^ k - 1) mod 2 ^ k.
Proof.
  intros Hv Hk Hb. unfold align_up64.
  assert (0 < 2 ^ k) by (apply Z.pow_pos_nonneg; lia).
  rewrite (u64_small (v + _)), u64_small, land_not_ones by lia. done.
Qed.

(** ** The state-and-undefinedness monad

    A C function on a component's state of type [S] is a value of [M S A].
    [None] stands for a run with no defined outcome: a dereference of a null
    or misaligned pointer, an array index out of bounds, a lock acquired by
    the CPU that holds it already or against the lock order, or a loop that
    exceeds its fuel.  The theorems are total: they show that the function
    returns. *)

Definition M (S A : Type) : Type := S → option (A * S).

#[export] Instance M_ret S : MRet (M S) := λ A a s, Some (a, s).
#[export] Instance M_bind S : MBind (M S) :=
  λ A B k m s, match m s with Some (a, s') => k a s' | None => None end.

Definition ub {S A} : M S A := λ _, None.
Definition gets {S A} (f : S → A) : M S A := λ s, Some (f s, s).
Definition modify {S} (f : S → S) : M S unit := λ s, Some ((), f s).
Definition whenM {S} (b : bool) (m : M S unit) : M S unit := if b then m else mret ().

(** [start, start + 1, ..., start + n - 1], the values of a counted loop.  It
    equals stdpp's [seqZ] and evaluates in linear time. *)
Fixpoint upto_nat (start : Z) (n : nat) : list Z :=
  match n with
  | O => []
  | Datatypes.S n' => start :: upto_nat (start + 1) n'
  end.
Definition upto (start n : Z) : list Z := upto_nat start (Z.to_nat n).

(** A C [for] over a range computed on entry, without [break]. *)
Fixpoint forM_ {S A} (l : list A) (f : A → M S unit) : M S unit :=
  match l with
  | [] => mret ()
  | a :: l' => f a ;; forM_ l' f
  end.

(** The same with loop-carried locals of type [B]. *)
Fixpoint foldM {S A B} (l : list A) (f : B → A → M S B) (b : B) : M S B :=
  match l with
  | [] => mret b
  | a :: l' => b' ← f b a; foldM l' f b'
  end.

(** And with an early [return] of a value of type [C]. *)
Fixpoint iterM {S A B C} (l : list A) (f : B → A → M S (B + C)) (b : B) : M S (B + C) :=
  match l with
  | [] => mret (inl b)
  | a :: l' =>
      r ← f b a;
      match r with
      | inl b' => iterM l' f b'
      | inr c => mret (inr c)
      end
  end.

(** A C [while], on fuel. *)
Fixpoint whileM {S B C} (fuel : nat) (f : B → M S (B + C)) (b : B) : M S C :=
  match fuel with
  | O => ub
  | Datatypes.S fuel' =>
      r ← f b;
      match r with
      | inl b' => whileM fuel' f b'
      | inr c => mret c
      end
  end.

(** A component embeds the state of the component below it; [up] runs an
    operation of the lower component on that part of the state. *)
Class Sub (S T : Type) := {
  sub_get : T → S;
  sub_set : S → T → T;
  sub_get_set : ∀ s t, sub_get (sub_set s t) = s;
  sub_set_get : ∀ t, sub_set (sub_get t) t = t;
  sub_set_set : ∀ s s' t, sub_set s (sub_set s' t) = sub_set s t;
}.

Definition up {S T A} `{Sub S T} (m : M S A) : M T A :=
  λ t, match m (sub_get t) with
       | Some (a, s') => Some (a, sub_set s' t)
       | None => None
       end.

(** A component two levels up embeds the state at the bottom. *)
Definition sub_trans {S T U} (H1 : Sub S T) (H2 : Sub T U) : Sub S U.
Proof.
  refine {| sub_get := λ u, sub_get (sub_get u);
            sub_set := λ s u, sub_set (sub_set s (sub_get u)) u |}.
  - intros. by rewrite !sub_get_set.
  - intros. by rewrite !sub_set_get.
  - intros. by rewrite sub_get_set, !sub_set_set.
Defined.

Lemma upto_seqZ start n : upto start n = seqZ start n.
Proof.
  unfold upto, seqZ. generalize (Z.to_nat n) as k. intros k. revert start.
  induction k as [|k IH]; intros start; [done|].
  simpl. rewrite IH, <- fmap_S_seq, <- list_fmap_compose. f_equal.
  apply list_fmap_ext. intros; simpl; lia.
Qed.

(** ** Weakest preconditions, in the total reading: [wp m Q s] says that [m]
    returns from [s] and that its outcome satisfies [Q]. *)

Definition wp {S A} (m : M S A) (Q : A → S → Prop) (s : S) : Prop :=
  match m s with Some (a, s') => Q a s' | None => False end.

Open Scope kernel_scope.

Section wp_rules.
Context {S : Type}.
Implicit Types (s : S).

Lemma wp_ret {A} (a : A) (Q : A → S → Prop) s : wp (mret a) Q s ↔ Q a s.
Proof. done. Qed.

Lemma wp_bind {A B} (m : M S A) (k : A → M S B) (Q : B → S → Prop) s :
  wp (m ≫= k) Q s ↔ wp m (λ a s', wp (k a) Q s') s.
Proof. unfold wp, mbind, M_bind. by destruct (m s) as [[a s']|]. Qed.

Lemma wp_gets {A} (f : S → A) (Q : A → S → Prop) s : wp (gets f) Q s ↔ Q (f s) s.
Proof. done. Qed.

Lemma wp_modify (f : S → S) (Q : unit → S → Prop) s : wp (modify f) Q s ↔ Q () (f s).
Proof. done. Qed.

Lemma wp_mono {A} (m : M S A) (Q Q' : A → S → Prop) s :
  wp m Q s → (∀ a s', Q a s' → Q' a s') → wp m Q' s.
Proof. unfold wp. destruct (m s) as [[a s']|]; naive_solver. Qed.

Lemma wp_and {A} (m : M S A) (Q Q' : A → S → Prop) s :
  wp m Q s → wp m Q' s → wp m (λ a s', Q a s' ∧ Q' a s') s.
Proof. unfold wp. by destruct (m s) as [[a s']|]. Qed.

Lemma wp_elim {A} (m : M S A) (Q : A → S → Prop) s :
  wp m Q s → ∃ a s', m s = Some (a, s') ∧ Q a s'.
Proof. unfold wp. destruct (m s) as [[a s']|]; naive_solver. Qed.

Lemma wp_run {A} (m : M S A) (Q : A → S → Prop) s a s' :
  wp m Q s → m s = Some (a, s') → Q a s'.
Proof. unfold wp. intros H Hm. by rewrite Hm in H. Qed.

Lemma wp_intro {A} (m : M S A) (Q : A → S → Prop) s a s' :
  m s = Some (a, s') → Q a s' → wp m Q s.
Proof. unfold wp. by intros ->. Qed.

Lemma wp_if {A} (b : bool) (m1 m2 : M S A) (Q : A → S → Prop) s :
  (b = true → wp m1 Q s) → (b = false → wp m2 Q s) → wp (if b then m1 else m2) Q s.
Proof. destruct b; auto. Qed.

Lemma wp_up {T A} `{Sub S T} (m : M S A) (Q : A → T → Prop) (t : T) :
  wp (up m) Q t ↔ wp m (λ a s', Q a (sub_set s' t)) (sub_get t).
Proof. unfold wp, up. by destruct (m (sub_get t)) as [[a s']|]. Qed.

(** The invariant rule of [forM_]: [I done s] after the elements [done]. *)
Lemma wp_forM {A} (l : list A) (f : A → M S unit) (I : list A → S → Prop) s :
  I [] s →
  (∀ pre a post s', l = pre ++ a :: post → I pre s' → wp (f a) (λ _, I (pre ++ [a])) s') →
  wp (forM_ l f) (λ _, I l) s.
Proof.
  intros H0 Hstep.
  enough (∀ post pre s', l = pre ++ post → I pre s' → wp (forM_ post f) (λ _, I l) s')
    as Hgen by (by apply (Hgen l [] s)).
  induction post as [|a post IH]; intros pre s' Heq HI.
  - rewrite app_nil_r in Heq. subst. by apply wp_ret.
  - apply wp_bind. eapply wp_mono; [by apply (Hstep pre a post)|].
    intros [] s'' HI'. apply (IH (pre ++ [a])); [by rewrite <- app_assoc|done].
Qed.

(** The invariant rule of [foldM]. *)
Lemma wp_foldM {A B} (l : list A) (f : B → A → M S B) (b : B)
    (I : list A → B → S → Prop) s :
  I [] b s →
  (∀ pre a post b' s', l = pre ++ a :: post → I pre b' s' →
     wp (f b' a) (λ b'' s'', I (pre ++ [a]) b'' s'') s') →
  wp (foldM l f b) (λ b' s', I l b' s') s.
Proof.
  intros H0 Hstep.
  enough (∀ post pre b' s', l = pre ++ post → I pre b' s' →
            wp (foldM post f b') (λ b' s', I l b' s') s')
    as Hgen by (by apply (Hgen l [] b s)).
  induction post as [|a post IH]; intros pre b' s' Heq HI.
  - rewrite app_nil_r in Heq. subst. by apply wp_ret.
  - apply wp_bind. eapply wp_mono; [by apply (Hstep pre a post)|].
    intros b'' s'' HI'. apply (IH (pre ++ [a])); [by rewrite <- app_assoc|done].
Qed.

(** The invariant rule of [iterM]: [I done b s] while the loop runs,
    [R c s] when it returns early. *)
Lemma wp_iterM {A B C} (l : list A) (f : B → A → M S (B + C)) (b : B)
    (I : list A → B → S → Prop) (R : C → S → Prop) s :
  I [] b s →
  (∀ pre a post b' s', l = pre ++ a :: post → I pre b' s' →
     wp (f b' a) (λ r s'', match r with
                           | inl b'' => I (pre ++ [a]) b'' s''
                           | inr c => R c s''
                           end) s') →
  wp (iterM l f b) (λ r s', match r with inl b' => I l b' s' | inr c => R c s' end) s.
Proof.
  intros H0 Hstep.
  enough (∀ post pre b' s', l = pre ++ post → I pre b' s' →
            wp (iterM post f b')
               (λ r s', match r with inl b' => I l b' s' | inr c => R c s' end) s')
    as Hgen by (by apply (Hgen l [] b s)).
  induction post as [|a post IH]; intros pre b' s' Heq HI.
  - rewrite app_nil_r in Heq. subst. by apply wp_ret.
  - apply wp_bind. eapply wp_mono; [by apply (Hstep pre a post)|].
    intros [b''|c] s'' HI'; [|by apply wp_ret].
    apply (IH (pre ++ [a])); [by rewrite <- app_assoc|done].
Qed.

(** The variant rule of [whileM]: the measure bounds the iterations. *)
Lemma wp_whileM {B C} (fuel : nat) (f : B → M S (B + C)) (b : B)
    (I : nat → B → S → Prop) (R : C → S → Prop) (n : nat) s :
  (n < fuel)%nat →
  I n b s →
  (∀ n' b' s', I n' b' s' →
     wp (f b') (λ r s'', match r with
                         | inl b'' => ∃ n'', (n'' < n')%nat ∧ I n'' b'' s''
                         | inr c => R c s''
                         end) s') →
  wp (whileM fuel f b) R s.
Proof.
  intros Hlt HI Hstep. revert n b s Hlt HI.
  induction fuel as [|fuel IH]; intros n b s Hlt HI; [lia|].
  apply wp_bind. eapply wp_mono; [by apply (Hstep n)|].
  intros [b''|c] s'' Hr; [|by apply wp_ret].
  destruct Hr as (n'' & Hn'' & HI''). apply (IH n''); [lia|done].
Qed.

End wp_rules.

(** ** Automation *)

Create HintDb kernel.

(** Boolean comparisons to propositions. *)
Ltac bool_to_prop :=
  repeat match goal with
  | H : (_ =? _)%Z = true |- _ => apply Z.eqb_eq in H
  | H : (_ =? _)%Z = false |- _ => apply Z.eqb_neq in H
  | H : (_ <? _)%Z = true |- _ => apply Z.ltb_lt in H
  | H : (_ <? _)%Z = false |- _ => apply Z.ltb_ge in H
  | H : (_ <=? _)%Z = true |- _ => apply Z.leb_le in H
  | H : (_ <=? _)%Z = false |- _ => apply Z.leb_gt in H
  | H : negb _ = true |- _ => apply negb_true_iff in H
  | H : negb _ = false |- _ => apply negb_false_iff in H
  | H : (_ || _)%bool = false |- _ => apply orb_false_iff in H as [? ?]
  | H : (_ && _)%bool = true |- _ => apply andb_true_iff in H as [? ?]
  | H : (_ || _)%bool = true |- _ => apply orb_true_iff in H
  | H : (_ && _)%bool = false |- _ => apply andb_false_iff in H
  | H : bool_decide _ = true |- _ => apply bool_decide_eq_true in H
  | H : bool_decide _ = false |- _ => apply bool_decide_eq_false in H
  end.

(** Decide a boolean test of the goal with an arithmetic argument. *)
Ltac btrue e := replace e with true by (symmetry; first [apply Z.eqb_eq | apply Z.ltb_lt | apply Z.leb_le]; lia).
Ltac bfalse e := replace e with false by (symmetry; first [apply Z.eqb_neq | apply Z.ltb_ge | apply Z.leb_gt]; lia).

(** One step of symbolic execution. *)
Ltac wp_step :=
  lazymatch goal with
  | |- wp (mbind _ _) _ _ => apply (proj2 (wp_bind _ _ _ _))
  | |- wp (mret _) _ _ => apply (proj2 (wp_ret _ _ _))
  | |- wp (gets _) _ _ => apply (proj2 (wp_gets _ _ _))
  | |- wp (modify _) _ _ => apply (proj2 (wp_modify _ _ _))
  | |- wp (up _) _ _ => apply (proj2 (wp_up _ _ _))
  end.
Ltac wp_steps := repeat (wp_step; cbn beta iota).

(** ** Generic list lemmas *)

Lemma NoDup_reversed {A} (l : list A) : NoDup (reverse l) ↔ NoDup l.
Proof. by rewrite reverse_Permutation. Qed.

Lemma elem_of_split_mid {A} (l pre post : list A) a : l = pre ++ a :: post → a ∈ l.
Proof. intros ->. set_solver. Qed.

Lemma NoDup_mid_notin {A} (l pre post : list A) a :
  l = pre ++ a :: post → NoDup l → (a ∉ pre) ∧ (a ∉ post).
Proof.
  intros -> (_ & Hd & Hp)%NoDup_app. apply NoDup_cons in Hp as [Ha _].
  split; [|done]. intros Hin. apply (Hd a Hin). set_solver.
Qed.
