(* ===== verification/Machine.v ===== *)
(** * The machine under the kernel: physical memory, address translation of
    the kernel's linear map, spinlocks as the sequential code sees them, and
    the trace of architectural side effects.

    Memory is a map from 8-byte aligned physical addresses to 64-bit words;
    an absent word is zero.  A kernel pointer is either a physical address
    (before the MMU is enabled, or through the identity map) or an address of
    the linear map [PA + KERNEL_VA_OFFSET]; both reach the same word. *)

From S2P Require Import Prelude.

Open Scope kernel_scope.

(** ** vm.h and virt.h *)

Definition KERNEL_VA_OFFSET : Z := 0xFFFF000000000000.
Definition USER_CODE_BASE : Z := 0x00001000.
Definition USER_HEAP_BASE : Z := 0x10000000.
Definition USER_HEAP_LIMIT : Z := 0x70000000.
Definition USER_STACK_TOP : Z := 0x80000000.

Definition QEMU_VIRT_RAM_BASE : Z := 0x40000000.
Definition QEMU_VIRT_RAM_SIZE : Z := 0x08000000.
Definition PAGE_SIZE : Z := 4096.

Definition pa_to_va (pa : Z) : Z := u64 (pa + KERNEL_VA_OFFSET).
Definition va_to_pa (va : Z) : Z :=
  if KERNEL_VA_OFFSET <=? va then va - KERNEL_VA_OFFSET else va.

(** ** Locks

    One constructor per lock object of the kernel.  [rank] is the global
    acquisition order: a lock is taken only while every lock held has a rank
    at most its own. *)

Inductive lock : Type :=
  | L_cond (i : Z) | L_cond_pool
  | L_mutex_pool | L_mutex (i : Z)
  | L_sem_pool | L_sem (i : Z)
  | L_ipc (i : Z)
  | L_sched
  | L_process (p : Z)
  | L_shootdown | L_lifecycle | L_shootdown_state
  | L_mm (mm : Z)
  | L_asid | L_heap | L_page
  | L_console
  | L_mmap
  | L_uart
  | L_shell.

#[export] Instance lock_eq_dec : EqDecision lock.
Proof. solve_decision. Defined.

Definition rank (l : lock) : Z :=
  match l with
  | L_cond_pool => 0 | L_cond _ => 1
  | L_mutex_pool | L_sem_pool => 2
  | L_mutex _ | L_sem _ | L_ipc _ => 3
  | L_sched => 4
  | L_process _ => 5
  | L_shootdown => 6 | L_lifecycle => 7 | L_shootdown_state => 8
  | L_mm _ => 9
  | L_asid => 10 | L_heap => 11 | L_page => 12
  | L_console => 13
  | L_mmap => 14
  | L_uart => 15
  | L_shell => -1
  end.

(** ** Side effects outside memory, newest first in the trace *)

Inductive event : Type :=
  | Ev_warn (message : string) (address : Z)
  | Ev_tlbi_all
  | Ev_tlbi_asid (asid : Z)
  | Ev_tlbi_va (asid va : Z)
  | Ev_ttbr0 (value : Z)
  | Ev_sysreg (name : string) (value : Z)
  | Ev_ipi (cpu_mask intid : Z)
  | Ev_mmio (reg value : Z)
  | Ev_page_freed (pa : Z).

Record machine : Type := Machine {
  m_mem : gmap Z Z;
  m_held : list lock;
  m_mmu_enabled : bool;
  m_trace : list event;
}.

#[export] Instance eta_machine : Eta machine :=
  λ m, Machine (m_mem m) (m_held m) (m_mmu_enabled m) (m_trace m).

Definition mmu_is_enabled : M machine bool := gets m_mmu_enabled.
Definition emit (e : event) : M machine unit :=
  modify (λ m, m <| m_trace := e :: m_trace m |>).

(** A lock is acquired by the CPU only when it does not hold it already and
    no lock of a higher rank. *)
Definition can_lock (l : lock) (held : list lock) : bool :=
  forallb (λ h, negb (bool_decide (h = l)) && (rank h <=? rank l)) held.

Definition spin_lock_irqsave (l : lock) : M machine unit :=
  λ m, if can_lock l (m_held m)
       then Some ((), m <| m_held := l :: m_held m |>) else None.

Definition spin_unlock_irqrestore (l : lock) : M machine unit :=
  λ m, match m_held m with
       | h :: held =>
           if decide (h = l) then Some ((), m <| m_held := held |>) else None
       | [] => None
       end.

(** ** Memory accesses *)

Definition mrd (mem : gmap Z Z) (pa : Z) : Z := default 0 (mem !! pa).

Definition ptr_ok (ptr : Z) : bool := negb (ptr =? 0) && (ptr mod 8 =? 0).

Definition load64 (ptr : Z) : M machine Z :=
  λ m, if ptr_ok ptr then Some (mrd (m_mem m) (va_to_pa ptr), m) else None.

Definition store64 (ptr v : Z) : M machine unit :=
  λ m, if ptr_ok ptr
       then Some ((), m <| m_mem := <[va_to_pa ptr := v]> (m_mem m) |>) else None.

(** Byte accesses, little endian, inside the word that holds the byte. *)
Definition word_of (pa : Z) : Z := pa - pa mod 8.
Definition rd8 (mem : gmap Z Z) (pa : Z) : Z :=
  Z.land (Z.shiftr (mrd mem (word_of pa)) (8 * (pa mod 8))) 255.
Definition wr8 (mem : gmap Z Z) (pa v : Z) : gmap Z Z :=
  let w := mrd mem (word_of pa) in
  let sh := 8 * (pa mod 8) in
  <[word_of pa := Z.lor (Z.land w (not64 (Z.shiftl 255 sh))) (Z.shiftl (u8 v) sh)]> mem.

Definition load8 (ptr : Z) : M machine Z :=
  λ m, if ptr =? 0 then None else Some (rd8 (m_mem m) (va_to_pa ptr), m).
Definition store8 (ptr v : Z) : M machine unit :=
  λ m, if ptr =? 0 then None
       else Some ((), m <| m_mem := wr8 (m_mem m) (va_to_pa ptr) v |>).

(** ** Lemmas *)

Lemma mrd_insert mem a b v :
  mrd (<[a := v]> mem) b = if decide (a = b) then v else mrd mem b.
Proof. unfold mrd. rewrite lookup_insert. by case_decide. Qed.

Lemma mrd_insert_eq mem a v : mrd (<[a := v]> mem) a = v.
Proof. rewrite mrd_insert. by rewrite decide_True. Qed.

Lemma mrd_insert_ne mem a b v : a ≠ b → mrd (<[a := v]> mem) b = mrd mem b.
Proof. intros. rewrite mrd_insert. by rewrite decide_False. Qed.

Lemma wp_lock l (Q : unit → machine → Prop) m :
  can_lock l (m_held m) = true →
  Q () (m <| m_held := l :: m_held m |>) →
  wp (spin_lock_irqsave l) Q m.
Proof. unfold wp, spin_lock_irqsave. by intros ->. Qed.

Lemma wp_unlock l held (Q : unit → machine → Prop) m :
  m_held m = l :: held →
  Q () (m <| m_held := held |>) →
  wp (spin_unlock_irqrestore l) Q m.
Proof. unfold wp, spin_unlock_irqrestore. intros ->. by rewrite decide_True. Qed.

Lemma wp_load64 ptr (Q : Z → machine → Prop) m :
  ptr_ok ptr = true → Q (mrd (m_mem m) (va_to_pa ptr)) m → wp (load64 ptr) Q m.
Proof. unfold wp, load64. by intros ->. Qed.

Lemma wp_store64 ptr v (Q : unit → machine → Prop) m :
  ptr_ok ptr = true →
  Q () (m <| m_mem := <[va_to_pa ptr := v]> (m_mem m) |>) →
  wp (store64 ptr v) Q m.
Proof. unfold wp, store64. by intros ->. Qed.

(** The linear map and its inverse, for physical addresses of 48 bits. *)
Lemma va_to_pa_to_va pa : 0 ≤ pa < 2 ^ 48 → va_to_pa (pa_to_va pa) = pa.
Proof.
  intros. unfold va_to_pa, pa_to_va, u64, KERNEL_VA_OFFSET.
  rewrite Z.mod_small by lia.
  btrue (0xFFFF000000000000 <=? pa + 0xFFFF000000000000). lia.
Qed.

Lemma va_to_pa_low pa : pa < KERNEL_VA_OFFSET → va_to_pa pa = pa.
Proof. intros. unfold va_to_pa. by bfalse (KERNEL_VA_OFFSET <=? pa). Qed.

Lemma pa_to_va_eq pa : 0 ≤ pa < 2 ^ 48 → pa_to_va pa = pa + KERNEL_VA_OFFSET.
Proof. intros. unfold pa_to_va, u64, KERNEL_VA_OFFSET. rewrite Z.mod_small by lia. done. Qed.

Lemma ptr_ok_intro ptr : ptr ≠ 0 → ptr mod 8 = 0 → ptr_ok ptr = true.
Proof. intros. unfold ptr_ok. bfalse (ptr =? 0). by btrue (ptr mod 8 =? 0). Qed.
