(* ===== verification/PageAlloc.v ===== *)
(** * Physical page allocator: src/src/kernel/page_alloc.c

    The allocator's statics are one record; the free list is threaded through
    the first word of each free page of physical memory, as in the code.  The
    linker symbol [__kernel_end] is a parameter of [page_allocator_init]. *)

From S2P Require Import Prelude Machine.

Open Scope kernel_scope.

Definition PAGE_STATE_UNUSED : Z := 0.
Definition PAGE_STATE_FREE : Z := 1.
Definition PAGE_STATE_ALLOCATED : Z := 2.
Definition QEMU_VIRT_MAX_PAGES : Z := QEMU_VIRT_RAM_SIZE / PAGE_SIZE.

(** [struct page]; an entry of [pages] that was never written is zero. *)
Record page : Type := Page { pg_state : Z; pg_ref_count : Z }.

#[export] Instance eta_page : Eta page := λ p, Page (pg_state p) (pg_ref_count p).

Record pastate : Type := PaState {
  pa_machine : machine;
  page_free_list_pa : Z;
  total_pages : Z;
  free_pages : Z;
  reserved_bytes : Z;
  managed_start : Z;
  managed_end : Z;
  invalid_free_count : Z;
  double_free_count : Z;
  pages : gmap Z page;
}.

#[export] Instance eta_pastate : Eta pastate := λ s,
  PaState (pa_machine s) (page_free_list_pa s) (total_pages s) (free_pages s)
    (reserved_bytes s) (managed_start s) (managed_end s) (invalid_free_count s)
    (double_free_count s) (pages s).

#[export, refine] Instance sub_machine_pa : Sub machine pastate := {
  sub_get := pa_machine;
  sub_set := λ m s, s <| pa_machine := m |>;
}.
Proof. all: intros; by destruct t. Defined.

(** ** Address arithmetic *)

Definition align_up (value alignment : Z) : Z := align_up64 value alignment.

Definition page_pa_to_ptr (enabled : bool) (pa : Z) : Z :=
  if enabled then pa_to_va pa else pa.

Definition page_ptr_to_pa (enabled : bool) (ptr : Z) : Z :=
  if enabled && (KERNEL_VA_OFFSET <=? ptr) then va_to_pa ptr else ptr.

Definition page_index_from_address (address : Z) : Z :=
  u64 (address - QEMU_VIRT_RAM_BASE) / PAGE_SIZE.

Definition page_address_is_in_ram (address : Z) : bool :=
  (QEMU_VIRT_RAM_BASE <=? address) && (address <? QEMU_VIRT_RAM_BASE + QEMU_VIRT_RAM_SIZE).

Definition page_state_name_from_value (st : Z) : string :=
  if st =? PAGE_STATE_UNUSED then "unused"
  else if st =? PAGE_STATE_FREE then "free"
  else if st =? PAGE_STATE_ALLOCATED then "allocated"
  else "unknown".

(** The addresses a loop [for (a = start; a < stop; a += PAGE_SIZE)] visits. *)
Definition page_range (start stop : Z) : list Z :=
  (λ k, start + PAGE_SIZE * k) <$> upto 0 ((stop - start + (PAGE_SIZE - 1)) / PAGE_SIZE).

(** ** Accesses to [pages[]] *)

Definition page_at (s : pastate) (idx : Z) : page := default (Page 0 0) (pages s !! idx).

Definition idx_ok (idx : Z) : bool := (0 <=? idx) && (idx <? QEMU_VIRT_MAX_PAGES).

Definition get_page (idx : Z) : M pastate page :=
  λ s, if idx_ok idx then Some (page_at s idx, s) else None.

Definition put_page (idx : Z) (p : page) : M pastate unit :=
  λ s, if idx_ok idx then Some ((), s <| pages := <[idx := p]> (pages s) |>) else None.

Definition set_page_state (idx st : Z) : M pastate unit :=
  p ← get_page idx; put_page idx (p <| pg_state := st |>).

Definition set_page_ref (idx r : Z) : M pastate unit :=
  p ← get_page idx; put_page idx (p <| pg_ref_count := r |>).

Definition set_free_list (pa : Z) : M pastate unit :=
  modify (λ s, s <| page_free_list_pa := pa |>).

Definition lock_page : M pastate unit := up (spin_lock_irqsave L_page).
Definition unlock_page : M pastate unit := up (spin_unlock_irqrestore L_page).

Definition page_allocator_warn (message : string) (address : Z) : M pastate unit :=
  up (emit (Ev_warn message address)).

(** ** Operations *)

Definition zero_page (page_pa : Z) : M pastate unit :=
  enabled ← up mmu_is_enabled;
  let words := page_pa_to_ptr enabled page_pa in
  forM_ (upto 0 (PAGE_SIZE / 8)) (λ index, up (store64 (words + 8 * index) 0)).

(** [node->next = free_list; free_list = page_addr], the push every path shares. *)
Definition push_free (page_addr : Z) : M pastate unit :=
  enabled ← up mmu_is_enabled;
  head ← gets page_free_list_pa;
  up (store64 (page_pa_to_ptr enabled page_addr) head) ;;
  set_free_list page_addr.

Definition count_free_list_nodes : M pastate Z :=
  node_pa ← gets page_free_list_pa;
  whileM (Z.to_nat (QEMU_VIRT_MAX_PAGES + 1)) (λ '(node_pa, count),
    if node_pa =? 0 then mret (inr count) else
    enabled ← up mmu_is_enabled;
    next ← up (load64 (page_pa_to_ptr enabled node_pa));
    mret (inl (page_ptr_to_pa enabled next, count + 1)))
  (node_pa, 0).

Definition page_allocator_rebuild_free_list : M pastate unit :=
  set_free_list 0 ;;
  start ← gets managed_start;
  stop ← gets managed_end;
  forM_ (reverse (page_range start stop)) (λ page_addr,
    p ← get_page (page_index_from_address page_addr);
    whenM (pg_state p =? PAGE_STATE_FREE) (push_free page_addr)).

Definition page_allocator_init (kernel_end : Z) : M pastate unit :=
  let ram_end := QEMU_VIRT_RAM_BASE + QEMU_VIRT_RAM_SIZE in
  let start := align_up (va_to_pa kernel_end) PAGE_SIZE in
  modify (λ s, s <| managed_start := start |> <| managed_end := ram_end |>
                 <| reserved_bytes := u64 (start - QEMU_VIRT_RAM_BASE) |>
                 <| page_free_list_pa := 0 |> <| total_pages := 0 |>
                 <| free_pages := 0 |> <| invalid_free_count := 0 |>
                 <| double_free_count := 0 |>) ;;
  forM_ (upto 0 QEMU_VIRT_MAX_PAGES) (λ page_index,
    set_page_state page_index PAGE_STATE_UNUSED ;;
    set_page_ref page_index 0) ;;
  forM_ (page_range start ram_end) (λ page_addr,
    push_free page_addr ;;
    set_page_state (page_index_from_address page_addr) PAGE_STATE_FREE ;;
    modify (λ s, s <| total_pages := u64 (total_pages s + 1) |>
                   <| free_pages := u64 (free_pages s + 1) |>)).

Definition page_alloc : M pastate Z :=
  lock_page ;;
  page_pa ← gets page_free_list_pa;
  if page_pa =? 0 then unlock_page ;; mret 0 else
  enabled ← up mmu_is_enabled;
  next ← up (load64 (page_pa_to_ptr enabled page_pa));
  set_free_list (page_ptr_to_pa enabled next) ;;
  let idx := page_index_from_address page_pa in
  set_page_state idx PAGE_STATE_ALLOCATED ;;
  set_page_ref idx 1 ;;
  modify (λ s, s <| free_pages := u64 (free_pages s - 1) |>) ;;
  unlock_page ;;
  zero_page page_pa ;;
  mret page_pa.

(** The body of the claim loop of [page_alloc_contiguous]. *)
Definition claim_run (run_start page_count : Z) : M pastate unit :=
  forM_ (upto 0 page_count) (λ offset,
    let alloc_addr := run_start + offset * PAGE_SIZE in
    let alloc_idx := page_index_from_address alloc_addr in
    set_page_state alloc_idx PAGE_STATE_ALLOCATED ;;
    set_page_ref alloc_idx 1 ;;
    zero_page alloc_addr).

(** One step of its scan: the locals are [run_start] and [run_length]. *)
Definition scan_run (page_count : Z) : (Z * Z) → Z → M pastate ((Z * Z) + Z) :=
  λ '(run_start, run_length) page_addr,
    p ← get_page (page_index_from_address page_addr);
    if pg_state p =? PAGE_STATE_FREE then
      let run_start := if run_length =? 0 then page_addr else run_start in
      let run_length := run_length + 1 in
      if run_length =? page_count then
        claim_run run_start page_count ;;
        modify (λ s, s <| free_pages := u64 (free_pages s - page_count) |>) ;;
        page_allocator_rebuild_free_list ;;
        unlock_page ;;
        mret (inr run_start)
      else mret (inl (run_start, run_length))
    else mret (inl (run_start, 0)).

Definition page_alloc_contiguous (page_count : Z) : M pastate Z :=
  lock_page ;;
  fp ← gets free_pages;
  if (page_count =? 0) || (fp <? page_count) then unlock_page ;; mret 0 else
  start ← gets managed_start;
  stop ← gets managed_end;
  r ← iterM (page_range start stop) (scan_run page_count) (0, 0);
  match r with
  | inr run_start => mret run_start
  | inl _ => unlock_page ;; mret 0
  end.

Definition bump_invalid : M pastate unit :=
  modify (λ s, s <| invalid_free_count := u64 (invalid_free_count s + 1) |>).
Definition bump_double : M pastate unit :=
  modify (λ s, s <| double_free_count := u64 (double_free_count s + 1) |>).

Definition page_free (page : Z) : M pastate unit :=
  lock_page ;;
  if page =? 0 then unlock_page else
  if negb (Z.land page (PAGE_SIZE - 1) =? 0) then
    bump_invalid ;; unlock_page ;;
    page_allocator_warn "ignoring unaligned page free" page
  else
  start ← gets managed_start;
  stop ← gets managed_end;
  if (page <? start) || (stop <=? page) then
    bump_invalid ;; unlock_page ;;
    page_allocator_warn "ignoring out-of-range page free" page
  else
  let idx := u32 (page_index_from_address page) in
  p ← get_page idx;
  if negb (pg_state p =? PAGE_STATE_ALLOCATED) then
    bump_double ;; unlock_page ;;
    page_allocator_warn "ignoring duplicate or invalid page free" page
  else if 1 <? pg_ref_count p then
    set_page_ref idx (u16 (pg_ref_count p - 1)) ;; unlock_page
  else
    set_page_ref idx 0 ;;
    push_free page ;;
    set_page_state idx PAGE_STATE_FREE ;;
    modify (λ s, s <| free_pages := u64 (free_pages s + 1) |>) ;;
    unlock_page.

Definition page_ref_inc (pa : Z) : M pastate unit :=
  lock_page ;;
  start ← gets managed_start;
  stop ← gets managed_end;
  if (pa <? start) || (stop <=? pa) then unlock_page else
  let idx := u32 (page_index_from_address pa) in
  p ← get_page idx;
  if negb (pg_state p =? PAGE_STATE_ALLOCATED) || (pg_ref_count p =? 0)
     || (pg_ref_count p =? u16 (not32 0))
  then unlock_page
  else set_page_ref idx (u16 (pg_ref_count p + 1)) ;; unlock_page.

Definition page_ref_dec (pa : Z) : M pastate Z :=
  lock_page ;;
  start ← gets managed_start;
  stop ← gets managed_end;
  if (pa <? start) || (stop <=? pa) then unlock_page ;; mret 0 else
  let idx := u32 (page_index_from_address pa) in
  p ← get_page idx;
  if negb (pg_state p =? PAGE_STATE_ALLOCATED) || (pg_ref_count p =? 0)
  then unlock_page ;; mret 0
  else
  let r := u16 (pg_ref_count p - 1) in
  set_page_ref idx r ;;
  if negb (r =? 0) then unlock_page ;; mret 0 else
  push_free pa ;;
  set_page_state idx PAGE_STATE_FREE ;;
  modify (λ s, s <| free_pages := u64 (free_pages s + 1) |>) ;;
  unlock_page ;;
  mret 1.

Definition page_ref_get (pa : Z) : M pastate Z :=
  lock_page ;;
  start ← gets managed_start;
  stop ← gets managed_end;
  if (pa <? start) || (stop <=? pa) then unlock_page ;; mret 0 else
  let idx := u32 (page_index_from_address pa) in
  p ← get_page idx;
  if negb (pg_state p =? PAGE_STATE_ALLOCATED) then unlock_page ;; mret 0
  else unlock_page ;; mret (pg_ref_count p).

Definition page_free_contiguous (page page_count : Z) : M pastate unit :=
  if (page =? 0) || (page_count =? 0) then mret () else
  lock_page ;;
  if negb (Z.land page (PAGE_SIZE - 1) =? 0) then
    bump_invalid ;; unlock_page ;;
    page_allocator_warn "ignoring unaligned contiguous page free" page
  else
  start ← gets managed_start;
  stop ← gets managed_end;
  if (page <? start) || (stop <? u64 (page + u64 (page_count * PAGE_SIZE))) then
    bump_invalid ;; unlock_page ;;
    page_allocator_warn "ignoring out-of-range contiguous page free" page
  else
  r ← iterM (upto 0 page_count) (λ (_ : unit) offset,
        let free_addr := u64 (page + offset * PAGE_SIZE) in
        p ← get_page (page_index_from_address free_addr);
        if negb (pg_state p =? PAGE_STATE_ALLOCATED) then
          bump_double ;; unlock_page ;;
          page_allocator_warn "ignoring duplicate or invalid contiguous page free" free_addr ;;
          mret (inr ())
        else mret (inl ())) ();
  match r with
  | inr _ => mret ()
  | inl _ =>
      forM_ (upto 0 page_count) (λ offset,
        let free_addr := u64 (page + offset * PAGE_SIZE) in
        set_page_state (page_index_from_address free_addr) PAGE_STATE_FREE) ;;
      modify (λ s, s <| free_pages := u64 (free_pages s + page_count) |>) ;;
      page_allocator_rebuild_free_list ;;
      unlock_page
  end.

(** ** Counters and the consistency check *)

Definition page_allocator_total_pages : M pastate Z := gets total_pages.
Definition page_allocator_free_pages : M pastate Z := gets free_pages.
Definition page_allocator_reserved_bytes : M pastate Z := gets reserved_bytes.
Definition page_allocator_invalid_free_count : M pastate Z := gets invalid_free_count.
Definition page_allocator_double_free_count : M pastate Z := gets double_free_count.
Definition page_allocator_managed_start : M pastate Z := gets managed_start.

Definition page_allocator_page_state_name (address : Z) : M pastate string :=
  if negb (Z.land address (PAGE_SIZE - 1) =? 0) then mret "unaligned"
  else if negb (page_address_is_in_ram address) then mret "out-of-range"
  else p ← get_page (page_index_from_address address);
       mret (page_state_name_from_value (pg_state p)).

(** Its first loop: (free, allocated, mismatches) over the managed window. *)
Definition count_states (start stop : Z) : M pastate (Z * Z * Z) :=
  foldM (page_range start stop) (λ '(nfree, nalloc, mismatches) page_addr,
    p ← get_page (page_index_from_address page_addr);
    mret (if pg_state p =? PAGE_STATE_FREE then (nfree + 1, nalloc, mismatches)
          else if pg_state p =? PAGE_STATE_ALLOCATED then (nfree, nalloc + 1, mismatches)
          else (nfree, nalloc, mismatches + 1))) (0, 0, 0).

Definition page_allocator_check_consistency : M pastate Z :=
  start ← gets managed_start;
  stop ← gets managed_end;
  '(state_free_pages, state_allocated_pages, mismatches) ← count_states start stop;
  total ← gets total_pages;
  free ← gets free_pages;
  let mismatches := if state_free_pages + state_allocated_pages =? total
                    then mismatches else mismatches + 1 in
  let mismatches := if state_free_pages =? free then mismatches else mismatches + 1 in
  free_list_nodes ← count_free_list_nodes;
  let mismatches := if free_list_nodes =? free then mismatches else mismatches + 1 in
  mret mismatches.
