(* ===== verification/PageAllocSpec.v ===== *)
(** * The page allocator: representation invariant, abstract specification
    and refinement.

    [pa_rep fl s] ties the concrete state to the list [fl] of free pages; the
    abstract state is [owned s], the reference count of each allocated page.
    [pa_spec] is the contract of the API over that abstract state and
    [pa_refines] shows that the code implements it. *)

From S2P Require Import Prelude Machine PageAlloc.

Open Scope kernel_scope.

(** ** Views of the state *)

Abbreviation pa_mem s := (m_mem (pa_machine s)).
Abbreviation pa_held s := (m_held (pa_machine s)).

Definition RAM_END : Z := QEMU_VIRT_RAM_BASE + QEMU_VIRT_RAM_SIZE.

(** A page address of physical RAM. *)
Definition ram_page (p : Z) : Prop :=
  QEMU_VIRT_RAM_BASE ≤ p < RAM_END ∧ p mod PAGE_SIZE = 0.

Definition managed (s : pastate) (p : Z) : Prop :=
  managed_start s ≤ p < managed_end s ∧ p mod PAGE_SIZE = 0.

#[export] Instance managed_dec s p : Decision (managed s p).
Proof. unfold managed. apply _. Defined.

Definition pst (s : pastate) (p : Z) : Z := pg_state (page_at s (page_index_from_address p)).
Definition prf (s : pastate) (p : Z) : Z := pg_ref_count (page_at s (page_index_from_address p)).

Definition is_free (s : pastate) (p : Z) : Prop := managed s p ∧ pst s p = PAGE_STATE_FREE.

(** The abstract state: the reference count of every allocated page. *)
Definition owned (s : pastate) (p : Z) : option Z :=
  if decide (managed s p ∧ pst s p = PAGE_STATE_ALLOCATED) then Some (prf s p) else None.

Definition page_of (a : Z) : Z := a - a mod PAGE_SIZE.

(** The free list threaded through memory. *)
Fixpoint chain (mem : gmap Z Z) (head : Z) (l : list Z) : Prop :=
  match l with
  | [] => head = 0
  | p :: l' => head = p ∧ chain mem (mrd mem p) l'
  end.

Record pa_window (s : pastate) : Prop := {
  win_lo : QEMU_VIRT_RAM_BASE ≤ managed_start s;
  win_le : managed_start s ≤ managed_end s;
  win_hi : managed_end s = RAM_END;
  win_al : managed_start s mod PAGE_SIZE = 0;
}.

Definition npages (s : pastate) : Z := (managed_end s - managed_start s) / PAGE_SIZE.

Record pa_rep (fl : list Z) (s : pastate) : Prop := {
  rep_win : pa_window s;
  rep_chain : chain (pa_mem s) (page_free_list_pa s) fl;
  rep_nodup : NoDup fl;
  rep_free : ∀ p, p ∈ fl ↔ is_free s p;
  rep_alloc : ∀ p, managed s p → pst s p = PAGE_STATE_FREE ∨ pst s p = PAGE_STATE_ALLOCATED;
  rep_ref : ∀ p, managed s p → pst s p = PAGE_STATE_ALLOCATED → 1 ≤ prf s p ≤ 65535;
  rep_unused : ∀ p, ram_page p → p < managed_start s → pst s p = PAGE_STATE_UNUSED;
  rep_total : total_pages s = npages s;
  rep_count : free_pages s = Z.of_nat (length fl);
}.

Definition pa_inv (s : pastate) : Prop := ∃ fl, pa_rep fl s.

(** What no operation of the allocator changes. *)
Record pa_env (s s' : pastate) : Prop := {
  env_start : managed_start s' = managed_start s;
  env_end : managed_end s' = managed_end s;
  env_held : pa_held s' = pa_held s;
  env_mmu : m_mmu_enabled (pa_machine s') = m_mmu_enabled (pa_machine s);
}.

#[export] Instance pa_env_preorder : PreOrder pa_env.
Proof.
  split.
  - intros s. by split.
  - intros s1 s2 s3 [] []. split; congruence.
Qed.

(** ** Index arithmetic *)

Lemma index_eq p : ram_page p → page_index_from_address p = (p - QEMU_VIRT_RAM_BASE) / PAGE_SIZE.
Proof.
  unfold page_index_from_address, u64, ram_page, RAM_END, QEMU_VIRT_RAM_BASE, QEMU_VIRT_RAM_SIZE.
  intros. by rewrite (Z.mod_small _ (2 ^ 64)) by lia.
Qed.

Lemma max_pages_eq : QEMU_VIRT_MAX_PAGES = 32768.
Proof. reflexivity. Qed.

Lemma index_ok p : ram_page p → idx_ok (page_index_from_address p) = true.
Proof.
  intros H. rewrite index_eq by done. revert H. unfold idx_ok. rewrite max_pages_eq.
  unfold ram_page, RAM_END, QEMU_VIRT_RAM_BASE, QEMU_VIRT_RAM_SIZE, PAGE_SIZE.
  intros [H1 H2]. apply andb_true_iff. rewrite Z.leb_le, Z.ltb_lt.
  split; [apply Z.div_pos; lia|apply Z.div_lt_upper_bound; lia].
Qed.

Lemma index_inj p q : ram_page p → ram_page q →
  page_index_from_address p = page_index_from_address q → p = q.
Proof.
  intros Hp Hq. rewrite !index_eq by done.
  unfold ram_page, PAGE_SIZE, QEMU_VIRT_RAM_BASE in *. intros.
  Z.div_mod_to_equations; lia.
Qed.

Lemma index_u32 p : ram_page p → u32 (page_index_from_address p) = page_index_from_address p.
Proof.
  intros H. pose proof (index_ok p H) as Hi. unfold idx_ok in Hi.
  apply andb_true_iff in Hi as [Hi1 Hi2]. apply Z.leb_le in Hi1. apply Z.ltb_lt in Hi2.
  unfold u32. apply Z.mod_small. rewrite max_pages_eq in Hi2. lia.
Qed.

Lemma managed_ram s p : pa_window s → managed s p → ram_page p.
Proof. intros [? ? He ?] [? ?]. unfold ram_page, RAM_END in *. rewrite He in *. lia. Qed.

Lemma ram_page_nz p : ram_page p → p ≠ 0.
Proof. unfold ram_page, QEMU_VIRT_RAM_BASE. lia. Qed.

Lemma ram_bounds p : ram_page p → 0 ≤ p < 2 ^ 31.
Proof. unfold ram_page, RAM_END, QEMU_VIRT_RAM_BASE, QEMU_VIRT_RAM_SIZE. lia. Qed.

(** Both forms of a page pointer reach the page's words. *)
Lemma word_ptr_ok en p k : ram_page p → 0 ≤ k < 512 →
  ptr_ok (page_pa_to_ptr en p + 8 * k) = true.
Proof.
  intros Hp Hk. pose proof (ram_bounds p Hp). pose proof (ram_page_nz p Hp).
  destruct Hp as [_ Hal]. unfold PAGE_SIZE in Hal.
  apply ptr_ok_intro; unfold page_pa_to_ptr; destruct en;
    rewrite ?pa_to_va_eq by lia; unfold KERNEL_VA_OFFSET; try lia.
  all: apply Z.mod_divide; [lia|]; apply Z.mod_divide in Hal as [z ->]; [|lia].
  - exists (z * 512 + 0x1FFFE00000000000 + k). lia.
  - exists (z * 512 + k). lia.
Qed.

Lemma word_ptr_pa en p k : ram_page p → 0 ≤ k < 512 →
  va_to_pa (page_pa_to_ptr en p + 8 * k) = p + 8 * k.
Proof.
  intros Hp Hk. pose proof (ram_bounds p Hp).
  unfold page_pa_to_ptr; destruct en.
  - rewrite pa_to_va_eq by lia. unfold va_to_pa, KERNEL_VA_OFFSET.
    btrue (0xFFFF000000000000 <=? p + 0xFFFF000000000000 + 8 * k). lia.
  - apply va_to_pa_low. unfold KERNEL_VA_OFFSET. lia.
Qed.

Lemma page_ptr_ok en p : ram_page p → ptr_ok (page_pa_to_ptr en p) = true.
Proof.
  intros. replace (page_pa_to_ptr en p) with (page_pa_to_ptr en p + 8 * 0) by lia.
  apply word_ptr_ok; [done|lia].
Qed.

Lemma page_ptr_pa en p : ram_page p → va_to_pa (page_pa_to_ptr en p) = p.
Proof.
  intros. replace (page_pa_to_ptr en p) with (page_pa_to_ptr en p + 8 * 0) by lia.
  rewrite word_ptr_pa; [lia|done|lia].
Qed.

Lemma page_ptr_to_pa_low en v : v < KERNEL_VA_OFFSET → page_ptr_to_pa en v = v.
Proof.
  intros. unfold page_ptr_to_pa. bfalse (KERNEL_VA_OFFSET <=? v).
  by rewrite andb_false_r.
Qed.

(** ** Primitive steps *)

Lemma wp_get_page idx (Q : page → pastate → Prop) s :
  idx_ok idx = true → Q (page_at s idx) s → wp (get_page idx) Q s.
Proof. unfold wp, get_page. by intros ->. Qed.

Lemma wp_set_page_state idx st (Q : unit → pastate → Prop) s :
  idx_ok idx = true →
  Q () (s <| pages := <[idx := (page_at s idx) <| pg_state := st |>]> (pages s) |>) →
  wp (set_page_state idx st) Q s.
Proof. unfold wp, set_page_state, get_page, put_page, mbind, M_bind. by intros ->. Qed.

Lemma wp_set_page_ref idx r (Q : unit → pastate → Prop) s :
  idx_ok idx = true →
  Q () (s <| pages := <[idx := (page_at s idx) <| pg_ref_count := r |>]> (pages s) |>) →
  wp (set_page_ref idx r) Q s.
Proof. unfold wp, set_page_ref, get_page, put_page, mbind, M_bind. by intros ->. Qed.

Lemma wp_set_page_both {A} idx st r (k : unit → M pastate A) (Q : A → pastate → Prop) s :
  idx_ok idx = true →
  wp (k ()) Q (s <| pages := <[idx := Page st r]> (pages s) |>) →
  wp (set_page_state idx st) (λ _ s', wp (set_page_ref idx r ≫= k) Q s') s.
Proof.
  intros Hi Hk. apply wp_set_page_state; [done|].
  rewrite wp_bind. apply wp_set_page_ref; [done|].
  unfold page_at; cbn. rewrite lookup_insert_eq, insert_insert_eq. exact Hk.
Qed.

Lemma wp_lock_page (Q : unit → pastate → Prop) s :
  can_lock L_page (pa_held s) = true →
  Q () (s <| pa_machine := (pa_machine s) <| m_held := L_page :: pa_held s |> |>) →
  wp lock_page Q s.
Proof. intros. apply wp_up. by apply wp_lock. Qed.

Lemma wp_unlock_page held (Q : unit → pastate → Prop) s :
  pa_held s = L_page :: held →
  Q () (s <| pa_machine := (pa_machine s) <| m_held := held |> |>) →
  wp unlock_page Q s.
Proof. intros. apply wp_up. by eapply wp_unlock. Qed.

Lemma wp_push_free p (Q : unit → pastate → Prop) s :
  ram_page p →
  Q () (s <| pa_machine := (pa_machine s) <| m_mem := <[p := page_free_list_pa s]> (pa_mem s) |> |>
          <| page_free_list_pa := p |>) →
  wp (push_free p) Q s.
Proof.
  intros Hp HQ. unfold push_free, mmu_is_enabled, set_free_list. wp_steps.
  apply wp_store64; [by apply page_ptr_ok|]. rewrite page_ptr_pa by done.
  wp_steps. exact HQ.
Qed.

(** The effect of [zero_page] on memory. *)
Record zeroed (p : Z) (mem mem' : gmap Z Z) : Prop := {
  zeroed_in : ∀ k, 0 ≤ k < 512 → mrd mem' (p + 8 * k) = 0;
  zeroed_out : ∀ a, page_of a ≠ p → mrd mem' a = mrd mem a;
}.

Lemma page_of_word p k : p mod PAGE_SIZE = 0 → 0 ≤ k < 512 → page_of (p + 8 * k) = p.
Proof.
  unfold page_of, PAGE_SIZE. intros Hp Hk.
  rewrite Z.add_mod, Hp, Z.add_0_l, Z.mod_mod, Z.mod_small by lia. lia.
Qed.

Lemma page_of_page p : p mod PAGE_SIZE = 0 → page_of p = p.
Proof. unfold page_of. lia. Qed.

Lemma wp_zero_page p (Q : unit → pastate → Prop) s :
  ram_page p →
  (∀ mem', zeroed p (pa_mem s) mem' →
     Q () (s <| pa_machine := (pa_machine s) <| m_mem := mem' |> |>)) →
  wp (zero_page p) Q s.
Proof.
  intros Hp HQ. unfold zero_page, mmu_is_enabled. wp_steps.
  set (I := λ (done : list Z) (s' : pastate), ∃ mem',
    s' = s <| pa_machine := (pa_machine s) <| m_mem := mem' |> |> ∧
    (∀ k, k ∈ done → mrd mem' (p + 8 * k) = 0) ∧
    (∀ a, page_of a ≠ p → mrd mem' a = mrd (pa_mem s) a)).
  eapply wp_mono; [apply (wp_forM _ _ I)|].
  - exists (pa_mem s). split; [by destruct s as [[]]|]. set_solver.
  - intros pre k post s' Heq (mem' & -> & Hz & Ho).
    assert (0 ≤ k < 512) as Hk.
    { assert (k ∈ upto 0 (PAGE_SIZE / 8)) as Hin by (rewrite Heq; set_solver).
      rewrite upto_seqZ, elem_of_seqZ in Hin. unfold PAGE_SIZE in Hin.
      change (0 + 4096 / 8) with 512 in Hin. lia. }
    rewrite wp_up. apply wp_store64; [by apply word_ptr_ok|].
    rewrite word_ptr_pa by done. eexists. split; [reflexivity|]. split.
    + intros k' Hk'. cbn. rewrite mrd_insert. case_decide; [done|].
      apply Hz. apply elem_of_app in Hk' as [?|?%list_elem_of_singleton]; [done|].
      subst. lia.
    + intros a Ha. cbn. rewrite mrd_insert_ne; [by apply Ho|].
      intros <-. apply Ha. apply page_of_word; [apply Hp|done].
  - intros [] s' (mem' & -> & Hz & Ho). apply HQ. split; [|done].
    intros k Hk. apply Hz. rewrite upto_seqZ, elem_of_seqZ. unfold PAGE_SIZE.
    change (0 + 4096 / 8) with 512. lia.
Qed.

(** ** The page range and the rebuilt free list *)

Lemma elem_of_page_range start stop p :
  start mod PAGE_SIZE = 0 →
  p ∈ page_range start stop ↔ start ≤ p < stop ∧ p mod PAGE_SIZE = 0.
Proof.
  intros Hal. unfold page_range, PAGE_SIZE in *.
  rewrite list_elem_of_fmap. setoid_rewrite upto_seqZ. setoid_rewrite elem_of_seqZ. split.
  - intros (k & -> & Hk). split; [Z.div_mod_to_equations; lia|].
    rewrite (Z.mul_comm 4096), Z.mod_add by lia. done.
  - intros [Hb Hp]. exists ((p - start) / 4096). Z.div_mod_to_equations; lia.
Qed.

Lemma page_range_nodup start stop : NoDup (page_range start stop).
Proof.
  unfold page_range. rewrite upto_seqZ. apply NoDup_fmap_2; [|apply NoDup_seqZ].
  intros x y. unfold PAGE_SIZE. lia.
Qed.

Lemma page_range_length s : pa_window s →
  Z.of_nat (length (page_range (managed_start s) (managed_end s))) = npages s.
Proof.
  intros [? ? He ?]. unfold page_range, npages. rewrite upto_seqZ, length_fmap, length_seqZ.
  unfold RAM_END, QEMU_VIRT_RAM_BASE, QEMU_VIRT_RAM_SIZE, PAGE_SIZE in *.
  rewrite He in *. Z.div_mod_to_equations; lia.
Qed.

Lemma elem_of_window s p : pa_window s →
  p ∈ page_range (managed_start s) (managed_end s) ↔ managed s p.
Proof. intros Hw. apply elem_of_page_range, Hw. Qed.

Lemma chain_frame mem mem' h l :
  chain mem h l → (∀ p, p ∈ l → mrd mem' p = mrd mem p) → chain mem' h l.
Proof.
  revert h. induction l as [|p l IH]; intros h; [done|].
  intros [-> Hc] Hf. split; [done|]. rewrite Hf by set_solver. apply IH; set_solver.
Qed.

Definition free_scan (s : pastate) : list Z :=
  filter (λ p, pst s p = PAGE_STATE_FREE) (page_range (managed_start s) (managed_end s)).

Lemma elem_of_free_scan s p : pa_window s → p ∈ free_scan s ↔ is_free s p.
Proof.
  intros Hw. unfold free_scan, is_free. rewrite list_elem_of_filter, elem_of_window by done.
  tauto.
Qed.

Lemma free_scan_nodup s : NoDup (free_scan s).
Proof. apply NoDup_filter, page_range_nodup. Qed.

Lemma wp_rebuild (Q : unit → pastate → Prop) s :
  pa_window s →
  (∀ mem' h, chain mem' h (free_scan s) →
     (∀ a, a ∉ free_scan s → mrd mem' a = mrd (pa_mem s) a) →
     Q () (s <| pa_machine := (pa_machine s) <| m_mem := mem' |> |>
             <| page_free_list_pa := h |>)) →
  wp page_allocator_rebuild_free_list Q s.
Proof.
  intros Hw HQ. unfold page_allocator_rebuild_free_list, set_free_list. wp_steps. cbn.
  set (I := λ (done : list Z) (s' : pastate), ∃ mem' h,
    s' = s <| pa_machine := (pa_machine s) <| m_mem := mem' |> |> <| page_free_list_pa := h |> ∧
    chain mem' h (filter (λ p, pst s p = PAGE_STATE_FREE) (reverse done)) ∧
    (∀ a, a ∉ free_scan s → mrd mem' a = mrd (pa_mem s) a)).
  eapply wp_mono; [apply (wp_forM _ _ I)|].
  - exists (pa_mem s), 0. by destruct s as [[]].
  - intros pre p post s' Heq (mem' & h & -> & Hc & Hf).
    assert (p ∈ page_range (managed_start s) (managed_end s)) as Hin.
    { apply elem_of_reverse. rewrite Heq. set_solver. }
    assert (p ∉ pre) as Hnin.
    { apply (NoDup_mid_notin _ _ _ _ Heq), NoDup_reversed, page_range_nodup. }
    assert (ram_page p) as Hp by (eapply managed_ram; [done|by apply elem_of_window]).
    rewrite wp_bind. apply wp_get_page; [by apply index_ok|].
    unfold I. rewrite reverse_snoc, filter_cons. cbn -[page_index_from_address].
    change (page_at _ _) with (page_at s (page_index_from_address p)).
    fold (pst s p). destruct (pst s p =? PAGE_STATE_FREE) eqn:Hst; bool_to_prop; cbn [whenM].
    + apply wp_push_free; [done|]. exists (<[p := h]> mem'), p.
      rewrite decide_True by done. split; [done|]. split.
      * split; [done|]. rewrite mrd_insert_eq. eapply chain_frame; [done|].
        intros q Hq. apply mrd_insert_ne. intros <-.
        apply list_elem_of_filter in Hq as [_ Hq]. rewrite elem_of_reverse in Hq. done.
      * intros a Ha. cbn. rewrite mrd_insert_ne; [by apply Hf|]. intros <-. apply Ha.
        by apply list_elem_of_filter.
    + apply wp_ret. exists mem', h. by rewrite decide_False.
  - intros [] s' (mem' & h & -> & Hc & Hf). rewrite reverse_involutive in Hc. by apply HQ.
Qed.

(** ** Transporting the invariant over a change of some pages *)

(** [pages_upd X f s s']: exactly the pages of [X] changed their entry, to [f]. *)
Definition pages_upd (X : list Z) (f : Z → page) (s s' : pastate) : Prop :=
  ∀ q, ram_page q →
    page_at s' (page_index_from_address q) =
    if decide (q ∈ X) then f q else page_at s (page_index_from_address q).

Lemma pages_upd_one p pg s (s' : pastate) :
  ram_page p → pages s' = <[page_index_from_address p := pg]> (pages s) →
  pages_upd [p] (λ _, pg) s s'.
Proof.
  intros Hp Hs q Hq. unfold page_at. rewrite Hs, lookup_insert.
  destruct (decide (p = q)) as [->|Hne].
  - rewrite !decide_True by set_solver. done.
  - rewrite !decide_False; [done|set_solver|]. intros Heq. apply Hne. by apply index_inj.
Qed.

Definition page_ok (pg : page) : Prop :=
  pg_state pg = PAGE_STATE_FREE ∨
  (pg_state pg = PAGE_STATE_ALLOCATED ∧ 1 ≤ pg_ref_count pg ≤ 65535).

Lemma managed_env s s' p : pa_env s s' → managed s' p ↔ managed s p.
Proof. intros [H1 H2 _ _]. unfold managed. by rewrite H1, H2. Qed.

Lemma pa_rep_upd X f fl fl' s s' :
  pa_rep fl s → pa_env s s' → pages_upd X f s s' →
  (∀ q, q ∈ X → managed s q ∧ page_ok (f q)) →
  total_pages s' = total_pages s → free_pages s' = Z.of_nat (length fl') →
  chain (pa_mem s') (page_free_list_pa s') fl' → NoDup fl' →
  (∀ q, q ∈ fl' ↔ if decide (q ∈ X) then pg_state (f q) = PAGE_STATE_FREE else q ∈ fl) →
  pa_rep fl' s'.
Proof.
  intros [Hw Hc Hnd Hfr Hal Hrf Hun Htot Hcnt] He Hu HX Ht Hn Hc' Hnd' Hfl'.
  assert (pa_window s') as Hw'.
  { destruct Hw, He. split; congruence. }
  assert (∀ q, managed s q → pst s' q = if decide (q ∈ X) then pg_state (f q) else pst s q)
    as Hst.
  { intros q Hq. unfold pst. rewrite Hu by (eauto using managed_ram). by case_decide. }
  split; try done.
  - intros q. rewrite Hfl'. unfold is_free. rewrite managed_env by done.
    case_decide as Hq.
    + split; [|intros [Hm Hs]; rewrite Hst, decide_True in Hs by done; done].
      intros Hf. destruct (HX q Hq) as [Hm _]. split; [done|].
      by rewrite Hst, decide_True.
    + rewrite Hfr. unfold is_free. split; intros [Hm Hs]; (split; [done|]).
      * by rewrite Hst, decide_False.
      * by rewrite Hst, decide_False in Hs.
  - intros q Hq. rewrite managed_env in Hq by done. rewrite Hst by done. case_decide as Hx.
    + destruct (HX q Hx) as [_ [?|[? _]]]; auto.
    + by apply Hal.
  - intros q Hq. rewrite managed_env in Hq by done. rewrite Hst by done. unfold prf.
    rewrite Hu by (eauto using managed_ram). case_decide as Hx.
    + intros Hs. destruct (HX q Hx) as [_ [Hf|[_ ?]]]; [|done].
      by rewrite Hs in Hf.
    + by apply Hrf.
  - intros q Hq Hlt. rewrite (env_start _ _ He) in Hlt. unfold pst. rewrite Hu by done.
    rewrite decide_False; [by apply Hun|]. intros Hx. destruct (HX q Hx) as [[? _] _]. lia.
  - rewrite Ht, Htot. unfold npages. destruct He. congruence.
Qed.

Lemma owned_upd X f s s' q :
  pa_window s → pa_env s s' → pages_upd X f s s' →
  (∀ r, r ∈ X → managed s r) →
  owned s' q = if decide (q ∈ X)
               then if decide (pg_state (f q) = PAGE_STATE_ALLOCATED)
                    then Some (pg_ref_count (f q)) else None
               else owned s q.
Proof.
  intros Hw He Hu HX. unfold owned, pst, prf.
  destruct (decide (managed s q)) as [Hm|Hm].
  - rewrite Hu by (eauto using managed_ram). pose proof (managed_env _ _ q He).
    repeat case_decide; naive_solver.
  - pose proof (managed_env _ _ q He). repeat case_decide; naive_solver.
Qed.

Lemma owned_upd_one p pg s s' q :
  pa_window s → pa_env s s' → pages_upd [p] (λ _, pg) s s' → managed s p →
  owned s' q = if decide (q = p)
               then if decide (pg_state pg = PAGE_STATE_ALLOCATED)
                    then Some (pg_ref_count pg) else None
               else owned s q.
Proof.
  intros Hw He Hu Hm. rewrite (owned_upd _ _ _ _ q Hw He Hu)
    by (by intros ? ->%list_elem_of_singleton).
  destruct (decide (q = p)) as [->|]; [by rewrite decide_True by (by apply list_elem_of_singleton)|].
  by rewrite decide_False by (by rewrite list_elem_of_singleton).
Qed.

Lemma owned_managed s p r : owned s p = Some r → managed s p ∧ pst s p = PAGE_STATE_ALLOCATED ∧ prf s p = r.
Proof. unfold owned. case_decide; naive_solver. Qed.

Lemma owned_None_free fl s p : pa_rep fl s → managed s p → owned s p = None ↔ is_free s p.
Proof.
  intros Hr Hm. unfold owned, is_free. destruct (rep_alloc _ _ Hr p Hm) as [Hs|Hs]; rewrite Hs.
  - rewrite decide_False; [done|]. by intros [_ ?].
  - rewrite decide_True by done. split; [done|]. by intros [_ ?].
Qed.

Lemma npages_bound s : pa_window s → 0 ≤ npages s ≤ 32768.
Proof.
  intros [? ? He ?]. unfold npages, RAM_END, QEMU_VIRT_RAM_BASE, QEMU_VIRT_RAM_SIZE, PAGE_SIZE in *.
  rewrite He in *. Z.div_mod_to_equations; lia.
Qed.

Lemma rep_length fl s : pa_rep fl s → Z.of_nat (length fl) ≤ npages s.
Proof.
  intros Hr. rewrite <- page_range_length by apply Hr. apply Nat2Z.inj_le, submseteq_length.
  apply NoDup_submseteq; [apply Hr|]. intros p Hp. apply elem_of_window; [apply Hr|].
  by apply (rep_free _ _ Hr) in Hp as [? _].
Qed.

Lemma rep_bounds fl s : pa_rep fl s → Z.of_nat (length fl) ≤ 32768.
Proof. intros Hr. pose proof (rep_length _ _ Hr). pose proof (npages_bound s (rep_win _ _ Hr)). lia. Qed.

(** ** The operations on one page *)

Lemma free_list_low fl s : pa_rep fl s →
  page_free_list_pa s < KERNEL_VA_OFFSET ∧
  (∀ p, p ∈ fl → mrd (pa_mem s) p < KERNEL_VA_OFFSET).
Proof.
  intros Hrep.
  assert (∀ h l, chain (pa_mem s) h l → (∀ q, q ∈ l → q ∈ fl) →
            h < KERNEL_VA_OFFSET ∧ (∀ p, p ∈ l → mrd (pa_mem s) p < KERNEL_VA_OFFSET)) as Hgen.
  { intros h l. revert h. induction l as [|p l IH]; intros h.
    - intros -> _. split; [unfold KERNEL_VA_OFFSET; lia|set_solver].
    - intros [-> Hc] Hin. destruct (IH _ Hc) as [Hh Hl]; [set_solver|]. split.
      + assert (is_free s p) as [Hm _] by (apply (rep_free _ _ Hrep); set_solver).
        pose proof (ram_bounds p (managed_ram _ _ (rep_win _ _ Hrep) Hm)).
        unfold KERNEL_VA_OFFSET. lia.
      + intros q [->|Hq]%elem_of_cons; auto. }
  apply (Hgen _ fl); [apply Hrep|done].
Qed.

Lemma rep_free_aligned fl s p : pa_rep fl s → p ∈ fl → p mod PAGE_SIZE = 0.
Proof. intros Hr Hp. by apply (rep_free _ _ Hr) in Hp as [[_ ?] _]. Qed.

Lemma page_alloc_spec fl s :
  pa_rep fl s → can_lock L_page (pa_held s) = true →
  wp page_alloc (λ p s', pa_env s s' ∧
    match fl with
    | [] => p = 0 ∧ s' = s
    | q :: fl' =>
        p = q ∧ pa_rep fl' s' ∧ zeroed p (pa_mem s) (pa_mem s') ∧
        (∀ r, owned s' r = if decide (r = p) then Some 1 else owned s r)
    end) s.
Proof.
  intros Hrep Hlk. unfold page_alloc. rewrite wp_bind. apply wp_lock_page; [done|]. wp_steps. cbn.
  destruct fl as [|p fl'].
  - pose proof (rep_chain _ _ Hrep : _ = 0). btrue (page_free_list_pa s =? 0). wp_steps.
    eapply wp_unlock_page; [done|]. apply wp_ret. split; [by split|].
    split; [done|by destruct s as [[]]].
  - destruct (rep_chain _ _ Hrep) as [Hh Hc]. rewrite Hh.
    assert (is_free s p) as [Hm Hst] by (apply (rep_free _ _ Hrep); set_solver).
    assert (ram_page p) as Hp by (eauto using managed_ram, rep_win).
    pose proof (ram_page_nz p Hp). bfalse (p =? 0). unfold mmu_is_enabled. wp_steps.
    apply wp_load64; [by apply page_ptr_ok|]. rewrite page_ptr_pa by done. cbn.
    rewrite page_ptr_to_pa_low by (apply (free_list_low _ _ Hrep); set_solver).
    unfold set_free_list. wp_steps.
    apply wp_set_page_both; [by apply index_ok|]. wp_steps.
    eapply wp_unlock_page; [done|]. wp_steps.
    apply wp_zero_page; [done|]. intros mem' Hz. wp_steps. cbn in Hz |- *.
    match goal with |- pa_env _ ?x ∧ _ => set (s' := x) end.
    assert (pages_upd [p] (λ _, Page PAGE_STATE_ALLOCATED 1) s s') as Hu
      by (by apply pages_upd_one).
    assert (pa_env s s') as He by done. split; [done|]. split; [done|].
    pose proof (rep_nodup _ _ Hrep) as [Hnin Hnd]%NoDup_cons. split; [|split; [done|]].
    + eapply (pa_rep_upd [p]); try done.
      * intros q ->%list_elem_of_singleton. split; [done|]. right. cbn. lia.
      * subst s'. cbn. rewrite (rep_count _ _ Hrep). pose proof (rep_bounds _ _ Hrep).
        cbn [length] in *. rewrite u64_small; lia.
      * eapply chain_frame; [done|]. intros q Hq. apply Hz.
        rewrite page_of_page by (apply (rep_free_aligned _ _ _ Hrep); set_solver). congruence.
      * intros q. case_decide as Hq; [|set_solver].
        apply list_elem_of_singleton in Hq as ->. by split.
    + intros r. by rewrite (owned_upd_one p _ s s' r (rep_win _ _ Hrep) He Hu Hm).
Qed.

Lemma land_page_mask p : Z.land p (PAGE_SIZE - 1) = p mod PAGE_SIZE.
Proof. unfold PAGE_SIZE. change (4096 - 1) with (Z.ones 12). by rewrite Z.land_ones. Qed.

(** Only counters and the trace differ. *)
Record pa_same (s s' : pastate) : Prop := {
  same_env : pa_env s s';
  same_mem : pa_mem s' = pa_mem s;
  same_list : page_free_list_pa s' = page_free_list_pa s;
  same_total : total_pages s' = total_pages s;
  same_free : free_pages s' = free_pages s;
  same_pages : pages s' = pages s;
}.

Lemma pa_same_refl s : pa_same s s.
Proof. by split. Qed.

Lemma pa_same_owned s s' q : pa_same s s' → owned s' q = owned s q.
Proof.
  intros [He _ _ _ _ Hp]. pose proof (managed_env _ _ q He).
  assert (pst s' q = pst s q) by (unfold pst, page_at; by rewrite Hp).
  assert (prf s' q = prf s q) by (unfold prf, page_at; by rewrite Hp).
  unfold owned. repeat case_decide; try done; [congruence|exfalso..]; intuition congruence.
Qed.

Lemma pa_same_rep fl s s' : pa_same s s' → pa_rep fl s → pa_rep fl s'.
Proof.
  intros [He Hm Hl Ht Hf Hp] Hr. eapply (pa_rep_upd [] (λ _, Page 0 0)); try done; try apply Hr.
  - intros q Hq. unfold page_at. by rewrite Hp.
  - by intros ? ?%not_elem_of_nil.
  - by rewrite Hf, (rep_count _ _ Hr).
  - rewrite Hm, Hl. apply Hr.
Qed.

(** A page goes back to the head of the free list. *)
Lemma pa_rep_release fl s s' p r :
  pa_rep fl s → managed s p → pst s p = PAGE_STATE_ALLOCATED → pa_env s s' →
  pages s' = <[page_index_from_address p := Page PAGE_STATE_FREE r]> (pages s) →
  pa_mem s' = <[p := page_free_list_pa s]> (pa_mem s) → page_free_list_pa s' = p →
  total_pages s' = total_pages s → free_pages s' = u64 (free_pages s + 1) →
  pa_rep (p :: fl) s' ∧ (∀ q, owned s' q = if decide (q = p) then None else owned s q).
Proof.
  intros Hr Hm Hst He Hpg Hmem Hl Ht Hf.
  assert (ram_page p) as Hp by (eapply managed_ram; [apply Hr|done]).
  pose proof (pages_upd_one _ _ _ _ Hp Hpg) as Hu.
  assert (p ∉ fl) as Hnin.
  { intros Hin. apply (rep_free _ _ Hr) in Hin as [_ Hin]. by rewrite Hst in Hin. }
  split.
  - eapply (pa_rep_upd [p]); try done.
    + intros q ->%list_elem_of_singleton. split; [done|]. by left.
    + pose proof (rep_bounds _ _ Hr). rewrite Hf, (rep_count _ _ Hr). cbn [length].
      rewrite u64_small; lia.
    + rewrite Hl, Hmem. split; [done|]. rewrite mrd_insert_eq.
      eapply chain_frame; [apply Hr|]. intros q Hq. apply mrd_insert_ne. congruence.
    + apply NoDup_cons. split; [done|apply Hr].
    + intros q. case_decide as Hq; [|set_solver].
      apply list_elem_of_singleton in Hq as ->. split; [done|]. intros _. set_solver.
  - intros q. by rewrite (owned_upd_one p _ s s' q (rep_win _ _ Hr) He Hu Hm).
Qed.

(** The reference count of an allocated page changes. *)
Lemma pa_rep_setref fl s s' p r :
  pa_rep fl s → managed s p → pst s p = PAGE_STATE_ALLOCATED → 1 ≤ r ≤ 65535 →
  pa_env s s' →
  pages s' = <[page_index_from_address p := Page PAGE_STATE_ALLOCATED r]> (pages s) →
  pa_mem s' = pa_mem s → page_free_list_pa s' = page_free_list_pa s →
  total_pages s' = total_pages s → free_pages s' = free_pages s →
  pa_rep fl s' ∧ (∀ q, owned s' q = if decide (q = p) then Some r else owned s q).
Proof.
  intros Hr Hm Hst Hb He Hpg Hmem Hl Ht Hf.
  assert (ram_page p) as Hp by (eapply managed_ram; [apply Hr|done]).
  pose proof (pages_upd_one _ _ _ _ Hp Hpg) as Hu. split.
  - eapply (pa_rep_upd [p]); try done; try apply Hr.
    + intros q ->%list_elem_of_singleton. split; [done|]. by right.
    + by rewrite Hf, (rep_count _ _ Hr).
    + rewrite Hmem, Hl. apply Hr.
    + intros q. case_decide as Hq; [|done].
      apply list_elem_of_singleton in Hq as ->. rewrite (rep_free _ _ Hr).
      unfold is_free. rewrite Hst. by split; [intros [_ ?]|].
  - intros q. by rewrite (owned_upd_one p _ s s' q (rep_win _ _ Hr) He Hu Hm).
Qed.

Lemma page_free_spec fl s p :
  pa_rep fl s → can_lock L_page (pa_held s) = true → 0 ≤ p →
  wp (page_free p) (λ _ s', pa_env s s' ∧
    match owned s p with
    | None =>
        pa_same s s' ∧
        invalid_free_count s' = (if decide (p ≠ 0 ∧ ¬ managed s p)
          then u64 (invalid_free_count s + 1) else invalid_free_count s) ∧
        double_free_count s' = (if decide (managed s p)
          then u64 (double_free_count s + 1) else double_free_count s)
    | Some r =>
        if 1 <? r then
          pa_rep fl s' ∧ pa_mem s' = pa_mem s ∧
          (∀ q, owned s' q = if decide (q = p) then Some (r - 1) else owned s q)
        else
          pa_rep (p :: fl) s' ∧ pa_mem s' = <[p := page_free_list_pa s]> (pa_mem s) ∧
          (∀ q, owned s' q = if decide (q = p) then None else owned s q)
    end) s.
Proof.
  intros Hr Hlk Hp0. unfold page_free. rewrite wp_bind. apply wp_lock_page; [done|].
  rewrite land_page_mask.
  assert (¬ managed s p → owned s p = None) as Hno.
  { intros Hm. unfold owned. rewrite decide_False; tauto. }
  assert (managed s p ↔ p mod PAGE_SIZE = 0 ∧ managed_start s ≤ p < managed_end s) as Hman
    by (unfold managed; tauto).
  apply wp_if; intros Hz; bool_to_prop.
  { subst p. eapply wp_unlock_page; [done|].
    assert (¬ managed s 0) as Hm.
    { intros Hm%(managed_ram _ _ (rep_win _ _ Hr))%ram_page_nz. done. }
    rewrite Hno by done. rewrite !decide_False by (intros ?; naive_solver).
    split; [done|]. split; [|done]. by split. }
  apply wp_if; intros Hal; bool_to_prop.
  { assert (¬ managed s p) as Hm by tauto. rewrite Hno by done. unfold bump_invalid. wp_steps.
    eapply wp_unlock_page; [done|]. unfold page_allocator_warn, emit. wp_steps.
    rewrite decide_True by done. rewrite decide_False by done. split; [done|]. by split. }
  wp_steps. cbn. apply wp_if; intros Hrg; bool_to_prop.
  { assert (¬ managed s p) as Hm by (rewrite Hman; destruct Hrg; bool_to_prop; lia).
    rewrite Hno by done. unfold bump_invalid. wp_steps.
    eapply wp_unlock_page; [done|]. unfold page_allocator_warn, emit. wp_steps.
    rewrite decide_True by done. rewrite decide_False by done. split; [done|]. by split. }
  assert (managed s p) as Hm by (apply Hman; lia).
  assert (ram_page p) as Hram by (eapply managed_ram; [apply Hr|done]).
  rewrite index_u32 by done. rewrite wp_bind. apply wp_get_page; [by apply index_ok|].
  change (page_at _ _) with (page_at s (page_index_from_address p)).
  change (pg_state (page_at s (page_index_from_address p))) with (pst s p).
  change (pg_ref_count (page_at s (page_index_from_address p))) with (prf s p).
  apply wp_if; intros Hst; bool_to_prop.
  { unfold owned. rewrite decide_False by tauto. unfold bump_double. wp_steps.
    eapply wp_unlock_page; [done|]. unfold page_allocator_warn, emit. wp_steps.
    rewrite decide_False by tauto. rewrite decide_True by done. split; [done|]. by split. }
  unfold owned. rewrite decide_True by done.
  pose proof (rep_ref _ _ Hr p Hm Hst) as Hb.
  destruct (1 <? prf s p) eqn:Hc; bool_to_prop.
  - wp_steps. apply wp_set_page_ref; [by apply index_ok|]. eapply wp_unlock_page; [done|].
    match goal with |- pa_env _ ?x ∧ _ => set (s' := x) end.
    destruct (pa_rep_setref fl s s' p (prf s p - 1)) as [? ?]; try done.
    { lia. }
    subst s'. cbn. unfold page_at; cbn. fold (page_at s (page_index_from_address p)).
    fold (pst s p). by rewrite Hst, u16_small by lia.
  - wp_steps. apply wp_set_page_ref; [by apply index_ok|]. wp_steps.
    apply wp_push_free; [done|]. wp_steps.
    apply wp_set_page_state; [by apply index_ok|]. wp_steps.
    eapply wp_unlock_page; [done|].
    match goal with |- pa_env _ ?x ∧ _ => set (s' := x) end.
    destruct (pa_rep_release fl s s' p 0) as [? ?]; try done.
    subst s'. cbn. unfold page_at; cbn. by rewrite lookup_insert_eq, insert_insert_eq.
Qed.

(** ** Reference counts: any address inside the page names it *)

Lemma page_of_aligned a : page_of a mod PAGE_SIZE = 0.
Proof. unfold page_of, PAGE_SIZE. Z.div_mod_to_equations; lia. Qed.

Lemma page_of_managed s a : pa_window s →
  managed s (page_of a) ↔ managed_start s ≤ a < managed_end s.
Proof.
  intros [? ? He Ha]. pose proof (page_of_aligned a). unfold managed. rewrite He.
  unfold page_of, RAM_END, QEMU_VIRT_RAM_BASE, QEMU_VIRT_RAM_SIZE, PAGE_SIZE in *.
  split; [intros [? ?]|intros ?; split; [|done]]; Z.div_mod_to_equations; lia.
Qed.

Lemma index_page_of s a : pa_window s → managed_start s ≤ a < managed_end s →
  page_index_from_address a = page_index_from_address (page_of a).
Proof.
  intros [? ? He Ha] Hb. rewrite He in Hb.
  unfold page_index_from_address, u64, page_of, RAM_END, QEMU_VIRT_RAM_BASE, QEMU_VIRT_RAM_SIZE, PAGE_SIZE in *.
  rewrite !(Z.mod_small _ (2 ^ 64)); Z.div_mod_to_equations; lia.
Qed.

(** The prefix the three reference-count operations share. *)
Lemma wp_page_lookup {A} a (out : M pastate A) (k : page → M pastate A) Q s :
  pa_window s →
  (¬ managed s (page_of a) → wp out Q s) →
  (managed s (page_of a) → ram_page (page_of a) →
   u32 (page_index_from_address a) = page_index_from_address (page_of a) →
   wp (k (page_at s (page_index_from_address (page_of a)))) Q s) →
  wp (start ← gets managed_start; stop ← gets managed_end;
      if (a <? start) || (stop <=? a) then out else
      p ← get_page (u32 (page_index_from_address a)); k p) Q s.
Proof.
  intros Hw Hout Hin. wp_steps. pose proof (page_of_managed s a Hw) as Hm.
  apply wp_if; intros Hrg; bool_to_prop.
  - apply Hout. rewrite Hm. destruct Hrg; bool_to_prop; lia.
  - assert (managed s (page_of a)) as Hma by (apply Hm; lia).
    pose proof (managed_ram _ _ Hw Hma) as Hra.
    assert (u32 (page_index_from_address a) = page_index_from_address (page_of a)) as Hi
      by (rewrite (index_page_of s), index_u32 by (done || lia); done).
    rewrite wp_bind, Hi. apply wp_get_page; [by apply index_ok|]. by apply Hin.
Qed.

Lemma owned_at fl s p : pa_rep fl s → managed s p →
  owned s p = if negb (pst s p =? PAGE_STATE_ALLOCATED) then None else Some (prf s p).
Proof.
  intros Hr Hm. unfold owned. destruct (pst s p =? PAGE_STATE_ALLOCATED) eqn:Hst; bool_to_prop; cbn.
  - by rewrite decide_True.
  - by rewrite decide_False by tauto.
Qed.

Lemma owned_unmanaged s p : ¬ managed s p → owned s p = None.
Proof. intros. unfold owned. by rewrite decide_False by tauto. Qed.

Lemma owned_ref_range fl s p r : pa_rep fl s → owned s p = Some r → 1 ≤ r ≤ 65535.
Proof. intros Hr (Hm & Hst & <-)%owned_managed. by eapply rep_ref. Qed.

Definition ref_inc_own (own : Z → option Z) (p : Z) (q : Z) : option Z :=
  if decide (q = p) then (λ r, if r =? 65535 then r else r + 1) <$> own p else own q.

Lemma page_ref_inc_spec fl s a :
  pa_rep fl s → can_lock L_page (pa_held s) = true →
  wp (page_ref_inc a) (λ _ s', pa_env s s' ∧ pa_rep fl s' ∧ pa_mem s' = pa_mem s ∧
    (∀ q, owned s' q = ref_inc_own (owned s) (page_of a) q)) s.
Proof.
  intros Hr Hlk. unfold page_ref_inc. rewrite wp_bind. apply wp_lock_page; [done|].
  match goal with |- wp _ _ ?x => set (s1 := x) end.
  assert (∀ q, owned s (page_of a) = None ∨ owned s (page_of a) = Some 65535 →
            owned s q = ref_inc_own (owned s) (page_of a) q) as Hsame.
  { intros q Ho. unfold ref_inc_own. case_decide as Hq; [|done]. subst q.
    by destruct Ho as [-> | ->]. }
  apply (wp_page_lookup a); [by destruct (rep_win _ _ Hr)|..].
  { intros Hm. eapply wp_unlock_page; [done|]. split; [done|].
    split; [by eapply (pa_same_rep _ s)|]. split; [done|]. intros q. rewrite <- Hsame; [done|].
    left. by apply owned_unmanaged. }
  intros Hm Hram ->. set (i := page_index_from_address _). change (page_at s1 i) with (page_at s i).
  change (pg_state (page_at s i)) with (pst s (page_of a)).
  change (pg_ref_count (page_at s i)) with (prf s (page_of a)).
  pose proof (owned_at _ _ _ Hr Hm) as Ho. change (u16 (not32 0)) with 65535.
  apply wp_if; intros Hg.
  - eapply wp_unlock_page; [done|]. split; [done|].
    split; [by eapply (pa_same_rep _ s)|]. split; [done|]. intros q. rewrite <- Hsame; [done|].
    rewrite Ho. destruct (negb _) eqn:Hst; [by left|]. right. bool_to_prop.
    pose proof (rep_ref _ _ Hr _ Hm Hst). destruct Hg as [[Hg|Hg]%orb_true_iff|Hg]; bool_to_prop; f_equal; congruence || lia.
  - bool_to_prop. assert (pst s (page_of a) = PAGE_STATE_ALLOCATED) as Hst by done.
    pose proof (rep_ref _ _ Hr _ Hm Hst).
    rewrite wp_bind. apply wp_set_page_ref; [by apply index_ok|]. eapply wp_unlock_page; [done|].
    match goal with |- pa_env _ ?x ∧ _ => set (s' := x) end.
    destruct (pa_rep_setref fl s s' (page_of a) (prf s (page_of a) + 1)) as [Hr' Ho']; try done.
    { lia. }
    { subst s'. cbn. change (page_at s1 i) with (page_at s i).
      change (pg_state (page_at s i)) with (pst s (page_of a)). by rewrite Hst, u16_small by lia. }
    split; [done|]. split; [done|]. split; [done|]. intros q. rewrite Ho'. unfold ref_inc_own.
    case_decide; [|done]. rewrite Ho, Hst. cbn. by bfalse (prf s (page_of a) =? 65535).
Qed.

Lemma page_ref_get_spec fl s a :
  pa_rep fl s → can_lock L_page (pa_held s) = true →
  wp (page_ref_get a) (λ r s', s' = s ∧ r = default 0 (owned s (page_of a))) s.
Proof.
  intros Hr Hlk. unfold page_ref_get. rewrite wp_bind. apply wp_lock_page; [done|].
  match goal with |- wp _ _ ?x => set (s1 := x) end.
  apply (wp_page_lookup a); [by destruct (rep_win _ _ Hr)|..].
  { intros Hm. wp_steps. eapply wp_unlock_page; [done|]. apply wp_ret.
    rewrite owned_unmanaged by done. split; [by destruct s as [[]]|done]. }
  intros Hm Hram _. set (i := page_index_from_address _). change (page_at s1 i) with (page_at s i).
  change (pg_state (page_at s i)) with (pst s (page_of a)).
  rewrite (owned_at _ _ _ Hr Hm).
  destruct (negb _); wp_steps; (eapply wp_unlock_page; [done|]); apply wp_ret;
    (split; [by destruct s as [[]]|done]).
Qed.

Lemma page_ref_dec_spec fl s p :
  pa_rep fl s → can_lock L_page (pa_held s) = true → p mod PAGE_SIZE = 0 →
  wp (page_ref_dec p) (λ freed s', pa_env s s' ∧
    match owned s p with
    | None => freed = 0 ∧ pa_same s s'
    | Some r =>
        if r =? 1 then
          freed = 1 ∧ pa_rep (p :: fl) s' ∧
          pa_mem s' = <[p := page_free_list_pa s]> (pa_mem s) ∧
          (∀ q, owned s' q = if decide (q = p) then None else owned s q)
        else
          freed = 0 ∧ pa_rep fl s' ∧ pa_mem s' = pa_mem s ∧
          (∀ q, owned s' q = if decide (q = p) then Some (r - 1) else owned s q)
    end) s.
Proof.
  intros Hr Hlk Hal. pose proof (page_of_page p Hal) as Hpg.
  unfold page_ref_dec. rewrite wp_bind. apply wp_lock_page; [done|].
  match goal with |- wp _ _ ?x => set (s1 := x) end.
  apply (wp_page_lookup p); [by destruct (rep_win _ _ Hr)|..];
    rewrite Hpg.
  { intros Hm. wp_steps. eapply wp_unlock_page; [done|]. apply wp_ret.
    rewrite owned_unmanaged by done. by split. }
  intros Hm Hram ->. set (i := page_index_from_address _). change (page_at s1 i) with (page_at s i).
  change (pg_state (page_at s i)) with (pst s p).
  change (pg_ref_count (page_at s i)) with (prf s p).
  rewrite (owned_at _ _ _ Hr Hm). destruct (negb (pst s p =? _)) eqn:Hst; cbn [orb].
  { wp_steps. eapply wp_unlock_page; [done|]. apply wp_ret. by split. }
  bool_to_prop. pose proof (rep_ref _ _ Hr _ Hm Hst). bfalse (prf s p =? 0).
  rewrite u16_small by lia. rewrite wp_bind. apply wp_set_page_ref; [by apply index_ok|].
  destruct (prf s p =? 1) eqn:Hone; bool_to_prop.
  - btrue (prf s p - 1 =? 0). cbn [negb]. wp_steps. apply wp_push_free; [done|]. wp_steps.
    apply wp_set_page_state; [by apply index_ok|]. wp_steps.
    eapply wp_unlock_page; [done|]. apply wp_ret.
    match goal with |- pa_env _ ?x ∧ _ => set (s' := x) end.
    destruct (pa_rep_release fl s s' p (prf s p - 1)) as [? ?]; try done.
    subst s'. cbn. unfold page_at; cbn. by rewrite lookup_insert_eq, insert_insert_eq.
  - bfalse (prf s p - 1 =? 0). cbn [negb]. wp_steps. eapply wp_unlock_page; [done|]. apply wp_ret.
    match goal with |- pa_env _ ?x ∧ _ => set (s' := x) end.
    destruct (pa_rep_setref fl s s' p (prf s p - 1)) as [? ?]; try done.
    { lia. }
    subst s'. cbn. change (page_at s1 i) with (page_at s i).
    change (pg_state (page_at s i)) with (pst s p). by rewrite Hst.
Qed.

(** ** Contiguous runs *)

Definition run_pages (p n : Z) : list Z := (λ k, p + k * PAGE_SIZE) <$> upto 0 n.

Definition free_run (s : pastate) (p n : Z) : Prop := ∀ q, q ∈ run_pages p n → is_free s q.

(** The pages of [X] read as zero and only they changed. *)
Record zeroed_all (X : list Z) (mem mem' : gmap Z Z) : Prop := {
  zall_in : ∀ p k, p ∈ X → 0 ≤ k < 512 → mrd mem' (p + 8 * k) = 0;
  zall_out : ∀ a, page_of a ∉ X → mrd mem' a = mrd mem a;
}.

Lemma elem_of_run p n q : q ∈ run_pages p n ↔ ∃ k, q = p + k * PAGE_SIZE ∧ 0 ≤ k < n.
Proof.
  unfold run_pages. rewrite list_elem_of_fmap, upto_seqZ. by setoid_rewrite elem_of_seqZ.
Qed.

Lemma run_nodup p n : NoDup (run_pages p n).
Proof.
  unfold run_pages. rewrite upto_seqZ. apply NoDup_fmap_2; [|apply NoDup_seqZ].
  intros x y. unfold PAGE_SIZE. lia.
Qed.

Lemma run_length p n : 0 ≤ n → Z.of_nat (length (run_pages p n)) = n.
Proof. intros. unfold run_pages. rewrite upto_seqZ, length_fmap, length_seqZ. lia. Qed.

(** A run of free pages is part of the free list. *)
Lemma free_run_length fl s p n : pa_rep fl s → 0 ≤ n → free_run s p n →
  n ≤ Z.of_nat (length fl).
Proof.
  intros Hr Hn Hf. rewrite <- (run_length p n Hn). apply Nat2Z.inj_le, submseteq_length.
  apply NoDup_submseteq; [apply run_nodup|]. intros q Hq. by apply (rep_free _ _ Hr), Hf.
Qed.

Lemma pages_upd_snoc X f p s s1 s2 :
  ram_page p → pages_upd X f s s1 →
  pages s2 = <[page_index_from_address p := f p]> (pages s1) →
  pages_upd (X ++ [p]) f s s2.
Proof.
  intros Hp H1 H2 q Hq. rewrite (pages_upd_one p (f p) s1 s2 Hp H2 q Hq), (H1 q Hq).
  repeat case_decide; set_solver.
Qed.

Lemma pages_upd_out X f s s1 q : pages_upd X f s s1 → ram_page q → q ∉ X →
  page_at s1 (page_index_from_address q) = page_at s (page_index_from_address q).
Proof. intros Hu Hq Hnin. by rewrite (Hu q Hq), decide_False. Qed.

Lemma wp_claim_run (p n : Z) (Q : unit → pastate → Prop) s :
  (∀ q, q ∈ run_pages p n → ram_page q) →
  (∀ mem' pgs, zeroed_all (run_pages p n) (pa_mem s) mem' →
     pages_upd (run_pages p n) (λ _, Page PAGE_STATE_ALLOCATED 1) s (s <| pages := pgs |>) →
     Q () (s <| pa_machine := (pa_machine s) <| m_mem := mem' |> |> <| pages := pgs |>)) →
  wp (claim_run p n) Q s.
Proof.
  intros Hram HQ. unfold claim_run.
  set (run := λ l : list Z, (λ k, p + k * PAGE_SIZE) <$> l).
  set (I := λ (done : list Z) (s' : pastate), ∃ mem' pgs,
    s' = s <| pa_machine := (pa_machine s) <| m_mem := mem' |> |> <| pages := pgs |> ∧
    zeroed_all (run done) (pa_mem s) mem' ∧
    pages_upd (run done) (λ _, Page PAGE_STATE_ALLOCATED 1) s (s <| pages := pgs |>)).
  eapply wp_mono; [apply (wp_forM _ _ I)|].
  - exists (pa_mem s), (pages s). split; [by destruct s as [[]]|]. split; [|done].
    split; [by intros ? ? ?%not_elem_of_nil|done].
  - intros pre k post s' Heq (mem' & pgs & -> & Hz & Hu).
    assert (ram_page (p + k * PAGE_SIZE)) as Hp.
    { apply Hram. unfold run_pages. rewrite Heq, fmap_app. set_solver. }
    wp_steps. apply wp_set_page_both; [by apply index_ok|].
    apply wp_zero_page; [done|]. intros mem'' Hz'. cbn in Hz' |- *.
    do 2 eexists. split; [reflexivity|]. unfold run. rewrite fmap_app. cbn. split.
    + destruct Hz as [Hi Ho], Hz' as [Hi' Ho']. split.
      * intros q j [Hq| ->%list_elem_of_singleton]%elem_of_app Hj; [|by apply Hi'].
        destruct (decide (q = p + k * PAGE_SIZE)) as [->|Hne]; [by apply Hi'|].
        rewrite Ho'; [by apply Hi|]. rewrite page_of_word; [done| |done].
        destruct (Hram q) as [_ ?]; [|done].
        unfold run_pages. rewrite Heq, fmap_app. apply elem_of_app. by left.
      * intros a [Ha1 Ha2]%not_elem_of_app. rewrite Ho', Ho; set_solver.
    + by eapply (pages_upd_snoc _ _ _ _ (s <| pages := pgs |>)).
  - intros [] s' (mem' & pgs & -> & Hz & Hu). by apply HQ.
Qed.

Lemma pa_rep_held fl s held : pa_rep fl s →
  pa_rep fl (s <| pa_machine := (pa_machine s) <| m_held := held |> |>).
Proof. intros []. split; try done. by destruct rep_win0. Qed.

(** What a successful contiguous allocation does to the allocator. *)
Record claimed (p n : Z) (s s' : pastate) : Prop := {
  claim_inv : pa_inv s';
  claim_env : pa_env s s';
  claim_own : ∀ q, owned s' q = if decide (q ∈ run_pages p n) then Some 1 else owned s q;
  claim_zero : ∀ q k, q ∈ run_pages p n → 0 ≤ k < 512 → mrd (pa_mem s') (q + 8 * k) = 0;
  claim_frame : ∀ a, ¬ is_free s (page_of a) → mrd (pa_mem s') a = mrd (pa_mem s) a;
}.

Lemma is_free_page_of fl s p : pa_rep fl s → is_free s p → page_of p = p.
Proof. intros Hr [[_ Ha] _]. by apply page_of_page. Qed.

(** The tail of the scan once the run is found. *)
Lemma wp_take_run {B} fl p n (Q : B + Z → pastate → Prop) s held :
  pa_rep fl s → pa_held s = L_page :: held → 0 < n → free_run s p n →
  (∀ s', claimed p n (s <| pa_machine := (pa_machine s) <| m_held := held |> |>) s' → Q (inr p) s') →
  wp (claim_run p n ;;
      modify (λ s, s <| free_pages := u64 (free_pages s - n) |>) ;;
      page_allocator_rebuild_free_list ;;
      unlock_page ;;
      mret (inr p)) Q s.
Proof.
  intros Hr Hh Hn Hf HQ. pose proof (rep_win _ _ Hr) as Hw.
  rewrite wp_bind. apply wp_claim_run.
  { intros q Hq. eapply managed_ram; [done|]. by apply Hf. }
  intros mem' pgs Hz Hu. wp_steps. cbn. apply wp_rebuild; [by destruct Hw|].
  intros mem'' h Hc Hm''. cbn in Hc, Hm'' |- *. rewrite wp_bind.
  eapply wp_unlock_page; [done|]. apply wp_ret. apply HQ.
  match goal with |- claimed _ _ _ ?x => set (s' := x) end.
  match type of Hc with chain _ _ (free_scan ?x) => set (sm := x) in * end.
  set (s0 := s <| pa_machine := (pa_machine s) <| m_held := held |> |>).
  assert (pa_env s0 s') as He by done.
  assert (pa_window sm) as Hwm by (by destruct Hw).
  assert (pages_upd (run_pages p n) (λ _, Page PAGE_STATE_ALLOCATED 1) s0 s') as Hu' by done.
  assert (∀ q, is_free sm q ↔ is_free s q ∧ q ∉ run_pages p n) as Hfree.
  { intros q. unfold is_free, pst. change (managed sm q) with (managed s q).
    destruct (decide (managed s q)) as [Hm|]; [|tauto].
    rewrite (Hu q (managed_ram _ _ Hw Hm) : page_at sm _ = _). case_decide; [|tauto].
    split; [by intros [_ ?]|tauto]. }
  assert (fl ≡ₚ run_pages p n ++ free_scan sm) as Hperm.
  { apply NoDup_Permutation; [apply Hr| |].
    - apply NoDup_app. split; [apply run_nodup|]. split; [|apply free_scan_nodup].
      intros q Hq Hq2. apply (elem_of_free_scan sm q Hwm), Hfree in Hq2. tauto.
    - intros q. rewrite elem_of_app, elem_of_free_scan, Hfree, (rep_free _ _ Hr) by done.
      split; [|intros [?|[? _]]; [by apply Hf|done]].
      destruct (decide (q ∈ run_pages p n)); tauto. }
  assert (pa_rep (free_scan sm) s') as Hr'.
  { eapply (pa_rep_upd (run_pages p n) (λ _, Page PAGE_STATE_ALLOCATED 1) fl _ s0 s'); try done.
    - by apply pa_rep_held.
    - intros q Hq. split; [by apply Hf|]. right. cbn. lia.
    - cbn. rewrite (rep_count _ _ Hr), Hperm, length_app. pose proof (run_length p n).
      pose proof (rep_bounds _ _ Hr) as Hb. rewrite Hperm, length_app in Hb.
      rewrite u64_small; lia.
    - apply free_scan_nodup.
    - intros q. rewrite elem_of_free_scan, Hfree by done.
      case_decide; [by split; [intros [_ ?]|]|]. rewrite (rep_free _ _ Hr). tauto. }
  assert (∀ q k, q ∈ run_pages p n → 0 ≤ k < 512 → q + 8 * k ∉ free_scan sm) as Hnf.
  { intros q k Hq Hk Hin. apply (elem_of_free_scan sm _ Hwm), Hfree in Hin as [Hin Hni].
    apply Hni. destruct (Hf q Hq) as [[_ Ha] _]. destruct Hin as [[_ Ha'] _].
    pose proof (page_of_word q k Ha Hk) as Hpo. rewrite (page_of_page _ Ha') in Hpo. by rewrite Hpo. }
  split; [by eexists|done|..].
  - intros q. rewrite (owned_upd _ _ s0 s' q (rep_win _ _ (pa_rep_held _ _ held Hr)) He Hu') by (intros r Hq; by apply Hf). done.
  - intros q k Hq Hk. cbn. rewrite Hm'' by (by apply Hnf). by apply Hz.
  - intros a Ha. cbn. rewrite Hm''; [apply Hz; by intros ?%Hf|].
    intros [Hin _]%(elem_of_free_scan sm a Hwm)%Hfree. apply Ha.
    by rewrite (is_free_page_of _ _ _ Hr Hin).
Qed.

Lemma page_range_mid start stop pre a post :
  page_range start stop = pre ++ a :: post → a = start + PAGE_SIZE * Z.of_nat (length pre).
Proof.
  unfold page_range. rewrite upto_seqZ. intros Heq.
  assert ((λ k, start + PAGE_SIZE * k) <$>
            seqZ 0 ((stop - start + (PAGE_SIZE - 1)) / PAGE_SIZE) !! length pre = Some a) as Hl.
  { rewrite <- list_lookup_fmap, Heq. by apply list_lookup_middle. }
  apply fmap_Some in Hl as (k & [-> _]%lookup_seqZ & ->). lia.
Qed.

Lemma free_run_snoc s p n :
  0 ≤ n → free_run s p n → is_free s (p + n * PAGE_SIZE) → free_run s p (n + 1).
Proof.
  intros Hn Hf Hl q (k & -> & Hk)%elem_of_run. destruct (decide (k = n)) as [->|]; [done|].
  apply Hf, elem_of_run. exists k. lia.
Qed.

(** The scan: no run of [n] free pages starts before the current candidate. *)
Lemma scan_run_spec fl s held n :
  pa_rep fl s → pa_held s = L_page :: held → 0 < n →
  let s0 := s <| pa_machine := (pa_machine s) <| m_held := held |> |> in
  wp (iterM (page_range (managed_start s) (managed_end s)) (scan_run n) (0, 0))
    (λ r s', match r with
             | inl _ => s' = s ∧ (∀ q, ¬ free_run s q n)
             | inr p => claimed p n s0 s' ∧ free_run s p n ∧ (∀ q, free_run s q n → p ≤ q)
             end) s.
Proof.
  intros Hr Hh Hn s0. pose proof (rep_win _ _ Hr) as Hw.
  set (start := managed_start s). set (stop := managed_end s).
  set (I := λ (pre : list Z) '((rs, rl) : Z * Z) (s' : pastate),
    let e := start + PAGE_SIZE * Z.of_nat (length pre) in
    s' = s ∧ 0 ≤ rl < n ∧ (rl = 0 ∨ rs = e - rl * PAGE_SIZE) ∧
    free_run s (e - rl * PAGE_SIZE) rl ∧ (∀ q, free_run s q n → e - rl * PAGE_SIZE ≤ q)).
  assert (∀ q, free_run s q n → start ≤ q < stop ∧ q mod PAGE_SIZE = 0) as Hfirst.
  { intros q Hq. destruct (Hq q) as [Hm _]; [|exact Hm].
    apply elem_of_run. exists 0. lia. }
  eapply wp_mono; [apply (wp_iterM _ _ _ I (λ p s', claimed p n s0 s' ∧ free_run s p n ∧ (∀ q, free_run s q n → p ≤ q)))|].
  - cbn. split; [done|]. split; [lia|]. split; [by left|]. split.
    + intros q (k & _ & ?)%elem_of_run. lia.
    + intros q ?%Hfirst. lia.
  - intros pre a post [rs rl] s' Heq (-> & Hrl & Hrs & Hfr & Hmin).
    assert (a = start + PAGE_SIZE * Z.of_nat (length pre)) as Ha by (by eapply page_range_mid).
    assert (managed s a) as Hma by (apply elem_of_window; [done|]; fold start stop; rewrite Heq; set_solver).
    unfold scan_run. rewrite wp_bind. apply wp_get_page; [by eapply index_ok, managed_ram|].
    fold (pst s a). rewrite <- Ha in *. unfold I. rewrite length_app. cbn [length].
    replace (start + _) with (a + PAGE_SIZE) by lia.
    destruct (pst s a =? PAGE_STATE_FREE) eqn:Hst; bool_to_prop.
    + replace (if rl =? 0 then a else rs) with (a - rl * PAGE_SIZE)
        by (destruct (rl =? 0) eqn:?; bool_to_prop; lia).
      assert (free_run s (a - rl * PAGE_SIZE) (rl + 1)) as Hfr'
        by (by apply free_run_snoc; [lia|..|replace (_ + _) with a by lia]).
      destruct (rl + 1 =? n) eqn:Hn1; bool_to_prop.
      * subst n. eapply wp_take_run; done.
      * apply wp_ret. replace (a + PAGE_SIZE - _) with (a - rl * PAGE_SIZE) by lia.
        split; [done|]. split; [lia|]. split; [by right|]. by split.
    + apply wp_ret. split; [done|]. split; [lia|]. split; [by left|]. split.
      { intros q (k & _ & ?)%elem_of_run. lia. }
      intros q Hq. pose proof (Hmin q Hq) as Hle. destruct (Hfirst q Hq) as [Hqb Hqa].
      destruct (decide (a < q)).
      { destruct Hma as [_ Hal]. unfold PAGE_SIZE in *. Z.div_mod_to_equations; lia. }
      exfalso. apply Hst. apply (Hq a). apply elem_of_run. exists ((a - q) / PAGE_SIZE).
      destruct Hma as [_ Hal]. unfold PAGE_SIZE in *. Z.div_mod_to_equations; lia.
  - intros [[rs rl]|p] s' HI; [|done]. destruct HI as (-> & Hrl & _ & _ & Hmin). split; [done|].
    intros q Hq. pose proof (Hmin q Hq) as Hle. pose proof (page_range_length s Hw) as Hlen.
    fold start stop in Hlen. destruct (Hq (q + (n - 1) * PAGE_SIZE)) as [[Hb _] _].
    { apply elem_of_run. exists (n - 1). lia. }
    destruct Hw as [? ? He ?]. unfold npages in Hlen. subst start stop. rewrite He in *.
    unfold RAM_END, QEMU_VIRT_RAM_BASE, QEMU_VIRT_RAM_SIZE, PAGE_SIZE in *.
    Z.div_mod_to_equations; nia.
Qed.

Lemma page_alloc_contiguous_spec fl s n :
  pa_rep fl s → can_lock L_page (pa_held s) = true → 0 ≤ n →
  wp (page_alloc_contiguous n) (λ p s',
    (p = 0 ∧ s' = s ∧ (n = 0 ∨ ∀ q, ¬ free_run s q n)) ∨
    (0 < n ∧ claimed p n s s' ∧ free_run s p n ∧ (∀ q, free_run s q n → p ≤ q))) s.
Proof.
  intros Hr Hlk Hn. unfold page_alloc_contiguous. rewrite wp_bind. apply wp_lock_page; [done|].
  wp_steps. cbn [free_pages setf]. apply wp_if; intros Hg.
  - wp_steps. eapply wp_unlock_page; [done|]. apply wp_ret. left. split; [done|].
    split; [by destruct s as [[]]|]. apply orb_true_iff in Hg as [Hg|Hg]; bool_to_prop; [by left|].
    right. intros q Hq. pose proof (free_run_length _ _ _ _ Hr Hn Hq).
    rewrite (rep_count _ _ Hr) in Hg. lia.
  - bool_to_prop. match goal with |- wp _ _ ?x => set (s1 := x) end. wp_steps.
    eapply wp_mono; [eapply (scan_run_spec fl s1 (pa_held s)); [by apply pa_rep_held|done|lia]|].
    intros [b|p] s' HI.
    + destruct HI as [-> HI]. wp_steps. eapply wp_unlock_page; [done|]. apply wp_ret. left.
      split; [done|]. split; [by destruct s as [[]]|]. by right.
    + apply wp_ret. right. split; [lia|]. destruct HI as (Hc & Hf & Hmin).
      replace (s1 <| pa_machine := _ |>) with s in Hc by (by destruct s as [[]]). done.
Qed.

(** ** [page_free_contiguous] *)

Definition run_owned (s : pastate) (p n : Z) : Prop := ∀ q, q ∈ run_pages p n → is_Some (owned s q).

#[export] Instance run_owned_dec s p n : Decision (run_owned s p n).
Proof. refine (cast_if (decide (Forall (λ q, is_Some (owned s q)) (run_pages p n))));
  abstract (by rewrite Forall_forall in *). Defined.

Lemma run_addr p n k : p < 2 ^ 32 → 0 ≤ p → 0 ≤ k < n → p + n * PAGE_SIZE < 2 ^ 63 →
  u64 (p + k * PAGE_SIZE) = p + k * PAGE_SIZE.
Proof. intros. apply u64_small. unfold PAGE_SIZE in *. lia. Qed.

Lemma managed_run s p n k : pa_window s →
  managed_start s ≤ p → p mod PAGE_SIZE = 0 → p + n * PAGE_SIZE ≤ managed_end s → 0 ≤ k < n →
  managed s (p + k * PAGE_SIZE).
Proof.
  intros Hw Hlo Hal Hhi Hk. unfold managed. unfold PAGE_SIZE in *. split; [lia|].
  by rewrite Z.mod_add by lia.
Qed.

Lemma wp_mark_free p n (Q : unit → pastate → Prop) s :
  (∀ q, q ∈ run_pages p n → ram_page q) → 0 ≤ p < 2 ^ 32 → p + n * PAGE_SIZE < 2 ^ 63 →
  (∀ pgs, pages_upd (run_pages p n)
      (λ q, (page_at s (page_index_from_address q)) <| pg_state := PAGE_STATE_FREE |>)
      s (s <| pages := pgs |>) →
    Q () (s <| pages := pgs |>)) →
  wp (forM_ (upto 0 n) (λ offset,
        let free_addr := u64 (p + offset * PAGE_SIZE) in
        set_page_state (page_index_from_address free_addr) PAGE_STATE_FREE)) Q s.
Proof.
  intros Hram Hp Hb HQ.
  set (run := λ l : list Z, (λ k, p + k * PAGE_SIZE) <$> l).
  set (f := λ q, (page_at s (page_index_from_address q)) <| pg_state := PAGE_STATE_FREE |>) in *.
  set (I := λ (done : list Z) (s' : pastate), ∃ pgs,
    s' = s <| pages := pgs |> ∧ pages_upd (run done) f s (s <| pages := pgs |>)).
  eapply wp_mono; [apply (wp_forM _ _ I)|].
  - exists (pages s). split; [by destruct s|]. done.
  - intros pre k post s' Heq (pgs & -> & Hu).
    assert (0 ≤ k < n) as Hk.
    { assert (k ∈ upto 0 n) as Hin by (rewrite Heq; set_solver).
      rewrite upto_seqZ, elem_of_seqZ in Hin. lia. }
    assert (ram_page (p + k * PAGE_SIZE)) as Hr by (apply Hram, elem_of_run; eauto).
    assert (p + k * PAGE_SIZE ∉ run pre) as Hnin.
    { intros (k' & Hkk & Hin)%list_elem_of_fmap. assert (k' = k) as -> by (unfold PAGE_SIZE in *; lia).
      revert Hin. apply (NoDup_mid_notin _ _ _ _ Heq). rewrite upto_seqZ. apply NoDup_seqZ. }
    cbn zeta. rewrite (run_addr p n k) by lia. apply wp_set_page_state; [by apply index_ok|].
    eexists. split; [reflexivity|]. unfold run. rewrite fmap_app. cbn [fmap list_fmap].
    eapply pages_upd_snoc; [done|exact Hu|]. unfold f.
    by rewrite <- (pages_upd_out _ _ _ _ _ Hu Hr Hnin).
  - intros [] s' (pgs & -> & Hu). by apply HQ.
Qed.

(** What a successful contiguous free does to the allocator. *)
Record returned (p n : Z) (s s' : pastate) : Prop := {
  ret_inv : pa_inv s';
  ret_env : pa_env s s';
  ret_own : ∀ q, owned s' q = if decide (q ∈ run_pages p n) then None else owned s q;
  ret_frame : ∀ a, ¬ is_free s' (page_of a) → mrd (pa_mem s') a = mrd (pa_mem s) a;
}.

Lemma wp_return_run fl p n s (Q : unit → pastate → Prop) held :
  pa_rep fl s → pa_held s = L_page :: held → 0 < n → run_owned s p n →
  (∀ s', returned p n (s <| pa_machine := (pa_machine s) <| m_held := held |> |>) s' → Q () s') →
  wp (forM_ (upto 0 n) (λ offset,
        let free_addr := u64 (p + offset * PAGE_SIZE) in
        set_page_state (page_index_from_address free_addr) PAGE_STATE_FREE) ;;
      modify (λ s, s <| free_pages := u64 (free_pages s + n) |>) ;;
      page_allocator_rebuild_free_list ;;
      unlock_page) Q s.
Proof.
  intros Hr Hh Hn Ho HQ. pose proof (rep_win _ _ Hr) as Hw.
  assert (∀ q, q ∈ run_pages p n → managed s q ∧ pst s q = PAGE_STATE_ALLOCATED) as Hal.
  { intros q [r (? & ? & _)%owned_managed]%Ho. done. }
  assert (∀ q, q ∈ run_pages p n → ram_page q) as Hram
    by (intros q [Hq _]%Hal; by eapply managed_ram).
  assert (ram_page p) as Hp by (apply Hram, elem_of_run; exists 0; lia).
  assert (ram_page (p + (n - 1) * PAGE_SIZE)) as Hl by (apply Hram, elem_of_run; exists (n - 1); lia).
  pose proof (ram_bounds _ Hp). pose proof (ram_bounds _ Hl).
  rewrite wp_bind. apply wp_mark_free; [done|lia|unfold PAGE_SIZE in *; lia|].
  intros pgs Hu. wp_steps. cbn. apply wp_rebuild; [by destruct Hw|].
  intros mem'' h Hc Hm''. cbn in Hc, Hm'' |- *.
  eapply wp_unlock_page; [done|]. apply HQ.
  match goal with |- returned _ _ _ ?x => set (s' := x) end.
  match type of Hc with chain _ _ (free_scan ?x) => set (sm := x) in * end.
  set (s0 := s <| pa_machine := (pa_machine s) <| m_held := held |> |>).
  set (f := λ q, (page_at s (page_index_from_address q)) <| pg_state := PAGE_STATE_FREE |>) in *.
  assert (pa_env s0 s') as He by done.
  assert (pa_window sm) as Hwm by (by destruct Hw).
  assert (pages_upd (run_pages p n) f s0 s') as Hu' by done.
  assert (∀ q, is_free sm q ↔ is_free s q ∨ q ∈ run_pages p n) as Hfree.
  { intros q. unfold is_free, pst. change (managed sm q) with (managed s q).
    destruct (decide (managed s q)) as [Hm|Hm];
      [|split; [tauto|intros [[? _]|[? _]%Hal]; done]].
    rewrite (Hu q (managed_ram _ _ Hw Hm) : page_at sm _ = _). case_decide; [|tauto].
    split; [by right|]. done. }
  assert (free_scan sm ≡ₚ run_pages p n ++ fl) as Hperm.
  { apply NoDup_Permutation; [apply free_scan_nodup| |].
    - apply NoDup_app. split; [apply run_nodup|]. split; [|apply Hr].
      intros q [_ Hq]%Hal [_ Hq2]%(rep_free _ _ Hr). by rewrite Hq in Hq2.
    - intros q. rewrite elem_of_app, elem_of_free_scan, Hfree, (rep_free _ _ Hr) by done. tauto. }
  assert (pa_rep (free_scan sm) s') as Hr'.
  { eapply (pa_rep_upd (run_pages p n) f fl _ s0 s'); try done.
    - by apply pa_rep_held.
    - intros q Hq. split; [by apply Hal|]. by left.
    - pose proof (free_scan_nodup sm) as Hnd. pose proof (page_range_length sm Hwm) as Hpl.
      pose proof (npages_bound sm Hwm).
      assert (Z.of_nat (length (free_scan sm)) ≤ npages sm) as Hle.
      { rewrite <- Hpl. apply Nat2Z.inj_le, length_filter. }
      cbn. rewrite (rep_count _ _ Hr). revert Hle. rewrite Hperm, length_app.
      pose proof (run_length p n). intros. rewrite u64_small; lia.
    - apply free_scan_nodup.
    - intros q. rewrite elem_of_free_scan, Hfree by done.
      case_decide; [by split; [|by right]|]. rewrite (rep_free _ _ Hr). tauto. }
  split; [by eexists|done|..].
  - intros q. rewrite (owned_upd _ _ s0 s' q (rep_win _ _ (pa_rep_held _ _ held Hr)) He Hu')
      by (intros r Hq; by apply Hal). done.
  - intros a Ha. cbn. apply Hm''. intros Hin%(elem_of_free_scan sm a Hwm). apply Ha.
    destruct Hin as [[? Hala] ?]. by rewrite (page_of_page a Hala).
Qed.

(** The check loop: it returns early exactly when a page is not allocated. *)
Lemma wp_check_run fl p n s held :
  pa_rep fl s → pa_held s = L_page :: held →
  managed_start s ≤ p → p mod PAGE_SIZE = 0 → p + n * PAGE_SIZE ≤ managed_end s →
  let s0 := s <| pa_machine := (pa_machine s) <| m_held := held |> |> in
  wp (iterM (upto 0 n) (λ (_ : unit) offset,
        let free_addr := u64 (p + offset * PAGE_SIZE) in
        p ← get_page (page_index_from_address free_addr);
        if negb (pg_state p =? PAGE_STATE_ALLOCATED) then
          bump_double ;; unlock_page ;;
          page_allocator_warn "ignoring duplicate or invalid contiguous page free" free_addr ;;
          mret (inr ())
        else mret (inl ())) ())
     (λ r s', match r with
              | inl _ => s' = s ∧ run_owned s p n
              | inr _ => pa_same s0 s' ∧ ¬ run_owned s p n
              end) s.
Proof.
  intros Hr Hh Hlo Hal Hhi s0. pose proof (rep_win _ _ Hr) as Hw.
  set (I := λ (pre : list Z) (_ : unit) (s' : pastate),
    s' = s ∧ ∀ k, k ∈ pre → is_Some (owned s (p + k * PAGE_SIZE))).
  eapply wp_mono; [apply (wp_iterM _ _ _ I (λ _ s', pa_same s0 s' ∧ ¬ run_owned s p n))|].
  - split; [done|]. by intros ? ?%not_elem_of_nil.
  - intros pre k post [] s' Heq [-> HI].
    assert (0 ≤ k < n) as Hk.
    { assert (k ∈ upto 0 n) as Hin by (rewrite Heq; set_solver).
      rewrite upto_seqZ, elem_of_seqZ in Hin. lia. }
    assert (managed s (p + k * PAGE_SIZE)) as Hm by (by eapply managed_run).
    pose proof (managed_ram _ _ Hw Hm) as Hram.
    cbn zeta. rewrite u64_small by (pose proof (ram_bounds _ Hram); lia).
    rewrite wp_bind. apply wp_get_page; [by apply index_ok|].
    fold (pst s (p + k * PAGE_SIZE)). pose proof (owned_at _ _ _ Hr Hm) as Ho.
    destruct (negb _).
    + unfold bump_double. wp_steps. eapply wp_unlock_page; [done|].
      unfold page_allocator_warn, emit. wp_steps. split; [by split|].
      intros Hall. destruct (Hall (p + k * PAGE_SIZE)) as [r Hr']; [|by rewrite Ho in Hr'].
      apply elem_of_run. eauto.
    + apply wp_ret. split; [done|]. intros k' [?| ->%list_elem_of_singleton]%elem_of_app; auto.
  - intros [[]|[]] s' HI; [|done]. destruct HI as [-> HI]. split; [done|].
    intros q (k & -> & Hk)%elem_of_run. apply HI. rewrite upto_seqZ, elem_of_seqZ. lia.
Qed.

Lemma page_free_contiguous_spec fl s p n :
  pa_rep fl s → can_lock L_page (pa_held s) = true →
  0 ≤ p → 0 ≤ n → p + n * PAGE_SIZE < 2 ^ 64 →
  wp (page_free_contiguous p n) (λ _ s',
    if decide (0 < n ∧ run_owned s p n) then returned p n s s' else pa_same s s') s.
Proof.
  intros Hr Hlk Hp Hn Hov. pose proof (rep_win _ _ Hr) as Hw.
  assert (run_owned s p n → 0 < n → managed s p ∧ managed s (p + (n - 1) * PAGE_SIZE)) as Hro.
  { intros Ho Hn'. split.
    - destruct (Ho p) as [r (? & _)%owned_managed]; [apply elem_of_run; exists 0; lia|done].
    - destruct (Ho (p + (n - 1) * PAGE_SIZE)) as [r (? & _)%owned_managed];
        [apply elem_of_run; exists (n - 1); lia|done]. }
  unfold page_free_contiguous. rewrite land_page_mask. apply wp_if; intros Hg.
  { apply wp_ret. rewrite decide_False; [by split|]. intros [Hn' Ho].
    destruct (Hro Ho Hn') as [Hm%(managed_ram _ _ Hw)%ram_page_nz _].
    apply orb_true_iff in Hg as [?|?]; bool_to_prop; lia. }
  bool_to_prop. assert (0 < n) by lia.
  rewrite wp_bind. apply wp_lock_page; [done|]. apply wp_if; intros Hal; bool_to_prop.
  { unfold bump_invalid. wp_steps. eapply wp_unlock_page; [done|].
    unfold page_allocator_warn, emit. wp_steps. rewrite decide_False; [by split|].
    intros [Hn' Ho]. by destruct (Hro Ho Hn') as [[_ ?] _]. }
  wp_steps. cbn [managed_start managed_end setf].
  rewrite (u64_small (n * PAGE_SIZE)) by (unfold PAGE_SIZE in *; lia).
  rewrite (u64_small (p + _)) by (unfold PAGE_SIZE in *; lia).
  apply wp_if; intros Hrg.
  { unfold bump_invalid. wp_steps. eapply wp_unlock_page; [done|].
    unfold page_allocator_warn, emit. wp_steps. rewrite decide_False; [by split|].
    intros [Hn' Ho]. destruct (Hro Ho Hn') as [[[? _] _] [[_ Hhi] Hla]].
    destruct Hw as [? ? He ?]. rewrite He in *.
    unfold RAM_END, QEMU_VIRT_RAM_BASE, QEMU_VIRT_RAM_SIZE, PAGE_SIZE in *.
    apply orb_true_iff in Hrg as [?|?]; bool_to_prop; Z.div_mod_to_equations; lia. }
  bool_to_prop. match goal with |- wp _ _ ?x => set (s1 := x) end. rewrite wp_bind.
  eapply wp_mono; [eapply (wp_check_run fl p n s1 (pa_held s)); [by apply pa_rep_held|done|done..]|].
  replace (s1 <| pa_machine := _ |>) with s by (by destruct s as [[]]).
  intros [[]|[]] s' [Hs Ho].
  - subst s'. eapply (wp_return_run fl); [by apply pa_rep_held|done|done|done|].
    replace (s1 <| pa_machine := _ |>) with s by (by destruct s as [[]]).
    intros s' Hs'. by rewrite decide_True.
  - apply wp_ret. rewrite decide_False; [done|]. by intros [_ ?].
Qed.

(** ** Initialisation *)

Lemma forM_fields {A} (l : list A) (f : A → M pastate unit) s (J : pastate → Prop) :
  J s → (∀ a s', a ∈ l → J s' → wp (f a) (λ _, J) s') → wp (forM_ l f) (λ _, J) s.
Proof.
  intros HJ Hf. apply (wp_forM l f (λ _, J)); [done|].
  intros pre a post s' Heq HJ'. apply Hf; [|done]. by eapply elem_of_split_mid.
Qed.

(** The table is cleared... *)
Lemma wp_init_clear (Q : unit → pastate → Prop) s :
  (∀ pgs, (∀ i, idx_ok i = true → default (Page 0 0) (pgs !! i) = Page PAGE_STATE_UNUSED 0) →
     Q () (s <| pages := pgs |>)) →
  wp (forM_ (upto 0 QEMU_VIRT_MAX_PAGES) (λ page_index,
        set_page_state page_index PAGE_STATE_UNUSED ;; set_page_ref page_index 0)) Q s.
Proof.
  intros HQ. set (I := λ (done : list Z) (s' : pastate), ∃ pgs, s' = s <| pages := pgs |> ∧
    ∀ i, i ∈ done → default (Page 0 0) (pgs !! i) = Page PAGE_STATE_UNUSED 0).
  eapply wp_mono; [apply (wp_forM _ _ I)|].
  - exists (pages s). split; [by destruct s|]. by intros ? ?%not_elem_of_nil.
  - intros pre i post s' Heq (pgs & -> & Hp). rewrite wp_bind.
    assert (idx_ok i = true) as Hi.
    { apply elem_of_split_mid in Heq. rewrite upto_seqZ, elem_of_seqZ in Heq.
      unfold idx_ok. btrue (0 <=? i). by btrue (i <? QEMU_VIRT_MAX_PAGES). }
    apply wp_set_page_state; [done|]. apply wp_set_page_ref; [done|].
    eexists. split; [reflexivity|]. unfold page_at. cbn.
    rewrite lookup_insert_eq, insert_insert_eq. cbn.
    intros j Hj. rewrite lookup_insert. case_decide; [done|]. apply Hp. set_solver.
  - intros [] s' (pgs & -> & Hp). apply HQ. intros i Hi. apply Hp.
    rewrite upto_seqZ, elem_of_seqZ. unfold idx_ok in Hi. bool_to_prop. lia.
Qed.

(** ... and every managed page is pushed: the free list ends up in
    descending order. *)
Lemma wp_init_push start (Q : unit → pastate → Prop) s :
  (∀ p, p ∈ page_range start RAM_END → ram_page p) → QEMU_VIRT_RAM_BASE ≤ start →
  page_free_list_pa s = 0 → total_pages s = 0 → free_pages s = 0 →
  (∀ mem' pgs h n,
     let l := page_range start RAM_END in
     n = Z.of_nat (length l) → chain mem' h (reverse l) →
     pages_upd l (λ q, (page_at s (page_index_from_address q)) <| pg_state := PAGE_STATE_FREE |>)
       s (s <| pages := pgs |>) →
     Q () (s <| pa_machine := (pa_machine s) <| m_mem := mem' |> |> <| page_free_list_pa := h |>
             <| total_pages := n |> <| free_pages := n |> <| pages := pgs |>)) →
  wp (forM_ (page_range start RAM_END) (λ page_addr,
    push_free page_addr ;;
    set_page_state (page_index_from_address page_addr) PAGE_STATE_FREE ;;
    modify (λ s, s <| total_pages := u64 (total_pages s + 1) |>
                   <| free_pages := u64 (free_pages s + 1) |>))) Q s.
Proof.
  intros Hram Hlo Hl0 Ht0 Hf0 HQ. set (l := page_range start RAM_END) in *.
  set (f := λ q, (page_at s (page_index_from_address q)) <| pg_state := PAGE_STATE_FREE |>) in *.
  assert (Z.of_nat (length l) < 2 ^ 60) as Hlen.
  { unfold l, page_range. rewrite upto_seqZ, length_fmap, length_seqZ.
    unfold RAM_END, QEMU_VIRT_RAM_SIZE, QEMU_VIRT_RAM_BASE, PAGE_SIZE in *.
    Z.div_mod_to_equations; lia. }
  set (I := λ (done : list Z) (s' : pastate), ∃ mem' pgs h,
    s' = s <| pa_machine := (pa_machine s) <| m_mem := mem' |> |> <| page_free_list_pa := h |>
           <| total_pages := Z.of_nat (length done) |> <| free_pages := Z.of_nat (length done) |>
           <| pages := pgs |> ∧
    chain mem' h (reverse done) ∧ pages_upd done f s (s <| pages := pgs |>)).
  eapply wp_mono; [apply (wp_forM _ _ I)|].
  - exists (pa_mem s), (pages s), 0. split; [destruct s as [[]]; cbn in *; by subst|]. done.
  - intros pre p post s' Heq (mem' & pgs & h & -> & Hc & Hu).
    assert (ram_page p) as Hp by (apply Hram; rewrite Heq; set_solver).
    assert (p ∉ pre) as Hnin by (apply (NoDup_mid_notin _ _ _ _ Heq), page_range_nodup).
    wp_steps. apply wp_push_free; [done|]. wp_steps. apply wp_set_page_state; [by apply index_ok|].
    wp_steps. cbn. do 3 eexists. split.
    { cbn. do 2 f_equal; rewrite length_app; cbn [length];
        rewrite Heq, length_app in Hlen; rewrite u64_small; lia. }
    rewrite reverse_snoc. split.
    + split; [done|]. rewrite mrd_insert_eq. eapply chain_frame; [done|].
      intros q Hq. rewrite elem_of_reverse in Hq. apply mrd_insert_ne. by intros ->.
    + eapply pages_upd_snoc; [done|exact Hu|]. unfold f.
      by rewrite <- (pages_upd_out _ _ _ _ _ Hu Hp Hnin).
  - intros [] s' (mem' & pgs & h & -> & Hc & Hu). by apply HQ.
Qed.

Lemma page_allocator_init_spec kernel_end s :
  let start := align_up (va_to_pa kernel_end) PAGE_SIZE in
  QEMU_VIRT_RAM_BASE ≤ va_to_pa kernel_end ≤ RAM_END →
  wp (page_allocator_init kernel_end) (λ _ s',
    pa_rep (reverse (page_range start RAM_END)) s' ∧ managed_start s' = start ∧
    reserved_bytes s' = start - QEMU_VIRT_RAM_BASE ∧
    invalid_free_count s' = 0 ∧ double_free_count s' = 0 ∧
    pa_held s' = pa_held s ∧ (∀ p, owned s' p = None)) s.
Proof.
  intros start Hke. unfold page_allocator_init. fold start. fold RAM_END.
  assert (start mod PAGE_SIZE = 0 ∧ va_to_pa kernel_end ≤ start ≤ RAM_END) as [Hal Hst].
  { unfold start, align_up. change PAGE_SIZE with (2 ^ 12).
    unfold RAM_END, QEMU_VIRT_RAM_BASE, QEMU_VIRT_RAM_SIZE in *.
    rewrite align_up64_eq by lia. Z.div_mod_to_equations; lia. }
  assert (∀ p, p ∈ page_range start RAM_END → ram_page p) as Hram.
  { intros p [? ?]%elem_of_page_range; [|done]. unfold ram_page. lia. }
  wp_steps. apply wp_init_clear. intros pgs0 Hclear. cbn.
  apply wp_init_push; try done; [lia|]. intros mem' pgs h n l -> Hc Hu. cbn in Hu |- *.
  match goal with |- pa_rep _ ?x ∧ _ => set (s' := x) end.
  assert (∀ p, ram_page p → page_at s' (page_index_from_address p) =
            if decide (p ∈ l) then Page PAGE_STATE_FREE 0 else Page PAGE_STATE_UNUSED 0) as Hpg.
  { intros p Hp. rewrite (Hu p Hp : page_at s' _ = _). unfold page_at. cbn.
    rewrite (Hclear _ (index_ok p Hp)). done. }
  assert (∀ p, p ∈ l ↔ managed s' p) as Hl.
  { intros p. unfold l. by rewrite elem_of_page_range. }
  assert (∀ p, managed s' p → pst s' p = PAGE_STATE_FREE) as Hfr.
  { intros p Hp%Hl. unfold pst. by rewrite Hpg, decide_True by auto. }
  assert (pa_window s') as Hw.
  { split; cbn; [|lia|done|done]. unfold QEMU_VIRT_RAM_BASE in *. lia. }
  split; [split|]; try done.
  - apply NoDup_reversed, page_range_nodup.
  - intros p. rewrite elem_of_reverse. unfold is_free. rewrite (Hl p : p ∈ page_range _ _ ↔ _).
    split; [auto|by intros [? _]].
  - auto.
  - intros p Hm Hs. by rewrite Hfr in Hs.
  - intros p Hp Hlt. unfold pst. rewrite Hpg by done. rewrite decide_False; [done|].
    intros [[? _] _]%Hl. cbn in *. lia.
  - rewrite <- page_range_length by done. done.
  - by rewrite length_reverse.
  - split; [done|]. split; [|split; [done|split; [done|split; [done|]]]].
    + cbn. apply u64_small. unfold RAM_END, QEMU_VIRT_RAM_BASE, QEMU_VIRT_RAM_SIZE in *. lia.
    + intros p. unfold owned. rewrite decide_False; [done|]. intros [Hm Hs].
      by rewrite Hfr in Hs.
Qed.

(** ** The consistency check *)

Lemma wp_count_nodes fl (Q : Z → pastate → Prop) s :
  pa_rep fl s → Q (Z.of_nat (length fl)) s → wp count_free_list_nodes Q s.
Proof.
  intros Hr HQ. unfold count_free_list_nodes. wp_steps.
  set (I := λ (n : nat) '((node, count) : Z * Z) (s' : pastate), s' = s ∧
    ∃ pre suf, fl = pre ++ suf ∧ chain (pa_mem s) node suf ∧
      count = Z.of_nat (length pre) ∧ n = length suf).
  apply (wp_whileM _ _ _ I Q (length fl)).
  - pose proof (rep_bounds _ _ Hr). rewrite max_pages_eq. lia.
  - split; [done|]. exists [], fl. split; [done|]. split; [apply Hr|done].
  - intros n [node count] s' (-> & pre & suf & Heq & Hc & -> & ->). destruct suf as [|p suf].
    + cbn in Hc. subst node. apply wp_ret. rewrite app_nil_r in Heq. by subst.
    + destruct Hc as [-> Hc].
      assert (is_free s p) as [Hm _] by (apply (rep_free _ _ Hr); rewrite Heq; set_solver).
      assert (ram_page p) as Hp by (eauto using managed_ram, rep_win).
      pose proof (ram_page_nz p Hp). bfalse (p =? 0). unfold mmu_is_enabled. wp_steps.
      apply wp_load64; [by apply page_ptr_ok|]. wp_steps. rewrite page_ptr_pa by done. cbn.
      rewrite page_ptr_to_pa_low by (apply (free_list_low _ _ Hr); rewrite Heq; set_solver).
      exists (length suf). split; [lia|]. split; [by destruct s as [[]]|].
      exists (pre ++ [p]), suf. rewrite length_app. cbn [length].
      split; [by rewrite <- app_assoc|]. split; [done|]. lia.
Qed.

Lemma wp_count_states fl (Q : Z * Z * Z → pastate → Prop) s :
  pa_rep fl s →
  Q (Z.of_nat (length fl), npages s - Z.of_nat (length fl), 0) s →
  wp (count_states (managed_start s) (managed_end s)) Q s.
Proof.
  intros Hr HQ. pose proof (rep_win _ _ Hr) as Hw.
  set (l := page_range (managed_start s) (managed_end s)).
  set (F := λ l : list Z, filter (λ p, pst s p = PAGE_STATE_FREE) l).
  set (I := λ (pre : list Z) (c : Z * Z * Z) (s' : pastate), s' = s ∧
    c = (Z.of_nat (length (F pre)), Z.of_nat (length pre) - Z.of_nat (length (F pre)), 0)).
  eapply wp_mono; [apply (wp_foldM _ _ _ I)|].
  - done.
  - intros pre p post c s' Heq [-> ->].
    assert (managed s p) as Hm by (apply elem_of_window; [done|]; rewrite Heq; set_solver).
    rewrite wp_bind. apply wp_get_page; [by eapply index_ok, managed_ram|].
    fold (pst s p). apply wp_ret. split; [done|]. unfold F. rewrite filter_app, !length_app.
    rewrite filter_cons, filter_nil.
    destruct (rep_alloc _ _ Hr p Hm) as [Hs|Hs]; rewrite Hs;
      [rewrite decide_True by done|rewrite decide_False by done]; cbn [length Z.eqb];
      rewrite !Nat2Z.inj_add; cbn; apply pair_eq; (split; [|done]); apply pair_eq; lia.
  - intros c s' [-> ->]. rewrite <- page_range_length in HQ by done.
    replace (length (F _)) with (length fl); [done|]. apply Permutation_length.
    apply NoDup_Permutation; [apply Hr|apply free_scan_nodup|].
    intros q. rewrite (rep_free _ _ Hr). symmetry. apply (elem_of_free_scan s q Hw).
Qed.

Lemma check_consistency_ok fl s : pa_rep fl s →
  page_allocator_check_consistency s = Some (0, s).
Proof.
  intros Hr. assert (wp page_allocator_check_consistency (λ r s', r = 0 ∧ s' = s) s) as Hwp.
  { unfold page_allocator_check_consistency. wp_steps. eapply wp_count_states; [done|]. wp_steps.
    rewrite (rep_total _ _ Hr), (rep_count _ _ Hr). eapply wp_count_nodes; [done|]. wp_steps.
    rewrite Z.eqb_refl. by btrue (Z.of_nat (length fl) + (npages s - Z.of_nat (length fl)) =? npages s). }
  apply wp_elim in Hwp as (r & s' & -> & -> & ->). done.
Qed.
