(* ===== verification/PageAllocRefine.v ===== *)
(** * The page allocator's contract and its refinement.

    A call of the API is a value of [pa_call]; [pa_exec] runs the code of
    page_alloc.c and [pa_spec] is the contract: what the call returns and how
    the ownership map, the reference count of every allocated page, changes.
    [Store] is the client writing a word of a page it owns, which may happen
    between any two calls.  [pa_step_refines] is the simulation, and the
    theorems after it follow the allocator from boot through any sequence of
    calls. *)

From S2P Require Import Prelude Machine PageAlloc PageAllocSpec.

Open Scope kernel_scope.

Abbreviation ownership := (Z → option Z).

(** Ownership maps are compared pointwise. *)
Definition own_eq (o1 o2 : ownership) : Prop := ∀ p, o1 p = o2 p.
Infix "≗" := own_eq (at level 70, no associativity) : kernel_scope.

Inductive pa_call : Type :=
  | Alloc
  | AllocContiguous (n : Z)
  | Free (p : Z)
  | FreeContiguous (p n : Z)
  | RefInc (a : Z)
  | RefDec (p : Z)
  | RefGet (a : Z)
  | Store (a v : Z).

Definition pa_exec (c : pa_call) : M pastate Z :=
  match c with
  | Alloc => page_alloc
  | AllocContiguous n => page_alloc_contiguous n
  | Free p => page_free p ;; mret 0
  | FreeContiguous p n => page_free_contiguous p n ;; mret 0
  | RefInc a => page_ref_inc a ;; mret 0
  | RefDec p => page_ref_dec p
  | RefGet a => page_ref_get a
  | Store a v => up (store64 a v) ;; mret 0
  end.

(** What the caller must respect: arguments are 64-bit values, the address
    given to [page_ref_dec] is that of a page, the extent given to
    [page_free_contiguous] does not wrap around, and a client writes only
    into pages it owns. *)
Definition pa_pre (own : ownership) (c : pa_call) : Prop :=
  match c with
  | Alloc => True
  | AllocContiguous n => 0 ≤ n < 2 ^ 64
  | Free p => 0 ≤ p < 2 ^ 64
  | FreeContiguous p n => 0 ≤ p ∧ 0 ≤ n ∧ p + n * PAGE_SIZE < 2 ^ 64
  | RefInc a | RefGet a => 0 ≤ a < 2 ^ 64
  | RefDec p => 0 ≤ p < 2 ^ 64 ∧ p mod PAGE_SIZE = 0
  | Store a v => a mod 8 = 0 ∧ is_Some (own (page_of a))
  end.

Definition own_set (own : ownership) (X : list Z) (v : option Z) : ownership :=
  λ q, if decide (q ∈ X) then v else own q.

(** Dropping one reference; the last one frees the page. *)
Definition own_drop (own : ownership) (p : Z) : ownership :=
  λ q, if decide (q = p)
       then match own p with
            | Some r => if 1 <? r then Some (r - 1) else None
            | None => None
            end
       else own q.

(** A run of [n] pages of [W] none of which is owned. *)
Definition avail_run (W : Z → Prop) (own : ownership) (p n : Z) : Prop :=
  ∀ q, q ∈ run_pages p n → W q ∧ own q = None.

Definition pa_spec (W : Z → Prop) (own : ownership) (c : pa_call) (r : Z) (own' : ownership) : Prop :=
  match c with
  | Alloc =>
      (r = 0 ∧ (∀ p, W p → is_Some (own p)) ∧ own' ≗ own) ∨
      (W r ∧ own r = None ∧ own' ≗ own_set own [r] (Some 1))
  | AllocContiguous n =>
      (r = 0 ∧ (n = 0 ∨ ∀ p, ¬ avail_run W own p n) ∧ own' ≗ own) ∨
      (0 < n ∧ avail_run W own r n ∧ (∀ p, avail_run W own p n → r ≤ p) ∧
       own' ≗ own_set own (run_pages r n) (Some 1))
  | Free p => r = 0 ∧ own' ≗ own_drop own p
  | FreeContiguous p n =>
      r = 0 ∧ (((∀ q, q ∈ run_pages p n → is_Some (own q)) ∧
                own' ≗ own_set own (run_pages p n) None) ∨
               ((∃ q, q ∈ run_pages p n ∧ own q = None) ∧ own' ≗ own))
  | RefInc a => r = 0 ∧ own' ≗ ref_inc_own own (page_of a)
  | RefDec p => r = (if decide (own p = Some 1) then 1 else 0) ∧ own' ≗ own_drop own p
  | RefGet a => r = default 0 (own (page_of a)) ∧ own' ≗ own
  | Store _ _ => r = 0 ∧ own' ≗ own
  end.

(** The contract on memory: a page that stays owned, or that the allocator
    does not manage, keeps its contents (the client's own store apart), and a
    page that becomes owned reads as zero. *)
Record pa_mem_spec (W : Z → Prop) (own own' : ownership) (c : pa_call)
    (mem mem' : gmap Z Z) : Prop := {
  ms_keep : ∀ a, ¬ W (page_of a) ∨ (is_Some (own (page_of a)) ∧ is_Some (own' (page_of a))) →
    mrd mem' a = match c with
                 | Store b v => if decide (a = b) then v else mrd mem a
                 | _ => mrd mem a
                 end;
  ms_zero : ∀ p k, own p = None → is_Some (own' p) → 0 ≤ k < 512 → mrd mem' (p + 8 * k) = 0;
}.

(** ** The simulation *)

Record pa_ok (s : pastate) : Prop := {
  ok_inv : pa_inv s;
  ok_lock : can_lock L_page (pa_held s) = true;
}.

Record pa_step_ok (s : pastate) (c : pa_call) (r : Z) (s' : pastate) : Prop := {
  step_inv : pa_inv s';
  step_env : pa_env s s';
  step_spec : pa_spec (managed s) (owned s) c r (owned s');
  step_mem : pa_mem_spec (managed s) (owned s) (owned s') c (pa_mem s) (pa_mem s');
}.

Lemma own_same s s' : pa_same s s' → owned s' ≗ owned s.
Proof. intros H p. by apply pa_same_owned. Qed.

Lemma mem_spec_same W own own' c mem mem' :
  own' ≗ own → (∀ b v, c ≠ Store b v) → mem' = mem → pa_mem_spec W own own' c mem mem'.
Proof.
  intros Ho Hc ->. split.
  - intros a _. destruct c; try done. by destruct (Hc a0 v).
  - intros p k Hn Hs. rewrite Ho, Hn in Hs. by destruct Hs.
Qed.

Lemma avail_free_run fl s p n : pa_rep fl s → avail_run (managed s) (owned s) p n ↔ free_run s p n.
Proof.
  intros Hr. unfold avail_run, free_run. split; intros H q Hq; specialize (H q Hq).
  - apply (owned_None_free fl); tauto.
  - split; [apply H|]. apply (owned_None_free fl); [done|apply H|done].
Qed.

Lemma exec_alloc s : pa_ok s → wp (pa_exec Alloc) (pa_step_ok s Alloc) s.
Proof.
  intros [[fl Hr] Hlk]. eapply wp_mono; [by apply (page_alloc_spec fl)|].
  intros p s' [He Hp]. destruct fl as [|q fl'].
  - destruct Hp as [-> ->]. split; [by eexists|done| |by apply mem_spec_same].
    left. split; [done|]. split; [|done]. intros p Hm.
    destruct (owned s p) eqn:Ho; [done|]. apply (owned_None_free _ _ _ Hr Hm) in Ho.
    by apply (rep_free _ _ Hr), not_elem_of_nil in Ho.
  - destruct Hp as (-> & Hr' & [Hz1 Hz2] & Ho).
    assert (is_free s q) as Hf by (apply (rep_free _ _ Hr); set_solver).
    assert (owned s q = None) as Hn by (apply (owned_None_free _ _ _ Hr); [apply Hf|done]).
    split; [by eexists|done|..].
    + right. split; [apply Hf|]. split; [done|]. intros r. rewrite Ho. unfold own_set.
      repeat case_decide; set_solver.
    + split.
      * intros a Ha. apply Hz2. intros Heq. rewrite Heq in Ha. destruct Ha as [Ha|[[r Hr1] _]].
        { by destruct Hf. }
        by rewrite Hn in Hr1.
      * intros p k Hp Hs. rewrite Ho in Hs. case_decide; [subst; by apply Hz1|].
        rewrite Hp in Hs. by destruct Hs.
Qed.

Lemma exec_alloc_contiguous s n : 0 ≤ n → pa_ok s →
  wp (pa_exec (AllocContiguous n)) (pa_step_ok s (AllocContiguous n)) s.
Proof.
  intros Hn [[fl Hr] Hlk]. eapply wp_mono; [by apply (page_alloc_contiguous_spec fl)|].
  intros p s' [(-> & -> & Hno)|(Hn' & [Hi He Ho Hz Hf] & Hfree & Hmin)].
  - split; [by eexists|done| |by apply mem_spec_same].
    left. split; [done|]. split; [|done]. setoid_rewrite (avail_free_run fl); done.
  - split; [done|done|..].
    + right. split; [done|]. setoid_rewrite (avail_free_run fl); done.
    + split.
      * intros a Ha. apply Hf. intros Hfr. destruct Ha as [Ha|[[r Hr1] _]].
        { by destruct Hfr. }
        assert (owned s (page_of a) = None) as Hno; [|by rewrite Hno in Hr1].
        apply (owned_None_free _ _ _ Hr); [apply Hfr|done].
      * intros q k Hq Hs. rewrite Ho in Hs. case_decide; [by apply Hz|].
        rewrite Hq in Hs. by destruct Hs.
Qed.

(** Pushing page [p] on the free list touches only page [p]. *)
Lemma mem_spec_push W own own' c (mem : gmap Z Z) p v :
  W p → p mod PAGE_SIZE = 0 → (∀ b v, c ≠ Store b v) → own' p = None →
  (∀ q, own q = None → own' q = None) →
  pa_mem_spec W own own' c mem (<[p := v]> mem).
Proof.
  intros HW Hp Hc Hn Hmono. split.
  - intros a Ha. rewrite mrd_insert_ne; [destruct c; try done; by destruct (Hc a0 v0)|].
    intros <-. rewrite page_of_page in Ha by done.
    destruct Ha as [?|[_ [r Hr]]]; [done|]. by rewrite Hn in Hr.
  - intros q k Hq%Hmono Hs. rewrite Hq in Hs. by destruct Hs.
Qed.

Lemma own_drop_none own p q : own q = None → own_drop own p q = None.
Proof. intros. unfold own_drop. case_decide; [subst|done]. by rewrite H. Qed.

Lemma mem_spec_kept W own own' c (mem : gmap Z Z) :
  (∀ b v, c ≠ Store b v) → (∀ q, own q = None → own' q = None) →
  pa_mem_spec W own own' c mem mem.
Proof.
  intros Hc Hm. split; [intros; destruct c; try done; by destruct (Hc a0 v)|].
  intros q k Hq%Hm Hs. rewrite Hq in Hs. by destruct Hs.
Qed.

Lemma exec_free s p : 0 ≤ p → pa_ok s → wp (pa_exec (Free p)) (pa_step_ok s (Free p)) s.
Proof.
  intros Hp [[fl Hr] Hlk]. unfold pa_exec. wp_steps.
  eapply wp_mono; [by apply (page_free_spec fl)|]. intros [] s' [He Hs]. apply wp_ret.
  destruct (owned s p) as [r|] eqn:Ho.
  - pose proof (owned_managed _ _ _ Ho) as (Hm & _).
    assert (∀ q, owned s q = None → own_drop (owned s) p q = None) as Hd
      by (intros; by apply own_drop_none).
    destruct (1 <? r) eqn:H1; destruct Hs as (Hr' & Hmem & Ho').
    + assert (owned s' ≗ own_drop (owned s) p) as Heq.
      { intros q. rewrite Ho'. unfold own_drop. case_decide; [|done]. by rewrite Ho, H1. }
      split; [by eexists|done|by split|]. rewrite Hmem. apply mem_spec_kept; [done|].
      intros q. rewrite Heq. apply Hd.
    + assert (owned s' ≗ own_drop (owned s) p) as Heq.
      { intros q. rewrite Ho'. unfold own_drop. case_decide; [|done]. by rewrite Ho, H1. }
      split; [by eexists|done|by split|]. rewrite Hmem.
      apply mem_spec_push; [done|apply Hm|done|by rewrite Ho', decide_True|].
      intros q. rewrite Heq. apply Hd.
  - destruct Hs as [Hs _]. pose proof (own_same _ _ Hs) as Hoe.
    split; [exists fl; by eapply pa_same_rep|done| |].
    + split; [done|]. intros q. rewrite Hoe. unfold own_drop. case_decide; [subst|done]. by rewrite Ho.
    + apply mem_spec_same; [done|done|apply Hs].
Qed.

Lemma exec_ref_dec s p : p mod PAGE_SIZE = 0 → pa_ok s →
  wp (pa_exec (RefDec p)) (pa_step_ok s (RefDec p)) s.
Proof.
  intros Hp [[fl Hr] Hlk]. eapply wp_mono; [by apply (page_ref_dec_spec fl)|].
  intros v s' [He Hs]. destruct (owned s p) as [r|] eqn:Ho.
  - pose proof (owned_managed _ _ _ Ho) as (Hm & _).
    pose proof (owned_ref_range _ _ _ _ Hr Ho).
    assert (∀ q, owned s q = None → own_drop (owned s) p q = None) as Hd
      by (intros; by apply own_drop_none).
    destruct (r =? 1) eqn:H1; bool_to_prop; destruct Hs as (-> & Hr' & Hmem & Ho').
    + subst r. assert (owned s' ≗ own_drop (owned s) p) as Heq.
      { intros q. rewrite Ho'. unfold own_drop. case_decide; [|done]. by rewrite Ho. }
      split; [by eexists|done|split; [by rewrite Ho, decide_True|done]|]. rewrite Hmem.
      apply mem_spec_push; [done|apply Hm|done|by rewrite Ho', decide_True|].
      intros q. rewrite Heq. apply Hd.
    + assert (owned s' ≗ own_drop (owned s) p) as Heq.
      { intros q. rewrite Ho'. unfold own_drop. case_decide; [|done]. rewrite Ho. by btrue (1 <? r). }
      split; [by eexists|done|split; [rewrite Ho, decide_False by congruence|]; done|].
      rewrite Hmem. apply mem_spec_kept; [done|]. intros q. rewrite Heq. apply Hd.
  - destruct Hs as [-> Hs]. pose proof (own_same _ _ Hs) as Hoe.
    split; [exists fl; by eapply pa_same_rep|done| |].
    + split; [by rewrite Ho|]. intros q. rewrite Hoe. unfold own_drop.
      case_decide; [subst|done]. by rewrite Ho.
    + apply mem_spec_same; [done|done|apply Hs].
Qed.

Lemma exec_free_contiguous s p n : 0 ≤ p → 0 ≤ n → p + n * PAGE_SIZE < 2 ^ 64 → pa_ok s →
  wp (pa_exec (FreeContiguous p n)) (pa_step_ok s (FreeContiguous p n)) s.
Proof.
  intros Hp Hn Hov [[fl Hr] Hlk]. unfold pa_exec. wp_steps.
  eapply wp_mono; [by apply (page_free_contiguous_spec fl)|]. intros [] s' Hs. apply wp_ret.
  case_decide as Hd.
  - destruct Hs as [Hi He Ho Hf], Hd as [Hn' Hro]. split; [done|done|..].
    + split; [done|]. left. split; [exact Hro|]. exact Ho.
    + split.
      * intros a Ha. apply Hf. intros Hfr. pose proof Hi as [fl' Hr'].
        assert (owned s' (page_of a) = None) as Hno
          by (apply (owned_None_free _ _ _ Hr'); [apply Hfr|done]).
        destruct Ha as [Ha|[_ [r Hr1]]]; [|by rewrite Hno in Hr1].
        apply Ha. apply (managed_env _ _ _ He), Hfr.
      * intros q k Hq Hs. rewrite Ho in Hs. case_decide; [by destruct Hs|].
        rewrite Hq in Hs. by destruct Hs.
  - pose proof (own_same _ _ Hs) as Hoe. split; [exists fl; by eapply pa_same_rep|apply Hs| |].
    + split; [done|].
      destruct (decide (Forall (λ q, is_Some (owned s q)) (run_pages p n))) as [Hro|Hro].
      * rewrite Forall_forall in Hro. left. split; [done|].
        assert (n = 0) as -> by (destruct (decide (0 < n)); [tauto|lia]). done.
      * right. split; [|done]. apply not_Forall_Exists in Hro; [|apply _].
        apply Exists_exists in Hro as (q & Hq & Hno). exists q. split; [done|].
        by apply eq_None_not_Some.
    + apply mem_spec_same; [done|done|apply Hs].
Qed.

Lemma exec_ref_inc s a : pa_ok s → wp (pa_exec (RefInc a)) (pa_step_ok s (RefInc a)) s.
Proof.
  intros [[fl Hr] Hlk]. unfold pa_exec. wp_steps.
  eapply wp_mono; [by apply (page_ref_inc_spec fl)|]. intros [] s' (He & Hr' & Hm & Ho).
  apply wp_ret. split; [by eexists|done|done|]. rewrite Hm. apply mem_spec_kept; [done|].
  intros q Hq. rewrite Ho. unfold ref_inc_own. case_decide; [subst; by rewrite Hq|done].
Qed.

Lemma exec_ref_get s a : pa_ok s → wp (pa_exec (RefGet a)) (pa_step_ok s (RefGet a)) s.
Proof.
  intros [[fl Hr] Hlk]. eapply wp_mono; [by apply (page_ref_get_spec fl)|].
  intros v s' [-> ->]. split; [by eexists|done|done|by apply mem_spec_same].
Qed.

(** A store into an owned page leaves the free list alone. *)
Lemma exec_store s a v : a mod 8 = 0 → is_Some (owned s (page_of a)) → pa_ok s →
  wp (pa_exec (Store a v)) (pa_step_ok s (Store a v)) s.
Proof.
  intros Ha [r Ho] [[fl Hr] Hlk]. unfold pa_exec. wp_steps.
  pose proof (owned_managed _ _ _ Ho) as (Hm & Hst & _).
  apply (page_of_managed _ _ (rep_win _ _ Hr)) in Hm as Hb.
  assert (0 < a < 2 ^ 32).
  { destruct (rep_win _ _ Hr) as [? ? He ?]. rewrite He in Hb.
    unfold RAM_END, QEMU_VIRT_RAM_BASE, QEMU_VIRT_RAM_SIZE in *. lia. }
  apply wp_store64; [apply ptr_ok_intro; lia|]. rewrite va_to_pa_low by (unfold KERNEL_VA_OFFSET; lia).
  apply wp_ret. match goal with |- pa_step_ok _ _ _ ?x => set (s' := x) end.
  assert (pa_env s s') as He by done.
  split; [|done|done|].
  - exists fl. eapply (pa_rep_upd [] (λ _, Page 0 0) fl fl s s'); try done; try apply Hr.
    { intros q Hq. by apply not_elem_of_nil in Hq. }
    eapply chain_frame; [apply Hr|]. intros p Hp. cbn. apply mrd_insert_ne. intros <-.
    pose proof (rep_free_aligned _ _ _ Hr Hp) as Hal. rewrite page_of_page in Hst by done.
    apply (rep_free _ _ Hr) in Hp as [_ Hp]. by rewrite Hst in Hp.
  - split.
    + intros b _. cbn. rewrite mrd_insert. repeat case_decide; congruence.
    + intros p k Hp [r' Hs]. by rewrite (Hs : owned s p = _) in Hp.
Qed.

Lemma pa_step_total s c : pa_ok s → pa_pre (owned s) c → wp (pa_exec c) (pa_step_ok s c) s.
Proof.
  intros Hok. destruct c; cbn [pa_pre]; intros Hpre.
  - by apply exec_alloc.
  - apply exec_alloc_contiguous; [lia|done].
  - apply exec_free; [lia|done].
  - destruct Hpre as (? & ? & ?). by apply exec_free_contiguous.
  - by apply exec_ref_inc.
  - destruct Hpre. by apply exec_ref_dec.
  - by apply exec_ref_get.
  - destruct Hpre as (? & ?). by apply exec_store.
Qed.

(** ** The allocator from boot on *)

(** The states the kernel reaches: boot, then any calls that respect their
    preconditions, in any order. *)
Inductive pa_reach (kernel_end : Z) : pastate → Prop :=
  | reach_boot s0 s :
      pa_held s0 = [] → page_allocator_init kernel_end s0 = Some ((), s) →
      pa_reach kernel_end s
  | reach_call s c r s' :
      pa_reach kernel_end s → pa_pre (owned s) c → pa_exec c s = Some (r, s') →
      pa_reach kernel_end s'.

Lemma pa_step_ok_ok s c r s' : pa_ok s → pa_step_ok s c r s' → pa_ok s'.
Proof.
  intros [_ Hlk] [Hi He _ _]. split; [done|]. by rewrite (env_held _ _ He).
Qed.

Lemma pa_reach_ok kernel_end s :
  QEMU_VIRT_RAM_BASE ≤ va_to_pa kernel_end ≤ RAM_END → pa_reach kernel_end s → pa_ok s.
Proof.
  intros Hk. induction 1 as [s0 s Hh Hs|s c r s' _ IH Hpre Hs].
  - destruct (wp_run _ _ _ _ _ (page_allocator_init_spec kernel_end s0 Hk) Hs)
      as (Hr & _ & _ & _ & _ & Hhl & _).
    split; [by eexists|]. by rewrite Hhl, Hh.
  - eapply pa_step_ok_ok; [done|]. by apply (wp_run _ _ _ _ _ (pa_step_total s c IH Hpre)).
Qed.

(** A concrete machine for the witnesses: the kernel image ends four pages
    below the end of RAM. *)
Definition machine0 : machine := Machine ∅ [] true [].
Definition pastate0 : pastate := PaState machine0 0 0 0 0 0 0 0 0 ∅.
Definition kernel_end0 : Z := 0x47FFC000.
Definition pa_boot : pastate :=
  match page_allocator_init kernel_end0 pastate0 with Some (_, s) => s | None => pastate0 end.

Lemma pa_boot_init : page_allocator_init kernel_end0 pastate0 = Some ((), pa_boot).
Proof.
  assert (wp (page_allocator_init kernel_end0) (λ _ _, True) pastate0) as Hwp.
  { eapply wp_mono; [apply page_allocator_init_spec|done]. by vm_compute. }
  apply wp_elim in Hwp as ([] & s & Hs & _). unfold pa_boot. by rewrite Hs.
Qed.

Lemma pa_boot_ok : pa_ok pa_boot.
Proof.
  apply (pa_reach_ok kernel_end0); [by vm_compute|]. by apply (reach_boot _ pastate0), pa_boot_init.
Qed.

(** ** Claims *)

(** C1.  The page allocator implements its contract.  From every state that
    satisfies the allocator's invariant, every call that respects its
    precondition returns (no lock is re-acquired, no array index or pointer is
    out of range, no loop diverges); the invariant holds again; the lock is
    released and the managed window unchanged; the result and the change of
    the ownership map are those of [pa_spec]; pages that stay owned keep their
    contents and pages that become owned read as zero. *)
Theorem page_alloc_refines s c :
  pa_ok s → pa_pre (owned s) c →
  ∃ r s', pa_exec c s = Some (r, s') ∧ pa_step_ok s c r s'.
Proof. intros Hok Hpre. by apply wp_elim, pa_step_total. Qed.

Lemma page_alloc_refines_witness :
  pa_ok pa_boot ∧ ∃ s', pa_exec Alloc pa_boot = Some (0x47FFF000, s') ∧
    pa_step_ok pa_boot Alloc 0x47FFF000 s'.
Proof.
  split; [exact pa_boot_ok|].
  destruct (page_alloc_refines pa_boot Alloc pa_boot_ok I) as (r & s' & Hs & Hok).
  assert (fst <$> pa_exec Alloc pa_boot = Some 0x47FFF000) as Hr by (vm_compute; reflexivity).
  exists s'. rewrite Hs in Hr. cbn in Hr. injection Hr as ->. by split.
Defined.

(** C2.  Boot: whatever the state before, [page_allocator_init] returns and
    leaves every page from the end of the kernel image to the end of RAM on
    the free list, in descending order, none allocated, the counters zero. *)
Theorem page_allocator_init_establishes kernel_end s :
  QEMU_VIRT_RAM_BASE ≤ va_to_pa kernel_end ≤ RAM_END →
  ∃ s', page_allocator_init kernel_end s = Some ((), s') ∧
    let start := align_up (va_to_pa kernel_end) PAGE_SIZE in
    pa_rep (reverse (page_range start RAM_END)) s' ∧ managed_start s' = start ∧
    reserved_bytes s' = start - QEMU_VIRT_RAM_BASE ∧
    invalid_free_count s' = 0 ∧ double_free_count s' = 0 ∧ (∀ p, owned s' p = None).
Proof.
  intros Hk. destruct (wp_elim _ _ _ (page_allocator_init_spec kernel_end s Hk))
    as ([] & s' & Hs & Hr & ? & ? & ? & ? & _ & ?).
  exists s'. split; [exact Hs|]. cbv zeta. repeat (split; [assumption|]). assumption.
Qed.

Lemma page_allocator_init_establishes_witness :
  ∃ s', page_allocator_init kernel_end0 pastate0 = Some ((), s') ∧ free_pages s' = 4.
Proof.
  destruct (page_allocator_init_establishes kernel_end0 pastate0) as (s' & Hs & Hr & _);
    [by vm_compute|].
  exists s'. split; [exact Hs|]. rewrite (rep_count _ _ Hr). vm_compute. reflexivity.
Defined.

(** C3.  From boot through any sequence of calls that respect their
    preconditions, client stores into owned pages included, the consistency
    check of the kernel finds no mismatch (page states, the free counter and
    the length of the free list agree) and changes nothing. *)
Theorem page_allocator_always_consistent kernel_end s :
  QEMU_VIRT_RAM_BASE ≤ va_to_pa kernel_end ≤ RAM_END → pa_reach kernel_end s →
  page_allocator_check_consistency s = Some (0, s).
Proof.
  intros Hk Hreach. destruct (pa_reach_ok _ _ Hk Hreach) as [[fl Hr] _].
  by apply (check_consistency_ok fl).
Qed.

Lemma page_allocator_always_consistent_witness :
  page_allocator_check_consistency pa_boot = Some (0, pa_boot).
Proof.
  apply (page_allocator_always_consistent kernel_end0); [by vm_compute|].
  by apply (reach_boot _ pastate0), pa_boot_init.
Defined.
