(* ===== verification/Heap.v ===== *)
(** * Kernel heap: src/src/kernel/heap.c

    Arenas of contiguous physical pages hold a doubly linked list of blocks,
    all in memory and reached through the kernel's linear map, as in the code.
    The heap takes its pages from a [PageSource], the interface the page
    allocator implements (HeapSpec.v). *)

From S2P Require Import Prelude Machine.

Open Scope kernel_scope.

(** What the heap calls: [page_alloc_contiguous] of a component whose state
    [P] contains the machine. *)
Class PageSource (P : Type) := {
  ps_sub :: Sub machine P;
  ps_alloc : Z → M P Z;
}.

Definition KERNEL_HEAP_PAGE_MAGIC : Z := 0x4b48454150414745.
Definition KERNEL_HEAP_ALIGNMENT : Z := 16.

(** [sizeof] the two structures and the offsets of their fields. *)
Definition SIZEOF_BLOCK : Z := 32.
Definition SIZEOF_HEAP_PAGE : Z := 40.
Definition b_size (b : Z) : Z := b.
Definition b_is_free (b : Z) : Z := b + 8.
Definition b_next (b : Z) : Z := b + 16.
Definition b_prev (b : Z) : Z := b + 24.
Definition p_magic (p : Z) : Z := p.
Definition p_page_count (p : Z) : Z := p + 8.
Definition p_next (p : Z) : Z := p + 16.
Definition p_usable_bytes (p : Z) : Z := p + 24.
Definition p_first_block (p : Z) : Z := p + 32.

Definition kernel_heap_align_up (value alignment : Z) : Z := align_up64 value alignment.
Definition kernel_heap_min_split_size : Z := SIZEOF_BLOCK + KERNEL_HEAP_ALIGNMENT.
Definition kernel_heap_debug_min_page_count (n : Z) : Z := if n =? 0 then 1 else n.

Definition kernel_heap_pages_for_size (size : Z) : Z :=
  let aligned_size := kernel_heap_align_up size KERNEL_HEAP_ALIGNMENT in
  let block_start := kernel_heap_align_up SIZEOF_HEAP_PAGE KERNEL_HEAP_ALIGNMENT in
  let required_bytes := u64 (u64 (block_start + SIZEOF_BLOCK) + aligned_size) in
  kernel_heap_align_up required_bytes PAGE_SIZE / PAGE_SIZE.

Section heap.
Context {P : Type} `{PageSource P}.

Record hstate : Type := HState {
  h_ps : P;
  kernel_heap_pages : Z;
  kernel_heap_pages_used : Z;
  kernel_heap_free_space : Z;
  kernel_heap_used_space : Z;
  kernel_heap_allocations : Z;
  kernel_heap_failed : Z;
}.

#[global] Instance eta_hstate : Eta hstate := λ h,
  HState (h_ps h) (kernel_heap_pages h) (kernel_heap_pages_used h)
    (kernel_heap_free_space h) (kernel_heap_used_space h)
    (kernel_heap_allocations h) (kernel_heap_failed h).

#[global, refine] Instance sub_heap_ps : Sub P hstate := {
  sub_get := h_ps;
  sub_set := λ p h, h <| h_ps := p |>;
}.
Proof. all: intros; by destruct t. Defined.

Definition hload (ptr : Z) : M hstate Z := up (up (load64 ptr)).
Definition hstore (ptr v : Z) : M hstate unit := up (up (store64 ptr v)).
Definition lock_heap : M hstate unit := up (up (spin_lock_irqsave L_heap)).
Definition unlock_heap : M hstate unit := up (up (spin_unlock_irqrestore L_heap)).
Definition heap_warn (message : string) (ptr : Z) : M hstate unit :=
  up (up (emit (Ev_warn message ptr))).

(** Fuel of the list walks: an arena of [n] pages has fewer than
    [n * PAGE_SIZE / SIZEOF_BLOCK] blocks, and there is at most one arena per
    page. *)
Definition heap_fuel (h : hstate) : nat := Z.to_nat (128 * kernel_heap_pages_used h + 1).

Definition kernel_heap_page_from_pointer (ptr : Z) : M hstate Z :=
  fuel ← gets heap_fuel;
  page ← gets kernel_heap_pages;
  whileM fuel (λ page,
    if page =? 0 then mret (inr 0) else
    page_count ← hload (p_page_count page);
    let arena_end := u64 (page + u64 (page_count * PAGE_SIZE)) in
    if (page <=? ptr) && (ptr <? arena_end) then
      magic ← hload (p_magic page);
      mret (inr (if magic =? KERNEL_HEAP_PAGE_MAGIC then page else 0))
    else
      next ← hload (p_next page);
      mret (inl next)) page.

Definition kernel_heap_debug_find_arena (arena_index min_page_count : Z) : M hstate Z :=
  fuel ← gets heap_fuel;
  page ← gets kernel_heap_pages;
  let min_page_count := kernel_heap_debug_min_page_count min_page_count in
  whileM fuel (λ '(page, current_index),
    if page =? 0 then mret (inr 0) else
    page_count ← hload (p_page_count page);
    if (min_page_count <=? page_count) && (current_index =? arena_index) then mret (inr page) else
    next ← hload (p_next page);
    mret (inl (next, if min_page_count <=? page_count then u64 (current_index + 1)
                     else current_index))) (page, 0).

(** Returns [(free_bytes, largest_free_block)]. *)
Definition kernel_heap_debug_arena_usage (page : Z) : M hstate (Z * Z) :=
  fuel ← gets heap_fuel;
  block ← hload (p_first_block page);
  whileM fuel (λ '(block, free_bytes, largest),
    if block =? 0 then mret (inr (free_bytes, largest)) else
    is_free ← hload (b_is_free block);
    size ← hload (b_size block);
    next ← hload (b_next block);
    mret (inl (if is_free =? 0 then (next, free_bytes, largest)
               else (next, u64 (free_bytes + size), if largest <? size then size else largest))))
    (block, 0, 0).

Definition kernel_heap_add_arena (page_count : Z) : M hstate Z :=
  raw_pa ← up (ps_alloc page_count);
  if raw_pa =? 0 then
    modify (λ h, h <| kernel_heap_failed := u64 (kernel_heap_failed h + 1) |>) ;; mret 0
  else
  let page := pa_to_va raw_pa in
  let block_start := kernel_heap_align_up (u64 (page + SIZEOF_HEAP_PAGE)) KERNEL_HEAP_ALIGNMENT in
  let total_bytes := u64 (page_count * PAGE_SIZE) in
  let usable_bytes := u64 (u64 (total_bytes - u64 (block_start - page)) - SIZEOF_BLOCK) in
  let block := block_start in
  hstore (p_magic page) KERNEL_HEAP_PAGE_MAGIC ;;
  hstore (p_page_count page) page_count ;;
  head ← gets kernel_heap_pages;
  hstore (p_next page) head ;;
  hstore (p_usable_bytes page) usable_bytes ;;
  hstore (p_first_block page) block ;;
  modify (λ h, h <| kernel_heap_pages := page |>
                 <| kernel_heap_pages_used := u64 (kernel_heap_pages_used h + page_count) |>
                 <| kernel_heap_free_space := u64 (kernel_heap_free_space h + usable_bytes) |>) ;;
  hstore (b_size block) usable_bytes ;;
  hstore (b_is_free block) 1 ;;
  hstore (b_next block) 0 ;;
  hstore (b_prev block) 0 ;;
  mret page.

Definition kernel_heap_split_block (block size : Z) : M hstate unit :=
  bsize ← hload (b_size block);
  if bsize <? u64 (size + kernel_heap_min_split_size) then mret () else
  let remaining_size := u64 (u64 (bsize - size) - SIZEOF_BLOCK) in
  let new_block := u64 (u64 (block + SIZEOF_BLOCK) + size) in
  hstore (b_size new_block) remaining_size ;;
  hstore (b_is_free new_block) 1 ;;
  next ← hload (b_next block);
  hstore (b_next new_block) next ;;
  hstore (b_prev new_block) block ;;
  new_next ← hload (b_next new_block);
  whenM (negb (new_next =? 0)) (hstore (b_prev new_next) new_block) ;;
  hstore (b_size block) size ;;
  hstore (b_next block) new_block.

Definition kernel_heap_allocate_from_arena (page size : Z) : M hstate Z :=
  fuel ← gets heap_fuel;
  block ← hload (p_first_block page);
  whileM fuel (λ block,
    if block =? 0 then mret (inr 0) else
    is_free ← hload (b_is_free block);
    bsize ← hload (b_size block);
    if negb (is_free =? 0) && (size <=? bsize) then
      kernel_heap_split_block block size ;;
      hstore (b_is_free block) 0 ;;
      bsize ← hload (b_size block);
      modify (λ h, h <| kernel_heap_free_space := u64 (kernel_heap_free_space h - bsize) |>
                     <| kernel_heap_used_space := u64 (kernel_heap_used_space h + bsize) |>
                     <| kernel_heap_allocations := u64 (kernel_heap_allocations h + 1) |>) ;;
      mret (inr (u64 (block + SIZEOF_BLOCK)))
    else
      next ← hload (b_next block);
      mret (inl next)) block.

(** [block->next] is free: absorb it. *)
Definition coalesce_next (block : Z) : M hstate unit :=
  next ← hload (b_next block);
  if next =? 0 then mret () else
  next_free ← hload (b_is_free next);
  if next_free =? 0 then mret () else
  size ← hload (b_size block);
  next_size ← hload (b_size next);
  hstore (b_size block) (u64 (size + u64 (SIZEOF_BLOCK + next_size))) ;;
  next_next ← hload (b_next next);
  hstore (b_next block) next_next ;;
  whenM (negb (next_next =? 0)) (hstore (b_prev next_next) block).

(** [block->prev] is free: let it absorb the block. *)
Definition coalesce_prev (block : Z) : M hstate unit :=
  prev ← hload (b_prev block);
  if prev =? 0 then mret () else
  prev_free ← hload (b_is_free prev);
  if prev_free =? 0 then mret () else
  prev_size ← hload (b_size prev);
  size ← hload (b_size block);
  hstore (b_size prev) (u64 (prev_size + u64 (SIZEOF_BLOCK + size))) ;;
  next ← hload (b_next block);
  hstore (b_next prev) next ;;
  whenM (negb (next =? 0)) (hstore (b_prev next) prev).

Definition kernel_heap_coalesce (block : Z) : M hstate unit :=
  coalesce_next block ;; coalesce_prev block.

Definition kernel_heap_init : M hstate unit :=
  modify (λ h, h <| kernel_heap_pages := 0 |> <| kernel_heap_pages_used := 0 |>
                 <| kernel_heap_free_space := 0 |> <| kernel_heap_used_space := 0 |>
                 <| kernel_heap_allocations := 0 |> <| kernel_heap_failed := 0 |>) ;;
  page ← kernel_heap_add_arena 1;
  whenM (page =? 0) (heap_warn "kernel heap init failed" 0).

(** The arena loop of [kmalloc]: the first arena that can serve the request. *)
Definition kmalloc_scan (aligned_size : Z) : M hstate Z :=
  fuel ← gets heap_fuel;
  page ← gets kernel_heap_pages;
  whileM fuel (λ page,
    if page =? 0 then mret (inr 0) else
    allocation ← kernel_heap_allocate_from_arena page aligned_size;
    if negb (allocation =? 0) then mret (inr allocation) else
    next ← hload (p_next page);
    mret (inl next)) page.

Definition kmalloc (size : Z) : M hstate Z :=
  lock_heap ;;
  if size =? 0 then unlock_heap ;; mret 0 else
  let aligned_size := kernel_heap_align_up size KERNEL_HEAP_ALIGNMENT in
  let required_pages := kernel_heap_pages_for_size aligned_size in
  allocation ← kmalloc_scan aligned_size;
  if negb (allocation =? 0) then unlock_heap ;; mret allocation else
  page ← kernel_heap_add_arena required_pages;
  if page =? 0 then unlock_heap ;; mret 0 else
  allocation ← kernel_heap_allocate_from_arena page aligned_size;
  unlock_heap ;;
  mret allocation.

Definition kfree (ptr : Z) : M hstate unit :=
  if ptr =? 0 then mret () else
  lock_heap ;;
  page ← kernel_heap_page_from_pointer ptr;
  if page =? 0 then
    unlock_heap ;; heap_warn "ignoring invalid heap free" ptr
  else
  let block := ptr - SIZEOF_BLOCK in
  is_free ← hload (b_is_free block);
  if negb (is_free =? 0) then
    unlock_heap ;; heap_warn "ignoring duplicate heap free" ptr
  else
  hstore (b_is_free block) 1 ;;
  size ← hload (b_size block);
  modify (λ h, h <| kernel_heap_used_space := u64 (kernel_heap_used_space h - size) |>
                 <| kernel_heap_free_space := u64 (kernel_heap_free_space h + size) |>) ;;
  kernel_heap_coalesce block ;;
  unlock_heap.

Definition kernel_heap_total_pages : M hstate Z := gets kernel_heap_pages_used.
Definition kernel_heap_free_bytes : M hstate Z := gets kernel_heap_free_space.
Definition kernel_heap_used_bytes : M hstate Z := gets kernel_heap_used_space.
Definition kernel_heap_allocation_count : M hstate Z := gets kernel_heap_allocations.
Definition kernel_heap_failed_allocations : M hstate Z := gets kernel_heap_failed.

Definition kernel_heap_debug_arena_count (min_page_count : Z) : M hstate Z :=
  fuel ← gets heap_fuel;
  page ← gets kernel_heap_pages;
  let min_page_count := kernel_heap_debug_min_page_count min_page_count in
  whileM fuel (λ '(page, count),
    if page =? 0 then mret (inr count) else
    page_count ← hload (p_page_count page);
    next ← hload (p_next page);
    mret (inl (next, if min_page_count <=? page_count then u64 (count + 1) else count)))
    (page, 0).

End heap.

Arguments hstate P : clear implicits.
