(* ===== verification/HeapSeg.v ===== *)
(** * Block lists of the kernel heap in memory.

    [seg mem prev a bs next] says that the blocks [bs] (size and free flag of
    each) lie back to back in memory from physical address [a], their headers
    linked by kernel virtual addresses; [prev] and [next] are the links at the
    two ends.  The lemmas give the effect on the list of the writes that
    heap.c performs: marking a block, splitting it and merging it with a
    neighbour. *)

From S2P Require Import Prelude Machine Heap.

Open Scope kernel_scope.

Definition kv (a : Z) : Z := a + KERNEL_VA_OFFSET.

Abbreviation block := (Z * bool)%type.

(** The address after the last block. *)
Fixpoint bend (a : Z) (bs : list block) : Z :=
  match bs with
  | [] => a
  | (sz, _) :: bs' => bend (a + SIZEOF_BLOCK + sz) bs'
  end.

(** A pointer to the first block, or [next]; one to the last, or [prev]. *)
Definition hd_ptr (a : Z) (bs : list block) (next : Z) : Z :=
  match bs with [] => next | _ => kv a end.
Fixpoint last_ptr (prev a : Z) (bs : list block) : Z :=
  match bs with
  | [] => prev
  | (sz, _) :: bs' => last_ptr (kv a) (a + SIZEOF_BLOCK + sz) bs'
  end.

Record hdr (mem : gmap Z Z) (a sz : Z) (fr : bool) (next prev : Z) : Prop := Hdr {
  hdr_size : mrd mem a = sz;
  hdr_free : mrd mem (a + 8) = Z.b2z fr;
  hdr_next : mrd mem (a + 16) = next;
  hdr_prev : mrd mem (a + 24) = prev;
}.

Fixpoint seg (mem : gmap Z Z) (prev a : Z) (bs : list block) (next : Z) : Prop :=
  match bs with
  | [] => True
  | (sz, fr) :: bs' =>
      hdr mem a sz fr (hd_ptr (a + SIZEOF_BLOCK + sz) bs' next) prev ∧
      seg mem (kv a) (a + SIZEOF_BLOCK + sz) bs' next
  end.

(** The words of the headers. *)
Fixpoint hdrs (a : Z) (bs : list block) : list Z :=
  match bs with
  | [] => []
  | (sz, _) :: bs' => [a; a + 8; a + 16; a + 24] ++ hdrs (a + SIZEOF_BLOCK + sz) bs'
  end.

Definition sizes_ok (bs : list block) : Prop := Forall (λ b, 16 ≤ b.1 ∧ b.1 mod 16 = 0) bs.

(** ** Concatenation *)

Lemma bend_app a l1 l2 : bend a (l1 ++ l2) = bend (bend a l1) l2.
Proof. revert a. induction l1 as [|[sz fr] l1 IH]; intros a; [done|apply IH]. Qed.

Lemma hd_ptr_app a l1 l2 n : hd_ptr a (l1 ++ l2) n = hd_ptr a l1 (hd_ptr (bend a l1) l2 n).
Proof. by destruct l1. Qed.

Lemma last_ptr_app p a l1 l2 :
  last_ptr p a (l1 ++ l2) = last_ptr (last_ptr p a l1) (bend a l1) l2.
Proof. revert p a. induction l1 as [|[sz fr] l1 IH]; intros p a; [done|apply IH]. Qed.

Lemma seg_app mem p a l1 l2 n :
  seg mem p a (l1 ++ l2) n ↔
  seg mem p a l1 (hd_ptr (bend a l1) l2 n) ∧ seg mem (last_ptr p a l1) (bend a l1) l2 n.
Proof.
  revert p a. induction l1 as [|[sz fr] l1 IH]; intros p a; cbn; [tauto|].
  rewrite IH, hd_ptr_app. tauto.
Qed.

Lemma hdrs_app a l1 l2 : hdrs a (l1 ++ l2) = hdrs a l1 ++ hdrs (bend a l1) l2.
Proof.
  revert a. induction l1 as [|[sz fr] l1 IH]; intros a; [done|].
  cbn. by rewrite IH.
Qed.

(** One block of the list with what is on either side of it. *)
Lemma seg_focus mem p a pre sz fr post n :
  let b := bend a pre in
  seg mem p a (pre ++ (sz, fr) :: post) n ↔
  seg mem p a pre (kv b) ∧
  hdr mem b sz fr (hd_ptr (b + SIZEOF_BLOCK + sz) post n) (last_ptr p a pre) ∧
  seg mem (kv b) (b + SIZEOF_BLOCK + sz) post n.
Proof. intros b. rewrite seg_app. cbn. tauto. Qed.

(** ** Bounds *)

Lemma sizes_app l1 l2 : sizes_ok (l1 ++ l2) ↔ sizes_ok l1 ∧ sizes_ok l2.
Proof. apply Forall_app. Qed.

Lemma sizes_cons sz fr bs : sizes_ok ((sz, fr) :: bs) ↔ (16 ≤ sz ∧ sz mod 16 = 0) ∧ sizes_ok bs.
Proof. unfold sizes_ok. by rewrite Forall_cons. Qed.

Lemma bend_ge a bs : sizes_ok bs → a + 32 * Z.of_nat (length bs) ≤ bend a bs.
Proof.
  revert a. induction bs as [|[sz fr] bs IH]; intros a Hs; cbn [bend length]; [lia|].
  apply sizes_cons in Hs as [Hz Hs]. specialize (IH (a + SIZEOF_BLOCK + sz) Hs).
  unfold SIZEOF_BLOCK in *. lia.
Qed.

Lemma bend_mod a bs : sizes_ok bs → a mod 16 = 0 → bend a bs mod 16 = 0.
Proof.
  revert a. induction bs as [|[sz fr] bs IH]; intros a Hs Ha; [done|].
  apply sizes_cons in Hs as [Hz Hs]. apply IH; [done|]. unfold SIZEOF_BLOCK.
  Z.div_mod_to_equations; lia.
Qed.

Lemma hdrs_bounds a bs x : sizes_ok bs → x ∈ hdrs a bs → a ≤ x < bend a bs.
Proof.
  revert a. induction bs as [|[sz fr] bs IH]; intros a Hs; cbn [hdrs bend].
  - by intros ?%not_elem_of_nil.
  - apply sizes_cons in Hs as [Hz Hs]. pose proof (bend_ge (a + SIZEOF_BLOCK + sz) bs Hs) as Hg.
    unfold SIZEOF_BLOCK in *. intros [Hx|Hx]%elem_of_app.
    + rewrite !elem_of_cons, elem_of_nil in Hx. lia.
    + specialize (IH _ Hs Hx). lia.
Qed.

(** ** Frames *)

Lemma hdr_frame mem mem' a sz fr n p :
  hdr mem a sz fr n p → (∀ x, x ∈ [a; a + 8; a + 16; a + 24] → mrd mem' x = mrd mem x) →
  hdr mem' a sz fr n p.
Proof. intros [? ? ? ?] Hf. split; rewrite Hf; set_solver. Qed.

Lemma seg_frame mem mem' p a bs n :
  seg mem p a bs n → (∀ x, x ∈ hdrs a bs → mrd mem' x = mrd mem x) → seg mem' p a bs n.
Proof.
  revert p a. induction bs as [|[sz fr] bs IH]; intros p a; cbn [seg hdrs]; [done|].
  intros [Hh Hs] Hf. split.
  - eapply hdr_frame; [done|]. intros x Hx. apply Hf, elem_of_app. by left.
  - apply IH; [done|]. intros x Hx. apply Hf, elem_of_app. by right.
Qed.

(** The frame by address range. *)
Lemma seg_frame_range mem mem' p a bs n :
  sizes_ok bs → seg mem p a bs n → (∀ x, a ≤ x < bend a bs → mrd mem' x = mrd mem x) →
  seg mem' p a bs n.
Proof. intros Hok Hs Hf. eapply seg_frame; [done|]. intros x Hx. by apply Hf, hdrs_bounds. Qed.

(** Relinking the first block backwards. *)
Lemma seg_relink mem p q a bs n :
  sizes_ok bs → seg mem p a bs n → seg (<[a + 24 := q]> mem) q a bs n.
Proof.
  intros Hok. destruct bs as [|[sz fr] bs]; [done|]. cbn [seg]. intros [[? ? ? ?] Hs].
  apply sizes_cons in Hok as [Hz Hok]. split.
  - split; rewrite ?mrd_insert_eq, ?mrd_insert_ne by lia; done.
  - eapply seg_frame_range; [done|done|]. intros x Hx. unfold SIZEOF_BLOCK in *.
    rewrite mrd_insert_ne by lia. done.
Qed.

(** Relinking the last block forwards. *)
Lemma seg_relink_next mem p a l sz fr n q :
  sizes_ok (l ++ [(sz, fr)]) → seg mem p a (l ++ [(sz, fr)]) n →
  seg (<[bend a l + 16 := q]> mem) p a (l ++ [(sz, fr)]) q.
Proof.
  intros [Hl _]%sizes_app. rewrite !seg_focus. cbn. intros (H1 & [? ? ? ?] & _).
  split; [|split; [|done]].
  - eapply seg_frame_range; [done|done|]. intros x Hx. rewrite mrd_insert_ne by lia. done.
  - split; rewrite ?mrd_insert_eq, ?mrd_insert_ne by lia; done.
Qed.

(** ** The three rewrites of the list *)

Definition no_adjacent_free (bs : list block) : Prop :=
  ∀ l1 l2 s1 s2, bs ≠ l1 ++ (s1, true) :: (s2, true) :: l2.

(** [block->is_free = f]. *)
Lemma seg_mark mem p a pre sz fr f post n :
  let b := bend a pre in
  sizes_ok (pre ++ (sz, fr) :: post) → seg mem p a (pre ++ (sz, fr) :: post) n →
  seg (<[b + 8 := Z.b2z f]> mem) p a (pre ++ (sz, f) :: post) n.
Proof.
  intros b [Hpre [Hz Hpost]%sizes_cons]%sizes_app. rewrite !seg_focus. fold b.
  intros (H1 & [? ? ? ?] & H2). split; [|split].
  - eapply seg_frame_range; [done|done|]. intros x Hx. rewrite mrd_insert_ne by lia. done.
  - split; rewrite ?mrd_insert_eq, ?mrd_insert_ne by lia; done.
  - eapply seg_frame_range; [done|done|]. intros x Hx. unfold SIZEOF_BLOCK in *.
    rewrite mrd_insert_ne by lia. done.
Qed.

(** The writes of [kernel_heap_split_block]; [c] is the new block. *)
Definition split_mem (mem : gmap Z Z) (b sz size : Z) (post : list block) (n : Z) : gmap Z Z :=
  let c := b + SIZEOF_BLOCK + size in
  let m1 := <[c + 24 := kv b]> (<[c + 16 := hd_ptr (b + SIZEOF_BLOCK + sz) post n]>
              (<[c + 8 := 1]> (<[c := sz - size - SIZEOF_BLOCK]> mem))) in
  let m2 := match post with [] => m1 | _ => <[b + SIZEOF_BLOCK + sz + 24 := kv c]> m1 end in
  <[b + 16 := kv c]> (<[b := size]> m2).

Lemma seg_split mem p a pre sz fr post n size :
  let b := bend a pre in
  sizes_ok (pre ++ (sz, fr) :: post) → 0 ≤ size → size + SIZEOF_BLOCK ≤ sz →
  seg mem p a (pre ++ (sz, fr) :: post) n →
  seg (split_mem mem b sz size post n) p a
      (pre ++ (size, fr) :: (sz - size - SIZEOF_BLOCK, true) :: post) n.
Proof.
  intros b [Hpre [Hz Hpost]%sizes_cons]%sizes_app Hsize Hle. unfold SIZEOF_BLOCK in *.
  rewrite !seg_focus. fold b. cbn [seg]. unfold SIZEOF_BLOCK.
  replace (b + 32 + size + 32 + (sz - size - 32)) with (b + 32 + sz) by lia.
  intros (H1 & [? ? ? ?] & H2). unfold split_mem, SIZEOF_BLOCK. split; [|split; [|split]].
  - eapply seg_frame_range; [done|done|]. intros x Hx.
    destruct post; rewrite !mrd_insert_ne by lia; done.
  - split; destruct post; rewrite ?mrd_insert_eq, ?mrd_insert_ne by lia;
      rewrite ?mrd_insert_eq, ?mrd_insert_ne by lia; done.
  - split; destruct post; repeat (rewrite mrd_insert_ne by lia); rewrite ?mrd_insert_eq; done.
  - destruct post as [|q post]; [done|].
    eapply (seg_frame_range (<[b + 32 + sz + 24 := kv (b + 32 + size)]> mem)); [done| |].
    + by eapply seg_relink.
    + intros x Hx. rewrite !mrd_insert. repeat case_decide; try lia; done.
Qed.

(** The writes of [coalesce_next]. *)
Definition merge_mem (mem : gmap Z Z) (b sz sz2 : Z) (post : list block) (n : Z) : gmap Z Z :=
  let d := b + SIZEOF_BLOCK + sz + SIZEOF_BLOCK + sz2 in
  let m1 := <[b + 16 := hd_ptr d post n]> (<[b := sz + SIZEOF_BLOCK + sz2]> mem) in
  match post with [] => m1 | _ => <[d + 24 := kv b]> m1 end.

Lemma seg_merge mem p a pre sz fr sz2 fr2 post n :
  let b := bend a pre in
  sizes_ok (pre ++ (sz, fr) :: (sz2, fr2) :: post) →
  seg mem p a (pre ++ (sz, fr) :: (sz2, fr2) :: post) n →
  seg (merge_mem mem b sz sz2 post n) p a (pre ++ (sz + SIZEOF_BLOCK + sz2, fr) :: post) n.
Proof.
  intros b [Hpre [Hz [Hz2 Hpost]%sizes_cons]%sizes_cons]%sizes_app. rewrite !seg_focus. fold b.
  cbn [seg]. unfold SIZEOF_BLOCK in *. intros (H1 & [? ? ? ?] & [? ? ? ?] & H2).
  unfold merge_mem, SIZEOF_BLOCK.
  replace (b + 32 + (sz + 32 + sz2)) with (b + 32 + sz + 32 + sz2) by lia.
  split; [|split].
  - eapply seg_frame_range; [done|done|]. intros x Hx.
    destruct post; rewrite !mrd_insert_ne by lia; done.
  - split; destruct post; repeat (rewrite mrd_insert_ne by lia); rewrite ?mrd_insert_eq; done.
  - destruct post as [|q post]; [done|]. eapply seg_relink; [done|].
    eapply seg_frame_range; [done|done|]. intros x Hx. rewrite !mrd_insert_ne by lia. done.
Qed.

(** Where the writes go. *)
Lemma split_mem_out mem b sz size post n x :
  0 ≤ size → size + SIZEOF_BLOCK ≤ sz → ¬ (b ≤ x < b + SIZEOF_BLOCK + sz) →
  x ∉ hdrs (b + SIZEOF_BLOCK + sz) post →
  mrd (split_mem mem b sz size post n) x = mrd mem x.
Proof.
  unfold split_mem, SIZEOF_BLOCK. intros ? ? Hx Hn. destruct post as [|[q f] post].
  - rewrite !mrd_insert_ne by lia. done.
  - cbn in Hn. rewrite !not_elem_of_cons in Hn. rewrite !mrd_insert_ne by lia. done.
Qed.

Lemma merge_mem_out mem b sz sz2 post n x :
  x ∉ [b; b + 8; b + 16; b + 24] → x ∉ hdrs (b + SIZEOF_BLOCK + sz + SIZEOF_BLOCK + sz2) post →
  mrd (merge_mem mem b sz sz2 post n) x = mrd mem x.
Proof.
  unfold merge_mem, SIZEOF_BLOCK. rewrite !not_elem_of_cons. intros Hx Hn.
  destruct post as [|[q f] post].
  - rewrite !mrd_insert_ne by lia. done.
  - cbn in Hn. rewrite !not_elem_of_cons in Hn. rewrite !mrd_insert_ne by lia. done.
Qed.
