(* ===== verification/HeapSpec.v ===== *)
(** * The kernel heap: reference allocator, invariant and refinement.

    [bs_alloc] and [bs_free] are the reference first-fit allocator and the
    reference free with merging, on lists of blocks.  [heap_rep] ties a list of
    arenas to memory and to the counters; the lemmas show that the code of
    heap.c computes the reference functions. *)

From S2P Require Import Prelude Machine PageAlloc PageAllocSpec Heap HeapSeg.

Open Scope kernel_scope.

(** ** What the heap relies on

    [ps_ok] is the invariant of the page source and [ps_owned] the pages it has
    handed out.  The client may write the words of owned pages and use the
    machine's locks: neither disturbs the page source. *)
Class PageSourceLaws (P : Type) `{PageSource P} := {
  ps_ok : P → Prop;
  ps_owned : P → Z → Prop;
  ps_ram : ∀ s p, ps_ok s → ps_owned s p → ram_page p;
  ps_alloc_spec : ∀ s n, 0 ≤ n → ps_ok s → can_lock L_page (m_held (sub_get s)) = true →
    wp (ps_alloc n) (λ r s', ps_ok s' ∧
      m_held (sub_get s') = m_held (sub_get s) ∧
      ((r = 0 ∧ s' = s) ∨
       (0 < n ∧ (∀ q, q ∈ run_pages r n → ¬ ps_owned s q) ∧
        (∀ q, ps_owned s' q ↔ q ∈ run_pages r n ∨ ps_owned s q) ∧
        (∀ a, ps_owned s (page_of a) →
           mrd (m_mem (sub_get s')) a = mrd (m_mem (sub_get s)) a)))) s;
  ps_frame : ∀ s m', ps_ok s →
    m_mmu_enabled m' = m_mmu_enabled (sub_get s) →
    (∀ a, ¬ ps_owned s (page_of a) → mrd (m_mem m') a = mrd (m_mem (sub_get s)) a) →
    ps_ok (sub_set m' s) ∧ (∀ q, ps_owned (sub_set m' s) q ↔ ps_owned s q);
}.

(** ** The reference allocator *)

(** First fit: the payload address and the list after the split. *)
Fixpoint bs_alloc (a size : Z) (bs : list block) : option (Z * list block) :=
  match bs with
  | [] => None
  | (sz, fr) :: bs' =>
      if fr && (size <=? sz) then
        Some (a + SIZEOF_BLOCK,
              if size + kernel_heap_min_split_size <=? sz
              then (size, false) :: (sz - size - SIZEOF_BLOCK, true) :: bs'
              else (sz, false) :: bs')
      else
        match bs_alloc (a + SIZEOF_BLOCK + sz) size bs' with
        | Some (p, r) => Some (p, (sz, fr) :: r)
        | None => None
        end
  end.

(** Free the block [sz] between [pre] and [post], merging with free neighbours. *)
Definition merge_next (sz : Z) (post : list block) : Z * list block :=
  match post with
  | (sz2, true) :: post' => (sz + SIZEOF_BLOCK + sz2, post')
  | _ => (sz, post)
  end.
Definition merge_prev (rpre : list block) (sz : Z) (post : list block) : list block :=
  match rpre with
  | (sz0, true) :: rpre' => reverse rpre' ++ (sz0 + SIZEOF_BLOCK + sz, true) :: post
  | _ => reverse rpre ++ (sz, true) :: post
  end.
Definition bs_free (pre : list block) (sz : Z) (post : list block) : list block :=
  let '(sz', post') := merge_next sz post in merge_prev (reverse pre) sz' post'.

(** ** Symbolic execution of heap code *)

Ltac haddr := split; [unfold SIZEOF_BLOCK in *; lia|unfold SIZEOF_BLOCK in *; Z.div_mod_to_equations; lia].
Ltac kvlia := unfold kv, b_size, b_is_free, b_next, b_prev, p_magic, p_page_count, p_next,
  p_usable_bytes, p_first_block, SIZEOF_BLOCK in *; lia.

Section exec.
Context {P : Type} `{PageSource P}.
Implicit Types h : hstate P.

Definition hmachine h : machine := sub_get (h_ps h).
Definition hmem h : gmap Z Z := m_mem (hmachine h).
Definition hset (mem : gmap Z Z) h : hstate P :=
  h <| h_ps := sub_set ((hmachine h) <| m_mem := mem |>) (h_ps h) |>.

Lemma hmem_hset mem h : hmem (hset mem h) = mem.
Proof. unfold hmem, hset, hmachine. cbn. by rewrite sub_get_set. Qed.

Lemma hset_hset m1 m2 h : hset m1 (hset m2 h) = hset m1 h.
Proof. unfold hset, hmachine. cbn. by rewrite !sub_get_set, sub_set_set. Qed.

Lemma hset_id h : hset (hmem h) h = h.
Proof.
  unfold hset, hmem, hmachine. destruct h as [ps]. cbn.
  destruct (sub_get ps) as [mem held mmu tr] eqn:Hg. cbn. by rewrite <- Hg, sub_set_get.
Qed.

Lemma hset_held mem h : m_held (hmachine (hset mem h)) = m_held (hmachine h).
Proof. unfold hset, hmachine. cbn. by rewrite sub_get_set. Qed.

Definition heap_addr (a : Z) : Prop := 0 < a < 2 ^ 47 ∧ a mod 8 = 0.

Lemma kv_ok a : heap_addr a → ptr_ok (kv a) = true ∧ va_to_pa (kv a) = a.
Proof.
  intros [Ha Hm]. unfold kv. split.
  - apply ptr_ok_intro; unfold KERNEL_VA_OFFSET; [lia|]. Z.div_mod_to_equations; lia.
  - unfold va_to_pa, KERNEL_VA_OFFSET. btrue (0xFFFF000000000000 <=? a + 0xFFFF000000000000). lia.
Qed.

Lemma kv_nz a : 0 ≤ a → (kv a =? 0) = false.
Proof. intros. unfold kv, KERNEL_VA_OFFSET. apply Z.eqb_neq. lia. Qed.

Lemma wp_hload a ptr (Q : Z → hstate P → Prop) h :
  ptr = kv a → heap_addr a → Q (mrd (hmem h) a) h → wp (hload ptr) Q h.
Proof.
  intros -> Ha HQ. destruct (kv_ok a Ha) as [Hok Hpa]. unfold hload.
  rewrite !wp_up. apply wp_load64; [done|]. rewrite Hpa, !sub_set_get. done.
Qed.

Lemma wp_hstore a ptr v (Q : unit → hstate P → Prop) h :
  ptr = kv a → heap_addr a → Q () (hset (<[a := v]> (hmem h)) h) → wp (hstore ptr v) Q h.
Proof.
  intros -> Ha HQ. destruct (kv_ok a Ha) as [Hok Hpa]. unfold hstore.
  rewrite !wp_up. apply wp_store64; [done|]. rewrite Hpa. exact HQ.
Qed.

(** A well-formed block list of an arena, its ends null. *)
Record blocks_ok (mem : gmap Z Z) (a : Z) (bs : list block) : Prop := {
  bo_sizes : sizes_ok bs;
  bo_seg : seg mem 0 a bs 0;
  bo_lo : 0 < a;
  bo_al : a mod 16 = 0;
  bo_hi : bend a bs < 2 ^ 46;
}.

(** The focused block of a well-formed list. *)
Lemma blocks_focus mem a pre sz fr post :
  blocks_ok mem a (pre ++ (sz, fr) :: post) →
  let b := bend a pre in
  a ≤ b ∧ b mod 16 = 0 ∧ 16 ≤ sz ∧ sz mod 16 = 0 ∧
  b + 32 + sz + 32 * Z.of_nat (length post) ≤ bend a (pre ++ (sz, fr) :: post).
Proof.
  intros [[Hs1 [Hz Hs2]%sizes_cons]%sizes_app _ Hlo Hal Hhi] b.
  rewrite bend_app in Hhi |- *. cbn [bend] in Hhi |- *. fold b in Hhi |- *.
  pose proof (bend_ge a pre Hs1). pose proof (bend_mod a pre Hs1 Hal).
  pose proof (bend_ge (b + SIZEOF_BLOCK + sz) post Hs2). unfold SIZEOF_BLOCK, b in *. lia.
Qed.

Lemma heap_addr_of a k : 0 < a → a mod 16 = 0 → 0 ≤ k < 512 → a < 2 ^ 46 → heap_addr (a + 8 * k).
Proof. intros. split; [lia|]. Z.div_mod_to_equations; lia. Qed.

Ltac hl a := eapply (wp_hload a); [kvlia|haddr|].
Ltac hs a := eapply (wp_hstore a); [kvlia|haddr|].

Lemma wp_split_block a pre sz fr post size (Q : unit → hstate P → Prop) h :
  let b := bend a pre in
  blocks_ok (hmem h) a (pre ++ (sz, fr) :: post) → 0 ≤ size ≤ sz → size mod 16 = 0 →
  Q () (if size + kernel_heap_min_split_size <=? sz
        then hset (split_mem (hmem h) b sz size post 0) h else h) →
  wp (kernel_heap_split_block (kv b) size) Q h.
Proof.
  intros b Hok Hsz Hal HQ. pose proof (blocks_focus _ _ _ _ _ _ Hok) as (Hb & Hbm & Hz & Hzm & Hend).
  fold b in Hb, Hbm, Hend. destruct Hok as [Hsizes Hseg Hlo Ha Hhi].
  apply seg_focus in Hseg as (_ & [Hh1 _ Hh3 _] & _). fold b in Hh1, Hh3.
  unfold kernel_heap_split_block. wp_step. hl b. rewrite Hh1.
  unfold kernel_heap_min_split_size, SIZEOF_BLOCK, KERNEL_HEAP_ALIGNMENT in *.
  rewrite (u64_small (size + (32 + 16))) by lia.
  destruct (size + (32 + 16) <=? sz) eqn:Hc; bool_to_prop.
  - bfalse (sz <? size + (32 + 16)). cbn zeta.
    rewrite (u64_small (sz - size)), (u64_small (sz - size - 32)) by lia.
    set (c := b + 32 + size).
    replace (u64 (u64 (kv b + 32) + size)) with (kv c).
    2: { unfold kv, KERNEL_VA_OFFSET, c. rewrite (u64_small (_ + 32)), u64_small; lia. }
    assert (heap_addr c ∧ heap_addr (c + 8) ∧ heap_addr (c + 16) ∧ heap_addr (c + 24)) as (?&?&?&?).
    { unfold c. repeat split; try lia; Z.div_mod_to_equations; lia. }
    wp_step. apply (wp_hstore c); [done..|]. wp_step. apply (wp_hstore (c + 8)); [kvlia|done|].
    wp_step. hl (b + 16). rewrite !hmem_hset, !hset_hset. rewrite !mrd_insert_ne by lia. rewrite Hh3.
    wp_step. apply (wp_hstore (c + 16)); [kvlia|done|].
    wp_step. apply (wp_hstore (c + 24)); [kvlia|done|].
    rewrite !hmem_hset, !hset_hset.
    wp_step. apply (wp_hload (c + 16)); [kvlia|done|].
    rewrite !hmem_hset, mrd_insert_ne, mrd_insert_eq by lia.
    wp_step. destruct post as [|[q f] post]; cbn [hd_ptr].
    + apply wp_ret. wp_step. hs b. hs (b + 16). rewrite !hmem_hset, !hset_hset. exact HQ.
    + rewrite kv_nz by lia. cbn [length] in Hend. cbn [negb whenM].
      eapply (wp_hstore (b + 32 + sz + 24)); [kvlia|haddr|].
      wp_step. hs b. hs (b + 16). rewrite !hmem_hset, !hset_hset. exact HQ.
  - btrue (sz <? size + (32 + 16)). apply wp_ret. exact HQ.
Qed.

Lemma wp_coalesce_next a pre sz fr post (Q : unit → hstate P → Prop) h :
  let b := bend a pre in
  blocks_ok (hmem h) a (pre ++ (sz, fr) :: post) →
  Q () (match post with
        | (sz2, true) :: post' => hset (merge_mem (hmem h) b sz sz2 post' 0) h
        | _ => h
        end) →
  wp (coalesce_next (kv b)) Q h.
Proof.
  intros b Hok HQ. pose proof (blocks_focus _ _ _ _ _ _ Hok) as (Hb & Hbm & Hz & Hzm & Hend).
  fold b in Hb, Hbm, Hend. destruct Hok as [Hsizes Hseg Hlo Ha Hhi].
  apply seg_focus in Hseg as (_ & [Hh1 _ Hh3 _] & Hpost). fold b in Hh1, Hh3, Hpost.
  unfold coalesce_next. wp_step. hl (b + 16). rewrite Hh3.
  destruct post as [|[sz2 fr2] post]; cbn [hd_ptr].
  { apply wp_ret. exact HQ. }
  rewrite kv_nz by (unfold SIZEOF_BLOCK; lia).
  apply sizes_app in Hsizes as [_ [_ [Hz2 Hsz]%sizes_cons]%sizes_cons].
  destruct Hpost as [[Hn1 Hn2 Hn3 _] _].
  assert (b + 32 + sz + 32 + sz2 + 32 * Z.of_nat (length post) ≤ bend a (pre ++ (sz, fr) :: (sz2, fr2) :: post)) as Hend2.
  { rewrite bend_app. cbn [bend]. fold b.
    pose proof (bend_ge (b + SIZEOF_BLOCK + sz + SIZEOF_BLOCK + sz2) post Hsz). unfold SIZEOF_BLOCK in *. lia. }
  unfold SIZEOF_BLOCK in Hn1, Hn2, Hn3.
  wp_step. hl (b + 32 + sz + 8). rewrite Hn2. destruct fr2; cbn [Z.b2z Z.eqb].
  2: { apply wp_ret. exact HQ. }
  wp_step. hl b. wp_step. hl (b + 32 + sz). rewrite Hh1, Hn1. unfold SIZEOF_BLOCK.
  rewrite (u64_small (32 + sz2)), (u64_small (sz + _)) by lia.
  wp_step. hs b. wp_step. hl (b + 32 + sz + 16). rewrite hmem_hset, mrd_insert_ne, Hn3 by lia.
  wp_step. hs (b + 16). rewrite !hmem_hset, !hset_hset. unfold merge_mem, SIZEOF_BLOCK in HQ.
  unfold SIZEOF_BLOCK. replace (sz + (32 + sz2)) with (sz + 32 + sz2) by lia.
  destruct post as [|q post]; cbn [hd_ptr] in *.
  - apply wp_ret. exact HQ.
  - rewrite kv_nz by lia. cbn [length] in Hend2. cbn [negb whenM].
    hs (b + 32 + sz + 32 + sz2 + 24). rewrite !hmem_hset, !hset_hset. exact HQ.
Qed.

Lemma wp_coalesce_prev a pre sz fr post (Q : unit → hstate P → Prop) h :
  let b := bend a pre in
  blocks_ok (hmem h) a (pre ++ (sz, fr) :: post) →
  Q () (match reverse pre with
        | (sz0, true) :: rpre =>
            hset (merge_mem (hmem h) (bend a (reverse rpre)) sz0 sz post 0) h
        | _ => h
        end) →
  wp (coalesce_prev (kv b)) Q h.
Proof.
  intros b Hok HQ. pose proof (blocks_focus _ _ _ _ _ _ Hok) as (Hb & Hbm & Hz & Hzm & Hend).
  fold b in Hb, Hbm, Hend. pose proof Hok as [Hsizes Hseg Hlo Ha Hhi].
  apply seg_focus in Hseg as (Hpre & [Hh1 _ Hh3 Hh4] & _). fold b in Hh1, Hh3, Hh4, Hpre.
  unfold coalesce_prev. wp_step. hl (b + 24). rewrite Hh4.
  destruct (reverse pre) as [|[sz0 fr0] rpre] eqn:Hrev.
  { apply (f_equal reverse) in Hrev. rewrite reverse_involutive in Hrev. subst pre.
    apply wp_ret. exact HQ. }
  apply (f_equal reverse) in Hrev. rewrite reverse_involutive, reverse_cons in Hrev.
  set (l := reverse rpre) in *. subst pre. rewrite last_ptr_app. cbn [last_ptr].
  rewrite <- app_assoc in Hok. cbn [app] in Hok.
  pose proof (blocks_focus _ _ _ _ _ _ Hok) as (Hb0 & Hbm0 & Hz0 & Hzm0 & _).
  apply seg_focus in Hpre as (_ & [Hp1 Hp2 _ _] & _).
  assert (b = bend a l + 32 + sz0) as Hbeq by (unfold b; by rewrite bend_app).
  set (b0 := bend a l) in *. rewrite kv_nz by lia.
  wp_step. hl (b0 + 8). rewrite Hp2. destruct fr0; cbn [Z.b2z Z.eqb].
  2: { apply wp_ret. exact HQ. }
  wp_step. hl b0. wp_step. hl b. rewrite Hp1, Hh1. unfold SIZEOF_BLOCK.
  rewrite (u64_small (32 + sz)), (u64_small (sz0 + _)) by lia.
  wp_step. hs b0. wp_step. hl (b + 16). rewrite hmem_hset, mrd_insert_ne, Hh3 by lia.
  wp_step. hs (b0 + 16). rewrite !hmem_hset, !hset_hset. unfold merge_mem, SIZEOF_BLOCK in HQ.
  unfold SIZEOF_BLOCK. replace (sz0 + (32 + sz)) with (sz0 + 32 + sz) by lia.
  rewrite <- Hbeq in HQ. destruct post as [|q post]; cbn [hd_ptr] in *.
  - apply wp_ret. exact HQ.
  - rewrite kv_nz by lia. cbn [length] in Hend. cbn [negb whenM].
    hs (b + 32 + sz + 24). rewrite !hmem_hset, !hset_hset. exact HQ.
Qed.

(** ** Operations on the blocks of one arena *)

(** What an operation on the block at [b], of extent [32 + sz], may write. *)
Definition blocks_frame (mem mem' : gmap Z Z) (a : Z) (bs : list block) (b sz : Z) : Prop :=
  ∀ x, x ∉ hdrs a bs → ¬ (b ≤ x < b + SIZEOF_BLOCK + sz) → mrd mem' x = mrd mem x.

Lemma bs_alloc_some a size bs p bs' :
  bs_alloc a size bs = Some (p, bs') →
  ∃ pre sz post, bs = pre ++ (sz, true) :: post ∧ size ≤ sz ∧
    p = bend a pre + SIZEOF_BLOCK ∧
    bs' = pre ++ (if size + kernel_heap_min_split_size <=? sz
                  then (size, false) :: (sz - size - SIZEOF_BLOCK, true) :: post
                  else (sz, false) :: post) ∧
    Forall (λ b, b.2 = true → b.1 < size) pre.
Proof.
  revert a p bs'. induction bs as [|[sz fr] bs IH]; intros a p bs' Hal; [done|]. cbn in Hal.
  destruct (fr && (size <=? sz)) eqn:Hc; bool_to_prop.
  - injection Hal as <- <-. subst fr. exists [], sz, bs. cbn [app bend].
    split; [done|]. split; [done|]. split; [done|]. split; [by destruct (_ <=? _)|constructor].
  - destruct (bs_alloc _ size bs) as [[p' r]|] eqn:Hr; [|done]. injection Hal as <- <-.
    destruct (IH _ _ _ Hr) as (pre & sz' & post & -> & Hle & -> & -> & Hf).
    exists ((sz, fr) :: pre), sz', post. cbn [app bend]. split; [done|]. split; [done|].
    split; [done|]. split; [done|]. constructor; [|done]. cbn. intros ->.
    destruct Hc as [?|?]; bool_to_prop; [done|lia].
Qed.

Lemma bs_alloc_none a size bs :
  bs_alloc a size bs = None ↔ Forall (λ b, b.2 = true → b.1 < size) bs.
Proof.
  revert a. induction bs as [|[sz fr] bs IH]; intros a; cbn; [done|].
  rewrite Forall_cons. cbn. destruct fr; cbn.
  - destruct (size <=? sz) eqn:Hc; bool_to_prop.
    + split; [done|]. intros [Hx _]. specialize (Hx eq_refl). lia.
    + rewrite <- (IH (a + SIZEOF_BLOCK + sz)). destruct (bs_alloc _ _ bs) as [[]|]; naive_solver.
  - rewrite <- (IH (a + SIZEOF_BLOCK + sz)). destruct (bs_alloc _ _ bs) as [[]|]; naive_solver.
Qed.

Lemma bs_alloc_skip a size pre post :
  Forall (λ b : block, b.2 = true → b.1 < size) pre →
  bs_alloc a size (pre ++ post) =
  (λ '(p, r), (p, pre ++ r)) <$> bs_alloc (bend a pre) size post.
Proof.
  revert a. induction pre as [|[sz fr] pre IH]; intros a Hf; cbn [app bend].
  - by destruct (bs_alloc a size post) as [[]|].
  - apply Forall_cons in Hf as [Hb Hf]. cbn in Hb |- *.
    replace (fr && (size <=? sz)) with false.
    + rewrite IH by done. by destruct (bs_alloc _ size post) as [[]|].
    + destruct fr; [|done]. cbn. specialize (Hb eq_refl). by bfalse (size <=? sz).
Qed.

(** Size of the block that serves a request of [size] bytes from one of [sz]. *)
Definition grant (size sz : Z) : Z :=
  if size + kernel_heap_min_split_size <=? sz then size else sz.

(** The list after serving the request from the block [sz]. *)
Definition take_block (size sz : Z) (post : list block) : list block :=
  if size + kernel_heap_min_split_size <=? sz
  then (size, false) :: (sz - size - SIZEOF_BLOCK, true) :: post
  else (sz, false) :: post.

Definition take_mem (mem : gmap Z Z) (b size sz : Z) (post : list block) : gmap Z Z :=
  <[b + 8 := 0]> (if size + kernel_heap_min_split_size <=? sz
                  then split_mem mem b sz size post 0 else mem).

Lemma bend_take a pre size sz post :
  bend a (pre ++ take_block size sz post) = bend a (pre ++ (sz, true) :: post).
Proof.
  rewrite !bend_app. unfold take_block. destruct (_ <=? sz); cbn [bend]; [|done].
  f_equal. unfold SIZEOF_BLOCK. lia.
Qed.

Lemma take_block_ok mem a pre size sz post :
  blocks_ok mem a (pre ++ (sz, true) :: post) → 0 < size ≤ sz → size mod 16 = 0 →
  blocks_ok (take_mem mem (bend a pre) size sz post) a (pre ++ take_block size sz post).
Proof.
  intros Hok Hs Hm. pose proof (blocks_focus _ _ _ _ _ _ Hok) as (_ & _ & Hz & Hzm & _).
  destruct Hok as [Hsz Hseg ? ? Hhi]. split; [| |done|done|by rewrite bend_take].
  - apply sizes_app in Hsz as [H1 [_ H2]%sizes_cons]. apply sizes_app. split; [done|].
    unfold take_block, kernel_heap_min_split_size, SIZEOF_BLOCK, KERNEL_HEAP_ALIGNMENT.
    destruct (_ <=? sz) eqn:Hc; bool_to_prop; rewrite ?sizes_cons; (split; [Z.div_mod_to_equations; lia|]); [|done].
    split; [|done]. split; [lia|]. Z.div_mod_to_equations; lia.
  - unfold take_mem, take_block, kernel_heap_min_split_size, SIZEOF_BLOCK, KERNEL_HEAP_ALIGNMENT.
    destruct (_ <=? sz) eqn:Hc; bool_to_prop.
    + apply (seg_mark _ _ _ _ _ true false).
      * apply sizes_app in Hsz as [H1 [_ H2]%sizes_cons]. apply sizes_app. split; [done|].
        rewrite !sizes_cons. split; [Z.div_mod_to_equations; lia|]. split; [|done].
        split; [lia|]. Z.div_mod_to_equations; lia.
      * apply seg_split; [done|lia|unfold SIZEOF_BLOCK; lia|done].
    + by apply (seg_mark _ _ _ _ _ true false).
Qed.

Lemma take_mem_frame mem a pre size sz post :
  sizes_ok (pre ++ (sz, true) :: post) → 0 ≤ size ≤ sz →
  blocks_frame mem (take_mem mem (bend a pre) size sz post) a (pre ++ (sz, true) :: post)
    (bend a pre) sz.
Proof.
  intros [_ [Hz _]%sizes_cons]%sizes_app Hs x Hx Hb. unfold take_mem.
  rewrite hdrs_app in Hx. cbn in Hx. apply not_elem_of_app in Hx as [_ Hx].
  rewrite !not_elem_of_cons in Hx. rewrite mrd_insert_ne by lia.
  unfold kernel_heap_min_split_size, KERNEL_HEAP_ALIGNMENT, SIZEOF_BLOCK in *.
  destruct (_ <=? sz) eqn:Hc; bool_to_prop; [|done].
  apply split_mem_out; unfold SIZEOF_BLOCK; tauto || lia.
Qed.

(** The counters after an allocation of [n] bytes. *)
Definition count_alloc (n : Z) h : hstate P :=
  h <| kernel_heap_free_space := u64 (kernel_heap_free_space h - n) |>
    <| kernel_heap_used_space := u64 (kernel_heap_used_space h + n) |>
    <| kernel_heap_allocations := u64 (kernel_heap_allocations h + 1) |>.

Lemma wp_allocate_from_arena base bs size (Q : Z → hstate P → Prop) h :
  let a := base + 48 in
  0 < base → base mod 16 = 0 → mrd (hmem h) (base + 32) = kv a →
  blocks_ok (hmem h) a bs → bs ≠ [] → (length bs < heap_fuel h)%nat →
  0 < size → size mod 16 = 0 →
  (bs_alloc a size bs = None → Q 0 h) →
  (∀ pre sz post, bs = pre ++ (sz, true) :: post → size ≤ sz →
     bs_alloc a size bs = Some (bend a pre + SIZEOF_BLOCK, pre ++ take_block size sz post) →
     Q (kv (bend a pre + SIZEOF_BLOCK))
       (count_alloc (grant size sz) (hset (take_mem (hmem h) (bend a pre) size sz post) h))) →
  wp (kernel_heap_allocate_from_arena (kv base) size) Q h.
Proof.
  intros a Hb Hbm Hfirst Hok Hne Hfuel Hsz Hsm HN HS.
  assert (base < 2 ^ 46).
  { pose proof (bend_ge a bs (bo_sizes _ _ _ Hok)). pose proof (bo_hi _ _ _ Hok). lia. }
  unfold kernel_heap_allocate_from_arena. wp_steps. hl (base + 32). rewrite Hfirst.
  set (I := λ (n : nat) (blk : Z) (s' : hstate P), s' = h ∧ ∃ pre post, bs = pre ++ post ∧
    blk = hd_ptr (bend a pre) post 0 ∧ n = length post ∧
    Forall (λ b : block, b.2 = true → b.1 < size) pre).
  apply (wp_whileM _ _ _ I Q (length bs)); [done| |].
  { split; [done|]. exists [], bs. destruct bs; [done|]. by repeat split. }
  intros n blk s' (-> & pre & post & -> & -> & -> & Hpre).
  destruct post as [|[sz fr] post]; cbn [hd_ptr].
  { apply wp_ret, HN. rewrite app_nil_r. by apply bs_alloc_none. }
  pose proof (blocks_focus _ _ _ _ _ _ Hok) as (Hb1 & Hbm1 & Hz & Hzm & Hend).
  pose proof (bo_hi _ _ _ Hok) as Hhi. pose proof (bo_seg _ _ _ Hok) as Hseg.
  apply seg_focus in Hseg as (_ & [Hh1 Hh2 Hh3 _] & _).
  pose proof (bs_alloc_skip a size pre ((sz, fr) :: post) Hpre) as Hskip. cbn [bs_alloc] in Hskip.
  set (b := bend a pre) in *. pose proof (bo_lo _ _ _ Hok). rewrite kv_nz by lia.
  wp_step. hl (b + 8). wp_step. hl b. rewrite Hh1, Hh2.
  destruct fr; cbn [Z.b2z Z.eqb negb andb]; [destruct (size <=? sz) eqn:Hfit|]; bool_to_prop.
  - wp_step. eapply (wp_split_block a pre); [done|lia|done|]. fold b.
    match goal with |- wp _ _ ?x => set (h1 := x) end.
    assert (hset (<[b + 8 := 0]> (hmem h1)) h1 = hset (take_mem (hmem h) b size sz post) h) as Hh1'.
    { subst h1. unfold take_mem. destruct (_ <=? sz); by rewrite ?hmem_hset, ?hset_hset. }
    wp_step. hs (b + 8). rewrite Hh1'. wp_step. hl b. rewrite hmem_hset.
    replace (mrd _ b) with (grant size sz).
    2: { unfold take_mem, grant. rewrite mrd_insert_ne by lia. destruct (_ <=? sz); [|done].
         unfold split_mem. by rewrite mrd_insert_ne, mrd_insert_eq by lia. }
    wp_steps. rewrite u64_small.
    2: { unfold kv, KERNEL_VA_OFFSET, SIZEOF_BLOCK in *. lia. }
    replace (kv b + SIZEOF_BLOCK) with (kv (b + SIZEOF_BLOCK)) by (unfold kv; lia).
    by apply HS.
  - wp_step. hl (b + 16). rewrite Hh3. wp_steps. exists (length post). split; [cbn; lia|].
    split; [done|]. exists (pre ++ [(sz, true)]), post. rewrite bend_app, <- app_assoc.
    split; [done|]. split; [done|]. split; [done|]. apply Forall_app. split; [done|].
    constructor; [|done]. by intros _.
  - wp_step. hl (b + 16). rewrite Hh3. wp_steps. exists (length post). split; [cbn; lia|].
    split; [done|]. exists (pre ++ [(sz, false)]), post. rewrite bend_app, <- app_assoc.
    split; [done|]. split; [done|]. split; [done|]. apply Forall_app. split; [done|].
    by constructor.
Qed.

Lemma merge_ok mem a pre sz fr sz2 fr2 post :
  blocks_ok mem a (pre ++ (sz, fr) :: (sz2, fr2) :: post) →
  let mem' := merge_mem mem (bend a pre) sz sz2 post 0 in
  blocks_ok mem' a (pre ++ (sz + SIZEOF_BLOCK + sz2, fr) :: post) ∧
  (∀ x, x ∉ hdrs a (pre ++ (sz, fr) :: (sz2, fr2) :: post) → mrd mem' x = mrd mem x).
Proof.
  intros [Hs Hseg ? ? Hhi] mem'. split.
  - split; [| |done|done|].
    + apply sizes_app in Hs as [? [? [? ?]%sizes_cons]%sizes_cons]. apply sizes_app. split; [done|].
      rewrite sizes_cons. split; [|done]. unfold SIZEOF_BLOCK. split; [lia|].
      Z.div_mod_to_equations; lia.
    + by eapply seg_merge.
    + rewrite bend_app in Hhi |- *. cbn [bend] in *. revert Hhi. unfold SIZEOF_BLOCK.
      by replace (bend a pre + 32 + (sz + 32 + sz2)) with (bend a pre + 32 + sz + 32 + sz2) by lia.
  - intros x Hx. rewrite hdrs_app in Hx. cbn [hdrs] in Hx.
    rewrite !not_elem_of_app in Hx. apply merge_mem_out; tauto.
Qed.

Lemma hdrs_merge a pre sz fr sz2 fr2 post x :
  x ∉ hdrs a (pre ++ (sz, fr) :: (sz2, fr2) :: post) →
  x ∉ hdrs a (pre ++ (sz + SIZEOF_BLOCK + sz2, fr) :: post).
Proof.
  rewrite !hdrs_app. cbn [hdrs]. rewrite !not_elem_of_app. unfold SIZEOF_BLOCK.
  replace (bend a pre + 32 + (sz + 32 + sz2)) with (bend a pre + 32 + sz + 32 + sz2) by lia. tauto.
Qed.

Lemma wp_coalesce a pre sz post (Q : unit → hstate P → Prop) h :
  let bs := pre ++ (sz, true) :: post in
  blocks_ok (hmem h) a bs →
  (∀ mem', blocks_ok mem' a (bs_free pre sz post) →
     (∀ x, x ∉ hdrs a bs → mrd mem' x = mrd (hmem h) x) → Q () (hset mem' h)) →
  wp (kernel_heap_coalesce (kv (bend a pre))) Q h.
Proof.
  intros bs Hok HQ. unfold kernel_heap_coalesce. wp_step.
  apply (wp_coalesce_next a pre sz true post); [done|].
  assert (∃ mem1 sz1 post1, merge_next sz post = (sz1, post1) ∧
            match post with
            | (sz2, true) :: post' => hset (merge_mem (hmem h) (bend a pre) sz sz2 post' 0) h
            | _ => h
            end = hset mem1 h ∧ blocks_ok mem1 a (pre ++ (sz1, true) :: post1) ∧
            (∀ x, x ∉ hdrs a bs → mrd mem1 x = mrd (hmem h) x) ∧
            (∀ x, x ∉ hdrs a bs → x ∉ hdrs a (pre ++ (sz1, true) :: post1)))
    as (mem1 & sz1 & post1 & Hmn & -> & Hok1 & Hf1 & Hh1).
  { destruct post as [|[sz2 []] post'];
      [exists (hmem h), sz, []|..|exists (hmem h), sz, ((sz2, false) :: post')];
      [by rewrite hset_id|..|by rewrite hset_id].
    destruct (merge_ok _ _ _ _ _ _ _ _ Hok) as [Hok1 Hf1].
    do 3 eexists. split; [done|]. split; [done|]. split; [done|]. split; [done|].
    intros x. apply hdrs_merge. }
  apply (wp_coalesce_prev a pre sz1 true post1); [by rewrite hmem_hset|].
  unfold bs_free in HQ. rewrite Hmn in HQ. rewrite hmem_hset.
  destruct (reverse pre) as [|[sz0 fr0] rpre] eqn:Hrev.
  - apply HQ; [|done]. cbn. apply (f_equal reverse) in Hrev. rewrite reverse_involutive in Hrev.
    by subst pre.
  - apply (f_equal reverse) in Hrev. rewrite reverse_involutive in Hrev. subst pre.
    destruct fr0.
    + rewrite hset_hset. rewrite reverse_cons, <- app_assoc in Hok1, Hh1. cbn [app] in Hok1, Hh1.
      destruct (merge_ok _ _ _ _ _ _ _ _ Hok1) as [Hok2 Hf2]. apply HQ; [done|].
      intros x Hx. rewrite Hf2 by (by apply Hh1). by apply Hf1.
    + apply HQ; [done|done].
Qed.

End exec.

Ltac hl a := eapply (wp_hload a); [kvlia|haddr|].
Ltac hs a := eapply (wp_hstore a); [kvlia|haddr|].
