(* ===== verification/HeapInv.v ===== *)
(** * The kernel heap as a whole: arenas, counters and live allocations.

    [heap_rep A h] is the representation invariant; [live A] is the abstract
    state, the payloads that [kmalloc] has handed out and [kfree] has not taken
    back.  The claims at the end give the contract of [kernel_heap_init],
    [kmalloc] and [kfree] over it. *)

From S2P Require Import Prelude Machine PageAlloc PageAllocSpec PageAllocRefine.
From S2P Require Import Heap HeapSeg HeapSpec.

Open Scope kernel_scope.

Record arena : Type := Arena { ar_base : Z; ar_pages : Z; ar_blocks : list block }.

Definition ar_run (ar : arena) : list Z := run_pages (ar_base ar) (ar_pages ar).

(** Offset of the first block: the arena header rounded up to 16 bytes. *)
Definition ar_first (ar : arena) : Z := ar_base ar + 48.

Record arena_ok (mem : gmap Z Z) (next : Z) (ar : arena) : Prop := {
  ao_base : ram_page (ar_base ar);
  ao_pages : 1 ≤ ar_pages ar ≤ 32768;
  ao_magic : mrd mem (ar_base ar) = KERNEL_HEAP_PAGE_MAGIC;
  ao_count : mrd mem (ar_base ar + 8) = ar_pages ar;
  ao_next : mrd mem (ar_base ar + 16) = next;
  ao_usable : mrd mem (ar_base ar + 24) = ar_pages ar * PAGE_SIZE - 80;
  ao_first : mrd mem (ar_base ar + 32) = kv (ar_first ar);
  ao_blocks : blocks_ok mem (ar_first ar) (ar_blocks ar);
  ao_end : bend (ar_first ar) (ar_blocks ar) = ar_base ar + ar_pages ar * PAGE_SIZE;
  ao_coalesced : no_adjacent_free (ar_blocks ar);
}.

Definition arena_head (A : list arena) : Z :=
  match A with [] => 0 | ar :: _ => kv (ar_base ar) end.

Fixpoint arenas (mem : gmap Z Z) (A : list arena) : Prop :=
  match A with
  | [] => True
  | ar :: A' => arena_ok mem (arena_head A') ar ∧ arenas mem A'
  end.

Definition zsum {T} (f : T → Z) (l : list T) : Z := foldr (λ x acc, f x + acc) 0 l.

Definition blk_used (b : block) : Z := if b.2 then 0 else b.1.
Definition blk_free (b : block) : Z := if b.2 then b.1 else 0.

Definition ar_used (ar : arena) : Z := zsum blk_used (ar_blocks ar).
Definition ar_free (ar : arena) : Z := zsum blk_free (ar_blocks ar).
Definition ar_extra (ar : arena) : Z := SIZEOF_BLOCK * (Z.of_nat (length (ar_blocks ar)) - 1).

(** The payloads in use: address and size. *)
Fixpoint live_blocks (a : Z) (bs : list block) : list (Z * Z) :=
  match bs with
  | [] => []
  | (sz, fr) :: bs' =>
      (if fr then [] else [(a + SIZEOF_BLOCK, sz)]) ++ live_blocks (a + SIZEOF_BLOCK + sz) bs'
  end.

Definition live (A : list arena) : list (Z * Z) :=
  A ≫= λ ar, live_blocks (ar_first ar) (ar_blocks ar).

Definition all_pages (A : list arena) : list Z := A ≫= ar_run.

(** ** Sums *)

Lemma zsum_app {T} (f : T → Z) l1 l2 : zsum f (l1 ++ l2) = zsum f l1 + zsum f l2.
Proof. unfold zsum. induction l1 as [|x l1 IH]; cbn in *; lia. Qed.

Lemma zsum_cons {T} (f : T → Z) x l : zsum f (x :: l) = f x + zsum f l.
Proof. done. Qed.

Lemma bend_sums a bs :
  bend a bs = a + SIZEOF_BLOCK * Z.of_nat (length bs)
            + zsum blk_used bs + zsum blk_free bs.
Proof.
  revert a. induction bs as [|[sz fr] bs IH]; intros a; cbn [bend]; [cbn; lia|].
  rewrite IH, !zsum_cons. cbn [length fst snd]. unfold SIZEOF_BLOCK, blk_used, blk_free. destruct fr; cbn; lia.
Qed.

Lemma zsum_nonneg {T} (f : T → Z) l : Forall (λ x, 0 ≤ f x) l → 0 ≤ zsum f l.
Proof. induction 1; [done|]. rewrite zsum_cons. lia. Qed.

Lemma all_pages_app A1 A2 : all_pages (A1 ++ A2) = all_pages A1 ++ all_pages A2.
Proof. apply bind_app. Qed.

Lemma all_pages_length A : Forall (λ ar, 1 ≤ ar_pages ar) A →
  Z.of_nat (length (all_pages A)) = zsum ar_pages A.
Proof.
  induction 1 as [|ar A Hp HA IH]; [done|]. rewrite zsum_cons, <- IH.
  change (all_pages (ar :: A)) with (ar_run ar ++ all_pages A).
  rewrite length_app, Nat2Z.inj_add. unfold ar_run. rewrite run_length; lia.
Qed.

#[global] Arguments zsum : simpl never.

(** ** Live payloads *)

Lemma live_blocks_app a l1 l2 :
  live_blocks a (l1 ++ l2) = live_blocks a l1 ++ live_blocks (bend a l1) l2.
Proof.
  revert a. induction l1 as [|[sz fr] l1 IH]; intros a; [done|]. cbn. by rewrite IH, app_assoc.
Qed.

Lemma live_blocks_bounds a bs p sz : sizes_ok bs → (p, sz) ∈ live_blocks a bs →
  a + 32 ≤ p ∧ 16 ≤ sz ∧ p + sz ≤ bend a bs ∧ (a mod 16 = 0 → p mod 16 = 0).
Proof.
  revert a. induction bs as [|[s fr] bs IH]; intros a Hs; cbn; [by intros ?%not_elem_of_nil|].
  apply sizes_cons in Hs as [[Hz Hzm] Hs]. pose proof (bend_ge (a + SIZEOF_BLOCK + s) bs Hs).
  unfold SIZEOF_BLOCK in *. rewrite elem_of_app. intros [Hin|Hin].
  - destruct fr; [by apply not_elem_of_nil in Hin|]. apply list_elem_of_singleton in Hin.
    injection Hin as -> ->. repeat split; try lia. intros. Z.div_mod_to_equations; lia.
  - destruct (IH _ Hs Hin) as (? & ? & ? & Hm). repeat split; try lia. intros Ha. apply Hm.
    Z.div_mod_to_equations; lia.
Qed.

(** A live payload contains no header. *)
Lemma live_not_hdr a bs p sz x : sizes_ok bs → (p, sz) ∈ live_blocks a bs →
  p ≤ x < p + sz → x ∉ hdrs a bs.
Proof.
  revert a. induction bs as [|[s fr] bs IH]; intros a Hs; cbn; [by intros ?%not_elem_of_nil|].
  apply sizes_cons in Hs as [[Hz Hzm] Hs]. unfold SIZEOF_BLOCK in *. rewrite elem_of_app.
  intros Hin Hx. rewrite !not_elem_of_cons. destruct Hin as [Hin|Hin].
  - destruct fr; [by apply not_elem_of_nil in Hin|]. apply list_elem_of_singleton in Hin.
    injection Hin as -> ->. repeat split; try lia.
    intros Hh%hdrs_bounds; [|done]. lia.
  - destruct (live_blocks_bounds _ _ _ _ Hs Hin) as (? & ? & _). repeat split; try lia.
    by apply IH.
Qed.

(** A focused block that is free has no live payload inside. *)
Lemma live_focus a pre sz fr post p s : sizes_ok (pre ++ (sz, fr) :: post) →
  let b := bend a pre in
  (p, s) ∈ live_blocks a (pre ++ (sz, fr) :: post) →
  (fr = false ∧ p = b + 32 ∧ s = sz) ∨
  ((p, s) ∈ live_blocks a pre ++ live_blocks (b + 32 + sz) post ∧
   ∀ x, p ≤ x < p + s → ¬ (b ≤ x < b + 32 + sz)).
Proof.
  intros [H1 [Hz H2]%sizes_cons]%sizes_app b. rewrite live_blocks_app. cbn. fold b.
  unfold SIZEOF_BLOCK. rewrite !elem_of_app. intros [Hin|[Hin|Hin]].
  - right. split; [by left|]. destruct (live_blocks_bounds _ _ _ _ H1 Hin) as (? & ? & ? & _).
    fold b in H3. intros x Hx. lia.
  - destruct fr; [by apply not_elem_of_nil in Hin|]. apply list_elem_of_singleton in Hin.
    injection Hin as -> ->. by left.
  - right. split; [by right|]. destruct (live_blocks_bounds _ _ _ _ H2 Hin) as (? & ? & ? & _).
    intros x Hx. lia.
Qed.

Lemma live_take a pre size sz post :
  live_blocks a (pre ++ take_block size sz post) ≡ₚ
  (bend a pre + SIZEOF_BLOCK, grant size sz) :: live_blocks a (pre ++ (sz, true) :: post).
Proof.
  rewrite !live_blocks_app. unfold take_block, grant. destruct (_ <=? sz); cbn.
  - replace (bend a pre + SIZEOF_BLOCK + size + SIZEOF_BLOCK + (sz - size - SIZEOF_BLOCK))
      with (bend a pre + SIZEOF_BLOCK + sz) by lia. by rewrite Permutation_middle.
  - by rewrite Permutation_middle.
Qed.

Lemma live_merge_next a pre sz post sz1 post1 :
  merge_next sz post = (sz1, post1) →
  live_blocks a (pre ++ (sz1, true) :: post1) = live_blocks a (pre ++ (sz, true) :: post).
Proof.
  rewrite !live_blocks_app. destruct post as [|[sz2 []] post']; cbn; intros [= <- <-]; try done.
  by replace (bend a pre + SIZEOF_BLOCK + (sz + SIZEOF_BLOCK + sz2))
    with (bend a pre + SIZEOF_BLOCK + sz + SIZEOF_BLOCK + sz2) by lia.
Qed.

Lemma live_merge_prev a rpre sz post :
  live_blocks a (merge_prev rpre sz post) = live_blocks a (reverse rpre ++ (sz, true) :: post).
Proof.
  destruct rpre as [|[sz0 []] rpre]; cbn [merge_prev]; try done.
  rewrite reverse_cons, <- app_assoc. rewrite !live_blocks_app. cbn.
  by replace (bend a (reverse rpre) + SIZEOF_BLOCK + (sz0 + SIZEOF_BLOCK + sz))
    with (bend a (reverse rpre) + SIZEOF_BLOCK + sz0 + SIZEOF_BLOCK + sz) by lia.
Qed.

Lemma live_free a pre sz post :
  live_blocks a (pre ++ (sz, false) :: post) ≡ₚ
  (bend a pre + SIZEOF_BLOCK, sz) :: live_blocks a (bs_free pre sz post).
Proof.
  unfold bs_free. destruct (merge_next sz post) as [sz1 post1] eqn:Hm.
  rewrite live_merge_prev, reverse_involutive, (live_merge_next _ _ _ _ _ _ Hm).
  rewrite !live_blocks_app. cbn. by rewrite Permutation_middle.
Qed.

(** ** Coalescing leaves no two adjacent free blocks *)

Definition adj_ok (x y : block) : Prop := ¬ (x.2 = true ∧ y.2 = true).

Fixpoint coalesced (bs : list block) : Prop :=
  match bs with
  | x :: ((y :: _) as bs') => adj_ok x y ∧ coalesced bs'
  | _ => True
  end.

Lemma coalesced_app l x y l' :
  coalesced (l ++ x :: y :: l') ↔ coalesced (l ++ [x]) ∧ adj_ok x y ∧ coalesced (y :: l').
Proof.
  induction l as [|z l IH]; [cbn; tauto|]. destruct l as [|w l]; cbn in *; tauto.
Qed.

Lemma coalesced_app_l l1 l2 : coalesced (l1 ++ l2) → coalesced l1.
Proof.
  induction l1 as [|x l1 IH]; [done|]. destruct l1 as [|y l1]; [done|]. cbn in *. tauto.
Qed.

Lemma coalesced_app_r l1 l2 : coalesced (l1 ++ l2) → coalesced l2.
Proof.
  induction l1 as [|x l1 IH]; [done|]. intros Hc. apply IH. destruct l1 as [|y l1]; cbn in *.
  - destruct l2; [done|tauto].
  - tauto.
Qed.

Lemma coalesced_spec bs : no_adjacent_free bs ↔ coalesced bs.
Proof.
  split.
  - intros Hn. induction bs as [|[s f] bs IH]; [done|]. destruct bs as [|[s' f'] bs]; [done|].
    cbn. split.
    + intros [Hf Hf']. cbn in *. subst. by apply (Hn [] bs s s').
    + apply IH. intros l1 l2 s1 s2 Heq. apply (Hn ((s, f) :: l1) l2 s1 s2). by rewrite Heq.
  - intros Hc l1 l2 s1 s2 ->. apply coalesced_app in Hc as (_ & Ha & _). by apply Ha.
Qed.

(** Changing one block: what its neighbours require. *)
Lemma coalesced_focus pre x post :
  coalesced (pre ++ x :: post) ↔
  coalesced pre ∧ (∀ y, last pre = Some y → adj_ok y x) ∧
  (∀ y, head post = Some y → adj_ok x y) ∧ coalesced post.
Proof.
  destruct pre as [|z pre' _] using rev_ind.
  - cbn. destruct post as [|y post]; [naive_solver|]. cbn. naive_solver.
  - rewrite <- app_assoc, last_snoc. cbn [app]. rewrite coalesced_app.
    destruct post as [|y post]; cbn; naive_solver.
Qed.

Lemma coalesced_take pre size sz post :
  coalesced (pre ++ (sz, true) :: post) → coalesced (pre ++ take_block size sz post).
Proof.
  rewrite coalesced_focus. intros (H1 & H2 & H3 & H4). unfold take_block.
  destruct (_ <=? sz).
  - apply coalesced_app. split; [|split; [by intros [? _]|]].
    + rewrite coalesced_focus. repeat split; try done. by intros y _ [_ ?].
    + destruct post as [|y post]; [done|]. split; [by apply H3|done].
  - rewrite coalesced_focus. repeat split; try done.
    + by intros y _ [_ ?].
    + by intros y _ [? _].
Qed.

Lemma merge_next_shape sz post sz1 post1 :
  merge_next sz post = (sz1, post1) → coalesced post →
  coalesced post1 ∧ (∀ y, head post1 = Some y → y.2 = false).
Proof.
  destruct post as [|[sz2 []] post']; cbn [merge_next]; intros [= <- <-] Hc.
  - done.
  - destruct post' as [|[sz3 []] post']; [done|..]; cbn in Hc; destruct Hc as [Ha Hc].
    + exfalso. by apply Ha.
    + split; [done|]. by intros y [= <-].
  - split; [done|]. by intros y [= <-].
Qed.

Lemma coalesced_free pre sz post :
  coalesced (pre ++ (sz, false) :: post) → coalesced (bs_free pre sz post).
Proof.
  rewrite coalesced_focus. intros (H1 & _ & _ & H4). unfold bs_free.
  destruct (merge_next sz post) as [sz1 post1] eqn:Hm.
  destruct (merge_next_shape _ _ _ _ Hm H4) as [Hp1 Hh1].
  assert (∀ (s : Z) y, head post1 = Some y → adj_ok (s, true) y) as Hadj.
  { intros s y Hy [_ Hf]. by rewrite (Hh1 y Hy) in Hf. }
  destruct pre as [|[sz0 f0] pre' _] using rev_ind.
  - cbn. apply (coalesced_focus [] (sz1, true) post1). repeat split; try done. apply Hadj.
  - rewrite reverse_snoc. cbn [merge_prev]. destruct f0.
    + rewrite reverse_involutive. apply (coalesced_focus pre' _ post1).
      apply (coalesced_focus pre' (sz0, true) []) in H1 as (Ha & Hb & _ & _).
      repeat split; try done. apply Hadj.
    + rewrite reverse_cons, reverse_involutive. apply coalesced_focus.
      repeat split; try done; [|apply Hadj]. rewrite last_snoc. by intros y [= <-] [? _].
Qed.
