(* ===== verification/HeapOps.v ===== *)
(** * The kernel heap's operations over the representation invariant, and the
    heap's claims. *)

From S2P Require Import Prelude Machine PageAlloc PageAllocSpec PageAllocRefine.
From S2P Require Import Heap HeapSeg HeapSpec HeapInv.

Open Scope kernel_scope.

Section ops.
Context {P : Type} `{PageSourceLaws P}.
Implicit Types (h : hstate P) (A : list arena).

Record heap_rep A h : Prop := {
  hr_ps : ps_ok (h_ps h);
  hr_head : kernel_heap_pages h = arena_head A;
  hr_arenas : arenas (hmem h) A;
  hr_nodup : NoDup (all_pages A);
  hr_owned : ∀ q, q ∈ all_pages A → ps_owned (h_ps h) q;
  hr_pages : kernel_heap_pages_used h = zsum ar_pages A;
  hr_used : kernel_heap_used_space h = zsum ar_used A;
  hr_free : kernel_heap_free_space h = zsum ar_free A + zsum ar_extra A;
}.

(** ** Frames *)

Lemma page_of_run base n x : base mod PAGE_SIZE = 0 →
  base ≤ x < base + n * PAGE_SIZE → page_of x ∈ run_pages base n.
Proof.
  intros Hb Hx. apply elem_of_run. exists ((x - base) / PAGE_SIZE). unfold page_of, PAGE_SIZE in *.
  Z.div_mod_to_equations; lia.
Qed.

Lemma arena_frame mem mem' next ar :
  arena_ok mem next ar → (∀ x, page_of x ∈ ar_run ar → mrd mem' x = mrd mem x) →
  arena_ok mem' next ar.
Proof.
  intros [Hb Hp ? ? ? ? ? Hbl He ?] Hf.
  assert (∀ k, 0 ≤ k < 48 → mrd mem' (ar_base ar + k) = mrd mem (ar_base ar + k)) as Hh.
  { intros k Hk. apply Hf, page_of_run; [apply Hb|unfold PAGE_SIZE; lia]. }
  split; try done; rewrite ?Hh by lia; try done.
  - rewrite <- (Z.add_0_r (ar_base ar)), Hh by lia. by rewrite Z.add_0_r.
  - destruct Hbl as [Hs Hseg ? ? ?]. split; try done.
    eapply seg_frame_range; [done|done|]. intros x Hx. apply Hf, page_of_run; [apply Hb|].
    rewrite He in Hx. unfold ar_first in Hx. lia.
Qed.

Lemma arenas_frame mem mem' A :
  arenas mem A → (∀ x, page_of x ∈ all_pages A → mrd mem' x = mrd mem x) → arenas mem' A.
Proof.
  induction A as [|ar A IH]; [done|]. intros [Ha HA] Hf.
  change (all_pages (ar :: A)) with (ar_run ar ++ all_pages A) in Hf. split.
  - eapply arena_frame; [done|]. intros x Hx. apply Hf, elem_of_app. by left.
  - apply IH; [done|]. intros x Hx. apply Hf, elem_of_app. by right.
Qed.

Lemma arenas_mid mem A1 ar A2 :
  arenas mem (A1 ++ ar :: A2) → arena_ok mem (arena_head A2) ar ∧ arenas mem A2.
Proof. induction A1 as [|a A1 IH]; cbn; tauto. Qed.

(** Replacing one arena by another at the same place. *)
Lemma arenas_update mem mem' A1 ar ar' A2 :
  arenas mem (A1 ++ ar :: A2) → NoDup (all_pages (A1 ++ ar :: A2)) →
  ar_base ar' = ar_base ar → arena_ok mem' (arena_head A2) ar' →
  (∀ x, page_of x ∉ ar_run ar → mrd mem' x = mrd mem x) →
  arenas mem' (A1 ++ ar' :: A2).
Proof.
  intros HA Hnd Hbase Har Hf. induction A1 as [|a A1 IH]; cbn [app] in *.
  - destruct HA as [_ HA]. split; [done|]. eapply arenas_frame; [done|].
    intros x Hx. apply Hf. change (all_pages (ar :: A2)) with (ar_run ar ++ all_pages A2) in Hnd.
    apply NoDup_app in Hnd as (_ & Hd & _). intros Hin. by apply (Hd _ Hin).
  - destruct HA as [Ha HA].
    change (all_pages (a :: _)) with (ar_run a ++ all_pages (A1 ++ ar :: A2)) in Hnd.
    apply NoDup_app in Hnd as (_ & Hd & Hnd). split; [|by apply IH].
    replace (arena_head (A1 ++ ar' :: A2)) with (arena_head (A1 ++ ar :: A2)).
    + eapply arena_frame; [done|]. intros x Hx. apply Hf. intros Hin. apply (Hd _ Hx).
      rewrite all_pages_app. apply elem_of_app. right. apply elem_of_app. by left.
    + destruct A1; [|done]. cbn. by rewrite Hbase.
Qed.

Lemma all_pages_same A1 ar ar' A2 :
  ar_base ar' = ar_base ar → ar_pages ar' = ar_pages ar →
  all_pages (A1 ++ ar' :: A2) = all_pages (A1 ++ ar :: A2).
Proof.
  intros Hb Hp. rewrite !all_pages_app. f_equal. unfold all_pages. cbn.
  f_equal. unfold ar_run. by rewrite Hb, Hp.
Qed.

(** Memory changes inside the heap's pages leave the page source alone. *)
Lemma ps_hset A h mem' :
  ps_ok (h_ps h) → (∀ q, q ∈ all_pages A → ps_owned (h_ps h) q) →
  (∀ x, page_of x ∉ all_pages A → mrd mem' x = mrd (hmem h) x) →
  ps_ok (h_ps (hset mem' h)) ∧ (∀ q, ps_owned (h_ps (hset mem' h)) q ↔ ps_owned (h_ps h) q).
Proof.
  intros Hok Ho Hf. apply ps_frame; [done|done|]. intros a Ha. apply Hf. intros Hin. by apply Ha, Ho.
Qed.

(** ** Bounds *)

Lemma arenas_in mem A ar : arenas mem A → ar ∈ A → ∃ next, arena_ok mem next ar.
Proof.
  induction A as [|a A IH]; [by intros _ ?%not_elem_of_nil|].
  intros [Ha HA] [->|Hin]%elem_of_cons; eauto.
Qed.

Lemma ram_pages_bound (l : list Z) start stop :
  NoDup l → start mod PAGE_SIZE = 0 → stop mod PAGE_SIZE = 0 → start ≤ stop →
  (∀ q, q ∈ l → start ≤ q < stop ∧ q mod PAGE_SIZE = 0) →
  Z.of_nat (length l) * PAGE_SIZE ≤ stop - start.
Proof.
  intros Hnd Ha Hb Hle Hin.
  assert (length l ≤ length (page_range start stop))%nat as Hlen.
  { apply submseteq_length, NoDup_submseteq; [done|]. intros q Hq. apply elem_of_page_range; auto. }
  revert Hlen. unfold page_range. rewrite upto_seqZ, length_fmap, length_seqZ.
  unfold PAGE_SIZE in *. intros. Z.div_mod_to_equations; lia.
Qed.

Lemma owned_pages_bound A (s : P) :
  ps_ok s → NoDup (all_pages A) → (∀ q, q ∈ all_pages A → ps_owned s q) →
  Forall (λ ar, 1 ≤ ar_pages ar) A → zsum ar_pages A ≤ 32768.
Proof.
  intros Hok Hnd Ho Hp. rewrite <- all_pages_length by done.
  pose proof (ram_pages_bound (all_pages A) QEMU_VIRT_RAM_BASE RAM_END Hnd
    eq_refl eq_refl ltac:(done)) as Hb.
  unfold RAM_END, QEMU_VIRT_RAM_BASE, QEMU_VIRT_RAM_SIZE, PAGE_SIZE in Hb.
  enough (Z.of_nat (length (all_pages A)) * 4096 ≤ 134217728) by lia. apply Hb.
  intros q Hq%Ho%ps_ram; [|done]. exact Hq.
Qed.

Lemma arenas_pages_pos mem A : arenas mem A → Forall (λ ar, 1 ≤ ar_pages ar) A.
Proof.
  intros HA. apply Forall_forall. intros ar Hin.
  destruct (arenas_in _ _ _ HA Hin) as [next Ha]. apply Ha.
Qed.

Lemma heap_pages_bound A h : heap_rep A h → zsum ar_pages A ≤ 32768.
Proof.
  intros Hr. eapply owned_pages_bound; [apply Hr..|]. eapply arenas_pages_pos, Hr.
Qed.

(** Used, free and header bytes of an arena add up to its extent. *)
Lemma arena_sums mem next ar : arena_ok mem next ar →
  ar_used ar + ar_free ar + ar_extra ar = ar_pages ar * PAGE_SIZE - 80 ∧
  0 ≤ ar_used ar ∧ 0 ≤ ar_free ar ∧ 0 ≤ ar_extra ar ∧ ar_blocks ar ≠ [].
Proof.
  intros [_ Hp _ _ _ _ _ Hbl He _]. rewrite bend_sums in He. unfold ar_used, ar_free, ar_extra.
  pose proof (bo_sizes _ _ _ Hbl) as Hs.
  assert (0 ≤ zsum blk_used (ar_blocks ar)).
  { apply zsum_nonneg. eapply Forall_impl; [exact Hs|]. intros [s []]; unfold blk_used, blk_free; cbn; lia. }
  assert (0 ≤ zsum blk_free (ar_blocks ar)).
  { apply zsum_nonneg. eapply Forall_impl; [exact Hs|]. intros [s []]; unfold blk_used, blk_free; cbn; lia. }
  assert (ar_blocks ar ≠ []).
  { intros Hnil. rewrite Hnil in He. unfold zsum in He. cbn in He. unfold ar_first, PAGE_SIZE in He. lia. }
  assert (1 ≤ Z.of_nat (length (ar_blocks ar))) by (destruct (ar_blocks ar); [done|cbn [length]; lia]).
  unfold ar_first, SIZEOF_BLOCK, PAGE_SIZE in *. repeat split; done || lia.
Qed.

Lemma zsum_le {T} (f g : T → Z) l : Forall (λ x, f x ≤ g x) l → zsum f l ≤ zsum g l.
Proof. induction 1; [done|]. rewrite !zsum_cons. lia. Qed.

Lemma zsum_scale {T} (f : T → Z) c l : zsum (λ x, c * f x) l = c * zsum f l.
Proof. induction l; [unfold zsum; cbn; lia|]. rewrite !zsum_cons. lia. Qed.

Lemma heap_sums_bound A h : heap_rep A h →
  (0 ≤ zsum ar_used A ∧ 0 ≤ zsum ar_free A + zsum ar_extra A) ∧
  zsum ar_used A + (zsum ar_free A + zsum ar_extra A) ≤ 4096 * 32768.
Proof.
  intros Hr. pose proof (heap_pages_bound _ _ Hr) as Hb.
  assert (Forall (λ ar, ∃ next, arena_ok (hmem h) next ar) A) as HF.
  { apply Forall_forall. intros ar Hin. by eapply arenas_in, Hin; apply Hr. }
  clear Hr. revert Hb.
  assert (zsum ar_used A + (zsum ar_free A + zsum ar_extra A) ≤ 4096 * zsum ar_pages A ∧
          0 ≤ zsum ar_used A ∧ 0 ≤ zsum ar_free A + zsum ar_extra A).
  { induction HF as [|ar A [next Ha] HF IH]; [done|]. rewrite !zsum_cons.
    apply arena_sums in Ha. unfold PAGE_SIZE in *. lia. }
  lia.
Qed.

Lemma blocks_fuel A h ar : heap_rep A h → ar ∈ A → (length (ar_blocks ar) < heap_fuel h)%nat.
Proof.
  intros Hr Hin. destruct (arenas_in _ _ _ (hr_arenas _ _ Hr) Hin) as [next Ha].
  pose proof (ao_end _ _ _ Ha) as He. pose proof (bend_ge (ar_first ar) _ (bo_sizes _ _ _ (ao_blocks _ _ _ Ha))).
  assert (ar_pages ar ≤ zsum ar_pages A) as Hle.
  { apply list_elem_of_split in Hin as (A1 & A2 & ->). rewrite zsum_app, zsum_cons.
    assert (∀ l, l ⊆ A1 ++ ar :: A2 → 0 ≤ zsum ar_pages l) as Hnn.
    { intros l Hl. apply zsum_nonneg, Forall_forall. intros x Hx%Hl.
      destruct (arenas_in _ _ _ (hr_arenas _ _ Hr) Hx) as [nx Hx']. pose proof (ao_pages _ _ _ Hx'). lia. }
    pose proof (Hnn A1 ltac:(set_solver)). pose proof (Hnn A2 ltac:(set_solver)). lia. }
  unfold heap_fuel. rewrite (hr_pages _ _ Hr). unfold ar_first, PAGE_SIZE in *. lia.
Qed.

Lemma arenas_fuel A h : heap_rep A h → (length A < heap_fuel h)%nat.
Proof.
  intros Hr. assert (Z.of_nat (length A) ≤ zsum ar_pages A) as Hle.
  { pose proof (hr_arenas _ _ Hr) as HA. clear Hr. induction A as [|ar A IH]; [done|].
    destruct HA as [Ha HA]. specialize (IH HA). pose proof (ao_pages _ _ _ Ha).
    rewrite zsum_cons. cbn [length]. lia. }
  unfold heap_fuel. rewrite (hr_pages _ _ Hr). lia.
Qed.

(** ** One arena changes *)

Lemma rep_update A1 ar ar' A2 mem' h h' :
  heap_rep (A1 ++ ar :: A2) h →
  ar_base ar' = ar_base ar → ar_pages ar' = ar_pages ar →
  arena_ok mem' (arena_head A2) ar' →
  (∀ x, page_of x ∉ ar_run ar → mrd mem' x = mrd (hmem h) x) →
  h_ps h' = h_ps (hset mem' h) → kernel_heap_pages h' = kernel_heap_pages h →
  kernel_heap_pages_used h' = kernel_heap_pages_used h →
  kernel_heap_used_space h' = kernel_heap_used_space h - ar_used ar + ar_used ar' →
  kernel_heap_free_space h' = kernel_heap_free_space h - (ar_free ar + ar_extra ar)
                              + (ar_free ar' + ar_extra ar') →
  heap_rep (A1 ++ ar' :: A2) h'.
Proof.
  intros [Hps Hhd HA Hnd Ho Hpg Hus Hfr] Hb Hp Hok Hf Hps' Hhd' Hpg' Hus' Hfr'.
  assert (∀ x, page_of x ∉ all_pages (A1 ++ ar :: A2) → mrd mem' x = mrd (hmem h) x) as Hf2.
  { intros x Hx. apply Hf. intros Hin. apply Hx. rewrite all_pages_app. apply elem_of_app. right.
    apply elem_of_app. by left. }
  destruct (ps_hset _ _ _ Hps Ho Hf2) as [Hps2 Ho2].
  assert (hmem h' = mem') as Hm by (unfold hmem, hmachine; rewrite Hps'; apply hmem_hset).
  split.
  - by rewrite Hps'.
  - rewrite Hhd', Hhd. destruct A1; [|done]. cbn. by rewrite Hb.
  - rewrite Hm. by eapply arenas_update.
  - by rewrite (all_pages_same A1 ar ar').
  - intros q Hq. rewrite (all_pages_same A1 ar ar') in Hq by done. rewrite Hps'. by apply Ho2, Ho.
  - rewrite Hpg', Hpg, !zsum_app, !zsum_cons. lia.
  - rewrite Hus', Hus, !zsum_app, !zsum_cons. lia.
  - rewrite Hfr', Hfr, !zsum_app, !zsum_cons. lia.
Qed.

(** Payloads of live blocks keep their contents. *)
Definition kept A (mem mem' : gmap Z Z) : Prop :=
  ∀ p n x, (p, n) ∈ live A → p ≤ x < p + n → mrd mem' x = mrd mem x.

Lemma live_in_run mem next ar p n x :
  arena_ok mem next ar → (p, n) ∈ live_blocks (ar_first ar) (ar_blocks ar) →
  p ≤ x < p + n → page_of x ∈ ar_run ar.
Proof.
  intros Ha Hin Hx. apply page_of_run; [apply Ha|].
  destruct (live_blocks_bounds _ _ _ _ (bo_sizes _ _ _ (ao_blocks _ _ _ Ha)) Hin) as (? & ? & Hle & _).
  rewrite (ao_end _ _ _ Ha) in Hle. unfold ar_first in *. lia.
Qed.

(** The frame for live payloads when only [ar] is written. *)
Lemma kept_update A1 ar A2 mem mem' :
  arenas mem (A1 ++ ar :: A2) → NoDup (all_pages (A1 ++ ar :: A2)) →
  (∀ x, page_of x ∉ ar_run ar → mrd mem' x = mrd mem x) →
  (∀ p n x, (p, n) ∈ live_blocks (ar_first ar) (ar_blocks ar) → p ≤ x < p + n →
     mrd mem' x = mrd mem x) →
  kept (A1 ++ ar :: A2) mem mem'.
Proof.
  intros HA Hnd Hf Hl p n x Hin Hx. unfold live in Hin.
  apply list_elem_of_bind in Hin as (ar0 & Hin & Har0).
  destruct (arenas_in _ _ _ HA Har0) as [next Ha0].
  destruct (decide (page_of x ∈ ar_run ar)) as [Hpg|Hpg]; [|by apply Hf].
  pose proof (live_in_run _ _ _ _ _ _ Ha0 Hin Hx) as Hpg0.
  rewrite all_pages_app in Hnd. cbn in Hnd. fold (all_pages A2) in Hnd.
  apply NoDup_app in Hnd as (_ & Hd & (_ & Hd2 & _)%NoDup_app).
  apply elem_of_app in Har0 as [Har0|[->|Har0]%elem_of_cons].
  - exfalso. apply (Hd (page_of x)).
    + apply list_elem_of_bind. eauto.
    + apply elem_of_app. by left.
  - by eapply Hl.
  - exfalso. apply (Hd2 (page_of x) Hpg). apply list_elem_of_bind. eauto.
Qed.

Lemma live_mid A1 ar A2 :
  live (A1 ++ ar :: A2) ≡ₚ live_blocks (ar_first ar) (ar_blocks ar) ++ live (A1 ++ A2).
Proof.
  unfold live. rewrite !bind_app. cbn. rewrite !app_assoc. f_equiv. apply Permutation_app_comm.
Qed.

(** The arena after serving a request. *)
Lemma arena_take mem next ar pre size sz post :
  arena_ok mem next ar → ar_blocks ar = pre ++ (sz, true) :: post →
  0 < size ≤ sz → size mod 16 = 0 →
  let b := bend (ar_first ar) pre in
  let mem' := take_mem mem b size sz post in
  let ar' := Arena (ar_base ar) (ar_pages ar) (pre ++ take_block size sz post) in
  arena_ok mem' next ar' ∧
  (∀ x, page_of x ∉ ar_run ar → mrd mem' x = mrd mem x) ∧
  (∀ p n x, (p, n) ∈ live_blocks (ar_first ar) (ar_blocks ar) → p ≤ x < p + n →
     mrd mem' x = mrd mem x) ∧
  ar_used ar' = ar_used ar + grant size sz ∧
  ar_free ar' + ar_extra ar' = ar_free ar + ar_extra ar - grant size sz.
Proof.
  intros Ha Hbl Hs Hsm b mem' ar'. pose proof (ao_blocks _ _ _ Ha) as Hok. rewrite Hbl in Hok.
  pose proof (bo_sizes _ _ _ Hok) as Hsz. pose proof (ao_end _ _ _ Ha) as He. rewrite Hbl in He.
  pose proof (take_mem_frame mem (ar_first ar) pre size sz post Hsz ltac:(lia)) as Hf. fold b mem' in Hf.
  pose proof (blocks_focus _ _ _ _ _ _ Hok) as (Hb1 & _ & Hz & _ & Hend). fold b in Hb1, Hend.
  assert (∀ x, ¬ (ar_first ar ≤ x < ar_base ar + ar_pages ar * PAGE_SIZE) → mrd mem' x = mrd mem x) as Hout.
  { intros x Hx. apply Hf.
    - intros Hh%hdrs_bounds; [|done]. rewrite He in Hh. lia.
    - unfold SIZEOF_BLOCK. rewrite He in Hend. lia. }
  split; [|split; [|split; [|split]]].
  - pose proof Ha as [? ? ? ? ? ? ? _ _ Hco]. unfold ar_first in Hout.
    split; cbn; rewrite ?Hout by lia; try done.
    + by apply take_block_ok.
    + by rewrite bend_take.
    + apply coalesced_spec, coalesced_take. rewrite <- Hbl. by apply coalesced_spec.
  - intros x Hx. apply Hout. intros Hr. apply Hx, page_of_run; [apply Ha|]. unfold ar_first in Hr. lia.
  - intros p n x Hin Hx. rewrite Hbl in Hin. apply Hf; [by eapply live_not_hdr|].
    destruct (live_focus _ _ _ _ _ _ _ Hsz Hin) as [[? _]|[_ Hd]]; [done|]. by apply Hd.
  - unfold ar_used. cbn. rewrite Hbl, !zsum_app, zsum_cons. unfold take_block, grant.
    destruct (_ <=? sz); rewrite !zsum_cons; unfold blk_used; cbn; lia.
  - unfold ar_free, ar_extra. cbn [ar_blocks ar']. rewrite Hbl, !zsum_app, zsum_cons, !length_app.
    unfold take_block, grant, SIZEOF_BLOCK.
    destruct (_ <=? sz); rewrite !zsum_cons; unfold blk_free; cbn [length fst snd]; lia.
Qed.

(** ** Allocation *)

Definition hheld h : list lock := m_held (hmachine h).

(** A request of [size] bytes is served: [A'] and [h'] are the heap after it. *)
Record served (size : Z) A h (p : Z) A' h' : Prop := {
  sv_rep : heap_rep A' h';
  sv_held : hheld h' = hheld h;
  sv_live : ∃ n, size ≤ n < size + kernel_heap_min_split_size ∧ live A' ≡ₚ (p, n) :: live A;
  sv_kept : kept A (hmem h) (hmem h');
  sv_align : p mod 16 = 0;
  sv_pos : 0 < p;
}.

Lemma grant_bounds size sz : size ≤ sz →
  size ≤ grant size sz < size + kernel_heap_min_split_size ∧ grant size sz ≤ sz.
Proof.
  unfold grant, kernel_heap_min_split_size, SIZEOF_BLOCK, KERNEL_HEAP_ALIGNMENT.
  intros. destruct (_ <=? sz) eqn:?; bool_to_prop; lia.
Qed.

Lemma arena_room mem next ar pre sz post :
  arena_ok mem next ar → ar_blocks ar = pre ++ (sz, true) :: post → sz ≤ ar_free ar.
Proof.
  intros Ha Hbl. pose proof (bo_sizes _ _ _ (ao_blocks _ _ _ Ha)) as Hs. rewrite Hbl in Hs.
  unfold ar_free. rewrite Hbl, zsum_app, zsum_cons.
  apply sizes_app in Hs as [H1 [_ H2]%sizes_cons].
  assert (∀ l, sizes_ok l → 0 ≤ zsum blk_free l) as Hnn.
  { intros l Hl. apply zsum_nonneg. eapply Forall_impl; [exact Hl|].
    intros [s []]; unfold blk_free; cbn; lia. }
  pose proof (Hnn _ H1). pose proof (Hnn _ H2). unfold blk_free at 2. cbn. lia.
Qed.

Lemma zsum_mid_le A1 ar A2 (f : arena → Z) :
  Forall (λ x, 0 ≤ f x) (A1 ++ ar :: A2) → f ar ≤ zsum f (A1 ++ ar :: A2).
Proof.
  intros [H1 [_ H2]%Forall_cons]%Forall_app. rewrite zsum_app, zsum_cons.
  pose proof (zsum_nonneg _ _ H1). pose proof (zsum_nonneg _ _ H2). lia.
Qed.

Lemma arena_counters A h ar : heap_rep A h → ar ∈ A →
  ar_free ar + ar_extra ar ≤ kernel_heap_free_space h ≤ 4096 * 32768 ∧
  ar_used ar ≤ kernel_heap_used_space h ≤ 4096 * 32768 ∧
  kernel_heap_used_space h + kernel_heap_free_space h ≤ 4096 * 32768.
Proof.
  intros Hr Hin. pose proof (heap_sums_bound _ _ Hr). rewrite (hr_used _ _ Hr), (hr_free _ _ Hr).
  assert (Forall (λ x, 0 ≤ ar_used x ∧ 0 ≤ ar_free x ∧ 0 ≤ ar_extra x) A) as HF.
  { apply Forall_forall. intros x Hx. destruct (arenas_in _ _ _ (hr_arenas _ _ Hr) Hx) as [nx Ha].
    apply arena_sums in Ha. tauto. }
  apply list_elem_of_split in Hin as (A1 & A2 & ->).
  pose proof (zsum_mid_le A1 ar A2 ar_used ltac:(eapply Forall_impl; [exact HF|]; naive_solver)).
  pose proof (zsum_mid_le A1 ar A2 ar_free ltac:(eapply Forall_impl; [exact HF|]; naive_solver)).
  pose proof (zsum_mid_le A1 ar A2 ar_extra ltac:(eapply Forall_impl; [exact HF|]; naive_solver)).
  lia.
Qed.

Lemma wp_alloc_arena A1 ar A2 size (Q : Z → hstate P → Prop) h :
  heap_rep (A1 ++ ar :: A2) h → 0 < size → size mod 16 = 0 →
  (Forall (λ b : block, b.2 = true → b.1 < size) (ar_blocks ar) → Q 0 h) →
  (∀ p A' h', served size (A1 ++ ar :: A2) h p A' h' → Q (kv p) h') →
  wp (kernel_heap_allocate_from_arena (kv (ar_base ar)) size) Q h.
Proof.
  intros Hr Hs Hsm HN HS.
  assert (ar ∈ A1 ++ ar :: A2) as Hin by set_solver.
  destruct (arenas_mid _ _ _ _ (hr_arenas _ _ Hr)) as [Ha _].
  pose proof (ram_bounds _ (ao_base _ _ _ Ha)). pose proof (ram_page_nz _ (ao_base _ _ _ Ha)).
  apply (wp_allocate_from_arena (ar_base ar) (ar_blocks ar)); try done.
  - lia.
  - destruct (ao_base _ _ _ Ha) as [_ Hm]. unfold PAGE_SIZE in Hm. Z.div_mod_to_equations; lia.
  - apply Ha.
  - apply Ha.
  - by apply arena_sums in Ha as (_ & _ & _ & _ & ?).
  - by eapply blocks_fuel.
  - intros Hno. by apply HN, (bs_alloc_none (ar_first ar)).
  - intros pre sz post Hbl Hle _. fold (ar_first ar).
    destruct (arena_take _ _ _ pre size sz post Ha Hbl) as (Hok' & Hpf & Hlf & Hu & Hf); [lia|done|].
    destruct (grant_bounds size sz Hle) as [Hg Hg2].
    pose proof (arena_room _ _ _ _ _ _ Ha Hbl). pose proof (arena_counters _ _ _ Hr Hin).
    pose proof (arena_sums _ _ _ Ha) as (_ & ? & ? & ? & _).
    set (ar' := Arena (ar_base ar) (ar_pages ar) (pre ++ take_block size sz post)) in *.
    apply (HS _ (A1 ++ ar' :: A2)). split.
    + eapply (rep_update A1 ar ar'); try done; cbn [kernel_heap_used_space kernel_heap_free_space
        count_alloc hset setf]; rewrite u64_small; lia.
    + apply hset_held.
    + exists (grant size sz). split; [done|]. rewrite !live_mid. cbn. rewrite live_take, Hbl. done.
    + change (hmem (count_alloc _ ?x)) with (hmem x). rewrite hmem_hset.
      eapply kept_update; try done; apply Hr.
    + pose proof (ao_blocks _ _ _ Ha) as Hok. rewrite Hbl in Hok.
      destruct (blocks_focus _ _ _ _ _ _ Hok) as (_ & Hbm & _). unfold SIZEOF_BLOCK.
      Z.div_mod_to_equations; lia.
    + pose proof (ao_blocks _ _ _ Ha) as Hok. rewrite Hbl in Hok.
      destruct (blocks_focus _ _ _ _ _ _ Hok) as (? & _). unfold SIZEOF_BLOCK, ar_first in *. lia.
Qed.

(** No free block of the heap can serve [size] bytes. *)
Definition no_fit A (size : Z) : Prop :=
  ∀ ar b, ar ∈ A → b ∈ ar_blocks ar → b.2 = true → b.1 < size.

Lemma arena_addr A h ar : heap_rep A h → ar ∈ A →
  0 < ar_base ar < 2 ^ 31 ∧ ar_base ar mod 4096 = 0.
Proof.
  intros Hr Hin. destruct (arenas_in _ _ _ (hr_arenas _ _ Hr) Hin) as [nx Ha].
  pose proof (ram_bounds _ (ao_base _ _ _ Ha)). pose proof (ram_page_nz _ (ao_base _ _ _ Ha)).
  destruct (ao_base _ _ _ Ha) as [_ Hm]. unfold PAGE_SIZE in Hm. lia.
Qed.

Lemma wp_kmalloc_scan A size (Q : Z → hstate P → Prop) h :
  heap_rep A h → 0 < size → size mod 16 = 0 →
  (no_fit A size → Q 0 h) →
  (∀ p A' h', served size A h p A' h' → Q (kv p) h') →
  wp (kmalloc_scan size) Q h.
Proof.
  intros Hr Hs Hsm HN HS. unfold kmalloc_scan. wp_steps.
  set (I := λ (n : nat) (page : Z) (s' : hstate P), s' = h ∧ ∃ A1 A2, A = A1 ++ A2 ∧
    page = arena_head A2 ∧ n = length A2 ∧ no_fit A1 size).
  apply (wp_whileM _ _ _ I Q (length A)).
  - by apply arenas_fuel.
  - split; [done|]. exists [], A. split; [done|]. split; [apply Hr|]. split; [done|].
    by intros ar b ?%not_elem_of_nil.
  - intros n page s' (-> & A1 & A2 & -> & -> & -> & Hno). destruct A2 as [|ar A2]; cbn [arena_head].
    { apply wp_ret, HN. by rewrite app_nil_r. }
    assert (ar ∈ A1 ++ ar :: A2) as Hin by set_solver.
    pose proof (arena_addr _ _ _ Hr Hin). rewrite kv_nz by lia. wp_step.
    apply (wp_alloc_arena A1 ar A2); try done.
    + intros Hnf. cbn [Z.eqb negb]. wp_step. hl (ar_base ar + 16). wp_steps.
      destruct (arenas_mid _ _ _ _ (hr_arenas _ _ Hr)) as [Ha _]. rewrite (ao_next _ _ _ Ha).
      exists (length A2). split; [cbn; lia|]. split; [done|].
      exists (A1 ++ [ar]), A2. split; [by rewrite <- app_assoc|]. split; [done|]. split; [done|].
      intros ar' b [Hb| ->%list_elem_of_singleton]%elem_of_app; [by apply Hno|].
      rewrite Forall_forall in Hnf. auto.
    + intros p A' h' Hsv. rewrite kv_nz by (pose proof (sv_pos _ _ _ _ _ _ Hsv); lia).
      cbn [negb]. apply wp_ret. by eapply HS.
Qed.

(** ** Growing the heap *)

Definition fresh_arena (base n : Z) : arena := Arena base n [(n * PAGE_SIZE - 80, true)].

(** The words [kernel_heap_add_arena] writes. *)
Definition arena_mem (mem : gmap Z Z) (base n next : Z) : gmap Z Z :=
  let u := n * PAGE_SIZE - 80 in
  <[base + 72 := 0]> (<[base + 64 := 0]> (<[base + 56 := 1]> (<[base + 48 := u]>
  (<[base + 32 := kv (base + 48)]> (<[base + 24 := u]> (<[base + 16 := next]>
  (<[base + 8 := n]> (<[base := KERNEL_HEAP_PAGE_MAGIC]> mem)))))))).

Lemma arena_mem_ok mem base n next :
  ram_page base → 1 ≤ n ≤ 32768 → arena_ok (arena_mem mem base n next) next (fresh_arena base n).
Proof.
  intros Hb Hn. pose proof (ram_bounds _ Hb). destruct Hb as [Hb Hm]. unfold arena_mem.
  assert (base mod 16 = 0) by (unfold PAGE_SIZE in Hm; Z.div_mod_to_equations; lia).
  unfold PAGE_SIZE in *. split; unfold ar_first, fresh_arena, PAGE_SIZE; cbn [ar_base ar_pages ar_blocks bend]; try done.
  1-5: repeat (rewrite mrd_insert_ne by lia); rewrite ?mrd_insert_eq; done.
  - split; cbn [seg bend].
    + unfold sizes_ok. constructor; [|done]. cbn [fst]. split; [lia|]. Z.div_mod_to_equations; lia.
    + unfold hd_ptr. split; [|done]. split.
      all: replace (base + 48 + 8) with (base + 56) by lia;
           replace (base + 48 + 16) with (base + 64) by lia;
           replace (base + 48 + 24) with (base + 72) by lia;
           repeat (rewrite mrd_insert_ne by lia); rewrite ?mrd_insert_eq; done.
    + lia.
    + Z.div_mod_to_equations; lia.
    + unfold SIZEOF_BLOCK. lia.
  - unfold SIZEOF_BLOCK. lia.
  - by apply coalesced_spec.
Qed.

Lemma arena_mem_out mem base n next x :
  base mod PAGE_SIZE = 0 → 1 ≤ n → page_of x ∉ run_pages base n →
  mrd (arena_mem mem base n next) x = mrd mem x.
Proof.
  intros Hb Hn Hx. unfold arena_mem.
  assert (¬ (base ≤ x < base + 4096)) by (intros Hr; apply Hx, page_of_run; unfold PAGE_SIZE in *; [done|lia]).
  rewrite !mrd_insert_ne by lia. done.
Qed.

(** The heap grew by one arena of [n] pages. *)
Record grown A h (n : Z) ar h' : Prop := {
  gr_ar : ∃ base, ar = fresh_arena base n;
  gr_rep : heap_rep (ar :: A) h';
  gr_held : hheld h' = hheld h;
  gr_kept : kept A (hmem h) (hmem h');
}.

Lemma live_fresh base n A : live (fresh_arena base n :: A) = live A.
Proof. done. Qed.

Lemma fresh_sums base n :
  ar_used (fresh_arena base n) = 0 ∧ ar_free (fresh_arena base n) = n * PAGE_SIZE - 80 ∧
  ar_extra (fresh_arena base n) = 0.
Proof.
  unfold ar_used, ar_free, ar_extra, fresh_arena, zsum, blk_used, blk_free.
  cbn [ar_blocks foldr fst snd length]. lia.
Qed.

Lemma grown_rep A h n base (s' : P) :
  heap_rep A h → ps_ok s' → m_held (sub_get s') = hheld h → 1 ≤ n →
  (∀ q, q ∈ run_pages base n → ¬ ps_owned (h_ps h) q) →
  (∀ q, ps_owned s' q ↔ q ∈ run_pages base n ∨ ps_owned (h_ps h) q) →
  (∀ a, ps_owned (h_ps h) (page_of a) → mrd (m_mem (sub_get s')) a = mrd (hmem h) a) →
  let h1 := h <| h_ps := s' |> in
  let u := n * PAGE_SIZE - 80 in
  let h' := (hset (arena_mem (hmem h1) base n (arena_head A)) h1)
              <| kernel_heap_pages := kv base |>
              <| kernel_heap_pages_used := u64 (kernel_heap_pages_used h + n) |>
              <| kernel_heap_free_space := u64 (kernel_heap_free_space h + u) |> in
  grown A h n (fresh_arena base n) h'.
Proof.
  intros Hr Hok Hheld Hn Hnew Hown Hmem h1 u h'.
  set (mem' := arena_mem (hmem h1) base n (arena_head A)).
  assert (∀ q, q ∈ run_pages base n → ram_page q) as Hram.
  { intros q Hq. eapply ps_ram; [exact Hok|]. apply Hown. by left. }
  assert (ram_page base) as Hb by (apply Hram, elem_of_run; exists 0; lia).
  assert (NoDup (all_pages (fresh_arena base n :: A))) as Hnd.
  { change (all_pages _) with (run_pages base n ++ all_pages A). apply NoDup_app.
    split; [apply run_nodup|]. split; [|apply Hr].
    intros q Hq Hin. by apply (Hnew q Hq), (hr_owned _ _ Hr). }
  assert (∀ q, q ∈ all_pages (fresh_arena base n :: A) → ps_owned s' q) as Ho1.
  { intros q [Hq|Hq]%elem_of_app; apply Hown; [by left|]. right. by apply (hr_owned _ _ Hr). }
  assert (n + zsum ar_pages A ≤ 32768) as Hbound.
  { pose proof (owned_pages_bound (fresh_arena base n :: A) s' Hok Hnd Ho1) as Hb'.
    rewrite zsum_cons in Hb'. apply Hb'. constructor; [done|]. eapply arenas_pages_pos, Hr. }
  assert (∀ x, page_of x ∉ run_pages base n → mrd mem' x = mrd (hmem h1) x) as Hout.
  { intros x Hx. apply arena_mem_out; [apply Hb|done|done]. }
  assert (∀ x, page_of x ∈ all_pages A → mrd mem' x = mrd (hmem h) x) as Hold.
  { intros x Hx%(hr_owned _ _ Hr). rewrite Hout; [by apply Hmem|]. intros Hin. by apply (Hnew _ Hin). }
  destruct (ps_hset (fresh_arena base n :: A) h1 mem') as [Hok' Hown'].
  { done. } { done. } { intros x [Hx _]%not_elem_of_app. by apply Hout. }
  assert (Forall (λ ar, 0 ≤ ar_pages ar) A) as Hpos.
  { eapply Forall_impl; [eapply arenas_pages_pos, Hr|]. cbn. lia. }
  pose proof (zsum_nonneg _ _ Hpos). pose proof (heap_sums_bound _ _ Hr).
  split; [by eexists|split| |].
  - exact Hok'.
  - done.
  - change (hmem h') with (hmem (hset mem' h1)). rewrite hmem_hset. cbn [arenas]. split.
    + apply arena_mem_ok; [done|lia].
    + eapply arenas_frame; [apply Hr|done].
  - done.
  - intros q Hq. by apply Hown', Ho1.
  - cbn. rewrite (hr_pages _ _ Hr), zsum_cons, u64_small; cbn; lia.
  - cbn. rewrite (hr_used _ _ Hr), zsum_cons. done.
  - cbn [kernel_heap_free_space h' setf]. destruct (fresh_sums base n) as (_ & Hf1 & Hf2).
    rewrite (hr_free _ _ Hr), !zsum_cons, Hf1, Hf2. unfold u, PAGE_SIZE. rewrite u64_small; lia.
  - change (hheld h') with (hheld (hset mem' h1)). unfold hheld. by rewrite hset_held.
  - intros p m x Hin Hx. change (hmem h') with (hmem (hset mem' h1)). rewrite hmem_hset.
    apply Hold. unfold live in Hin. apply list_elem_of_bind in Hin as (ar & Hin & Har).
    destruct (arenas_in _ _ _ (hr_arenas _ _ Hr) Har) as [nx Ha].
    apply list_elem_of_bind. exists ar. split; [|done]. by eapply live_in_run.
Qed.

Lemma hset_head mem h : kernel_heap_pages (hset mem h) = kernel_heap_pages h.
Proof. done. Qed.

(** A failed request is counted. *)
Definition count_failed h : hstate P := h <| kernel_heap_failed := u64 (kernel_heap_failed h + 1) |>.

Lemma wp_add_arena A n (Q : Z → hstate P → Prop) h :
  heap_rep A h → can_lock L_page (hheld h) = true → 0 ≤ n →
  Q 0 (count_failed h) →
  (1 ≤ n → ∀ ar h', grown A h n ar h' → Q (kv (ar_base ar)) h') →
  wp (kernel_heap_add_arena n) Q h.
Proof.
  intros Hr Hlk Hn HF HS. unfold kernel_heap_add_arena. wp_steps.
  eapply wp_mono; [apply (ps_alloc_spec (h_ps h) n Hn); [apply Hr|done]|].
  intros r s' (Hok & Hheld & [[-> ->]|(Hn' & Hnew & Hown & Hmem)]).
  { cbn [Z.eqb]. wp_steps. change (sub_set (h_ps h) h) with (h <| h_ps := h_ps h |>).
    replace (h <| h_ps := h_ps h |>) with h by (by destruct h). exact HF. }
  assert (ram_page r) as Hr0.
  { eapply ps_ram; [exact Hok|]. apply Hown. left. apply elem_of_run. exists 0. lia. }
  pose proof (ram_bounds _ Hr0). pose proof (ram_page_nz _ Hr0). bfalse (r =? 0).
  pose proof (grown_rep A h n r s' Hr Hok Hheld ltac:(lia) Hnew Hown Hmem) as Hg. cbv zeta in Hg.
  specialize (HS ltac:(lia) _ _ Hg). cbn [ar_base fresh_arena] in HS.
  set (h1 := sub_set s' h). change (h <| h_ps := s' |>) with h1 in HS.
  assert (n ≤ 32768) as Hn32.
  { destruct Hg as [_ Hrep _ _]. apply heap_pages_bound in Hrep. rewrite zsum_cons in Hrep.
    assert (0 ≤ zsum ar_pages A); [|cbn in Hrep; lia]. apply zsum_nonneg.
    eapply Forall_impl; [eapply arenas_pages_pos, Hr|]. cbn. lia. }
  assert (r mod 16 = 0).
  { destruct Hr0 as [_ Hm]. unfold PAGE_SIZE in Hm. Z.div_mod_to_equations; lia. }
  rewrite pa_to_va_eq by lia. fold (kv r). cbn zeta.
  assert (kernel_heap_align_up (u64 (kv r + SIZEOF_HEAP_PAGE)) KERNEL_HEAP_ALIGNMENT = kv (r + 48)) as ->.
  { unfold kernel_heap_align_up, SIZEOF_HEAP_PAGE, kv, KERNEL_VA_OFFSET.
    change KERNEL_HEAP_ALIGNMENT with (2 ^ 4).
    rewrite u64_small, align_up64_eq by lia. Z.div_mod_to_equations; lia. }
  assert (u64 (u64 (u64 (n * PAGE_SIZE) - u64 (kv (r + 48) - kv r)) - SIZEOF_BLOCK)
          = n * PAGE_SIZE - 80) as ->.
  { replace (kv (r + 48) - kv r) with 48 by (unfold kv; lia). unfold PAGE_SIZE, SIZEOF_BLOCK.
    rewrite (u64_small 48), (u64_small (n * 4096)), (u64_small (_ - 48)), u64_small by lia. lia. }
  wp_step. hs r. wp_step. hs (r + 8). wp_steps. hs (r + 16). wp_step. hs (r + 24).
  wp_step. hs (r + 32). rewrite !hmem_hset, !hset_hset. rewrite (hset_head _ h1).
  change (kernel_heap_pages h1) with (kernel_heap_pages h). rewrite (hr_head _ _ Hr). wp_steps.
  match goal with |- wp _ _ (_ <| kernel_heap_pages := ?p |> <| kernel_heap_pages_used := ?k |>
      <| kernel_heap_free_space := ?f |>) => set (fs := f); set (pu := k) end.
  match goal with |- wp _ _ ?x => match x with context [hset ?m h1] =>
    change x with (hset m (h1 <| kernel_heap_pages := kv r |> <| kernel_heap_pages_used := pu |>
      <| kernel_heap_free_space := fs |>)) end end.
  hs (r + 48). wp_step. hs (r + 56). wp_step. hs (r + 64). wp_step. hs (r + 72).
  rewrite !hmem_hset, !hset_hset. apply wp_ret. exact HS.
Qed.

(** ** Locks and the trace *)

(** The machine of the heap with its memory unchanged. *)
Definition hmach (m : machine) h : hstate P := h <| h_ps := sub_set m (h_ps h) |>.

Lemma rep_mach A h m : heap_rep A h → m_mem m = hmem h →
  m_mmu_enabled m = m_mmu_enabled (hmachine h) → heap_rep A (hmach m h).
Proof.
  intros Hr Hm He. destruct (ps_frame (h_ps h) m) as [Hok Ho]; [apply Hr|done| |].
  { intros a _. by rewrite Hm. }
  assert (hmem (hmach m h) = hmem h) as Hmm.
  { unfold hmem, hmachine, hmach. cbn. by rewrite sub_get_set. }
  destruct Hr. split; try done.
  - by rewrite Hmm.
  - intros q Hq. by apply Ho, hr_owned0.
Qed.

Lemma hmem_hmach m h : hmem (hmach m h) = m_mem m.
Proof. unfold hmem, hmachine, hmach. cbn. by rewrite sub_get_set. Qed.

Lemma hheld_hmach m h : hheld (hmach m h) = m_held m.
Proof. unfold hheld, hmachine, hmach. cbn. by rewrite sub_get_set. Qed.

Definition hset_held_to (l : list lock) h : hstate P := hmach ((hmachine h) <| m_held := l |>) h.

Lemma wp_lock_heap (Q : unit → hstate P → Prop) h :
  can_lock L_heap (hheld h) = true → Q () (hset_held_to (L_heap :: hheld h) h) → wp lock_heap Q h.
Proof. intros Hl HQ. unfold lock_heap. rewrite !wp_up. by apply wp_lock. Qed.

Lemma wp_unlock_heap held (Q : unit → hstate P → Prop) h :
  hheld h = L_heap :: held → Q () (hset_held_to held h) → wp unlock_heap Q h.
Proof. intros Hl HQ. unfold unlock_heap. rewrite !wp_up. by apply (wp_unlock _ held). Qed.

Lemma rep_held A h l : heap_rep A h → heap_rep A (hset_held_to l h).
Proof. intros. by apply rep_mach. Qed.

Lemma held_mem l h : hmem (hset_held_to l h) = hmem h.
Proof. by unfold hset_held_to; rewrite hmem_hmach. Qed.

Lemma held_held l h : hheld (hset_held_to l h) = l.
Proof. by unfold hset_held_to; rewrite hheld_hmach. Qed.

Lemma can_lock_below held : can_lock L_heap held = true → can_lock L_page (L_heap :: held) = true.
Proof.
  unfold can_lock. cbn. intros Hall. apply forallb_forall. intros l Hl.
  rewrite forallb_forall in Hall. specialize (Hall l Hl). bool_to_prop. cbn in *.
  apply andb_true_iff. split; [|apply Z.leb_le; lia].
  apply negb_true_iff, bool_decide_eq_false. intros ->. cbn in *. lia.
Qed.

(** ** [kmalloc] *)

Definition aligned16 (size : Z) : Z := (size + 15) - (size + 15) mod 16.

Lemma aligned16_spec size : 0 < size →
  aligned16 size mod 16 = 0 ∧ size ≤ aligned16 size < size + 16.
Proof. intros. unfold aligned16. split; Z.div_mod_to_equations; lia. Qed.

Lemma align_up_16 size : 0 ≤ size → size < 2 ^ 63 →
  kernel_heap_align_up size KERNEL_HEAP_ALIGNMENT = aligned16 size.
Proof.
  intros. unfold kernel_heap_align_up, aligned16. change KERNEL_HEAP_ALIGNMENT with (2 ^ 4).
  rewrite align_up64_eq by lia. change (2 ^ 4) with 16. f_equal; [lia|f_equal; lia].
Qed.

(** An arena of the computed number of pages can serve the request. *)
Lemma pages_for_size_ok size : 0 < size → size mod 16 = 0 → size < 2 ^ 62 →
  let n := kernel_heap_pages_for_size size in 1 ≤ n ∧ size ≤ n * PAGE_SIZE - 80.
Proof.
  intros Hs Hm Hb n. subst n. unfold kernel_heap_pages_for_size.
  rewrite (align_up_16 size) by lia. replace (aligned16 size) with size.
  2: { unfold aligned16. Z.div_mod_to_equations; lia. }
  change (kernel_heap_align_up SIZEOF_HEAP_PAGE KERNEL_HEAP_ALIGNMENT) with 48.
  unfold SIZEOF_BLOCK. rewrite (u64_small (48 + 32)), (u64_small (48 + 32 + size)) by lia.
  unfold kernel_heap_align_up. change PAGE_SIZE with (2 ^ 12). rewrite align_up64_eq by lia.
  change (2 ^ 12) with 4096. Z.div_mod_to_equations; lia.
Qed.

Lemma served_after_growth size A h n ar h1 p A' h' :
  grown A h n ar h1 → served size (ar :: A) h1 p A' h' → served size A h p A' h'.
Proof.
  intros [[base ->] _ Hh Hk] [Hr Hh' Hl Hk' Ha Hp]. split; try done.
  - by rewrite Hh'.
  - intros q m x Hin Hx. rewrite (Hk' q m x) by done. by apply (Hk q m).
Qed.

Lemma served_held size A h p A' h' l :
  served size A h p A' h' → served size A (hset_held_to l h) p A' (hset_held_to l h').
Proof.
  intros [Hr Hh Hl Hk Ha Hp]. split; try done; [by apply rep_held|by rewrite !held_held|].
  by rewrite !held_mem.
Qed.

Lemma served_held_l size A h p A' h' l l' :
  served size A (hset_held_to l h) p A' h' → hheld h = l' →
  served size A h p A' (hset_held_to l' h').
Proof.
  intros [Hr Hh Hl Hk Ha Hp] <-. split; try done; [by apply rep_held|by rewrite held_held|].
  rewrite held_mem in *. done.
Qed.

(** Nothing fits: the heap is as before, up to the counter of failures. *)
Record refused A h h' : Prop := {
  rf_rep : heap_rep A h';
  rf_held : hheld h' = hheld h;
  rf_mem : hmem h' = hmem h;
}.

Lemma kmalloc_spec A size h :
  heap_rep A h → can_lock L_heap (hheld h) = true → 0 ≤ size < 2 ^ 61 →
  wp (kmalloc size) (λ r h',
    (r = 0 ∧ refused A h h' ∧ (size = 0 ∨ no_fit A (aligned16 size))) ∨
    (∃ p A', r = kv p ∧ served (aligned16 size) A h p A' h')) h.
Proof.
  intros Hr Hlk Hs. unfold kmalloc. wp_step. apply wp_lock_heap; [done|].
  pose proof (rep_held A h (L_heap :: hheld h) Hr) as Hr1.
  set (h1 := hset_held_to _ h) in *.
  assert (hheld h1 = L_heap :: hheld h) as Hh1 by apply held_held.
  assert (∀ h2, heap_rep A h2 → hheld h2 = hheld h1 → hmem h2 = hmem h1 →
            refused A h (hset_held_to (hheld h) h2)) as Href.
  { intros h2 Hr2 Hh2 Hm2. split; [by apply rep_held|by rewrite held_held|].
    rewrite held_mem, Hm2. apply held_mem. }
  apply wp_if; intros Hz; bool_to_prop.
  { wp_step. apply (wp_unlock_heap (hheld h)); [done|]. apply wp_ret. left. split; [done|].
    split; [by apply Href|by left]. }
  cbn zeta. rewrite align_up_16 by lia. destruct (aligned16_spec size) as [Ham Hab]; [lia|].
  wp_step. apply (wp_kmalloc_scan A); [done|lia|done|..].
  - intros Hno. cbn [Z.eqb negb]. wp_step.
    destruct (pages_for_size_ok (aligned16 size)) as [Hn1 Hn2]; [lia|done|lia|].
    apply (wp_add_arena A); [done|rewrite Hh1; by apply can_lock_below|lia|..].
    + cbn [Z.eqb]. wp_step. apply (wp_unlock_heap (hheld h)); [done|]. apply wp_ret.
      left. split; [done|]. split; [|by right]. apply Href; [|done|done]. by destruct Hr1.
    + intros _ ar h2 Hg. pose proof (gr_rep _ _ _ _ _ Hg) as Hr2.
      pose proof (arena_addr _ _ ar Hr2 ltac:(set_solver)).
      rewrite kv_nz by lia. wp_step. apply (wp_alloc_arena [] ar A); [done|lia|done|..].
      * intros Hnf. destruct (gr_ar _ _ _ _ _ Hg) as [base ->]. exfalso.
        apply Forall_cons in Hnf as [Hnf _]. cbn [fst snd] in Hnf. specialize (Hnf eq_refl). lia.
      * intros p A' h3 Hsv. wp_step.
        pose proof (served_after_growth _ _ _ _ _ _ _ _ _ Hg Hsv) as Hsv'.
        apply (wp_unlock_heap (hheld h)); [rewrite (sv_held _ _ _ _ _ _ Hsv'); done|]. apply wp_ret.
        right. exists p, A'. split; [done|]. by eapply served_held_l.
  - intros p A' h3 Hsv. rewrite kv_nz by (pose proof (sv_pos _ _ _ _ _ _ Hsv); lia). cbn [negb].
    wp_step. apply (wp_unlock_heap (hheld h)); [rewrite (sv_held _ _ _ _ _ _ Hsv); done|].
    apply wp_ret. right. exists p, A'. split; [done|]. by eapply served_held_l.
Qed.

(** ** [kfree] *)

Lemma u64_arena_end base n : 0 < base < 2 ^ 31 → 1 ≤ n ≤ 32768 →
  u64 (kv base + u64 (n * PAGE_SIZE)) = kv (base + n * PAGE_SIZE).
Proof.
  intros. unfold kv, KERNEL_VA_OFFSET, PAGE_SIZE. rewrite (u64_small (n * 4096)), u64_small; lia.
Qed.

(** The arena that contains an address, if any. *)
Lemma wp_page_from_pointer A p (Q : Z → hstate P → Prop) h :
  heap_rep A h → 0 ≤ p < 2 ^ 47 →
  ((∀ ar, ar ∈ A → page_of p ∉ ar_run ar) → Q 0 h) →
  (∀ A1 ar A2, A = A1 ++ ar :: A2 → page_of p ∈ ar_run ar → Q (kv (ar_base ar)) h) →
  wp (kernel_heap_page_from_pointer (kv p)) Q h.
Proof.
  intros Hr Hp HN HS. unfold kernel_heap_page_from_pointer. wp_steps.
  set (I := λ (n : nat) (page : Z) (s' : hstate P), s' = h ∧ ∃ A1 A2, A = A1 ++ A2 ∧
    page = arena_head A2 ∧ n = length A2 ∧ (∀ ar, ar ∈ A1 → page_of p ∉ ar_run ar)).
  apply (wp_whileM _ _ _ I Q (length A)).
  - by apply arenas_fuel.
  - split; [done|]. exists [], A. split; [done|]. split; [apply Hr|]. split; [done|].
    by intros ar ?%not_elem_of_nil.
  - intros n page s' (-> & A1 & A2 & -> & -> & -> & Hno). destruct A2 as [|ar A2]; cbn [arena_head].
    { apply wp_ret, HN. by rewrite app_nil_r. }
    assert (ar ∈ A1 ++ ar :: A2) as Hin by set_solver.
    destruct (arena_addr _ _ _ Hr Hin) as [Hab Ham]. rewrite kv_nz by lia.
    destruct (arenas_mid _ _ _ _ (hr_arenas _ _ Hr)) as [Ha _]. pose proof (ao_pages _ _ _ Ha).
    wp_step. hl (ar_base ar + 8). rewrite (ao_count _ _ _ Ha). cbn zeta.
    rewrite u64_arena_end by done.
    destruct ((kv (ar_base ar) <=? kv p) && _) eqn:Hc.
    + apply andb_true_iff in Hc as [Hc1 Hc2]. bool_to_prop. unfold kv in Hc1, Hc2.
      wp_step. hl (ar_base ar). rewrite (ao_magic _ _ _ Ha), Z.eqb_refl. apply wp_ret.
      eapply HS; [done|]. apply page_of_run; [apply Ha|lia].
    + wp_step. hl (ar_base ar + 16). rewrite (ao_next _ _ _ Ha). apply wp_ret.
      exists (length A2). split; [cbn; lia|]. split; [done|].
      exists (A1 ++ [ar]), A2. split; [by rewrite <- app_assoc|]. split; [done|]. split; [done|].
      intros ar' [Hb| ->%list_elem_of_singleton]%elem_of_app; [by apply Hno|].
      intros (k & Hk & Hkb)%elem_of_run. unfold page_of, PAGE_SIZE, kv in *.
      apply andb_false_iff in Hc as [Hc|Hc]; bool_to_prop; Z.div_mod_to_equations; lia.
Qed.

(** The arena after a free. *)
Lemma arena_release mem mem' next ar pre sz post :
  arena_ok mem next ar → ar_blocks ar = pre ++ (sz, false) :: post →
  blocks_ok mem' (ar_first ar) (bs_free pre sz post) →
  (∀ x, x ∉ hdrs (ar_first ar) (ar_blocks ar) → mrd mem' x = mrd mem x) →
  let ar' := Arena (ar_base ar) (ar_pages ar) (bs_free pre sz post) in
  bend (ar_first ar) (bs_free pre sz post) = bend (ar_first ar) (ar_blocks ar) →
  arena_ok mem' next ar' ∧ (∀ x, page_of x ∉ ar_run ar → mrd mem' x = mrd mem x).
Proof.
  intros Ha Hbl Hok Hf ar' He'. pose proof (ao_end _ _ _ Ha) as He.
  pose proof (bo_sizes _ _ _ (ao_blocks _ _ _ Ha)) as Hsz.
  assert (∀ x, ¬ (ar_first ar ≤ x < ar_base ar + ar_pages ar * PAGE_SIZE) → mrd mem' x = mrd mem x) as Hout.
  { intros x Hx. apply Hf. intros Hh%hdrs_bounds; [|done]. rewrite He in Hh. lia. }
  split.
  - pose proof Ha as [? ? ? ? ? ? ? _ _ Hco]. unfold ar_first in Hout.
    split; cbn; rewrite ?Hout by lia; try done.
    + change (ar_first ar') with (ar_first ar). by rewrite He'.
    + apply coalesced_spec, coalesced_free. rewrite <- Hbl. by apply coalesced_spec.
  - intros x Hx. apply Hout. intros Hr. apply Hx, page_of_run; [apply Ha|]. unfold ar_first in Hr. lia.
Qed.

Lemma bend_free a pre sz post :
  bend a (bs_free pre sz post) = bend a (pre ++ (sz, false) :: post).
Proof.
  unfold bs_free.
  assert (∃ sz1 post1, merge_next sz post = (sz1, post1) ∧
    ∀ a, bend (a + SIZEOF_BLOCK + sz1) post1 = bend (a + SIZEOF_BLOCK + sz) post)
    as (sz1 & post1 & -> & He).
  { destruct post as [|[sz2 []] post']; cbn [merge_next]; do 2 eexists; (split; [done|]); try done.
    intros a'. cbn [bend]. f_equal. lia. }
  destruct pre as [|[sz0 f0] pre _] using rev_ind; [cbn; apply He|].
  rewrite reverse_snoc. rewrite <- app_assoc, !bend_app. cbn [app].
  destruct f0; cbn [merge_prev]; rewrite ?reverse_cons, ?reverse_involutive, ?bend_app; cbn [bend].
  - rewrite <- He. f_equal. lia.
  - apply He.
Qed.

Lemma free_sums pre sz post :
  zsum blk_used (bs_free pre sz post) = zsum blk_used (pre ++ (sz, false) :: post) - sz ∧
  zsum blk_free (bs_free pre sz post) + SIZEOF_BLOCK * Z.of_nat (length (bs_free pre sz post)) =
  zsum blk_free (pre ++ (sz, false) :: post) + sz
    + SIZEOF_BLOCK * Z.of_nat (length (pre ++ (sz, false) :: post)).
Proof.
  assert (zsum blk_used (bs_free pre sz post) = zsum blk_used (pre ++ (sz, false) :: post) - sz) as Hu.
  { unfold bs_free.
    assert (∃ sz1 post1, merge_next sz post = (sz1, post1) ∧ zsum blk_used post1 = zsum blk_used post)
      as (sz1 & post1 & -> & He).
    { destruct post as [|[sz2 []] post']; cbn [merge_next]; do 2 eexists; done. }
    destruct pre as [|[sz0 f0] pre _] using rev_ind.
    - cbn [reverse rev_append merge_prev app]. rewrite !zsum_cons, He. unfold blk_used at 1 3. cbn. lia.
    - rewrite reverse_snoc, <- app_assoc, zsum_app. cbn [app]. rewrite !zsum_cons.
      destruct f0; cbn [merge_prev];
        rewrite ?reverse_cons, ?reverse_involutive, ?zsum_app, !zsum_cons, He;
        unfold blk_used; cbn; unfold zsum; cbn; lia. }
  split; [done|]. pose proof (bend_free 0 pre sz post) as Hb. rewrite !bend_sums, Hu in Hb. lia.
Qed.

Record released A h (p n : Z) A' h' : Prop := {
  rl_rep : heap_rep A' h';
  rl_held : hheld h' = hheld h;
  rl_live : live A ≡ₚ (p, n) :: live A';
  rl_kept : kept A (hmem h) (hmem h');
}.

Lemma live_split a bs p n : sizes_ok bs → (p, n) ∈ live_blocks a bs →
  ∃ pre post, bs = pre ++ (n, false) :: post ∧ p = bend a pre + SIZEOF_BLOCK.
Proof.
  revert a. induction bs as [|[sz fr] bs IH]; intros a Hs; cbn; [by intros ?%not_elem_of_nil|].
  apply sizes_cons in Hs as [_ Hs]. intros [Hin|Hin]%elem_of_app.
  - destruct fr; [by apply not_elem_of_nil in Hin|]. apply list_elem_of_singleton in Hin.
    injection Hin as -> ->. by exists [], bs.
  - destruct (IH _ Hs Hin) as (pre & post & -> & ->). by exists ((sz, fr) :: pre), post.
Qed.

Lemma live_arena A h p n : heap_rep A h → (p, n) ∈ live A →
  (16 ≤ n ∧ 0 < p < 2 ^ 40) ∧
  ∀ A1 ar A2, A = A1 ++ ar :: A2 → page_of p ∈ ar_run ar →
    (p, n) ∈ live_blocks (ar_first ar) (ar_blocks ar).
Proof.
  intros Hr Hin. apply list_elem_of_bind in Hin as (ar0 & Hin & Har0).
  destruct (arenas_in _ _ _ (hr_arenas _ _ Hr) Har0) as [nx Ha0].
  destruct (live_blocks_bounds _ _ _ _ (bo_sizes _ _ _ (ao_blocks _ _ _ Ha0)) Hin) as (H1 & H2 & H3 & _).
  pose proof (live_in_run _ _ _ _ _ p Ha0 Hin ltac:(lia)) as Hpg0.
  split.
  { destruct (arena_addr _ _ _ Hr Har0). pose proof (ao_pages _ _ _ Ha0).
    rewrite (ao_end _ _ _ Ha0) in H3. unfold ar_first, PAGE_SIZE in *. lia. }
  intros A1 ar A2 -> Hpg. pose proof (hr_nodup _ _ Hr) as Hnd.
  rewrite all_pages_app in Hnd. cbn in Hnd. fold (all_pages A2) in Hnd.
  apply NoDup_app in Hnd as (_ & Hd & (_ & Hd2 & _)%NoDup_app).
  apply elem_of_app in Har0 as [Har0|[->|Har0]%elem_of_cons]; [exfalso|done|exfalso].
  - apply (Hd (page_of p)); [apply list_elem_of_bind; eauto|]. apply elem_of_app. by left.
  - apply (Hd2 (page_of p) Hpg). apply list_elem_of_bind. eauto.
Qed.

Lemma live_page A h p n : heap_rep A h → (p, n) ∈ live A →
  ∃ ar, ar ∈ A ∧ page_of p ∈ ar_run ar.
Proof.
  intros Hr Hin. pose proof (live_arena _ _ _ _ Hr Hin) as [[Hn _] _].
  apply list_elem_of_bind in Hin as (ar & Hin & Har). exists ar. split; [done|].
  destruct (arenas_in _ _ _ (hr_arenas _ _ Hr) Har) as [nx Ha].
  eapply live_in_run; [done|done|lia].
Qed.

Lemma wp_release_block A1 ar A2 pre sz post (Q : unit → hstate P → Prop) h held :
  heap_rep (A1 ++ ar :: A2) h → hheld h = L_heap :: held →
  ar_blocks ar = pre ++ (sz, false) :: post →
  let b := bend (ar_first ar) pre in
  let ar' := Arena (ar_base ar) (ar_pages ar) (bs_free pre sz post) in
  (∀ h', released (A1 ++ ar :: A2) (hset_held_to held h) (b + SIZEOF_BLOCK) sz
           (A1 ++ ar' :: A2) h' → Q () h') →
  wp (hstore (b_is_free (kv b)) 1 ;;
      size ← hload (b_size (kv b));
      modify (λ h, h <| kernel_heap_used_space := u64 (kernel_heap_used_space h - size) |>
                     <| kernel_heap_free_space := u64 (kernel_heap_free_space h + size) |>) ;;
      kernel_heap_coalesce (kv b) ;;
      unlock_heap) Q h.
Proof.
  intros Hr Hh Hbl b ar' HQ.
  assert (ar ∈ A1 ++ ar :: A2) as Hin by set_solver.
  destruct (arenas_mid _ _ _ _ (hr_arenas _ _ Hr)) as [Ha _].
  pose proof (ao_blocks _ _ _ Ha) as Hok. rewrite Hbl in Hok.
  pose proof (blocks_focus _ _ _ _ _ _ Hok) as (Hb1 & Hbm & Hz & Hzm & Hend). fold b in Hb1, Hbm, Hend.
  pose proof Hok as [Hsz Hseg Hlo Hal Hhi].
  pose proof (seg_mark _ _ _ _ _ _ true _ _ Hsz Hseg) as Hseg1. fold b in Hseg1.
  apply seg_focus in Hseg as (_ & [Hh1 _ _ _] & _). fold b in Hh1.
  wp_step. hs (b + 8). wp_step. hl b. rewrite hmem_hset, mrd_insert_ne, Hh1 by lia. wp_steps.
  set (mem1 := <[b + 8 := 1]> (hmem h)) in *.
  match goal with |- wp _ _ ?x => set (h2 := x) end.
  assert (hmem h2 = mem1) as Hm2 by apply hmem_hset.
  apply (wp_coalesce (ar_first ar) pre sz post); rewrite Hm2.
  { split; try done.
    - apply sizes_app in Hsz as [? [? ?]%sizes_cons]. apply sizes_app. by rewrite sizes_cons.
    - by rewrite bend_app in *. }
  intros mem' Hok' Hf'.
  assert (∀ x, x ∉ hdrs (ar_first ar) (ar_blocks ar) → mrd mem' x = mrd (hmem h) x) as Hf.
  { intros x Hx. rewrite Hbl in Hx. rewrite Hf'.
    - unfold mem1. apply mrd_insert_ne. rewrite hdrs_app in Hx. cbn in Hx. fold b in Hx.
      rewrite not_elem_of_app, !not_elem_of_cons in Hx. intros <-. tauto.
    - rewrite hdrs_app in Hx |- *. done. }
  pose proof (bend_free (ar_first ar) pre sz post) as Hbf. rewrite <- Hbl in Hbf.
  destruct (arena_release _ _ _ _ _ _ _ Ha Hbl Hok' Hf Hbf) as [Ha' Hpf]. fold ar' in Ha'.
  pose proof (arena_sums _ _ _ Ha) as (_ & ? & ? & ? & _). pose proof (arena_counters _ _ _ Hr Hin).
  pose proof (arena_sums _ _ _ Ha') as (_ & ? & ? & ? & _).
  destruct (free_sums pre sz post) as [Hsu Hsf]. rewrite <- Hbl in Hsu, Hsf.
  change (zsum blk_used (bs_free pre sz post)) with (ar_used ar') in Hsu.
  change (zsum blk_used (ar_blocks ar)) with (ar_used ar) in Hsu.
  change (zsum blk_free (bs_free pre sz post)) with (ar_free ar') in Hsf.
  change (zsum blk_free (ar_blocks ar)) with (ar_free ar) in Hsf.
  assert (heap_rep (A1 ++ ar' :: A2) (hset mem' h2)) as Hr'.
  { eapply (rep_update A1 ar ar' A2 mem' h); try done.
    - cbn [h_ps]. unfold h2. cbn. unfold hmachine. cbn. by rewrite !sub_get_set, sub_set_set.
    - cbn [kernel_heap_used_space h2 hset setf]. rewrite u64_small; lia.
    - cbn [kernel_heap_free_space h2 hset setf]. unfold ar_extra. cbn [ar_blocks ar'].
      unfold ar_extra in *. cbn [ar_blocks ar'] in *. unfold SIZEOF_BLOCK in *. rewrite u64_small; lia. }
  apply (wp_unlock_heap held).
  { unfold hheld. rewrite hset_held. change (hmachine h2) with (hmachine (hset mem1 h)).
    by rewrite hset_held. }
  apply HQ. split.
  - by apply rep_held.
  - by rewrite !held_held.
  - rewrite !live_mid. cbn. rewrite Hbl. rewrite (live_free (ar_first ar)). done.
  - rewrite !held_mem, hmem_hset. eapply kept_update; [apply Hr|apply Hr|done|].
    intros p n x Hp Hx. apply Hf. eapply live_not_hdr; [by rewrite Hbl|done|done].
Qed.

Lemma kfree_live A p n h :
  heap_rep A h → can_lock L_heap (hheld h) = true → (p, n) ∈ live A →
  wp (kfree (kv p)) (λ _ h', ∃ A', released A h p n A' h') h.
Proof.
  intros Hr Hlk Hin. destruct (live_arena _ _ _ _ Hr Hin) as [[Hn Hp] Hua].
  unfold kfree. rewrite kv_nz by lia. wp_step. apply wp_lock_heap; [done|].
  pose proof (rep_held A h (L_heap :: hheld h) Hr) as Hr1. set (h1 := hset_held_to _ h) in *.
  assert (hheld h1 = L_heap :: hheld h) as Hh1 by apply held_held.
  wp_step. apply (wp_page_from_pointer A p); [done|lia|..].
  { intros Hno. destruct (live_page _ _ _ _ Hr Hin) as (ar & Har & Hpg). by destruct (Hno ar Har). }
  intros A1 ar A2 -> Hpg. specialize (Hua A1 ar A2 eq_refl Hpg).
  pose proof (arena_addr _ _ ar Hr ltac:(set_solver)). rewrite kv_nz by lia.
  destruct (arenas_mid _ _ _ _ (hr_arenas _ _ Hr1)) as [Ha _].
  destruct (live_split _ _ _ _ (bo_sizes _ _ _ (ao_blocks _ _ _ Ha)) Hua) as (pre & post & Hbl & ->).
  pose proof (ao_blocks _ _ _ Ha) as Hok. rewrite Hbl in Hok.
  pose proof (blocks_focus _ _ _ _ _ _ Hok) as (Hb1 & Hbm & _ & _ & Hend).
  pose proof Hok as [_ Hseg Hlo Hal Hhi]. apply seg_focus in Hseg as (_ & [_ Hfree _ _] & _).
  set (b := bend (ar_first ar) pre) in *. cbn zeta.
  replace (kv (b + SIZEOF_BLOCK) - SIZEOF_BLOCK) with (kv b) by (unfold kv; lia).
  wp_step. hl (b + 8). rewrite Hfree. cbn [Z.b2z Z.eqb negb].
  apply (wp_release_block A1 ar A2 pre n post _ h1 (hheld h)); try done.
  intros h' [Hrep Hheld Hlive Hkept].
  assert (hheld h' = hheld h) as Hhe by (rewrite Hheld; apply held_held).
  eexists. split; [done|done|done|]. unfold h1 in Hkept. by rewrite !held_mem in Hkept.
Qed.

(** Pointers that are not the heap's are ignored. *)
Lemma kfree_foreign A p h :
  heap_rep A h → can_lock L_heap (hheld h) = true → 0 ≤ p < 2 ^ 47 →
  (∀ ar, ar ∈ A → page_of p ∉ ar_run ar) →
  wp (kfree (kv p)) (λ _ h', refused A h h') h.
Proof.
  intros Hr Hlk Hp Hno. unfold kfree. rewrite kv_nz by lia. wp_step. apply wp_lock_heap; [done|].
  pose proof (rep_held A h (L_heap :: hheld h) Hr) as Hr1. set (h1 := hset_held_to _ h) in *.
  assert (hheld h1 = L_heap :: hheld h) as Hh1 by apply held_held.
  wp_step. apply (wp_page_from_pointer A p); [done|lia|..].
  2: { intros A1 ar A2 -> Hpg. destruct (Hno ar); [set_solver|done]. }
  intros _. cbn [Z.eqb]. wp_step. apply (wp_unlock_heap (hheld h)); [done|].
  unfold heap_warn, emit. wp_steps. set (h2 := hset_held_to (hheld h) h1).
  match goal with |- refused A h (sub_set (sub_set ?m _) _) => change (refused A h (hmach m h2)) end.
  split.
  - apply rep_mach; [by apply rep_held|done|done].
  - rewrite hheld_hmach. apply held_held.
  - rewrite hmem_hmach. cbn. change (m_mem _) with (hmem h2). unfold h2, h1. by rewrite !held_mem.
Qed.

End ops.
