(* ===== verification/HeapClaims.v ===== *)
(** * The kernel heap on top of the page allocator: the page allocator
    implements the interface the heap relies on, the heap's life from
    [kernel_heap_init] on, and the heap's claims. *)

From S2P Require Import Prelude Machine PageAlloc PageAllocSpec PageAllocRefine.
From S2P Require Import Heap HeapSeg HeapSpec HeapInv HeapOps.

Open Scope kernel_scope.

(** ** The page allocator is a page source *)

#[export] Instance pa_page_source : PageSource pastate := {
  ps_sub := sub_machine_pa;
  ps_alloc := page_alloc_contiguous;
}.

Lemma pa_frame s m' : pa_inv s →
  m_mmu_enabled m' = m_mmu_enabled (pa_machine s) →
  (∀ a, ¬ is_Some (owned s (page_of a)) → mrd (m_mem m') a = mrd (pa_mem s) a) →
  pa_inv (s <| pa_machine := m' |>).
Proof.
  intros [fl Hr] _ Hf. exists fl.
  assert (chain (m_mem m') (page_free_list_pa s) fl); [|destruct Hr as [[]]; by split].
  eapply chain_frame; [apply Hr|]. intros p Hp. apply Hf. intros [r Ho].
  rewrite (page_of_page p) in Ho by (by eapply rep_free_aligned).
  apply owned_managed in Ho as (_ & Hst & _). apply (rep_free _ _ Hr) in Hp as [_ Hp].
  by rewrite Hst in Hp.
Qed.

#[export, refine] Instance pa_page_source_laws : PageSourceLaws pastate := {
  ps_ok := pa_inv;
  ps_owned := λ s q, is_Some (owned s q);
}.
Proof.
  - intros s p [fl Hr] [r (Hm & _)%owned_managed]. eapply managed_ram; [apply Hr|done].
  - intros s n Hn [fl Hr] Hlk. eapply wp_mono; [by apply (page_alloc_contiguous_spec fl)|].
    intros r s' [(-> & -> & _)|(Hn' & [Hi He Ho Hz Hf] & Hfree & _)].
    { split; [by eexists|]. split; [done|]. by left. }
    split; [done|]. split; [apply He|]. right. split; [done|].
    assert (∀ q, is_free s q → owned s q = None) as Hnone.
    { intros q Hq. apply (owned_None_free _ _ _ Hr); [apply Hq|done]. }
    split; [|split].
    + intros q Hq [v Hv]. by rewrite (Hnone q (Hfree q Hq)) in Hv.
    + intros q. rewrite Ho. case_decide; [|tauto]. by split; [left|].
    + intros a [v Hv]. apply Hf. intros Hfr. by rewrite (Hnone _ Hfr) in Hv.
  - intros s m' Hi He Hf. split; [by apply pa_frame|]. done.
Defined.

Abbreviation kheap := (hstate pastate).

(** ** Disjointness of live payloads *)

Definition disj (x y : Z * Z) : Prop := x.1 + x.2 ≤ y.1 ∨ y.1 + y.2 ≤ x.1.

Fixpoint all_disjoint (l : list (Z * Z)) : Prop :=
  match l with
  | [] => True
  | x :: l' => Forall (disj x) l' ∧ all_disjoint l'
  end.

Lemma all_disjoint_app l1 l2 :
  all_disjoint l1 → all_disjoint l2 → (∀ x y, x ∈ l1 → y ∈ l2 → disj x y) →
  all_disjoint (l1 ++ l2).
Proof.
  induction l1 as [|x l1 IH]; [done|]. intros [Hx H1] H2 Hc. split.
  - apply Forall_app. split; [done|]. apply Forall_forall. intros y Hy. apply Hc; set_solver.
  - apply IH; [done|done|]. intros; apply Hc; set_solver.
Qed.

Lemma live_blocks_disjoint a bs : sizes_ok bs → all_disjoint (live_blocks a bs).
Proof.
  revert a. induction bs as [|[sz fr] bs IH]; intros a Hs; [done|].
  apply sizes_cons in Hs as [_ Hs]. cbn. apply all_disjoint_app; [by destruct fr|by apply IH|].
  intros x [q m] Hx Hy. destruct fr; [by apply not_elem_of_nil in Hx|].
  apply list_elem_of_singleton in Hx as ->.
  destruct (live_blocks_bounds _ _ _ _ Hs Hy) as (? & _). left. cbn. lia.
Qed.

Lemma live_disjoint A (h : kheap) : heap_rep A h → all_disjoint (live A).
Proof.
  intros [_ _ HA Hnd _ _ _ _]. revert HA Hnd. induction A as [|ar A IH]; [done|].
  intros [Ha HA] Hnd. change (all_pages (ar :: A)) with (ar_run ar ++ all_pages A) in Hnd.
  apply NoDup_app in Hnd as (_ & Hd & Hnd). apply all_disjoint_app; [|by apply IH|].
  - apply live_blocks_disjoint, Ha.
  - intros [p n] [q m] Hx Hy. apply list_elem_of_bind in Hy as (ar' & Hy & Har').
    destruct (arenas_in _ _ _ HA Har') as [nx Ha'].
    destruct (live_blocks_bounds _ _ _ _ (bo_sizes _ _ _ (ao_blocks _ _ _ Ha)) Hx) as (_ & ? & _ & _).
    destruct (live_blocks_bounds _ _ _ _ (bo_sizes _ _ _ (ao_blocks _ _ _ Ha')) Hy) as (_ & ? & _ & _).
    unfold disj. cbn. destruct (decide (p + n ≤ q ∨ q + m ≤ p)) as [|Hno]; [done|]. exfalso.
    set (z := p `max` q). apply (Hd (page_of z)).
    + eapply live_in_run; [done|done|lia].
    + apply list_elem_of_bind. exists ar'. split; [|done]. eapply live_in_run; [done|done|lia].
Qed.

(** ** The client writes its payloads *)

Lemma rep_store A (h : kheap) p n x v :
  heap_rep A h → (p, n) ∈ live A → p ≤ x < p + n → heap_rep A (hset (<[x := v]> (hmem h)) h).
Proof.
  intros Hr Hin Hx. apply list_elem_of_bind in Hin as (ar & Hin & Har).
  apply list_elem_of_split in Har as (A1 & A2 & ->).
  destruct (arenas_mid _ _ _ _ (hr_arenas _ _ Hr)) as [Ha _].
  pose proof (live_in_run _ _ _ _ _ _ Ha Hin Hx) as Hpg.
  pose proof (bo_sizes _ _ _ (ao_blocks _ _ _ Ha)) as Hsz.
  pose proof (live_not_hdr _ _ _ _ _ Hsz Hin Hx) as Hnh.
  destruct (live_blocks_bounds _ _ _ _ Hsz Hin) as (Hlo & _).
  eapply (rep_update A1 ar ar A2 (<[x := v]> (hmem h)) h); try done; try lia.
  - pose proof Ha as [? ? ? ? ? ? ? [] ? ?]. unfold ar_first in Hlo.
    split; rewrite ?mrd_insert_ne by lia; try done. split; try done.
    eapply seg_frame; [done|]. intros y Hy. apply mrd_insert_ne. congruence.
  - intros y Hy. apply mrd_insert_ne. congruence.
  - cbn [kernel_heap_used_space hset setf]. lia.
  - cbn [kernel_heap_free_space hset setf]. lia.
Qed.

(** ** Initialisation *)

Lemma rep_empty (h : kheap) : pa_inv (h_ps h) →
  heap_rep [] (h <| kernel_heap_pages := 0 |> <| kernel_heap_pages_used := 0 |>
                 <| kernel_heap_free_space := 0 |> <| kernel_heap_used_space := 0 |>
                 <| kernel_heap_allocations := 0 |> <| kernel_heap_failed := 0 |>).
Proof. intros Hi. split; try done; [constructor|]. by intros q ?%not_elem_of_nil. Qed.

Lemma kernel_heap_init_spec (h : kheap) :
  pa_inv (h_ps h) → can_lock L_page (hheld h) = true →
  wp kernel_heap_init (λ _ h', ∃ A, heap_rep A h' ∧ live A = [] ∧ hheld h' = hheld h) h.
Proof.
  intros Hi Hlk. unfold kernel_heap_init. wp_steps.
  apply (wp_add_arena []); [by apply rep_empty|done|lia|..].
  - cbn [Z.eqb whenM]. unfold heap_warn, emit. wp_steps. exists [].
    match goal with |- heap_rep [] (sub_set (sub_set ?m _) ?x) ∧ _ =>
      change (heap_rep [] (hmach m x) ∧ live [] = [] ∧ hheld (hmach m x) = hheld h) end.
    split; [|split; [done|by rewrite hheld_hmach]]. apply rep_mach; [|done|done].
    pose proof (rep_empty h Hi) as []. by split.
  - intros _ ar h' [[base ->] Hr Hh _].
    pose proof (arena_addr _ _ (fresh_arena base 1) Hr ltac:(set_solver)).
    rewrite kv_nz by lia. cbn [whenM]. apply wp_ret. exists [fresh_arena base 1].
    split; [done|]. split; [done|]. by rewrite Hh.
Qed.

(** ** The heap's life *)

(** [kernel_heap_init] on a booted page allocator, then allocations, frees of
    live payloads, frees of foreign pointers and client stores into live
    payloads, in any order. *)
Inductive heap_reach : kheap → Prop :=
  | hreach_init h0 h :
      pa_inv (h_ps h0) → hheld h0 = [] → kernel_heap_init h0 = Some ((), h) → heap_reach h
  | hreach_kmalloc h size r h' :
      heap_reach h → 0 ≤ size < 2 ^ 61 → kmalloc size h = Some (r, h') → heap_reach h'
  | hreach_kfree h A p n h' :
      heap_reach h → heap_rep A h → (p, n) ∈ live A → kfree (kv p) h = Some ((), h') →
      heap_reach h'
  | hreach_kfree_foreign h A p h' :
      heap_reach h → heap_rep A h → 0 ≤ p < 2 ^ 47 → (∀ ar, ar ∈ A → page_of p ∉ ar_run ar) →
      kfree (kv p) h = Some ((), h') → heap_reach h'
  | hreach_store h A p n x v :
      heap_reach h → heap_rep A h → (p, n) ∈ live A → p ≤ x < p + n →
      heap_reach (hset (<[x := v]> (hmem h)) h).

Lemma heap_reach_rep h : heap_reach h → ∃ A, heap_rep A h ∧ hheld h = [].
Proof.
  induction 1 as [h0 h Hi Hh Hs|h size r h' _ IH Hsz Hs|h A p n h' _ IH Hr Hin Hs
                 |h A p h' _ IH Hr Hp Hno Hs|h A p n x v _ IH Hr Hin Hx].
  - destruct (wp_run _ _ _ _ _ (kernel_heap_init_spec h0 Hi ltac:(by rewrite Hh)) Hs)
      as (A & Hr & _ & Hh'). exists A. by rewrite Hh'.
  - destruct IH as (A & Hr & Hh).
    destruct (wp_run _ _ _ _ _ (kmalloc_spec A size h Hr ltac:(by rewrite Hh) Hsz) Hs)
      as [(_ & [Hr' Hh' _] & _)|(p & A' & _ & [Hr' Hh' _ _ _ _])].
    + exists A. by rewrite Hh'.
    + exists A'. by rewrite Hh'.
  - destruct IH as (A0 & _ & Hh).
    destruct (wp_run _ _ _ _ _ (kfree_live A p n h Hr ltac:(by rewrite Hh) Hin) Hs)
      as (A' & [Hr' Hh' _ _]). exists A'. by rewrite Hh'.
  - destruct IH as (A0 & _ & Hh).
    destruct (wp_run _ _ _ _ _ (kfree_foreign A p h Hr ltac:(by rewrite Hh) Hp Hno) Hs)
      as [Hr' Hh' _]. exists A. by rewrite Hh'.
  - destruct IH as (A0 & _ & Hh). exists A. split; [by eapply rep_store|].
    unfold hheld. by rewrite hset_held.
Qed.

(** Space accounting of the whole heap. *)
Lemma heap_accounting A (h : kheap) : heap_rep A h →
  kernel_heap_used_space h + kernel_heap_free_space h =
  zsum (λ ar, ar_pages ar * PAGE_SIZE - 80) A.
Proof.
  intros Hr. rewrite (hr_used _ _ Hr), (hr_free _ _ Hr). pose proof (hr_arenas _ _ Hr) as HA.
  clear Hr. induction A as [|ar A IH]; [done|]. destruct HA as [Ha HA]. rewrite !zsum_cons.
  pose proof (arena_sums _ _ _ Ha) as [? _]. specialize (IH HA). lia.
Qed.

(** ** Claims *)

(** C4.  [kmalloc] on a well-formed heap, for any size below 2^61, returns.
    Either it returns null, memory and arenas are unchanged, and the size was
    zero or no free block of the heap could serve it (and the page allocator
    had no run of pages); or it returns a 16-byte aligned payload of at least
    the requested size, the live payloads are exactly the old ones and the new
    one, the contents of the old ones are unchanged, and the heap is well
    formed again. *)
Theorem kmalloc_correct A size (h : kheap) :
  heap_rep A h → can_lock L_heap (hheld h) = true → 0 ≤ size < 2 ^ 61 →
  ∃ r h', kmalloc size h = Some (r, h') ∧
    ((r = 0 ∧ refused A h h' ∧ (size = 0 ∨ no_fit A (aligned16 size))) ∨
     (∃ p A', r = kv p ∧ served (aligned16 size) A h p A' h')).
Proof. intros Hr Hlk Hs. by apply wp_elim, kmalloc_spec. Qed.

(** C5.  [kfree] of a live payload returns; the payload is no longer live, the
    others are untouched, and the heap, its free blocks merged, is well formed
    again.  [kfree] of a pointer outside the heap's arenas changes neither
    memory nor the heap. *)
Theorem kfree_correct A p (h : kheap) :
  heap_rep A h → can_lock L_heap (hheld h) = true → 0 ≤ p < 2 ^ 47 →
  (∀ n, (p, n) ∈ live A →
     ∃ A' h', kfree (kv p) h = Some ((), h') ∧ released A h p n A' h') ∧
  ((∀ ar, ar ∈ A → page_of p ∉ ar_run ar) →
     ∃ h', kfree (kv p) h = Some ((), h') ∧ refused A h h').
Proof.
  intros Hr Hlk Hp. split.
  - intros n Hin. destruct (wp_elim _ _ _ (kfree_live A p n h Hr Hlk Hin)) as ([] & h' & Hs & A' & Hrel).
    by exists A', h'.
  - intros Hno. destruct (wp_elim _ _ _ (kfree_foreign A p h Hr Hlk Hp Hno)) as ([] & h' & Hs & Href).
    by exists h'.
Qed.

(** C6.  In every state the heap reaches, the live payloads are pairwise
    disjoint, at least 16 bytes long and 16-byte aligned, inside pages the page
    allocator has handed to the heap; no two adjacent blocks are free; used and
    free space add up to the usable bytes of the arenas, and no lock is held. *)
Theorem heap_always_well_formed h : heap_reach h →
  ∃ A, heap_rep A h ∧ hheld h = [] ∧ all_disjoint (live A) ∧
    (∀ p n, (p, n) ∈ live A → 16 ≤ n ∧ p mod 16 = 0 ∧ is_Some (owned (h_ps h) (page_of p))) ∧
    (∀ ar, ar ∈ A → no_adjacent_free (ar_blocks ar)) ∧
    kernel_heap_used_space h + kernel_heap_free_space h =
      zsum (λ ar, ar_pages ar * PAGE_SIZE - 80) A.
Proof.
  intros (A & Hr & Hh)%heap_reach_rep. exists A. split; [done|]. split; [done|].
  split; [by eapply live_disjoint|]. split; [|split; [|by apply heap_accounting]].
  - intros p n Hin. destruct (live_page _ _ _ _ Hr Hin) as (ar1 & Har1 & Hpg).
    assert (is_Some (owned (h_ps h) (page_of p))) as Hown.
    { apply (hr_owned _ _ Hr), list_elem_of_bind. eauto. }
    apply list_elem_of_bind in Hin as (ar & Hin & Har).
    destruct (arenas_in _ _ _ (hr_arenas _ _ Hr) Har) as [nx Ha].
    pose proof (ao_blocks _ _ _ Ha) as Hb.
    destruct (live_blocks_bounds _ _ _ _ (bo_sizes _ _ _ Hb) Hin) as (_ & ? & _ & Hal).
    split; [done|]. split; [|done]. apply Hal, Hb.
  - intros ar Har. destruct (arenas_in _ _ _ (hr_arenas _ _ Hr) Har) as [nx Ha]. apply Ha.
Qed.

(** ** Witnesses, on the four-page machine *)

Definition heap0 : kheap := HState pa_boot 0 0 0 0 0 0.
Definition heap_boot : kheap :=
  match kernel_heap_init heap0 with Some (_, h) => h | None => heap0 end.
(** One allocation of 100 bytes. *)
Definition heap_one : kheap :=
  match kmalloc 100 heap_boot with Some (_, h) => h | None => heap_boot end.

Lemma heap_boot_init : kernel_heap_init heap0 = Some ((), heap_boot).
Proof.
  destruct (wp_elim _ _ _ (kernel_heap_init_spec heap0 (ok_inv _ pa_boot_ok) (ok_lock _ pa_boot_ok)))
    as ([] & h & Hs & _). unfold heap_boot. rewrite Hs. reflexivity.
Qed.

Lemma heap_boot_reach : heap_reach heap_boot.
Proof.
  apply (hreach_init heap0); [apply pa_boot_ok| |apply heap_boot_init].
  vm_compute. reflexivity.
Qed.

Lemma kmalloc_correct_witness :
  ∃ A A' p h', heap_rep A heap_boot ∧ kmalloc 100 heap_boot = Some (kv p, h') ∧
    served 112 A heap_boot p A' h'.
Proof.
  destruct (heap_reach_rep _ heap_boot_reach) as (A & Hr & Hh).
  destruct (kmalloc_correct A 100 heap_boot Hr) as (r & h' & Hs & Hres);
    [rewrite Hh; reflexivity|lia|].
  assert (negb <$> ((λ x, x.1 =? 0) <$> kmalloc 100 heap_boot) = Some true) as Hnz
    by (vm_compute; reflexivity).
  rewrite Hs in Hnz. cbn in Hnz.
  destruct Hres as [(-> & _)|(p & A' & -> & Hsv)]; [done|].
  exists A, A', p, h'. split; [exact Hr|]. split; [exact Hs|]. exact Hsv.
Defined.

Lemma kfree_correct_witness :
  ∃ h A A' p n h', heap_rep A h ∧ (p, n) ∈ live A ∧
    kfree (kv p) h = Some ((), h') ∧ released A h p n A' h'.
Proof.
  destruct (heap_reach_rep _ heap_boot_reach) as (A0 & Hr0 & Hh0).
  destruct (wp_elim _ _ _ (kmalloc_spec A0 100 heap_boot Hr0 ltac:(rewrite Hh0; reflexivity) ltac:(lia)))
    as (r & h & Hs & Hres).
  assert (negb <$> ((λ x, x.1 =? 0) <$> kmalloc 100 heap_boot) = Some true) as Hnz
    by (vm_compute; reflexivity).
  rewrite Hs in Hnz. cbn in Hnz.
  destruct Hres as [(-> & _)|(p & A & -> & Hsv)]; [done|].
  destruct Hsv as [Hr Hh (n & _ & Hl) _ _ Hp].
  assert ((p, n) ∈ live A) as Hin by (rewrite Hl; apply elem_of_cons; left; reflexivity).
  destruct (live_arena _ _ _ _ Hr Hin) as [[_ Hp40] _].
  destruct (kfree_correct A p h Hr) as [Hlive _]; [rewrite Hh, Hh0; reflexivity|lia|].
  destruct (Hlive n Hin) as (A' & h' & Hf & Hrel).
  exists h, A, A', p, n, h'. split; [exact Hr|]. split; [exact Hin|]. split; [exact Hf|]. exact Hrel.
Defined.

Lemma heap_always_well_formed_witness :
  heap_reach heap_boot ∧ ∃ A, heap_rep A heap_boot ∧ all_disjoint (live A).
Proof.
  split; [exact heap_boot_reach|].
  destruct (heap_always_well_formed heap_boot heap_boot_reach) as (A & Hr & _ & Hd & _).
  exists A. split; [exact Hr|exact Hd].
Defined.

(** ** The size computation of [kmalloc] wraps around

    [kmalloc (2^64 - 1)] rounds the size up to zero and returns a payload, not
    null: the contract above stops at sizes below 2^61. *)
Lemma kmalloc_size_wraps :
  (λ x, x.1 =? 0) <$> kmalloc (2 ^ 64 - 1) heap_boot = Some false.
Proof. vm_compute. reflexivity. Qed.
