(* ===== verification/Task.v ===== *)
(** * Tasks (src/src/include/kernel/sched.h), intrusive FIFO queues and the
    wait queues of src/src/kernel/wait_queue.c.

    A [struct task *] is [option Z]: null, or the index of a slot of
    [tasks[MAX_TASKS]].  The queues of the kernel are threaded through link
    fields of the tasks; [qrep] relates such a queue to the list it stands for,
    and is used for wait queues and for run queues alike. *)

From S2P Require Import Prelude Machine.

Open Scope kernel_scope.

Definition TASK_STATE_RUNNING : Z := 0.
Definition TASK_STATE_READY : Z := 1.
Definition TASK_STATE_BLOCKED : Z := 2.
Definition TASK_STATE_DEAD : Z := 3.
Definition TASK_STATE_ZOMBIE : Z := 4.
Definition TASK_STATE_REAPING : Z := 5.
Definition TASK_NO_CPU : Z := 0xffffffff.
Definition SCHED_MAX_CPUS : Z := 4.
Definition TASK_GUARD_PAGES : Z := 1.
Definition TASK_STACK_PAGES : Z := 4.
Definition TASK_TOTAL_PAGES : Z := TASK_GUARD_PAGES + TASK_STACK_PAGES.
Definition MAX_TASKS : Z := 32.
Definition MAX_FILES_PER_TASK : Z := 16.
(** [~0UL], no parent and no init task. *)
Definition SCHED_NO_PARENT : Z := 2 ^ 64 - 1.

Abbreviation tptr := (option Z).

Record task_context : Type := TaskContext {
  x19 : Z; x20 : Z; x21 : Z; x22 : Z; x23 : Z; x24 : Z; x25 : Z; x26 : Z;
  x27 : Z; x28 : Z; x29 : Z; x30 : Z; sp : Z; tpidr_el0 : Z;
}.

#[export] Instance eta_task_context : Eta task_context := λ c,
  TaskContext (x19 c) (x20 c) (x21 c) (x22 c) (x23 c) (x24 c) (x25 c) (x26 c)
    (x27 c) (x28 c) (x29 c) (x30 c) (sp c) (tpidr_el0 c).

Definition context0 : task_context := TaskContext 0 0 0 0 0 0 0 0 0 0 0 0 0 0.

Record task : Type := Task {
  context : task_context;
  id : Z;
  state : Z;
  stack_base : Z;
  stack_size : Z;
  sleep_ticks : Z;
  kill_pending : Z;
  wake_pending : Z;
  current_cpu : Z;
  rq_cpu : Z;
  on_rq : Z;
  preempt_count : Z;
  name : option string;
  mm : Z;
  process : Z;
  parent_id : Z;
  exit_status : Z;
  next : tptr;
  rq_next : tptr;
  wait_next : tptr;
  files : gmap Z Z;
}.

#[export] Instance eta_task : Eta task := λ t,
  Task (context t) (id t) (state t) (stack_base t) (stack_size t) (sleep_ticks t)
    (kill_pending t) (wake_pending t) (current_cpu t) (rq_cpu t) (on_rq t) (preempt_count t)
    (name t) (mm t) (process t) (parent_id t) (exit_status t) (next t) (rq_next t)
    (wait_next t) (files t).

(** A cleared slot ([sched_clear_task]). *)
Definition task0 : task :=
  Task context0 0 0 0 0 0 0 0 0 0 0 0 None 0 0 0 0 None None None ∅.

(** [tasks[]]; a slot that was never written is zero. *)
Abbreviation tasktab := (gmap Z task).

Definition task_at (tab : tasktab) (i : Z) : task := default task0 (tab !! i).

Definition slot_ok (i : Z) : bool := (0 <=? i) && (i <? MAX_TASKS).

(** [*task] and [*task = ...] through a pointer. *)
Definition tget (p : tptr) : M tasktab task :=
  λ tab, match p with
         | Some i => if slot_ok i then Some (task_at tab i, tab) else None
         | None => None
         end.

Definition tupd (p : tptr) (f : task → task) : M tasktab unit :=
  λ tab, match p with
         | Some i => if slot_ok i then Some ((), <[i := f (task_at tab i)]> tab) else None
         | None => None
         end.

Lemma task_at_insert tab i j t :
  task_at (<[i := t]> tab) j = if decide (i = j) then t else task_at tab j.
Proof. unfold task_at. rewrite lookup_insert. by case_decide. Qed.

Lemma wp_tget i (Q : task → tasktab → Prop) tab :
  slot_ok i = true → Q (task_at tab i) tab → wp (tget (Some i)) Q tab.
Proof. unfold wp, tget. by intros ->. Qed.

Lemma wp_tupd i f (Q : unit → tasktab → Prop) tab :
  slot_ok i = true → Q () (<[i := f (task_at tab i)]> tab) → wp (tupd (Some i) f) Q tab.
Proof. unfold wp, tupd. by intros ->. Qed.

Lemma slot_ok_spec i : slot_ok i = true ↔ 0 ≤ i < 32.
Proof. unfold slot_ok, MAX_TASKS. rewrite andb_true_iff, Z.leb_le, Z.ltb_lt. done. Qed.

(** ** Intrusive queues *)

(** The queue with first and last element [head] and [tail] and successor
    function [nxt] stands for [l]. *)
Record qrep (nxt : Z → tptr) (hd tl : tptr) (l : list Z) : Prop := {
  q_head : hd = head l;
  q_tail : tl = last l;
  q_nodup : NoDup l;
  q_next : ∀ i x, l !! i = Some x → nxt x = l !! S i;
}.

Lemma qrep_nil nxt : qrep nxt None None [].
Proof. split; [done|done|constructor|done]. Qed.

Lemma qrep_frame nxt nxt' h t l :
  qrep nxt h t l → (∀ x, x ∈ l → nxt' x = nxt x) → qrep nxt' h t l.
Proof.
  intros [? ? ? Hn] Hf. split; try done. intros i x Hx. rewrite Hf; [by apply Hn|].
  by eapply list_elem_of_lookup_2.
Qed.

Lemma qrep_empty nxt h t l : qrep nxt h t l → (h = None ↔ l = []) ∧ (t = None ↔ l = []).
Proof.
  intros [-> -> _ _]. split; [by destruct l|]. rewrite last_None. done.
Qed.

(** Appending. *)
Lemma qrep_push nxt nxt' h t l x :
  qrep nxt h t l → x ∉ l →
  nxt' x = None → (∀ y, t = Some y → nxt' y = Some x) →
  (∀ y, y ≠ x → t ≠ Some y → nxt' y = nxt y) →
  qrep nxt' (match l with [] => Some x | _ => h end) (Some x) (l ++ [x]).
Proof.
  intros [Hh Ht Hnd Hn] Hx H1 H2 H3. split.
  - rewrite Hh. by destruct l.
  - by rewrite last_snoc.
  - apply NoDup_app. split; [done|]. split; [|apply NoDup_singleton].
    intros y Hy ->%list_elem_of_singleton. done.
  - intros i y Hy. destruct (decide (i < length l)%nat) as [Hi|Hi].
    + rewrite lookup_app_l in Hy by done. assert (y ∈ l) by (by eapply list_elem_of_lookup_2).
      destruct (decide (S i < length l)%nat) as [Hsi|Hsi].
      * rewrite lookup_app_l by done. rewrite <- (Hn i y Hy). apply H3; [by intros ->|].
        rewrite Ht, last_lookup. intros Hl.
        assert (i = pred (length l)) as Heq by (by eapply NoDup_lookup; [exact Hnd|exact Hy|]). lia.
      * assert (i = pred (length l)) as -> by lia. rewrite <- last_lookup in Hy.
        rewrite lookup_app_r by lia. replace (S _ - length l)%nat with 0%nat by lia.
        apply H2. by rewrite Ht.
    + rewrite lookup_app_r in Hy by lia. apply list_lookup_singleton_Some in Hy as [Hi2 <-].
      rewrite H1. symmetry. apply lookup_ge_None_2. rewrite length_app. cbn. lia.
Qed.

(** Taking the first. *)
Lemma qrep_pop nxt nxt' h t x l :
  qrep nxt h t (x :: l) → (∀ y, y ∈ l → nxt' y = nxt y) →
  h = Some x ∧ nxt x = head l ∧ qrep nxt' (nxt x) (match nxt x with None => None | _ => t end) l.
Proof.
  intros [-> -> Hnd Hn] Hf. apply NoDup_cons in Hnd as [Hx Hnd].
  assert (nxt x = head l) as Hnx.
  { rewrite (Hn 0%nat x eq_refl). by destruct l. }
  split; [done|]. split; [done|]. rewrite Hnx. split; [done| |done|].
  - by destruct l.
  - intros i y Hy. rewrite Hf by (by eapply list_elem_of_lookup_2). apply (Hn (S i) y Hy).
Qed.

Lemma last_app_cons {A} (l1 l2 : list A) x :
  last (l1 ++ x :: l2) = match last l2 with Some y => Some y | None => Some x end.
Proof. rewrite last_app, last_cons. by destruct (last l2). Qed.

(** Taking one from anywhere. *)
Lemma qrep_remove nxt nxt' h t l1 x l2 :
  qrep nxt h t (l1 ++ x :: l2) →
  (∀ y, last l1 = Some y → nxt' y = nxt x) →
  (∀ y, y ≠ x → last l1 ≠ Some y → nxt' y = nxt y) →
  qrep nxt' (match l1 with [] => nxt x | _ => h end)
    (if decide (t = Some x) then last l1 else t) (l1 ++ l2).
Proof.
  intros [-> -> Hnd Hn] H1 H2.
  assert (nxt x = head l2) as Hnx.
  { rewrite (Hn (length l1) x) by (by apply list_lookup_middle).
    rewrite lookup_app_r by lia. replace (S (length l1) - length l1)%nat with 1%nat by lia.
    by destruct l2. }
  pose proof Hnd as (Hnd1 & Hd & [Hx2 Hnd2]%NoDup_cons)%NoDup_app.
  assert (x ∉ l1) as Hx1 by (intros Hin; apply (Hd x Hin); set_solver).
  split.
  - destruct l1; cbn; [done|done].
  - rewrite last_app_cons, last_app. destruct (last l2) as [y|] eqn:Hl; [|by rewrite decide_True].
    rewrite decide_False; [done|]. intros [= ->]. apply Hx2, last_Some_elem_of. done.
  - apply NoDup_app. split; [done|]. split; [|done]. intros y Hy1 Hy2. apply (Hd y Hy1). set_solver.
  - intros i y Hy. destruct (decide (i < length l1)%nat) as [Hi|Hi].
    + rewrite lookup_app_l in Hy by done. assert (y ∈ l1) by (by eapply list_elem_of_lookup_2).
      destruct (decide (S i = length l1)) as [Hsi|Hsi].
      * rewrite lookup_app_r by lia. replace (S i - length l1)%nat with 0%nat by lia.
        rewrite H1; [rewrite Hnx; by destruct l2|]. rewrite last_lookup. by rewrite <- Hsi.
      * rewrite H2.
        { rewrite (Hn i y) by (by rewrite lookup_app_l). by rewrite !lookup_app_l by lia. }
        { by intros ->. }
        { rewrite last_lookup. intros Hl.
          assert (i = pred (length l1)) by (by eapply NoDup_lookup; [exact Hnd1|exact Hy|]). lia. }
    + rewrite lookup_app_r in Hy by lia. assert (y ∈ l2) by (by eapply list_elem_of_lookup_2).
      rewrite H2.
      * rewrite (Hn (S i) y).
        { rewrite !lookup_app_r by lia. replace (S (S i) - length l1)%nat with (S (S i - length l1))%nat by lia.
          done. }
        rewrite lookup_app_r by lia. by replace (S i - length l1)%nat with (S (i - length l1))%nat by lia.
      * by intros ->.
      * intros Hl. apply last_Some_elem_of in Hl. apply (Hd y Hl). set_solver.
Qed.
