(* ===== verification/WaitQueue.v ===== *)
(** * Wait queues: src/src/kernel/wait_queue.c

    A [struct wait_queue *] of the code never is null in the kernel's calls
    (it is the address of a field of a subsystem object), so an operation takes
    the queue's value and returns the new one.  The FIFO behaviour is stated
    once, as [wq_enqueue_spec], [wq_dequeue_spec] and [wq_remove_spec], and used
    by every synchronisation object. *)

From S2P Require Import Prelude Machine Task.

Open Scope kernel_scope.

Record wait_queue : Type := WaitQueue { wq_head : tptr; wq_tail : tptr }.

#[export] Instance eta_wait_queue : Eta wait_queue := λ q, WaitQueue (wq_head q) (wq_tail q).

Definition wait_queue_init : wait_queue := WaitQueue None None.

Definition wait_queue_empty (q : wait_queue) : bool := bool_decide (wq_head q = None).

(** Walks visit a queue of at most [MAX_TASKS] distinct tasks. *)
Definition wq_fuel : nat := Z.to_nat (MAX_TASKS + 1).

Definition wait_queue_contains (q : wait_queue) (t : tptr) : M tasktab bool :=
  if bool_decide (t = None) then mret false else
  whileM wq_fuel (λ current : tptr,
    if bool_decide (current = None) then mret (inr false) else
    if bool_decide (current = t) then mret (inr true) else
    c ← tget current;
    mret (inl (wait_next c))) (wq_head q).

(** Returns whether the task was enqueued, and the queue. *)
Definition wait_queue_enqueue (q : wait_queue) (t : tptr) : M tasktab (bool * wait_queue) :=
  if bool_decide (t = None) then mret (false, q) else
  inq ← wait_queue_contains q t;
  if (inq : bool) then mret (false, q) else
  tupd t (λ x, x <| wait_next := None |>) ;;
  if bool_decide (wq_tail q = None) then mret (true, WaitQueue t t) else
  tupd (wq_tail q) (λ x, x <| wait_next := t |>) ;;
  mret (true, q <| wq_tail := t |>).

Definition wait_queue_dequeue (q : wait_queue) : M tasktab (tptr * wait_queue) :=
  if bool_decide (wq_head q = None) then mret (None, q) else
  let t := wq_head q in
  c ← tget t;
  let head := wait_next c in
  let tail := if bool_decide (head = None) then None else wq_tail q in
  tupd t (λ x, x <| wait_next := None |>) ;;
  mret (t, WaitQueue head tail).

Definition wait_queue_remove (q : wait_queue) (t : tptr) : M tasktab (bool * wait_queue) :=
  if bool_decide (t = None) then mret (false, q) else
  whileM wq_fuel (λ '(previous, current),
    if bool_decide (current = None) then mret (inr (false, q)) else
    if bool_decide (current = t) then
      c ← tget current;
      head ← (if bool_decide (previous = None) then mret (wait_next c)
              else tupd previous (λ x, x <| wait_next := wait_next c |>) ;; mret (wq_head q));
      let tail := if bool_decide (wq_tail q = current) then previous else wq_tail q in
      tupd current (λ x, x <| wait_next := None |>) ;;
      mret (inr (true, WaitQueue head tail))
    else
      c ← tget current;
      mret (inl (current, wait_next c))) (None : tptr, wq_head q).

(** ** Specification *)

Definition wnext (tab : tasktab) (i : Z) : tptr := wait_next (task_at tab i).

(** The queue stands for the list [l] of task slots. *)
Definition wq_rep (tab : tasktab) (q : wait_queue) (l : list Z) : Prop :=
  qrep (wnext tab) (wq_head q) (wq_tail q) l ∧ Forall (λ i, slot_ok i = true) l.

(** Only the [wait_next] fields of the tasks in [X] changed. *)
Definition only_wait_next (X : list Z) (tab tab' : tasktab) : Prop :=
  ∀ i, ∃ v, task_at tab' i = (task_at tab i) <| wait_next := v |> ∧
            (i ∉ X → v = wait_next (task_at tab i)).

Lemma owx_refl X tab : only_wait_next X tab tab.
Proof. intros i. exists (wait_next (task_at tab i)). split; [by destruct (task_at tab i)|done]. Qed.

Lemma owx_upd X tab i v : i ∈ X →
  only_wait_next X tab (<[i := (task_at tab i) <| wait_next := v |>]> tab).
Proof.
  intros Hi j. rewrite task_at_insert. case_decide as Hj.
  - subst j. exists v. by split.
  - exists (wait_next (task_at tab j)). split; [by destruct (task_at tab j)|done].
Qed.

Lemma owx_trans X tab1 tab2 tab3 :
  only_wait_next X tab1 tab2 → only_wait_next X tab2 tab3 → only_wait_next X tab1 tab3.
Proof.
  intros H1 H2 i. destruct (H1 i) as (v1 & E1 & F1), (H2 i) as (v2 & E2 & F2).
  exists v2. rewrite E2, E1. split; [done|]. intros Hi. rewrite (F2 Hi), E1. cbn. by apply F1.
Qed.

Lemma wq_rep_frame X tab tab' q l :
  only_wait_next X tab tab' → (∀ i, i ∈ l → i ∉ X) → wq_rep tab q l → wq_rep tab' q l.
Proof.
  intros Hx Hd [Hq Hok]. split; [|done]. eapply qrep_frame; [done|]. intros i Hi.
  unfold wnext. destruct (Hx i) as (v & -> & Hv). cbn. by apply Hv, Hd.
Qed.

Lemma slots_length l : NoDup l → Forall (λ i, slot_ok i = true) l → (length l ≤ 32)%nat.
Proof.
  intros Hnd Hok. assert (length l ≤ length (seqZ 0 32))%nat as Hl.
  { apply submseteq_length, NoDup_submseteq; [done|]. intros i Hi. apply elem_of_seqZ.
    rewrite Forall_forall in Hok. apply slot_ok_spec. by apply Hok. }
  exact Hl.
Qed.

Lemma wq_rep_empty tab q : wq_rep tab q [] → wait_queue_empty q = true.
Proof. intros [[Hh _ _ _] _]. unfold wait_queue_empty. by rewrite Hh. Qed.

Lemma wq_rep_nonempty tab q x l : wq_rep tab q (x :: l) → wait_queue_empty q = false.
Proof. intros [[Hh _ _ _] _]. unfold wait_queue_empty. by rewrite Hh. Qed.

Lemma wq_init_rep tab : wq_rep tab wait_queue_init [].
Proof. split; [apply qrep_nil|constructor]. Qed.

(** The element after a prefix of the queue. *)
Lemma qrep_split nxt h t pre x post :
  qrep nxt h t (pre ++ x :: post) → nxt x = head post.
Proof.
  intros [_ _ _ Hn]. rewrite (Hn (length pre) x) by (by apply list_lookup_middle).
  rewrite lookup_app_r by lia. replace (S (length pre) - length pre)%nat with 1%nat by lia.
  by destruct post.
Qed.

Lemma wq_contains_spec tab q l t :
  wq_rep tab q l →
  wp (wait_queue_contains q (Some t)) (λ b tab', tab' = tab ∧ b = bool_decide (t ∈ l)) tab.
Proof.
  intros [Hq Hok]. unfold wait_queue_contains. cbn [bool_decide decide].
  rewrite bool_decide_false by done.
  set (I := λ (n : nat) (cur : tptr) (tab' : tasktab), tab' = tab ∧
    ∃ pre post, l = pre ++ post ∧ cur = head post ∧ n = length post ∧ t ∉ pre).
  apply (wp_whileM _ _ _ I _ (length l)).
  - unfold wq_fuel, MAX_TASKS. pose proof (slots_length l (q_nodup _ _ _ _ Hq) Hok). lia.
  - split; [done|]. exists [], l. split; [done|]. split; [apply Hq|]. split; [done|].
    apply not_elem_of_nil.
  - intros n cur tab' (-> & pre & post & -> & -> & -> & Hpre). destruct post as [|x post]; cbn [head].
    + rewrite bool_decide_true by done. apply wp_ret. split; [done|].
      rewrite bool_decide_false; [done|]. by rewrite app_nil_r.
    + rewrite bool_decide_false by done. destruct (decide (x = t)) as [->|Hne].
      * rewrite bool_decide_true by done. apply wp_ret. split; [done|].
        rewrite bool_decide_true; [done|set_solver].
      * rewrite bool_decide_false by congruence. rewrite wp_bind. apply wp_tget.
        { rewrite Forall_forall in Hok. apply Hok. set_solver. }
        apply wp_ret. exists (length post). split; [cbn; lia|]. split; [done|].
        exists (pre ++ [x]), post. split; [by rewrite <- app_assoc|].
        split; [by apply (qrep_split _ _ _ _ _ _ Hq)|]. split; [done|]. set_solver.
Qed.

Lemma wq_enqueue_spec tab q l t :
  wq_rep tab q l → slot_ok t = true →
  wp (wait_queue_enqueue q (Some t)) (λ r tab',
    if decide (t ∈ l) then r = (false, q) ∧ tab' = tab
    else r.1 = true ∧ wq_rep tab' r.2 (l ++ [t]) ∧
         only_wait_next (t :: match last l with Some y => [y] | None => [] end) tab tab') tab.
Proof.
  intros [Hq Hok] Ht. unfold wait_queue_enqueue. rewrite bool_decide_false by done.
  rewrite wp_bind. eapply wp_mono; [by apply (wq_contains_spec tab q l)|].
  intros b tab' [-> ->]. case_decide as Hin.
  { rewrite bool_decide_true by done. by apply wp_ret. }
  rewrite bool_decide_false by done. rewrite wp_bind. apply wp_tupd; [done|].
  pose proof (q_tail _ _ _ _ Hq) as Htl. pose proof (qrep_empty _ _ _ _ Hq) as [_ Hemp].
  assert (Forall (λ i, slot_ok i = true) (l ++ [t])) as Hok'.
  { apply Forall_app. split; [done|]. by constructor. }
  destruct (wq_tail q) as [y|] eqn:Hy.
  - rewrite bool_decide_false by done. rewrite <- Htl. wp_step.
    assert (y ∈ l) as Hyl by (by apply last_Some_elem_of).
    apply wp_tupd. { rewrite Forall_forall in Hok. by apply Hok. }
    apply wp_ret. split; [done|]. split; [split; [|done]|].
    + cbn [setf wq_head wq_tail]. replace (wq_head q) with (match l with [] => Some t | _ => wq_head q end)
        by (destruct l; [by apply not_elem_of_nil in Hyl|done]).
      eapply qrep_push; [exact Hq|done|..].
      * unfold wnext. rewrite !task_at_insert. rewrite decide_False by (intros ->; done).
        by rewrite decide_True.
      * intros y' [= <-]. unfold wnext. rewrite task_at_insert. by rewrite decide_True.
      * intros z Hz1 Hz2. unfold wnext. rewrite !task_at_insert.
        rewrite decide_False by congruence. by rewrite decide_False.
    + eapply owx_trans; [apply owx_upd|apply owx_upd]; set_solver.
  - rewrite bool_decide_true by done. apply wp_ret. assert (l = []) as -> by (by apply Hemp).
    split; [done|]. split; [split; [|done]|].
    + apply (qrep_push _ _ _ _ [] t Hq); [done|..].
      * unfold wnext. rewrite task_at_insert. by rewrite decide_True.
      * done.
      * intros z Hz _. unfold wnext. rewrite task_at_insert. by rewrite decide_False.
    + apply owx_upd. set_solver.
Qed.

Lemma wq_dequeue_spec tab q l :
  wq_rep tab q l →
  wp (wait_queue_dequeue q) (λ r tab',
    match l with
    | [] => r = (None, q) ∧ tab' = tab
    | t :: l' => r.1 = Some t ∧ wq_rep tab' r.2 l' ∧ only_wait_next [t] tab tab' ∧
                 wnext tab' t = None
    end) tab.
Proof.
  intros [Hq Hok]. unfold wait_queue_dequeue. destruct l as [|t l].
  - rewrite bool_decide_true by apply Hq. by apply wp_ret.
  - rewrite (q_head _ _ _ _ Hq : wq_head q = Some t). rewrite bool_decide_false by done.
    apply Forall_cons in Hok as [Ht Hok].
    rewrite wp_bind. apply wp_tget; [done|]. rewrite wp_bind. apply wp_tupd; [done|].
    apply wp_ret. cbn [fst snd].
    pose proof (q_nodup _ _ _ _ Hq) as [Hnin _]%NoDup_cons.
    destruct (qrep_pop _ (wnext (<[t := (task_at tab t) <| wait_next := None |>]> tab)) _ _ _ _ Hq)
      as (_ & _ & Hq').
    { intros y Hy. unfold wnext. rewrite task_at_insert. rewrite decide_False; [done|]. by intros ->. }
    split; [done|]. split; [split; [|done]|split].
    + cbn [wq_head wq_tail]. unfold wnext at 2 3 in Hq'. destruct (wait_next (task_at tab t)); exact Hq'.
    + apply owx_upd. set_solver.
    + unfold wnext. rewrite task_at_insert. by rewrite decide_True.
Qed.

(** The list without [t]. *)
Definition without (t : Z) (l : list Z) : list Z := filter (λ y, y ≠ t) l.

Lemma without_id t l : t ∉ l → without t l = l.
Proof.
  induction l as [|x l IH]; [done|]. intros [Hx Hl]%not_elem_of_cons. unfold without.
  rewrite filter_cons_True by congruence. f_equal. by apply IH.
Qed.

Lemma without_split t l1 l2 : NoDup (l1 ++ t :: l2) → without t (l1 ++ t :: l2) = l1 ++ l2.
Proof.
  intros (_ & Hd & [Hx2 _]%NoDup_cons)%NoDup_app. unfold without.
  rewrite filter_app, filter_cons_False by naive_solver.
  fold (without t l1) (without t l2). rewrite !without_id; [done|done|].
  intros Hin. apply (Hd t Hin). set_solver.
Qed.

Lemma wq_remove_spec tab q l t :
  wq_rep tab q l →
  wp (wait_queue_remove q (Some t)) (λ r tab',
    if decide (t ∈ l)
    then r.1 = true ∧ wq_rep tab' r.2 (without t l) ∧ only_wait_next l tab tab'
    else r = (false, q) ∧ tab' = tab) tab.
Proof.
  intros [Hq Hok]. unfold wait_queue_remove. rewrite bool_decide_false by done.
  set (I := λ (n : nat) '((prev, cur) : tptr * tptr) (tab' : tasktab), tab' = tab ∧
    ∃ pre post, l = pre ++ post ∧ prev = last pre ∧ cur = head post ∧ n = length post ∧ t ∉ pre).
  apply (wp_whileM _ _ _ I _ (length l)).
  - unfold wq_fuel, MAX_TASKS. pose proof (slots_length l (q_nodup _ _ _ _ Hq) Hok). lia.
  - split; [done|]. exists [], l. split; [done|]. split; [done|]. split; [apply Hq|].
    split; [done|]. apply not_elem_of_nil.
  - intros n [prev cur] tab' (-> & pre & post & -> & -> & -> & -> & Hpre).
    destruct post as [|x post]; cbn [head].
    { rewrite bool_decide_true by done. apply wp_ret. rewrite app_nil_r.
      by rewrite decide_False. }
    rewrite bool_decide_false by done.
    pose proof Hok as [Hokp [Hokx _]%Forall_cons]%Forall_app.
    destruct (decide (x = t)) as [->|Hne].
    2: { rewrite bool_decide_false by congruence. rewrite wp_bind. apply wp_tget; [done|].
      apply wp_ret. exists (length post). split; [cbn; lia|]. split; [done|].
      exists (pre ++ [x]), post. split; [by rewrite <- app_assoc|]. split; [by rewrite last_snoc|].
      split; [by apply (qrep_split _ _ _ _ _ _ Hq)|]. split; [done|]. set_solver. }
    rewrite bool_decide_true by done. rewrite wp_bind. apply wp_tget; [done|].
    pose proof (q_nodup _ _ _ _ Hq) as Hnd. pose proof (q_head _ _ _ _ Hq) as Hhd.
    match goal with |- wp ?m _ ?s => apply (wp_mono m (λ r, match r with
      | inl _ => λ _, False
      | inr r => λ tab', r.1 = true ∧ wq_rep tab' r.2 (pre ++ post) ∧
                         only_wait_next (pre ++ t :: post) tab tab' end)) end.
    2: { intros [?|r] tab'; [done|]. rewrite decide_True by set_solver. by rewrite without_split. }
    set (nx := wait_next (task_at tab t)).
    assert (∀ tab2 hd2, only_wait_next (pre ++ t :: post) tab tab2 →
              hd2 = (match pre with [] => nx | _ => wq_head q end) →
              (∀ y, last pre = Some y → wnext tab2 y = nx) →
              (∀ y, y ≠ t → last pre ≠ Some y → wnext tab2 y = wnext tab y) →
              wq_rep tab2 (WaitQueue hd2 (if bool_decide (wq_tail q = Some t) then last pre else wq_tail q))
                (pre ++ post)) as Hrep.
    { intros tab2 hd2 _ -> Hp Ho. split.
      - pose proof (qrep_remove _ (wnext tab2) _ _ _ _ _ Hq Hp Ho) as Hq'. cbn [wq_head wq_tail].
        change (wnext tab t) with nx in Hq'. by repeat (case_bool_decide || case_decide).
      - apply Forall_app in Hok as [? [_ ?]%Forall_cons]. by apply Forall_app. }
    destruct (last pre) as [y|] eqn:Hl.
    + assert (y ∈ pre) as Hy by (by apply last_Some_elem_of).
      assert (y ≠ t) by (intros ->; done).
      rewrite (bool_decide_false (Some y = None)) by done. wp_steps.
      apply wp_tupd. { rewrite Forall_forall in Hokp. by apply Hokp. }
      wp_steps. apply wp_tupd; [done|]. apply wp_ret. cbn [fst snd].
      assert (only_wait_next (pre ++ t :: post) tab
        (<[t:=(task_at (<[y:=(task_at tab y) <| wait_next := nx |>]> tab) t) <| wait_next := None |>]>
           (<[y:=(task_at tab y) <| wait_next := nx |>]> tab))) as Hx.
      { eapply owx_trans; apply owx_upd; set_solver. }
      split; [done|]. split; [|exact Hx]. eapply Hrep; [exact Hx| |..].
      * destruct pre; [by apply not_elem_of_nil in Hy|done].
      * intros y' [= <-]. unfold wnext. rewrite !task_at_insert. rewrite decide_False by done.
        by rewrite decide_True.
      * intros z Hz1 Hz2. unfold wnext. rewrite !task_at_insert. rewrite decide_False by done.
        by rewrite decide_False by congruence.
    + rewrite (bool_decide_true (None = None)) by done. wp_steps. apply wp_tupd; [done|]. apply wp_ret. cbn [fst snd].
      assert (only_wait_next (pre ++ t :: post) tab (<[t:=(task_at tab t) <| wait_next := None |>]> tab)) as Hx.
      { apply owx_upd. set_solver. }
      apply last_None in Hl as ->.
      split; [done|]. split; [|exact Hx]. eapply Hrep; [exact Hx|done|done|].
      intros z Hz1 Hz2. unfold wnext. rewrite !task_at_insert. by rewrite decide_False.
Qed.

(** ** Refinement of a duplicate-free FIFO list *)

Inductive wq_op : Type := Enqueue (t : Z) | Dequeue | Remove (t : Z) | Contains (t : Z).
Inductive wq_res : Type := RBool (b : bool) | RTask (t : tptr).

Definition wq_exec (q : wait_queue) (o : wq_op) : M tasktab (wq_res * wait_queue) :=
  match o with
  | Enqueue t => '(b, q') ← wait_queue_enqueue q (Some t); mret (RBool b, q')
  | Dequeue => '(t, q') ← wait_queue_dequeue q; mret (RTask t, q')
  | Remove t => '(b, q') ← wait_queue_remove q (Some t); mret (RBool b, q')
  | Contains t => b ← wait_queue_contains q (Some t); mret (RBool b, q)
  end.

Fixpoint wq_run (q : wait_queue) (ops : list wq_op) : M tasktab (list wq_res * wait_queue) :=
  match ops with
  | [] => mret ([], q)
  | o :: ops' =>
      '(r, q') ← wq_exec q o;
      '(rs, q'') ← wq_run q' ops';
      mret (r :: rs, q'')
  end.

(** The reference queue. *)
Definition fifo_step (l : list Z) (o : wq_op) : wq_res * list Z :=
  match o with
  | Enqueue t => if decide (t ∈ l) then (RBool false, l) else (RBool true, l ++ [t])
  | Dequeue => match l with [] => (RTask None, []) | t :: l' => (RTask (Some t), l') end
  | Remove t => if decide (t ∈ l) then (RBool true, without t l) else (RBool false, l)
  | Contains t => (RBool (bool_decide (t ∈ l)), l)
  end.

Fixpoint fifo_run (l : list Z) (ops : list wq_op) : list wq_res * list Z :=
  match ops with
  | [] => ([], l)
  | o :: ops' =>
      let '(r, l') := fifo_step l o in
      let '(rs, l'') := fifo_run l' ops' in
      (r :: rs, l'')
  end.

Definition op_ok (o : wq_op) : Prop :=
  match o with Enqueue t => slot_ok t = true | _ => True end.

Lemma wq_exec_spec tab q l o : wq_rep tab q l → op_ok o →
  wp (wq_exec q o) (λ r tab', r.1 = (fifo_step l o).1 ∧ wq_rep tab' r.2 (fifo_step l o).2) tab.
Proof.
  intros Hq Ho. destruct o as [t| |t|t]; cbn [wq_exec fifo_step op_ok] in *; rewrite wp_bind.
  - eapply wp_mono; [by apply (wq_enqueue_spec tab q l)|]. intros [b q'] tab' H.
    apply wp_ret. case_decide; [by destruct H as [[= -> ->] ->]|].
    cbn in *. destruct H as (-> & ? & _). done.
  - eapply wp_mono; [by apply (wq_dequeue_spec tab q l)|]. intros [t q'] tab' H.
    apply wp_ret. destruct l; [by destruct H as [[= -> ->] ->]|].
    cbn in *. destruct H as (-> & ? & _). done.
  - eapply wp_mono; [by apply (wq_remove_spec tab q l)|]. intros [b q'] tab' H.
    apply wp_ret. case_decide; [|by destruct H as [[= -> ->] ->]].
    cbn in *. destruct H as (-> & ? & _). done.
  - eapply wp_mono; [by apply (wq_contains_spec tab q l)|]. intros b tab' [-> ->].
    by apply wp_ret.
Qed.

(** C7.  A wait queue is a FIFO queue without duplicates: any sequence of
    enqueue, dequeue, remove and membership operations returns, with the results
    the reference list gives, and leaves the linked representation of the list
    the reference ends with. *)
Theorem wait_queue_refines_fifo tab q l ops :
  wq_rep tab q l → Forall op_ok ops →
  ∃ q' tab', wq_run q ops tab = Some (((fifo_run l ops).1, q'), tab') ∧
             wq_rep tab' q' (fifo_run l ops).2.
Proof.
  intros Hq Hops. revert tab q l Hq. induction Hops as [|o ops Ho _ IH]; intros tab q l Hq.
  - exists q, tab. by split.
  - destruct (wp_elim _ _ _ (wq_exec_spec tab q l o Hq Ho)) as ([r q1] & tab1 & Hs & Hr & Hq1).
    cbn in Hr, Hq1. cbn [fifo_run wq_run]. destruct (fifo_step l o) as [r0 l1]. cbn in Hr, Hq1. subst r0.
    destruct (IH tab1 q1 l1 Hq1) as (q2 & tab2 & Hs2 & Hq2).
    destruct (fifo_run l1 ops) as [rs l2]. cbn in *.
    exists q2, tab2. split; [|done]. unfold mbind, M_bind. rewrite Hs. cbn. by rewrite Hs2.
Qed.

Lemma wait_queue_refines_fifo_witness :
  ∃ q' tab', wq_run wait_queue_init [Enqueue 5; Enqueue 7; Enqueue 5; Remove 5; Dequeue; Dequeue] ∅ =
    Some (([RBool true; RBool true; RBool false; RBool true; RTask (Some 7); RTask None], q'), tab') ∧
    wq_rep tab' q' [].
Proof.
  apply (wait_queue_refines_fifo ∅ wait_queue_init []
           [Enqueue 5; Enqueue 7; Enqueue 5; Remove 5; Dequeue; Dequeue]).
  - apply wq_init_rep.
  - repeat constructor.
Defined.
