(* ===== verification/Sched.v ===== *)
(** * Scheduler: src/src/kernel/sched.c

    The statics of sched.c are one record over the state [P] of what the
    scheduler calls: the page source its stacks come from and the MMU context
    switch.  Functions that ask [arch_get_cpu_id] take the CPU as an argument;
    [cur_task] is the per-CPU current-task register.  A function of the code
    that calls [schedule] in the middle is cut there: what runs before and
    after the switch are separate definitions. *)

From S2P Require Import Prelude Machine Task Heap.

Open Scope kernel_scope.

(** What the scheduler calls below it. *)
Class SchedEnv (P : Type) := {
  se_pages :: PageSource P;
  mmu_context_switch : Z → Z → M P unit;
  console_open_file : M P Z;
}.

Record sched_run_queue : Type := RunQueue {
  rq_head : tptr;
  rq_tail : tptr;
  nr_running : Z;
  need_resched : Z;
  irq_depth : Z;
}.

#[export] Instance eta_rq : Eta sched_run_queue := λ q,
  RunQueue (rq_head q) (rq_tail q) (nr_running q) (need_resched q) (irq_depth q).

(** [sched_rq_init], and a queue that was never written. *)
Definition sched_rq_init : sched_run_queue := RunQueue None None 0 0 0.

Section sched.
Context {P : Type} `{SchedEnv P}.

Record sstate : Type := SState {
  s_env : P;
  tasks : tasktab;
  run_queues : gmap Z sched_run_queue;
  next_task_id : Z;
  init_task_id : Z;
  task_slot_exhaustion_reported : Z;
  next_enqueue_cpu : Z;
  switch_count : gmap Z Z;
  cur_task : gmap Z Z;
}.

#[global] Instance eta_sstate : Eta sstate := λ s,
  SState (s_env s) (tasks s) (run_queues s) (next_task_id s) (init_task_id s)
    (task_slot_exhaustion_reported s) (next_enqueue_cpu s) (switch_count s) (cur_task s).

#[global, refine] Instance sub_sched_env : Sub P sstate := {
  sub_get := s_env;
  sub_set := λ p s, s <| s_env := p |>;
}.
Proof. all: intros; by destruct t. Defined.

#[global, refine] Instance sub_sched_tasks : Sub tasktab sstate := {
  sub_get := tasks;
  sub_set := λ p s, s <| tasks := p |>;
}.
Proof. all: intros; by destruct t. Defined.

Definition rq_at (s : sstate) (cpu : Z) : sched_run_queue :=
  default sched_rq_init (run_queues s !! cpu).

Definition cpu_ok (cpu : Z) : bool := (0 <=? cpu) && (cpu <? SCHED_MAX_CPUS).

(** [run_queues[cpu]], an array of [SCHED_MAX_CPUS]. *)
Definition get_rq (cpu : Z) : M sstate sched_run_queue :=
  λ s, if cpu_ok cpu then Some (rq_at s cpu, s) else None.
Definition upd_rq (cpu : Z) (f : sched_run_queue → sched_run_queue) : M sstate unit :=
  λ s, if cpu_ok cpu
       then Some ((), s <| run_queues := <[cpu := f (rq_at s cpu)]> (run_queues s) |>) else None.

Definition get_task (p : tptr) : M sstate task := up (tget p).
Definition upd_task (p : tptr) (f : task → task) : M sstate unit := up (tupd p f).

Definition lock_sched : M sstate unit := up (S := P) (up (spin_lock_irqsave L_sched)).
Definition unlock_sched : M sstate unit := up (S := P) (up (spin_unlock_irqrestore L_sched)).
Definition gic_send_ipi (mask intid : Z) : M sstate unit := up (S := P) (up (emit (Ev_ipi mask intid))).
Definition ker_info (message : string) (arg : Z) : M sstate unit :=
  up (S := P) (up (emit (Ev_warn message arg))).

Definition arch_get_current_task (cpu : Z) : M sstate tptr := gets (λ s, cur_task s !! cpu).
Definition sched_current (cpu : Z) : M sstate tptr := arch_get_current_task cpu.

(** [p == q] and [p == 0] on task pointers. *)
Definition ptr_eq (p q : tptr) : bool := bool_decide (p = q).
Definition is_null (p : tptr) : bool := bool_decide (p = None).

(** The slots of [tasks[]] in index order. *)
Definition all_slots : list Z := upto 0 MAX_TASKS.

(** ** Run queues *)

Definition sched_rq_enqueue_locked (t : tptr) (cpu : Z) : M sstate unit :=
  if is_null t then mret () else
  c ← get_task t;
  if (id c <? SCHED_MAX_CPUS) || negb (on_rq c =? 0) || (SCHED_MAX_CPUS <=? cpu) then mret () else
  upd_task t (λ x, x <| rq_cpu := cpu |> <| rq_next := None |> <| on_rq := 1 |>) ;;
  rq ← get_rq cpu;
  (if is_null (rq_tail rq) then
     upd_rq cpu (λ q, q <| rq_head := t |> <| rq_tail := t |>)
   else
     upd_task (rq_tail rq) (λ x, x <| rq_next := t |>) ;;
     upd_rq cpu (λ q, q <| rq_tail := t |>)) ;;
  upd_rq cpu (λ q, q <| nr_running := u32 (nr_running q + 1) |>).

(** [if (rq->nr_running > 0U) rq->nr_running--;] *)
Definition rq_dec (cpu : Z) : M sstate unit :=
  upd_rq cpu (λ q, if 0 <? nr_running q then q <| nr_running := nr_running q - 1 |> else q).

Definition sched_rq_dequeue_locked (cpu : Z) : M sstate tptr :=
  rq ← get_rq cpu;
  let t := rq_head rq in
  if is_null t then mret None else
  c ← get_task t;
  upd_rq cpu (λ q, q <| rq_head := rq_next c |>) ;;
  whenM (is_null (rq_next c)) (upd_rq cpu (λ q, q <| rq_tail := None |>)) ;;
  upd_task t (λ x, x <| rq_next := None |> <| on_rq := 0 |>) ;;
  rq_dec cpu ;;
  mret t.

Definition sched_rq_remove_locked (t : tptr) : M sstate bool :=
  if is_null t then mret false else
  c ← get_task t;
  if (on_rq c =? 0) || (SCHED_MAX_CPUS <=? rq_cpu c) then mret false else
  let cpu := rq_cpu c in
  rq ← get_rq cpu;
  whileM (Z.to_nat (MAX_TASKS + 1)) (λ '(previous, current),
    if is_null current then
      upd_task t (λ x, x <| on_rq := 0 |> <| rq_next := None |>) ;;
      mret (inr false)
    else if ptr_eq current t then
      cc ← get_task current;
      (if is_null previous then upd_rq cpu (λ q, q <| rq_head := rq_next cc |>)
       else upd_task previous (λ x, x <| rq_next := rq_next cc |>)) ;;
      whenM (ptr_eq (rq_tail rq) current) (upd_rq cpu (λ q, q <| rq_tail := previous |>)) ;;
      upd_task current (λ x, x <| rq_next := None |> <| on_rq := 0 |>) ;;
      rq_dec cpu ;;
      mret (inr true)
    else
      cc ← get_task current;
      mret (inl (current, rq_next cc))) (None : tptr, rq_head rq).

Definition sched_least_loaded_cpu_locked : M sstate Z :=
  start ← gets next_enqueue_cpu;
  rq ← get_rq start;
  '(best, best_load) ← foldM (upto 1 (SCHED_MAX_CPUS - 1)) (λ '(best, best_load) offset,
    let cpu := (start + offset) mod SCHED_MAX_CPUS in
    rq ← get_rq cpu;
    mret (if nr_running rq <? best_load then (cpu, nr_running rq) else (best, best_load)))
    (start, nr_running rq);
  modify (λ s, s <| next_enqueue_cpu := (best + 1) mod SCHED_MAX_CPUS |>) ;;
  mret best.

(** The [do { dequeue } while (task && task->state != READY)] loop. *)
Definition dequeue_ready (cpu : Z) : M sstate tptr :=
  whileM (Z.to_nat (MAX_TASKS + 1)) (λ _ : unit,
    t ← sched_rq_dequeue_locked cpu;
    if is_null t then mret (inr None) else
    c ← get_task t;
    mret (if state c =? TASK_STATE_READY then inr t else inl ())) ().

Definition sched_pick_next_locked (cpu : Z) : M sstate tptr :=
  t ← dequeue_ready cpu;
  if negb (is_null t) then mret t else
  busiest ← foldM (upto 0 SCHED_MAX_CPUS) (λ busiest other,
    ro ← get_rq other;
    rb ← get_rq busiest;
    mret (if nr_running rb <? nr_running ro then other else busiest)) cpu;
  rb ← get_rq busiest;
  if (busiest =? cpu) || (nr_running rb =? 0) then mret None else
  t ← dequeue_ready busiest;
  whenM (negb (is_null t)) (upd_task t (λ x, x <| rq_cpu := cpu |>)) ;;
  mret t.

Definition sched_make_ready_locked (t : tptr) : M sstate unit :=
  if is_null t then mret () else
  c ← get_task t;
  if id c <? SCHED_MAX_CPUS then mret () else
  upd_task t (λ x, x <| state := TASK_STATE_READY |>) ;;
  cpu ← sched_least_loaded_cpu_locked;
  sched_rq_enqueue_locked t cpu ;;
  upd_rq cpu (λ q, q <| need_resched := 1 |>).

Definition sched_state_name (st : Z) : string :=
  if st =? TASK_STATE_RUNNING then "running"
  else if st =? TASK_STATE_READY then "ready"
  else if st =? TASK_STATE_BLOCKED then "blocked"
  else if st =? TASK_STATE_DEAD then "dead"
  else if st =? TASK_STATE_ZOMBIE then "zombie"
  else if st =? TASK_STATE_REAPING then "reaping"
  else "unknown".

(** ** Creation *)

Definition sched_clear_task (t : tptr) : M sstate unit :=
  if is_null t then mret () else upd_task t (λ _, task0).

Definition sched_allocate_task_slot : M sstate tptr :=
  r ← iterM (upto 4 (MAX_TASKS - 4)) (λ (_ : unit) index,
        t ← get_task (Some index);
        mret (if bool_decide (name t = None) then inr index else inl ())) ();
  mret (match r with inr index => Some index | inl _ => None end).

Definition idle_name (i : Z) : string :=
  if i =? 0 then "idle0" else if i =? 1 then "idle1" else if i =? 2 then "idle2" else "idle3".

Definition sched_init : M sstate unit :=
  modify (λ s, s <| next_task_id := 0 |> <| init_task_id := SCHED_NO_PARENT |>
                 <| task_slot_exhaustion_reported := 0 |> <| next_enqueue_cpu := 0 |>) ;;
  forM_ (upto 0 SCHED_MAX_CPUS) (λ cpu,
    upd_rq cpu (λ _, sched_rq_init) ;;
    modify (λ s, s <| switch_count := <[cpu := 0]> (switch_count s) |>)) ;;
  forM_ all_slots (λ i, sched_clear_task (Some i)) ;;
  forM_ (upto 0 4) (λ i,
    nid ← gets next_task_id;
    modify (λ s, s <| next_task_id := u64 (next_task_id s + 1) |>) ;;
    upd_task (Some i) (λ t, t <| id := nid |> <| state := TASK_STATE_RUNNING |>
      <| current_cpu := i |> <| rq_cpu := i |> <| on_rq := 0 |> <| preempt_count := 0 |>
      <| stack_base := 0 |> <| stack_size := 0 |>) ;;
    _ ← up (S := P) (ps_alloc 1);
    upd_task (Some i) (λ t, t <| name := Some (idle_name i) |>
      <| next := Some ((i + 1) mod 4) |> <| files := ∅ |>)) ;;
  modify (λ s, s <| cur_task := <[0 := 0]> (cur_task s) |>).

(** The first act of a secondary CPU in [secondary_main] (main.c): its idle task
    is its current one. *)
Definition secondary_start (cpu : Z) : M sstate unit :=
  modify (λ s, s <| cur_task := <[cpu := cpu]> (cur_task s) |>).

Definition sched_boot : M sstate unit :=
  sched_init ;; forM_ (upto 1 (SCHED_MAX_CPUS - 1)) secondary_start.

(** The context a new task starts from. *)
Definition new_context (x19_ x20_ x30_ sp_ : Z) : task_context :=
  TaskContext x19_ x20_ 0 0 0 0 0 0 0 0 0 x30_ sp_ 0.

(** [sp = stack_va + TASK_TOTAL_PAGES * PAGE_SIZE; sp &= ~0xFUL]. *)
Definition stack_sp (stack_va : Z) : Z :=
  Z.land (u64 (stack_va + TASK_TOTAL_PAGES * PAGE_SIZE)) (not64 15).

(** [t->next = curr->next; curr->next = t]. *)
Definition link_after (curr t : tptr) : M sstate unit :=
  c ← get_task curr;
  upd_task t (λ x, x <| next := next c |>) ;;
  upd_task curr (λ x, x <| next := t |>).

(** [task_entry_trampoline] and [el0_entry_trampoline] are assembly symbols. *)
Definition task_create (cpu task_entry_trampoline entry : Z) (nm : string) : M sstate tptr :=
  lock_sched ;;
  t ← sched_allocate_task_slot;
  if is_null t then
    unlock_sched ;;
    rep ← gets task_slot_exhaustion_reported;
    whenM (rep =? 0) (modify (λ s, s <| task_slot_exhaustion_reported := 1 |>) ;;
                      ker_info "task_create: max tasks reached (suppressing repeats)" 0) ;;
    mret None
  else
  modify (λ s, s <| task_slot_exhaustion_reported := 0 |>) ;;
  stack_pa ← up (S := P) (ps_alloc TASK_TOTAL_PAGES);
  if stack_pa =? 0 then
    unlock_sched ;; ker_info "task_create: stack alloc failed" 0 ;; mret None
  else
  let stack_va := pa_to_va stack_pa in
  nid ← gets next_task_id;
  upd_task t (λ x, x <| id := nid |> <| current_cpu := TASK_NO_CPU |> <| rq_cpu := TASK_NO_CPU |>
    <| on_rq := 0 |> <| preempt_count := 0 |> <| stack_base := stack_va |>
    <| stack_size := TASK_TOTAL_PAGES * PAGE_SIZE |> <| name := Some nm |> <| mm := 0 |>
    <| process := 0 |> <| parent_id := SCHED_NO_PARENT |>
    <| context := (new_context entry 0 task_entry_trampoline (stack_sp stack_va))
                    <| tpidr_el0 := tpidr_el0 (context x) |> |>) ;;
  curr ← arch_get_current_task cpu;
  link_after curr t ;;
  sched_make_ready_locked t ;;
  c ← get_task t;
  let target_cpu := rq_cpu c in
  modify (λ s, s <| next_task_id := u64 (next_task_id s + 1) |>) ;;
  unlock_sched ;;
  whenM ((target_cpu <? SCHED_MAX_CPUS) && negb (target_cpu =? cpu))
    (gic_send_ipi (Z.shiftl 1 target_cpu) 0) ;;
  mret t.

(** [process_mm], [entry_va] and [stack_top] are the fields of the process
    descriptor at [proc]. *)
Definition task_create_user (cpu el0_entry_trampoline proc process_mm entry_va stack_top : Z)
    (nm : string) : M sstate tptr :=
  if (proc =? 0) || (process_mm =? 0) then
    ker_info "task_create_user: invalid process" 0 ;; mret None
  else
  lock_sched ;;
  t ← sched_allocate_task_slot;
  if is_null t then
    unlock_sched ;; ker_info "task_create_user: max tasks reached" 0 ;; mret None
  else
  stack_pa ← up (S := P) (ps_alloc TASK_TOTAL_PAGES);
  if stack_pa =? 0 then
    unlock_sched ;; ker_info "task_create_user: kernel stack alloc failed" 0 ;; mret None
  else
  let stack_va := pa_to_va stack_pa in
  nid ← gets next_task_id;
  upd_task t (λ x, x <| id := nid |> <| current_cpu := TASK_NO_CPU |> <| rq_cpu := TASK_NO_CPU |>
    <| on_rq := 0 |> <| preempt_count := 0 |> <| stack_base := stack_va |>
    <| stack_size := TASK_TOTAL_PAGES * PAGE_SIZE |> <| name := Some nm |> <| mm := process_mm |>
    <| process := proc |> <| parent_id := SCHED_NO_PARENT |> <| files := ∅ |>) ;;
  file ← up (S := P) console_open_file;
  upd_task t (λ x, x <| files := <[1 := file]> (files x) |>
    <| context := new_context entry_va stack_top el0_entry_trampoline (stack_sp stack_va) |>) ;;
  curr ← arch_get_current_task cpu;
  link_after curr t ;;
  upd_task t (λ x, x <| state := TASK_STATE_BLOCKED |>) ;;
  modify (λ s, s <| next_task_id := u64 (next_task_id s + 1) |>) ;;
  unlock_sched ;;
  mret t.

(** ** Reaping

    [sched_reap_dead] repeats: detach one dead task under the lock, clean up
    its subsystems without it, clear the slot under the lock.  [reap_detach]
    returns the victim with its stack and process.  The loop is in SyncSched.v. *)
Definition reap_detach : M sstate (option (Z * Z * Z)) :=
  lock_sched ;;
  t0 ← get_task (Some 0);
  victim ← whileM (Z.to_nat (MAX_TASKS + 1)) (λ '(prev, t),
    if ptr_eq t (Some 0) then mret (inr None) else
    c ← get_task t;
    if (state c =? TASK_STATE_DEAD) && (current_cpu c =? TASK_NO_CPU) then
      _ ← sched_rq_remove_locked t;
      c ← get_task t;
      upd_task prev (λ x, x <| next := next c |>) ;;
      upd_task t (λ x, x <| state := TASK_STATE_REAPING |>) ;;
      mret (inr t)
    else mret (inl (t, next c))) (Some 0, next t0);
  match victim with
  | None => unlock_sched ;; mret None
  | Some v =>
      c ← get_task victim;
      upd_task victim (λ x, x <| stack_base := 0 |> <| process := 0 |> <| mm := 0 |>) ;;
      unlock_sched ;;
      mret (Some (v, stack_base c, process c))
  end.

Definition reap_clear (v : Z) : M sstate unit :=
  lock_sched ;; sched_clear_task (Some v) ;; unlock_sched.

(** ** Preemption *)

(** The new task's first act: release the lock [schedule] holds across the switch. *)
Definition sched_new_task_kickoff : M sstate unit := unlock_sched.

Definition sched_request_reschedule (cpu_id : Z) : M sstate unit :=
  if SCHED_MAX_CPUS <=? cpu_id then mret () else
  lock_sched ;; upd_rq cpu_id (λ q, q <| need_resched := 1 |>) ;; unlock_sched.

Definition sched_preempt_disable (cpu : Z) : M sstate unit :=
  t ← sched_current cpu;
  if is_null t then mret () else
  upd_task t (λ x, x <| preempt_count := u32 (preempt_count x + 1) |>).

Definition sched_preempt_enable (cpu : Z) : M sstate unit :=
  t ← sched_current cpu;
  if is_null t then mret () else
  upd_task t (λ x, if preempt_count x =? 0 then x
                   else x <| preempt_count := preempt_count x - 1 |>).

Definition sched_preemptible (cpu : Z) : M sstate bool :=
  t ← sched_current cpu;
  if is_null t then mret false else
  c ← get_task t;
  if negb (preempt_count c =? 0) || (SCHED_MAX_CPUS <=? cpu) then mret false else
  rq ← get_rq cpu;
  mret (irq_depth rq =? 0).

Definition sched_irq_enter (cpu : Z) : M sstate unit :=
  if cpu <? SCHED_MAX_CPUS
  then upd_rq cpu (λ q, q <| irq_depth := u32 (irq_depth q + 1) |>) else mret ().

(** Returns whether the interrupt ends in [schedule]. *)
Definition sched_irq_exit (cpu : Z) : M sstate bool :=
  t ← sched_current cpu;
  if SCHED_MAX_CPUS <=? cpu then mret false else
  rq ← get_rq cpu;
  if irq_depth rq =? 0 then mret false else
  upd_rq cpu (λ q, q <| irq_depth := irq_depth q - 1 |>) ;;
  let depth := irq_depth rq - 1 in
  if (depth =? 0) && negb (need_resched rq =? 0) && negb (is_null t) then
    c ← get_task t;
    mret (preempt_count c =? 0)
  else mret false.

Definition sched_tick (cpu : Z) : M sstate unit :=
  lock_sched ;;
  target_mask ← (if cpu =? 0 then
    foldM all_slots (λ target_mask i,
      t ← get_task (Some i);
      if negb (bool_decide (name t = None)) && (state t =? TASK_STATE_BLOCKED)
         && (0 <? sleep_ticks t) then
        upd_task (Some i) (λ x, x <| sleep_ticks := sleep_ticks x - 1 |>) ;;
        if sleep_ticks t - 1 =? 0 then
          sched_make_ready_locked (Some i) ;;
          t ← get_task (Some i);
          mret (if (rq_cpu t <? SCHED_MAX_CPUS) && negb (rq_cpu t =? cpu)
                then Z.lor target_mask (Z.shiftl 1 (rq_cpu t)) else target_mask)
        else mret target_mask
      else mret target_mask) 0
    else mret 0);
  whenM (cpu <? SCHED_MAX_CPUS) (upd_rq cpu (λ q, q <| need_resched := 1 |>)) ;;
  unlock_sched ;;
  whenM (negb (target_mask =? 0)) (gic_send_ipi target_mask 0).

(** ** [schedule], after the reaping: the whole critical section.  The register
    switch is assembly; the lock is released by the code that resumes on the
    other side ([schedule] after [switch_context] or [sched_new_task_kickoff]),
    the last step here. *)
Definition schedule_locked (cpu : Z) : M sstate unit :=
  lock_sched ;;
  if SCHED_MAX_CPUS <=? cpu then unlock_sched else
  prev ← arch_get_current_task cpu;
  p ← get_task prev;
  whenM ((4 <=? id p) && negb (kill_pending p =? 0))
    (upd_task prev (λ x, x <| kill_pending := 0 |> <| state := TASK_STATE_DEAD |>)) ;;
  upd_rq cpu (λ q, q <| need_resched := 0 |>) ;;
  p ← get_task prev;
  whenM (SCHED_MAX_CPUS <=? id p)
    (whenM (state p =? TASK_STATE_RUNNING)
       (upd_task prev (λ x, x <| state := TASK_STATE_READY |>) ;;
        sched_rq_enqueue_locked prev cpu) ;;
     upd_task prev (λ x, x <| current_cpu := TASK_NO_CPU |>)) ;;
  nxt ← sched_pick_next_locked cpu;
  let nxt := if is_null nxt then Some cpu else nxt in
  upd_task nxt (λ x, x <| state := TASK_STATE_RUNNING |> <| current_cpu := cpu |>) ;;
  if ptr_eq nxt prev then unlock_sched else
  n ← get_task nxt;
  modify (λ s, match nxt with
               | Some i => s <| cur_task := <[cpu := i]> (cur_task s) |>
               | None => s
               end) ;;
  modify (λ s, s <| switch_count := <[cpu := u64 (default 0 (switch_count s !! cpu) + 1)]> (switch_count s) |>) ;;
  up (S := P) (mmu_context_switch cpu (mm n)) ;;
  unlock_sched.

(** ** Exit and parenthood *)

(** The critical section of [task_exit]; [schedule] follows. *)
Definition all_other_cpus (cpu : Z) : Z :=
  foldl (λ m j, if j =? cpu then m else Z.lor m (Z.shiftl 1 j)) 0 (upto 0 4).

Definition task_exit (cpu : Z) : M sstate unit :=
  curr ← arch_get_current_task cpu;
  lock_sched ;;
  c ← get_task curr;
  forM_ all_slots (λ i,
    child ← get_task (Some i);
    init ← gets init_task_id;
    whenM (negb (bool_decide (name child = None)) && (parent_id child =? id c)
           && negb (ptr_eq (Some i) curr))
      (upd_task (Some i) (λ x, x <| parent_id := init |>))) ;;
  parent ← iterM all_slots (λ (_ : unit) i,
    t ← get_task (Some i);
    c ← get_task curr;
    mret (if negb (bool_decide (name t = None)) && (id t =? parent_id c) then inr i else inl ())) ();
  let parent := match parent with inr i => Some i | inl _ => None end in
  init ← gets init_task_id;
  (if is_null parent || (id c =? init)
   then upd_task curr (λ x, x <| state := TASK_STATE_DEAD |>)
   else upd_task curr (λ x, x <| state := TASK_STATE_ZOMBIE |>)) ;;
  (if is_null parent then mret () else
   p ← get_task parent;
   whenM (state p =? TASK_STATE_BLOCKED)
     (sched_make_ready_locked parent ;; gic_send_ipi (all_other_cpus cpu) 0)) ;;
  unlock_sched.

Definition sched_register_init_task (t : tptr) : M sstate bool :=
  if is_null t then mret false else
  c ← get_task t;
  if id c <? 4 then mret false else
  lock_sched ;;
  init ← gets init_task_id;
  if negb (init =? SCHED_NO_PARENT) then unlock_sched ;; mret false else
  modify (λ s, s <| init_task_id := id c |>) ;;
  upd_task t (λ x, x <| parent_id := SCHED_NO_PARENT |>) ;;
  unlock_sched ;;
  mret true.

Definition sched_adopt_task (t : tptr) : M sstate bool :=
  if is_null t then mret false else
  c ← get_task t;
  if id c <? 4 then mret false else
  lock_sched ;;
  init ← gets init_task_id;
  if (init =? SCHED_NO_PARENT) || (id c =? init) then unlock_sched ;; mret false else
  upd_task t (λ x, x <| parent_id := init |>) ;;
  unlock_sched ;;
  mret true.

(** ** Blocking and waking *)

(** [state != DEAD && state != ZOMBIE && state != REAPING]. *)
Definition alive (c : task) : bool :=
  negb (state c =? TASK_STATE_DEAD) && negb (state c =? TASK_STATE_ZOMBIE)
  && negb (state c =? TASK_STATE_REAPING).

Definition sched_block_task (t : tptr) : M sstate unit :=
  if is_null t then mret () else
  lock_sched ;;
  c ← get_task t;
  whenM ((4 <=? id c) && alive c && (kill_pending c =? 0))
    (_ ← sched_rq_remove_locked t;
     upd_task t (λ x, x <| state := TASK_STATE_BLOCKED |>)) ;;
  unlock_sched.

Definition sched_wake_task (cpu : Z) (t : tptr) : M sstate unit :=
  if is_null t then mret () else
  lock_sched ;;
  c ← get_task t;
  let woken := (state c =? TASK_STATE_BLOCKED) && (kill_pending c =? 0) in
  whenM woken (sched_make_ready_locked t) ;;
  unlock_sched ;;
  whenM woken (gic_send_ipi (all_other_cpus cpu) 0).

(** Returns whether the task must call [schedule]. *)
Definition sched_park_task (t : tptr) : M sstate bool :=
  if is_null t then mret false else
  c ← get_task t;
  if id c <? 4 then mret false else
  lock_sched ;;
  c ← get_task t;
  blocked ← (if alive c && (kill_pending c =? 0) then
               if negb (wake_pending c =? 0) then
                 upd_task t (λ x, x <| wake_pending := 0 |>) ;; mret false
               else
                 upd_task t (λ x, x <| state := TASK_STATE_BLOCKED |>) ;; mret true
             else mret false);
  unlock_sched ;;
  mret blocked.

Definition sched_unpark_task (cpu : Z) (t : tptr) : M sstate unit :=
  if is_null t then mret () else
  lock_sched ;;
  c ← get_task t;
  let woken := (state c =? TASK_STATE_BLOCKED) && (kill_pending c =? 0) in
  (if woken then sched_make_ready_locked t
   else whenM (alive c && (kill_pending c =? 0)) (upd_task t (λ x, x <| wake_pending := 1 |>))) ;;
  unlock_sched ;;
  whenM woken (gic_send_ipi (all_other_cpus cpu) 0).

Definition sched_sleep_current (cpu ticks : Z) : M sstate bool :=
  t ← sched_current cpu;
  if is_null t then mret false else
  c ← get_task t;
  if id c <? 4 then mret false else
  lock_sched ;;
  c ← get_task t;
  if negb (alive c) || negb (kill_pending c =? 0) then unlock_sched ;; mret false else
  upd_task t (λ x, x <| sleep_ticks := ticks |>) ;;
  (if ticks =? 0 then sched_make_ready_locked t
   else _ ← sched_rq_remove_locked t;
        upd_task t (λ x, x <| state := TASK_STATE_BLOCKED |>)) ;;
  unlock_sched ;;
  mret true.

Definition sched_set_current_exit_status (cpu status : Z) : M sstate unit :=
  t ← sched_current cpu;
  if is_null t then mret () else
  lock_sched ;; upd_task t (λ x, x <| exit_status := status |>) ;; unlock_sched.

(** One round of the loop of [sched_wait4]: a zombie child is collected (its id
    and status), there is no such child, or the caller blocks and calls
    [schedule]. *)
Inductive wait_result : Type :=
  | WaitChild (child_id status : Z)
  | WaitNoChild
  | WaitBlocked.

Definition sched_wait4 (cpu pid : Z) : M sstate wait_result :=
  curr ← sched_current cpu;
  lock_sched ;;
  r ← iterM all_slots (λ found i,
    t ← get_task (Some i);
    c ← get_task curr;
    if negb (bool_decide (name t = None)) && (parent_id t =? id c)
       && ((pid <=? 0) || (s64 (id t) =? pid)) then
      if state t =? TASK_STATE_ZOMBIE then
        upd_task (Some i) (λ x, x <| state := TASK_STATE_DEAD |>) ;;
        mret (inr (id t, exit_status t))
      else mret (inl true)
    else mret (inl found)) false;
  match r with
  | inr (child_id, status) => unlock_sched ;; mret (WaitChild child_id status)
  | inl false => unlock_sched ;; mret WaitNoChild
  | inl true =>
      upd_task curr (λ x, x <| state := TASK_STATE_BLOCKED |>) ;;
      unlock_sched ;;
      mret WaitBlocked
  end.

(** ** Kill *)

(** The first slot of a live task with the given id. *)
Definition find_task (task_id : Z) : M sstate tptr :=
  r ← iterM all_slots (λ (_ : unit) i,
    t ← get_task (Some i);
    mret (if bool_decide (name t = None) || negb (id t =? task_id) then inl () else inr i)) ();
  mret (match r with inr i => Some i | inl _ => None end).

Definition sched_kill_task (cpu task_id : Z) : M sstate bool :=
  lock_sched ;;
  t ← find_task task_id;
  curr ← sched_current cpu;
  '(killed, target_cpu) ← (if is_null t then mret (false, TASK_NO_CPU) else
    c ← get_task t;
    if ptr_eq t curr || (id c <? 4) || negb (alive c) then mret (false, TASK_NO_CPU) else
    if (state c =? TASK_STATE_RUNNING) && negb (current_cpu c =? TASK_NO_CPU) then
      upd_task t (λ x, x <| kill_pending := 1 |>) ;; mret (true, current_cpu c)
    else
      upd_task t (λ x, x <| state := TASK_STATE_DEAD |> <| sleep_ticks := 0 |>
                         <| wake_pending := 0 |>) ;;
      mret (true, TASK_NO_CPU));
  unlock_sched ;;
  (if killed && negb (target_cpu =? TASK_NO_CPU) then gic_send_ipi (u32 (Z.shiftl 1 target_cpu)) 0 else mret ()) ;;
  mret killed.

Definition sched_task_snapshot (task_id : Z) : M sstate (option (Z * Z * Z)) :=
  lock_sched ;;
  t ← find_task task_id;
  r ← (if is_null t then mret None else
       c ← get_task t; mret (Some (state c, current_cpu c, kill_pending c)));
  unlock_sched ;;
  mret r.

(** The test of the loop of [sched_kill_task_sync]: whether it returns;
    otherwise the caller runs [schedule] and tests again. *)
Definition kill_sync_done (task_id : Z) : M sstate bool :=
  r ← sched_task_snapshot task_id;
  mret (match r with
        | None => true
        | Some (st, cc, _) =>
            (st =? TASK_STATE_DEAD) || (st =? TASK_STATE_ZOMBIE) || (st =? TASK_STATE_REAPING)
            || (cc =? TASK_NO_CPU)
        end).

End sched.

Arguments sstate P : clear implicits.

