(* ===== verification/SchedQueue.v ===== *)
(** * Run queues of the scheduler: each is a FIFO list of tasks.

    [rq_rep s Q] says that the queue of CPU [c] stands for the list [Q c].  The
    lemmas give the effect of the run-queue functions of sched.c on [Q], with
    [rq_frame] for what they leave alone. *)

From S2P Require Import Prelude Machine Task WaitQueue Heap Sched.

Open Scope kernel_scope.

Section queues.
Context {P : Type} `{SchedEnv P}.
Implicit Types s : sstate P.

Definition tk s (i : Z) : task := task_at (tasks s) i.
Definition rnext s (i : Z) : tptr := rq_next (tk s i).

Definition qs : Type := Z → list Z.
Definition qupd (Q : qs) (c : Z) (l : list Z) : qs := λ c', if decide (c' = c) then l else Q c'.

Lemma qupd_eq Q c l : qupd Q c l c = l.
Proof. unfold qupd. by rewrite decide_True. Qed.
Lemma qupd_ne Q c c' l : c' ≠ c → qupd Q c l c' = Q c'.
Proof. intros. unfold qupd. by rewrite decide_False. Qed.

(** A task as the queue requires it. *)
Record queued s (c i : Z) : Prop := {
  qd_slot : slot_ok i = true;
  qd_on : on_rq (tk s i) = 1;
  qd_cpu : rq_cpu (tk s i) = c;
  qd_id : 4 ≤ id (tk s i);
}.

Record rq_rep s (Q : qs) : Prop := {
  rr_q : ∀ c, cpu_ok c = true → qrep (rnext s) (rq_head (rq_at s c)) (rq_tail (rq_at s c)) (Q c);
  rr_len : ∀ c, cpu_ok c = true → nr_running (rq_at s c) = Z.of_nat (length (Q c));
  rr_in : ∀ c i, cpu_ok c = true → i ∈ Q c → queued s c i;
  rr_out : ∀ i, slot_ok i = true → on_rq (tk s i) = 0 ∨
             (on_rq (tk s i) = 1 ∧ ∃ c, cpu_ok c = true ∧ i ∈ Q c);
}.

(** The task without its run-queue fields. *)
Definition core (t : task) : task :=
  t <| rq_cpu := 0 |> <| rq_next := None |> <| on_rq := 0 |>.

(** What the run-queue functions leave alone. *)
Record rq_frame s s' : Prop := {
  rf_env : s_env s' = s_env s;
  rf_core : ∀ i, core (tk s' i) = core (tk s i);
  rf_next_id : next_task_id s' = next_task_id s;
  rf_init : init_task_id s' = init_task_id s;
  rf_cur : cur_task s' = cur_task s;
  rf_sw : switch_count s' = switch_count s;
}.

#[global] Instance rq_frame_preorder : PreOrder rq_frame.
Proof.
  split; [by split|]. intros s1 s2 s3 [] []. split; try congruence.
Qed.

Lemma core_fields t t' : core t = core t' →
  id t = id t' ∧ state t = state t' ∧ name t = name t' ∧ current_cpu t = current_cpu t' ∧
  kill_pending t = kill_pending t' ∧ wake_pending t = wake_pending t' ∧ next t = next t' ∧
  parent_id t = parent_id t' ∧ sleep_ticks t = sleep_ticks t' ∧ mm t = mm t' ∧
  exit_status t = exit_status t'.
Proof. destruct t, t'. unfold core. cbn. intros [=]. subst. done. Qed.

Lemma rf_id s s' i : rq_frame s s' → id (tk s' i) = id (tk s i).
Proof. intros [_ Hc _ _ _ _]. specialize (Hc i). apply core_fields in Hc. tauto. Qed.
Lemma rf_state s s' i : rq_frame s s' → state (tk s' i) = state (tk s i).
Proof. intros [_ Hc _ _ _ _]. specialize (Hc i). apply core_fields in Hc. tauto. Qed.
Lemma rf_name s s' i : rq_frame s s' → name (tk s' i) = name (tk s i).
Proof. intros [_ Hc _ _ _ _]. specialize (Hc i). apply core_fields in Hc. tauto. Qed.
Lemma rf_ccpu s s' i : rq_frame s s' → current_cpu (tk s' i) = current_cpu (tk s i).
Proof. intros [_ Hc _ _ _ _]. specialize (Hc i). apply core_fields in Hc. tauto. Qed.
Lemma rf_nexts s s' i : rq_frame s s' → next (tk s' i) = next (tk s i).
Proof. intros [_ Hc _ _ _ _]. specialize (Hc i). apply core_fields in Hc. tauto. Qed.

(** ** Symbolic execution *)

Lemma tk_upd s i t j :
  tk (s <| tasks := <[i := t]> (tasks s) |>) j = if decide (i = j) then t else tk s j.
Proof. unfold tk. cbn. rewrite task_at_insert. done. Qed.

Lemma wp_get_task i (Q : task → sstate P → Prop) s :
  slot_ok i = true → Q (tk s i) s → wp (get_task (Some i)) Q s.
Proof. intros Hi HQ. unfold get_task. rewrite wp_up. apply wp_tget; [done|]. by destruct s. Qed.

Lemma wp_upd_task i f (Q : unit → sstate P → Prop) s :
  slot_ok i = true →
  Q () (s <| tasks := <[i := f (tk s i)]> (tasks s) |>) →
  wp (upd_task (Some i) f) Q s.
Proof. intros Hi HQ. unfold upd_task. rewrite wp_up. by apply wp_tupd. Qed.

Lemma wp_get_rq c (Q : sched_run_queue → sstate P → Prop) s :
  cpu_ok c = true → Q (rq_at s c) s → wp (get_rq c) Q s.
Proof. unfold wp, get_rq. by intros ->. Qed.

Lemma wp_upd_rq c f (Q : unit → sstate P → Prop) s :
  cpu_ok c = true → Q () (s <| run_queues := <[c := f (rq_at s c)]> (run_queues s) |>) →
  wp (upd_rq c f) Q s.
Proof. unfold wp, upd_rq. by intros ->. Qed.

Lemma rq_at_upd s c q c' :
  rq_at (s <| run_queues := <[c := q]> (run_queues s) |>) c' =
  if decide (c = c') then q else rq_at s c'.
Proof. unfold rq_at. cbn. rewrite lookup_insert. by case_decide. Qed.

Lemma cpu_ok_spec c : cpu_ok c = true ↔ 0 ≤ c < 4.
Proof. unfold cpu_ok, SCHED_MAX_CPUS. rewrite andb_true_iff, Z.leb_le, Z.ltb_lt. done. Qed.

Lemma queue_length s Q c : rq_rep s Q → cpu_ok c = true → (length (Q c) ≤ 32)%nat.
Proof.
  intros Hr Hc. apply slots_length; [apply (rr_q _ _ Hr c Hc)|].
  apply Forall_forall. intros i Hi. by apply (rr_in _ _ Hr c i Hc) in Hi as [].
Qed.

(** The fields the representation depends on. *)
Definition rq_view (t : task) : tptr * Z * Z * Z := (rq_next t, on_rq t, rq_cpu t, id t).

Lemma rq_rep_same_in s s' Q : rq_rep s Q →
  (∀ i, on_rq (tk s' i) = on_rq (tk s i)) →
  (∀ c i, cpu_ok c = true → i ∈ Q c → rq_view (tk s' i) = rq_view (tk s i)) →
  (∀ c, rq_head (rq_at s' c) = rq_head (rq_at s c) ∧ rq_tail (rq_at s' c) = rq_tail (rq_at s c) ∧
        nr_running (rq_at s' c) = nr_running (rq_at s c)) →
  rq_rep s' Q.
Proof.
  intros [Hq Hl Hin Hout] Hon Ht Hc.
  assert (∀ c i, cpu_ok c = true → i ∈ Q c → rnext s' i = rnext s i ∧ on_rq (tk s' i) = on_rq (tk s i) ∧
            rq_cpu (tk s' i) = rq_cpu (tk s i) ∧ id (tk s' i) = id (tk s i)) as Hv.
  { intros c i Hok Hi. specialize (Ht c i Hok Hi). unfold rq_view, rnext in *. by injection Ht as -> -> -> ->. }
  split.
  - intros c Hok. destruct (Hc c) as (-> & -> & _). eapply qrep_frame; [by apply Hq|].
    intros i Hi. by apply (Hv c).
  - intros c Hok. destruct (Hc c) as (_ & _ & ->). by apply Hl.
  - intros c i Hok Hi. destruct (Hv c i Hok Hi) as (_ & E1 & E2 & E3), (Hin c i Hok Hi) as [? ? ? ?].
    split; congruence || lia.
  - intros i Hi. rewrite Hon. by apply Hout.
Qed.

Lemma rq_rep_same s s' Q : rq_rep s Q →
  (∀ i, rq_view (tk s' i) = rq_view (tk s i)) →
  (∀ c, rq_head (rq_at s' c) = rq_head (rq_at s c) ∧ rq_tail (rq_at s' c) = rq_tail (rq_at s c) ∧
        nr_running (rq_at s' c) = nr_running (rq_at s c)) →
  rq_rep s' Q.
Proof.
  intros Hr Ht Hc. eapply rq_rep_same_in; [done| |by intros|done].
  intros i. specialize (Ht i). unfold rq_view in Ht. by injection Ht.
Qed.

(** The queue of one CPU changes to [l]; nothing else about the queues does. *)
Lemma rq_rep_change s s' Q c l :
  rq_rep s Q → cpu_ok c = true →
  qrep (rnext s') (rq_head (rq_at s' c)) (rq_tail (rq_at s' c)) l →
  nr_running (rq_at s' c) = Z.of_nat (length l) →
  (∀ c', c' ≠ c → rq_at s' c' = rq_at s c') →
  (∀ i, id (tk s' i) = id (tk s i)) →
  (∀ i, i ∈ l → slot_ok i = true ∧ on_rq (tk s' i) = 1 ∧ rq_cpu (tk s' i) = c ∧ 4 ≤ id (tk s i)) →
  (∀ i, i ∉ l → i ∈ Q c → on_rq (tk s' i) = 0) →
  (∀ i, i ∉ l → i ∉ Q c → rq_cpu (tk s' i) = rq_cpu (tk s i) ∧ on_rq (tk s' i) = on_rq (tk s i) ∧
     rnext s' i = rnext s i) →
  (∀ i c', c' ≠ c → cpu_ok c' = true → i ∈ Q c' → i ∉ l) →
  rq_rep s' (qupd Q c l).
Proof.
  intros Hr Hc Hq Hlen Hrq Hid Hl Hgone Hout Hdis.
  assert (∀ i c', c' ≠ c → cpu_ok c' = true → i ∈ Q c' → i ∉ Q c) as Hdj.
  { intros i c' Hne Hc' Hi Hi2. destruct (rr_in _ _ Hr c' i Hc' Hi), (rr_in _ _ Hr c i Hc Hi2). congruence. }
  split.
  - intros c' Hc'. unfold qupd. case_decide as Hcc; [by subst c'|]. rewrite Hrq by done.
    eapply qrep_frame; [by apply (rr_q _ _ Hr)|]. intros i Hi. apply Hout; [by eapply Hdis|by eapply Hdj].
  - intros c' Hc'. unfold qupd. case_decide as Hcc; [by subst c'|]. rewrite Hrq by done. by apply (rr_len _ _ Hr).
  - intros c' i Hc'. unfold qupd. case_decide as Hcc.
    + subst c'. intros Hi. destruct (Hl i Hi) as (? & ? & ? & ?). split; try done. by rewrite Hid.
    + intros Hi. destruct (rr_in _ _ Hr c' i Hc' Hi) as [? ? ? ?].
      destruct (Hout i) as (E1 & E2 & _); [by eapply Hdis|by eapply Hdj|].
      split; rewrite ?E1, ?E2, ?Hid; done.
  - intros i Hi. destruct (decide (i ∈ l)) as [Hil|Hil].
    + right. destruct (Hl i Hil) as (_ & ? & _). split; [done|]. exists c. by rewrite qupd_eq.
    + destruct (decide (i ∈ Q c)) as [Hq'|Hq']; [left; by apply Hgone|].
      destruct (Hout i Hil Hq') as (_ & E & _). rewrite E.
      destruct (rr_out _ _ Hr i Hi) as [?|(? & c' & Hc' & Hin)]; [by left|]. right.
      split; [done|]. exists c'. split; [done|]. rewrite qupd_ne; [done|]. intros ->. done.
Qed.

(** ** Enqueue *)

Lemma is_null_some i : is_null (Some i) = false.
Proof. done. Qed.
Lemma is_null_none : is_null None = true.
Proof. done. Qed.

Lemma rq_enqueue_spec s Q c i :
  rq_rep s Q → cpu_ok c = true → slot_ok i = true →
  wp (sched_rq_enqueue_locked (Some i) c) (λ _ s',
    if decide (4 ≤ id (tk s i) ∧ on_rq (tk s i) = 0)
    then rq_rep s' (qupd Q c (Q c ++ [i])) ∧ rq_frame s s' ∧ next_enqueue_cpu s' = next_enqueue_cpu s
    else s' = s) s.
Proof.
  intros Hr Hc Hi. unfold sched_rq_enqueue_locked. rewrite is_null_some.
  rewrite wp_bind. apply wp_get_task; [done|].
  apply cpu_ok_spec in Hc as Hcb. unfold SCHED_MAX_CPUS. bfalse (4 <=? c). rewrite orb_false_r.
  destruct (decide (4 ≤ id (tk s i) ∧ on_rq (tk s i) = 0)) as [[Hd1 Hd2]|Hd].
  2: { replace (_ || _) with true; [by apply wp_ret|]. symmetry. apply orb_true_iff.
       destruct (id (tk s i) <? 4) eqn:?; bool_to_prop; [by left|right].
       apply negb_true_iff, Z.eqb_neq. tauto. }
  bfalse (id (tk s i) <? 4). btrue (on_rq (tk s i) =? 0). cbn [negb orb].
  assert (∀ c', cpu_ok c' = true → i ∉ Q c') as Hnin.
  { intros c' Hc' Hin. destruct (rr_in _ _ Hr c' i Hc' Hin). congruence. }
  wp_steps. apply wp_upd_task; [done|].
  rewrite wp_bind. apply wp_get_rq; [done|]. change (rq_at (s <| tasks := _ |>) c) with (rq_at s c).
  pose proof (rr_q _ _ Hr c Hc) as Hq. pose proof (qrep_empty _ _ _ _ Hq) as [_ Hemp].
  pose proof (q_tail _ _ _ _ Hq) as Htl. pose proof (queue_length s Q c Hr Hc).
  match goal with |- wp _ _ ?x => set (s1 := x) end.
  assert (∀ s2, s_env s2 = s_env s → next_task_id s2 = next_task_id s → init_task_id s2 = init_task_id s →
            cur_task s2 = cur_task s → switch_count s2 = switch_count s →
            next_enqueue_cpu s2 = next_enqueue_cpu s →
            (∀ j, tk s2 j = (if decide (j = i) then (tk s j) <| rq_cpu := c |> <| rq_next := None |> <| on_rq := 1 |>
                             else if decide (rq_tail (rq_at s c) = Some j) then (tk s j) <| rq_next := Some i |>
                             else tk s j)) →
            rq_at s2 c = (rq_at s c) <| rq_head := match Q c with [] => Some i | _ => rq_head (rq_at s c) end |>
                           <| rq_tail := Some i |> <| nr_running := u32 (nr_running (rq_at s c) + 1) |> →
            (∀ c', c' ≠ c → rq_at s2 c' = rq_at s c') →
            rq_rep s2 (qupd Q c (Q c ++ [i])) ∧ rq_frame s s2 ∧ next_enqueue_cpu s2 = next_enqueue_cpu s)
    as Hfin.
  { intros s2 E1 E2 E3 E4 E5 E6 Htk Hrq Hrqo.
    assert (rq_frame s s2) as Hfr.
    { split; try done. intros j. rewrite Htk. repeat case_decide; done. }
    split; [|done]. eapply (rq_rep_change s s2); try done.
    - rewrite Hrq. cbn. eapply qrep_push; [exact Hq|by apply Hnin|..].
      + unfold rnext. by rewrite Htk, decide_True.
      + intros y Hy. unfold rnext. rewrite Htk, decide_False, decide_True; [done|done|].
        intros ->. rewrite Hy in Htl. by apply (Hnin c), last_Some_elem_of.
      + intros y Hy1 Hy2. unfold rnext. by rewrite Htk, decide_False, decide_False.
    - rewrite Hrq. cbn. rewrite (rr_len _ _ Hr c Hc), u32_small, length_app; cbn [length]; lia.
    - intros j. by apply rf_id.
    - intros j [Hj| ->%list_elem_of_singleton]%elem_of_app.
      + destruct (rr_in _ _ Hr c j Hc Hj) as [? ? ? ?]. rewrite !Htk.
        assert (j ≠ i) by (intros ->; by apply (Hnin c)). rewrite !(decide_False (P := j = i)) by done.
        case_decide; done.
      + rewrite !Htk, !decide_True by done. done.
    - intros j [Hj _]%not_elem_of_app Hj2. done.
    - intros j [Hj Hji]%not_elem_of_app Hj2. rewrite list_elem_of_singleton in Hji.
      unfold rnext. rewrite !Htk, !(decide_False (P := j = i)) by done.
      rewrite decide_False; [done|]. intros Hl. rewrite Hl in Htl. by apply Hj, last_Some_elem_of.
    - intros j c' Hne Hc' Hj [Hj2|Hj2]%elem_of_app.
      + destruct (rr_in _ _ Hr c' j Hc' Hj), (rr_in _ _ Hr c j Hc Hj2). congruence.
      + apply list_elem_of_singleton in Hj2 as ->. by apply (Hnin c'). }
  wp_step. destruct (rq_tail (rq_at s c)) as [y|] eqn:Hy.
  - rewrite is_null_some. symmetry in Htl. pose proof (last_Some_elem_of _ _ Htl) as Hyin.
    destruct (rr_in _ _ Hr c y Hc Hyin) as [Hys _ _ _].
    assert (y ≠ i) by (intros ->; by apply (Hnin c)).
    wp_step. apply wp_upd_task; [done|]. match goal with |- wp _ _ ?x => set (s2 := x) end.
    apply wp_upd_rq; [done|]. apply wp_upd_rq; [done|].
    apply Hfin; try done.
    + intros j. match goal with |- tk ?x j = _ => change (tk x j) with (tk s2 j) end. unfold s2. rewrite tk_upd. unfold s1. rewrite !tk_upd.
      rewrite (decide_False (P := i = y)) by done.
      destruct (decide (j = i)) as [->|]; [by rewrite decide_False, decide_True by done|].
      rewrite (decide_False (P := i = j)) by done. repeat case_decide; congruence.
    + rewrite rq_at_upd, decide_True by done. rewrite rq_at_upd, decide_True by done.
      destruct (Q c); [by apply not_elem_of_nil in Hyin|].
      unfold rq_at. cbn. fold (rq_at s c). by destruct (rq_at s c).
    + intros c' Hne. rewrite rq_at_upd, decide_False by done. by rewrite rq_at_upd, decide_False by done.
  - rewrite is_null_none. apply wp_upd_rq; [done|]. apply wp_upd_rq; [done|].
    assert (Q c = []) as HQ by (by apply Hemp).
    apply Hfin; try done.
    + intros j. match goal with |- tk ?x j = _ => change (tk x j) with (tk s1 j) end. unfold s1. rewrite tk_upd.
      destruct (decide (j = i)) as [->|]; [by rewrite decide_True|]. by rewrite !decide_False by done.
    + rewrite rq_at_upd, decide_True by done. rewrite rq_at_upd, decide_True by done. by rewrite HQ.
    + intros c' Hne. rewrite rq_at_upd, decide_False by done. by rewrite rq_at_upd, decide_False by done.
Qed.

(** ** Dequeue and remove *)

(** The state after unlinking [i] from between [pre] and [post]. *)
Lemma rq_rep_take s s2 Q c pre i post :
  rq_rep s Q → cpu_ok c = true → Q c = pre ++ i :: post →
  s_env s2 = s_env s → next_task_id s2 = next_task_id s → init_task_id s2 = init_task_id s →
  cur_task s2 = cur_task s → switch_count s2 = switch_count s →
  (∀ j, tk s2 j = if decide (j = i) then (tk s j) <| rq_next := None |> <| on_rq := 0 |>
                  else if decide (last pre = Some j) then (tk s j) <| rq_next := rq_next (tk s i) |>
                  else tk s j) →
  rq_head (rq_at s2 c) = (match pre with [] => rq_next (tk s i) | _ => rq_head (rq_at s c) end) →
  rq_tail (rq_at s2 c) = (if decide (rq_tail (rq_at s c) = Some i) then last pre else rq_tail (rq_at s c)) →
  nr_running (rq_at s2 c) = nr_running (rq_at s c) - 1 →
  (∀ c', c' ≠ c → rq_at s2 c' = rq_at s c') →
  rq_rep s2 (qupd Q c (pre ++ post)) ∧ rq_frame s s2.
Proof.
  intros Hr Hc HQ E1 E2 E3 E4 E5 Htk Hhd Htl Hnr Hrqo.
  pose proof (rr_q _ _ Hr c Hc) as Hq. rewrite HQ in Hq. pose proof (q_nodup _ _ _ _ Hq) as Hnd.
  pose proof Hnd as (_ & Hd & [Hi2 _]%NoDup_cons)%NoDup_app.
  assert (i ∉ pre) as Hi1 by (intros Hin; apply (Hd i Hin); set_solver).
  assert (rq_frame s s2) as Hfr.
  { split; try done. intros j. rewrite Htk. repeat case_decide; done. }
  split; [|done]. eapply (rq_rep_change s s2); try done.
  - rewrite Hhd, Htl. change (rq_next (tk s i)) with (rnext s i).
    eapply qrep_remove; [exact Hq|..].
    + intros y Hy. unfold rnext. rewrite Htk, decide_False, decide_True; [done|done|].
      intros ->. by apply Hi1, last_Some_elem_of.
    + intros y Hy1 Hy2. unfold rnext. by rewrite Htk, !decide_False by done.
  - rewrite Hnr, (rr_len _ _ Hr c Hc), HQ, !length_app. cbn [length]. lia.
  - intros j. by apply rf_id.
  - intros j Hj. assert (j ≠ i) by (intros ->; apply elem_of_app in Hj; tauto).
    assert (j ∈ Q c) as Hj' by (rewrite HQ; set_solver).
    destruct (rr_in _ _ Hr c j Hc Hj') as [? ? ? ?]. rewrite !Htk, !(decide_False (P := j = i)) by done.
    destruct (decide (last pre = Some j)); done.
  - intros j Hj1 Hj2. rewrite HQ in Hj2. assert (j = i) as -> by set_solver.
    by rewrite Htk, decide_True.
  - intros j Hj1 Hj2. rewrite HQ in Hj2. unfold rnext. rewrite !Htk.
    rewrite !(decide_False (P := j = i)) by set_solver.
    rewrite decide_False; [done|]. intros Hl%last_Some_elem_of. set_solver.
  - intros j c' Hne Hc' Hj Hj2. assert (j ∈ Q c) as Hj' by (rewrite HQ; set_solver).
    destruct (rr_in _ _ Hr c' j Hc' Hj), (rr_in _ _ Hr c j Hc Hj'). congruence.
Qed.

Lemma wp_rq_dec c (Q : unit → sstate P → Prop) s :
  cpu_ok c = true → 0 < nr_running (rq_at s c) →
  Q () (s <| run_queues := <[c := (rq_at s c) <| nr_running := nr_running (rq_at s c) - 1 |>]> (run_queues s) |>) →
  wp (rq_dec c) Q s.
Proof.
  intros Hc Hn HQ. unfold rq_dec. apply wp_upd_rq; [done|]. by btrue (0 <? nr_running (rq_at s c)).
Qed.

Lemma rq_dequeue_spec s Q c :
  rq_rep s Q → cpu_ok c = true →
  wp (sched_rq_dequeue_locked c) (λ r s',
    match Q c with
    | [] => r = None ∧ s' = s
    | i :: l => r = Some i ∧ rq_rep s' (qupd Q c l) ∧ rq_frame s s' ∧
                next_enqueue_cpu s' = next_enqueue_cpu s
    end) s.
Proof.
  intros Hr Hc. unfold sched_rq_dequeue_locked. rewrite wp_bind. apply wp_get_rq; [done|].
  pose proof (rr_q _ _ Hr c Hc) as Hq. pose proof (rr_len _ _ Hr c Hc) as Hlen.
  destruct (Q c) as [|i l] eqn:HQ.
  { rewrite (q_head _ _ _ _ Hq). cbn [head]. rewrite is_null_none. by apply wp_ret. }
  assert (i ∈ Q c) as Hin by (rewrite HQ; set_solver).
  destruct (rr_in _ _ Hr c i Hc Hin) as [His _ _ _].
  rewrite (q_head _ _ _ _ Hq). cbn [head]. rewrite is_null_some. wp_step. apply wp_get_task; [done|].
  set (nx := rq_next (tk s i)).
  assert (rq_tail (rq_at s c) = Some i ↔ nx = None) as Htl.
  { rewrite (q_tail _ _ _ _ Hq). unfold nx. fold (rnext s i). rewrite (qrep_split _ _ _ [] i l Hq).
    pose proof (q_nodup _ _ _ _ Hq) as [Hn _]%NoDup_cons. rewrite last_cons.
    destruct l as [|y l]; [done|]. split; [|done].
    destruct (last (y :: l)) as [z|] eqn:Hz; [|by apply last_None in Hz].
    intros [= ->]. by apply last_Some_elem_of in Hz. }
  wp_step. apply wp_upd_rq; [done|]. set (s1 := s <| run_queues := _ |>). wp_step.
  set (s2 := if is_null nx then s1 <| run_queues := <[c := (rq_at s1 c) <| rq_tail := None |>]> (run_queues s1) |> else s1).
  enough (wp (upd_task (Some i) (λ x, x <| rq_next := None |> <| on_rq := 0 |>) ;; rq_dec c ;; mret (Some i))
            (λ r s', r = Some i ∧ rq_rep s' (qupd Q c l) ∧ rq_frame s s' ∧
               next_enqueue_cpu s' = next_enqueue_cpu s) s2) as Hw.
  { subst s2. destruct (is_null nx); cbn [whenM]; [apply wp_upd_rq; [done|exact Hw]|apply wp_ret; exact Hw]. }
  assert (∀ j, tk s2 j = tk s j) as Htk2 by (intros j; unfold s2; by destruct (is_null nx)).
  assert (rq_at s2 c = (rq_at s c) <| rq_head := nx |>
            <| rq_tail := if decide (rq_tail (rq_at s c) = Some i) then None else rq_tail (rq_at s c) |>) as Hrq2.
  { unfold s2. destruct nx as [y|]; [rewrite is_null_some|rewrite is_null_none].
    - rewrite decide_False by (intros ?%Htl; done). unfold s1. rewrite rq_at_upd, decide_True by done.
      by destruct (rq_at s c).
    - rewrite decide_True by (by apply Htl). rewrite rq_at_upd, decide_True by done.
      unfold s1. by rewrite rq_at_upd, decide_True by done. }
  assert (∀ c', c' ≠ c → rq_at s2 c' = rq_at s c') as Hrqo.
  { intros c' Hne. unfold s2. destruct (is_null nx); unfold s1; rewrite ?rq_at_upd, ?decide_False by done; done. }
  assert (s_env s2 = s_env s ∧ next_task_id s2 = next_task_id s ∧ init_task_id s2 = init_task_id s ∧
    cur_task s2 = cur_task s ∧ switch_count s2 = switch_count s ∧ next_enqueue_cpu s2 = next_enqueue_cpu s)
    as (E1 & E2 & E3 & E4 & E5 & E6) by (unfold s2; by destruct (is_null nx)).
  clearbody s2. wp_step. apply wp_upd_task; [done|]. wp_step.
  match goal with |- wp _ _ ?x => set (s3 := x) end.
  assert (rq_at s3 c = rq_at s2 c) as Hrq3 by done.
  apply wp_rq_dec; [done|rewrite Hrq3, Hrq2; cbn [nr_running setf]; rewrite Hlen; cbn [length]; lia|].
  apply wp_ret. split; [done|]. match goal with |- rq_rep ?x _ ∧ _ => set (s4 := x) end.
  enough (rq_rep s4 (qupd Q c ([] ++ l)) ∧ rq_frame s s4) as [? ?] by done.
  assert (rq_at s4 c = (rq_at s2 c) <| nr_running := nr_running (rq_at s2 c) - 1 |>) as Hrq4.
  { unfold s4. by rewrite rq_at_upd, decide_True. }
  apply (rq_rep_take s s4 Q c [] i l); try done.
  - intros j. change (tk s4 j) with (tk s3 j). unfold s3. rewrite tk_upd. rewrite !Htk2.
    destruct (decide (j = i)) as [->|]; [by rewrite decide_True|]. by rewrite !decide_False by done.
  - by rewrite Hrq4, Hrq2.
  - by rewrite Hrq4, Hrq2.
  - by rewrite Hrq4, Hrq2.
  - intros c' Hne. unfold s4. rewrite rq_at_upd, decide_False by done. by apply Hrqo.
Qed.

Lemma ptr_eq_some i j : ptr_eq (Some i) (Some j) = bool_decide (i = j).
Proof. unfold ptr_eq. apply bool_decide_ext. split; [by intros [= ->]|by intros ->]. Qed.

(** Removing [i]: from whichever queue it is in. *)
Lemma rq_remove_spec s Q i :
  rq_rep s Q → slot_ok i = true →
  wp (sched_rq_remove_locked (Some i)) (λ b s',
    (on_rq (tk s i) = 0 ∧ b = false ∧ s' = s) ∨
    (∃ c, cpu_ok c = true ∧ i ∈ Q c ∧ b = true ∧ rq_rep s' (qupd Q c (without i (Q c))) ∧
          rq_frame s s' ∧ next_enqueue_cpu s' = next_enqueue_cpu s)) s.
Proof.
  intros Hr Hi. unfold sched_rq_remove_locked. rewrite is_null_some. wp_step. apply wp_get_task; [done|].
  destruct (rr_out _ _ Hr i Hi) as [Hon|(Hon & c & Hc & Hin)]; rewrite Hon.
  { cbn [Z.eqb orb]. apply wp_ret. by left. }
  destruct (rr_in _ _ Hr c i Hc Hin) as [_ _ Hcpu _]. rewrite Hcpu.
  pose proof (proj1 (cpu_ok_spec c) Hc). unfold SCHED_MAX_CPUS. bfalse (4 <=? c). cbn [Z.eqb orb].
  pose proof (rr_q _ _ Hr c Hc) as Hq. pose proof (q_nodup _ _ _ _ Hq) as Hnd.
  pose proof (rr_len _ _ Hr c Hc) as Hlen. pose proof (queue_length s Q c Hr Hc) as Hl32.
  wp_step. apply wp_get_rq; [done|]. set (rq := rq_at s c) in *.
  match goal with |- wp _ ?X _ => set (Post := X) end.
  set (I := λ (n : nat) '((prev, cur) : tptr * tptr) (s' : sstate P), s' = s ∧
    ∃ pre post, Q c = pre ++ post ∧ prev = last pre ∧ cur = head post ∧ n = length post ∧ i ∉ pre).
  apply (wp_whileM _ _ _ I _ (length (Q c))).
  { unfold MAX_TASKS. lia. }
  { split; [done|]. exists [], (Q c). split; [done|]. split; [done|]. split; [apply Hq|].
    split; [done|]. apply not_elem_of_nil. }
  intros n [prev cur] s' (-> & pre & post & HQ & -> & -> & -> & Hpre).
  destruct post as [|x post]; cbn [head].
  { exfalso. rewrite HQ, app_nil_r in Hin. done. }
  assert (slot_ok x = true) as Hx.
  { apply (rr_in _ _ Hr c x Hc). rewrite HQ. set_solver. }
  rewrite is_null_some, ptr_eq_some. case_bool_decide as Hxi.
  2: { wp_step. apply wp_get_task; [done|]. apply wp_ret. exists (length post). split; [cbn; lia|].
    split; [done|]. exists (pre ++ [x]), post. split; [by rewrite <- app_assoc|].
    split; [by rewrite last_snoc|]. rewrite HQ in Hq.
    split; [by apply (qrep_split _ _ _ _ _ _ Hq)|]. split; [done|]. set_solver. }
  subst x. rewrite HQ in Hq. set (nx := rq_next (tk s i)).
  wp_step. apply wp_get_task; [done|].
  set (s1 := match last pre with
             | None => s <| run_queues := <[c := rq <| rq_head := nx |>]> (run_queues s) |>
             | Some y => s <| tasks := <[y := (tk s y) <| rq_next := nx |>]> (tasks s) |>
             end).
  set (s2 := if ptr_eq (rq_tail rq) (Some i)
             then s1 <| run_queues := <[c := (rq_at s1 c) <| rq_tail := last pre |>]> (run_queues s1) |> else s1).
  assert (∀ j, tk s2 j = if decide (last pre = Some j) then (tk s j) <| rq_next := nx |> else tk s j) as Htk2.
  { intros j. assert (tk s2 j = tk s1 j) as -> by (unfold s2; by destruct (ptr_eq _ _)).
    unfold s1. destruct (last pre) as [y|] eqn:Hl.
    - rewrite tk_upd. destruct (decide (y = j)) as [->|]; [by rewrite decide_True|].
      by rewrite decide_False by congruence.
    - by rewrite decide_False. }
  assert (rq_at s1 c = rq <| rq_head := match pre with [] => nx | _ => rq_head rq end |>) as Hrq1.
  { unfold s1. destruct (last pre) as [y|] eqn:Hl.
    - destruct pre; [done|]. by destruct rq eqn:E; change (rq_at _ c) with rq; rewrite E.
    - apply last_None in Hl as ->. by rewrite rq_at_upd, decide_True. }
  assert (rq_at s2 c = rq <| rq_head := match pre with [] => nx | _ => rq_head rq end |>
            <| rq_tail := if decide (rq_tail rq = Some i) then last pre else rq_tail rq |>) as Hrq2.
  { unfold s2, ptr_eq. case_bool_decide as Ht.
    - rewrite decide_True by done. rewrite rq_at_upd, decide_True by done. by rewrite Hrq1.
    - rewrite decide_False by done. rewrite Hrq1. by destruct rq. }
  assert (∀ c', c' ≠ c → rq_at s2 c' = rq_at s c') as Hrqo.
  { intros c' Hne. unfold s2, s1. destruct (ptr_eq _ _), (last pre);
      rewrite ?rq_at_upd, ?decide_False by done; done. }
  assert (s_env s2 = s_env s ∧ next_task_id s2 = next_task_id s ∧ init_task_id s2 = init_task_id s ∧
    cur_task s2 = cur_task s ∧ switch_count s2 = switch_count s ∧ next_enqueue_cpu s2 = next_enqueue_cpu s)
    as (E1 & E2 & E3 & E4 & E5 & E6) by (unfold s2, s1; by destruct (ptr_eq _ _), (last pre)).
  enough (wp (upd_task (Some i) (λ x, x <| rq_next := None |> <| on_rq := 0 |>) ;; rq_dec c ;; mret (inr true))
     (λ r s', match r with
              | inl b' => ∃ n', (n' < length (i :: post))%nat ∧ I n' b' s'
              | inr b => Post b s'
              end) s2) as Hw.
  { wp_step. unfold is_null. destruct (last pre) as [y|] eqn:Hl.
    - assert (y ∈ pre) as Hy by (by apply last_Some_elem_of).
      assert (slot_ok y = true) by (apply (rr_in _ _ Hr c y Hc); rewrite HQ; set_solver).
      rewrite (bool_decide_false (Some y = None)) by done. apply wp_upd_task; [done|]. wp_step.
      unfold s2 in Hw. destruct (ptr_eq _ _); cbn [whenM]; [apply wp_upd_rq; [done|exact Hw]|apply wp_ret; exact Hw].
    - rewrite (bool_decide_true (None = None)) by done. apply wp_upd_rq; [done|]. wp_step.
      unfold s2 in Hw. destruct (ptr_eq _ _); cbn [whenM]; [apply wp_upd_rq; [done|exact Hw]|apply wp_ret; exact Hw]. }
  clearbody s2. wp_step. apply wp_upd_task; [done|]. wp_step.
  match goal with |- wp _ _ ?x => set (s3 := x) end.
  assert (rq_at s3 c = rq_at s2 c) as Hrq3 by done.
  apply wp_rq_dec; [done|rewrite Hrq3, Hrq2; cbn [nr_running setf]; rewrite Hlen, HQ, length_app; cbn [length]; lia|].
  apply wp_ret. right. exists c. split; [done|]. split; [done|]. split; [done|].
  match goal with |- rq_rep ?x _ ∧ _ => set (s4 := x) end.
  rewrite HQ, without_split by (by rewrite <- HQ).
  assert (rq_at s4 c = (rq_at s2 c) <| nr_running := nr_running (rq_at s2 c) - 1 |>) as Hrq4.
  { unfold s4. by rewrite rq_at_upd, decide_True. }
  enough (rq_rep s4 (qupd Q c (pre ++ post)) ∧ rq_frame s s4) as [? ?] by done.
  apply (rq_rep_take s s4 Q c pre i post); try done.
  - intros j. change (tk s4 j) with (tk s3 j). unfold s3. rewrite tk_upd. rewrite !Htk2.
    destruct (decide (j = i)) as [->|].
    + rewrite decide_True by done. rewrite decide_False; [done|]. intros Hl%last_Some_elem_of. done.
    + by rewrite (decide_False (P := i = j)) by done.
  - by rewrite Hrq4, Hrq2.
  - by rewrite Hrq4, Hrq2.
  - by rewrite Hrq4, Hrq2.
  - intros c' Hne. unfold s4. rewrite rq_at_upd, decide_False by done. by apply Hrqo.
Qed.

(** ** Picking the next task *)

(** The first READY task of a queue and what follows it; the tasks before it
    are stale entries, discarded. *)
Fixpoint first_ready (st : Z → Z) (l : list Z) : tptr * list Z :=
  match l with
  | [] => (None, [])
  | i :: l' => if st i =? TASK_STATE_READY then (Some i, l') else first_ready st l'
  end.

Lemma first_ready_spec st l :
  match first_ready st l with
  | (Some i, l') => ∃ stale, l = stale ++ i :: l' ∧ st i = TASK_STATE_READY ∧
                      Forall (λ j, st j ≠ TASK_STATE_READY) stale
  | (None, l') => l' = [] ∧ Forall (λ j, st j ≠ TASK_STATE_READY) l
  end.
Proof.
  induction l as [|i l IH]; [done|]. cbn. destruct (st i =? TASK_STATE_READY) eqn:Hs; bool_to_prop.
  - exists []. done.
  - destruct (first_ready st l) as [[j|] l'].
    + destruct IH as (stale & -> & Hj & Hf). exists (i :: stale). split; [done|]. split; [done|].
      by constructor.
    + destruct IH as [-> Hf]. split; [done|]. by constructor.
Qed.

Definition st s (i : Z) : Z := state (tk s i).

Lemma first_ready_ext f g l : (∀ i, f i = g i) → first_ready f l = first_ready g l.
Proof. intros He. induction l as [|i l IH]; [done|]. cbn. by rewrite He, IH. Qed.

(** The queues and the frame after an operation on the queue of [c]. *)
Definition queue_step s Q c l s' : Prop :=
  rq_rep s' (qupd Q c l) ∧ rq_frame s s' ∧ next_enqueue_cpu s' = next_enqueue_cpu s.

Lemma rq_rep_ext s Q Q' : (∀ c, cpu_ok c = true → Q' c = Q c) → rq_rep s Q → rq_rep s Q'.
Proof.
  intros He [H1 H2 H3 H4]. split.
  - intros c Hc. rewrite He by done. auto.
  - intros c Hc. rewrite He by done. auto.
  - intros c i Hc. rewrite He by done. auto.
  - intros i Hi. destruct (H4 i Hi) as [?|(? & c & Hc & ?)]; [by left|]. right. split; [done|].
    exists c. by rewrite He.
Qed.

Lemma qupd_self s Q c : rq_rep s Q → rq_rep s (qupd Q c (Q c)).
Proof. apply rq_rep_ext. intros c' _. unfold qupd. case_decide; congruence. Qed.

Lemma qupd_twice s Q c l l' : rq_rep s (qupd (qupd Q c l) c l') → rq_rep s (qupd Q c l').
Proof. apply rq_rep_ext. intros c' _. unfold qupd. by repeat case_decide. Qed.

Lemma dequeue_ready_spec s Q c :
  rq_rep s Q → cpu_ok c = true →
  wp (dequeue_ready c) (λ r s',
    r = (first_ready (st s) (Q c)).1 ∧ queue_step s Q c (first_ready (st s) (Q c)).2 s') s.
Proof.
  intros Hr Hc. unfold dequeue_ready. pose proof (queue_length s Q c Hr Hc) as Hl32.
  set (I := λ (n : nat) (_ : unit) (s' : sstate P), ∃ l, n = length l ∧ queue_step s Q c l s' ∧
    first_ready (st s) l = first_ready (st s) (Q c)).
  apply (wp_whileM _ _ _ I _ (length (Q c))).
  { unfold MAX_TASKS. lia. }
  { exists (Q c). split; [done|]. split; [split; [by apply qupd_self|done]|done]. }
  intros n [] s' (l & -> & (Hr' & Hf & Hn) & Hfr). rewrite wp_bind.
  eapply wp_mono; [by apply (rq_dequeue_spec s' (qupd Q c l) c)|]. rewrite qupd_eq.
  intros t s'' Ht. destruct l as [|i l].
  { destruct Ht as [-> ->]. rewrite is_null_none. apply wp_ret. rewrite <- Hfr. by split. }
  destruct Ht as (-> & Hr'' & Hf'' & Hn''). rewrite is_null_some. wp_step.
  destruct (rr_in _ _ Hr' c i Hc) as [Hi _ _ _]; [rewrite qupd_eq; set_solver|].
  apply wp_get_task; [done|]. apply wp_ret. apply qupd_twice in Hr''.
  assert (queue_step s Q c l s'') as Hstep.
  { split; [done|]. split; [by transitivity s'|congruence]. }
  replace (state (tk s'' i)) with (st s i).
  2: { unfold st. rewrite <- (rf_state s s'' i); [done|apply Hstep]. }
  cbn in Hfr. destruct (st s i =? TASK_STATE_READY).
  - rewrite <- Hfr. by split.
  - exists (length l). split; [cbn; lia|]. exists l. split; [done|]. by split.
Qed.

(** ** Placement *)

Lemma upto_1_3 : upto 1 (SCHED_MAX_CPUS - 1) = [1; 2; 3].
Proof. done. Qed.

Lemma mod4_ok x : cpu_ok (x mod 4) = true.
Proof. apply cpu_ok_spec. apply Z.mod_pos_bound. lia. Qed.

(** The CPU chosen has the shortest queue, and the next search starts after it. *)
Lemma least_loaded_spec s :
  cpu_ok (next_enqueue_cpu s) = true →
  wp sched_least_loaded_cpu_locked (λ c s',
    cpu_ok c = true ∧ (∀ c', cpu_ok c' = true → nr_running (rq_at s c) ≤ nr_running (rq_at s c')) ∧
    s' = s <| next_enqueue_cpu := (c + 1) mod SCHED_MAX_CPUS |>) s.
Proof.
  intros Hn. unfold sched_least_loaded_cpu_locked. wp_steps. apply wp_get_rq; [done|]. wp_step.
  rewrite upto_1_3. set (start := next_enqueue_cpu s) in *.
  set (I := λ (pre : list Z) '((best, load) : Z * Z) (s' : sstate P), s' = s ∧ cpu_ok best = true ∧
    load = nr_running (rq_at s best) ∧ load ≤ nr_running (rq_at s start) ∧
    ∀ o, o ∈ pre → load ≤ nr_running (rq_at s ((start + o) mod 4))).
  eapply wp_mono; [apply (wp_foldM _ _ _ I)|].
  - split; [done|]. split; [done|]. split; [done|]. split; [lia|]. by intros o ?%not_elem_of_nil.
  - intros pre o post [best load] s' _ (-> & Hb & -> & Hs & Hpre). wp_step.
    unfold SCHED_MAX_CPUS. apply wp_get_rq; [apply mod4_ok|]. apply wp_ret.
    destruct (_ <? _) eqn:Hlt; bool_to_prop.
    + split; [done|]. split; [apply mod4_ok|]. split; [done|]. split; [lia|].
      intros o' [Ho| ->%list_elem_of_singleton]%elem_of_app; [specialize (Hpre o' Ho)|]; lia.
    + split; [done|]. split; [done|]. split; [done|]. split; [done|].
      intros o' [Ho| ->%list_elem_of_singleton]%elem_of_app; [by apply Hpre|lia].
  - intros [best load] s' (-> & Hb & -> & Hs & Hall). wp_steps. split; [done|]. split; [|done].
    intros c' Hc'. apply cpu_ok_spec in Hc', Hn.
    destruct (decide (c' = start)) as [->|Hne]; [done|].
    assert (∃ o, o ∈ [1; 2; 3] ∧ (start + o) mod 4 = c') as (o & Ho & <-); [|by apply Hall].
    exists ((c' - start) mod 4). split.
    + rewrite !elem_of_cons. Z.div_mod_to_equations. lia.
    + Z.div_mod_to_equations. lia.
Qed.

(** [sched_make_ready_locked] on a task that is not an idle task. *)
Lemma make_ready_spec s Q i :
  rq_rep s Q → cpu_ok (next_enqueue_cpu s) = true → slot_ok i = true → 4 ≤ id (tk s i) →
  wp (sched_make_ready_locked (Some i)) (λ _ s',
    cpu_ok (next_enqueue_cpu s') = true ∧
    ∃ s1 c, s1 = s <| tasks := <[i := (tk s i) <| state := TASK_STATE_READY |>]> (tasks s) |> ∧
      cpu_ok c = true ∧ (∀ c', cpu_ok c' = true → (length (Q c) ≤ length (Q c'))%nat) ∧
      need_resched (rq_at s' c) = 1 ∧ rq_frame s1 s' ∧
      rq_rep s' (if on_rq (tk s i) =? 0 then qupd Q c (Q c ++ [i]) else Q)) s.
Proof.
  intros Hr Hn Hi Hid. unfold sched_make_ready_locked. rewrite is_null_some. wp_step.
  apply wp_get_task; [done|]. unfold SCHED_MAX_CPUS. bfalse (id (tk s i) <? 4).
  wp_step. apply wp_upd_task; [done|]. set (s1 := s <| tasks := _ |>).
  assert (∀ j, tk s1 j = if decide (i = j) then (tk s i) <| state := TASK_STATE_READY |> else tk s j) as Ht1
    by (intros j; apply tk_upd).
  assert (rq_rep s1 Q) as Hr1.
  { apply (rq_rep_same s); [done| |done]. intros j. rewrite Ht1. by case_decide; subst. }
  wp_step. eapply wp_mono; [by apply least_loaded_spec|]. intros c s2 (Hc & Hleast & ->).
  assert (∀ c', cpu_ok c' = true → (length (Q c) ≤ length (Q c'))%nat) as Hshort.
  { intros c' Hc'. specialize (Hleast c' Hc'). change (rq_at s1 c) with (rq_at s c) in Hleast.
    change (rq_at s1 c') with (rq_at s c') in Hleast.
    rewrite (rr_len _ _ Hr c Hc), (rr_len _ _ Hr c' Hc') in Hleast. lia. }
  set (s2 := s1 <| next_enqueue_cpu := _ |>).
  assert (rq_rep s2 Q) as Hr2 by (by apply (rq_rep_same s1)).
  wp_step. eapply wp_mono; [by apply (rq_enqueue_spec s2 Q c i)|]. intros [] s3 H3.
  apply wp_upd_rq; [done|]. match goal with |- cpu_ok (next_enqueue_cpu ?x) = true ∧ _ => set (s4 := x) end.
  assert (tk s2 i = (tk s i) <| state := TASK_STATE_READY |>) as Ht2.
  { change (tk s2 i) with (tk s1 i). by rewrite Ht1, decide_True. }
  rewrite Ht2 in H3.
  change (on_rq ((tk s i) <| state := _ |>)) with (on_rq (tk s i)) in H3.
  change (id ((tk s i) <| state := _ |>)) with (id (tk s i)) in H3.
  assert (∀ Q', rq_rep s3 Q' → rq_rep s4 Q') as H34.
  { intros Q' Hq'. apply (rq_rep_same s3); [done|done|]. intros c'. unfold s4. rewrite rq_at_upd.
    destruct (decide (c = c')) as [<-|]; done. }
  assert (cpu_ok ((c + 1) mod SCHED_MAX_CPUS) = true) as Hmod by apply mod4_ok.
  assert (need_resched (rq_at s4 c) = 1) as Hnr by (unfold s4; by rewrite rq_at_upd, decide_True).
  destruct (on_rq (tk s i) =? 0) eqn:Hon; bool_to_prop.
  - case_decide as Hcd; [|exfalso; apply Hcd; done]. destruct H3 as (Hr3 & Hf3 & Hn3).
    split; [change (cpu_ok (next_enqueue_cpu s3) = true); rewrite Hn3; exact Hmod|].
    exists s1, c. do 4 (split; [done|]). split; [|by apply H34].
    transitivity s3; [|by split]. destruct Hf3. by split.
  - case_decide as Hcd; [exfalso; apply Hon, Hcd|]. subst s3. split; [done|].
    exists s1, c. do 4 (split; [done|]). split; [by split|]. by apply H34.
Qed.

(** ** [sched_pick_next_locked] *)

Lemma queued_once s Q c c' i : rq_rep s Q → cpu_ok c = true → cpu_ok c' = true →
  i ∈ Q c → i ∈ Q c' → c = c'.
Proof. intros Hr Hc Hc' H1 H2. destruct (rr_in _ _ Hr c i Hc H1), (rr_in _ _ Hr c' i Hc' H2). congruence. Qed.

(** The longest queue, the CPU's own and then the lowest number first. *)
Definition busiest (Q : qs) (cpu : Z) : Z :=
  foldl (λ b o, if Z.of_nat (length (Q b)) <? Z.of_nat (length (Q o)) then o else b) cpu [0; 1; 2; 3].

(** The reference of a pick: the first READY task of the CPU's own queue, else of
    the longest queue, and the queues without it and without the tasks that were
    passed over because they are not READY any more. *)
Definition picks (f : Z → Z) (Q : qs) (cpu : Z) : tptr * qs :=
  match first_ready f (Q cpu) with
  | (Some i, l) => (Some i, qupd Q cpu l)
  | (None, _) =>
      let Q1 := qupd Q cpu [] in
      let b := busiest Q1 cpu in
      if (b =? cpu) || (Z.of_nat (length (Q1 b)) =? 0) then (None, Q1)
      else let '(r, l) := first_ready f (Q1 b) in (r, qupd Q1 b l)
  end.

Lemma picks_ext f g Q cpu : (∀ i, f i = g i) → picks f Q cpu = picks g Q cpu.
Proof.
  intros He. unfold picks. rewrite (first_ready_ext f g) by done. destruct (first_ready g (Q cpu)) as [[i|] l]; [done|].
  cbn zeta. by rewrite (first_ready_ext f g).
Qed.

(** What a pick does: the queues only lose tasks; the task picked was READY in
    one of them and is in none afterwards; if there is none, the CPU's own queue
    held no READY task, and neither did the longest of the other queues. *)
Record picked s Q (cpu : Z) (r : tptr) s' (Q' : qs) : Prop := {
  pk_rep : rq_rep s' Q';
  pk_frame : rq_frame s s';
  pk_enq : next_enqueue_cpu s' = next_enqueue_cpu s;
  pk_sub : ∀ c i, cpu_ok c = true → i ∈ Q' c → i ∈ Q c;
  pk_some : ∀ i, r = Some i →
    (∃ c, cpu_ok c = true ∧ i ∈ Q c) ∧ st s i = TASK_STATE_READY ∧
    (∀ c, cpu_ok c = true → i ∉ Q' c) ∧ slot_ok i = true;
  pk_local : ∀ i, (first_ready (st s) (Q cpu)).1 = Some i → r = Some i;
  pk_none : r = None →
    Forall (λ j, st s j ≠ TASK_STATE_READY) (Q cpu) ∧
    ∃ b, cpu_ok b = true ∧ Forall (λ j, st s j ≠ TASK_STATE_READY) (Q b) ∧
         ∀ c, cpu_ok c = true → c ≠ cpu → (length (Q c) ≤ length (Q b))%nat;
}.

Lemma upto_0_4 : upto 0 SCHED_MAX_CPUS = [0; 1; 2; 3].
Proof. done. Qed.

Lemma busiest_spec s Q cpu (Post : Z → sstate P → Prop) :
  rq_rep s Q → cpu_ok cpu = true →
  (cpu_ok (busiest Q cpu) = true →
     (∀ c, cpu_ok c = true → nr_running (rq_at s c) ≤ nr_running (rq_at s (busiest Q cpu))) →
     Post (busiest Q cpu) s) →
  wp (foldM (upto 0 SCHED_MAX_CPUS) (λ busiest other,
    ro ← get_rq other;
    rb ← get_rq busiest;
    mret (if nr_running rb <? nr_running ro then other else busiest)) cpu) Post s.
Proof.
  intros Hr Hc HP. rewrite upto_0_4. unfold busiest in HP. set (g := λ b o : Z, if Z.of_nat (length (Q b)) <? Z.of_nat (length (Q o)) then o else b) in HP.
  set (I := λ (pre : list Z) (b : Z) (s' : sstate P), s' = s ∧ cpu_ok b = true ∧ b = foldl g cpu pre ∧
    ∀ c, c ∈ pre → nr_running (rq_at s c) ≤ nr_running (rq_at s b)).
  eapply wp_mono; [apply (wp_foldM _ _ _ I)|].
  - split; [done|]. split; [done|]. split; [done|]. by intros c ?%not_elem_of_nil.
  - intros pre c post b s' Heq (-> & Hb & Hbg & Hpre).
    assert (cpu_ok c = true) as Hcc.
    { apply elem_of_split_mid in Heq. rewrite !elem_of_cons, elem_of_nil in Heq. apply cpu_ok_spec. lia. }
    wp_step. apply wp_get_rq; [done|]. wp_step. apply wp_get_rq; [done|]. apply wp_ret.
    split; [done|]. rewrite foldl_app, <- Hbg. cbn [foldl]. unfold g at 1.
    rewrite <- (rr_len _ _ Hr b Hb), <- (rr_len _ _ Hr c Hcc).
    destruct (_ <? _) eqn:Hlt; bool_to_prop; (split; [done|]; split; [done|]);
      intros c' [Ho| ->%list_elem_of_singleton]%elem_of_app; try lia; specialize (Hpre c' Ho); lia.
  - intros b s' (-> & Hb & -> & Hall). apply HP; [done|]. intros c Hcc%cpu_ok_spec. apply Hall.
    rewrite !elem_of_cons. lia.
Qed.

Lemma first_ready_sub f l i : i ∈ (first_ready f l).2 → i ∈ l.
Proof.
  pose proof (first_ready_spec f l) as Hs. destruct (first_ready f l) as [[j|] l'].
  - destruct Hs as (stale & -> & _). cbn. set_solver.
  - destruct Hs as [-> _]. cbn. by intros ?%not_elem_of_nil.
Qed.

(** A READY task taken from the queue of [c]. *)
Lemma picked_from s Q c i l s' :
  rq_rep s Q → cpu_ok c = true → first_ready (st s) (Q c) = (Some i, l) → queue_step s Q c l s' →
  (∃ c, cpu_ok c = true ∧ i ∈ Q c) ∧ st s i = TASK_STATE_READY ∧
  (∀ c', cpu_ok c' = true → i ∉ qupd Q c l c') ∧ slot_ok i = true.
Proof.
  intros Hr Hc Hfr Hs. pose proof (first_ready_spec (st s) (Q c)) as Hsp. rewrite Hfr in Hsp.
  destruct Hsp as (stale & Heq & Hst & _).
  assert (i ∈ Q c) as Hin by (rewrite Heq; set_solver).
  pose proof (q_nodup _ _ _ _ (rr_q _ _ Hr c Hc)) as Hnd. rewrite Heq in Hnd.
  apply NoDup_app in Hnd as (_ & _ & [Hnl _]%NoDup_cons).
  split; [by exists c|]. split; [done|]. split; [|by apply (rr_in _ _ Hr c i Hc Hin)].
  intros c' Hc'. unfold qupd. case_decide as Hcc; [done|]. intros Hin'. apply Hcc.
  by apply (queued_once s Q c' c i).
Qed.

Lemma pick_next_spec s Q cpu :
  rq_rep s Q → cpu_ok cpu = true →
  wp (sched_pick_next_locked cpu) (λ r s',
    r = (picks (st s) Q cpu).1 ∧ picked s Q cpu r s' (picks (st s) Q cpu).2) s.
Proof.
  intros Hr Hc. unfold sched_pick_next_locked, picks. rewrite wp_bind.
  eapply wp_mono; [by apply (dequeue_ready_spec s Q cpu)|]. intros t s1 [-> Hs1].
  pose proof (first_ready_spec (st s) (Q cpu)) as Hsp.
  destruct (first_ready (st s) (Q cpu)) as [[i|] l] eqn:Hfr; cbn [fst snd] in *.
  - rewrite is_null_some. cbn [negb]. apply wp_ret. split; [done|].
    pose proof (picked_from s Q cpu i l s1 Hr Hc Hfr Hs1) as Hpk. destruct Hs1 as (Hr1 & Hf1 & Hn1).
    split; try done.
    + intros c j Hcc. unfold qupd. case_decide as Hx; [|done]. subst c. intros Hj.
      apply (first_ready_sub (st s)). by rewrite Hfr.
    + by intros j [= <-].
    + intros j Hj. by rewrite Hfr in Hj.
  - destruct Hsp as [-> Hstale]. rewrite is_null_none. cbn [negb].
    destruct Hs1 as (Hr1 & Hf1 & Hn1). wp_step. apply (busiest_spec s1 (qupd Q cpu [])); [done|done|].
    generalize (busiest (qupd Q cpu []) cpu). cbn zeta. intros b Hb Hmax. wp_step. apply wp_get_rq; [done|].
    assert (∀ c, cpu_ok c = true → c ≠ cpu → (length (Q c) ≤ length (qupd Q cpu [] b))%nat) as Hlen.
    { intros c Hcc Hne. specialize (Hmax c Hcc). rewrite (rr_len _ _ Hr1 c Hcc), (rr_len _ _ Hr1 b Hb) in Hmax.
      rewrite (qupd_ne Q cpu c) in Hmax by done. lia. }
    assert (∀ c j, cpu_ok c = true → j ∈ qupd Q cpu [] c → j ∈ Q c) as Hsub1.
    { intros c j _. unfold qupd. case_decide; [by intros ?%not_elem_of_nil|done]. }
    rewrite (rr_len _ _ Hr1 b Hb). destruct ((b =? cpu) || _) eqn:Hg.
    { apply wp_ret. split; [done|]. split; try done.
      { intros i Hi. by rewrite Hfr in Hi. }
      intros _. split; [done|]. exists cpu. split; [done|]. split; [done|]. intros c Hcc Hne.
      specialize (Hlen c Hcc Hne). apply orb_true_iff in Hg as [Hg|Hg]; bool_to_prop.
      - subst b. rewrite qupd_eq in Hlen. cbn in Hlen. lia.
      - lia. }
    bool_to_prop. wp_step. eapply wp_mono; [by apply (dequeue_ready_spec s1 (qupd Q cpu []) b)|].
    rewrite qupd_ne in Hlen |- * by done.
    rewrite (first_ready_ext (st s1) (st s)) by (intros j; unfold st; by rewrite (rf_state s s1)).
    intros t s2 [-> Hs2]. pose proof (first_ready_spec (st s) (Q b)) as Hsb.
    destruct (first_ready (st s) (Q b)) as [[i|] l] eqn:Hfb; cbn [fst snd] in *.
    + rewrite is_null_some. cbn [negb whenM].
      destruct (picked_from s1 (qupd Q cpu []) b i l s2) as ((c & Hcc & Hin) & Hst & Hnot & Hslot); [done|done|..|done|].
      { rewrite qupd_ne by done. rewrite (first_ready_ext (st s1) (st s)); [done|].
        intros j; unfold st; by rewrite (rf_state s s1). }
      destruct Hs2 as (Hr2 & Hf2 & Hn2). wp_step. apply wp_upd_task; [done|]. apply wp_ret.
      split; [done|]. split.
      * eapply rq_rep_same_in; [exact Hr2| |..|done].
        -- intros j. rewrite tk_upd. by case_decide; subst.
        -- intros c' j Hc' Hj. rewrite tk_upd. case_decide; [|done]. subst. by destruct (Hnot c' Hc').
      * transitivity s1; [done|]. transitivity s2; [done|]. split; try done. intros j. rewrite tk_upd.
        by case_decide; subst.
      * cbn. congruence.
      * intros c' j Hc'. unfold qupd at 1. case_decide as Hx; [|by apply Hsub1]. subst c'.
        intros Hj. apply (first_ready_sub (st s)). by rewrite Hfb.
      * intros j [= <-]. split; [exists c; split; [done|by apply Hsub1]|].
        split; [unfold st in *; by rewrite <- (rf_state s s1)|]. done.
      * intros j Hj. by rewrite Hfr in Hj.
      * done.
    + destruct Hsb as [-> Hstb]. destruct Hs2 as (Hr2 & Hf2 & Hn2). rewrite is_null_none. cbn [negb whenM].
      wp_steps. split; [done|]. split; try done.
      * by transitivity s1.
      * congruence.
      * intros c' j Hc'. unfold qupd at 1. case_decide as Hx; [by intros ?%not_elem_of_nil|by apply Hsub1].
      * intros i Hi. by rewrite Hfr in Hi.
      * intros _. split; [done|]. by exists b.
Qed.

End queues.
