(* ===== verification/SchedInv.v ===== *)
(** * The scheduler's invariant.

    [sched_inv hole L Q s]: the run queues stand for [Q]; the circular task list
    is [0 :: L]; each CPU runs exactly one task and no task runs on two CPUs.
    [hole c] holds for a CPU that has published its task as blocked or ready
    and has not reached [schedule] yet; outside such windows, a task that runs
    is neither blocked nor queued as ready. *)

From S2P Require Import Prelude Machine PageAllocSpec Task WaitQueue Heap HeapSpec Sched SchedQueue.

Open Scope kernel_scope.

(** What the scheduler relies on below it: the laws of its page source, and a
    context switch of the MMU and a console file that return and keep the locks. *)
Class SchedEnvLaws (P : Type) `{SchedEnv P} := {
  se_pages_laws :: PageSourceLaws P;
  se_switch_spec : ∀ p cpu mm, ps_ok p →
    (∀ l, rank L_sched < rank l → can_lock l (m_held (sub_get p)) = true) →
    wp (mmu_context_switch cpu mm)
       (λ _ p', ps_ok p' ∧ m_held (sub_get p') = m_held (sub_get p)) p;
  se_console_spec : ∀ p, ps_ok p →
    (∀ l, rank L_sched < rank l → can_lock l (m_held (sub_get p)) = true) →
    wp console_open_file (λ _ p', ps_ok p' ∧ m_held (sub_get p') = m_held (sub_get p)) p;
}.

Section inv.
Context {P : Type} `{SchedEnvLaws P}.
Implicit Types s : sstate P.

Definition smachine s : machine := sub_get (s_env s).
Definition sheld s : list lock := m_held (smachine s).

(** The circular list through [next]. *)
Definition circular s (L : list Z) : Prop :=
  ∀ k x, (0 :: L) !! k = Some x → next (tk s x) = Some (default 0 (L !! k)).

Definition curr s (c : Z) : tptr := cur_task s !! c.

Record sched_inv (hole : Z → Prop) (L : list Z) (Q : qs) s : Prop := {
  si_env : ps_ok (s_env s);
  si_rq : rq_rep s Q;
  si_enq : cpu_ok (next_enqueue_cpu s) = true;
  si_cur : ∀ c, cpu_ok c = true → ∃ i, curr s c = Some i ∧ slot_ok i = true ∧ i ∈ 0 :: L;
  si_excl : ∀ c c' i, cpu_ok c = true → cpu_ok c' = true →
    curr s c = Some i → curr s c' = Some i → c = c';
  si_run : ∀ c i, cpu_ok c = true → curr s c = Some i → current_cpu (tk s i) = c;
  si_idle : ∀ c i, cpu_ok c = true → curr s c = Some i → i < 4 → i = c;
  si_ready : ∀ c i c', cpu_ok c = true → cpu_ok c' = true → i ∈ Q c →
    st s i = TASK_STATE_READY → curr s c' = Some i → hole c';
  si_blocked : ∀ c i, cpu_ok c = true → curr s c = Some i → 4 ≤ i →
    st s i = TASK_STATE_BLOCKED → hole c;
  si_slots : ∀ i, 0 ≤ i < 4 → id (tk s i) = i ∧ name (tk s i) ≠ None ∧ st s i = TASK_STATE_RUNNING;
  si_named : ∀ i, slot_ok i = true → 4 ≤ i → name (tk s i) ≠ None → 4 ≤ id (tk s i) < next_task_id s;
  si_cleared : ∀ i, slot_ok i = true → name (tk s i) = None →
    on_rq (tk s i) = 0 ∧ id (tk s i) = 0 ∧ st s i ≠ TASK_STATE_REAPING;
  si_reaping : ∀ i, slot_ok i = true → st s i = TASK_STATE_REAPING → on_rq (tk s i) = 0;
  si_ids : ∀ i j, slot_ok i = true → slot_ok j = true → name (tk s i) ≠ None → name (tk s j) ≠ None →
    id (tk s i) = id (tk s j) → i = j;
  si_list : NoDup (0 :: L) ∧ circular s L;
  si_inlist : ∀ i, i ∈ 0 :: L → slot_ok i = true ∧ name (tk s i) ≠ None ∧ st s i ≠ TASK_STATE_REAPING;
  si_all : ∀ i, slot_ok i = true → name (tk s i) ≠ None → st s i ≠ TASK_STATE_REAPING → i ∈ 0 :: L;
  si_next_id : 4 ≤ next_task_id s;
}.

(** The fields no operation but creation, reaping and [schedule] changes. *)
Definition sview (t : task) : tptr * Z * option string * Z := (next t, id t, name t, current_cpu t).

Lemma sview_eqs t t' : sview t = sview t' →
  next t = next t' ∧ id t = id t' ∧ name t = name t' ∧ current_cpu t = current_cpu t'.
Proof. by intros [= -> -> -> ->]. Qed.

Lemma on_rq_zero s s' Q Q' j :
  rq_rep s Q → rq_rep s' Q' → slot_ok j = true →
  (∀ c, cpu_ok c = true → j ∈ Q' c → ∃ c', cpu_ok c' = true ∧ j ∈ Q c') →
  on_rq (tk s j) = 0 → on_rq (tk s' j) = 0.
Proof.
  intros Hr Hr' Hj Hsub Hz. destruct (rr_out _ _ Hr' j Hj) as [?|(_ & c & Hc & Hin)]; [done|].
  destruct (Hsub c Hc Hin) as (c' & Hc' & Hin'). destruct (rr_in _ _ Hr c' j Hc' Hin'). lia.
Qed.

(** Transport over a change of task states and queues. *)
Lemma inv_transport hole hole' L Q Q' s s' :
  sched_inv hole L Q s → ps_ok (s_env s') → rq_rep s' Q' →
  cpu_ok (next_enqueue_cpu s') = true → cur_task s' = cur_task s →
  next_task_id s' = next_task_id s → (∀ i, sview (tk s' i) = sview (tk s i)) →
  (∀ i, slot_ok i = true → name (tk s i) = None ∨ st s' i = TASK_STATE_REAPING →
     on_rq (tk s i) = 0 → on_rq (tk s' i) = 0) →
  (∀ i, 0 ≤ i < 4 → st s' i = TASK_STATE_RUNNING) →
  (∀ i, st s' i = TASK_STATE_REAPING ↔ st s i = TASK_STATE_REAPING) →
  (∀ c i c', cpu_ok c = true → cpu_ok c' = true → i ∈ Q' c →
     st s' i = TASK_STATE_READY → curr s c' = Some i → hole' c') →
  (∀ c i, cpu_ok c = true → curr s c = Some i → 4 ≤ i → st s' i = TASK_STATE_BLOCKED → hole' c) →
  sched_inv hole' L Q' s'.
Proof.
  intros Hi Henv Hrq Henq Hcur Hnid Hview Hon Hidle Hreap Hready Hblk.
  assert (∀ i, next (tk s' i) = next (tk s i) ∧ id (tk s' i) = id (tk s i) ∧
            name (tk s' i) = name (tk s i) ∧ current_cpu (tk s' i) = current_cpu (tk s i)) as Hv
    by (intros i; by apply sview_eqs).
  assert (∀ c, curr s' c = curr s c) as Hc by (intros c; unfold curr; by rewrite Hcur).
  destruct Hi. split; try done.
  - intros c. rewrite Hc. apply si_cur0.
  - intros c c' i. rewrite !Hc. apply si_excl0.
  - intros c i Hok. rewrite Hc. destruct (Hv i) as (_ & _ & _ & ->). by apply si_run0.
  - intros c i. rewrite Hc. apply si_idle0.
  - intros c i c'. rewrite Hc. eauto.
  - intros c i. rewrite Hc. eauto.
  - intros i Hb. destruct (Hv i) as (_ & -> & -> & _). destruct (si_slots0 i Hb) as (? & ? & _). auto.
  - intros i Hs Hge. destruct (Hv i) as (_ & -> & -> & _). rewrite Hnid. auto.
  - intros i Hs. destruct (Hv i) as (_ & -> & -> & _). intros Hn. destruct (si_cleared0 i Hs Hn) as (? & ? & ?).
    split; [auto|]. split; [done|by rewrite Hreap].
  - intros i Hs Hr. rewrite Hreap in Hr. apply Hon; [done|right; by apply Hreap|]. auto.
  - intros i j Hsi Hsj. destruct (Hv i) as (_ & -> & -> & _), (Hv j) as (_ & -> & -> & _). auto.
  - destruct si_list0 as [? Hcirc]. split; [done|]. intros k x Hx. destruct (Hv x) as (-> & _). auto.
  - intros i Hin. destruct (si_inlist0 i Hin) as (? & ? & ?). destruct (Hv i) as (_ & _ & -> & _).
    split; [done|]. split; [done|]. by rewrite Hreap.
  - intros i Hs. rewrite Hreap. destruct (Hv i) as (_ & _ & -> & _). auto.
  - by rewrite Hnid.
Qed.

(** Only the environment and the machine-independent scalars differ. *)
Lemma inv_env hole L Q s s' :
  sched_inv hole L Q s → ps_ok (s_env s') → tasks s' = tasks s → run_queues s' = run_queues s →
  cur_task s' = cur_task s → next_task_id s' = next_task_id s → next_enqueue_cpu s' = next_enqueue_cpu s →
  sched_inv hole L Q s'.
Proof.
  intros Hi Henv Ht Hr Hc Hn He.
  assert (∀ i, tk s' i = tk s i) as Htk by (intros i; unfold tk; by rewrite Ht).
  eapply (inv_transport hole hole L Q Q s s'); try done.
  - apply (rq_rep_same s); [apply Hi|intros i; by rewrite Htk|].
    intros c. unfold rq_at. by rewrite Hr.
  - rewrite He. apply Hi.
  - intros i. by rewrite Htk.
  - intros i _ _. by rewrite Htk.
  - intros i Hb. unfold st. rewrite Htk. by apply (si_slots _ _ _ _ Hi).
  - intros i. unfold st. by rewrite Htk.
  - intros c i c' Hok Hok' Hin. unfold st. rewrite Htk. by apply (si_ready _ _ _ _ Hi c).
  - intros c i Hok. unfold st. rewrite Htk. by apply (si_blocked _ _ _ _ Hi c).
Qed.

Lemma inv_weaken (hole hole' : Z → Prop) L Q s :
  (∀ c, hole c → hole' c) → sched_inv hole L Q s → sched_inv hole' L Q s.
Proof. intros Hh []. split; eauto. Qed.

(** ** Locks *)

Definition smach (m : machine) s : sstate P := s <| s_env := sub_set m (s_env s) |>.
Definition sheld_to (l : list lock) s : sstate P := smach ((smachine s) <| m_held := l |>) s.

Lemma ps_ok_mach (p : P) m : ps_ok p → m_mem m = m_mem (sub_get p) →
  m_mmu_enabled m = m_mmu_enabled (sub_get p) → ps_ok (sub_set m p).
Proof. intros Hok Hm He. apply ps_frame; [done|done|]. intros a _. by rewrite Hm. Qed.

Lemma inv_mach hole L Q s m : sched_inv hole L Q s → m_mem m = m_mem (smachine s) →
  m_mmu_enabled m = m_mmu_enabled (smachine s) → sched_inv hole L Q (smach m s).
Proof. intros Hi Hm He. apply (inv_env _ _ _ s); try done. apply ps_ok_mach; [apply Hi|done|done]. Qed.

Lemma inv_held hole L Q s l : sched_inv hole L Q s → sched_inv hole L Q (sheld_to l s).
Proof. intros. by apply inv_mach. Qed.

Lemma sheld_to_held l s : sheld (sheld_to l s) = l.
Proof. unfold sheld, smachine, sheld_to, smach. cbn. by rewrite sub_get_set. Qed.

Lemma wp_lock_sched (Q : unit → sstate P → Prop) s :
  can_lock L_sched (sheld s) = true → Q () (sheld_to (L_sched :: sheld s) s) → wp lock_sched Q s.
Proof. intros Hl HQ. unfold lock_sched. rewrite !wp_up. by apply wp_lock. Qed.

Lemma wp_unlock_sched held (Q : unit → sstate P → Prop) s :
  sheld s = L_sched :: held → Q () (sheld_to held s) → wp unlock_sched Q s.
Proof. intros Hl HQ. unfold unlock_sched. rewrite !wp_up. by apply (wp_unlock _ held). Qed.

(** Emitting an event changes only the trace. *)
Definition traced s s' : Prop :=
  ∃ e, s' = smach ((smachine s) <| m_trace := e :: m_trace (smachine s) |>) s.

Lemma traced_inv hole L Q s s' : traced s s' → sched_inv hole L Q s → sched_inv hole L Q s'.
Proof. intros [e ->] Hi. by apply inv_mach. Qed.

Lemma traced_held s s' : traced s s' → sheld s' = sheld s.
Proof. intros [e ->]. unfold sheld, smachine, smach. cbn. by rewrite sub_get_set. Qed.

Lemma traced_tk s s' i : traced s s' → tk s' i = tk s i.
Proof. by intros [e ->]. Qed.

Lemma wp_ipi mask intid (Q : unit → sstate P → Prop) s :
  (∀ s', traced s s' → Q () s') → wp (gic_send_ipi mask intid) Q s.
Proof. intros HQ. unfold gic_send_ipi, emit. rewrite !wp_up, wp_modify. apply HQ. by eexists. Qed.

Lemma wp_ker_info msg arg (Q : unit → sstate P → Prop) s :
  (∀ s', traced s s' → Q () s') → wp (ker_info msg arg) Q s.
Proof. intros HQ. unfold ker_info, emit. rewrite !wp_up, wp_modify. apply HQ. by eexists. Qed.

(** ** Updating one task without touching its links *)

Lemma inv_upd_task hole hole' L Q s i t' :
  sched_inv hole L Q s →
  rq_view t' = rq_view (tk s i) → sview t' = sview (tk s i) →
  (0 ≤ i < 4 → state t' = TASK_STATE_RUNNING) →
  (state t' = TASK_STATE_REAPING ↔ st s i = TASK_STATE_REAPING) →
  (∀ c, hole c → hole' c) →
  (state t' = TASK_STATE_READY → st s i ≠ TASK_STATE_READY →
     ∀ c c', cpu_ok c = true → cpu_ok c' = true → i ∈ Q c → curr s c' = Some i → hole' c') →
  (state t' = TASK_STATE_BLOCKED → st s i ≠ TASK_STATE_BLOCKED →
     ∀ c, cpu_ok c = true → curr s c = Some i → hole' c) →
  sched_inv hole' L Q (s <| tasks := <[i := t']> (tasks s) |>).
Proof.
  intros Hi Hrv Hsv Hidle Hreap Hh Hrd Hbl. set (s' := s <| tasks := _ |>).
  assert (∀ j, tk s' j = if decide (i = j) then t' else tk s j) as Htk by (intros j; apply tk_upd).
  assert (∀ j, st s' j = if decide (i = j) then state t' else st s j) as Hst.
  { intros j. unfold st. rewrite Htk. by case_decide. }
  eapply (inv_transport hole hole' L Q Q s s'); try done.
  - apply Hi.
  - apply (rq_rep_same s); [apply Hi| |done]. intros j. rewrite Htk. case_decide; by subst.
  - apply Hi.
  - intros j. rewrite Htk. case_decide; by subst.
  - intros j _ _. rewrite Htk. case_decide; [subst|done]. unfold rq_view in Hrv. injection Hrv as _ -> _ _. done.
  - intros j Hb. rewrite Hst. case_decide; [subst; by apply Hidle|]. by apply (si_slots _ _ _ _ Hi).
  - intros j. rewrite Hst. case_decide; [by subst|done].
  - intros c j c' Hok Hok' Hin. rewrite Hst. case_decide as Hij.
    + subst j. intros Hs Hc. destruct (decide (st s i = TASK_STATE_READY)) as [He|He].
      * apply Hh. by apply (si_ready _ _ _ _ Hi c i c').
      * by apply (Hrd Hs He c c').
    + intros Hs Hc. apply Hh. by apply (si_ready _ _ _ _ Hi c j c').
  - intros c j Hok. rewrite Hst. case_decide as Hij.
    + subst j. intros Hc Hge Hs. destruct (decide (st s i = TASK_STATE_BLOCKED)) as [He|He].
      * apply Hh. by apply (si_blocked _ _ _ _ Hi c i).
      * by apply (Hbl Hs He c).
    + intros Hc Hge Hs. apply Hh. by apply (si_blocked _ _ _ _ Hi c j).
Qed.

(** ** Making a task ready *)

(** The effect of an operation on the tasks: only task [i] changes, by [f], the
    run-queue fields apart. *)
Definition task_eff s s' (i : Z) (f : task → task) : Prop :=
  ∀ j, core (tk s' j) = if decide (j = i) then core (f (tk s i)) else core (tk s j).

Lemma task_eff_state s s' i f j : task_eff s s' i f →
  st s' j = if decide (j = i) then state (f (tk s i)) else st s j.
Proof.
  intros He. unfold st. specialize (He j).
  case_decide; apply core_fields in He; tauto.
Qed.

(** What every operation keeps: the invariant, the locks and the current tasks. *)
Definition kept hole L s s' : Prop :=
  (∃ Q, sched_inv hole L Q s') ∧ sheld s' = sheld s ∧ cur_task s' = cur_task s.

(** The queues of [Q] with [i] at the end of that of [c], unless it is queued. *)
Definition placed (Q : qs) s (c i : Z) : qs := if on_rq (tk s i) =? 0 then qupd Q c (Q c ++ [i]) else Q.

Lemma inv_readied hole L Q s s' c i :
  sched_inv hole L Q s → slot_ok i = true → 4 ≤ id (tk s i) → name (tk s i) ≠ None →
  st s i ≠ TASK_STATE_REAPING → (∀ c, cpu_ok c = true → curr s c = Some i → hole c) →
  s_env s' = s_env s → cur_task s' = cur_task s → next_task_id s' = next_task_id s →
  cpu_ok (next_enqueue_cpu s') = true → task_eff s s' i (λ t, t <| state := TASK_STATE_READY |>) →
  rq_rep s' (placed Q s c i) → sched_inv hole L (placed Q s c i) s'.
Proof.
  intros Hi Hs Hid Hn Hre Hh Henv Hcur Hnid Henq Heff Hr.
  assert (∀ j, st s' j = if decide (j = i) then TASK_STATE_READY else st s j) as Hst.
  { intros j. rewrite (task_eff_state _ _ _ _ j Heff). done. }
  assert (∀ c' j, cpu_ok c' = true → j ≠ i → j ∈ placed Q s c i c' → j ∈ Q c') as Hsub.
  { intros c' j _ Hne. unfold placed. destruct (_ =? _); [|done]. unfold qupd. case_decide; [subst|done].
    rewrite elem_of_app, list_elem_of_singleton. tauto. }
  apply (inv_transport hole hole L Q _ s s'); try done.
  - rewrite Henv. apply Hi.
  - intros j. specialize (Heff j). unfold sview. case_decide; [subst|];
      apply core_fields in Heff as (-> & _ & -> & -> & _ & _ & -> & _); done.
  - intros j Hj Hor. eapply (on_rq_zero s s'); [apply Hi|exact Hr|done|].
    intros c' Hc' Hin. exists c'. split; [done|]. apply Hsub; [done| |done].
    intros ->. destruct Hor as [?|Hor]; [done|]. by rewrite Hst, decide_True in Hor.
  - intros j Hb. rewrite Hst. destruct (decide (j = i)) as [->|]; [|by apply (si_slots _ _ _ _ Hi)].
    destruct (si_slots _ _ _ _ Hi i Hb) as [Hidi _]. lia.
  - intros j. rewrite Hst. by case_decide; subst.
  - intros c1 j c2 Hc1 Hc2 Hin. rewrite Hst. case_decide as Hji.
    + subst j. intros _ Hcu. by apply Hh.
    + intros Hst' Hcu. apply (si_ready _ _ _ _ Hi c1 j c2); try done. by apply Hsub.
  - intros c1 j Hc1 Hcu Hge. rewrite Hst. case_decide; [done|]. by apply (si_blocked _ _ _ _ Hi).
Qed.

Lemma readied_eff s s' i : rq_frame (s <| tasks := <[i := (tk s i) <| state := TASK_STATE_READY |>]> (tasks s) |>) s' →
  task_eff s s' i (λ t, t <| state := TASK_STATE_READY |>).
Proof.
  intros Hf j. rewrite (rf_core _ _ Hf j), tk_upd.
  destruct (decide (j = i)) as [->|]; [by rewrite decide_True|by rewrite decide_False by done].
Qed.

Lemma make_ready_inv hole L Q s i :
  sched_inv hole L Q s → slot_ok i = true → 4 ≤ id (tk s i) → name (tk s i) ≠ None →
  st s i ≠ TASK_STATE_REAPING → (∀ c, cpu_ok c = true → curr s c = Some i → hole c) →
  wp (sched_make_ready_locked (Some i)) (λ _ s',
    (∃ c, cpu_ok c = true ∧ (∀ c', cpu_ok c' = true → (length (Q c) ≤ length (Q c'))%nat) ∧
       need_resched (rq_at s' c) = 1 ∧ sched_inv hole L (placed Q s c i) s') ∧
    s_env s' = s_env s ∧ cur_task s' = cur_task s ∧
    task_eff s s' i (λ t, t <| state := TASK_STATE_READY |>)) s.
Proof.
  intros Hi Hs Hid Hn Hre Hh. eapply wp_mono; [apply (make_ready_spec s Q i); try done; apply Hi|].
  intros _ s' (Henq & s1 & c & -> & Hc & Hsh & Hnr & Hf & Hr). pose proof (readied_eff _ _ _ Hf) as Heff.
  split; [|split; [exact (rf_env _ _ Hf)|split; [exact (rf_cur _ _ Hf)|done]]].
  exists c. do 3 (split; [done|]). apply inv_readied; try done.
  - exact (rf_env _ _ Hf).
  - exact (rf_cur _ _ Hf).
  - exact (rf_next_id _ _ Hf).
Qed.

End inv.
