(* ===== verification/SchedOps.v ===== *)
(** * The operations of the scheduler keep its invariant.

    One lemma per function of sched.c: it returns, the invariant holds again
    with the windows it opens or closes, and its effect on the tasks is as
    stated. *)

From S2P Require Import Prelude Machine PageAllocSpec Task WaitQueue Heap HeapSpec Sched SchedQueue SchedInv.

Open Scope kernel_scope.

Lemma can_lock_above l l' held : can_lock l held = true → rank l < rank l' → can_lock l' (l :: held) = true.
Proof.
  intros Hc Hr. unfold can_lock in *. rewrite forallb_forall in Hc |- *.
  intros h [<-|Hh].
  - rewrite bool_decide_false by (intros ->; lia). cbn. apply Z.leb_le. lia.
  - specialize (Hc h Hh). apply andb_true_iff in Hc as [_ Hc]. apply Z.leb_le in Hc.
    rewrite bool_decide_false by (intros ->; lia). cbn. apply Z.leb_le. lia.
Qed.

Section ops.
Context {P : Type} `{SchedEnvLaws P}.
Implicit Types s : sstate P.

(** ** Consequences of the invariant *)

Lemma inv_slot_id hole L Q s i : sched_inv hole L Q s → slot_ok i = true → 4 ≤ id (tk s i) →
  4 ≤ i ∧ name (tk s i) ≠ None.
Proof.
  intros Hi Hs Hid. split.
  - destruct (decide (4 ≤ i)); [done|]. apply slot_ok_spec in Hs.
    destruct (si_slots _ _ _ _ Hi i) as [? _]; lia.
  - intros Hn. destruct (si_cleared _ _ _ _ Hi i Hs Hn) as (_ & ? & _). lia.
Qed.

Lemma inv_current hole L Q s c : sched_inv hole L Q s → cpu_ok c = true →
  ∃ i, curr s c = Some i ∧ slot_ok i = true ∧ name (tk s i) ≠ None ∧ st s i ≠ TASK_STATE_REAPING.
Proof.
  intros Hi Hc. destruct (si_cur _ _ _ _ Hi c Hc) as (i & Hcu & Hs & Hin).
  destruct (si_inlist _ _ _ _ Hi i Hin) as (_ & ? & ?). by exists i.
Qed.

(** A BLOCKED task that is current is in the window of its CPU. *)
Lemma inv_blocked hole L Q s i : sched_inv hole L Q s → slot_ok i = true → st s i = TASK_STATE_BLOCKED →
  ∀ c, cpu_ok c = true → curr s c = Some i → hole c.
Proof.
  intros Hi Hs Hb c Hc Hcu. apply (si_blocked _ _ _ _ Hi c i); try done.
  destruct (decide (4 ≤ i)); [done|]. apply slot_ok_spec in Hs.
  destruct (si_slots _ _ _ _ Hi i) as (_ & _ & Hr); [lia|]. by rewrite Hr in Hb.
Qed.

(** ** Critical sections *)

Lemma wp_locked {A} hole L Q s (m : M (sstate P) A) Post :
  sched_inv hole L Q s → can_lock L_sched (sheld s) = true →
  (∀ s1, sched_inv hole L Q s1 → sheld s1 = L_sched :: sheld s → tasks s1 = tasks s →
     cur_task s1 = cur_task s → init_task_id s1 = init_task_id s → wp m Post s1) →
  wp (lock_sched ;; m) Post s.
Proof.
  intros Hi Hl Hm. wp_step. apply wp_lock_sched; [done|].
  apply Hm; try done; [by apply inv_held|by apply sheld_to_held].
Qed.

Lemma wp_unlocked hole L Q s s' (Post : unit → sstate P → Prop) :
  sched_inv hole L Q s' → sheld s' = L_sched :: sheld s → cur_task s' = cur_task s →
  (∀ s'', kept hole L s s'' → tasks s'' = tasks s' → Post () s'') → wp unlock_sched Post s'.
Proof.
  intros Hi Hh Hc HP. apply (wp_unlock_sched (sheld s)); [done|]. apply HP; [|done].
  split; [exists Q; by apply inv_held|]. split; [apply sheld_to_held|done].
Qed.

Lemma wp_ipi_kept hole L s s' mask intid (Post : unit → sstate P → Prop) :
  kept hole L s s' → (∀ s'', kept hole L s s'' → tasks s'' = tasks s' → Post () s'') →
  wp (gic_send_ipi mask intid) Post s'.
Proof.
  intros ((Q & Hi) & Hh & Hc) HP. apply wp_ipi. intros s'' Ht. apply HP.
  - split; [exists Q; by apply (traced_inv _ _ _ s')|]. split; [by rewrite (traced_held s')|].
    destruct Ht as [e ->]. done.
  - by destruct Ht as [e ->].
Qed.

Lemma wp_when_ipi_kept hole L s s' b mask intid (Post : unit → sstate P → Prop) :
  kept hole L s s' → (∀ s'', kept hole L s s'' → tasks s'' = tasks s' → Post () s'') →
  wp (whenM b (gic_send_ipi mask intid)) Post s'.
Proof. intros Hk HP. destruct b; [by eapply wp_ipi_kept|]. apply wp_ret. by apply HP. Qed.

Lemma kept_refl hole L Q s : sched_inv hole L Q s → kept hole L s s.
Proof. intros Hi. split; [by exists Q|done]. Qed.

Lemma task_eff_refl s i : task_eff s s i (λ t, t).
Proof. intros j. by case_decide; subst. Qed.

Lemma task_eff_tasks s1 s2 s1' s2' i f :
  tasks s1' = tasks s1 → tasks s2' = tasks s2 → task_eff s1 s2 i f → task_eff s1' s2' i f.
Proof. intros E1 E2 He j. unfold tk. rewrite E1, E2. apply He. Qed.

Lemma task_eff_upd s i t f : core t = core (f (tk s i)) →
  task_eff s (s <| tasks := <[i := t]> (tasks s) |>) i f.
Proof. intros Ht j. rewrite tk_upd. case_decide as Hd; [subst; by rewrite decide_True|by rewrite decide_False by done]. Qed.

Lemma tk_tasks s s' i : tasks s' = tasks s → tk s' i = tk s i.
Proof. unfold tk. by intros ->. Qed.

(** A field update that leaves the links, the identity and the queue fields. *)
Definition plain (f : task → task) : Prop := ∀ t, rq_view (f t) = rq_view t ∧ sview (f t) = sview t.

Lemma inv_plain hole hole' L Q s i f :
  sched_inv hole L Q s → plain f →
  (0 ≤ i < 4 → state (f (tk s i)) = TASK_STATE_RUNNING) →
  (state (f (tk s i)) = TASK_STATE_REAPING ↔ st s i = TASK_STATE_REAPING) →
  (∀ c, hole c → hole' c) →
  (state (f (tk s i)) = TASK_STATE_READY → st s i ≠ TASK_STATE_READY → ∀ c, curr s c = Some i → hole' c) →
  (state (f (tk s i)) = TASK_STATE_BLOCKED → st s i ≠ TASK_STATE_BLOCKED → ∀ c, curr s c = Some i → hole' c) →
  sched_inv hole' L Q (s <| tasks := <[i := f (tk s i)]> (tasks s) |>).
Proof.
  intros Hi Hp H1 H2 H3 H4 H5. destruct (Hp (tk s i)) as [Hr Hs].
  eapply (inv_upd_task hole hole'); try done.
  - intros Hrd Hn c c' _ _ _ Hcu. by apply H4.
  - intros Hrd Hn c _ Hcu. by apply H5.
Qed.

(** The state does not change either. *)
Lemma inv_quiet hole L Q s i f :
  sched_inv hole L Q s → plain f → (∀ t, state (f t) = state t) →
  sched_inv hole L Q (s <| tasks := <[i := f (tk s i)]> (tasks s) |>).
Proof.
  intros Hi Hp Hs. apply (inv_plain hole); try done; rewrite Hs; try done.
  intros Hb. by apply (si_slots _ _ _ _ Hi).
Qed.

(** ** Wake and unpark *)

(** [sched_make_ready_locked] leaves an idle task alone. *)
Definition readied (t : task) : task := if 4 <=? id t then t <| state := TASK_STATE_READY |> else t.

Lemma make_ready_any hole L Q s i :
  sched_inv hole L Q s → slot_ok i = true → st s i ≠ TASK_STATE_REAPING →
  (∀ c, cpu_ok c = true → curr s c = Some i → hole c) →
  wp (sched_make_ready_locked (Some i)) (λ _ s',
    (∃ Q', sched_inv hole L Q' s') ∧ sheld s' = sheld s ∧ cur_task s' = cur_task s ∧
    task_eff s s' i readied) s.
Proof.
  intros Hi Hs Hre Hh. destruct (decide (4 ≤ id (tk s i))) as [Hid|Hid].
  - destruct (inv_slot_id _ _ _ _ _ Hi Hs Hid) as [_ Hn].
    eapply wp_mono; [by apply (make_ready_inv hole L Q)|].
    intros _ s' ((c & _ & _ & _ & Hi') & He & Hc & Heff). split; [by eexists|].
    split; [unfold sheld, smachine; by rewrite He|]. split; [done|].
    intros j. rewrite (Heff j). unfold readied. by btrue (4 <=? id (tk s i)).
  - unfold sched_make_ready_locked. rewrite is_null_some. wp_step. apply wp_get_task; [done|].
    unfold SCHED_MAX_CPUS. btrue (id (tk s i) <? 4). apply wp_ret.
    split; [by exists Q|]. split; [done|]. split; [done|]. intros j. unfold readied.
    bfalse (4 <=? id (tk s i)). case_decide; by subst.
Qed.

Lemma blocked_readied hole L Q s i :
  sched_inv hole L Q s → slot_ok i = true → st s i = TASK_STATE_BLOCKED →
  wp (sched_make_ready_locked (Some i)) (λ _ s',
    (∃ Q', sched_inv hole L Q' s') ∧ sheld s' = sheld s ∧ cur_task s' = cur_task s ∧
    task_eff s s' i readied) s.
Proof.
  intros Hi Hs Hb. apply (make_ready_any hole L Q); try done; [by rewrite Hb|by eapply inv_blocked].
Qed.

(** What waking does to the task: a BLOCKED task without a pending kill becomes READY. *)
Definition wakeable (t : task) : bool := (state t =? TASK_STATE_BLOCKED) && (kill_pending t =? 0).
Definition woken (t : task) : task := if wakeable t then readied t else t.
Definition unparked (t : task) : task :=
  if wakeable t then readied t
  else if alive t && (kill_pending t =? 0) then t <| wake_pending := 1 |> else t.

(** The common end of an operation: unlock, and perhaps an interrupt. *)
Definition done_with hole L s i f s' : Prop := kept hole L s s' ∧ task_eff s s' i f.

Lemma wp_unlock_done hole L Q s s2 i f (Post : unit → sstate P → Prop) :
  sched_inv hole L Q s2 → sheld s2 = L_sched :: sheld s → cur_task s2 = cur_task s →
  task_eff s s2 i f → (∀ s', done_with hole L s i f s' → Post () s') → wp unlock_sched Post s2.
Proof.
  intros Hi Hh Hc He HP. apply (wp_unlocked hole L Q s); try done. intros s3 Hk Ht. apply HP.
  split; [done|]. by apply (task_eff_tasks s s2).
Qed.

Lemma wp_unlock_ipi_done hole L Q s s2 i f b mask intid :
  sched_inv hole L Q s2 → sheld s2 = L_sched :: sheld s → cur_task s2 = cur_task s →
  task_eff s s2 i f →
  wp (unlock_sched ;; whenM b (gic_send_ipi mask intid)) (λ _, done_with hole L s i f) s2.
Proof.
  intros Hi Hh Hc He. wp_step. apply (wp_unlocked hole L Q s); try done. intros s3 Hk Ht.
  eapply wp_when_ipi_kept; [exact Hk|]. intros s4 Hk4 Ht4.
  split; [done|]. apply (task_eff_tasks s s2); [done|congruence|done].
Qed.

(** An update of one task inside a critical section. *)
Lemma task_eff_locked s s1 i f g : tasks s1 = tasks s → g (tk s i) = f (tk s i) →
  task_eff s (s1 <| tasks := <[i := g (tk s1 i)]> (tasks s1) |>) i f.
Proof.
  intros Ht Hg. apply (task_eff_tasks s1 (s1 <| tasks := <[i := g (tk s1 i)]> (tasks s1) |>)); [done|done|].
  apply task_eff_upd. by rewrite (tk_tasks s s1), Hg.
Qed.

Lemma task_eff_same s s1 i f : tasks s1 = tasks s → f (tk s i) = tk s i → task_eff s s1 i f.
Proof. intros Ht Hf j. rewrite (tk_tasks s s1) by done. case_decide; [subst; by rewrite Hf|done]. Qed.

Lemma sched_wake_task_spec hole L Q s cpu i :
  sched_inv hole L Q s → can_lock L_sched (sheld s) = true → slot_ok i = true →
  wp (sched_wake_task cpu (Some i)) (λ _, done_with hole L s i woken) s.
Proof.
  intros Hi Hl Hs. unfold sched_wake_task. rewrite is_null_some.
  eapply wp_locked; [done|done|]. intros s1 Hi1 Hh1 Ht1 Hc1 _.
  wp_step. apply wp_get_task; [done|]. rewrite (tk_tasks s s1) by done. fold (wakeable (tk s i)).
  destruct (wakeable (tk s i)) eqn:Hw; cbn [whenM]; wp_step.
  - apply andb_true_iff in Hw as Hw'. destruct Hw' as [Hb _]. apply Z.eqb_eq in Hb.
    eapply wp_mono; [apply (blocked_readied hole L Q); try done; unfold st; by rewrite (tk_tasks s s1)|].
    intros [] s2 ((Q2 & Hi2) & Hh2 & Hc2 & He2).
    apply (wp_unlock_ipi_done hole L Q2 s s2 i woken true); [done|congruence|congruence|].
    intros j. rewrite (He2 j), !(tk_tasks s s1) by done. unfold woken. by rewrite Hw.
  - apply wp_ret. apply (wp_unlock_ipi_done hole L Q s s1 i woken false 0 0); [done|done|done|].
    apply task_eff_same; [done|]. unfold woken. by rewrite Hw.
Qed.

Lemma sched_unpark_task_spec hole L Q s cpu i :
  sched_inv hole L Q s → can_lock L_sched (sheld s) = true → slot_ok i = true →
  wp (sched_unpark_task cpu (Some i)) (λ _, done_with hole L s i unparked) s.
Proof.
  intros Hi Hl Hs. unfold sched_unpark_task. rewrite is_null_some.
  eapply wp_locked; [done|done|]. intros s1 Hi1 Hh1 Ht1 Hc1 _.
  wp_step. apply wp_get_task; [done|]. rewrite (tk_tasks s s1) by done. fold (wakeable (tk s i)).
  destruct (wakeable (tk s i)) eqn:Hw; wp_step.
  - apply andb_true_iff in Hw as Hw'. destruct Hw' as [Hb _]. apply Z.eqb_eq in Hb.
    eapply wp_mono; [apply (blocked_readied hole L Q); try done; unfold st; by rewrite (tk_tasks s s1)|].
    intros [] s2 ((Q2 & Hi2) & Hh2 & Hc2 & He2).
    apply (wp_unlock_ipi_done hole L Q2 s s2 i unparked true); [done|congruence|congruence|].
    intros j. rewrite (He2 j), !(tk_tasks s s1) by done. unfold unparked. by rewrite Hw.
  - destruct (alive (tk s i) && (kill_pending (tk s i) =? 0)) eqn:Ha; cbn [whenM].
    + apply wp_upd_task; [done|].
      apply (wp_unlock_ipi_done hole L Q s _ i unparked false 0 0); [by apply inv_quiet|done|done|].
      apply task_eff_locked; [done|]. unfold unparked. by rewrite Hw, Ha.
    + apply wp_ret. apply (wp_unlock_ipi_done hole L Q s s1 i unparked false 0 0); [done|done|done|].
      apply task_eff_same; [done|]. unfold unparked. by rewrite Hw, Ha.
Qed.

(** ** Park, block and sleep *)

Lemma inv_rq_frame hole L Q Q' s s' :
  sched_inv hole L Q s → rq_frame s s' → rq_rep s' Q' → cpu_ok (next_enqueue_cpu s') = true →
  (∀ c i, cpu_ok c = true → i ∈ Q' c → ∃ c', cpu_ok c' = true ∧ i ∈ Q c') → sched_inv hole L Q' s'.
Proof.
  intros Hi Hf Hr Hn Hsub. apply (inv_transport hole hole L Q Q' s s'); try done.
  - rewrite (rf_env _ _ Hf). apply Hi.
  - exact (rf_cur _ _ Hf).
  - exact (rf_next_id _ _ Hf).
  - intros j. unfold sview. by rewrite (rf_nexts s s'), (rf_id s s'), (rf_name s s'), (rf_ccpu s s').
  - intros j Hj _. eapply on_rq_zero; [apply Hi|exact Hr|done|]. intros c. by apply Hsub.
  - intros j Hb. unfold st. rewrite (rf_state s s') by done. by apply (si_slots _ _ _ _ Hi).
  - intros j. unfold st. by rewrite (rf_state s s').
  - intros c j c' Hc Hc' Hin. unfold st. rewrite (rf_state s s') by done.
    destruct (Hsub c j Hc Hin) as (c2 & Hc2 & Hin2). by apply (si_ready _ _ _ _ Hi c2).
  - intros c j Hc. unfold st. rewrite (rf_state s s') by done. by apply (si_blocked _ _ _ _ Hi).
Qed.

Lemma without_in x y l : y ∈ without x l → y ∈ l ∧ y ≠ x.
Proof. unfold without. rewrite list_elem_of_filter. tauto. Qed.

Lemma rq_remove_inv hole L Q s i :
  sched_inv hole L Q s → slot_ok i = true →
  wp (sched_rq_remove_locked (Some i)) (λ _ s', ∃ Q', sched_inv hole L Q' s' ∧ rq_frame s s' ∧
    ∀ c, cpu_ok c = true → i ∉ Q' c) s.
Proof.
  intros Hi Hs. eapply wp_mono; [apply (rq_remove_spec s Q i); [apply Hi|done]|].
  intros b s' [(Hon & _ & ->)|(c & Hc & Hin & _ & Hr & Hf & Hn)].
  - exists Q. split; [done|]. split; [done|]. intros c Hc Hin.
    destruct (rr_in _ _ (si_rq _ _ _ _ Hi) c i Hc Hin). lia.
  - exists (qupd Q c (without i (Q c))). split; [|split; [done|]].
    + apply (inv_rq_frame _ _ Q _ s); try done; [rewrite Hn; apply Hi|].
      intros c' j Hc'. unfold qupd. case_decide; [subst c'|intros ?; by exists c'].
      intros [? _]%without_in. by exists c.
    + intros c' Hc'. unfold qupd. case_decide as Hcc; [intros [_ ?]%without_in; done|].
      intros Hin'. apply Hcc. by apply (queued_once s Q c' c i (si_rq _ _ _ _ Hi)).
Qed.

(** [c] has published its task [i] as blocked or ready. *)
Definition window (hole : Z → Prop) s (i c : Z) : Prop := hole c ∨ curr s c = Some i.

(** Setting a state of a task that is not an idle task. *)
Lemma inv_set_state hole L Q s i f :
  sched_inv hole L Q s → slot_ok i = true → 4 ≤ id (tk s i) → plain f →
  st s i ≠ TASK_STATE_REAPING → state (f (tk s i)) ≠ TASK_STATE_REAPING →
  sched_inv (window hole s i) L Q (s <| tasks := <[i := f (tk s i)]> (tasks s) |>).
Proof.
  intros Hi Hs Hid Hp Hr0 Hre. destruct (inv_slot_id _ _ _ _ _ Hi Hs Hid) as [Hge _].
  apply (inv_plain hole); try done.
  - lia.
  - intros c Hh. by left.
  - intros _ _ c Hcu. by right.
  - intros _ _ c Hcu. by right.
Qed.

(** The same, to a state that opens no window. *)
Lemma inv_set_final hole L Q s i f :
  sched_inv hole L Q s → slot_ok i = true → 4 ≤ id (tk s i) → plain f →
  st s i ≠ TASK_STATE_REAPING → state (f (tk s i)) ≠ TASK_STATE_REAPING → state (f (tk s i)) ≠ TASK_STATE_READY →
  state (f (tk s i)) ≠ TASK_STATE_BLOCKED →
  sched_inv hole L Q (s <| tasks := <[i := f (tk s i)]> (tasks s) |>).
Proof.
  intros Hi Hs Hid Hp Hr0 H1 H2 H3. destruct (inv_slot_id _ _ _ _ _ Hi Hs Hid) as [Hge _].
  apply (inv_plain hole); try done. lia.
Qed.

Lemma core_state t v : core (t <| state := v |>) = (core t) <| state := v |>.
Proof. done. Qed.

Definition blockable (t : task) : bool := alive t && (kill_pending t =? 0).
Lemma alive_states t : alive t = true →
  state t ≠ TASK_STATE_DEAD ∧ state t ≠ TASK_STATE_ZOMBIE ∧ state t ≠ TASK_STATE_REAPING.
Proof.
  unfold alive. rewrite !andb_true_iff, !negb_true_iff, !Z.eqb_neq. tauto.
Qed.

Lemma blockable_state t : blockable t = true → state t ≠ TASK_STATE_REAPING.
Proof. intros [Ha _]%andb_true_iff. apply alive_states in Ha. tauto. Qed.

Definition blocked (t : task) : task :=
  if (4 <=? id t) && blockable t then t <| state := TASK_STATE_BLOCKED |> else t.

Lemma rq_frame_held s s' : rq_frame s s' → sheld s' = sheld s.
Proof. intros Hf. unfold sheld, smachine. by rewrite (rf_env _ _ Hf). Qed.

(** After a removal from the queues, an update of the task. *)
Lemma task_eff_after s s1 i f g : rq_frame s s1 → core (g (tk s1 i)) = core (f (tk s i)) →
  task_eff s (s1 <| tasks := <[i := g (tk s1 i)]> (tasks s1) |>) i f.
Proof.
  intros Hf Hg j. rewrite tk_upd. destruct (decide (j = i)) as [->|].
  - by rewrite decide_True.
  - rewrite decide_False by done. apply Hf.
Qed.

Lemma task_eff_trans_l s s1 s2 i f : tasks s1 = tasks s → task_eff s1 s2 i f → task_eff s s2 i f.
Proof. intros Ht He. by apply (task_eff_tasks s1 s2). Qed.

Lemma sched_block_task_spec hole L Q s i :
  sched_inv hole L Q s → can_lock L_sched (sheld s) = true → slot_ok i = true →
  wp (sched_block_task (Some i)) (λ _, done_with (window hole s i) L s i blocked) s.
Proof.
  intros Hi Hl Hs. unfold sched_block_task. rewrite is_null_some.
  eapply wp_locked; [done|done|]. intros s1 Hi1 Hh1 Ht1 Hc1 _.
  wp_step. apply wp_get_task; [done|]. rewrite (tk_tasks s s1) by done.
  rewrite <- andb_assoc. fold (blockable (tk s i)).
  destruct ((4 <=? id (tk s i)) && blockable (tk s i)) eqn:Hb; cbn [whenM]; wp_step.
  - apply andb_true_iff in Hb as Hb'. destruct Hb' as [Hid Hbl]. apply Z.leb_le in Hid.
    apply blockable_state in Hbl.
    wp_step. eapply wp_mono; [by apply (rq_remove_inv hole L Q)|].
    intros _ s2 (Q2 & Hi2 & Hf & _). apply wp_upd_task; [done|].
    assert (window hole s2 i = window hole s i) as Hw.
    { unfold window, curr. rewrite (rf_cur _ _ Hf). by rewrite Hc1. }
    rewrite <- Hw. eapply (wp_unlock_done (window hole s2 i) L Q2 s); [|..|by intros].
    + apply inv_set_state; try done; unfold st; rewrite ?(rf_id s1 s2), ?(rf_state s1 s2), (tk_tasks s s1); done.
    + by rewrite <- Hh1, <- (rq_frame_held s1 s2).
    + cbn. rewrite (rf_cur _ _ Hf). done.
    + eapply task_eff_trans_l; [exact Ht1|]. apply task_eff_after; [done|].
      rewrite (tk_tasks s s1) by done. unfold blocked. rewrite Hb.
      rewrite !core_state, (rf_core _ _ Hf i). by rewrite (tk_tasks s s1).
  - apply wp_ret. eapply (wp_unlock_done _ L Q s); [|done|done| |by intros].
    + apply (inv_weaken hole); [by left|done].
    + apply task_eff_same; [done|]. unfold blocked. by rewrite Hb.
Qed.

Definition parks (t : task) : bool := (4 <=? id t) && blockable t && (wake_pending t =? 0).
Definition parked (t : task) : task :=
  if (4 <=? id t) && blockable t then
    if wake_pending t =? 0 then t <| state := TASK_STATE_BLOCKED |> else t <| wake_pending := 0 |>
  else t.

Lemma window_cur hole s s' i : cur_task s' = cur_task s → window hole s' i = window hole s i.
Proof. unfold window, curr. by intros ->. Qed.

Lemma done_unchanged hole L Q s i f : sched_inv hole L Q s → f (tk s i) = tk s i →
  done_with (window hole s i) L s i f s.
Proof.
  intros Hi Hf. split; [|by apply task_eff_same]. apply (kept_refl _ _ Q).
  apply (inv_weaken hole); [by left|done].
Qed.

Lemma sched_park_task_spec hole L Q s i :
  sched_inv hole L Q s → can_lock L_sched (sheld s) = true → slot_ok i = true →
  wp (sched_park_task (Some i)) (λ b s', b = parks (tk s i) ∧
    done_with (if b then window hole s i else hole) L s i parked s') s.
Proof.
  intros Hi Hl Hs. unfold sched_park_task. rewrite is_null_some. wp_step. apply wp_get_task; [done|].
  unfold parks. destruct (id (tk s i) <? 4) eqn:Hid; bool_to_prop.
  { apply wp_ret. assert ((4 <=? id (tk s i)) = false) as E by (apply Z.leb_gt; lia).
    rewrite E. split; [done|]. split; [by apply (kept_refl _ _ Q)|]. apply task_eff_same; [done|].
    unfold parked. by rewrite E. }
  eapply wp_locked; [done|done|]. intros s1 Hi1 Hh1 Ht1 Hc1 _. wp_step. apply wp_get_task; [done|].
  assert (tk s1 i = tk s i) as Htk by (by apply tk_tasks). rewrite Htk. fold (blockable (tk s i)).
  btrue (4 <=? id (tk s i)). wp_step. cbn [andb].
  assert ((4 <=? id (tk s i)) = true) as E by (apply Z.leb_le; lia).
  destruct (blockable (tk s i)) eqn:Hb; [destruct (wake_pending (tk s i) =? 0) eqn:Hw|]; cbn [negb andb].
  - wp_step. apply wp_upd_task; [done|]. do 2 wp_step.
    rewrite <- (window_cur hole s s1) by done.
    eapply (wp_unlock_done _ L Q s _ i parked); [apply inv_set_state; try done; unfold st; rewrite Htk; [done|by apply blockable_state]|done|done| |].
    + apply task_eff_locked; [done|]. unfold parked. by rewrite E, Hb, Hw.
    + intros s' Hd. wp_step. by rewrite (window_cur hole s s1) in Hd |- *.
  - wp_step. apply wp_upd_task; [done|]. do 2 wp_step.
    eapply (wp_unlock_done _ L Q s _ i parked); [by apply inv_quiet|done|done| |by intros s' Hd; wp_step].
    apply task_eff_locked; [done|]. unfold parked. by rewrite E, Hb, Hw.
  - do 2 wp_step. eapply (wp_unlock_done _ L Q s _ i parked); [done|done|done| |by intros s' Hd; wp_step].
    apply task_eff_same; [done|]. unfold parked. by rewrite E, Hb.
Qed.

(** The current task of a CPU goes to sleep: BLOCKED with its count of ticks,
    or READY when it is zero. *)
Definition slept (ticks : Z) (t : task) : task :=
  if (4 <=? id t) && blockable t then
    t <| sleep_ticks := ticks |>
      <| state := if ticks =? 0 then TASK_STATE_READY else TASK_STATE_BLOCKED |>
  else t.

Lemma sched_sleep_current_spec hole L Q s cpu i ticks :
  sched_inv hole L Q s → can_lock L_sched (sheld s) = true → cpu_ok cpu = true → curr s cpu = Some i →
  wp (sched_sleep_current cpu ticks) (λ b s', b = (4 <=? id (tk s i)) && blockable (tk s i) ∧
    done_with (if b then window hole s i else hole) L s i (slept ticks) s') s.
Proof.
  intros Hi Hl Hc Hcu. destruct (inv_current _ _ _ _ _ Hi Hc) as (i' & Hcu' & Hs & Hn & Hre).
  rewrite Hcu in Hcu'. injection Hcu' as <-.
  unfold sched_sleep_current, sched_current, arch_get_current_task. do 2 wp_step. fold (curr s cpu).
  rewrite Hcu, is_null_some. wp_step. apply wp_get_task; [done|].
  destruct (id (tk s i) <? 4) eqn:Hid; bool_to_prop.
  { apply wp_ret. assert ((4 <=? id (tk s i)) = false) as E by (apply Z.leb_gt; lia).
    rewrite E. split; [done|]. split; [by apply (kept_refl _ _ Q)|]. apply task_eff_same; [done|].
    unfold slept. by rewrite E. }
  assert ((4 <=? id (tk s i)) = true) as E by (apply Z.leb_le; lia). rewrite E.
  eapply wp_locked; [done|done|]. intros s1 Hi1 Hh1 Ht1 Hc1 _. wp_step. apply wp_get_task; [done|].
  assert (tk s1 i = tk s i) as Htk by (by apply tk_tasks). rewrite Htk, <- negb_andb.
  fold (blockable (tk s i)). destruct (blockable (tk s i)) eqn:Hb; cbn [negb andb].
  2: { wp_step. eapply (wp_unlock_done _ L Q s _ i (slept ticks)); [done|done|done| |by intros s' Hd; wp_step].
       apply task_eff_same; [done|]. unfold slept. by rewrite E, Hb. }
  wp_step. apply wp_upd_task; [done|]. rewrite Htk.
  match goal with |- wp _ _ ?x => set (s2 := x) end.
  assert (sched_inv hole L Q s2) as Hi2.
  { unfold s2. rewrite <- Htk. by apply (inv_quiet _ _ _ s1 i (λ t, t <| sleep_ticks := ticks |>)). }
  assert (tk s2 i = (tk s i) <| sleep_ticks := ticks |>) as Ht2 by (unfold s2; by rewrite tk_upd, decide_True).
  assert (task_eff s s2 i (λ t, t <| sleep_ticks := ticks |>)) as He2.
  { eapply task_eff_trans_l; [exact Ht1|]. unfold s2. apply task_eff_upd. by rewrite Htk. }
  assert (window hole s2 i = window hole s i) as Hwin by (by apply window_cur).
  wp_step. destruct (ticks =? 0) eqn:Hz.
  - eapply wp_mono; [apply (make_ready_any (window hole s i) L Q s2 i); [|done| |]|].
    + apply (inv_weaken hole); [by left|done].
    + unfold st in *. by rewrite Ht2.
    + intros c _ Hc'. rewrite <- Hwin. by right.
    + intros [] s3 ((Q3 & Hi3) & Hh3 & Hc3 & He3). wp_step.
      eapply (wp_unlock_done _ L Q3 s _ i (slept ticks)); [exact Hi3|by rewrite Hh3|by rewrite Hc3| |by intros s' Hd; wp_step].
      intros j. rewrite (He3 j). specialize (He2 j). case_decide; [subst|done].
      unfold readied, slept. rewrite Ht2, E, Hb, Hz. cbn [id setf]. by rewrite E.
  - wp_step. eapply wp_mono; [by apply (rq_remove_inv hole L Q)|].
    intros _ s3 (Q3 & Hi3 & Hf & _). apply wp_upd_task; [done|]. wp_step.
    assert (window hole s3 i = window hole s i) as Hw3 by (apply window_cur; by rewrite (rf_cur _ _ Hf)).
    rewrite <- Hw3. eapply (wp_unlock_done _ L Q3 s _ i (slept ticks)); [| | |..].
    + apply inv_set_state; try done; unfold st; rewrite ?(rf_id s2 s3), ?(rf_state s2 s3), Ht2; done.
    + rewrite <- Hh1. exact (rq_frame_held _ _ Hf).
    + cbn. by rewrite (rf_cur _ _ Hf).
    + intros j. specialize (He2 j). rewrite tk_upd. destruct (decide (j = i)) as [->|].
      * rewrite decide_True by done. unfold slept. rewrite E, Hb, Hz, !core_state, (rf_core _ _ Hf i).
        by rewrite Ht2.
      * rewrite decide_False by done. by rewrite (rf_core _ _ Hf j).
    + intros s' Hd. wp_step. by rewrite Hw3 in Hd |- *.
Qed.

(** ** Bookkeeping of the current task *)

Lemma done_quiet hole L Q s i f :
  sched_inv hole L Q s → plain f → (∀ t, state (f t) = state t) →
  done_with hole L s i f (s <| tasks := <[i := f (tk s i)]> (tasks s) |>).
Proof.
  intros Hi Hp Hs. split; [apply (kept_refl _ _ Q) in Hi as Hk|by apply task_eff_upd].
  split; [exists Q; by apply inv_quiet|done].
Qed.

Lemma sched_set_current_exit_status_spec hole L Q s cpu i status :
  sched_inv hole L Q s → can_lock L_sched (sheld s) = true → slot_ok i = true → curr s cpu = Some i →
  wp (sched_set_current_exit_status cpu status)
     (λ _, done_with hole L s i (λ t, t <| exit_status := status |>)) s.
Proof.
  intros Hi Hl Hs Hcu. unfold sched_set_current_exit_status, sched_current, arch_get_current_task.
  do 2 wp_step. fold (curr s cpu). rewrite Hcu, is_null_some.
  eapply wp_locked; [done|done|]. intros s1 Hi1 Hh1 Ht1 Hc1 _. wp_step. apply wp_upd_task; [done|].
  eapply (wp_unlock_done _ L Q s _ i (λ t, t <| exit_status := status |>)); [..|by intros]; try done.
  - by apply (inv_quiet hole L Q s1 i (λ t, t <| exit_status := status |>)).
  - by apply (task_eff_locked s s1 i _ (λ t, t <| exit_status := status |>)).
Qed.

Lemma sched_preempt_disable_spec hole L Q s cpu i :
  sched_inv hole L Q s → slot_ok i = true → curr s cpu = Some i →
  wp (sched_preempt_disable cpu)
     (λ _, done_with hole L s i (λ t, t <| preempt_count := u32 (preempt_count t + 1) |>)) s.
Proof.
  intros Hi Hs Hcu. unfold sched_preempt_disable, sched_current, arch_get_current_task.
  do 2 wp_step. fold (curr s cpu). rewrite Hcu, is_null_some. apply wp_upd_task; [done|].
  by apply (done_quiet hole L Q s i (λ t, t <| preempt_count := u32 (preempt_count t + 1) |>)).
Qed.

Definition preempt_dec (t : task) : task :=
  if preempt_count t =? 0 then t else t <| preempt_count := preempt_count t - 1 |>.

Lemma plain_preempt_dec : plain preempt_dec.
Proof. intros t. unfold preempt_dec. by case_match. Qed.

Lemma sched_preempt_enable_spec hole L Q s cpu i :
  sched_inv hole L Q s → slot_ok i = true → curr s cpu = Some i →
  wp (sched_preempt_enable cpu) (λ _, done_with hole L s i preempt_dec) s.
Proof.
  intros Hi Hs Hcu. unfold sched_preempt_enable, sched_current, arch_get_current_task.
  do 2 wp_step. fold (curr s cpu). rewrite Hcu, is_null_some. apply wp_upd_task; [done|].
  apply (done_quiet hole L Q s i preempt_dec); [done|apply plain_preempt_dec|].
  intros t. unfold preempt_dec. by case_match.
Qed.

(** The fields of a run queue that are not the queue. *)
Lemma inv_rq_fields hole L Q s c f :
  sched_inv hole L Q s →
  (∀ q, rq_head (f q) = rq_head q ∧ rq_tail (f q) = rq_tail q ∧ nr_running (f q) = nr_running q) →
  sched_inv hole L Q (s <| run_queues := <[c := f (rq_at s c)]> (run_queues s) |>).
Proof.
  intros Hi Hf. set (s' := s <| run_queues := _ |>).
  apply (inv_rq_frame hole L Q Q s); try done; [| |by eauto].
  - apply (rq_rep_same s); [apply Hi|done|]. intros c'. unfold s'. rewrite rq_at_upd.
    destruct (decide (c = c')) as [<-|]; [apply Hf|done].
  - apply Hi.
Qed.

Lemma sched_request_reschedule_spec hole L Q s c :
  sched_inv hole L Q s → can_lock L_sched (sheld s) = true → 0 ≤ c →
  wp (sched_request_reschedule c) (λ _, kept hole L s) s.
Proof.
  intros Hi Hl Hc. unfold sched_request_reschedule. unfold SCHED_MAX_CPUS.
  destruct (4 <=? c) eqn:Hb; bool_to_prop; [apply wp_ret; by apply (kept_refl _ _ Q)|].
  eapply wp_locked; [done|done|]. intros s1 Hi1 Hh1 Ht1 Hc1 _. wp_step.
  apply wp_upd_rq; [apply cpu_ok_spec; lia|].
  eapply (wp_unlocked _ L Q s); [by apply inv_rq_fields|done|done|done].
Qed.

Lemma sched_irq_enter_spec hole L Q s c :
  sched_inv hole L Q s → cpu_ok c = true → wp (sched_irq_enter c) (λ _, kept hole L s) s.
Proof.
  intros Hi Hc. unfold sched_irq_enter. unfold SCHED_MAX_CPUS. apply cpu_ok_spec in Hc as Hb. btrue (c <? 4).
  apply wp_upd_rq; [done|]. split; [exists Q; by apply inv_rq_fields|done].
Qed.

(** The interrupt ends in [schedule] only at depth zero, with a reschedule
    requested and preemption enabled. *)
Lemma sched_irq_exit_spec hole L Q s c i :
  sched_inv hole L Q s → cpu_ok c = true → slot_ok i = true → curr s c = Some i →
  wp (sched_irq_exit c) (λ b s', kept hole L s s' ∧ tasks s' = tasks s ∧
    b = (irq_depth (rq_at s c) =? 1) && negb (need_resched (rq_at s c) =? 0)
        && (preempt_count (tk s i) =? 0)) s.
Proof.
  intros Hi Hc Hs Hcu. unfold sched_irq_exit, sched_current, arch_get_current_task.
  do 2 wp_step. fold (curr s c). rewrite Hcu. apply cpu_ok_spec in Hc as Hb.
  unfold SCHED_MAX_CPUS. bfalse (4 <=? c). wp_step. apply wp_get_rq; [done|].
  destruct (irq_depth (rq_at s c) =? 0) eqn:Hd; bool_to_prop.
  { apply wp_ret. rewrite Hd. split; [by apply (kept_refl _ _ Q)|done]. }
  wp_step. apply wp_upd_rq; [done|].
  match goal with |- wp _ _ ?x => set (s1 := x) end.
  assert (kept hole L s s1) as Hk by (split; [exists Q; by apply inv_rq_fields|done]).
  replace (irq_depth (rq_at s c) - 1 =? 0) with (irq_depth (rq_at s c) =? 1).
  2: { apply eq_true_iff_eq. rewrite !Z.eqb_eq. lia. }
  rewrite is_null_some, andb_true_r. destruct (_ && _) eqn:Hcond.
  - wp_step. apply wp_get_task; [done|]. by apply wp_ret.
  - by apply wp_ret.
Qed.

End ops.
