(* ===== verification/SchedLife.v ===== *)
(** * Parents, children, kill and the timer tick keep the scheduler's invariant. *)

From S2P Require Import Prelude Machine PageAllocSpec Task WaitQueue Heap HeapSpec Sched SchedQueue SchedInv SchedOps.

Open Scope kernel_scope.

Section life.
Context {P : Type} `{SchedEnvLaws P}.
Implicit Types s : sstate P.

Definition named (t : task) : bool := negb (bool_decide (name t = None)).

Lemma named_spec t : named t = true ↔ name t ≠ None.
Proof. unfold named. rewrite negb_true_iff, bool_decide_eq_false. done. Qed.

Lemma all_slots_spec i : i ∈ all_slots ↔ slot_ok i = true.
Proof. unfold all_slots. rewrite upto_seqZ, elem_of_seqZ, slot_ok_spec. unfold MAX_TASKS. lia. Qed.

Lemma all_slots_nodup : NoDup all_slots.
Proof. unfold all_slots. rewrite upto_seqZ. apply NoDup_seqZ. Qed.

(** A search of the table: the first slot whose task satisfies [p]. *)
Definition find_slot (p : task → bool) (s : sstate P) : tptr := List.find (λ i, p (tk s i)) all_slots.

Lemma find_slot_some p s i : find_slot p s = Some i → slot_ok i = true ∧ p (tk s i) = true.
Proof.
  intros Hf. apply List.find_some in Hf as [Hin Hp]. split; [|done].
  apply all_slots_spec. by apply list_elem_of_In.
Qed.

Lemma find_slot_none p s : find_slot p s = None → ∀ i, slot_ok i = true → p (tk s i) = false.
Proof.
  intros Hf i Hi. apply (List.find_none _ _ Hf). by apply list_elem_of_In, all_slots_spec.
Qed.

Lemma wp_search (p : task → bool) (f : unit → Z → M (sstate P) (unit + Z)) l
    (Q : unit + Z → sstate P → Prop) s :
  (∀ i, i ∈ l → wp (f () i) (λ r s', s' = s ∧ r = if p (tk s i) then inr i else inl ()) s) →
  Q (match List.find (λ i, p (tk s i)) l with Some i => inr i | None => inl () end) s →
  wp (iterM l f ()) Q s.
Proof.
  induction l as [|i l IH]; intros Hf HQ; [by apply wp_ret|]. cbn [iterM]. wp_step.
  eapply wp_mono; [apply Hf; set_solver|]. intros r s' [-> ->]. cbn [List.find] in HQ.
  destruct (p (tk s i)); [by apply wp_ret|]. apply IH; [|done]. intros j Hj. apply Hf. set_solver.
Qed.

Lemma find_task_spec s task_id (Q : tptr → sstate P → Prop) :
  Q (find_slot (λ t, named t && (id t =? task_id)) s) s → wp (find_task task_id) Q s.
Proof.
  intros HQ. unfold find_task. wp_step.
  apply (wp_search (λ t, named t && (id t =? task_id))).
  - intros i Hi%all_slots_spec. wp_step. apply wp_get_task; [done|]. apply wp_ret. split; [done|].
    unfold named. by destruct (bool_decide _), (_ =? _).
  - apply wp_ret. unfold find_slot in HQ. by destruct (List.find _ _).
Qed.

(** The task with a given id is found. *)
Lemma find_slot_id hole L Q s i : sched_inv hole L Q s → slot_ok i = true → name (tk s i) ≠ None →
  find_slot (λ t, named t && (id t =? id (tk s i))) s = Some i.
Proof.
  intros Hi Hs Hn. destruct (find_slot _ _) as [j|] eqn:Hf.
  - apply find_slot_some in Hf as [Hj [Hnj%named_spec He%Z.eqb_eq]%andb_true_iff].
    f_equal. by apply (si_ids _ _ _ _ Hi).
  - apply (find_slot_none _ _ Hf) in Hs as Hx. rewrite Z.eqb_refl, andb_true_r in Hx.
    apply named_spec in Hn. congruence.
Qed.

(** ** Kill *)

Definition killed_self (t : task) : task := t <| kill_pending := 1 |>.
Definition killed_now (t : task) : task :=
  t <| state := TASK_STATE_DEAD |> <| sleep_ticks := 0 |> <| wake_pending := 0 |>.
Definition on_cpu (t : task) : bool := (state t =? TASK_STATE_RUNNING) && negb (current_cpu t =? TASK_NO_CPU).
Definition killed (t : task) : task := if on_cpu t then killed_self t else killed_now t.

(** Which task a kill by [cpu] hits. *)
Definition kill_target s cpu task_id : tptr :=
  match find_slot (λ t, named t && (id t =? task_id)) s with
  | Some i => if bool_decide (curr s cpu = Some i) || (id (tk s i) <? 4) || negb (alive (tk s i))
              then None else Some i
  | None => None
  end.

Lemma sched_kill_task_spec hole L Q s cpu task_id :
  sched_inv hole L Q s → can_lock L_sched (sheld s) = true →
  wp (sched_kill_task cpu task_id) (λ b s',
    match kill_target s cpu task_id with
    | Some i => b = true ∧ done_with hole L s i killed s'
    | None => b = false ∧ kept hole L s s' ∧ tasks s' = tasks s
    end) s.
Proof.
  intros Hi Hl. unfold sched_kill_task, sched_current, arch_get_current_task.
  eapply wp_locked; [done|done|]. intros s1 Hi1 Hh1 Ht1 Hc1 _.
  assert (∀ i, tk s1 i = tk s i) as Htk by (intros i; by apply tk_tasks).
  wp_step. apply find_task_spec. do 2 wp_step.
  replace (find_slot _ s1) with (find_slot (λ t, named t && (id t =? task_id)) s)
    by (unfold find_slot, tk; by rewrite Ht1).
  rewrite Hc1. fold (curr s cpu). unfold kill_target.
  destruct (find_slot _ _) as [i|] eqn:Hf.
  2: { rewrite is_null_none. wp_steps.
       apply (wp_unlocked hole L Q s); [done|done|done|]. intros s2 Hk Ht2. wp_steps.
       split; [done|]. split; [done|]. by rewrite Ht2. }
  apply find_slot_some in Hf as [Hs _]. rewrite is_null_some. do 2 wp_step. apply wp_get_task; [done|].
  rewrite Htk. replace (ptr_eq (Some i) (curr s cpu)) with (bool_decide (curr s cpu = Some i))
    by (unfold ptr_eq; apply bool_decide_ext; done).
  destruct (_ || _ || _) eqn:Hg.
  { wp_steps. apply (wp_unlocked hole L Q s); [done|done|done|]. intros s2 Hk Ht2. wp_steps.
    split; [done|]. split; [done|]. by rewrite Ht2. }
  apply orb_false_iff in Hg as [[_ Hid]%orb_false_iff Hal]. apply Z.ltb_ge in Hid.
  apply negb_false_iff, alive_states in Hal as (_ & _ & Hre).
  fold (on_cpu (tk s i)). destruct (on_cpu (tk s i)) eqn:Ho.
  - wp_step. apply wp_upd_task; [done|]. wp_steps.
    apply (wp_unlock_done hole L Q s _ i killed); [by apply (inv_quiet hole L Q s1 i killed_self)|done|done| |].
    + apply (task_eff_locked s s1 i killed killed_self); [done|]. unfold killed. by rewrite Ho.
    + intros s2 [Hk2 He2]. wp_step. eapply wp_when_ipi_kept; [exact Hk2|]. intros s3 Hk3 Ht3. wp_step.
      split; [done|]. split; [done|]. by apply (task_eff_tasks s s2).
  - wp_step. apply wp_upd_task; [done|]. wp_steps.
    apply (wp_unlock_done hole L Q s _ i killed).
    + apply (inv_set_final hole L Q s1 i killed_now); try done; unfold st; by rewrite Htk.
    + done.
    + done.
    + apply (task_eff_locked s s1 i killed killed_now); [done|]. unfold killed. by rewrite Ho.
    + intros s2 [Hk2 He2]. wp_steps. done.
Qed.

(** ** The init task and adoption *)

Lemma kept_same hole L Q s s' : sched_inv hole L Q s → ps_ok (s_env s') → tasks s' = tasks s →
  run_queues s' = run_queues s → cur_task s' = cur_task s → next_task_id s' = next_task_id s →
  next_enqueue_cpu s' = next_enqueue_cpu s → sheld s' = sheld s → kept hole L s s'.
Proof.
  intros Hi He Ht Hr Hc Hn Hq Hh. split; [exists Q; by apply (inv_env _ _ _ s)|done].
Qed.

(** Registration succeeds once, for a task that is not an idle task. *)
Lemma sched_register_init_task_spec hole L Q s i :
  sched_inv hole L Q s → can_lock L_sched (sheld s) = true → slot_ok i = true →
  wp (sched_register_init_task (Some i)) (λ b s',
    b = (4 <=? id (tk s i)) && (init_task_id s =? SCHED_NO_PARENT) ∧ kept hole L s s' ∧
    task_eff s s' i (λ t, if b then t <| parent_id := SCHED_NO_PARENT |> else t) ∧
    init_task_id s' = if b then id (tk s i) else init_task_id s) s.
Proof.
  intros Hi Hl Hs. unfold sched_register_init_task. rewrite is_null_some. wp_step. apply wp_get_task; [done|].
  destruct (id (tk s i) <? 4) eqn:Hid; bool_to_prop.
  { apply wp_ret. bfalse (4 <=? id (tk s i)). split; [done|]. split; [by apply (kept_refl _ _ Q)|].
    split; [by apply task_eff_same|done]. }
  btrue (4 <=? id (tk s i)). rewrite andb_true_l.
  wp_step. apply wp_lock_sched; [done|]. wp_step. wp_step. cbn [init_task_id sheld_to smach setf].
  destruct (init_task_id s =? SCHED_NO_PARENT); cbn [negb].
  - wp_steps. apply wp_upd_task; [done|]. wp_step.
    match goal with |- wp _ _ (setf tasks _ ?x) => set (s1 := x) end.
    assert (sched_inv hole L Q s1) as Hi1 by (apply (inv_env _ _ _ (sheld_to (L_sched :: sheld s) s)); [by apply inv_held|try done..]; apply (inv_held hole L Q s (L_sched :: sheld s) Hi)).
    assert (sheld s1 = L_sched :: sheld s) as Hh1 by apply sheld_to_held.
    assert (tasks s1 = tasks s ∧ cur_task s1 = cur_task s ∧ init_task_id s1 = id (tk s i))
      as (Ht1 & Hc1 & Hini) by done.
    clearbody s1. set (f := λ t : task, t <| parent_id := SCHED_NO_PARENT |>).
    assert (sched_inv hole L Q (s1 <| tasks := <[i := f (tk s1 i)]> (tasks s1) |>)) as Hi2
      by by apply inv_quiet.
    apply (wp_unlock_sched (sheld s)); [done|]. wp_step.
    split; [done|]. split; [|split; [|exact Hini]].
    + split; [exists Q; by apply inv_held|split; [apply sheld_to_held|done]].
    + apply (task_eff_tasks s (s1 <| tasks := <[i := f (tk s1 i)]> (tasks s1) |>)); [done|done|].
      by apply (task_eff_locked s s1 i f f).
  - wp_step. apply (wp_unlock_sched (sheld s)); [apply sheld_to_held|]. wp_step.
    split; [done|]. split; [|split; [by apply task_eff_same|done]].
    split; [exists Q; by do 2 apply inv_held|]. split; [apply sheld_to_held|done].
Qed.

Lemma sched_adopt_task_spec hole L Q s i :
  sched_inv hole L Q s → can_lock L_sched (sheld s) = true → slot_ok i = true →
  wp (sched_adopt_task (Some i)) (λ b s',
    b = (4 <=? id (tk s i)) && negb (init_task_id s =? SCHED_NO_PARENT) && negb (id (tk s i) =? init_task_id s) ∧
    done_with hole L s i (λ t, if b then t <| parent_id := init_task_id s |> else t) s') s.
Proof.
  intros Hi Hl Hs. unfold sched_adopt_task. rewrite is_null_some. wp_step. apply wp_get_task; [done|].
  destruct (id (tk s i) <? 4) eqn:Hid; bool_to_prop.
  { apply wp_ret. bfalse (4 <=? id (tk s i)). split; [done|]. split; [by apply (kept_refl _ _ Q)|].
    by apply task_eff_same. }
  btrue (4 <=? id (tk s i)). rewrite andb_true_l.
  eapply wp_locked; [done|done|]. intros s1 Hi1 Hh1 Ht1 Hc1 Hini. do 2 wp_step. rewrite Hini, <- negb_orb.
  destruct ((init_task_id s =? SCHED_NO_PARENT) || _); cbn [negb]; wp_step.
  - apply (wp_unlocked hole L Q s); [done..|]. intros s2 Hk Ht2. wp_step. split; [done|].
    split; [done|]. apply task_eff_same; [congruence|done].
  - apply wp_upd_task; [done|]. wp_step. set (f := λ t : task, t <| parent_id := init_task_id s |>).
    apply (wp_unlock_done hole L Q s _ i f); [by apply (inv_quiet hole L Q s1 i f)|done|done| |].
    + by apply (task_eff_locked s s1 i f f).
    + intros s2 Hd. by wp_step.
Qed.

(** ** [sched_wait4] *)

Definition child_of (parent pid : Z) (t : task) : bool :=
  named t && (parent_id t =? parent) && ((pid <=? 0) || (s64 (id t) =? pid)).
Definition zombie_of (parent pid : Z) (t : task) : bool :=
  child_of parent pid t && (state t =? TASK_STATE_ZOMBIE).

Lemma sched_wait4_spec hole L Q s cpu i pid :
  sched_inv hole L Q s → can_lock L_sched (sheld s) = true → cpu_ok cpu = true → curr s cpu = Some i →
  4 ≤ id (tk s i) →
  wp (sched_wait4 cpu pid) (λ r s',
    match find_slot (zombie_of (id (tk s i)) pid) s with
    | Some j => r = WaitChild (id (tk s j)) (exit_status (tk s j)) ∧
        done_with hole L s j (λ t, t <| state := TASK_STATE_DEAD |>) s'
    | None =>
        match find_slot (child_of (id (tk s i)) pid) s with
        | Some _ => r = WaitBlocked ∧
            done_with (window hole s i) L s i (λ t, t <| state := TASK_STATE_BLOCKED |>) s'
        | None => r = WaitNoChild ∧ kept hole L s s' ∧ tasks s' = tasks s
        end
    end) s.
Proof.
  intros Hi Hl Hc Hcu Hid. destruct (inv_current _ _ _ _ _ Hi Hc) as (i' & Hcu' & Hs & _ & Hre0).
  rewrite Hcu in Hcu'. injection Hcu' as <-.
  unfold sched_wait4, sched_current, arch_get_current_task. do 2 wp_step. fold (curr s cpu). rewrite Hcu.
  eapply wp_locked; [done|done|]. intros s1 Hi1 Hh1 Ht1 Hc1 _.
  assert (∀ j, tk s1 j = tk s j) as Htk by (intros j; by apply tk_tasks).
  set (me := id (tk s i)) in *. wp_step.
  set (I := λ (pre : list Z) (found : bool) (s' : sstate P), s' = s1 ∧
    List.find (λ j, zombie_of me pid (tk s j)) pre = None ∧
    found = existsb (λ j, child_of me pid (tk s j)) pre).
  set (R := λ (r : Z * Z) (s' : sstate P), ∃ j, find_slot (zombie_of me pid) s = Some j ∧
    r = (id (tk s j), exit_status (tk s j)) ∧
    s' = s1 <| tasks := <[j := (tk s1 j) <| state := TASK_STATE_DEAD |>]> (tasks s1) |>).
  eapply wp_mono; [apply (wp_iterM _ _ _ I R)|].
  - done.
  - intros pre j post found s' Hspl (-> & Hnone & ->).
    assert (slot_ok j = true) as Hj by (apply all_slots_spec; rewrite Hspl; set_solver).
    wp_step. apply wp_get_task; [done|]. wp_step. apply wp_get_task; [done|]. rewrite !Htk.
    fold me. fold (named (tk s j)). fold (child_of me pid (tk s j)).
    assert (∀ b, zombie_of me pid (tk s j) = b → List.find (λ j, zombie_of me pid (tk s j)) (pre ++ [j]) =
              if b then Some j else None) as Hfind.
    { intros b Hb. clear -Hnone Hb. induction pre as [|x pre IH]; cbn in *; [rewrite Hb; by destruct b|].
      destruct (zombie_of me pid (tk s x)); [done|]. by apply IH. }
    unfold zombie_of in Hfind at 1.
    destruct (child_of me pid (tk s j)) eqn:Hch; [destruct (state (tk s j) =? TASK_STATE_ZOMBIE) eqn:Hz|].
    + wp_step. apply wp_upd_task; [done|]. apply wp_ret. exists j. split; [|by rewrite Htk].
      specialize (Hfind true eq_refl). unfold find_slot. rewrite Hspl.
      replace (pre ++ j :: post) with ((pre ++ [j]) ++ post) by (by rewrite <- app_assoc).
      clear -Hfind. induction (pre ++ [j]) as [|x l IH]; [done|]. cbn in *.
      destruct (zombie_of me pid (tk s x)); [done|]. by apply IH.
    + apply wp_ret. split; [done|]. split; [by apply (Hfind false)|]. rewrite existsb_app. cbn.
      by rewrite Hch, orb_true_r.
    + apply wp_ret. split; [done|]. split; [by apply (Hfind false)|]. rewrite existsb_app. cbn.
      by rewrite Hch, !orb_false_r.
  - intros [found|[cid status]] s2.
    + intros (-> & Hnone & ->). unfold find_slot at 1. rewrite Hnone.
      destruct (find_slot (child_of me pid) s) as [j|] eqn:Hf.
      * apply find_slot_some in Hf as [Hj Hcj].
        replace (existsb _ _) with true.
        2: { symmetry. apply existsb_exists. exists j. split; [|done]. by apply list_elem_of_In, all_slots_spec. }
        wp_step. apply wp_upd_task; [done|]. wp_step. rewrite <- (window_cur hole s s1) by done.
        apply (wp_unlock_done (window hole s1 i) L Q s _ i (λ t, t <| state := TASK_STATE_BLOCKED |>)).
        -- apply (inv_set_state hole L Q s1 i (λ t, t <| state := TASK_STATE_BLOCKED |>)); try done; unfold st; by rewrite Htk.
        -- done.
        -- done.
        -- by apply (task_eff_locked s s1 i _ (λ t, t <| state := TASK_STATE_BLOCKED |>)).
        -- intros s3 Hd. wp_step. by rewrite (window_cur hole s s1) in Hd |- *.
      * replace (existsb _ _) with false.
        2: { symmetry. apply not_true_iff_false. intros (j & Hj & Hcj)%existsb_exists.
             rewrite (find_slot_none _ _ Hf j) in Hcj; [done|]. by apply all_slots_spec, list_elem_of_In. }
        wp_step. apply (wp_unlocked hole L Q s); [done..|]. intros s3 Hk Ht. wp_step.
        split; [done|]. split; [done|]. by rewrite Ht.
    + intros (j & Hf & [= -> ->] & ->). rewrite Hf.
      apply find_slot_some in Hf as [Hj [[[Hnj%named_spec _]%andb_true_iff _]%andb_true_iff Hz%Z.eqb_eq]%andb_true_iff].
      set (f := λ t : task, t <| state := TASK_STATE_DEAD |>). wp_step.
      apply (wp_unlock_done hole L Q s _ j f); [|done|done| |].
      * apply (inv_set_final hole L Q s1 j f); try done; [|unfold st; by rewrite Htk, Hz].
        assert (4 ≤ j) as Hge.
        { destruct (decide (4 ≤ j)); [done|]. apply slot_ok_spec in Hj.
          destruct (si_slots _ _ _ _ Hi j) as (_ & _ & Hr); [lia|]. unfold st in Hr. rewrite Hr in Hz. done. }
        rewrite Htk. by apply (si_named _ _ _ _ Hi).
      * by apply (task_eff_locked s s1 j f f).
      * intros s3 Hd. by wp_step.
Qed.

(** ** [task_exit] *)

Definition reparented s i (j : Z) (t : task) : task :=
  if named t && (parent_id t =? id (tk s i)) && negb (bool_decide (j = i))
  then t <| parent_id := init_task_id s |> else t.

Definition parent_of s (i : Z) : tptr := find_slot (λ t, named t && (id t =? parent_id (tk s i))) s.

(** The final state: a task with a living parent stays as a zombie, for the
    parent to collect. *)
Definition exit_state s (i : Z) : Z :=
  if is_null (parent_of s i) || (id (tk s i) =? init_task_id s)
  then TASK_STATE_DEAD else TASK_STATE_ZOMBIE.

Definition exited s i (j : Z) (t : task) : task :=
  let t := reparented s i j t in
  if decide (j = i) then t <| state := exit_state s i |>
  else if decide (parent_of s i = Some j) then
    if state t =? TASK_STATE_BLOCKED then readied t else t
  else t.

Lemma plain_reparented s i j : plain (reparented s i j).
Proof. intros t. unfold reparented. by case_match. Qed.
Lemma state_reparented s i j t : state (reparented s i j t) = state t.
Proof. unfold reparented. by case_match. Qed.

(** The reparenting loop. *)
Lemma reparent_loop hole L Q s i :
  sched_inv hole L Q s →
  wp (forM_ all_slots (λ j,
        child ← get_task (Some j);
        init ← gets init_task_id;
        whenM (negb (bool_decide (name child = None)) && (parent_id child =? id (tk s i))
               && negb (ptr_eq (Some j) (Some i)))
          (upd_task (Some j) (λ x, x <| parent_id := init |>))))
     (λ _ s', sched_inv hole L Q s' ∧ s_env s' = s_env s ∧ cur_task s' = cur_task s ∧
        init_task_id s' = init_task_id s ∧
        ∀ j, tk s' j = if slot_ok j then reparented s i j (tk s j) else tk s j) s.
Proof.
  intros Hi.
  set (I := λ (pre : list Z) (s' : sstate P),
    sched_inv hole L Q s' ∧ s_env s' = s_env s ∧ cur_task s' = cur_task s ∧
    init_task_id s' = init_task_id s ∧
    ∀ j, tk s' j = if decide (j ∈ pre) then reparented s i j (tk s j) else tk s j).
  eapply wp_mono; [apply (wp_forM _ _ I)|].
  - split; [done|]. repeat (split; [done|]). intros j. by rewrite decide_False by apply not_elem_of_nil.
  - intros pre j post s' Hspl (Hi' & He & Hc & Hini & Htk).
    assert (slot_ok j = true) as Hj by (apply all_slots_spec; rewrite Hspl; set_solver).
    destruct (NoDup_mid_notin _ _ _ _ Hspl all_slots_nodup) as [Hpre _].
    assert (tk s' j = tk s j) as Htj by (by rewrite Htk, decide_False).
    assert (∀ s'', (∀ k, tk s'' k = if decide (j = k) then reparented s i j (tk s j) else tk s' k) →
              ∀ k, tk s'' k = if decide (k ∈ pre ++ [j]) then reparented s i k (tk s k) else tk s k) as Hext.
    { intros s'' Hs'' k. rewrite Hs'', Htk. destruct (decide (j = k)) as [->|Hne].
      - by rewrite (decide_True (P := k ∈ pre ++ [k])) by set_solver.
      - destruct (decide (k ∈ pre)); [rewrite decide_True by set_solver|rewrite decide_False by set_solver]; done. }
    wp_step. apply wp_get_task; [done|]. do 2 wp_step. rewrite Htj, ptr_eq_some. fold (named (tk s j)).
    unfold I. destruct (named (tk s j) && _ && _) eqn:Hg; cbn [whenM].
    + apply wp_upd_task; [done|]. set (f := λ t : task, t <| parent_id := init_task_id s' |>).
      split; [by apply (inv_quiet hole L Q s' j f)|]. repeat (split; [done|]).
      apply Hext. intros k. rewrite tk_upd, Htj. unfold reparented. by rewrite Hg, <- Hini.
    + apply wp_ret. split; [done|]. repeat (split; [done|]). apply Hext. intros k.
      unfold reparented. rewrite Hg. by destruct (decide (j = k)) as [<-|].
  - intros [] s' (? & ? & ? & ? & Htk). repeat (split; [done|]). intros j. rewrite Htk.
    destruct (slot_ok j) eqn:Hj; [rewrite decide_True|rewrite decide_False]; try done.
    + by apply all_slots_spec.
    + intros Hin%all_slots_spec. congruence.
Qed.

Lemma task_exit_spec hole L Q s cpu i :
  sched_inv hole L Q s → can_lock L_sched (sheld s) = true → cpu_ok cpu = true → curr s cpu = Some i →
  4 ≤ id (tk s i) →
  wp (task_exit cpu) (λ _ s', kept hole L s s' ∧
    ∀ j, slot_ok j = true → core (tk s' j) = core (exited s i j (tk s j))) s.
Proof.
  intros Hi Hl Hc Hcu Hid. destruct (inv_current _ _ _ _ _ Hi Hc) as (i' & Hcu' & Hs & Hni & Hre0).
  rewrite Hcu in Hcu'. injection Hcu' as <-.
  unfold task_exit, arch_get_current_task. do 2 wp_step. fold (curr s cpu). rewrite Hcu.
  eapply wp_locked; [done|done|]. intros s1 Hi1 Hh1 Ht1 Hc1 Hini1.
  assert (∀ j, tk s1 j = tk s j) as Htk1 by (intros j; by apply tk_tasks).
  wp_step. apply wp_get_task; [done|]. wp_step.
  eapply wp_mono; [by apply (reparent_loop hole L Q s1 i)|].
  intros _ s2 (Hi2 & He2 & Hc2 & Hini2 & Htk2).
  assert (∀ j, reparented s1 i j (tk s1 j) = reparented s i j (tk s j)) as Hrep.
  { intros j. unfold reparented. by rewrite !Htk1, Hini1. }
  assert (∀ j, slot_ok j = true → tk s2 j = reparented s i j (tk s j)) as Htk2'.
  { intros j Hj. by rewrite Htk2, Hj, Hrep. }
  assert (tk s2 i = tk s i) as Htki.
  { rewrite Htk2' by done. unfold reparented. by rewrite bool_decide_true, andb_false_r by done. }
  wp_step. apply (wp_search (λ t, named t && (id t =? parent_id (tk s i)))).
  { intros j Hj%all_slots_spec. wp_step. apply wp_get_task; [done|]. wp_step. apply wp_get_task; [done|].
    apply wp_ret. rewrite Htki. by split. }
  set (par := match List.find (λ j, named (tk s2 j) && (id (tk s2 j) =? parent_id (tk s i))) all_slots with
              | Some j => Some j | None => None end).
  assert (par = parent_of s i) as Hpar.
  { unfold par, parent_of, find_slot.
    assert (∀ l, (∀ j, j ∈ l → slot_ok j = true) →
      List.find (λ j, named (tk s2 j) && (id (tk s2 j) =? parent_id (tk s i))) l =
      List.find (λ j, named (tk s j) && (id (tk s j) =? parent_id (tk s i))) l) as ->.
    { induction l as [|j l IH]; intros Hl'; [done|]. cbn [List.find].
      rewrite (Htk2' j) by (apply Hl'; set_solver).
      replace (named (reparented s i j (tk s j))) with (named (tk s j)) by (unfold reparented; by case_match).
      replace (id (reparented s i j (tk s j))) with (id (tk s j)) by (unfold reparented; by case_match).
      rewrite IH; [done|]. intros k Hk. apply Hl'. set_solver. }
    - by case_match.
    - by intros j Hj%all_slots_spec. }
  assert ((match match List.find (λ j, named (tk s2 j) && (id (tk s2 j) =? parent_id (tk s i))) all_slots with
                 | Some j => inr j | None => inl () end with inr i => Some i | inl _ => None end) = par) as Hpe
    by (unfold par; by destruct (List.find _ _)).
  rewrite Hpe, Hpar. clearbody par. do 2 wp_step. rewrite Hini2, Hini1, Htk1. wp_step.
  set (f := λ t : task, t <| state := exit_state s i |>).
  assert (∀ k : M (sstate P) unit, ∀ Post, 
    wp k Post (s2 <| tasks := <[i := f (tk s2 i)]> (tasks s2) |>) →
    wp (if is_null (parent_of s i) || (id (tk s i) =? init_task_id s)
        then upd_task (Some i) (λ x, x <| state := TASK_STATE_DEAD |>)
        else upd_task (Some i) (λ x, x <| state := TASK_STATE_ZOMBIE |>)) (λ _, wp k Post) s2) as Hset.
  { intros k Post HP. unfold f, exit_state in HP.
    destruct (is_null (parent_of s i) || (id (tk s i) =? init_task_id s)); by apply wp_upd_task. }
  apply Hset. clear Hset.
  match goal with |- wp _ _ ?x => set (s3 := x) end.
  assert (exit_state s i = TASK_STATE_DEAD ∨ exit_state s i = TASK_STATE_ZOMBIE) as Hes
    by (unfold exit_state; destruct (is_null _ || _); auto).
  assert (sched_inv hole L Q s3) as Hi3.
  { apply (inv_set_final hole L Q s2 i f); try done; [by rewrite Htki|unfold st; by rewrite Htki|..]; unfold f; cbn; by destruct Hes as [-> | ->]. }
  assert (∀ j, slot_ok j = true → tk s3 j = if decide (j = i) then f (tk s i) else reparented s i j (tk s j)) as Htk3.
  { intros j Hj. unfold s3. rewrite tk_upd. destruct (decide (j = i)) as [->|].
    - by rewrite decide_True, Htki by done.
    - rewrite decide_False by done. by apply Htk2'. }
  assert (sheld s3 = L_sched :: sheld s ∧ cur_task s3 = cur_task s) as [Hh3 Hc3].
  { split; [|by cbn; rewrite Hc2]. unfold sheld, smachine in *. cbn. by rewrite He2. }
  clearbody s3. wp_step.
  assert (∀ s' Q', sched_inv hole L Q' s' → sheld s' = L_sched :: sheld s → cur_task s' = cur_task s →
            (∀ j, slot_ok j = true → core (tk s' j) = core (exited s i j (tk s j))) →
            wp unlock_sched (λ _ s', kept hole L s s' ∧
              ∀ j, slot_ok j = true → core (tk s' j) = core (exited s i j (tk s j))) s') as Hend.
  { intros s' Q' Hi' Hh' Hc' Hj'. apply (wp_unlocked hole L Q' s); try done. intros s'' Hk Ht. split; [done|].
    intros j Hj. rewrite (tk_tasks s' s'') by done. by apply Hj'. }
  pose proof (λ p, find_slot_some (λ t, named t && (id t =? parent_id (tk s i))) s p) as Hsome.
  fold (parent_of s i) in Hsome. unfold exited in *.
  destruct (parent_of s i) as [p|].
  2: { rewrite is_null_none. wp_step. apply (Hend s3 Q); try done. intros j Hj. rewrite Htk3 by done.
       destruct (decide (j = i)) as [->|]; [|done].
       unfold reparented. by rewrite bool_decide_true, andb_false_r by done. }
  destruct (Hsome p eq_refl) as [Hp _]. rewrite is_null_some. wp_step. apply wp_get_task; [done|].
  destruct (state (tk s3 p) =? TASK_STATE_BLOCKED) eqn:Hb; cbn [whenM].
  - assert (p ≠ i) as Hpi.
    { intros ->. rewrite Htk3, decide_True in Hb by done. unfold f in Hb. cbn in Hb. by destruct Hes as [He|He]; rewrite He in Hb. }
    wp_step. eapply wp_mono; [apply (blocked_readied hole L Q s3 p); try done; by apply Z.eqb_eq|].
    intros _ s4 ((Q4 & Hi4) & Hh4 & Hc4 & He4). apply wp_ipi. intros s5 Ht5.
    assert (tasks s5 = tasks s4 ∧ cur_task s5 = cur_task s4) as [Ht5' Hc5] by (by destruct Ht5 as [e ->]).
    apply (Hend s5 Q4); [by apply (traced_inv _ _ _ s4)|rewrite (traced_held s4 s5) by done; congruence|congruence|].
    intros j Hj. rewrite (tk_tasks s4 s5), (He4 j) by done. destruct (decide (j = p)) as [->|Hjp].
    + rewrite (decide_False (P := p = i)), (decide_True (P := Some p = Some p)) by done.
      rewrite (Htk3 p Hp), decide_False in Hb |- * by done. by rewrite Hb.
    + rewrite (decide_False (P := Some p = Some j)) by congruence. rewrite Htk3 by done.
      destruct (decide (j = i)) as [->|]; [|done].
      unfold reparented. by rewrite bool_decide_true, andb_false_r by done.
  - wp_step. apply (Hend s3 Q); try done. intros j Hj. rewrite Htk3 by done.
    destruct (decide (j = i)) as [->|Hji].
    + unfold reparented. by rewrite bool_decide_true, andb_false_r by done.
    + destruct (decide (Some p = Some j)) as [[= ->]|]; [|done].
      rewrite (Htk3 j Hj), decide_False in Hb by done. by rewrite Hb.
Qed.

(** ** The timer tick *)

Definition ticking (t : task) : bool :=
  named t && (state t =? TASK_STATE_BLOCKED) && (0 <? sleep_ticks t).
Definition ticked (t : task) : task :=
  if ticking t then
    let t' := t <| sleep_ticks := sleep_ticks t - 1 |> in
    if sleep_ticks t - 1 =? 0 then readied t' else t'
  else t.

Lemma core_ticking t t' : core t = core t' → ticking t = ticking t' ∧ sleep_ticks t = sleep_ticks t'.
Proof.
  intros Hc. apply core_fields in Hc as (? & E1 & E2 & _ & _ & _ & _ & _ & E3 & _).
  unfold ticking, named. by rewrite E1, E2, E3.
Qed.

Lemma core_sleep t t' v : core t = core t' →
  core (t <| sleep_ticks := v |>) = core (t' <| sleep_ticks := v |>).
Proof.
  intros Hc. change (core (t <| sleep_ticks := v |>)) with ((core t) <| sleep_ticks := v |>). by rewrite Hc.
Qed.

Lemma core_readied t t' : core t = core t' → core (readied t) = core (readied t').
Proof.
  intros Hc. pose proof Hc as (Hid & _)%core_fields. unfold readied. rewrite Hid.
  destruct (4 <=? id t'); [|done]. rewrite !core_state. by rewrite Hc.
Qed.

(** One slot of the tick. *)
Lemma tick_slot hole L Q s cpu mask j :
  sched_inv hole L Q s → slot_ok j = true →
  wp (t ← get_task (Some j);
      if negb (bool_decide (name t = None)) && (state t =? TASK_STATE_BLOCKED)
         && (0 <? sleep_ticks t) then
        upd_task (Some j) (λ x, x <| sleep_ticks := sleep_ticks x - 1 |>) ;;
        if sleep_ticks t - 1 =? 0 then
          sched_make_ready_locked (Some j) ;;
          t ← get_task (Some j);
          mret (if (rq_cpu t <? SCHED_MAX_CPUS) && negb (rq_cpu t =? cpu)
                then Z.lor mask (Z.shiftl 1 (rq_cpu t)) else mask)
        else mret mask
      else mret mask)
     (λ _ s', (∃ Q', sched_inv hole L Q' s') ∧ sheld s' = sheld s ∧ cur_task s' = cur_task s ∧
        task_eff s s' j ticked) s.
Proof.
  intros Hi Hj. wp_step. apply wp_get_task; [done|]. fold (named (tk s j)). fold (ticking (tk s j)).
  unfold task_eff, ticked. destruct (ticking (tk s j)) eqn:Ht.
  2: { apply wp_ret. split; [by exists Q|]. do 2 (split; [done|]). intros k. by case_decide; subst. }
  apply andb_true_iff in Ht as Ht'. destruct Ht' as [[_ Hb]%andb_true_iff _]. apply Z.eqb_eq in Hb.
  wp_step. apply wp_upd_task; [done|]. set (f := λ t : task, t <| sleep_ticks := sleep_ticks t - 1 |>).
  match goal with |- wp ?m ?R _ => change (wp m R (s <| tasks := <[j := f (tk s j)]> (tasks s) |>)) end.
  set (s1 := s <| tasks := _ |>).
  assert (sched_inv hole L Q s1) as Hi1 by (by apply inv_quiet).
  assert (task_eff s s1 j f) as He1 by (by apply task_eff_upd).
  assert (tk s1 j = f (tk s j)) as Htk1 by (unfold s1; by rewrite tk_upd, decide_True).
  destruct (sleep_ticks (tk s j) - 1 =? 0).
  - wp_step. eapply wp_mono; [apply (blocked_readied hole L Q s1 j); try done; unfold st; by rewrite Htk1|].
    intros _ s2 ((Q2 & Hi2) & Hh2 & Hc2 & He2). wp_step. apply wp_get_task; [done|]. apply wp_ret.
    split; [by exists Q2|]. split; [done|]. split; [done|]. intros k. rewrite (He2 k). specialize (He1 k).
    destruct (decide (k = j)) as [->|]; [by rewrite Htk1|done].
  - apply wp_ret. split; [by exists Q|]. done.
Qed.

Lemma sched_tick_spec hole L Q s cpu :
  sched_inv hole L Q s → can_lock L_sched (sheld s) = true → cpu_ok cpu = true →
  wp (sched_tick cpu) (λ _ s', kept hole L s s' ∧
    ∀ j, slot_ok j = true → core (tk s' j) = core (if cpu =? 0 then ticked (tk s j) else tk s j)) s.
Proof.
  intros Hi Hl Hc. unfold sched_tick. eapply wp_locked; [done|done|]. intros s1 Hi1 Hh1 Ht1 Hc1 _.
  assert (∀ j, tk s1 j = tk s j) as Htk1 by (intros j; by apply tk_tasks).
  wp_step. apply cpu_ok_spec in Hc as Hcb.
  eapply (wp_mono _ (λ _ s', (∃ Q', sched_inv hole L Q' s') ∧ sheld s' = sheld s1 ∧ cur_task s' = cur_task s ∧
    ∀ j, slot_ok j = true → core (tk s' j) = core (if cpu =? 0 then ticked (tk s j) else tk s j))).
  - destruct (cpu =? 0); [|apply wp_ret; split; [by exists Q|]; do 2 (split; [done|]); intros; by rewrite Htk1].
    set (I := λ (pre : list Z) (_ : Z) (s' : sstate P),
      (∃ Q', sched_inv hole L Q' s') ∧ sheld s' = sheld s1 ∧ cur_task s' = cur_task s ∧
      ∀ j, core (tk s' j) = core (if decide (j ∈ pre) then ticked (tk s j) else tk s j)).
    eapply wp_mono; [apply (wp_foldM _ _ _ I)|].
    + split; [by exists Q|]. do 2 (split; [done|]). intros j.
      by rewrite decide_False, Htk1 by apply not_elem_of_nil.
    + intros pre j post mask s' Hspl ((Q' & Hi') & Hh' & Hc' & Htk').
      assert (slot_ok j = true) as Hj by (apply all_slots_spec; rewrite Hspl; set_solver).
      destruct (NoDup_mid_notin _ _ _ _ Hspl all_slots_nodup) as [Hpre _].
      eapply wp_mono; [by apply (tick_slot hole L Q' s' cpu mask j)|].
      intros mask2 s2 (Hi2 & Hh2 & Hc2 & He2). split; [done|]. do 2 (split; [congruence|]). intros k. rewrite (He2 k).
      destruct (decide (k = j)) as [->|Hne].
      * rewrite decide_True by set_solver. specialize (Htk' j). rewrite decide_False in Htk' by done.
        apply core_ticking in Htk' as HH. destruct HH as [E1 E2].
        unfold ticked. rewrite E1, E2. destruct (ticking (tk s j)); [|done].
        destruct (_ =? 0); [apply core_readied|]; by apply core_sleep.
      * rewrite Htk'. destruct (decide (k ∈ pre)); [rewrite decide_True by set_solver|rewrite decide_False by set_solver]; done.
    + intros mask s' (Hi' & Hh' & Hc' & Htk'). do 3 (split; [done|]). intros j Hj. rewrite Htk'.
      rewrite decide_True; [done|]. by apply all_slots_spec.
  - intros mask s2 ((Q2 & Hi2) & Hh2 & Hc2 & Htk2). wp_step. unfold SCHED_MAX_CPUS. btrue (cpu <? 4). cbn [whenM].
    apply wp_upd_rq; [done|]. wp_step.
    eapply (wp_unlocked hole L Q2 s); [by apply inv_rq_fields|cbn in *; by rewrite <- Hh1|done|].
    intros s3 Hk3 Ht3. eapply wp_when_ipi_kept; [exact Hk3|]. intros s4 Hk4 Ht4. split; [done|].
    intros j Hj. rewrite (tk_tasks s2 s4) by (rewrite Ht4, Ht3; done). by apply Htk2.
Qed.

End life.
