(* ===== verification/SchedCreate.v ===== *)
(** * Creation and reaping of tasks: the circular task list.

    The list [0 :: L] is threaded through [next] and closes at slot 0.  A new
    task is linked after the creating one, a dead task is unlinked by the reaper
    and its slot cleared. *)

From S2P Require Import Prelude Machine PageAllocSpec Task WaitQueue Heap HeapSpec Sched SchedQueue SchedInv SchedOps SchedLife.

Open Scope kernel_scope.

(** ** Circular lists as functions *)

Definition circ (nxt : Z → tptr) (l : list Z) : Prop :=
  ∀ k x, l !! k = Some x → nxt x = Some (default 0 (l !! S k)).

Lemma circ_insert nxt nxt' l1 x l2 i :
  circ nxt (l1 ++ x :: l2) → NoDup (l1 ++ x :: l2) → i ∉ l1 ++ x :: l2 →
  nxt' x = Some i → nxt' i = nxt x → (∀ y, y ≠ x → y ≠ i → nxt' y = nxt y) →
  circ nxt' (l1 ++ x :: i :: l2).
Proof.
  intros Hc Hnd Hi Hx Hii Hf k y Hy.
  assert (∀ k, k ≠ length l1 → ∀ y, (l1 ++ x :: l2) !! k = Some y → y ≠ x) as Hne.
  { intros k' Hk y' Hy' ->. apply Hk. eapply NoDup_lookup; [exact Hnd|exact Hy'|]. by apply list_lookup_middle. }
  assert (∀ k y, (l1 ++ x :: l2) !! k = Some y → y ≠ i) as Hni.
  { intros k' y' Hy' ->. by apply Hi, (list_elem_of_lookup_2 _ k'). }
  destruct (decide (k < length l1)%nat) as [Hlt|Hge].
  - rewrite lookup_app_l in Hy by done.
    assert ((l1 ++ x :: l2) !! k = Some y) as Hy' by (by rewrite lookup_app_l).
    rewrite Hf by (first [eapply Hni; exact Hy' | eapply Hne; [|exact Hy']; lia]).
    rewrite (Hc k y Hy'). f_equal. f_equal.
    destruct (decide (S k < length l1)%nat); [by rewrite !lookup_app_l by lia|].
    rewrite !lookup_app_r by lia. by replace (S k - length l1)%nat with 0%nat by lia.
  - rewrite lookup_app_r in Hy by lia. rewrite lookup_app_r by lia.
    replace (S k - length l1)%nat with (S (k - length l1)) by lia.
    destruct (k - length l1)%nat as [|[|m]] eqn:Hm; cbn in Hy |- *.
    + injection Hy as <-. done.
    + injection Hy as <-. rewrite Hii, (Hc (length l1) x) by (by apply list_lookup_middle).
      rewrite lookup_app_r by lia. by replace (S (length l1) - length l1)%nat with 1%nat by lia.
    + assert ((l1 ++ x :: l2) !! (length l1 + S m)%nat = Some y) as Hy'.
      { rewrite lookup_app_r by lia. by replace (length l1 + S m - length l1)%nat with (S m) by lia. }
      rewrite Hf by (first [eapply Hni; exact Hy' | eapply Hne; [|exact Hy']; lia]).
      rewrite (Hc _ y Hy'). rewrite lookup_app_r by lia.
      by replace (S (length l1 + S m) - length l1)%nat with (S (S m)) by lia.
Qed.

Lemma circ_remove nxt nxt' l1 p v l2 :
  circ nxt (l1 ++ p :: v :: l2) → NoDup (l1 ++ p :: v :: l2) →
  nxt' p = nxt v → (∀ y, y ≠ p → y ≠ v → nxt' y = nxt y) →
  circ nxt' (l1 ++ p :: l2).
Proof.
  intros Hc Hnd Hp Hf k y Hy.
  assert (∀ k y, (l1 ++ p :: v :: l2) !! k = Some y → k ≠ length l1 → k ≠ S (length l1) → nxt' y = nxt y) as Hoth.
  { intros k' y' Hy' H1 H2. apply Hf.
    - intros ->. apply H1. eapply NoDup_lookup; [exact Hnd|exact Hy'|]. by apply list_lookup_middle.
    - intros ->. apply H2. eapply NoDup_lookup; [exact Hnd|exact Hy'|].
      rewrite lookup_app_r by lia. by replace (S (length l1) - length l1)%nat with 1%nat by lia. }
  destruct (decide (k < length l1)%nat) as [Hlt|Hge].
  - rewrite lookup_app_l in Hy by done.
    assert ((l1 ++ p :: v :: l2) !! k = Some y) as Hy' by (by rewrite lookup_app_l).
    rewrite (Hoth k y) by (done || lia). rewrite (Hc k y Hy'). f_equal. f_equal.
    destruct (decide (S k < length l1)%nat); [by rewrite !lookup_app_l by lia|].
    rewrite !lookup_app_r by lia. by replace (S k - length l1)%nat with 0%nat by lia.
  - rewrite lookup_app_r in Hy by lia. rewrite lookup_app_r by lia.
    replace (S k - length l1)%nat with (S (k - length l1)) by lia.
    destruct (k - length l1)%nat as [|m] eqn:Hm; cbn in Hy |- *.
    + injection Hy as <-. rewrite Hp, (Hc (S (length l1)) v).
      * rewrite lookup_app_r by lia. by replace (S (S (length l1)) - length l1)%nat with 2%nat by lia.
      * rewrite lookup_app_r by lia. by replace (S (length l1) - length l1)%nat with 1%nat by lia.
    + assert ((l1 ++ p :: v :: l2) !! (length l1 + S (S m))%nat = Some y) as Hy'.
      { rewrite lookup_app_r by lia. by replace (length l1 + S (S m) - length l1)%nat with (S (S m)) by lia. }
      rewrite (Hoth _ y Hy') by lia. rewrite (Hc _ y Hy'). rewrite lookup_app_r by lia.
      by replace (S (length l1 + S (S m)) - length l1)%nat with (S (S (S m))) by lia.
Qed.

Section create.
Context {P : Type} `{SchedEnvLaws P}.
Implicit Types s : sstate P.

Lemma circular_circ s L : circular s L ↔ circ (λ i, next (tk s i)) (0 :: L).
Proof. done. Qed.

(** ** Linking a new task *)

(** [L] with [i] linked after the task [x]. *)
Definition linked (L : list Z) (x i : Z) (L' : list Z) : Prop :=
  ∃ l1 l2, 0 :: L = l1 ++ x :: l2 ∧ 0 :: L' = l1 ++ x :: i :: l2.

Lemma linked_exists L x i : x ∈ 0 :: L → ∃ L', linked L x i L'.
Proof.
  intros (l1 & l2 & Heq)%list_elem_of_split. destruct l1 as [|y l1].
  - injection Heq as <- ->. exists (i :: l2), [], l2. done.
  - injection Heq as <- ->. exists (l1 ++ x :: i :: l2), (0 :: l1), l2. done.
Qed.

Lemma linked_elem L x i L' j : linked L x i L' → j ∈ 0 :: L' ↔ j = i ∨ j ∈ 0 :: L.
Proof. intros (l1 & l2 & -> & ->). set_solver. Qed.

Lemma inv_insert hole L Q s s' x i L' :
  sched_inv hole L Q s → slot_ok i = true → 4 ≤ i → name (tk s i) = None → x ∈ 0 :: L → linked L x i L' →
  ps_ok (s_env s') → run_queues s' = run_queues s → cur_task s' = cur_task s →
  next_enqueue_cpu s' = next_enqueue_cpu s → next_task_id s' = next_task_id s + 1 →
  name (tk s' i) ≠ None → id (tk s' i) = next_task_id s → on_rq (tk s' i) = 0 →
  st s' i ≠ TASK_STATE_REAPING → next (tk s' i) = next (tk s x) →
  tk s' x = (tk s x) <| next := Some i |> →
  (∀ j, j ≠ i → j ≠ x → tk s' j = tk s j) →
  sched_inv hole L' Q s'.
Proof.
  intros Hi Hs Hge Hn Hx HL Henv Hrq Hcur Henq Hnid Hni Hidi Honi Hsti Hnxi Htx Hoth.
  assert (i ∉ 0 :: L) as Hnin.
  { intros Hin. by destruct (si_inlist _ _ _ _ Hi i Hin) as (_ & ? & _). }
  assert (x ≠ i) as Hxi by (by intros ->).
  destruct (si_cleared _ _ _ _ Hi i Hs Hn) as (Hon0 & _).
  assert (∀ c, cpu_ok c = true → i ∉ Q c) as HnQ.
  { intros c Hc Hin. destruct (rr_in _ _ (si_rq _ _ _ _ Hi) c i Hc Hin). lia. }
  assert (∀ j, j ≠ i → rq_view (tk s' j) = rq_view (tk s j) ∧ id (tk s' j) = id (tk s j) ∧
            name (tk s' j) = name (tk s j) ∧ current_cpu (tk s' j) = current_cpu (tk s j) ∧
            st s' j = st s j) as Hv.
  { intros j Hj. unfold st. destruct (decide (j = x)) as [->|]; [by rewrite Htx|by rewrite Hoth]. }
  assert (∀ c, curr s' c = curr s c) as Hc by (intros c; unfold curr; by rewrite Hcur).
  assert (∀ c j, cpu_ok c = true → curr s c = Some j → j ≠ i) as Hcne.
  { intros c j Hok Hcu ->. destruct (si_cur _ _ _ _ Hi c Hok) as (j & Hj & _ & Hin). congruence. }
  split.
  - done.
  - apply (rq_rep_same_in s); [apply Hi| | |intros c; unfold rq_at; by rewrite Hrq].
    + intros j. destruct (decide (j = i)) as [->|Hj]; [congruence|].
      destruct (Hv j Hj) as (Hr & _). unfold rq_view in Hr. congruence.
    + intros c j Hok Hin. apply Hv. intros ->. by apply (HnQ c).
  - rewrite Henq. apply Hi.
  - intros c Hok. rewrite Hc. destruct (si_cur _ _ _ _ Hi c Hok) as (j & ? & ? & ?). exists j.
    split; [done|]. split; [done|]. apply (linked_elem _ _ _ _ _ HL). by right.
  - intros c c' j. rewrite !Hc. apply Hi.
  - intros c j Hok. rewrite Hc. intros Hcu. destruct (Hv j) as (_ & _ & _ & -> & _); [by eapply Hcne|].
    by apply (si_run _ _ _ _ Hi).
  - intros c j. rewrite Hc. apply Hi.
  - intros c j c' Hok Hok' Hin. rewrite Hc. destruct (Hv j) as (_ & _ & _ & _ & ->); [intros ->; by apply (HnQ c)|].
    by apply (si_ready _ _ _ _ Hi c).
  - intros c j Hok. rewrite Hc. intros Hcu. destruct (Hv j) as (_ & _ & _ & _ & ->); [by eapply Hcne|].
    by apply (si_blocked _ _ _ _ Hi c).
  - intros j Hj. destruct (Hv j) as (_ & -> & -> & _ & ->); [lia|]. by apply (si_slots _ _ _ _ Hi).
  - intros j Hj Hj4. rewrite Hnid. destruct (decide (j = i)) as [->|Hji].
    + intros _. rewrite Hidi. pose proof (si_next_id _ _ _ _ Hi). lia.
    + destruct (Hv j Hji) as (_ & -> & -> & _). intros Hnj. pose proof (si_named _ _ _ _ Hi j Hj Hj4 Hnj). lia.
  - intros j Hj Hnj. destruct (decide (j = i)) as [->|Hji]; [done|].
    destruct (Hv j Hji) as (Hr & Hidj & Hnmj & _ & Hstj). rewrite Hnmj in Hnj. rewrite Hstj.
    destruct (si_cleared _ _ _ _ Hi j Hj Hnj) as (? & ? & ?). unfold rq_view in Hr. split; [congruence|].
    split; [congruence|done].
  - intros j Hj. destruct (decide (j = i)) as [->|Hji]; [done|].
    destruct (Hv j Hji) as (Hr & _ & _ & _ & ->). intros Hst.
    pose proof (si_reaping _ _ _ _ Hi j Hj Hst). unfold rq_view in Hr. congruence.
  - assert (∀ j, slot_ok j = true → j ≠ i → name (tk s j) ≠ None → id (tk s j) ≠ next_task_id s) as Hfresh.
    { intros j Hj Hji Hnj. apply slot_ok_spec in Hj as Hb. destruct (decide (4 ≤ j)) as [Hj4|].
      - pose proof (si_named _ _ _ _ Hi j Hj Hj4 Hnj). lia.
      - destruct (si_slots _ _ _ _ Hi j); [lia|]. pose proof (si_next_id _ _ _ _ Hi). lia. }
    intros j k Hj Hk. destruct (decide (j = i)) as [->|Hji], (decide (k = i)) as [->|Hki]; [done|..].
    + destruct (Hv k Hki) as (_ & -> & -> & _). rewrite Hidi. intros _ Hnk He. by destruct (Hfresh k Hk Hki Hnk).
    + destruct (Hv j Hji) as (_ & -> & -> & _). rewrite Hidi. intros Hnj _ He. by destruct (Hfresh j Hj Hji Hnj).
    + destruct (Hv j Hji) as (_ & -> & -> & _), (Hv k Hki) as (_ & -> & -> & _). by apply (si_ids _ _ _ _ Hi).
  - destruct (si_list _ _ _ _ Hi) as [Hnd Hcirc]. destruct HL as (l1 & l2 & HL1 & HL2).
    split.
    + rewrite HL2. rewrite HL1 in Hnd, Hnin. apply NoDup_app in Hnd as (? & Hd & [? ?]%NoDup_cons).
      apply NoDup_app. split; [done|]. split; [set_solver|]. apply NoDup_cons. split; [set_solver|].
      apply NoDup_cons. split; [set_solver|done].
    + apply (proj2 (circular_circ _ _)). rewrite HL2. apply (proj1 (circular_circ _ _)) in Hcirc. rewrite HL1 in Hcirc, Hnd, Hnin.
      eapply circ_insert; [exact Hcirc|done|done|by rewrite Htx|done|].
      intros y Hy1 Hy2. by rewrite Hoth.
  - intros j [->|Hj]%(linked_elem _ _ _ _ _ HL); [done|].
    assert (j ≠ i) as Hji by (by intros ->). destruct (Hv j Hji) as (_ & _ & -> & _ & ->).
    by apply (si_inlist _ _ _ _ Hi).
  - intros j Hj. destruct (decide (j = i)) as [->|Hji]; [intros _ _; apply (linked_elem _ _ _ _ _ HL); by left|].
    destruct (Hv j Hji) as (_ & _ & -> & _ & ->). intros Hnj Hstj. apply (linked_elem _ _ _ _ _ HL). right.
    by apply (si_all _ _ _ _ Hi).
  - rewrite Hnid. pose proof (si_next_id _ _ _ _ Hi). lia.
Qed.

(** ** Allocation *)

Lemma allocate_slot_spec s (Post : tptr → sstate P → Prop) :
  (∀ i, slot_ok i = true → 4 ≤ i → name (tk s i) = None → Post (Some i) s) →
  ((∀ i, slot_ok i = true → 4 ≤ i → name (tk s i) ≠ None) → Post None s) →
  wp sched_allocate_task_slot Post s.
Proof.
  intros Hsome Hnone. unfold sched_allocate_task_slot. wp_step.
  assert (∀ i, i ∈ upto 4 (MAX_TASKS - 4) ↔ slot_ok i = true ∧ 4 ≤ i) as Hin.
  { intros i. rewrite upto_seqZ, elem_of_seqZ, slot_ok_spec. unfold MAX_TASKS. lia. }
  apply (wp_search (λ t, bool_decide (name t = None))).
  - intros i [Hi _]%Hin. wp_step. apply wp_get_task; [done|]. by apply wp_ret.
  - apply wp_ret. destruct (List.find _ _) as [i|] eqn:Hf.
    + apply List.find_some in Hf as [[Hi4 Hi5]%list_elem_of_In%Hin Hb%bool_decide_eq_true]. by apply Hsome.
    + apply Hnone. intros i Hi Hge. pose proof (List.find_none _ _ Hf i) as Hb.
      apply (bool_decide_eq_false (name (tk s i) = None)), Hb. by apply list_elem_of_In, Hin.
Qed.

(** The pages of a new stack. *)
Lemma wp_alloc_stack hole L Q s n (Post : Z → sstate P → Prop) :
  sched_inv hole L Q s → 0 ≤ n → can_lock L_page (sheld s) = true →
  (∀ r s', sched_inv hole L Q s' → sheld s' = sheld s → tasks s' = tasks s → cur_task s' = cur_task s →
     next_task_id s' = next_task_id s → Post r s') →
  wp (up (S := P) (ps_alloc n)) Post s.
Proof.
  intros Hi Hn Hl HP. rewrite wp_up. eapply wp_mono; [apply ps_alloc_spec; [done|apply Hi|exact Hl]|].
  intros r p' (Hok & Hh & _). apply HP; try done.
  by apply (inv_env _ _ _ s).
Qed.

(** The console file of a user task. *)
Lemma wp_console_file s held (Post : Z → sstate P → Prop) :
  (∀ l, rank L_sched < rank l → can_lock l (sheld s) = true) → sheld s = held → ps_ok (s_env s) →
  (∀ r p', ps_ok p' → m_held (sub_get p') = held → Post r (s <| s_env := p' |>)) →
  wp (up (S := P) console_open_file) Post s.
Proof.
  intros Hl Hh Hok HP. rewrite wp_up. eapply wp_mono; [by apply se_console_spec|].
  intros r p' [Hok' Hh']. apply HP; [done|]. by rewrite Hh'.
Qed.

Lemma link_after_eq s x i (Post : unit → sstate P → Prop) :
  slot_ok x = true → slot_ok i = true → x ≠ i →
  (∀ s', s_env s' = s_env s → run_queues s' = run_queues s → cur_task s' = cur_task s →
     next_enqueue_cpu s' = next_enqueue_cpu s → next_task_id s' = next_task_id s →
     tk s' i = (tk s i) <| next := next (tk s x) |> → tk s' x = (tk s x) <| next := Some i |> →
     (∀ j, j ≠ i → j ≠ x → tk s' j = tk s j) → Post () s') →
  wp (link_after (Some x) (Some i)) Post s.
Proof.
  intros Hx Hi Hne HP. unfold link_after. wp_step. apply wp_get_task; [done|]. wp_step.
  apply wp_upd_task; [done|]. apply wp_upd_task; [done|]. apply HP; try done.
  - rewrite tk_upd, decide_False, tk_upd, decide_True by done. done.
  - rewrite tk_upd, decide_True, tk_upd, decide_False by done. done.
  - intros j Hji Hjx. rewrite !tk_upd, !decide_False by done. done.
Qed.

Lemma inv_free_not_current hole L Q s i c : sched_inv hole L Q s → name (tk s i) = None → cpu_ok c = true →
  curr s c ≠ Some i.
Proof. intros Hi Hn Hc Hcu. destruct (inv_current _ _ _ _ _ Hi Hc) as (j & ? & _ & ? & _). congruence. Qed.

Lemma core_state_next t n v :
  core ((t <| next := n |>) <| state := v |>) = core ((t <| state := v |>) <| next := n |>).
Proof. done. Qed.

(** What creation leaves: the new task [i] linked after the current one. *)
Record created hole L s s' (x i : Z) (t : task) : Prop := {
  cr_inv : ∃ L' Q', linked L x i L' ∧ sched_inv hole L' Q' s';
  cr_held : sheld s' = sheld s;
  cr_cur : cur_task s' = cur_task s;
  cr_slot : slot_ok i = true ∧ name (tk s i) = None;
  cr_task : core (tk s' i) = core (t <| next := next (tk s x) |>);
  cr_after : core (tk s' x) = core ((tk s x) <| next := Some i |>);
  cr_other : ∀ j, j ≠ i → j ≠ x → core (tk s' j) = core (tk s j);
}.

Definition new_task s (stack_va entry tramp : Z) (nm : string) (old : task) : task :=
  old <| id := next_task_id s |> <| current_cpu := TASK_NO_CPU |> <| rq_cpu := TASK_NO_CPU |>
    <| on_rq := 0 |> <| preempt_count := 0 |> <| stack_base := stack_va |>
    <| stack_size := TASK_TOTAL_PAGES * PAGE_SIZE |> <| name := Some nm |> <| mm := 0 |>
    <| process := 0 |> <| parent_id := SCHED_NO_PARENT |>
    <| context := (new_context entry 0 tramp (stack_sp stack_va))
                    <| tpidr_el0 := tpidr_el0 (context old) |> |>.

(** Filling in a free slot and linking it. *)
Lemma fill_and_link hole L Q s x i t (Post : unit → sstate P → Prop) :
  sched_inv hole L Q s → slot_ok x = true → slot_ok i = true → 4 ≤ i → name (tk s i) = None → x ∈ 0 :: L →
  name t ≠ None → id t = next_task_id s → on_rq t = 0 → state t = state (tk s i) →
  (∀ s' L', linked L x i L' →
     sched_inv hole L' Q (s' <| next_task_id := next_task_id s + 1 |>) →
     s_env s' = s_env s → cur_task s' = cur_task s → next_task_id s' = next_task_id s →
     tk s' i = t <| next := next (tk s x) |> → tk s' x = (tk s x) <| next := Some i |> →
     (∀ j, j ≠ i → j ≠ x → tk s' j = tk s j) → Post () s') →
  wp (link_after (Some x) (Some i)) Post (s <| tasks := <[i := t]> (tasks s) |>).
Proof.
  intros Hi Hx Hs Hge Hn Hin Hnt Hidt Hont Hstt HP.
  assert (x ≠ i) as Hxi.
  { intros ->. by destruct (si_inlist _ _ _ _ Hi i Hin) as (_ & ? & _). }
  destruct (linked_exists L x i Hin) as [L' HL].
  destruct (si_cleared _ _ _ _ Hi i Hs Hn) as (_ & _ & Hsti).
  set (s0 := s <| tasks := _ |>).
  assert (tk s0 i = t) as H0i by (unfold s0; by rewrite tk_upd, decide_True).
  assert (∀ j, j ≠ i → tk s0 j = tk s j) as H0j by (intros j Hj; unfold s0; by rewrite tk_upd, decide_False by done).
  apply link_after_eq; try done. intros s' He Hr Hc Hq Hnid Hti Htx Hto.
  rewrite H0i, H0j in Hti by done. rewrite H0j in Htx by done.
  assert (∀ j, j ≠ i → j ≠ x → tk s' j = tk s j) as Hto' by (intros j Hji Hjx; rewrite Hto by done; by apply H0j).
  apply (HP s' L'); try done.
  set (s2 := s' <| next_task_id := _ |>).
  assert (∀ j, tk s2 j = tk s' j) as Htk2 by done.
  apply (inv_insert hole L Q s s2 x i L'); try done; unfold st; rewrite ?Htk2, ?Hti; try done.
  - change (s_env s2) with (s_env s'). rewrite He. apply Hi.
  - cbn [state setf]. by rewrite Hstt.
Qed.

Lemma can_lock_page s : can_lock L_sched (sheld s) = true → can_lock L_page (L_sched :: sheld s) = true.
Proof. intros Hl. by apply can_lock_above. Qed.

(** What is left of a state when only its environment moved. *)
Definition env_step hole L Q s s' : Prop :=
  sched_inv hole L Q s' ∧ tasks s' = tasks s ∧ cur_task s' = cur_task s ∧ next_task_id s' = next_task_id s.

(** The failures of creation change nothing the tasks see. *)
Lemma create_fails {A} hole L Q s s1 (k : M (sstate P) A) (Post : A → sstate P → Prop) :
  sched_inv hole L Q s1 → tasks s1 = tasks s → cur_task s1 = cur_task s → sheld s1 = L_sched :: sheld s →
  (∀ s', kept hole L s s' → tasks s' = tasks s → wp k Post s') → wp (unlock_sched ;; k) Post s1.
Proof.
  intros Hi Ht Hc Hh HP. wp_step. apply (wp_unlocked hole L Q s); try done.
  intros s2 Hk Ht2. apply HP; [done|congruence].
Qed.

Lemma kept_flag hole L s s' v : kept hole L s s' →
  kept hole L s (s' <| task_slot_exhaustion_reported := v |>).
Proof.
  intros ((Q & Hi) & Hh & Hc). split; [exists Q|done]. apply (inv_env _ _ _ s'); try done. apply Hi.
Qed.

Lemma task_create_spec hole L Q s cpu x tramp entry nm :
  sched_inv hole L Q s → can_lock L_sched (sheld s) = true → cpu_ok cpu = true → curr s cpu = Some x →
  next_task_id s < 2 ^ 64 - 1 →
  wp (task_create cpu tramp entry nm) (λ r s',
    match r with
    | None => kept hole L s s' ∧ tasks s' = tasks s
    | Some i => ∃ stack_va, next_task_id s' = next_task_id s + 1 ∧
        created hole L s s' x i
          ((new_task s stack_va entry tramp nm (tk s i)) <| state := TASK_STATE_READY |>)
    end) s.
Proof.
  intros Hi Hl Hc Hcu Hnx. destruct (si_cur _ _ _ _ Hi cpu Hc) as (x' & Hcu' & Hx & Hin).
  rewrite Hcu in Hcu'. injection Hcu' as <-.
  unfold task_create. wp_step. apply wp_lock_sched; [done|].
  set (s1 := sheld_to _ s). assert (sched_inv hole L Q s1) as Hi1 by (by apply inv_held).
  assert (sheld s1 = L_sched :: sheld s) as Hh1 by apply sheld_to_held.
  assert (∀ j, tk s1 j = tk s j) as Htk1 by done.
  assert (tasks s1 = tasks s ∧ cur_task s1 = cur_task s ∧ next_task_id s1 = next_task_id s) as (Ht1 & Hc1 & Hn1) by done.
  clearbody s1. wp_step. apply allocate_slot_spec.
  2: { intros _. rewrite is_null_none. apply (create_fails hole L Q s); try done.
       intros s2 Hk2 Ht2. wp_steps. destruct (_ =? 0); cbn [whenM]; [|by wp_steps].
       do 2 wp_step. apply wp_ker_info. intros s3 Htr. wp_step.
       destruct (kept_flag _ _ _ _ 1 Hk2) as ((Q2 & Hi2) & Hh2 & Hc2).
       assert (tasks s3 = tasks s2 ∧ cur_task s3 = cur_task s2) as [-> Hc3] by (by destruct Htr as [e ->]).
       split; [|done]. split; [exists Q2; by eapply traced_inv|]. split; [|rewrite Hc3; exact Hc2].
       rewrite (traced_held _ _ Htr). exact Hh2. }
  intros i Hs Hge Hn. rewrite is_null_some. do 2 wp_step.
  match goal with |- wp _ _ ?x => set (s2 := x) end.
  assert (sched_inv hole L Q s2) as Hi2 by (apply (inv_env _ _ _ s1); try done; apply Hi1).
  wp_step. apply (wp_alloc_stack hole L Q); [done|done|change (sheld s2) with (sheld s1); rewrite Hh1; by apply can_lock_page|].
  intros stack_pa s3 Hi3 Hh3 Ht3 Hc3 Hn3.
  assert (sheld s3 = L_sched :: sheld s) as Hh3' by (by rewrite Hh3).
  assert (tasks s3 = tasks s ∧ cur_task s3 = cur_task s ∧ next_task_id s3 = next_task_id s) as (Ht3' & Hc3' & Hn3')
    by (rewrite Ht3, Hc3, Hn3; done).
  clearbody s2. clear s2 Hi2 Hh3 Ht3 Hc3 Hn3.
  destruct (stack_pa =? 0).
  { apply (create_fails hole L Q s); try done. intros s4 ((Q4 & Hi4) & Hh4 & Hc4) Ht4. wp_step.
    apply wp_ker_info. intros s5 Htr. wp_step.
    assert (tasks s5 = tasks s4 ∧ cur_task s5 = cur_task s4) as [-> Hc5] by (by destruct Htr as [e ->]).
    split; [|done]. split; [exists Q4; by eapply traced_inv|]. split; [by rewrite (traced_held _ _ Htr)|congruence]. }
  assert (∀ j, tk s3 j = tk s j) as Htk3 by (intros j; by apply tk_tasks).
  wp_step. wp_step. rewrite Hn3'. wp_step. apply wp_upd_task; [done|]. wp_step.
  set (f := new_task s (pa_to_va stack_pa) entry tramp nm).
  match goal with |- wp ?m ?R _ => change (wp m R (s3 <| tasks := <[i := f (tk s3 i)]> (tasks s3) |>)) end.
  unfold arch_get_current_task. wp_step.
  change (cur_task (s3 <| tasks := _ |>) !! cpu) with (curr s3 cpu).
  replace (curr s3 cpu) with (Some x) by (unfold curr; by rewrite Hc3'). wp_step.
  assert (name (tk s3 i) = None) as Hn3i by (by rewrite Htk3, <- Htk1).
  apply (fill_and_link hole L Q s3); try done.
  intros s4 L' HL Hi4 He4 Hc4 Hn4 Hti Htx Hto.
  rewrite Hn3' in Hi4. set (s4' := s4 <| next_task_id := _ |>) in Hi4.
  assert (id (tk s4 i) = next_task_id s) as Hid4 by (by rewrite Hti).
  assert (4 ≤ id (tk s4 i)) as Hid4' by (rewrite Hid4; apply (si_next_id _ _ _ _ Hi)).
  assert (on_rq (tk s4 i) = 0) as Hon4 by (by rewrite Hti).
  wp_step. eapply wp_mono; [apply (make_ready_spec s4 Q i); try done|].
  { by apply (rq_rep_same s4'); [apply Hi4|..]. }
  { exact (si_enq _ _ _ _ Hi4). }
  intros _ s5 (Henq & ? & c & -> & Hcok & _ & _ & Hf & Hr).
  apply readied_eff in Hf as Heff.
  wp_step. apply wp_get_task; [done|]. do 2 wp_step.
  set (s5' := s5 <| next_task_id := _ |>).
  assert (next_task_id s5' = next_task_id s + 1) as Hn5.
  { change (next_task_id s5') with (u64 (next_task_id s5 + 1)). rewrite (rf_next_id _ _ Hf).
    change (next_task_id (s4 <| tasks := _ |>)) with (next_task_id s4). rewrite Hn4.
    change (next_task_id (s3 <| tasks := _ |>)) with (next_task_id s3). rewrite Hn3'.
    pose proof (si_next_id _ _ _ _ Hi). apply u64_small. lia. }
  assert (sched_inv hole L' (placed Q s4' c i) s5') as Hi5.
  { apply (inv_readied hole L' Q s4' s5' c i); try done.
    - change (name (tk s4 i) ≠ None). by rewrite Hti.
    - change (state (tk s4 i) ≠ TASK_STATE_REAPING). rewrite Hti.
      change (state (tk s3 i) ≠ TASK_STATE_REAPING). rewrite Htk3.
      destruct (si_cleared _ _ _ _ Hi1 i Hs Hn) as (_ & _ & Hre). unfold st in Hre. by rewrite Htk1 in Hre.
    - intros c' Hc' Hcu'. destruct (si_cur _ _ _ _ Hi4 c' Hc') as (y & Hy & _ & _).
      destruct (si_cur _ _ _ _ Hi c' Hc') as (z & Hz & _ & Hzin).
      assert (curr s4' c' = curr s c') as E by (unfold curr; change (cur_task s4') with (cur_task s4); rewrite Hc4; by rewrite <- Hc3').
      assert (z = i) as -> by congruence.
      destruct (si_inlist _ _ _ _ Hi i Hzin) as (_ & Hni & _). by rewrite <- Htk1 in Hni.
    - exact (rf_env _ _ Hf).
    - exact (rf_cur _ _ Hf).
    - apply (rq_rep_same s5); [|done|done]. unfold placed in *.
      change (on_rq (tk s4' i)) with (on_rq (tk s4 i)). exact Hr. }
  wp_step. apply (wp_unlock_sched (sheld s)).
  { change (sheld s5') with (sheld s5). unfold sheld, smachine. rewrite (rf_env _ _ Hf).
    change (s_env (s4 <| tasks := _ |>)) with (s_env s4). rewrite He4.
    exact Hh3'. }
  set (s6 := sheld_to (sheld s) s5').
  assert (∀ j, core (tk s5 j) = core (if decide (j = i) then (tk s4 i) <| state := TASK_STATE_READY |> else tk s4 j)) as Htk5.
  { intros j. rewrite (Heff j). by case_decide. }
  assert (x ≠ i) as Hxi.
  { intros ->. destruct (si_inlist _ _ _ _ Hi i Hin) as (_ & Hni & _). by rewrite <- Htk1 in Hni. }
  assert (∀ s7, sheld s7 = sheld s6 → tasks s7 = tasks s6 → cur_task s7 = cur_task s6 →
            next_task_id s7 = next_task_id s6 → (∃ Q', sched_inv hole L' Q' s7) →
            next_task_id s7 = next_task_id s + 1 ∧ created hole L s s7 x i (f (tk s i) <| state := TASK_STATE_READY |>)) as Hend.
  { intros s7 Hh7 Ht7 Hc7 Hn7 [Q7 Hi7]. split; [by rewrite Hn7|].
    assert (∀ j, tk s7 j = tk s5 j) as Htk7 by (intros j; by apply (tk_tasks s5 s7)).
    split.
    - by exists L', Q7.
    - rewrite Hh7. apply sheld_to_held.
    - rewrite Hc7. change (cur_task s6) with (cur_task s5). rewrite (rf_cur _ _ Hf).
      change (cur_task (s4 <| tasks := _ |>)) with (cur_task s4). by rewrite Hc4.
    - split; [done|]. by rewrite <- Htk1.
    - rewrite Htk7, Htk5, decide_True, Hti, !Htk3 by done. done.
    - rewrite Htk7, Htk5, decide_False, Htx, Htk3 by done. done.
    - intros j Hji Hjx. by rewrite Htk7, Htk5, decide_False, Hto, Htk3 by done. }
  assert (sched_inv hole L' (placed Q s4' c i) s6) as Hi6 by (by apply inv_held).
  clearbody s6. wp_step. destruct (_ && _); cbn [whenM].
  - apply wp_ipi. intros s7 Htr. wp_step. exists (pa_to_va stack_pa).
    apply Hend; [by apply traced_held|by destruct Htr as [e ->]..|].
    eexists. by eapply traced_inv.
  - do 2 wp_step. exists (pa_to_va stack_pa). apply Hend; try done. by eexists.
Qed.

Definition new_user_task s (stack_va entry_va stack_top tramp proc process_mm file : Z) (nm : string) (old : task) : task :=
  old <| id := next_task_id s |> <| current_cpu := TASK_NO_CPU |> <| rq_cpu := TASK_NO_CPU |>
    <| on_rq := 0 |> <| preempt_count := 0 |> <| stack_base := stack_va |>
    <| stack_size := TASK_TOTAL_PAGES * PAGE_SIZE |> <| name := Some nm |> <| mm := process_mm |>
    <| process := proc |> <| parent_id := SCHED_NO_PARENT |>
    <| files := {[ 1 := file ]} |>
    <| context := new_context entry_va stack_top tramp (stack_sp stack_va) |>.

Lemma create_says hole L s s2 msg arg (Post : tptr → sstate P → Prop) :
  kept hole L s s2 → tasks s2 = tasks s →
  (∀ s', kept hole L s s' ∧ tasks s' = tasks s → Post None s') → wp (ker_info msg arg ;; mret None) Post s2.
Proof.
  intros ((Q & Hi) & Hh & Hc) Ht HP. wp_step. apply wp_ker_info. intros s3 Htr. wp_step. apply HP.
  assert (tasks s3 = tasks s2 ∧ cur_task s3 = cur_task s2) as [Ht3 Hc3] by (by destruct Htr as [e ->]).
  split; [|congruence]. split; [exists Q; by eapply traced_inv|].
  split; [by rewrite (traced_held _ _ Htr)|congruence].
Qed.

(** A user task is created blocked, for its creator to wake. *)
Lemma task_create_user_spec hole L Q s cpu x tramp proc process_mm entry_va stack_top nm :
  sched_inv hole L Q s → can_lock L_sched (sheld s) = true → cpu_ok cpu = true → curr s cpu = Some x →
  next_task_id s < 2 ^ 64 - 1 →
  wp (task_create_user cpu tramp proc process_mm entry_va stack_top nm) (λ r s',
    match r with
    | None => kept hole L s s' ∧ tasks s' = tasks s
    | Some i => proc ≠ 0 ∧ process_mm ≠ 0 ∧ ∃ stack_va file, next_task_id s' = next_task_id s + 1 ∧
        created hole L s s' x i
          ((new_user_task s stack_va entry_va stack_top tramp proc process_mm file nm (tk s i))
             <| state := TASK_STATE_BLOCKED |>)
    end) s.
Proof.
  intros Hi Hl Hc Hcu Hnx. destruct (si_cur _ _ _ _ Hi cpu Hc) as (x' & Hcu' & Hx & Hin).
  rewrite Hcu in Hcu'. injection Hcu' as <-.
  unfold task_create_user. destruct (_ || _) eqn:Hg.
  { by apply (create_says hole L s s); [apply (kept_refl _ _ Q)|..]. }
  apply orb_false_iff in Hg as [Hg1%Z.eqb_neq Hg2%Z.eqb_neq].
  wp_step. apply wp_lock_sched; [done|].
  set (s1 := sheld_to _ s). assert (sched_inv hole L Q s1) as Hi1 by (by apply inv_held).
  assert (sheld s1 = L_sched :: sheld s) as Hh1 by apply sheld_to_held.
  assert (∀ j, tk s1 j = tk s j) as Htk1 by done.
  assert (tasks s1 = tasks s ∧ cur_task s1 = cur_task s ∧ next_task_id s1 = next_task_id s) as (Ht1 & Hc1 & Hn1) by done.
  clearbody s1. wp_step. apply allocate_slot_spec.
  2: { intros _. rewrite is_null_none. apply (create_fails hole L Q s); try done.
       intros s2 Hk2 Ht2. by apply (create_says hole L s s2). }
  intros i Hs Hge Hn. rewrite is_null_some. wp_step.
  apply (wp_alloc_stack hole L Q); [done|done|rewrite Hh1; by apply can_lock_page|].
  intros stack_pa s3 Hi3 Hh3 Ht3 Hc3 Hn3.
  rewrite Hh1 in Hh3. rewrite Ht1 in Ht3. rewrite Hc1 in Hc3. rewrite Hn1 in Hn3.
  destruct (stack_pa =? 0).
  { apply (create_fails hole L Q s); try done. intros s4 Hk4 Ht4. by apply (create_says hole L s s4). }
  wp_step. wp_step. rewrite Hn3. wp_step. apply wp_upd_task; [done|]. wp_step.
  apply (wp_console_file _ (L_sched :: sheld s)); [|exact Hh3|apply Hi3|].
  { intros l Hr. change (can_lock l (sheld s3) = true). rewrite Hh3. by apply (can_lock_above L_sched). }
  intros file p' Hok' Hp'. wp_step. apply wp_upd_task; [done|]. wp_step.
  set (f := new_user_task s (pa_to_va stack_pa) entry_va stack_top tramp proc process_mm file nm).
  set (s3' := s3 <| s_env := p' |>).
  match goal with |- wp _ _ ?x => replace x with (s3' <| tasks := <[i := f (tk s3' i)]> (tasks s3') |>) end.
  2: { unfold tk, s3', f. cbn. by rewrite task_at_insert, decide_True, insert_insert_eq. }
  assert (sched_inv hole L Q s3') as Hi3' by (by apply (inv_env _ _ _ s3)).
  assert (sheld s3' = L_sched :: sheld s) as Hh3' by exact Hp'.
  assert (tasks s3' = tasks s ∧ cur_task s3' = cur_task s ∧ next_task_id s3' = next_task_id s) as (Ht3' & Hc3' & Hn3') by done.
  clearbody s3'. clear dependent s3. rename s3' into s3, Hi3' into Hi3, Hh3' into Hh3, Ht3' into Ht3, Hc3' into Hc3, Hn3' into Hn3.
  assert (∀ j, tk s3 j = tk s j) as Htk3 by (intros j; by apply tk_tasks).
  unfold arch_get_current_task. wp_step.
  change (cur_task (s3 <| tasks := _ |>) !! cpu) with (curr s3 cpu).
  replace (curr s3 cpu) with (Some x) by (unfold curr; by rewrite Hc3). wp_step.
  assert (name (tk s3 i) = None) as Hn3i by (by rewrite Htk3, <- Htk1).
  apply (fill_and_link hole L Q s3); try done.
  intros s4 L' HL Hi4 He4 Hc4 Hn4 Hti Htx Hto. rewrite Hn3 in Hi4.
  wp_step. apply wp_upd_task; [done|]. do 2 wp_step.
  set (g := λ t : task, t <| state := TASK_STATE_BLOCKED |>).
  match goal with |- wp _ _ (setf next_task_id ?v ?y) =>
    assert (v 0 = next_task_id s + 1) as Hn5 end.
  { cbn [next_task_id setf]. rewrite Hn4. change (u64 (next_task_id s3 + 1) = next_task_id s + 1).
    rewrite Hn3. pose proof (si_next_id _ _ _ _ Hi). apply u64_small. lia. }
  cbn beta in Hn5. rewrite Hn5. clear Hn5.
  set (s4' := s4 <| next_task_id := _ |>) in Hi4.
  match goal with |- wp ?m ?R _ => change (wp m R (s4' <| tasks := <[i := g (tk s4' i)]> (tasks s4') |>)) end.
  assert (x ≠ i) as Hxi.
  { intros ->. destruct (si_inlist _ _ _ _ Hi i Hin) as (_ & Hni & _). by rewrite <- Htk1 in Hni. }
  assert (id (tk s4' i) = next_task_id s) as Hid4 by (change (id (tk s4 i) = next_task_id s); by rewrite Hti).
  assert (sched_inv hole L' Q (s4' <| tasks := <[i := g (tk s4' i)]> (tasks s4') |>)) as Hi5.
  { apply (inv_upd_task hole hole L' Q s4' i (g (tk s4' i))); try done; [lia| |].
    { split; [done|]. change (state (tk s4 i) = TASK_STATE_REAPING → state (g (tk s4 i)) = TASK_STATE_REAPING).
      rewrite Hti. intros Hr. change (state (tk s3 i) = TASK_STATE_REAPING) in Hr. rewrite Htk3 in Hr.
      destruct (si_cleared _ _ _ _ Hi1 i Hs Hn) as (_ & _ & Hre). unfold st in Hre. by rewrite Htk1 in Hre. }
    intros _ _ c Hcok Hcu4. exfalso.
    apply (inv_free_not_current hole L Q s i c); [done|by rewrite <- Htk1|done|].
    unfold curr in Hcu4 |- *. change (cur_task s4') with (cur_task s4) in Hcu4.
    rewrite Hc4 in Hcu4. by rewrite <- Hc3. }
  set (s5 := s4' <| tasks := _ |>) in *.
  assert (tk s5 i = g (tk s4 i)) as H5i by (unfold s5; by rewrite tk_upd, decide_True).
  assert (∀ j, j ≠ i → tk s5 j = tk s4 j) as H5j by (intros j Hj; unfold s5; by rewrite tk_upd, decide_False by done).
  wp_step. apply (wp_unlock_sched (sheld s)).
  { change (sheld s5) with (sheld s4). unfold sheld, smachine. rewrite He4. exact Hh3. }
  wp_step. split; [done|]. split; [done|]. exists (pa_to_va stack_pa), file. split; [done|].
  assert (∀ j, tk (sheld_to (sheld s) s5) j = tk s5 j) as Htk6 by done.
  split.
  - exists L', Q. split; [done|]. by apply inv_held.
  - apply sheld_to_held.
  - exact (eq_trans Hc4 Hc3).
  - split; [done|]. by rewrite <- Htk1.
  - rewrite Htk6, H5i, Hti, !Htk3. exact (core_state_next _ _ _).
  - rewrite Htk6, H5j, Htx, Htk3 by exact Hxi. reflexivity.
  - intros j Hji Hjx. rewrite Htk6, H5j, Hto, Htk3 by assumption. reflexivity.
Qed.

End create.
