(* ===== verification/SchedReap.v ===== *)
(** * Reaping, the context switch and start-up of the scheduler. *)

From S2P Require Import Prelude Machine PageAllocSpec Task WaitQueue Heap HeapSpec Sched SchedQueue SchedInv SchedOps SchedLife SchedCreate.

Open Scope kernel_scope.

Section reap.
Context {P : Type} `{SchedEnvLaws P}.
Implicit Types s : sstate P.

(** ** Unlinking a dead task *)

Lemma inv_remove hole L L' Q s s' l1 p v l2 :
  sched_inv hole L Q s → 0 :: L = l1 ++ p :: v :: l2 → 0 :: L' = l1 ++ p :: l2 →
  4 ≤ v → on_rq (tk s v) = 0 → (∀ c, cpu_ok c = true → curr s c ≠ Some v) →
  s_env s' = s_env s → run_queues s' = run_queues s → cur_task s' = cur_task s →
  next_enqueue_cpu s' = next_enqueue_cpu s → next_task_id s' = next_task_id s →
  st s' v = TASK_STATE_REAPING → rq_view (tk s' v) = rq_view (tk s v) → name (tk s' v) = name (tk s v) →
  tk s' p = (tk s p) <| next := next (tk s v) |> → (∀ j, j ≠ v → j ≠ p → tk s' j = tk s j) →
  sched_inv hole L' Q s'.
Proof.
  intros Hi HL HL' Hv4 Hon Hncur He Hr Hc Hq Hn Hvst' Hvv Hvn Hp Hoth.
  destruct (si_list _ _ _ _ Hi) as [Hnd Hcirc]. rewrite HL in Hnd.
  assert (p ≠ v) as Hpv by (apply NoDup_app in Hnd as (_ & _ & [? _]%NoDup_cons); set_solver).
  assert (v ∈ 0 :: L ∧ p ∈ 0 :: L) as [Hvin Hpin] by (rewrite HL; set_solver).
  assert (∀ j, j ∈ 0 :: L → j ≠ v → j ∈ 0 :: L') as Hin' by (intros j; rewrite HL, HL'; set_solver).
  assert (∀ j, j ∈ 0 :: L' → j ∈ 0 :: L ∧ j ≠ v) as Hin.
  { intros j. rewrite HL, HL'. apply NoDup_app in Hnd as (_ & Hd & [? [? _]%NoDup_cons]%NoDup_cons).
    intros Hj. split; [set_solver|]. intros ->. set_solver. }
  assert (∀ j, j ≠ v → rq_view (tk s' j) = rq_view (tk s j) ∧ id (tk s' j) = id (tk s j) ∧
            name (tk s' j) = name (tk s j) ∧ current_cpu (tk s' j) = current_cpu (tk s j) ∧
            st s' j = st s j) as Hv.
  { intros j Hj. unfold st. destruct (decide (j = p)) as [->|]; [by rewrite Hp|by rewrite Hoth]. }
  assert (∀ j, rq_view (tk s' j) = rq_view (tk s j)) as Hrv.
  { intros j. destruct (decide (j = v)) as [->|]; [done|by apply Hv]. }
  assert (∀ j, on_rq (tk s' j) = on_rq (tk s j) ∧ id (tk s' j) = id (tk s j) ∧ name (tk s' j) = name (tk s j)) as Hf.
  { intros j. pose proof (Hrv j) as E. unfold rq_view in E. split; [congruence|]. split; [congruence|].
    destruct (decide (j = v)) as [->|]; [done|by apply Hv]. }
  assert (∀ c, cpu_ok c = true → v ∉ Q c) as HvQ.
  { intros c Hok Hq'. destruct (rr_in _ _ (si_rq _ _ _ _ Hi) c v Hok Hq'). lia. }
  assert (∀ c, curr s' c = curr s c) as Hcu by (intros c; unfold curr; by rewrite Hc).
  destruct (si_inlist _ _ _ _ Hi v Hvin) as (Hvs & Hvnm & Hvst).
  split.
  - rewrite He. apply Hi.
  - apply (rq_rep_same s); [apply Hi|done|]. intros c. unfold rq_at. by rewrite Hr.
  - rewrite Hq. apply Hi.
  - intros c Hok. rewrite Hcu. destruct (si_cur _ _ _ _ Hi c Hok) as (j & Hj & ? & ?).
    exists j. split; [done|]. split; [done|]. apply Hin'; [done|]. intros ->. by apply (Hncur c).
  - intros c c' j. rewrite !Hcu. apply Hi.
  - intros c j Hok. rewrite Hcu. intros Hj. destruct (Hv j) as (_ & _ & _ & -> & _).
    { intros ->. by apply (Hncur c). } by apply (si_run _ _ _ _ Hi).
  - intros c j. rewrite Hcu. apply Hi.
  - intros c j c' Hok Hok' Hq'. rewrite Hcu. destruct (Hv j) as (_ & _ & _ & _ & ->); [intros ->; by apply (HvQ c)|].
    by apply (si_ready _ _ _ _ Hi c).
  - intros c j Hok. rewrite Hcu. intros Hj. destruct (Hv j) as (_ & _ & _ & _ & ->).
    { intros ->. by apply (Hncur c). } by apply (si_blocked _ _ _ _ Hi).
  - intros j Hj. destruct (Hv j) as (_ & -> & -> & _ & ->); [lia|]. by apply (si_slots _ _ _ _ Hi).
  - intros j. destruct (Hf j) as (_ & -> & ->). rewrite Hn. apply Hi.
  - intros j Hj. destruct (Hf j) as (-> & -> & ->). intros Hnj.
    destruct (Hv j) as (_ & _ & _ & _ & ->); [by intros ->|]. by apply (si_cleared _ _ _ _ Hi).
  - intros j Hj. destruct (Hf j) as (-> & _). destruct (decide (j = v)) as [->|Hjv]; [done|].
    destruct (Hv j Hjv) as (_ & _ & _ & _ & ->). by apply (si_reaping _ _ _ _ Hi).
  - intros j k Hj Hk. destruct (Hf j) as (_ & -> & ->), (Hf k) as (_ & -> & ->). by apply (si_ids _ _ _ _ Hi).
  - rewrite HL'. split.
    + apply NoDup_app in Hnd as (? & Hd & [? [? ?]%NoDup_cons]%NoDup_cons).
      apply NoDup_app. split; [done|]. split; [set_solver|]. apply NoDup_cons. split; [set_solver|done].
    + assert (circ (λ j, next (tk s' j)) (0 :: L')) as Hgoal; [|exact Hgoal].
      rewrite HL'. eapply (circ_remove (λ j, next (tk s j))); [rewrite <- HL; exact Hcirc|done| |].
      * by rewrite Hp.
      * intros y Hy1 Hy2. by rewrite Hoth.
  - intros j [Hj Hjv]%Hin. destruct (Hv j Hjv) as (_ & _ & -> & _ & ->). by apply (si_inlist _ _ _ _ Hi).
  - intros j Hj. destruct (decide (j = v)) as [->|Hjv]; [done|].
    destruct (Hv j Hjv) as (_ & _ & -> & _ & ->). intros Hnj Hstj. apply Hin'; [|done].
    by apply (si_all _ _ _ _ Hi).
  - rewrite Hn. apply Hi.
Qed.

(** A task the reaper takes. *)
Definition reapable (t : task) : bool := (state t =? TASK_STATE_DEAD) && (current_cpu t =? TASK_NO_CPU).

Lemma list_length_slots hole L Q s : sched_inv hole L Q s → (length (0%Z :: L) ≤ 32)%nat.
Proof.
  intros Hi. destruct (si_list _ _ _ _ Hi) as [Hnd _]. apply slots_length; [done|].
  apply Forall_forall. intros i Hin. by destruct (si_inlist _ _ _ _ Hi i Hin).
Qed.

Lemma circular_next hole L Q s l1 x y l2 : sched_inv hole L Q s → 0 :: L = l1 ++ x :: y :: l2 →
  next (tk s x) = Some y.
Proof.
  intros Hi HL. destruct (si_list _ _ _ _ Hi) as [_ Hc].
  rewrite (Hc (length l1) x) by (rewrite HL; by apply list_lookup_middle).
  f_equal. change (L !! length l1) with ((0 :: L) !! S (length l1)). rewrite HL, lookup_app_r by lia.
  by replace (S (length l1) - length l1)%nat with 1%nat by lia.
Qed.

Lemma circular_last hole L Q s l1 x : sched_inv hole L Q s → 0 :: L = l1 ++ [x] → next (tk s x) = Some 0.
Proof.
  intros Hi HL. destruct (si_list _ _ _ _ Hi) as [_ Hc].
  rewrite (Hc (length l1) x) by (rewrite HL; by apply list_lookup_middle).
  f_equal. change (L !! length l1) with ((0 :: L) !! S (length l1)).
  rewrite lookup_ge_None_2; [done|]. rewrite HL, length_app. cbn. lia.
Qed.

(** The walk along the list: it stops at the first reapable task after slot 0. *)
Definition reap_body (pt : tptr * tptr) : M (sstate P) ((tptr * tptr) + tptr) :=
  let '(prev, t) := pt in
  if ptr_eq t (Some 0) then mret (inr None) else
  c ← get_task t;
  if (state c =? TASK_STATE_DEAD) && (current_cpu c =? TASK_NO_CPU) then
    _ ← sched_rq_remove_locked t;
    c ← get_task t;
    upd_task prev (λ x, x <| next := next c |>) ;;
    upd_task t (λ x, x <| state := TASK_STATE_REAPING |>) ;;
    mret (inr t)
  else mret (inl (t, next c)).

(** What the walk found. *)
Definition reaped hole L s (r : tptr) s' : Prop :=
  match r with
  | None => s' = s ∧ ∀ i, i ∈ L → reapable (tk s i) = false
  | Some v => ∃ l1 p l2 L' Q', 0 :: L = l1 ++ p :: v :: l2 ∧ 0 :: L' = l1 ++ p :: l2 ∧
      slot_ok v = true ∧ reapable (tk s v) = true ∧ sched_inv hole L' Q' s' ∧ s_env s' = s_env s ∧
      cur_task s' = cur_task s ∧
      core (tk s' v) = core ((tk s v) <| state := TASK_STATE_REAPING |>) ∧
      core (tk s' p) = core ((tk s p) <| next := next (tk s v) |>) ∧
      (∀ j, j ≠ v → j ≠ p → core (tk s' j) = core (tk s j))
  end.

Lemma reap_take hole L Q s l1 p v l2 :
  sched_inv hole L Q s → 0 :: L = l1 ++ p :: v :: l2 → reapable (tk s v) = true →
  wp (_ ← sched_rq_remove_locked (Some v);
      c ← get_task (Some v);
      upd_task (Some p) (λ x, x <| next := next c |>) ;;
      upd_task (Some v) (λ x, x <| state := TASK_STATE_REAPING |>) ;;
      mret (inr (Some v) : (tptr * tptr) + tptr))
     (λ r s', ∃ v', r = inr v' ∧ reaped hole L s v' s') s.
Proof.
  intros Hi HL Hre. pose proof (si_list _ _ _ _ Hi) as [Hnd _]. rewrite HL in Hnd.
  assert (p ≠ v) as Hpv by (apply NoDup_app in Hnd as (_ & _ & [? _]%NoDup_cons); set_solver).
  destruct (si_inlist _ _ _ _ Hi v) as (Hvs & Hvn & _); [rewrite HL; set_solver|].
  destruct (si_inlist _ _ _ _ Hi p) as (Hps & _ & _); [rewrite HL; set_solver|].
  pose proof Hre as [Hst%Z.eqb_eq Hcc%Z.eqb_eq]%andb_true_iff.
  assert (4 ≤ v) as Hv4.
  { destruct (decide (4 ≤ v)); [done|]. apply slot_ok_spec in Hvs.
    destruct (si_slots _ _ _ _ Hi v) as (_ & _ & Hr); [lia|]. unfold st in Hr. by rewrite Hr in Hst. }
  assert (∀ c, cpu_ok c = true → curr s c ≠ Some v) as Hnc.
  { intros c Hok Hcu. pose proof (si_run _ _ _ _ Hi c v Hok Hcu) as E. rewrite Hcc in E.
    apply cpu_ok_spec in Hok. unfold TASK_NO_CPU in E. lia. }
  wp_step. eapply wp_mono; [by apply (rq_remove_inv hole L Q)|].
  intros _ s1 (Q1 & Hi1 & Hf & HnQ). wp_step. apply wp_get_task; [done|].
  wp_step. apply wp_upd_task; [done|]. wp_step. apply wp_upd_task; [done|]. apply wp_ret.
  match goal with |- ∃ _, _ ∧ reaped _ _ _ _ ?x => set (s2 := x) end.
  assert (on_rq (tk s1 v) = 0) as Hon.
  { destruct (rr_out _ _ (si_rq _ _ _ _ Hi1) v Hvs) as [?|(_ & c & Hok & Hin)]; [done|]. by destruct (HnQ c). }
  assert (tk s2 v = (tk s1 v) <| state := TASK_STATE_REAPING |>) as H2v.
  { unfold s2. rewrite tk_upd, decide_True, tk_upd, decide_False by done. done. }
  assert (tk s2 p = (tk s1 p) <| next := next (tk s1 v) |>) as H2p.
  { unfold s2. rewrite tk_upd, decide_False, tk_upd, decide_True by done. done. }
  assert (∀ j, j ≠ v → j ≠ p → tk s2 j = tk s1 j) as H2o.
  { intros j Hj1 Hj2. unfold s2. by rewrite !tk_upd, !decide_False by done. }
  assert (∃ L', 0 :: L' = l1 ++ p :: l2) as [L' HL'].
  { destruct l1 as [|y l1]; injection HL as <- _; [by exists l2|by exists (l1 ++ p :: l2)]. }
  exists (Some v). split; [done|]. exists l1, p, l2, L', Q1. do 4 (split; [done|]).
  split.
  { apply (inv_remove hole L L' Q1 s1 s2 l1 p v l2); try done; [|by unfold st; rewrite H2v..].
    intros c Hok. unfold curr. rewrite (rf_cur _ _ Hf). by apply Hnc. }
  split; [exact (rf_env _ _ Hf)|]. split; [exact (rf_cur _ _ Hf)|].
  split; [rewrite H2v, !core_state, (rf_core _ _ Hf v); reflexivity|].
  split; [|intros j Hj1 Hj2; rewrite H2o by done; apply Hf].
  rewrite H2p, (rf_nexts _ _ v Hf).
  change (core ((tk s1 p) <| next := ?n |>)) with ((core (tk s1 p)) <| next := n |>).
  by rewrite (rf_core _ _ Hf p).
Qed.

Lemma reap_walk hole L Q s :
  sched_inv hole L Q s →
  wp (whileM (Z.to_nat (MAX_TASKS + 1)) reap_body (Some 0, next (tk s 0))) (reaped hole L s) s.
Proof.
  intros Hi. pose proof (list_length_slots _ _ _ _ Hi) as Hlen.
  set (I := λ (n : nat) '((prev, t) : tptr * tptr) (s' : sstate P), s' = s ∧ ∃ l1 p l2,
    0 :: L = l1 ++ p :: l2 ∧ n = length l2 ∧ prev = Some p ∧ t = next (tk s p) ∧
    ∀ i, i ∈ L → i ∉ l2 → reapable (tk s i) = false).
  apply (wp_whileM _ _ _ I _ (length L)).
  { unfold MAX_TASKS. cbn in Hlen. lia. }
  { split; [done|]. exists [], 0, L. done. }
  intros n [prev t] s' (-> & l1 & p & l2 & HL & -> & -> & -> & Hno). unfold reap_body.
  pose proof (si_list _ _ _ _ Hi) as [Hnd _].
  destruct l2 as [|v l2].
  { rewrite (circular_last _ _ _ _ _ _ Hi HL). apply wp_ret. split; [done|]. intros i Hin.
    apply Hno; [done|]. apply not_elem_of_nil. }
  rewrite (circular_next _ _ _ _ _ _ _ _ Hi HL). rewrite ptr_eq_some.
  assert (v ≠ 0) as Hv0.
  { intros ->. apply NoDup_cons in Hnd as [Hnd _]. apply Hnd. destruct l1 as [|y l1]; injection HL as <- ->; set_solver. }
  rewrite bool_decide_false by done. wp_step.
  destruct (si_inlist _ _ _ _ Hi v) as (Hvs & _); [rewrite HL; set_solver|].
  apply wp_get_task; [done|]. fold (reapable (tk s v)). destruct (reapable (tk s v)) eqn:Hre.
  - eapply wp_mono; [by apply (reap_take hole L Q s l1 p v l2)|]. intros r s1 (v' & -> & Hr). exact Hr.
  - apply wp_ret. exists (length l2). split; [cbn; lia|]. split; [done|]. exists (l1 ++ [p]), v, l2.
    split; [by rewrite <- app_assoc|]. do 3 (split; [done|]). intros i Hin Hnot.
    destruct (decide (i = v)) as [->|]; [done|]. apply Hno; [done|]. set_solver.
Qed.

Lemma core_stack t t' : core t = core t' → stack_base t = stack_base t' ∧ process t = process t'.
Proof. destruct t, t'. unfold core. cbn. intros [=]. by subst. Qed.

(** The fields that neither the reaper nor what it runs on a detached task
    changes for the other tasks. *)
Definition reap_view (t : task) : Z * Z * option string * Z * Z * Z * tptr :=
  (id t, state t, name t, current_cpu t, stack_base t, process t, wait_next t).

Lemma core_reap_view t t' : core t = core t' → reap_view t = reap_view t'.
Proof. destruct t, t'. unfold core, reap_view. cbn. intros [=]. by subst. Qed.

(** [reap_detach] takes the first reapable task off the list, or finds that there
    is none. *)
Lemma reap_detach_spec hole L Q s :
  sched_inv hole L Q s → can_lock L_sched (sheld s) = true →
  wp reap_detach (λ r s',
    match r with
    | None => kept hole L s s' ∧ tasks s' = tasks s ∧ ∀ i, i ∈ L → reapable (tk s i) = false
    | Some (v, stack, proc) => slot_ok v = true ∧ v ∈ L ∧ reapable (tk s v) = true ∧
        stack = stack_base (tk s v) ∧ proc = process (tk s v) ∧
        st s' v = TASK_STATE_REAPING ∧
        (∃ L' Q', (∀ i, i ∈ L' ↔ i ∈ L ∧ i ≠ v) ∧ sched_inv hole L' Q' s') ∧
        sheld s' = sheld s ∧ cur_task s' = cur_task s ∧
        wait_next (tk s' v) = wait_next (tk s v) ∧
        (∀ j, j ≠ v → reap_view (tk s' j) = reap_view (tk s j))
    end) s.
Proof.
  intros Hi Hl. unfold reap_detach. eapply wp_locked; [done|done|]. intros s1 Hi1 Hh1 Ht1 Hc1 _.
  assert (∀ j, tk s1 j = tk s j) as Htk1 by (intros j; by apply tk_tasks).
  wp_step. apply wp_get_task; [done|]. wp_step. eapply wp_mono; [by apply (reap_walk hole L Q s1)|].
  intros [v|] s2.
  2: { intros [-> Hno]. wp_step. apply (wp_unlocked hole L Q s); [done..|]. intros s3 Hk Ht. wp_step.
       split; [done|]. split; [congruence|]. intros i Hin. rewrite <- Htk1. by apply Hno. }
  intros (l1 & p & l2 & L' & Q' & HL & HL' & Hvs & Hre & Hi2 & He2 & Hc2 & H2v & H2p & H2o).
  rewrite Htk1 in Hre, H2v.
  pose proof (si_list _ _ _ _ Hi) as [Hnd _].
  assert (∀ i, i ∈ L' ↔ i ∈ L ∧ i ≠ v) as HLiff.
  { assert (v ≠ 0) as Hv0.
    { intros ->. apply NoDup_cons in Hnd as [Hnd _]. apply Hnd. destruct l1 as [|y l1]; injection HL as <- ->; set_solver. }
    pose proof (si_list _ _ _ _ Hi2) as [Hnd' _]. apply NoDup_cons in Hnd as [Hz _], Hnd' as [Hz' _].
    assert (∀ i, i ∈ 0 :: L' ↔ i ∈ 0 :: L ∧ i ≠ v) as Hiff.
    { intros i. pose proof (si_list _ _ _ _ Hi1) as [Hnd1 _]. rewrite HL in Hnd1 |- *. rewrite HL'.
      apply NoDup_app in Hnd1 as (_ & Hd & [? [? _]%NoDup_cons]%NoDup_cons). set_solver. }
    intros i. specialize (Hiff i). rewrite !elem_of_cons in Hiff.
    destruct (decide (i = 0)) as [->|]; [tauto|]. tauto. }
  assert (v ∈ L) as Hvin.
  { assert (v ∈ 0 :: L) as Hin by (rewrite HL; set_solver). apply elem_of_cons in Hin as [->|]; [|done].
    exfalso. pose proof (si_slots _ _ _ _ Hi 0) as (_ & _ & Hr); [lia|]. unfold st in Hr.
    unfold reapable in Hre. by rewrite Hr in Hre. }
  wp_step. apply wp_get_task; [done|]. wp_step. apply wp_upd_task; [done|]. wp_step.
  set (f := λ x : task, x <| stack_base := 0 |> <| process := 0 |> <| mm := 0 |>).
  match goal with |- wp ?m ?R _ => change (wp m R (s2 <| tasks := <[v := f (tk s2 v)]> (tasks s2) |>)) end.
  assert (sched_inv hole L' Q' (s2 <| tasks := <[v := f (tk s2 v)]> (tasks s2) |>)) as Hi3
    by by apply inv_quiet.
  set (s3 := s2 <| tasks := _ |>) in *.
  assert (∀ j, j ≠ v → tk s3 j = tk s2 j) as H3 by (intros j Hj; unfold s3; by rewrite tk_upd, decide_False).
  apply (wp_unlock_sched (sheld s)).
  { change (sheld s3) with (sheld s2). unfold sheld, smachine. rewrite He2. exact Hh1. }
  wp_step. split; [done|]. split; [done|]. split; [done|].
  assert (stack_base (tk s2 v) = stack_base (tk s v) ∧ process (tk s2 v) = process (tk s v)) as [E1 E2].
  { apply (core_stack _ ((tk s v) <| state := TASK_STATE_REAPING |>)) in H2v. exact H2v. }
  rewrite E1, E2. do 2 (split; [done|]).
  split.
  { change (st s3 v = TASK_STATE_REAPING). unfold st, s3. rewrite tk_upd, decide_True by done.
    apply core_fields in H2v as (_ & E & _). exact E. }
  split; [exists L', Q'; split; [done|]; by apply inv_held|].
  split; [apply sheld_to_held|]. split; [change (cur_task s2 = cur_task s); congruence|].
  split.
  { change (wait_next (tk s3 v) = wait_next (tk s v)). unfold s3. rewrite tk_upd, decide_True by done.
    apply core_reap_view in H2v. unfold reap_view in H2v. cbn in *. congruence. }
  intros j Hj. change (reap_view (tk s3 j) = reap_view (tk s j)). rewrite H3, <- Htk1 by done.
  destruct (decide (j = p)) as [->|Hjp].
  - apply core_reap_view in H2p. exact H2p.
  - specialize (H2o j Hj Hjp). by apply core_reap_view in H2o.
Qed.

(** Clearing the slot makes it free again. *)
Lemma reap_clear_spec hole L Q s v :
  sched_inv hole L Q s → can_lock L_sched (sheld s) = true → slot_ok v = true →
  st s v = TASK_STATE_REAPING →
  wp (reap_clear v) (λ _ s', kept hole L s s' ∧ tk s' v = task0 ∧ ∀ j, j ≠ v → tk s' j = tk s j) s.
Proof.
  intros Hi Hl Hv Hst. unfold reap_clear. eapply wp_locked; [done|done|]. intros s1 Hi1 Hh1 Ht1 Hc1 _.
  assert (∀ j, tk s1 j = tk s j) as Htk1 by (intros j; by apply tk_tasks).
  unfold st in Hst. rewrite <- Htk1 in Hst.
  unfold sched_clear_task. rewrite is_null_some. wp_step. apply wp_upd_task; [done|].
  set (s2 := s1 <| tasks := _ |>).
  assert (∀ j, tk s2 j = if decide (v = j) then task0 else tk s1 j) as Htk2 by (intros j; apply tk_upd).
  assert (v ∉ 0 :: L) as Hnin.
  { intros Hin. by destruct (si_inlist _ _ _ _ Hi1 v Hin) as (_ & _ & ?). }
  assert (on_rq (tk s1 v) = 0) as Hon by (by apply (si_reaping _ _ _ _ Hi1)).
  assert (4 ≤ v) as Hv4.
  { destruct (decide (4 ≤ v)); [done|]. apply slot_ok_spec in Hv.
    destruct (si_slots _ _ _ _ Hi1 v) as (_ & _ & Hr); [lia|]. unfold st in Hr. by rewrite Hr in Hst. }
  assert (∀ c, cpu_ok c = true → v ∉ Q c) as HvQ.
  { intros c Hok Hq'. destruct (rr_in _ _ (si_rq _ _ _ _ Hi1) c v Hok Hq'). lia. }
  assert (∀ c j, cpu_ok c = true → curr s1 c = Some j → j ≠ v) as Hnc.
  { intros c j Hok Hcu ->. destruct (si_cur _ _ _ _ Hi1 c Hok) as (k & Hk & _ & Hin). congruence. }
  assert (∀ j, j ≠ v → tk s2 j = tk s1 j) as Hoth by (intros j Hj; by rewrite Htk2, decide_False by done).
  assert (tk s2 v = task0) as H2v by (by rewrite Htk2, decide_True).
  assert (sched_inv hole L Q s2) as Hi2.
  { split.
    - apply Hi1.
    - apply (rq_rep_same_in s1); [apply Hi1| |intros c j Hok Hin; rewrite Hoth; [done|]; intros ->; by apply (HvQ c)|done].
      intros j. destruct (decide (j = v)) as [->|]; [by rewrite H2v, Hon|by rewrite Hoth].
    - apply Hi1.
    - apply Hi1.
    - apply Hi1.
    - intros c j Hok Hcu. rewrite Hoth by (by eapply Hnc). by apply (si_run _ _ _ _ Hi1).
    - apply Hi1.
    - intros c j c' Hok Hok' Hin. unfold st. rewrite Hoth by (intros ->; by apply (HvQ c)).
      by apply (si_ready _ _ _ _ Hi1 c).
    - intros c j Hok Hcu. unfold st. rewrite Hoth by (by eapply Hnc). by apply (si_blocked _ _ _ _ Hi1).
    - intros j Hj. unfold st. rewrite Hoth by lia. by apply (si_slots _ _ _ _ Hi1).
    - intros j Hj Hj4. destruct (decide (j = v)) as [->|]; [by rewrite H2v|rewrite Hoth by done].
      by apply (si_named _ _ _ _ Hi1).
    - intros j Hj. unfold st. destruct (decide (j = v)) as [->|]; [by rewrite H2v|rewrite Hoth by done].
      by apply (si_cleared _ _ _ _ Hi1).
    - intros j Hj. unfold st. destruct (decide (j = v)) as [->|]; [by rewrite H2v|rewrite Hoth by done].
      by apply (si_reaping _ _ _ _ Hi1).
    - intros j k Hj Hk. destruct (decide (j = v)) as [->|]; [by rewrite H2v|].
      destruct (decide (k = v)) as [->|]; [by rewrite H2v|]. rewrite !Hoth by done. by apply (si_ids _ _ _ _ Hi1).
    - destruct (si_list _ _ _ _ Hi1) as [Hnd Hcirc]. split; [done|]. intros k x Hx.
      rewrite Hoth; [by apply Hcirc|]. intros ->. by apply Hnin, (list_elem_of_lookup_2 _ k).
    - intros j Hj. unfold st. rewrite Hoth by (by intros ->). by apply (si_inlist _ _ _ _ Hi1).
    - intros j Hj. unfold st. destruct (decide (j = v)) as [->|]; [by rewrite H2v|rewrite Hoth by done].
      by apply (si_all _ _ _ _ Hi1).
    - apply Hi1. }
  apply (wp_unlocked hole L Q s); [done..|]. intros s3 Hk Ht3. split; [done|].
  rewrite (tk_tasks s2 s3) by done. split; [done|]. intros j Hj.
  by rewrite (tk_tasks s2 s3), Hoth by done.
Qed.

End reap.
