(* ===== verification/SchedSwitch.v ===== *)
(** * [schedule] and the start-up of the scheduler. *)

From S2P Require Import Prelude Machine PageAllocSpec Task WaitQueue Heap HeapSpec Sched SchedQueue SchedInv SchedOps SchedLife SchedCreate SchedReap.

Open Scope kernel_scope.

Section switch.
Context {P : Type} `{SchedEnvLaws P}.
Implicit Types s : sstate P.

(** No window at all, the windows of the other CPUs, and these with that of [cpu]. *)
Definition closed : Z → Prop := λ _, False.
Definition others (hole : Z → Prop) (cpu : Z) : Z → Prop := λ c, hole c ∧ c ≠ cpu.
Definition opened (hole : Z → Prop) (cpu : Z) : Z → Prop := λ c, hole c ∨ c = cpu.

(** No task that another CPU still runs can be taken from a queue. *)
Definition unclaimed (Q : qs) s (cpu : Z) : Prop := ∀ c i c',
  cpu_ok c = true → cpu_ok c' = true → i ∈ Q c → st s i = TASK_STATE_READY → curr s c' = Some i → c' = cpu.

(** No other CPU is between publishing its task as READY again and its own
    [schedule]: what [schedule] relies on. *)
Definition switch_safe s (cpu : Z) : Prop := ∀ c i,
  cpu_ok c = true → c ≠ cpu → curr s c = Some i → st s i ≠ TASK_STATE_READY.

Lemma safe_unclaimed Q s cpu : switch_safe s cpu → unclaimed Q s cpu.
Proof.
  intros Hs c i c' _ Hok' _ Hst Hcu. destruct (decide (c' = cpu)); [done|]. by destruct (Hs c' i).
Qed.

Lemma inv_unclaimed hole L Q s cpu : sched_inv hole L Q s → (∀ c, hole c → c = cpu) → unclaimed Q s cpu.
Proof. intros Hi Ho c i c' Hok Hok' Hin Hst Hcu. apply Ho. by apply (si_ready _ _ _ _ Hi c i c'). Qed.

(** A task [schedule] may switch to. *)
Definition eligible (Q : qs) s cpu n : Prop :=
  n = cpu ∨ (st s n = TASK_STATE_READY ∧ ∃ c, cpu_ok c = true ∧ n ∈ Q c).

Lemma eligible_facts hole L Q s cpu n :
  sched_inv hole L Q s → unclaimed Q s cpu → cpu_ok cpu = true → eligible Q s cpu n →
  slot_ok n = true ∧ n ∈ 0 :: L ∧ (n < 4 → n = cpu) ∧
  ∀ c, cpu_ok c = true → curr s c = Some n → c = cpu.
Proof.
  intros Hi Hun Hc [->|[Hst (c & Hok & Hin)]].
  - apply cpu_ok_spec in Hc as Hb. assert (slot_ok cpu = true) as Hs by (apply slot_ok_spec; lia).
    destruct (si_slots _ _ _ _ Hi cpu Hb) as (_ & Hn & Hr).
    split; [done|]. split; [apply (si_all _ _ _ _ Hi); [done|done|by rewrite Hr]|]. split; [done|].
    intros c Hok Hcu. symmetry. apply (si_idle _ _ _ _ Hi c cpu Hok Hcu). lia.
  - destruct (rr_in _ _ (si_rq _ _ _ _ Hi) c n Hok Hin) as [Hs _ _ Hid].
    destruct (inv_slot_id _ _ _ _ _ Hi Hs Hid) as [Hge Hn].
    split; [done|]. split; [apply (si_all _ _ _ _ Hi); [done|done|by rewrite Hst]|]. split; [lia|].
    intros c' Hok' Hcu. by apply (Hun c n c').
Qed.

(** Switching [cpu] from [prev] to an eligible task closes the window. *)
Lemma inv_switch hole cpu L Q1 Q2 s s' prev n :
  sched_inv hole L Q1 s → unclaimed Q1 s cpu → cpu_ok cpu = true → curr s cpu = Some prev → eligible Q1 s cpu n →
  ps_ok (s_env s') → rq_rep s' Q2 → (∀ c i, cpu_ok c = true → i ∈ Q2 c → i ∈ Q1 c) →
  (∀ c, cpu_ok c = true → n ∉ Q2 c) → next_enqueue_cpu s' = next_enqueue_cpu s →
  next_task_id s' = next_task_id s →
  (∀ c, curr s' c = if decide (c = cpu) then Some n else curr s c) →
  (∀ j, next (tk s' j) = next (tk s j) ∧ id (tk s' j) = id (tk s j) ∧ name (tk s' j) = name (tk s j)) →
  st s' n = TASK_STATE_RUNNING → current_cpu (tk s' n) = cpu →
  (∀ j, j ≠ n → st s' j = st s j) →
  (∀ j, j ≠ n → j ≠ prev → current_cpu (tk s' j) = current_cpu (tk s j)) →
  sched_inv (others hole cpu) L Q2 s'.
Proof.
  intros Hi Hun Hc Hcp Hel Henv Hrq Hsub HnQ Henq Hnid Hcur Hf Hstn Hcn Hsto Hco.
  destruct (eligible_facts _ _ _ _ _ _ Hi Hun Hc Hel) as (Hns & Hnin & Hnidle & Hnex).
  destruct (si_inlist _ _ _ _ Hi n Hnin) as (_ & Hnnm & Hnst).
  assert (∀ c i, cpu_ok c = true → c ≠ cpu → curr s c = Some i → i ≠ n ∧ i ≠ prev) as Hne.
  { intros c i Hok Hcc Hcu. split; intros ->; apply Hcc; [by apply Hnex|by apply (si_excl _ _ _ _ Hi c cpu prev)]. }
  split.
  - done.
  - done.
  - rewrite Henq. apply Hi.
  - intros c Hok. rewrite Hcur. destruct (decide (c = cpu)) as [->|]; [by exists n|by apply (si_cur _ _ _ _ Hi)].
  - intros c c' i Hok Hok'. rewrite !Hcur. destruct (decide (c = cpu)) as [->|Hcc], (decide (c' = cpu)) as [->|Hcc'].
    + done.
    + intros [= ->] Hcu. by destruct (Hne c' i Hok' Hcc' Hcu).
    + intros Hcu [= ->]. by destruct (Hne c i Hok Hcc Hcu).
    + by apply (si_excl _ _ _ _ Hi).
  - intros c i Hok. rewrite Hcur. destruct (decide (c = cpu)) as [->|Hcc]; [by intros [= <-]|].
    intros Hcu. destruct (Hne c i Hok Hcc Hcu). rewrite Hco by done. by apply (si_run _ _ _ _ Hi).
  - intros c i Hok. rewrite Hcur. destruct (decide (c = cpu)) as [->|Hcc]; [intros [= <-]; done|].
    by apply (si_idle _ _ _ _ Hi).
  - intros c i c' Hok Hok' Hin Hst. rewrite Hcur. destruct (decide (c' = cpu)) as [->|Hcc].
    + intros [= ->]. by destruct (HnQ c).
    + intros Hcu. destruct (Hne c' i Hok' Hcc Hcu). rewrite Hsto in Hst by done. split; [|done].
      apply (si_ready _ _ _ _ Hi c i c'); auto.
  - intros c i Hok. rewrite Hcur. destruct (decide (c = cpu)) as [->|Hcc].
    + intros [= <-] _. by rewrite Hstn.
    + intros Hcu Hge. destruct (Hne c i Hok Hcc Hcu). rewrite Hsto by done. intros Hst. split; [|done].
      by apply (si_blocked _ _ _ _ Hi c i).
  - intros i Hb. destruct (Hf i) as (_ & -> & ->). destruct (si_slots _ _ _ _ Hi i Hb) as (? & ? & ?).
    split; [done|]. split; [done|]. destruct (decide (i = n)) as [->|]; [done|by rewrite Hsto].
  - intros i. destruct (Hf i) as (_ & -> & ->). rewrite Hnid. apply Hi.
  - intros i Hs. destruct (Hf i) as (_ & -> & ->). intros Hn.
    assert (i ≠ n) as Hin by (by intros ->). rewrite Hsto by done.
    destruct (si_cleared _ _ _ _ Hi i Hs Hn) as (Hon & ? & ?). split; [|done].
    apply (on_rq_zero s s' Q1 Q2); [apply Hi|done|done|by eauto|done].
  - intros i Hs Hst. assert (i ≠ n) as Hin by (intros ->; by rewrite Hstn in Hst). rewrite Hsto in Hst by done.
    apply (on_rq_zero s s' Q1 Q2); [apply Hi|done|done|by eauto|]. by apply (si_reaping _ _ _ _ Hi).
  - intros i j Hsi Hsj. destruct (Hf i) as (_ & -> & ->), (Hf j) as (_ & -> & ->). by apply (si_ids _ _ _ _ Hi).
  - destruct (si_list _ _ _ _ Hi) as [? Hcirc]. split; [done|]. intros k x Hx.
    destruct (Hf x) as (-> & _). by apply Hcirc.
  - intros i Hin. destruct (Hf i) as (_ & _ & ->). destruct (si_inlist _ _ _ _ Hi i Hin) as (? & ? & ?).
    split; [done|]. split; [done|]. destruct (decide (i = n)) as [->|]; [by rewrite Hstn|by rewrite Hsto].
  - intros i Hs. destruct (Hf i) as (_ & _ & ->). intros Hn Hst.
    destruct (decide (i = n)) as [->|]; [done|]. rewrite Hsto in Hst by done. by apply (si_all _ _ _ _ Hi).
  - rewrite Hnid. apply Hi.
Qed.

(** ** The outgoing task

    [schedule] consumes a pending kill, puts a task that still runs at the end
    of the queue of its CPU, and takes the task off the CPU. *)

Definition consumed (t : task) : task :=
  if (4 <=? id t) && negb (kill_pending t =? 0)
  then t <| kill_pending := 0 |> <| state := TASK_STATE_DEAD |> else t.

Definition put_back (t : task) : task :=
  let t := consumed t in
  if (4 <=? id t) && (state t =? TASK_STATE_RUNNING) then t <| state := TASK_STATE_READY |> else t.

Lemma consumed_id t : id (consumed t) = id t.
Proof. unfold consumed. by case_match. Qed.

(** The queues once the outgoing task is put back. *)
Definition queues_back (Q : qs) s cpu prev : qs :=
  if (4 <=? id (tk s prev)) && (state (consumed (tk s prev)) =? TASK_STATE_RUNNING)
     && (on_rq (tk s prev) =? 0)
  then qupd Q cpu (Q cpu ++ [prev]) else Q.

Lemma queues_back_sub Q s cpu prev c i : i ≠ prev → i ∈ queues_back Q s cpu prev c → i ∈ Q c.
Proof.
  intros Hne. unfold queues_back, qupd. destruct (_ && _); [|done]. case_decide; [subst|done]. set_solver.
Qed.

(** Queueing a task on a given CPU. *)
Lemma enqueue_inv hole L Q s cpu i :
  sched_inv hole L Q s → cpu_ok cpu = true → slot_ok i = true → 4 ≤ id (tk s i) →
  (∀ c, cpu_ok c = true → curr s c = Some i → st s i = TASK_STATE_READY → hole c) →
  st s i ≠ TASK_STATE_REAPING →
  wp (sched_rq_enqueue_locked (Some i) cpu) (λ _ s',
    sched_inv hole L (placed Q s cpu i) s' ∧ rq_frame s s' ∧ next_enqueue_cpu s' = next_enqueue_cpu s) s.
Proof.
  intros Hi Hc Hs Hid Hh Hre. destruct (inv_slot_id _ _ _ _ _ Hi Hs Hid) as [_ Hn].
  eapply wp_mono; [by apply (rq_enqueue_spec s Q cpu i); [apply Hi|..]|]. intros [] s' Hpost.
  unfold placed. destruct (decide (4 ≤ id (tk s i) ∧ on_rq (tk s i) = 0)) as [[_ Hon]|Hno].
  2: { subst s'. replace (on_rq (tk s i) =? 0) with false; [done|]. symmetry. apply Z.eqb_neq. tauto. }
  destruct Hpost as (Hr & Hf & Hq). rewrite Hon. cbn [Z.eqb]. split; [|done].
  assert (∀ c j, cpu_ok c = true → j ≠ i → j ∈ qupd Q cpu (Q cpu ++ [i]) c → j ∈ Q c) as Hsub.
  { intros c j _ Hj. unfold qupd. destruct (decide (c = cpu)) as [->|]; [|done]. set_solver. }
  apply (inv_transport hole hole L Q _ s s'); try done.
  - rewrite (rf_env _ _ Hf). apply Hi.
  - rewrite Hq. apply Hi.
  - exact (rf_cur _ _ Hf).
  - exact (rf_next_id _ _ Hf).
  - intros j. unfold sview. by rewrite (rf_nexts s s'), (rf_id s s'), (rf_name s s'), (rf_ccpu s s').
  - intros j Hj Hor. eapply (on_rq_zero s s'); [apply Hi|exact Hr|done|].
    intros c Hok Hin. exists c. split; [done|]. apply Hsub; [done| |done].
    intros ->. destruct Hor as [?|Hor]; [done|]. unfold st in Hor. by rewrite (rf_state s s') in Hor.
  - intros j Hb. unfold st. rewrite (rf_state s s') by done. by apply (si_slots _ _ _ _ Hi).
  - intros j. unfold st. by rewrite (rf_state s s').
  - intros c j c' Hok Hok' Hin. unfold st. rewrite (rf_state s s') by done. intros Hst Hcu.
    destruct (decide (j = i)) as [->|]; [by apply Hh|]. apply (si_ready _ _ _ _ Hi c j c'); auto.
  - intros c j Hok. unfold st. rewrite (rf_state s s') by done. by apply (si_blocked _ _ _ _ Hi).
Qed.

(** [s'] differs from [s] in task [i], which is [t], and in the queues. *)
Record slot_frame s s' (i : Z) (t : task) : Prop := {
  sf_env : s_env s' = s_env s;
  sf_cur : cur_task s' = cur_task s;
  sf_nid : next_task_id s' = next_task_id s;
  sf_enq : next_enqueue_cpu s' = next_enqueue_cpu s;
  sf_tk : ∀ j, core (tk s' j) = if decide (j = i) then core t else core (tk s j);
}.

Lemma slot_frame_upd s i t : slot_frame s (s <| tasks := <[i := t]> (tasks s) |>) i t.
Proof.
  split; try done. intros j. rewrite tk_upd.
  destruct (decide (i = j)) as [->|]; [by rewrite decide_True|by rewrite decide_False by congruence].
Qed.

Lemma slot_frame_refl s i : slot_frame s s i (tk s i).
Proof. split; try done. intros j. by destruct (decide (j = i)) as [->|]. Qed.

Lemma slot_frame_trans s s1 s2 i t t' : slot_frame s s1 i t → slot_frame s1 s2 i t' → slot_frame s s2 i t'.
Proof.
  intros [] []. split; try congruence. intros j. rewrite sf_tk1, sf_tk0. by destruct (decide (j = i)).
Qed.

Lemma slot_frame_rq s s' i : rq_frame s s' → next_enqueue_cpu s' = next_enqueue_cpu s → slot_frame s s' i (tk s i).
Proof.
  intros [] Hq. split; try done. intros j. rewrite rf_core. by destruct (decide (j = i)) as [->|].
Qed.

Lemma slot_frame_core s s' i t t' : slot_frame s s' i t → core t = core t' → slot_frame s s' i t'.
Proof. intros [] Ht. split; try done. intros j. rewrite sf_tk0. by rewrite Ht. Qed.

(** Consuming a pending kill. *)
Lemma consume_inv hole L Q s i :
  sched_inv hole L Q s → slot_ok i = true → st s i ≠ TASK_STATE_REAPING →
  wp (whenM ((4 <=? id (tk s i)) && negb (kill_pending (tk s i) =? 0))
        (upd_task (Some i) (λ x, x <| kill_pending := 0 |> <| state := TASK_STATE_DEAD |>)))
     (λ _ s', sched_inv hole L Q s' ∧ slot_frame s s' i (consumed (tk s i)) ∧ on_rq (tk s' i) = on_rq (tk s i)) s.
Proof.
  intros Hi Hs Hre. unfold consumed. destruct (_ && _) eqn:Hk; cbn [whenM].
  - apply andb_true_iff in Hk as [Hid%Z.leb_le _]. apply wp_upd_task; [done|].
    split; [|split; [apply slot_frame_upd|by rewrite tk_upd, decide_True]].
    by apply (inv_set_final hole L Q s i (λ x, x <| kill_pending := 0 |> <| state := TASK_STATE_DEAD |>)).
  - apply wp_ret. split; [done|]. split; [apply slot_frame_refl|done].
Qed.

(** Putting a running task back at the end of the queue of its CPU. *)
Lemma put_back_inv hole L Q s cpu i :
  sched_inv hole L Q s → hole cpu → cpu_ok cpu = true → curr s cpu = Some i → slot_ok i = true → 4 ≤ id (tk s i) →
  st s i ≠ TASK_STATE_REAPING →
  wp (whenM (state (tk s i) =? TASK_STATE_RUNNING)
       (upd_task (Some i) (λ x, x <| state := TASK_STATE_READY |>) ;;
        sched_rq_enqueue_locked (Some i) cpu))
     (λ _ s', sched_inv hole L
          (if (state (tk s i) =? TASK_STATE_RUNNING) && (on_rq (tk s i) =? 0)
           then qupd Q cpu (Q cpu ++ [i]) else Q) s' ∧
        slot_frame s s' i (if state (tk s i) =? TASK_STATE_RUNNING
                           then (tk s i) <| state := TASK_STATE_READY |> else tk s i)) s.
Proof.
  intros Hi Hop Hc Hcu Hs Hid Hre. destruct (state (tk s i) =? TASK_STATE_RUNNING) eqn:Hr; cbn [whenM andb].
  2: { apply wp_ret. split; [done|apply slot_frame_refl]. }
  set (f := λ x : task, x <| state := TASK_STATE_READY |>). wp_step. apply wp_upd_task; [done|].
  match goal with |- wp _ _ ?x => set (s1 := x) end.
  assert (tk s1 i = f (tk s i)) as Hti by (unfold s1; by rewrite tk_upd, decide_True).
  destruct (inv_slot_id _ _ _ _ _ Hi Hs Hid) as [Hge _].
  assert (∀ c, cpu_ok c = true → curr s c = Some i → hole c) as Honly.
  { intros c Hok Hcu'. by rewrite (si_excl _ _ _ _ Hi c cpu i). }
  assert (sched_inv hole L Q s1) as Hi1.
  { apply (inv_upd_task hole hole L Q s i (f (tk s i))); try done; [lia|].
    intros _ _ c c' _ Hok' _. by apply Honly. }
  eapply wp_mono; [apply (enqueue_inv hole L Q s1 cpu i); try done; [by rewrite Hti|..]|].
  { intros c Hok Hcu' _. by apply Honly. }
  { unfold st. by rewrite Hti. }
  intros _ s2 (Hi2 & Hf2 & Hq2). unfold placed in Hi2. rewrite Hti in Hi2. split; [exact Hi2|].
  eapply slot_frame_trans; [apply slot_frame_upd|].
  eapply slot_frame_core; [by apply (slot_frame_rq s1 s2 i)|]. by rewrite Hti.
Qed.

(** ** [schedule] *)

(** The states once the outgoing task is put back. *)
Definition states_back s prev (j : Z) : Z := if decide (j = prev) then state (put_back (tk s prev)) else st s j.

(** The task [schedule] picks, and the queues it leaves. *)
Definition pick_back (Q : qs) s cpu prev : tptr * qs :=
  picks (states_back s prev) (queues_back Q s cpu prev) cpu.

(** What [schedule] does on [cpu], with [prev] current. *)
Record switched hole L Q s cpu prev s' (n : Z) : Prop := {
  sw_inv : sched_inv (others hole cpu) L (pick_back Q s cpu prev).2 s';
  sw_pick : n = default cpu (pick_back Q s cpu prev).1;
  sw_out : ∀ c, cpu_ok c = true → n ∉ (pick_back Q s cpu prev).2 c;
  sw_held : sheld s' = sheld s;
  sw_cur : ∀ c, curr s' c = if decide (c = cpu) then Some n else curr s c;
  sw_run : st s' n = TASK_STATE_RUNNING ∧ current_cpu (tk s' n) = cpu;
  sw_states : ∀ j, j ≠ n → st s' j = states_back s prev j;
  sw_elig : n = cpu ∨ (states_back s prev n = TASK_STATE_READY ∧
    ∃ c, cpu_ok c = true ∧ n ∈ queues_back Q s cpu prev c);
  sw_off : 4 ≤ id (tk s prev) → n ≠ prev → current_cpu (tk s' prev) = TASK_NO_CPU;
}.

(** The first half: the outgoing task leaves the CPU. *)
Definition schedule_out (cpu : Z) (prev : tptr) : M (sstate P) unit :=
  p ← get_task prev;
  whenM ((4 <=? id p) && negb (kill_pending p =? 0))
    (upd_task prev (λ x, x <| kill_pending := 0 |> <| state := TASK_STATE_DEAD |>)) ;;
  upd_rq cpu (λ q, q <| need_resched := 0 |>) ;;
  p ← get_task prev;
  whenM (SCHED_MAX_CPUS <=? id p)
    (whenM (state p =? TASK_STATE_RUNNING)
       (upd_task prev (λ x, x <| state := TASK_STATE_READY |>) ;;
        sched_rq_enqueue_locked prev cpu) ;;
     upd_task prev (λ x, x <| current_cpu := TASK_NO_CPU |>)).

(** The second half: the incoming task takes it. *)
Definition schedule_in (cpu : Z) (prev : tptr) : M (sstate P) unit :=
  nxt ← sched_pick_next_locked cpu;
  let nxt := if is_null nxt then Some cpu else nxt in
  upd_task nxt (λ x, x <| state := TASK_STATE_RUNNING |> <| current_cpu := cpu |>) ;;
  if ptr_eq nxt prev then unlock_sched else
  n ← get_task nxt;
  modify (λ s, match nxt with
               | Some i => s <| cur_task := <[cpu := i]> (cur_task s) |>
               | None => s
               end) ;;
  modify (λ s, s <| switch_count := <[cpu := u64 (default 0 (switch_count s !! cpu) + 1)]> (switch_count s) |>) ;;
  up (S := P) (mmu_context_switch cpu (mm n)) ;;
  unlock_sched.

Lemma schedule_locked_split cpu : cpu_ok cpu = true → ∀ (Post : unit → sstate P → Prop) s,
  wp (lock_sched ;; prev ← arch_get_current_task cpu; schedule_out cpu prev ;; schedule_in cpu prev) Post s →
  wp (schedule_locked cpu) Post s.
Proof.
  intros Hc Post s HP. apply cpu_ok_spec in Hc. unfold schedule_locked, SCHED_MAX_CPUS.
  rewrite wp_bind in HP |- *. eapply wp_mono; [exact HP|]. intros [] s1 H1. bfalse (4 <=? cpu).
  rewrite wp_bind in H1 |- *. eapply wp_mono; [exact H1|]. intros prev s2 H2.
  unfold schedule_out in H2. rewrite !wp_bind in H2. wp_step. eapply wp_mono; [exact H2|]. intros p s3 H3.
  rewrite wp_bind in H3. wp_step. eapply wp_mono; [exact H3|]. intros [] s4 H4.
  rewrite wp_bind in H4. wp_step. eapply wp_mono; [exact H4|]. intros [] s5 H5.
  rewrite wp_bind in H5. wp_step. eapply wp_mono; [exact H5|]. intros p' s6 H6.
  wp_step. eapply wp_mono; [exact H6|]. intros [] s7 H7. exact H7.
Qed.

(** After the first half the invariant holds but for the CPU of the outgoing
    task, which the state records in [current_cpu]. *)
Lemma schedule_out_spec hole L Q s cpu prev :
  sched_inv hole L Q s → hole cpu → cpu_ok cpu = true → curr s cpu = Some prev →
  wp (schedule_out cpu (Some prev)) (λ _ s', ∃ s1,
    sched_inv hole L (queues_back Q s cpu prev) s1 ∧ slot_frame s s1 prev (put_back (tk s prev)) ∧
    (s' = s1 ∨ 4 ≤ id (tk s prev) ∧ s' = s1 <| tasks := <[prev := (tk s1 prev) <| current_cpu := TASK_NO_CPU |>]> (tasks s1) |>) ∧
    (4 ≤ id (tk s prev) → current_cpu (tk s' prev) = TASK_NO_CPU)) s.
Proof.
  intros Hi Hop Hc Hcu. destruct (inv_current _ _ _ _ _ Hi Hc) as (prev' & Hcu' & Hs & _ & Hre).
  rewrite Hcu in Hcu'. injection Hcu' as <-.
  unfold schedule_out. wp_step. apply wp_get_task; [done|]. wp_step.
  eapply wp_mono; [by apply (consume_inv hole L Q s prev)|]. intros _ s1 (Hi1 & Hf1 & Hon1).
  wp_step. apply wp_upd_rq; [done|]. set (s2 := s1 <| run_queues := _ |>).
  assert (sched_inv hole L Q s2) as Hi2 by (by apply inv_rq_fields).
  assert (slot_frame s s2 prev (consumed (tk s prev))) as Hf2 by (destruct Hf1; by split).
  assert (tk s2 prev = tk s1 prev) as Ht21 by done.
  wp_step. apply wp_get_task; [done|]. unfold SCHED_MAX_CPUS.
  pose proof (sf_tk _ _ _ _ Hf2 prev) as Hcore. rewrite decide_True in Hcore by done.
  pose proof (core_fields _ _ Hcore) as (Hid2 & Hst2 & _).
  rewrite consumed_id in Hid2. rewrite Hid2. unfold queues_back, put_back. rewrite consumed_id.
  destruct (4 <=? id (tk s prev)) eqn:Hid; cbn [whenM andb].
  2: { apply wp_ret. exists s2. apply Z.leb_gt in Hid. split; [done|]. split; [done|]. split; [by left|lia]. }
  apply Z.leb_le in Hid. wp_step.
  assert (curr s2 cpu = Some prev) as Hcu2 by (unfold curr; by rewrite (sf_cur _ _ _ _ Hf2)).
  eapply wp_mono; [apply (put_back_inv hole L Q s2 cpu prev); try done; [by rewrite Hid2|]|].
  { unfold st. rewrite Hst2. unfold consumed. by case_match. }
  intros _ s3 (Hi3 & Hf3). rewrite Hst2, Ht21, Hon1 in Hi3. apply wp_upd_task; [done|].
  exists s3. split; [exact Hi3|]. split.
  - eapply slot_frame_trans; [exact Hf2|]. eapply slot_frame_core; [exact Hf3|]. rewrite Hst2.
    destruct (state (consumed (tk s prev)) =? TASK_STATE_RUNNING); [|done]. rewrite !core_state. by rewrite Hcore.
  - split; [by right|]. intros _. by rewrite tk_upd, decide_True.
Qed.

(** The state between the halves. *)
Definition off_cpu s1 s2 prev : Prop :=
  s2 = s1 ∨ s2 = s1 <| tasks := <[prev := (tk s1 prev) <| current_cpu := TASK_NO_CPU |>]> (tasks s1) |>.

Lemma off_cpu_fields s1 s2 prev j : off_cpu s1 s2 prev →
  rq_view (tk s2 j) = rq_view (tk s1 j) ∧ next (tk s2 j) = next (tk s1 j) ∧ id (tk s2 j) = id (tk s1 j) ∧
  name (tk s2 j) = name (tk s1 j) ∧ st s2 j = st s1 j ∧ (j ≠ prev → current_cpu (tk s2 j) = current_cpu (tk s1 j)).
Proof.
  intros [-> | ->]; [done|]. unfold st. rewrite tk_upd. destruct (decide (prev = j)) as [->|]; done.
Qed.

Lemma off_cpu_rest s1 s2 prev : off_cpu s1 s2 prev →
  s_env s2 = s_env s1 ∧ run_queues s2 = run_queues s1 ∧ cur_task s2 = cur_task s1 ∧
  next_task_id s2 = next_task_id s1 ∧ next_enqueue_cpu s2 = next_enqueue_cpu s1.
Proof. by intros [-> | ->]. Qed.

Lemma can_lock_held held : can_lock L_sched held = true →
  ∀ l, rank L_sched < rank l → can_lock l (L_sched :: held) = true.
Proof. intros Hl l Hr. by apply can_lock_above. Qed.

(** The last steps, once the incoming task is marked. *)
Lemma switch_to_spec cpu held prev n s (Post : unit → sstate P → Prop) :
  ps_ok (s_env s) → sheld s = L_sched :: held → can_lock L_sched held = true → slot_ok n = true →
  curr s cpu = Some prev →
  (∀ s', ps_ok (s_env s') → sheld s' = held → tasks s' = tasks s → run_queues s' = run_queues s →
     next_task_id s' = next_task_id s → next_enqueue_cpu s' = next_enqueue_cpu s →
     (∀ c, curr s' c = if decide (c = cpu) then Some n else curr s c) → Post () s') →
  wp (if ptr_eq (Some n) (Some prev) then unlock_sched else
      t ← get_task (Some n);
      modify (λ s, match Some n with
                   | Some i => s <| cur_task := <[cpu := i]> (cur_task s) |>
                   | None => s
                   end) ;;
      modify (λ s, s <| switch_count := <[cpu := u64 (default 0 (switch_count s !! cpu) + 1)]> (switch_count s) |>) ;;
      up (S := P) (mmu_context_switch cpu (mm t)) ;;
      unlock_sched) Post s.
Proof.
  intros Hok Hh Hl Hn Hcu HP. rewrite ptr_eq_some. destruct (decide (n = prev)) as [->|Hne].
  - rewrite bool_decide_true by done. apply (wp_unlock_sched held); [done|]. apply HP; try done.
    + by apply ps_ok_mach.
    + apply sheld_to_held.
    + intros c. by destruct (decide (c = cpu)) as [->|].
  - rewrite bool_decide_false by done. wp_step. apply wp_get_task; [done|]. do 4 wp_step. cbn beta iota.
    match goal with |- wp _ _ ?x => set (s1 := x) end. wp_step. rewrite wp_up.
    eapply wp_mono; [apply se_switch_spec; [exact Hok|]|].
    { change (m_held (sub_get (sub_get s1))) with (sheld s). rewrite Hh. by apply can_lock_held. }
    intros [] p' [Hok' Hh']. change (m_held (sub_get (sub_get s1))) with (sheld s) in Hh'. rewrite Hh in Hh'.
    apply (wp_unlock_sched held); [exact Hh'|]. apply HP; try done.
    + by apply ps_ok_mach.
    + apply sheld_to_held.
    + intros c. unfold curr. cbn. destruct (decide (c = cpu)) as [->|]; [by rewrite lookup_insert_eq|by rewrite lookup_insert_ne].
Qed.

Lemma schedule_open_spec hole L Q s cpu prev :
  sched_inv hole L Q s → hole cpu → unclaimed Q s cpu → can_lock L_sched (sheld s) = true → cpu_ok cpu = true → curr s cpu = Some prev →
  wp (schedule_locked cpu) (λ _ s', ∃ n, switched hole L Q s cpu prev s' n) s.
Proof.
  intros Hi Hop Hun Hl Hc Hcu. apply schedule_locked_split; [done|].
  eapply wp_locked; [done|done|]. intros s1 Hi1 Hh1 Ht1 Hc1 _.
  assert (∀ j, tk s1 j = tk s j) as Htk1 by (intros j; by apply tk_tasks).
  assert (curr s1 cpu = Some prev) as Hcu1 by (unfold curr; by rewrite Hc1).
  unfold arch_get_current_task. do 2 wp_step. fold (curr s1 cpu). rewrite Hcu1. wp_step.
  eapply wp_mono; [by apply (schedule_out_spec hole L Q s1 cpu prev)|].
  intros _ s3 (s2 & Hi2 & Hf2 & Hoff & Hoffc).
  assert (off_cpu s2 s3 prev) as Hof by (destruct Hoff as [?|[_ ?]]; [by left|by right]).
  pose proof (λ j, off_cpu_fields s2 s3 prev j Hof) as Hff. destruct (off_cpu_rest _ _ _ Hof) as (E1 & E2 & E3 & E4 & E5).
  assert (queues_back Q s1 cpu prev = queues_back Q s cpu prev) as HQ by (unfold queues_back; by rewrite Htk1).
  rewrite HQ in Hi2. rewrite Htk1 in Hf2. set (Q1 := queues_back Q s cpu prev) in *.
  assert (∀ j, st s2 j = states_back s prev j) as Hst2.
  { intros j. unfold st, states_back. pose proof (sf_tk _ _ _ _ Hf2 j) as Hcj.
    destruct (decide (j = prev)); apply core_fields in Hcj as (_ & -> & _); [done|]. unfold st. by rewrite Htk1. }
  assert (∀ j, st s3 j = states_back s prev j) as Hst3 by (intros j; rewrite <- Hst2; apply Hff).
  assert (rq_rep s3 Q1) as Hr3.
  { apply (rq_rep_same s2); [apply Hi2|intros j; apply Hff|]. intros c. unfold rq_at. by rewrite E2. }
  assert (∀ c, curr s2 c = curr s c) as Hcu2 by (intros c; unfold curr; by rewrite (sf_cur _ _ _ _ Hf2), Hc1).
  assert (unclaimed Q1 s2 cpu) as Hun1.
  { intros c i c' Hok Hok' Hin. rewrite Hst2, Hcu2. unfold states_back. destruct (decide (i = prev)) as [->|Hip].
    - intros _ Hcu'. by apply (si_excl _ _ _ _ Hi c' cpu prev).
    - apply (Hun c); [done|done|]. by apply (queues_back_sub Q s cpu prev c). }
  unfold schedule_in. wp_step. eapply wp_mono; [by apply (pick_next_spec s3 Q1 cpu)|].
  intros r s4 [Hr Hpk]. rewrite (picks_ext _ (states_back s prev)) in Hr, Hpk by done.
  change (picks (states_back s prev) Q1 cpu) with (pick_back Q s cpu prev) in Hr, Hpk. set (Q2 := (pick_back Q s cpu prev).2) in *.
  set (n := match r with Some i => i | None => cpu end).
  assert ((if is_null r then Some cpu else r) = Some n) as Hn by (unfold n; by destruct r).
  rewrite Hn.
  assert (eligible Q1 s2 cpu n) as Hel.
  { unfold n. destruct r as [i|]; [right|by left]. destruct (pk_some _ _ _ _ _ _ Hpk i eq_refl) as (Hin & Hst & _).
    split; [|done]. rewrite Hst2. by rewrite <- Hst3. }
  destruct (eligible_facts _ _ _ _ _ _ Hi2 Hun1 Hc Hel) as (Hns & _ & Hnidle & _).
  assert (∀ c, cpu_ok c = true → n ∉ Q2 c) as HnQ.
  { intros c Hok. unfold n. destruct r as [i|]; [by apply (pk_some _ _ _ _ _ _ Hpk i eq_refl)|].
    intros Hin. apply (pk_sub _ _ _ _ _ _ Hpk c cpu Hok) in Hin.
    destruct (rr_in _ _ Hr3 c cpu Hok Hin) as [_ _ _ Hid]. apply cpu_ok_spec in Hc as Hcb.
    destruct (Hff cpu) as (_ & _ & Hid' & _). rewrite Hid' in Hid.
    destruct (si_slots _ _ _ _ Hi2 cpu Hcb). lia. }
  pose proof (pk_frame _ _ _ _ _ _ Hpk) as Hf4.
  wp_step. apply wp_upd_task; [done|]. set (g := λ x : task, x <| state := TASK_STATE_RUNNING |> <| current_cpu := cpu |>).
  match goal with |- wp ?m ?R _ => change (wp m R (s4 <| tasks := <[n := g (tk s4 n)]> (tasks s4) |>)) end.
  set (s5 := s4 <| tasks := _ |>).
  assert (∀ j, tk s5 j = if decide (n = j) then g (tk s4 n) else tk s4 j) as Htk5 by (intros j; apply tk_upd).
  assert (curr s5 cpu = Some prev) as Hcu5.
  { change (curr s5 cpu) with (curr s4 cpu). unfold curr. rewrite (rf_cur _ _ Hf4), E3, (sf_cur _ _ _ _ Hf2). exact Hcu1. }
  apply (switch_to_spec cpu (sheld s) prev n s5); try done.
  { change (ps_ok (s_env s4)). rewrite (rf_env _ _ Hf4), E1. apply Hi2. }
  { change (sheld s5) with (sheld s4). unfold sheld, smachine. rewrite (rf_env _ _ Hf4), E1, (sf_env _ _ _ _ Hf2). exact Hh1. }
  intros s6 Hok6 Hh6 Ht6 Hrq6 Hn6 Hq6 Hc6.
  assert (∀ j, tk s6 j = tk s5 j) as Htk6 by (intros j; by apply tk_tasks).
  assert (∀ c, curr s6 c = if decide (c = cpu) then Some n else curr s2 c) as Hc6'.
  { intros c. rewrite Hc6. destruct (decide (c = cpu)); [done|]. change (curr s5 c) with (curr s4 c).
    unfold curr. by rewrite (rf_cur _ _ Hf4), E3. }
  assert (∀ j, core (tk s4 j) = core (tk s3 j)) as Hc43 by apply Hf4.
  assert (st s6 n = TASK_STATE_RUNNING ∧ current_cpu (tk s6 n) = cpu) as [Hrun Hcpu].
  { unfold st. rewrite Htk6, Htk5, decide_True by done. done. }
  assert (∀ j, j ≠ n → st s6 j = states_back s prev j) as Hst6.
  { intros j Hj. unfold st. rewrite Htk6, Htk5, decide_False by done. rewrite <- Hst3.
    specialize (Hc43 j). by apply core_fields in Hc43 as (_ & -> & _). }
  exists n. split.
  - eapply (inv_switch hole cpu L Q1 Q2 s2 s6 prev n); try done.
    + by rewrite Hcu2.
    + apply (rq_rep_same s4); [exact (pk_rep _ _ _ _ _ _ Hpk)| |].
      * intros j. rewrite Htk6, Htk5. by destruct (decide (n = j)) as [<-|].
      * intros c. unfold rq_at. by rewrite Hrq6.
    + apply Hpk.
    + rewrite Hq6. change (next_enqueue_cpu s5) with (next_enqueue_cpu s4). by rewrite (pk_enq _ _ _ _ _ _ Hpk), E5.
    + rewrite Hn6. change (next_task_id s5) with (next_task_id s4). by rewrite (rf_next_id _ _ Hf4), E4.
    + intros j. destruct (Hff j) as (_ & <- & <- & <- & _). specialize (Hc43 j). rewrite Htk6, Htk5.
      apply core_fields in Hc43 as (? & _ & ? & _ & _ & _ & ? & _).
      destruct (decide (n = j)) as [<-|]; done.
    + intros j Hj. rewrite Hst6 by done. by rewrite Hst2.
    + intros j Hj Hjp. rewrite Htk6, Htk5, decide_False by done.
      destruct (Hff j) as (_ & _ & _ & _ & _ & Hcc). rewrite <- Hcc by done.
      specialize (Hc43 j). by apply core_fields in Hc43 as (_ & _ & _ & -> & _).
  - unfold n. rewrite <- Hr. by destruct r.
  - done.
  - done.
  - intros c. rewrite Hc6'. destruct (decide (c = cpu)); [done|]. unfold curr.
    by rewrite (sf_cur _ _ _ _ Hf2), Hc1.
  - done.
  - done.
  - destruct Hel as [?|[Hst Hin]]; [by left|right]. split; [by rewrite <- Hst2|done].
  - intros Hid Hnp. rewrite Htk6, Htk5, decide_False by done. specialize (Hc43 prev).
    apply core_fields in Hc43 as (_ & _ & _ & -> & _). apply Hoffc. by rewrite Htk1.
Qed.

Lemma schedule_locked_spec hole L Q s cpu prev :
  sched_inv hole L Q s → unclaimed Q s cpu → can_lock L_sched (sheld s) = true → cpu_ok cpu = true →
  curr s cpu = Some prev →
  wp (schedule_locked cpu) (λ _ s', ∃ n, switched hole L Q s cpu prev s' n) s.
Proof.
  intros Hi Hun Hl Hc Hcu. eapply wp_mono.
  - apply (schedule_open_spec (opened hole cpu) L Q s cpu prev); try done; [|by right].
    apply (inv_weaken hole); [|done]. intros c ?. by left.
  - intros [] s' [n [Hi' ? ? ? ? ? ? ? ?]]. exists n. split; try done.
    apply (inv_weaken (others (opened hole cpu) cpu)); [|done]. intros c [[?|?] ?]; [done|done].
Qed.

End switch.
