(* ===== verification/SchedSys.v ===== *)
(** * Start-up of the scheduler, and the scheduler as a transition system. *)

From S2P Require Import Prelude Machine PageAllocSpec Heap HeapSpec Task WaitQueue Sched SchedQueue SchedInv SchedOps SchedLife SchedCreate SchedReap SchedSwitch.

Open Scope kernel_scope.

Section boot.
Context {P : Type} `{SchedEnvLaws P}.
Implicit Types s : sstate P.

(** ** [sched_init] *)

(** An idle task after initialisation. *)
Record idle_task (t : task) (i : Z) : Prop := {
  it_id : id t = i;
  it_state : state t = TASK_STATE_RUNNING;
  it_cpu : current_cpu t = i;
  it_on : on_rq t = 0;
  it_name : name t ≠ None;
  it_next : next t = Some ((i + 1) mod 4);
}.

Record init_state s : Prop := {
  is_ok : ps_ok (s_env s);
  is_held : sheld s = [];
  is_rqs : ∀ c, cpu_ok c = true → rq_at s c = sched_rq_init;
  is_enq : next_enqueue_cpu s = 0;
  is_nid : next_task_id s = 4;
  is_idle : ∀ i, 0 ≤ i < 4 → idle_task (tk s i) i;
  is_free : ∀ i, slot_ok i = true → 4 ≤ i → tk s i = task0;
}.

Lemma init_rqs s :
  wp (forM_ (upto 0 SCHED_MAX_CPUS) (λ cpu,
        upd_rq cpu (λ _, sched_rq_init) ;;
        modify (λ s, s <| switch_count := <[cpu := 0]> (switch_count s) |>)))
     (λ _ s', (∀ c, cpu_ok c = true → rq_at s' c = sched_rq_init) ∧ s_env s' = s_env s ∧
        next_enqueue_cpu s' = next_enqueue_cpu s ∧ next_task_id s' = next_task_id s ∧ cur_task s' = cur_task s) s.
Proof.
  set (I := λ (pre : list Z) (s' : sstate P), (∀ c, c ∈ pre → rq_at s' c = sched_rq_init) ∧ s_env s' = s_env s ∧
        next_enqueue_cpu s' = next_enqueue_cpu s ∧ next_task_id s' = next_task_id s ∧ cur_task s' = cur_task s).
  eapply wp_mono; [apply (wp_forM _ _ I)|].
  - split; [by intros c ?%not_elem_of_nil|done].
  - intros pre c post s' Hspl (Hpre & Hrest). assert (c ∈ upto 0 SCHED_MAX_CPUS) as Hc by (rewrite Hspl; set_solver).
    rewrite upto_seqZ, elem_of_seqZ in Hc. wp_step. apply wp_upd_rq; [apply cpu_ok_spec; exact Hc|]. wp_step.
    split; [|done]. intros c' [Hc'| ->%list_elem_of_singleton]%elem_of_app.
    + match goal with |- rq_at ?x c' = _ => change (rq_at x c') with (rq_at (s' <| run_queues := <[c := sched_rq_init]> (run_queues s') |>) c') end.
      rewrite rq_at_upd. destruct (decide (c = c')); [done|by apply Hpre].
    + match goal with |- rq_at ?x c = _ => change (rq_at x c) with (rq_at (s' <| run_queues := <[c := sched_rq_init]> (run_queues s') |>) c) end.
      by rewrite rq_at_upd, decide_True.
  - intros [] s' (Hall & Hrest). split; [|done]. intros c Hc. apply Hall. rewrite upto_seqZ, elem_of_seqZ.
    by apply cpu_ok_spec in Hc.
Qed.

Lemma init_clear s :
  wp (forM_ all_slots (λ i, sched_clear_task (Some i)))
     (λ _ s', (∀ i, slot_ok i = true → tk s' i = task0) ∧ s_env s' = s_env s ∧ run_queues s' = run_queues s ∧
        next_enqueue_cpu s' = next_enqueue_cpu s ∧ next_task_id s' = next_task_id s ∧ cur_task s' = cur_task s) s.
Proof.
  set (I := λ (pre : list Z) (s' : sstate P), (∀ i, i ∈ pre → tk s' i = task0) ∧ s_env s' = s_env s ∧
        run_queues s' = run_queues s ∧
        next_enqueue_cpu s' = next_enqueue_cpu s ∧ next_task_id s' = next_task_id s ∧ cur_task s' = cur_task s).
  eapply wp_mono; [apply (wp_forM _ _ I)|].
  - split; [by intros c ?%not_elem_of_nil|done].
  - intros pre i post s' Hspl (Hpre & Hrest).
    assert (slot_ok i = true) as Hi by (apply all_slots_spec; rewrite Hspl; set_solver).
    unfold sched_clear_task. rewrite is_null_some. apply wp_upd_task; [done|]. split; [|done].
    intros j Hj. rewrite tk_upd. destruct (decide (i = j)); [done|]. apply Hpre. set_solver.
  - intros [] s' (Hall & Hrest). split; [|done]. intros i Hi. apply Hall. by apply all_slots_spec.
Qed.

Definition init_idle (i : Z) : M (sstate P) unit :=
  nid ← gets next_task_id;
  modify (λ s, s <| next_task_id := u64 (next_task_id s + 1) |>) ;;
  upd_task (Some i) (λ t, t <| id := nid |> <| state := TASK_STATE_RUNNING |>
    <| current_cpu := i |> <| rq_cpu := i |> <| on_rq := 0 |> <| preempt_count := 0 |>
    <| stack_base := 0 |> <| stack_size := 0 |>) ;;
  _ ← up (S := P) (ps_alloc 1);
  upd_task (Some i) (λ t, t <| name := Some (idle_name i) |>
    <| next := Some ((i + 1) mod 4) |> <| files := ∅ |>).

Lemma init_idle_spec s i :
  slot_ok i = true → next_task_id s = i → ps_ok (s_env s) → can_lock L_page (sheld s) = true →
  wp (init_idle i) (λ _ s', ps_ok (s_env s') ∧ sheld s' = sheld s ∧ run_queues s' = run_queues s ∧
    next_enqueue_cpu s' = next_enqueue_cpu s ∧ cur_task s' = cur_task s ∧ next_task_id s' = i + 1 ∧
    idle_task (tk s' i) i ∧ ∀ j, j ≠ i → tk s' j = tk s j) s.
Proof.
  intros Hi Hn Hok Hl. unfold init_idle. do 4 wp_step. rewrite Hn. wp_step. apply wp_upd_task; [done|].
  match goal with |- wp _ _ ?x => set (s1 := x) end.
  assert (tk s1 i = (tk s i) <| id := i |> <| state := TASK_STATE_RUNNING |>
    <| current_cpu := i |> <| rq_cpu := i |> <| on_rq := 0 |> <| preempt_count := 0 |>
    <| stack_base := 0 |> <| stack_size := 0 |>) as H1i by (unfold s1; by rewrite tk_upd, decide_True).
  assert (∀ j, j ≠ i → tk s1 j = tk s j) as H1j by (intros j Hj; unfold s1; rewrite tk_upd, decide_False by congruence; done).
  assert (next_task_id s1 = i + 1) as Hn1.
  { change (u64 (i + 1) = i + 1). apply slot_ok_spec in Hi. apply u64_small. lia. }
  wp_step. rewrite wp_up. eapply wp_mono; [apply ps_alloc_spec; [done|exact Hok|exact Hl]|].
  intros r p' (Hok' & Hh' & _). apply wp_upd_task; [done|].
  set (s2 := sub_set p' s1). assert (∀ j, tk s2 j = tk s1 j) as Htk2 by done.
  split; [done|]. split; [done|]. do 3 (split; [done|]). split; [done|]. split.
  - rewrite tk_upd, decide_True, Htk2, H1i by done. by split.
  - intros j Hj. rewrite tk_upd, decide_False, Htk2 by congruence. by apply H1j.
Qed.

Lemma sched_init_spec s :
  ps_ok (s_env s) → sheld s = [] →
  wp sched_init (λ _ s', init_state s' ∧ cur_task s' = <[0 := 0]> (cur_task s)) s.
Proof.
  intros Hok Hh. unfold sched_init. do 2 wp_step. wp_step.
  eapply wp_mono; [apply init_rqs|]. intros _ s1 (Hrq1 & He1 & Hq1 & Hn1 & Hc1). wp_step.
  eapply wp_mono; [apply init_clear|]. intros _ s2 (Ht2 & He2 & Hr2 & Hq2 & Hn2 & Hc2). wp_step.
  assert (ps_ok (s_env s2) ∧ sheld s2 = []) as [Hok2 Hh2].
  { unfold sheld, smachine in *. rewrite He2, He1. done. }
  change (∀ i, slot_ok i = true → tk s2 i = task0) in Ht2.
  set (I := λ (pre : list Z) (s' : sstate P), ps_ok (s_env s') ∧ sheld s' = [] ∧ run_queues s' = run_queues s2 ∧
    next_enqueue_cpu s' = 0 ∧ cur_task s' = cur_task s2 ∧ next_task_id s' = Z.of_nat (length pre) ∧
    (∀ i, i ∈ pre → idle_task (tk s' i) i) ∧ (∀ i, slot_ok i = true → i ∉ pre → tk s' i = task0)).
  eapply wp_mono; [apply (wp_forM (upto 0 4) init_idle I)|].
  - split; [done|]. split; [done|]. split; [done|]. split; [by rewrite Hq2, Hq1|]. split; [done|].
    split; [by rewrite Hn2, Hn1|]. split; [by intros i ?%not_elem_of_nil|]. intros i Hi _. by apply Ht2.
  - intros pre i post s' Hspl (A1 & A2 & A3 & A4 & A5 & A6 & A7 & A8).
    assert (i ∈ upto 0 4) as Hi by (rewrite Hspl; set_solver). rewrite upto_seqZ, elem_of_seqZ in Hi.
    assert (i = Z.of_nat (length pre)) as Hlen.
    { assert (upto 0 4 !! length pre = Some i) as Hlk by (rewrite Hspl; by apply list_lookup_middle).
      rewrite upto_seqZ in Hlk. apply lookup_seqZ in Hlk. lia. }
    eapply wp_mono; [apply (init_idle_spec s' i); [apply slot_ok_spec; lia|congruence|done|by rewrite A2]|].
    intros _ s'' (B1 & B2 & B3 & B4 & B5 & B6 & B7 & B8).
    assert (i ∉ pre) as Hnin.
    { apply (NoDup_mid_notin _ _ _ _ Hspl). rewrite upto_seqZ. apply NoDup_seqZ. }
    split; [done|]. split; [congruence|]. split; [congruence|]. split; [congruence|]. split; [congruence|].
    split; [rewrite length_app; cbn [length]; lia|]. split.
    + intros j [Hj| ->%list_elem_of_singleton]%elem_of_app; [|done]. rewrite B8 by (by intros ->). by apply A7.
    + intros j Hj [Hj1 Hj2]%not_elem_of_app. rewrite list_elem_of_singleton in Hj2. rewrite B8 by done. by apply A8.
  - intros [] s3 (A1 & A2 & A3 & A4 & A5 & A6 & A7 & A8). wp_step. split.
    + split; try done.
      * intros c Hc. change (rq_at s3 c = sched_rq_init). unfold rq_at. rewrite A3, Hr2. by apply Hrq1.
      * intros i Hi. apply A7. by rewrite upto_seqZ, elem_of_seqZ.
      * intros i Hs Hi. apply A8; [done|]. rewrite upto_seqZ, elem_of_seqZ. lia.
    + cbn. by rewrite A5, Hc2, Hc1.
Qed.

Lemma init_inv s : init_state s → (∀ c, cpu_ok c = true → curr s c = Some c) →
  sched_inv closed [1; 2; 3] (λ _, []) s.
Proof.
  intros [] Hcur.
  assert (∀ i, i ∈ 0 :: [1; 2; 3] ↔ 0 ≤ i < 4) as Hin.
  { intros i. rewrite !elem_of_cons, elem_of_nil. lia. }
  assert (∀ i, 0 ≤ i < 4 → slot_ok i = true) as Hs by (intros i Hi; apply slot_ok_spec; lia).
  assert (∀ i, slot_ok i = true → on_rq (tk s i) = 0) as Hon.
  { intros i Hi. destruct (decide (4 ≤ i)); [by rewrite is_free0|]. apply slot_ok_spec in Hi.
    destruct (is_idle0 i); [lia|done]. }
  assert (∀ i, slot_ok i = true → name (tk s i) ≠ None → 0 ≤ i < 4) as Hnm.
  { intros i Hi Hn. destruct (decide (4 ≤ i)); [by rewrite is_free0 in Hn|]. apply slot_ok_spec in Hi. lia. }
  split.
  - done.
  - split.
    + intros c Hc. rewrite is_rqs0 by done. apply qrep_nil.
    + intros c Hc. by rewrite is_rqs0.
    + by intros c i _ ?%not_elem_of_nil.
    + intros i Hi. left. by apply Hon.
  - by rewrite is_enq0.
  - intros c Hc. apply cpu_ok_spec in Hc as Hb. exists c. split; [by apply Hcur|]. split; [by apply Hs|by apply Hin].
  - intros c c' i Hc Hc'. rewrite !Hcur by done. congruence.
  - intros c i Hc. rewrite Hcur by done. intros [= <-]. apply cpu_ok_spec in Hc. by destruct (is_idle0 c).
  - intros c i Hc. rewrite Hcur by done. congruence.
  - by intros c i c' _ _ ?%not_elem_of_nil.
  - intros c i Hc. rewrite Hcur by done. intros [= <-] Hge. apply cpu_ok_spec in Hc. lia.
  - intros i Hi. by destruct (is_idle0 i Hi).
  - intros i Hi Hge Hn. apply Hnm in Hn; [lia|done].
  - intros i Hi Hn. destruct (decide (4 ≤ i)); [unfold st; by rewrite is_free0|].
    apply slot_ok_spec in Hi. destruct (is_idle0 i); [lia|done].
  - intros i Hi _. by apply Hon.
  - intros i j Hi Hj Hni Hnj. apply Hnm in Hni, Hnj; [|done..].
    destruct (is_idle0 i Hni) as [-> _ _ _ _ _], (is_idle0 j Hnj) as [-> _ _ _ _ _]. done.
  - split.
    + repeat (apply NoDup_cons; split; [set_solver|]). apply NoDup_nil_2.
    + intros k x Hx. assert (x ∈ 0 :: [1; 2; 3]) as Hx' by (by apply (list_elem_of_lookup_2 _ k)).
      apply Hin in Hx'. destruct (is_idle0 x Hx') as [_ _ _ _ _ ->].
      do 4 (destruct k as [|k]; [cbn in Hx; by injection Hx as <-|]). by destruct k.
  - intros i Hi%Hin. destruct (is_idle0 i Hi) as [_ Hst _ _ ? _]. split; [by apply Hs|]. split; [done|].
    unfold st. by rewrite Hst.
  - intros i Hi Hn _. apply Hin. by apply Hnm.
  - rewrite is_nid0. lia.
Qed.

Lemma sched_boot_spec s :
  ps_ok (s_env s) → sheld s = [] →
  wp sched_boot (λ _ s', sched_inv closed [1; 2; 3] (λ _, []) s' ∧ sheld s' = [] ∧ next_task_id s' = 4) s.
Proof.
  intros Hok Hh. unfold sched_boot. wp_step. eapply wp_mono; [by apply sched_init_spec|].
  intros _ s1 [Hi Hc]. rewrite upto_1_3. cbn [forM_]. unfold secondary_start. wp_steps.
  match goal with |- sched_inv _ _ _ ?x ∧ _ => set (s2 := x) end.
  assert (init_state s2) as Hi2 by (destruct Hi; by split).
  split; [|split; [apply Hi2|apply Hi2]]. apply init_inv; [done|]. intros c Hcok. apply cpu_ok_spec in Hcok.
  unfold curr, s2. cbn. rewrite Hc.
  rewrite !lookup_insert. repeat case_decide; first [congruence|lia].
Qed.

End boot.

(** ** Calls and reachable states

    [sched_call] lists the calls the kernel makes into sched.c, each with the CPU
    that makes it; a call is one critical section.  A state is reached from boot
    by any sequence of calls that respect their preconditions, in any
    interleaving of the CPUs, with one restriction: no CPU enters [schedule]
    while the task of another one is READY, which it is when it was published as
    blocked, or put to sleep, and woken before its CPU reached its own [schedule].
    [double_run] (SchedClaims.v) shows that the code needs the restriction. *)

Inductive sched_call : Type :=
  | CallWake (cpu i : Z) | CallUnpark (cpu i : Z)
  | CallBlock (i : Z) | CallPark (i : Z) | CallSleep (cpu ticks : Z)
  | CallExitStatus (cpu status : Z) | CallWait4 (cpu pid : Z)
  | CallKill (cpu task_id : Z) | CallExit (cpu : Z)
  | CallRegisterInit (i : Z) | CallAdopt (i : Z)
  | CallPreemptDisable (cpu : Z) | CallPreemptEnable (cpu : Z)
  | CallReschedule (c : Z) | CallIrqEnter (cpu : Z) | CallIrqExit (cpu : Z)
  | CallTick (cpu : Z)
  | CallCreate (cpu tramp entry : Z) (nm : string)
  | CallCreateUser (cpu tramp proc process_mm entry_va stack_top : Z) (nm : string)
  | CallReapDetach | CallReapClear (v : Z)
  | CallSchedule (cpu : Z).

Section sys.
Context {P : Type} `{SchedEnvLaws P}.
Implicit Types s : sstate P.

(** The result says whether the call published its task as blocked or ready. *)
Definition run_call (c : sched_call) : M (sstate P) bool :=
  match c with
  | CallWake cpu i => sched_wake_task cpu (Some i) ;; mret false
  | CallUnpark cpu i => sched_unpark_task cpu (Some i) ;; mret false
  | CallBlock i => sched_block_task (Some i) ;; mret true
  | CallPark i => sched_park_task (Some i)
  | CallSleep cpu ticks => sched_sleep_current cpu ticks
  | CallExitStatus cpu status => sched_set_current_exit_status cpu status ;; mret false
  | CallWait4 cpu pid => r ← sched_wait4 cpu pid; mret (match r with WaitBlocked => true | _ => false end)
  | CallKill cpu task_id => sched_kill_task cpu task_id ;; mret false
  | CallExit cpu => task_exit cpu ;; mret false
  | CallRegisterInit i => sched_register_init_task (Some i) ;; mret false
  | CallAdopt i => sched_adopt_task (Some i) ;; mret false
  | CallPreemptDisable cpu => sched_preempt_disable cpu ;; mret false
  | CallPreemptEnable cpu => sched_preempt_enable cpu ;; mret false
  | CallReschedule c => sched_request_reschedule c ;; mret false
  | CallIrqEnter cpu => sched_irq_enter cpu ;; mret false
  | CallIrqExit cpu => sched_irq_exit cpu ;; mret false
  | CallTick cpu => sched_tick cpu ;; mret false
  | CallCreate cpu tramp entry nm => task_create cpu tramp entry nm ;; mret false
  | CallCreateUser cpu tramp proc process_mm entry_va stack_top nm =>
      task_create_user cpu tramp proc process_mm entry_va stack_top nm ;; mret false
  | CallReapDetach => reap_detach ;; mret false
  | CallReapClear v => reap_clear v ;; mret false
  | CallSchedule cpu => schedule_locked cpu ;; mret false
  end.

(** The task a call publishes. *)
Definition published (c : sched_call) s : tptr :=
  match c with
  | CallBlock i | CallPark i => Some i
  | CallSleep cpu _ | CallWait4 cpu _ => curr s cpu
  | _ => None
  end.

Definition not_idle s (cpu : Z) : Prop := ∀ i, curr s cpu = Some i → 4 ≤ id (tk s i).

(** The preconditions: CPU numbers and task pointers are valid, [exit] and
    [wait4] are not called by an idle task, task identifiers are not exhausted,
    only a detached task is cleared. *)
Definition call_pre s (c : sched_call) : Prop :=
  match c with
  | CallWake cpu i | CallUnpark cpu i => slot_ok i = true
  | CallBlock i | CallPark i | CallRegisterInit i | CallAdopt i => slot_ok i = true
  | CallSleep cpu _ | CallExitStatus cpu _ | CallPreemptDisable cpu | CallPreemptEnable cpu
  | CallIrqEnter cpu | CallIrqExit cpu | CallTick cpu => cpu_ok cpu = true
  | CallWait4 cpu _ | CallExit cpu => cpu_ok cpu = true ∧ not_idle s cpu
  | CallKill _ _ | CallReapDetach => True
  | CallReschedule c => 0 ≤ c
  | CallCreate cpu _ _ _ | CallCreateUser cpu _ _ _ _ _ _ => cpu_ok cpu = true ∧ next_task_id s < 2 ^ 64 - 1
  | CallReapClear v => slot_ok v = true ∧ st s v = TASK_STATE_REAPING
  | CallSchedule cpu => cpu_ok cpu = true ∧ switch_safe s cpu
  end.

(** The CPUs in a window after the call. *)
Definition hole_after (hole : Z → Prop) s (c : sched_call) (opened : bool) : Z → Prop :=
  match c with
  | CallSchedule cpu => others hole cpu
  | _ => if opened then match published c s with Some i => window hole s i | None => hole end else hole
  end.

Definition good (hole : Z → Prop) s : Prop := (∃ L Q, sched_inv hole L Q s) ∧ sheld s = [].

Lemma kept_good hole L s s' : sheld s = [] → kept hole L s s' → good hole s'.
Proof. intros Hh ((Q & Hi) & Hh' & _). split; [by exists L, Q|congruence]. Qed.

Lemma created_good hole L s s' x i t : sheld s = [] → created hole L s s' x i t → good hole s'.
Proof. intros Hh [(L' & Q' & _ & Hi) Hh' _ _ _ _ _]. split; [by exists L', Q'|congruence]. Qed.

(** A call of which only [kept] matters. *)
Lemma wp_kept {A} hole L s (m : M (sstate P) A) (R : A → sstate P → Prop) :
  sheld s = [] → wp m R s → (∀ a s', R a s' → kept hole L s s') →
  wp (m ;; mret false) (λ b s', b = false ∧ good hole s') s.
Proof.
  intros Hh Hm HR. wp_step. eapply wp_mono; [exact Hm|]. intros a s' Ha. wp_step. split; [done|].
  by apply (kept_good hole L s), (HR a).
Qed.

(** Every call returns and keeps the state good. *)
Lemma run_call_good hole s c :
  good hole s → call_pre s c →
  wp (run_call c) (λ b s', good (hole_after hole s c b) s') s.
Proof.
  intros [(L & Q & Hi) Hh] Hpre. assert (can_lock L_sched (sheld s) = true) as Hl by (by rewrite Hh).
  assert (∀ cpu, cpu_ok cpu = true → ∃ i, curr s cpu = Some i ∧ slot_ok i = true) as Hcur.
  { intros cpu Hc. destruct (inv_current _ _ _ _ _ Hi Hc) as (i & ? & ? & _). by exists i. }
  assert (∀ (m : M (sstate P) bool), (∀ b s, hole_after hole s c b = if b then hole_after hole s c true else hole) →
            wp m (λ b s', b = false ∧ good hole s') s → wp m (λ b s', good (hole_after hole s c b) s') s) as Hq.
  { intros m He Hm. eapply wp_mono; [exact Hm|]. intros b s' [-> Hg]. by rewrite He. }
  destruct c; cbn [run_call call_pre] in *.
  - apply Hq; [by intros []|]. eapply (wp_kept hole L); [done|by apply (sched_wake_task_spec hole L Q)|by intros ? ? []].
  - apply Hq; [by intros []|]. eapply (wp_kept hole L); [done|by apply (sched_unpark_task_spec hole L Q)|by intros ? ? []].
  - wp_step. eapply wp_mono; [by apply (sched_block_task_spec hole L Q)|]. intros _ s' [Hk _]. wp_step.
    by eapply kept_good.
  - eapply wp_mono; [by apply (sched_park_task_spec hole L Q)|]. intros b s' (_ & Hk & _). cbn.
    destruct b; by eapply kept_good.
  - destruct (Hcur cpu Hpre) as (i & Hcu & Hs).
    eapply wp_mono; [by apply (sched_sleep_current_spec hole L Q)|]. intros b s' (_ & Hk & _). cbn. rewrite Hcu.
    destruct b; by eapply kept_good.
  - destruct (Hcur cpu Hpre) as (i & Hcu & Hs). apply Hq; [by intros []|].
    eapply (wp_kept hole L); [done|by apply (sched_set_current_exit_status_spec hole L Q _ _ i)|by intros ? ? []].
  - destruct Hpre as [Hc Hid]. destruct (Hcur cpu Hc) as (i & Hcu & Hs). wp_step.
    eapply wp_mono; [apply (sched_wait4_spec hole L Q s cpu i); auto|]. intros r s' Hr. wp_step.
    cbn [hole_after published]. rewrite Hcu.
    destruct (find_slot (zombie_of _ _) _); [destruct Hr as (-> & Hk & _); by eapply kept_good|].
    destruct (find_slot (child_of _ _) _); [destruct Hr as (-> & Hk & _); by eapply kept_good|].
    destruct Hr as (-> & Hk & _). by eapply kept_good.
  - apply Hq; [by intros []|]. eapply (wp_kept hole L); [done|by apply (sched_kill_task_spec hole L Q)|].
    intros b s' Hr. destruct (kill_target _ _ _); [by destruct Hr as (_ & ? & _)|by destruct Hr as (_ & ? & _)].
  - destruct Hpre as [Hc Hid]. destruct (Hcur cpu Hc) as (i & Hcu & Hs). apply Hq; [by intros []|].
    eapply (wp_kept hole L); [done|apply (task_exit_spec hole L Q s cpu i); auto|by intros ? ? []].
  - apply Hq; [by intros []|]. eapply (wp_kept hole L); [done|by apply (sched_register_init_task_spec hole L Q)|by intros ? ? (_ & ? & _)].
  - apply Hq; [by intros []|]. eapply (wp_kept hole L); [done|by apply (sched_adopt_task_spec hole L Q)|by intros ? ? (_ & ? & _)].
  - destruct (Hcur cpu Hpre) as (i & Hcu & Hs). apply Hq; [by intros []|].
    eapply (wp_kept hole L); [done|by apply (sched_preempt_disable_spec hole L Q _ _ i)|by intros ? ? []].
  - destruct (Hcur cpu Hpre) as (i & Hcu & Hs). apply Hq; [by intros []|].
    eapply (wp_kept hole L); [done|by apply (sched_preempt_enable_spec hole L Q _ _ i)|by intros ? ? []].
  - apply Hq; [by intros []|]. eapply (wp_kept hole L); [done|by apply (sched_request_reschedule_spec hole L Q)|done].
  - apply Hq; [by intros []|]. eapply (wp_kept hole L); [done|by apply (sched_irq_enter_spec hole L Q)|done].
  - destruct (Hcur cpu Hpre) as (i & Hcu & Hs). apply Hq; [by intros []|].
    eapply (wp_kept hole L); [done|by apply (sched_irq_exit_spec hole L Q _ _ i)|by intros ? ? []].
  - apply Hq; [by intros []|]. eapply (wp_kept hole L); [done|by apply (sched_tick_spec hole L Q)|by intros ? ? []].
  - destruct Hpre as [Hc Hid]. destruct (Hcur cpu Hc) as (i & Hcu & Hs). apply Hq; [by intros []|].
    wp_step. eapply wp_mono; [by apply (task_create_spec hole L Q s cpu i)|]. intros r s' Hr. wp_step. split; [done|].
    destruct r as [j|]; [|by eapply kept_good; [|apply Hr]]. destruct Hr as (va & _ & Hcr). by eapply created_good.
  - destruct Hpre as [Hc Hid]. destruct (Hcur cpu Hc) as (i & Hcu & Hs). apply Hq; [by intros []|].
    wp_step. eapply wp_mono; [by apply (task_create_user_spec hole L Q s cpu i)|]. intros r s' Hr. wp_step. split; [done|].
    destruct r as [j|]; [|by eapply kept_good; [|apply Hr]]. destruct Hr as (_ & _ & va & file & _ & Hcr). by eapply created_good.
  - apply Hq; [by intros []|]. wp_step. eapply wp_mono; [by apply (reap_detach_spec hole L Q)|].
    intros r s' Hr. wp_step. split; [done|]. destruct r as [[[v stack] proc]|]; [|by eapply kept_good; [|apply Hr]].
    destruct Hr as (_ & _ & _ & _ & _ & _ & (L' & Q' & _ & Hi') & Hh' & _). split; [by exists L', Q'|congruence].
  - destruct Hpre as [Hv Hst]. apply Hq; [by intros []|].
    eapply (wp_kept hole L); [done|by apply (reap_clear_spec hole L Q)|by intros ? ? []].
  - destruct Hpre as [Hc Hsafe]. destruct (Hcur cpu Hc) as (i & Hcu & Hs).
    wp_step. eapply wp_mono; [apply (schedule_locked_spec hole L Q s cpu i); try done; by apply safe_unclaimed|].
    intros _ s' (n & Hsw). wp_step. split; [|by rewrite (sw_held _ _ _ _ _ _ _ _ Hsw)].
    eexists _, _. exact (sw_inv _ _ _ _ _ _ _ _ Hsw).
Qed.

(** ** Reachable states *)

Inductive sched_reach : (Z → Prop) → sstate P → Prop :=
  | reach_boot s0 s : ps_ok (s_env s0) → sheld s0 = [] → sched_boot s0 = Some ((), s) → sched_reach closed s
  | reach_call hole s c b s' hole' : sched_reach hole s → call_pre s c →
      run_call c s = Some (b, s') → (∀ k, hole_after hole s c b k ↔ hole' k) → sched_reach hole' s'.

Lemma sched_reach_good hole s : sched_reach hole s → good hole s.
Proof.
  induction 1 as [s0 s Hok Hh Hb|hole s c b s' hole' _ IH Hpre Hrun Hiff].
  - destruct (wp_run _ _ _ _ _ (sched_boot_spec s0 Hok Hh) Hb) as (Hi & Hh' & _). split; [by eexists _, _|done].
  - destruct (wp_run _ _ _ _ _ (run_call_good hole s c IH Hpre) Hrun) as [(L & Q & Hi) Hh].
    split; [|done]. exists L, Q. apply (inv_weaken (hole_after hole s c b)); [|done]. intros k. apply Hiff.
Qed.

End sys.
