(* ===== verification/SchedClaims.v ===== *)
(** * The scheduler's properties. *)

From S2P Require Import Prelude Machine PageAllocSpec Heap HeapSpec Task WaitQueue Sched SchedQueue SchedInv SchedOps SchedLife SchedCreate SchedReap SchedSwitch SchedSys.

Open Scope kernel_scope.

(** ** A concrete environment for the witnesses: pages handed out in address
    order, and a context switch that records the new translation base. *)

Record bump : Type := Bump { bp_machine : machine; bp_next : Z }.

#[export] Instance eta_bump : Eta bump := λ b, Bump (bp_machine b) (bp_next b).

#[export, refine] Instance sub_bump : Sub machine bump := {
  sub_get := bp_machine;
  sub_set := λ m b, b <| bp_machine := m |>;
}.
Proof. all: intros; by destruct t. Defined.

Definition bump_alloc (n : Z) : M bump Z := λ b,
  if (0 <? n) && (bp_next b + n * PAGE_SIZE <=? RAM_END)
  then Some (bp_next b, b <| bp_next := bp_next b + n * PAGE_SIZE |>) else Some (0, b).

#[export] Instance bump_source : PageSource bump := { ps_alloc := bump_alloc }.

Lemma bump_run b n q : QEMU_VIRT_RAM_BASE ≤ bp_next b → bp_next b mod PAGE_SIZE = 0 →
  bp_next b + n * PAGE_SIZE ≤ RAM_END →
  q ∈ run_pages (bp_next b) n ↔ ram_page q ∧ bp_next b ≤ q < bp_next b + n * PAGE_SIZE.
Proof.
  intros Hlo Hal Hhi. rewrite elem_of_run. unfold ram_page, PAGE_SIZE in *. split.
  - intros (k & -> & Hk). rewrite Z_mod_plus_full. lia.
  - intros [[_ Hq] Hr]. exists ((q - bp_next b) / 4096). Z.div_mod_to_equations. lia.
Qed.

#[export, refine] Instance bump_laws : PageSourceLaws bump := {
  ps_ok := λ b, QEMU_VIRT_RAM_BASE ≤ bp_next b ∧ bp_next b mod PAGE_SIZE = 0;
  ps_owned := λ b q, ram_page q ∧ q < bp_next b;
}.
Proof.
  - intros b p _ [? _]. done.
  - intros b n Hn [Hlo Hal] _. unfold wp, ps_alloc, bump_source, bump_alloc.
    destruct (_ && _) eqn:Hb; [|split; [done|]; split; [done|]; by left].
    apply andb_true_iff in Hb as [Hn0%Z.ltb_lt Hend%Z.leb_le].
    split; [|split; [done|right]].
    + cbn. unfold PAGE_SIZE in *. split; [lia|]. rewrite Z_mod_plus_full. done.
    + split; [done|]. split; [|split; [|done]].
      * intros q [_ Hq]%bump_run [_ Hq2]; [lia|done..].
      * intros q. rewrite bump_run by done. cbn. unfold PAGE_SIZE in *.
        assert (ram_page q → QEMU_VIRT_RAM_BASE ≤ q) by (intros [? _]; lia).
        destruct (decide (q < bp_next b)); [|split; [intros [? ?]; left; split; [done|lia]|intros [[? ?]|[? ?]]; split; done || lia]].
        split; [intros [? ?]; by right|intros [[? ?]|[? ?]]; split; done || lia].
  - intros b m [? ?] _ _. done.
Defined.

#[export] Instance bump_env : SchedEnv bump := {
  mmu_context_switch := λ cpu mm, up (emit (Ev_ttbr0 mm));
  console_open_file := mret 1;
}.

#[export, refine] Instance bump_env_laws : SchedEnvLaws bump := {}.
Proof. all: intros; done. Defined.

Section claims.
Context {P : Type} `{SchedEnvLaws P}.
Implicit Types s : sstate P.

(** ** Exclusivity *)

(** C8.  In every state reached from boot by calls among which no CPU enters
    [schedule] while the task of another CPU is READY ([switch_safe]; C16 shows
    what happens otherwise), each CPU has exactly one current task, which knows
    its CPU, and no task is current on two CPUs.  The run queues are linked from
    head to tail through [rq_next], hold exactly the tasks marked as queued, each
    once, and count them ([rq_rep]); a READY task in a run queue is not running,
    except in the window of its own CPU.  No call gets stuck. *)
Theorem sched_exclusive hole s : sched_reach hole s →
  (∀ c, cpu_ok c = true → ∃ i, curr s c = Some i ∧ slot_ok i = true ∧ current_cpu (tk s i) = c) ∧
  (∀ c c' i, cpu_ok c = true → cpu_ok c' = true → curr s c = Some i → curr s c' = Some i → c = c') ∧
  (∃ Q, rq_rep s Q ∧
     ∀ c i c', cpu_ok c = true → cpu_ok c' = true → i ∈ Q c → st s i = TASK_STATE_READY → curr s c' = Some i → hole c') ∧
  (∀ call, call_pre s call → is_Some (run_call call s)).
Proof.
  intros Hr. destruct (sched_reach_good _ _ Hr) as [(L & Q & Hi) Hh]. split; [|split; [|split]].
  - intros c Hc. destruct (si_cur _ _ _ _ Hi c Hc) as (i & Hcu & Hs & _). exists i.
    split; [done|]. split; [done|]. by apply (si_run _ _ _ _ Hi).
  - apply Hi.
  - exists Q. split; apply Hi.
  - intros call Hpre. destruct (wp_elim _ _ _ (run_call_good hole s call (conj (ex_intro _ L (ex_intro _ Q Hi)) Hh) Hpre))
      as (b & s' & -> & _). by eexists.
Qed.

(** ** What [schedule] chooses *)

(** C9.  [schedule] on a CPU, entered while no other CPU's task is READY (C16),
    does exactly this.  The outgoing task loses a pending kill and is DEAD; if it
    still runs it becomes READY and goes to the end of the queue of its CPU
    ([queues_back], [states_back]).  From these queues the first READY task of
    the CPU's own queue is taken, else the first READY one of the longest queue,
    else the idle task runs; the stale tasks in front of it are dropped, and no
    queue changes otherwise ([picks]).  The chosen task is RUNNING on this CPU
    and in no queue, no other task changes its state, the other CPUs keep their
    tasks, and the outgoing one is on no CPU. *)
Theorem schedule_switches hole L Q s cpu prev :
  sched_inv hole L Q s → sheld s = [] → cpu_ok cpu = true → curr s cpu = Some prev → switch_safe s cpu →
  let '(r, Q2) := picks (states_back s prev) (queues_back Q s cpu prev) cpu in
  let n := default cpu r in
  ∃ s', schedule_locked cpu s = Some ((), s') ∧
    rq_rep s' Q2 ∧ sched_inv (others hole cpu) L Q2 s' ∧ sheld s' = [] ∧
    (∀ c, curr s' c = if decide (c = cpu) then Some n else curr s c) ∧
    st s' n = TASK_STATE_RUNNING ∧ current_cpu (tk s' n) = cpu ∧ (∀ c, cpu_ok c = true → n ∉ Q2 c) ∧
    (∀ j, j ≠ n → st s' j = states_back s prev j) ∧
    (4 ≤ id (tk s prev) → n ≠ prev → current_cpu (tk s' prev) = TASK_NO_CPU).
Proof.
  intros Hi Hh Hc Hcu Hsafe.
  destruct (wp_elim _ _ _ (schedule_locked_spec hole L Q s cpu prev Hi (safe_unclaimed Q s cpu Hsafe)
    ltac:(by rewrite Hh) Hc Hcu)) as ([] & s' & Hs & n & [H1 H2 H3 H4 H5 H6 H7 H8 H9]).
  unfold pick_back in *. destruct (picks _ _ cpu) as [r Q2]. cbn [fst snd] in *. subst n.
  exists s'. split; [done|]. split; [apply H1|]. split; [done|]. split; [congruence|]. split; [done|].
  split; [apply H6|]. split; [apply H6|]. done.
Qed.

(** C10.  Making a task ready puts it, unless it is queued already, at the end
    of a shortest run queue and requests a reschedule of that queue's CPU. *)
Theorem make_ready_places hole L Q s i :
  sched_inv hole L Q s → slot_ok i = true → 4 ≤ id (tk s i) → st s i = TASK_STATE_BLOCKED →
  ∃ s' c, sched_make_ready_locked (Some i) s = Some ((), s') ∧
    cpu_ok c = true ∧ (∀ c', cpu_ok c' = true → (length (Q c) ≤ length (Q c'))%nat) ∧
    need_resched (rq_at s' c) = 1 ∧ st s' i = TASK_STATE_READY ∧
    rq_rep s' (if on_rq (tk s i) =? 0 then qupd Q c (Q c ++ [i]) else Q).
Proof.
  intros Hi Hs Hid Hb. destruct (inv_slot_id _ _ _ _ _ Hi Hs Hid) as [_ Hn].
  destruct (wp_elim _ _ _ (make_ready_inv hole L Q s i Hi Hs Hid Hn ltac:(by rewrite Hb) (inv_blocked _ _ _ _ _ Hi Hs Hb)))
    as ([] & s' & Hrun & (c & Hc & Hsh & Hnr & Hi') & _ & _ & Heff).
  exists s', c. do 4 (split; [done|]). split; [|apply Hi'].
  by rewrite (task_eff_state _ _ _ _ i Heff), decide_True.
Qed.

(** ** Park and unpark *)

Lemma done_fields hole L s i f s' : done_with hole L s i f s' → core (tk s' i) = core (f (tk s i)).
Proof. intros [_ He]. by rewrite (He i), decide_True. Qed.

Lemma core_wake t t' : core t = core t' →
  id t = id t' ∧ blockable t = blockable t' ∧ wakeable t = wakeable t' ∧ wake_pending t = wake_pending t' ∧ state t = state t'.
Proof.
  intros Hc. apply core_fields in Hc as (E1 & E2 & _ & _ & E3 & E4 & _).
  unfold blockable, wakeable, alive. by rewrite E1, E2, E3, E4.
Qed.

(** C11.  No wakeup is lost between a task that parks and one that unparks it:
    if the park comes first, the unpark makes the task READY; if the unpark comes
    first, the park consumes its token and returns without blocking. *)
Theorem no_lost_wakeup hole L Q s cpu i :
  sched_inv hole L Q s → sheld s = [] → slot_ok i = true → 4 ≤ id (tk s i) →
  blockable (tk s i) = true → st s i ≠ TASK_STATE_BLOCKED → wake_pending (tk s i) = 0 →
  wp (b ← sched_park_task (Some i); sched_unpark_task cpu (Some i) ;; mret b)
     (λ b s', b = true ∧ st s' i = TASK_STATE_READY) s ∧
  wp (sched_unpark_task cpu (Some i) ;; sched_park_task (Some i))
     (λ b s', b = false ∧ st s' i = st s i ∧ wake_pending (tk s' i) = 0) s.
Proof.
  intros Hi Hh Hs Hid Hb Hnb Hw. assert ((4 <=? id (tk s i)) = true) as E by (apply Z.leb_le; lia).
  assert (wakeable (tk s i) = false) as Hnw by (unfold wakeable; unfold st in Hnb; by rewrite (proj2 (Z.eqb_neq _ _) Hnb)).
  assert (kill_pending (tk s i) = 0) as Hkp by (by apply andb_true_iff in Hb as [_ ?%Z.eqb_eq]).
  split; wp_step.
  - eapply wp_mono; [apply (sched_park_task_spec hole L Q s i); try done; by rewrite Hh|].
    intros b s1 [-> Hd]. pose proof (done_fields _ _ _ _ _ _ Hd) as Hc1. unfold parked in Hc1.
    unfold parks in *. rewrite E, Hb, Hw in *. cbn [andb Z.eqb] in *.
    destruct Hd as [((Q1 & Hi1) & Hh1 & _) _]. wp_step.
    eapply wp_mono; [apply (sched_unpark_task_spec _ L Q1 s1 cpu i Hi1); [by rewrite Hh1, Hh|done]|].
    intros [] s2 Hd2. wp_step. split; [done|]. pose proof (done_fields _ _ _ _ _ _ Hd2) as Hc2.
    apply core_fields in Hc2 as (_ & Hst & _). unfold st. rewrite Hst. unfold unparked.
    apply core_fields in Hc1 as (Hid1 & Hst1 & _ & _ & Hk1 & _). unfold wakeable, readied.
    rewrite Hst1, Hk1, Hid1. cbn [state kill_pending id setf]. rewrite Hkp. by rewrite E.
  - eapply wp_mono; [apply (sched_unpark_task_spec hole L Q s cpu i); try done; by rewrite Hh|].
    intros [] s1 Hd. pose proof (done_fields _ _ _ _ _ _ Hd) as Hc1. unfold unparked in Hc1.
    fold (blockable (tk s i)) in Hc1. rewrite Hnw, Hb in Hc1.
    apply core_wake in Hc1 as (Hid1 & Hb1 & _ & Hw1 & Hst1).
    assert (blockable (tk s1 i) = true) as Hb1' by (rewrite Hb1; exact Hb).
    assert (wake_pending (tk s1 i) = 1) as Hw1' by (rewrite Hw1; done).
    assert (id (tk s1 i) = id (tk s i)) as Hid1' by (rewrite Hid1; done).
    destruct Hd as [((Q1 & Hi1) & Hh1 & _) _].
    eapply wp_mono; [apply (sched_park_task_spec hole L Q1 s1 i Hi1); [by rewrite Hh1, Hh|done]|].
    intros b s2 [-> Hd2]. pose proof (done_fields _ _ _ _ _ _ Hd2) as Hc2. unfold parked in Hc2.
    unfold parks. rewrite Hid1', E, Hb1', Hw1' in *. cbn [andb Z.eqb] in *.
    apply core_fields in Hc2 as (_ & Hst2 & _ & _ & _ & Hw2 & _).
    split; [done|]. unfold st. split; [rewrite Hst2; exact Hst1|rewrite Hw2; done].
Qed.

(** ** Sleeping *)




(** ** Exit and wait *)

Lemma s64_inj x y : 0 ≤ x < 2 ^ 64 → 0 ≤ y < 2 ^ 64 → s64 x = s64 y → x = y.
Proof. intros Hx Hy. unfold s64. rewrite !u64_small by done. repeat case_match; bool_to_prop; lia. Qed.

Lemma parent_found hole L Q s i p : sched_inv hole L Q s → slot_ok p = true → name (tk s p) ≠ None →
  parent_id (tk s i) = id (tk s p) → parent_of s i = Some p.
Proof. intros Hi Hp Hn He. unfold parent_of. rewrite He. by apply (find_slot_id hole L Q). Qed.

(** The zombie child with a given id is found. *)
Lemma zombie_found hole L Q s i p : sched_inv hole L Q s → slot_ok i = true → name (tk s i) ≠ None →
  parent_id (tk s i) = p → st s i = TASK_STATE_ZOMBIE → 0 < id (tk s i) →
  (∀ j, slot_ok j = true → name (tk s j) ≠ None → 0 ≤ id (tk s j) < 2 ^ 63) →
  find_slot (zombie_of p (s64 (id (tk s i)))) s = Some i.
Proof.
  intros Hi Hs Hn Hp Hst Hpos Hrange. pose proof (Hrange i Hs Hn).
  assert (s64 (id (tk s i)) = id (tk s i)) as Hs64.
  { unfold s64. rewrite u64_small by lia. by btrue (id (tk s i) <? 2 ^ 63). }
  destruct (find_slot _ s) as [j|] eqn:Hf.
  - apply find_slot_some in Hf as [Hj [[[Hnj%named_spec _]%andb_true_iff Hm]%andb_true_iff _]%andb_true_iff].
    f_equal. apply (si_ids _ _ _ _ Hi); try done. rewrite Hs64 in Hm. apply orb_true_iff in Hm as [Hm%Z.leb_le|Hm%Z.eqb_eq]; [lia|].
    pose proof (Hrange j Hj Hnj). apply s64_inj; [lia..|congruence].
  - apply (find_slot_none _ _ Hf) in Hs as Hx. unfold zombie_of, child_of in Hx.
    unfold st in Hst. rewrite (proj2 (named_spec _) Hn), Hp, Hst, !Z.eqb_refl, orb_true_r in Hx. done.
Qed.

Lemma inv_ids_range hole L Q s j : sched_inv hole L Q s → next_task_id s < 2 ^ 63 → slot_ok j = true →
  name (tk s j) ≠ None → 0 ≤ id (tk s j) < 2 ^ 63.
Proof.
  intros Hi Hnx Hj Hnj. apply slot_ok_spec in Hj as Hb. destruct (decide (4 ≤ j)) as [Hj4|].
  - pose proof (si_named _ _ _ _ Hi j Hj Hj4 Hnj). lia.
  - destruct (si_slots _ _ _ _ Hi j); lia.
Qed.

Lemma core_exit t t' : core t = core t' → id t = id t' ∧ name t = name t' ∧ parent_id t = parent_id t' ∧
  exit_status t = exit_status t' ∧ state t = state t'.
Proof. intros Hc. apply core_fields in Hc. tauto. Qed.

Lemma exited_id s i j t : id (exited s i j t) = id t ∧ name (exited s i j t) = name t.
Proof.
  assert (id (reparented s i j t) = id t ∧ name (reparented s i j t) = name t) as [E1 E2]
    by (unfold reparented; by case_match).
  unfold exited. destruct (decide (j = i)); [done|]. destruct (decide _); [|done].
  destruct (_ =? _); [|done]. unfold readied. by destruct (_ <=? _).
Qed.

(** C13.  When a task with a living parent exits, a [wait4] of the parent for
    that task collects exactly its identifier and exit status, and the task
    becomes DEAD, for the reaper to take. *)
Theorem exit_status_reaches_parent hole L Q s ci cp i p :
  sched_inv hole L Q s → sheld s = [] → cpu_ok ci = true → cpu_ok cp = true →
  curr s ci = Some i → curr s cp = Some p → i ≠ p → 4 ≤ id (tk s i) → 4 ≤ id (tk s p) →
  parent_id (tk s i) = id (tk s p) → id (tk s i) ≠ init_task_id s → next_task_id s < 2 ^ 63 →
  wp (task_exit ci ;; sched_wait4 cp (s64 (id (tk s i))))
     (λ r s', r = WaitChild (id (tk s i)) (exit_status (tk s i)) ∧ st s' i = TASK_STATE_DEAD) s.
Proof.
  intros Hi Hh Hci Hcp Hcu Hcup Hne Hidi Hidp Hpar Hinit Hnx.
  destruct (inv_current _ _ _ _ _ Hi Hci) as (i' & Hcu' & Hs & Hnm & _). rewrite Hcu in Hcu'. injection Hcu' as <-.
  destruct (inv_current _ _ _ _ _ Hi Hcp) as (p' & Hcup' & Hsp & Hnmp & _). rewrite Hcup in Hcup'. injection Hcup' as <-.
  wp_step. eapply wp_mono; [apply (task_exit_spec hole L Q s ci i); try done; by rewrite Hh|].
  intros [] s1 [((Q1 & Hi1) & Hh1 & Hc1) Hex].
  assert (∀ j, slot_ok j = true → id (tk s1 j) = id (tk s j) ∧ name (tk s1 j) = name (tk s j)) as Hidn.
  { intros j Hj. destruct (core_exit _ _ (Hex j Hj)) as (-> & -> & _). apply exited_id. }
  destruct (core_exit _ _ (Hex i Hs)) as (_ & _ & E3 & E4 & E5). unfold exited, reparented in E3, E4, E5.
  rewrite decide_True, bool_decide_true, andb_false_r in E3, E4, E5 by done.
  cbn [parent_id exit_status state setf] in E3, E4, E5.
  assert (st s1 i = TASK_STATE_ZOMBIE) as Hz.
  { unfold st. rewrite E5. unfold exit_state. rewrite (parent_found hole L Q s i p), is_null_some by done.
    by rewrite (proj2 (Z.eqb_neq _ _) Hinit). }
  destruct (Hidn i Hs) as [Hid1 Hn1], (Hidn p Hsp) as [Hidp1 _].
  assert (curr s1 cp = Some p) as Hcup1 by (unfold curr; rewrite Hc1; exact Hcup).
  eapply wp_mono; [apply (sched_wait4_spec hole L Q1 s1 cp p); try done; [by rewrite Hh1, Hh|by rewrite Hidp1]|].
  intros r s2. rewrite Hidp1, <- Hid1.
  rewrite (zombie_found hole L Q1 s1 i (id (tk s p)) Hi1); try done.
  - intros [-> Hd]. rewrite E4. split; [done|]. apply done_fields, core_exit in Hd as (_ & _ & _ & _ & Hd). exact Hd.
  - by rewrite Hn1.
  - by rewrite E3.
  - rewrite Hid1. lia.
  - intros j Hj. destruct (Hidn j Hj) as [-> ->]. by apply (inv_ids_range hole L Q).
Qed.

(** ** Kill *)

Lemma kill_hits hole L Q s k i : sched_inv hole L Q s → slot_ok i = true → name (tk s i) ≠ None →
  curr s k ≠ Some i → 4 ≤ id (tk s i) → alive (tk s i) = true →
  kill_target s k (id (tk s i)) = Some i.
Proof.
  intros Hi Hs Hn Hk Hid Ha. unfold kill_target. rewrite (find_slot_id hole L Q) by done.
  rewrite bool_decide_false, Ha by done. by bfalse (id (tk s i) <? 4).
Qed.

Lemma put_back_killed t : 4 ≤ id t → kill_pending t ≠ 0 → state (put_back t) = TASK_STATE_DEAD.
Proof.
  intros Hid Hk. unfold put_back, consumed. btrue (4 <=? id t). bfalse (kill_pending t =? 0).
  cbn [negb andb]. by destruct (4 <=? _).
Qed.

(** C14.  A kill from another CPU of a task that runs leaves it running with the
    kill pending; the next [schedule] of its CPU makes it DEAD, takes it off the
    CPU, and leaves it in a state the reaper accepts. *)
Theorem kill_takes_effect hole L Q s k c i :
  sched_inv hole L Q s → sheld s = [] → cpu_ok c = true → curr s c = Some i → curr s k ≠ Some i →
  4 ≤ id (tk s i) → st s i = TASK_STATE_RUNNING → (∀ c', hole c' → c' = c) →
  wp (b ← sched_kill_task k (id (tk s i)); schedule_locked c ;; mret b)
     (λ b s', b = true ∧ reapable (tk s' i) = true ∧ ∀ c', cpu_ok c' = true → curr s' c' ≠ Some i) s.
Proof.
  intros Hi Hh Hc Hcu Hk Hid Hst Honly.
  destruct (inv_current _ _ _ _ _ Hi Hc) as (i' & Hcu' & Hs & Hnm & _). rewrite Hcu in Hcu'. injection Hcu' as <-.
  assert (alive (tk s i) = true) as Ha by (unfold alive; unfold st in Hst; by rewrite Hst).
  pose proof (si_run _ _ _ _ Hi c i Hc Hcu) as Hrun. apply cpu_ok_spec in Hc as Hcb.
  wp_step. eapply wp_mono; [apply (sched_kill_task_spec hole L Q s k (id (tk s i)) Hi); by rewrite Hh|].
  intros b s1. rewrite (kill_hits hole L Q) by done. intros [-> [((Q1 & Hi1) & Hh1 & Hc1) He1]].
  specialize (He1 i). rewrite decide_True in He1 by done. unfold killed, on_cpu in He1.
  unfold st in Hst. rewrite Hst, Hrun in He1. unfold TASK_NO_CPU in He1.
  replace (c =? 4294967295) with false in He1 by (symmetry; apply Z.eqb_neq; lia). cbn [andb negb Z.eqb] in He1.
  rewrite (Z.eqb_refl TASK_STATE_RUNNING) in He1.
  apply core_fields in He1 as (Hid1 & Hst1 & _ & _ & Hk1 & _). cbn [id state kill_pending killed_self setf] in Hid1, Hst1, Hk1.
  assert (curr s1 c = Some i) as Hcu1 by (unfold curr; rewrite Hc1; exact Hcu).
  wp_step. eapply wp_mono; [apply (schedule_locked_spec hole L Q1 s1 c i); try done; [by apply (inv_unclaimed hole L)|by rewrite Hh1, Hh]|].
  intros [] s2 (n & Hsw). wp_step. split; [done|].
  assert (states_back s1 i i = TASK_STATE_DEAD) as Hdead.
  { unfold states_back. rewrite decide_True by done. apply put_back_killed; [by rewrite Hid1|by rewrite Hk1]. }
  assert (n ≠ i) as Hni.
  { intros ->. destruct (sw_elig _ _ _ _ _ _ _ _ Hsw) as [E|[E _]]; [|by rewrite Hdead in E].
    rewrite <- E in Hcb. destruct (si_slots _ _ _ _ Hi i Hcb). lia. }
  split.
  - unfold reapable. pose proof (sw_states _ _ _ _ _ _ _ _ Hsw i) as Hs2. unfold st in Hs2.
    rewrite Hs2, Hdead by congruence. rewrite (sw_off _ _ _ _ _ _ _ _ Hsw); [done|rewrite Hid1; exact Hid|congruence].
  - intros c' Hc' Hcu2. rewrite (sw_cur _ _ _ _ _ _ _ _ Hsw) in Hcu2. destruct (decide (c' = c)); [congruence|].
    apply n0. by apply (si_excl _ _ _ _ Hi1 c' c i).
Qed.

End claims.

(** ** Runs *)

Section runs.
Context {P : Type} `{SchedEnvLaws P}.
Implicit Types s : sstate P.

Definition after (c : sched_call) s : sstate P :=
  match run_call c s with Some (_, s') => s' | None => s end.

(** [switch_safe], computed. *)
Definition switch_safeb s (cpu : Z) : bool :=
  forallb (λ c, (c =? cpu) || match curr s c with Some i => negb (st s i =? TASK_STATE_READY) | None => true end)
    [0; 1; 2; 3].

Lemma switch_safeb_safe s cpu : switch_safeb s cpu = true → switch_safe s cpu.
Proof.
  unfold switch_safeb. rewrite forallb_forall. intros Hb c i Hc%cpu_ok_spec Hne Hcu. specialize (Hb c).
  rewrite Hcu, (proj2 (Z.eqb_neq c cpu) Hne) in Hb. cbn in Hb. apply Z.eqb_neq, negb_true_iff, Hb. lia.
Qed.

Lemma after_reach (hole hole' : Z → Prop) s c b : sched_reach hole s → call_pre s c →
  (fst <$> run_call c s) = Some b → (∀ k, hole_after hole s c b k ↔ hole' k) → sched_reach hole' (after c s).
Proof.
  intros Hr Hp Hb Hk. unfold after. destruct (run_call c s) as [[b' s']|] eqn:Hs; [|done].
  cbn in Hb. injection Hb as ->. by eapply reach_call.
Qed.

Lemma others_closed cpu k : others closed cpu k ↔ closed k.
Proof. split; [by intros []|done]. Qed.

(** A [schedule] when no CPU is in a window. *)
Lemma after_schedule s cpu : sched_reach closed s → cpu_ok cpu = true → switch_safeb s cpu = true →
  (fst <$> run_call (CallSchedule cpu) s) = Some false → sched_reach closed (after (CallSchedule cpu) s).
Proof.
  intros Hr Hc Hs Hb. apply (after_reach closed closed s (CallSchedule cpu) false); [done| |done|apply others_closed].
  split; [done|]. by apply switch_safeb_safe.
Qed.

End runs.

(** ** Witnesses *)

Definition sched_zero : sstate bump :=
  SState (Bump (Machine ∅ [] true []) QEMU_VIRT_RAM_BASE) ∅ ∅ 0 0 0 0 ∅ ∅.

(** Boot; a task is created on CPU 0; it runs there. *)
Definition sched_up : sstate bump :=
  match sched_boot sched_zero with Some (_, s) => s | None => sched_zero end.
Definition sched_one : sstate bump := after (CallCreate 0 1 2 "a") sched_up.
Definition sched_run : sstate bump := after (CallSchedule 0) sched_one.
(** It has parked. *)
Definition sched_parked : sstate bump := after (CallPark 4) sched_run.
(** It was killed by CPU 1 and has left CPU 0. *)
Definition sched_killed : sstate bump := after (CallSchedule 0) (after (CallKill 1 4) sched_run).
(** It is the init task, and the parent of a second task that runs on CPU 1. *)
Definition sched_family : sstate bump :=
  after (CallSchedule 1) (after (CallAdopt 5) (after (CallCreate 0 1 2 "b") (after (CallRegisterInit 4) sched_run))).
(** The second task has parked, CPU 1 has not reached [schedule] yet, and the
    first, which runs on CPU 0, has created two more. *)
Definition sched_busy : sstate bump :=
  after (CallAdopt 7) (after (CallCreate 0 1 2 "d") (after (CallAdopt 6) (after (CallCreate 0 1 2 "c")
    (after (CallPark 5) sched_family)))).
(** The first task has parked, and CPU 1 has unparked it. *)
Definition sched_unparked : sstate bump := after (CallUnpark 1 4) sched_parked.

Lemma sched_up_reach : sched_reach closed sched_up.
Proof.
  assert (ps_ok (s_env sched_zero)) as Hok by (split; [apply Z.leb_le|]; reflexivity).
  apply (reach_boot sched_zero); [exact Hok|reflexivity|].
  pose proof (sched_boot_spec sched_zero) as Hb.
  destruct (wp_elim _ _ _ (Hb Hok eq_refl)) as ([] & s & Hs & _).
  unfold sched_up. by rewrite Hs.
Qed.

Lemma sched_one_reach : sched_reach closed sched_one.
Proof.
  apply (after_reach (H0 := bump_env_laws) closed closed sched_up (CallCreate 0 1 2 "a") false);
    [apply sched_up_reach|vm_compute; split; reflexivity|vm_compute; reflexivity|done].
Qed.

Lemma sched_run_reach : sched_reach closed sched_run.
Proof. apply (after_schedule (H0 := bump_env_laws)); [apply sched_one_reach|vm_compute; reflexivity..]. Qed.

Lemma sched_parked_reach : sched_reach (window closed sched_run 4) sched_parked.
Proof.
  apply (after_reach (H0 := bump_env_laws) closed (window closed sched_run 4) sched_run (CallPark 4) true); [apply sched_run_reach|done|vm_compute; reflexivity|done].
Qed.

Lemma sched_unparked_reach : sched_reach (window closed sched_run 4) sched_unparked.
Proof.
  apply (after_reach (H0 := bump_env_laws) (window closed sched_run 4) (window closed sched_run 4) sched_parked (CallUnpark 1 4) false);
    [apply sched_parked_reach|done|vm_compute; reflexivity|done].
Qed.

Lemma sched_killed_reach : sched_reach closed sched_killed.
Proof.
  apply (after_schedule (H0 := bump_env_laws)); [|vm_compute; reflexivity..].
  apply (after_reach (H0 := bump_env_laws) closed closed sched_run (CallKill 1 4) false); [apply sched_run_reach|done|vm_compute; reflexivity|done].
Qed.

Lemma sched_family_reach : sched_reach closed sched_family.
Proof.
  apply (after_schedule (H0 := bump_env_laws)); [|vm_compute; reflexivity..].
  apply (after_reach (H0 := bump_env_laws) closed closed _ (CallAdopt 5) false); [|done|vm_compute; reflexivity|done].
  apply (after_reach (H0 := bump_env_laws) closed closed _ (CallCreate 0 1 2 "b") false);
    [|vm_compute; split; reflexivity|vm_compute; reflexivity|done].
  apply (after_reach (H0 := bump_env_laws) closed closed sched_run (CallRegisterInit 4) false);
    [apply sched_run_reach|done|vm_compute; reflexivity|done].
Qed.

Lemma sched_busy_reach : sched_reach (window closed sched_family 5) sched_busy.
Proof.
  apply (after_reach (H0 := bump_env_laws) (window closed sched_family 5) (window closed sched_family 5) _ (CallAdopt 7) false); [|done|vm_compute; reflexivity|done].
  apply (after_reach (H0 := bump_env_laws) (window closed sched_family 5) (window closed sched_family 5) _ (CallCreate 0 1 2 "d") false);
    [|vm_compute; split; reflexivity|vm_compute; reflexivity|done].
  apply (after_reach (H0 := bump_env_laws) (window closed sched_family 5) (window closed sched_family 5) _ (CallAdopt 6) false); [|done|vm_compute; reflexivity|done].
  apply (after_reach (H0 := bump_env_laws) (window closed sched_family 5) (window closed sched_family 5) _ (CallCreate 0 1 2 "c") false);
    [|vm_compute; split; reflexivity|vm_compute; reflexivity|done].
  apply (after_reach (H0 := bump_env_laws) closed (window closed sched_family 5) sched_family (CallPark 5) true); [apply sched_family_reach|done|vm_compute; reflexivity|done].
Qed.

Lemma sched_exclusive_witness :
  sched_reach closed sched_family ∧ curr sched_family 0 = Some 4 ∧ curr sched_family 1 = Some 5 ∧
  is_Some (run_call (CallExit 1) sched_family).
Proof.
  split; [exact sched_family_reach|]. split; [vm_compute; reflexivity|]. split; [vm_compute; reflexivity|].
  destruct (sched_exclusive closed sched_family sched_family_reach) as (_ & _ & _ & Hrun).
  apply (Hrun (CallExit 1)). split; [reflexivity|].
  assert (curr sched_family 1 = Some 5) as E1 by (vm_compute; reflexivity).
  assert (id (tk sched_family 5) = 5) as E2 by (vm_compute; reflexivity).
  intros i Hi. rewrite E1 in Hi. injection Hi as <-. rewrite E2. lia.
Defined.

Lemma schedule_switches_witness :
  st sched_busy 5 = TASK_STATE_BLOCKED ∧ curr sched_busy 1 = Some 5 ∧
  ∃ Q s', rq_rep sched_busy Q ∧ schedule_locked 0 sched_busy = Some ((), s') ∧
    rq_rep s' (picks (states_back sched_busy 4) (queues_back Q sched_busy 0 4) 0).2 ∧ curr s' 1 = Some 5.
Proof.
  split; [vm_compute; reflexivity|]. split; [vm_compute; reflexivity|].
  destruct (sched_reach_good _ sched_busy sched_busy_reach) as [(L & Q & Hi) Hh].
  assert (curr sched_busy 0 = Some 4) as Hcu by (vm_compute; reflexivity).
  assert (switch_safeb sched_busy 0 = true) as Hsafe by (vm_compute; reflexivity).
  pose proof (schedule_switches _ L Q sched_busy 0 4 Hi Hh eq_refl Hcu (switch_safeb_safe _ _ Hsafe)) as Hw.
  destruct (picks _ _ 0) as [r Q2] eqn:E. destruct Hw as (s' & Hs & Hr & _ & _ & Hc & _).
  exists Q, s'. split; [exact (si_rq _ _ _ _ Hi)|]. split; [exact Hs|]. split; [rewrite E; exact Hr|].
  rewrite Hc. vm_compute. reflexivity.
Defined.

Lemma make_ready_places_witness :
  ∃ s' c, sched_make_ready_locked (Some 4) sched_parked = Some ((), s') ∧ cpu_ok c = true ∧
    st s' 4 = TASK_STATE_READY.
Proof.
  destruct (sched_reach_good _ sched_parked sched_parked_reach) as [(L & Q & Hi) Hh].
  assert (id (tk sched_parked 4) = 4) as E by (vm_compute; reflexivity).
  destruct (make_ready_places _ L Q sched_parked 4 Hi eq_refl ltac:(rewrite E; lia) ltac:(vm_compute; reflexivity))
    as (s' & c & Hs & Hc & _ & _ & Hst & _).
  exists s', c. split; [exact Hs|]. split; [exact Hc|exact Hst].
Defined.

Lemma no_lost_wakeup_witness :
  wp (b ← sched_park_task (Some 4); sched_unpark_task 1 (Some 4) ;; mret b)
     (λ b s', b = true ∧ st s' 4 = TASK_STATE_READY) sched_run.
Proof.
  destruct (sched_reach_good _ sched_run sched_run_reach) as [(L & Q & Hi) Hh].
  assert (id (tk sched_run 4) = 4) as E by (vm_compute; reflexivity).
  assert (st sched_run 4 = 0) as E2 by (vm_compute; reflexivity).
  assert (4 ≤ id (tk sched_run 4)) as Hid by (rewrite E; lia).
  assert (blockable (tk sched_run 4) = true) as Hb by (vm_compute; reflexivity).
  assert (st sched_run 4 ≠ TASK_STATE_BLOCKED) as Hnb by (rewrite E2; discriminate).
  assert (wake_pending (tk sched_run 4) = 0) as Hw by (vm_compute; reflexivity).
  destruct (no_lost_wakeup closed L Q sched_run 1 4 Hi Hh eq_refl Hid Hb Hnb Hw) as [Hpark _]. exact Hpark.
Defined.


Lemma exit_status_reaches_parent_witness :
  wp (task_exit 1 ;; sched_wait4 0 (s64 (id (tk sched_family 5))))
     (λ r s', r = WaitChild (id (tk sched_family 5)) (exit_status (tk sched_family 5)) ∧
        st s' 5 = TASK_STATE_DEAD) sched_family.
Proof.
  destruct (sched_reach_good _ sched_family sched_family_reach) as [(L & Q & Hi) Hh].
  assert (id (tk sched_family 4) = 4) as E4 by (vm_compute; reflexivity).
  assert (id (tk sched_family 5) = 5) as E5 by (vm_compute; reflexivity).
  assert (parent_id (tk sched_family 5) = 4) as Ep by (vm_compute; reflexivity).
  assert (init_task_id sched_family = 4) as Ei by (vm_compute; reflexivity).
  assert (next_task_id sched_family = 6) as En by (vm_compute; reflexivity).
  assert (curr sched_family 1 = Some 5) as H1 by (vm_compute; reflexivity).
  assert (curr sched_family 0 = Some 4) as H2 by (vm_compute; reflexivity).
  assert (4 ≤ id (tk sched_family 5)) as H3 by (rewrite E5; lia).
  assert (4 ≤ id (tk sched_family 4)) as H4 by (rewrite E4; lia).
  assert (parent_id (tk sched_family 5) = id (tk sched_family 4)) as H5 by (rewrite E4; exact Ep).
  assert (id (tk sched_family 5) ≠ init_task_id sched_family) as H6 by (rewrite E5, Ei; lia).
  assert (next_task_id sched_family < 2 ^ 63) as H7 by (rewrite En; lia).
  pose proof (exit_status_reaches_parent closed L Q sched_family 1 0 5 4 Hi Hh eq_refl eq_refl H1 H2
    ltac:(lia) H3 H4 H5 H6 H7) as Hw.
  exact Hw.
Defined.

Lemma kill_takes_effect_witness :
  wp (b ← sched_kill_task 1 (id (tk sched_run 4)); schedule_locked 0 ;; mret b)
     (λ b s', b = true ∧ reapable (tk s' 4) = true ∧ ∀ c', cpu_ok c' = true → curr s' c' ≠ Some 4) sched_run.
Proof.
  destruct (sched_reach_good _ sched_run sched_run_reach) as [(L & Q & Hi) Hh].
  assert (id (tk sched_run 4) = 4) as E by (vm_compute; reflexivity).
  assert (curr sched_run 1 = Some 1) as E1 by (vm_compute; reflexivity).
  assert (curr sched_run 0 = Some 4) as H1 by (vm_compute; reflexivity).
  assert (curr sched_run 1 ≠ Some 4) as H2 by (rewrite E1; discriminate).
  assert (4 ≤ id (tk sched_run 4)) as H3 by (rewrite E; lia).
  assert (st sched_run 4 = TASK_STATE_RUNNING) as H4 by (vm_compute; reflexivity).
  pose proof (kill_takes_effect closed L Q sched_run 1 0 4 Hi Hh eq_refl H1 H2 H3 H4 ltac:(intros c' [])) as Hw.
  exact Hw.
Defined.

(** C16.  The restriction on [schedule] in the transition system ([switch_safe])
    is needed.  When
    a task has parked and its CPU has not reached [schedule] yet, another CPU may
    unpark it and schedule: the task is then current on both CPUs. *)
Theorem double_run : ∃ hole (s s' : sstate bump), sched_reach hole s ∧
  schedule_locked 1 s = Some ((), s') ∧ curr s' 0 = Some 4 ∧ curr s' 1 = Some 4.
Proof.
  exists (window closed sched_run 4), sched_unparked, (after (CallSchedule 1) sched_unparked).
  split; [apply sched_unparked_reach|]. split; [|split; vm_compute; reflexivity].
  unfold after. cbn [run_call].
  assert (fst <$> schedule_locked 1 sched_unparked = Some ()) as Hs by (vm_compute; reflexivity).
  unfold mbind, M_bind. destruct (schedule_locked 1 sched_unparked) as [[[] s']|]; [done|discriminate Hs].
Qed.
