(* ===== verification/Sync.v ===== *)
(** * What the synchronisation objects share: the interface to the scheduler,
    the state of the subsystems, and the pools of objects addressed by handles
    (src/src/kernel/mutex.c, semaphore.c, condvar.c, ipc.c).

    The three pools are three copies of the same code over different objects;
    their common part is written once, over the body [A] of the object, and each
    component names its copy. *)

From S2P Require Import Prelude Machine Task WaitQueue SchedQueue SchedOps.

Open Scope kernel_scope.

(** ** The interface to the scheduler *)

(** The calls these files make into sched.c, over a state that holds the machine
    and the tasks. *)
Class Parking (S : Type) := {
  pk_machine :: Sub machine S;
  pk_tasks :: Sub tasktab S;
  pk_current : Z → M S tptr;
  pk_park : tptr → M S bool;
  pk_unpark : Z → tptr → M S unit;
}.

Section parking.
Context {S : Type} `{Parking S}.
Implicit Types s : S.

Definition pk_task s (i : Z) : task := task_at (sub_get s) i.
Definition pk_held s : list lock := m_held (sub_get s).
Definition pk_set_held s (l : list lock) : S := sub_set ((sub_get s : machine) <| m_held := l |>) s.

(** Only task [i] changes, by [f], its run-queue fields apart. *)
Definition pk_effect s s' (i : Z) (f : task → task) : Prop :=
  pk_held s' = pk_held s ∧
  ∀ j, core (pk_task s' j) = if decide (j = i) then core (f (pk_task s i)) else core (pk_task s j).

End parking.

(** What the scheduler promises those that only wake tasks: unparking behaves as
    [unparked] says (SchedOps.v), and its state does not depend on the locks of
    other components nor on the links of the wait queues.  [pk_ok] may be any
    invariant of the scheduler that waking keeps. *)
Class WakeLaws (S : Type) `{Parking S} := {
  pk_ok : S → Prop;
  pk_cur : S → Z → Z;
  pk_current_spec : ∀ (s : S) cpu, pk_ok s → 0 ≤ cpu < 4 →
    pk_current cpu s = Some (Some (pk_cur s cpu), s) ∧ slot_ok (pk_cur s cpu) = true;
  pk_unpark_spec : ∀ (s : S) cpu i, pk_ok s → can_lock L_sched (pk_held s) = true → slot_ok i = true →
    wp (pk_unpark cpu (Some i)) (λ _ s', pk_ok s' ∧ pk_effect s s' i unparked ∧ pk_cur s' = pk_cur s) s;
  pk_ok_held : ∀ (s : S) l, pk_ok s → pk_ok (pk_set_held s l);
  pk_cur_held : ∀ (s : S) l, pk_cur (pk_set_held s l) = pk_cur s;
  pk_ok_wait : ∀ (s : S) X tab, pk_ok s → only_wait_next X (sub_get s) tab → pk_ok (sub_set tab s);
  pk_cur_tab : ∀ (s : S) (tab : tasktab), pk_cur (sub_set tab s) = pk_cur s;
  pk_tab_mach : ∀ (s : S) (m : machine), (sub_get (sub_set m s) : tasktab) = sub_get s;
  pk_mach_tab : ∀ (s : S) (tab : tasktab), (sub_get (sub_set tab s) : machine) = sub_get s;
  pk_comm : ∀ (s : S) (m : machine) (tab : tasktab), sub_set tab (sub_set m s) = sub_set m (sub_set tab s);
}.

(** And those that park them too: parking behaves as [parked] says. *)
Class ParkingLaws (S : Type) `{Parking S} := {
  pk_wake :: WakeLaws S;
  pk_park_spec : ∀ (s : S) i, pk_ok s → can_lock L_sched (pk_held s) = true → slot_ok i = true →
    wp (pk_park (Some i)) (λ b s', pk_ok s' ∧ b = parks (pk_task s i) ∧ pk_effect s s' i parked ∧
                                   pk_cur s' = pk_cur s) s;
}.

(** ** Objects and pools *)

(** [MAX_*_POOL], [*_HANDLE_INDEX_BITS] and [*_HANDLE_GENERATION_MAX] of the three files. *)
Definition POOL_MAX : Z := 64.
Definition HANDLE_INDEX_BITS : Z := 6.
Definition HANDLE_INDEX_MASK : Z := 63.
Definition HANDLE_GENERATION_MAX : Z := 0x01ffffff.

(** The fields the three structures have in common, and the rest. *)
Record pooled (A : Type) : Type := Pooled {
  body : A;
  waiters : wait_queue;
  active_ops : Z;
  destroying : Z;
}.
Arguments Pooled {A}. Arguments body {A}. Arguments waiters {A}.
Arguments active_ops {A}. Arguments destroying {A}.

#[export] Instance eta_pooled A : Eta (pooled A) := λ o,
  Pooled (body o) (waiters o) (active_ops o) (destroying o).

(** Setters with the body's type explicit. *)
Definition set_waiters {A} (q : wait_queue) (o : pooled A) : pooled A := o <| waiters := q |>.
Definition set_body {A} (b : A) (o : pooled A) : pooled A := o <| body := b |>.
Definition set_ops {A} (n : Z) (o : pooled A) : pooled A := o <| active_ops := n |>.
Definition set_destroying {A} (n : Z) (o : pooled A) : pooled A := o <| destroying := n |>.

Record pool (A : Type) : Type := Pool {
  slots : gmap Z (pooled A);
  used : gmap Z Z;
  generation : gmap Z Z;
}.
Arguments Pool {A}. Arguments slots {A}. Arguments used {A}. Arguments generation {A}.

(** The body of a zeroed object and the locks of a pool. *)
Class PoolKind (A : Type) := {
  zero_body : A;
  pool_lock : lock;
  object_lock : Z → lock;
}.

(** ** mutex.h, semaphore.h, condvar.h, ipc.c *)

Record mutex_body : Type := MutexBody { locked : Z; owner : tptr }.
Record semaphore_body : Type := SemaphoreBody { value : Z }.
Record condvar_body : Type := CondvarBody {}.

#[export] Instance mutex_kind : PoolKind mutex_body :=
  { zero_body := MutexBody 0 None; pool_lock := L_mutex_pool; object_lock := L_mutex }.
#[export] Instance semaphore_kind : PoolKind semaphore_body :=
  { zero_body := SemaphoreBody 0; pool_lock := L_sem_pool; object_lock := L_sem }.
#[export] Instance condvar_kind : PoolKind condvar_body :=
  { zero_body := CondvarBody; pool_lock := L_cond_pool; object_lock := L_cond }.

Record ipc_channel : Type := IpcChannel {
  has_message : Z;
  message_length : Z;
  buffer : list Z;
  receivers : wait_queue;
}.

#[export] Instance eta_ipc_channel : Eta ipc_channel := λ c,
  IpcChannel (has_message c) (message_length c) (buffer c) (receivers c).

(** The statics of the four files over the scheduler's state. *)
Record ystate (S : Type) : Type := YState {
  y_sched : S;
  mutex_pool : pool mutex_body;
  semaphore_pool : pool semaphore_body;
  condvar_pool : pool condvar_body;
  ipc_channels : gmap Z ipc_channel;
}.
Arguments YState {S}. Arguments y_sched {S}. Arguments mutex_pool {S}.
Arguments semaphore_pool {S}. Arguments condvar_pool {S}. Arguments ipc_channels {S}.

#[export] Instance eta_ystate S : Eta (ystate S) := λ y,
  YState (y_sched y) (mutex_pool y) (semaphore_pool y) (condvar_pool y) (ipc_channels y).

#[export, refine] Instance sub_y_sched S : Sub S (ystate S) :=
  { sub_get := y_sched; sub_set := λ p y, y <| y_sched := p |> }.
Proof. all: intros; by destruct t. Defined.
#[export, refine] Instance sub_y_mutex S : Sub (pool mutex_body) (ystate S) :=
  { sub_get := mutex_pool; sub_set := λ p y, y <| mutex_pool := p |> }.
Proof. all: intros; by destruct t. Defined.
#[export, refine] Instance sub_y_sem S : Sub (pool semaphore_body) (ystate S) :=
  { sub_get := semaphore_pool; sub_set := λ p y, y <| semaphore_pool := p |> }.
Proof. all: intros; by destruct t. Defined.
#[export, refine] Instance sub_y_cond S : Sub (pool condvar_body) (ystate S) :=
  { sub_get := condvar_pool; sub_set := λ p y, y <| condvar_pool := p |> }.
Proof. all: intros; by destruct t. Defined.

Section sync.
Context {S : Type} `{Parking S}.
Implicit Types y : ystate S.

(** ** Calls below *)

Definition ylock (l : lock) : M (ystate S) unit := up (S := S) (up (spin_lock_irqsave l)).
Definition yunlock (l : lock) : M (ystate S) unit := up (S := S) (up (spin_unlock_irqrestore l)).
Definition on_tasks {A} (m : M tasktab A) : M (ystate S) A := up (S := S) (up m).
Definition y_current (cpu : Z) : M (ystate S) tptr := up (pk_current cpu).
Definition y_park (t : tptr) : M (ystate S) bool := up (pk_park t).
Definition y_unpark (cpu : Z) (t : tptr) : M (ystate S) unit := up (pk_unpark cpu t).

(** ** Handles *)

Definition handle_index (handle : Z) : Z :=
  if handle <? 0 then -1 else Z.land (u32 handle) HANDLE_INDEX_MASK.

Definition handle_generation (handle : Z) : Z := Z.shiftr (u32 handle) HANDLE_INDEX_BITS.

Definition make_handle (index gen : Z) : Z :=
  s32 (Z.lor (u32 (Z.shiftl gen HANDLE_INDEX_BITS)) (u32 index)).

(** ** The code common to the pools *)

Section pool.
Context {A : Type} `{PoolKind A} `{Sub (pool A) (ystate S)}.

Definition the_pool y : pool A := sub_get y.
Definition p_obj (p : pool A) (i : Z) : pooled A :=
  default (Pooled zero_body wait_queue_init 0 0) (slots p !! i).
Definition p_used (p : pool A) (i : Z) : Z := default 0 (used p !! i).
Definition p_gen (p : pool A) (i : Z) : Z := default 0 (generation p !! i).
Definition p_upd_obj (i : Z) (f : pooled A → pooled A) (p : pool A) : pool A :=
  Pool (<[i := f (p_obj p i)]> (slots p)) (used p) (generation p).
Definition p_set_used (i v : Z) (p : pool A) : pool A :=
  Pool (slots p) (<[i := v]> (used p)) (generation p).
Definition p_set_gen (i v : Z) (p : pool A) : pool A :=
  Pool (slots p) (used p) (<[i := v]> (generation p)).

Definition index_ok (i : Z) : bool := (0 <=? i) && (i <? POOL_MAX).

(** Accesses to the three arrays, of [POOL_MAX] elements. *)
Definition get_pool {B} (i : Z) (f : pool A → Z → B) : M (ystate S) B :=
  λ y, if index_ok i then Some (f (the_pool y) i, y) else None.
Definition set_pool (i : Z) (f : pool A → pool A) : M (ystate S) unit :=
  λ y, if index_ok i then Some ((), sub_set (f (the_pool y)) y) else None.
Definition get_obj (i : Z) : M (ystate S) (pooled A) := get_pool i p_obj.
Definition get_used (i : Z) : M (ystate S) Z := get_pool i p_used.
Definition get_gen (i : Z) : M (ystate S) Z := get_pool i p_gen.
Definition upd_obj (i : Z) (f : pooled A → pooled A) : M (ystate S) unit := set_pool i (p_upd_obj i f).
Definition set_used (i v : Z) : M (ystate S) unit := set_pool i (p_set_used i v).
Definition set_gen (i v : Z) : M (ystate S) unit := set_pool i (p_set_gen i v).

(** [index < 0 || index >= MAX || generation == 0U]. *)
Definition bad_handle (handle : Z) : bool :=
  (handle_index handle <? 0) || (POOL_MAX <=? handle_index handle) || (handle_generation handle =? 0).

Definition pool_pin (handle : Z) : M (ystate S) (option Z) :=
  let index := handle_index handle in
  if bad_handle handle then mret None else
  ylock pool_lock ;;
  u ← get_used index;
  g ← get_gen index;
  o ← get_obj index;
  if (u =? 0) || negb (g =? handle_generation handle) || negb (destroying o =? 0) then
    yunlock pool_lock ;; mret None
  else
    upd_obj index (λ o, set_ops (u32 (active_ops o + 1)) o) ;;
    yunlock pool_lock ;;
    mret (Some index).

(** [if (object->active_ops > 0U) object->active_ops--;] *)
Definition drop_op (o : pooled A) : pooled A :=
  if 0 <? active_ops o then set_ops (active_ops o - 1) o else o.

Definition pool_unpin (index : Z) : M (ystate S) unit :=
  ylock pool_lock ;;
  upd_obj index drop_op ;;
  yunlock pool_lock.

(** [init] is the object's initialisation function. *)
Definition pool_alloc (init : pooled A → pooled A) : M (ystate S) Z :=
  ylock pool_lock ;;
  r ← iterM (upto 0 POOL_MAX) (λ (_ : unit) i,
    u ← get_used i;
    if u =? 0 then
      g ← get_gen i;
      set_gen i (u32 (g + 1)) ;;
      g ← get_gen i;
      whenM ((g =? 0) || (HANDLE_GENERATION_MAX <? g)) (set_gen i 1) ;;
      set_used i 1 ;;
      upd_obj i init ;;
      yunlock pool_lock ;;
      g ← get_gen i;
      mret (inr (make_handle i g))
    else mret (inl ())) ();
  match r with
  | inr handle => mret handle
  | inl _ => yunlock pool_lock ;; mret (-1)
  end.

(** The last critical section of the three [*_pool_free]. *)
Definition pool_release (index gen : Z) : M (ystate S) bool :=
  ylock pool_lock ;;
  u ← get_used index;
  g ← get_gen index;
  if (u =? 0) || negb (g =? gen) then
    upd_obj index (set_destroying 0) ;;
    yunlock pool_lock ;;
    mret false
  else
    set_used index 0 ;;
    upd_obj index (set_destroying 0) ;;
    yunlock pool_lock ;;
    mret true.

(** The middle one: [busy] tests the object under its own lock. *)
Definition pool_free_if_idle (busy : pooled A → bool) (index gen : Z) : M (ystate S) bool :=
  ylock (object_lock index) ;;
  o ← get_obj index;
  if busy o then
    yunlock (object_lock index) ;;
    ylock pool_lock ;;
    upd_obj index (set_destroying 0) ;;
    yunlock pool_lock ;;
    mret false
  else
    yunlock (object_lock index) ;;
    pool_release index gen.

(** [semaphore_pool_free] and [condvar_pool_free]. *)
Definition pool_free (handle : Z) : M (ystate S) bool :=
  let index := handle_index handle in
  let gen := handle_generation handle in
  if bad_handle handle then mret false else
  ylock pool_lock ;;
  u ← get_used index;
  g ← get_gen index;
  o ← get_obj index;
  if (u =? 0) || negb (g =? gen) || negb (destroying o =? 0) || negb (active_ops o =? 0) then
    yunlock pool_lock ;; mret false
  else
    upd_obj index (set_destroying 1) ;;
    yunlock pool_lock ;;
    pool_free_if_idle (λ o, negb (wait_queue_empty (waiters o))) index gen.

(** Operations on the object's wait queue. *)
Definition obj_enqueue (i : Z) (t : tptr) : M (ystate S) bool :=
  o ← get_obj i;
  '(b, q) ← on_tasks (wait_queue_enqueue (waiters o) t);
  upd_obj i (set_waiters q) ;;
  mret b.
Definition obj_dequeue (i : Z) : M (ystate S) tptr :=
  o ← get_obj i;
  '(t, q) ← on_tasks (wait_queue_dequeue (waiters o));
  upd_obj i (set_waiters q) ;;
  mret t.
Definition obj_remove (i : Z) (t : tptr) : M (ystate S) bool :=
  o ← get_obj i;
  '(b, q) ← on_tasks (wait_queue_remove (waiters o) t);
  upd_obj i (set_waiters q) ;;
  mret b.

(** [semaphore_detach_task] and [condvar_detach_task]. *)
Definition pool_detach (t : tptr) : M (ystate S) unit :=
  if bool_decide (t = None) then mret () else
  forM_ (upto 0 POOL_MAX) (λ i,
    ylock pool_lock ;;
    u ← get_used i;
    if u =? 0 then yunlock pool_lock else
    upd_obj i (λ o, set_ops (u32 (active_ops o + 1)) o) ;;
    yunlock pool_lock ;;
    ylock (object_lock i) ;;
    detached ← obj_remove i t;
    yunlock (object_lock i) ;;
    ylock pool_lock ;;
    upd_obj i drop_op ;;
    whenM detached (upd_obj i drop_op) ;;
    yunlock pool_lock).

End pool.
End sync.

Arguments the_pool {S A _} y.
