(* ===== verification/SyncSpec.v ===== *)
(** * The synchronisation objects' common invariant and its lemmas.

    [queues_ok W y]: every wait queue [q] of the state stands for the list [W q],
    and no task waits in two queues, so that the links the queues share are
    never in conflict. *)

From S2P Require Import Prelude Machine Task WaitQueue SchedQueue SchedOps Sync.

Open Scope kernel_scope.

(** The wait queues of the state. *)
Inductive qid : Type := Q_mutex (i : Z) | Q_sem (i : Z) | Q_cond (i : Z) | Q_ipc (c : Z).

#[export] Instance qid_eq_dec : EqDecision qid.
Proof. solve_decision. Defined.

Definition queue_at {S} (y : ystate S) (q : qid) : wait_queue :=
  match q with
  | Q_mutex i => waiters (p_obj (mutex_pool y) i)
  | Q_sem i => waiters (p_obj (semaphore_pool y) i)
  | Q_cond i => waiters (p_obj (condvar_pool y) i)
  | Q_ipc c => default wait_queue_init (receivers <$> ipc_channels y !! c)
  end.

(** What a pool is to the state: its part of it, and its queues. *)
Class PoolLaws (S A : Type) `{PoolKind A} `{Sub (pool A) (ystate S)} := {
  pool_qid : Z → qid;
  pool_qid_inj : ∀ i j, pool_qid i = pool_qid j → i = j;
  pl_sched : ∀ (p : pool A) (y : ystate S), y_sched (sub_set p y) = y_sched y;
  pl_get : ∀ s (y : ystate S), (sub_get (y <| y_sched := s |>) : pool A) = sub_get y;
  pl_comm : ∀ (p : pool A) s (y : ystate S), sub_set p (y <| y_sched := s |>) = (sub_set p y) <| y_sched := s |>;
  pl_queue : ∀ (y : ystate S) i, queue_at y (pool_qid i) = waiters (p_obj (sub_get y : pool A) i);
  pl_other : ∀ (p : pool A) (y : ystate S) q, (∀ i, q ≠ pool_qid i) → queue_at (sub_set p y) q = queue_at y q;
  pl_dec : ∀ q, {i | q = pool_qid i} + {∀ i, q ≠ pool_qid i};
}.

Ltac pool_laws :=
  first
  [ done
  | by intros; simplify_eq
  | by intros ? ? [i|i|i|i] Hne; try done; destruct (Hne i)
  | intros []; first [left; by eexists | by right] ].

#[export, refine] Instance mutex_laws S : PoolLaws S mutex_body := { pool_qid := Q_mutex }.
Proof. all: pool_laws. Defined.
#[export, refine] Instance semaphore_laws S : PoolLaws S semaphore_body := { pool_qid := Q_sem }.
Proof. all: pool_laws. Defined.
#[export, refine] Instance condvar_laws S : PoolLaws S condvar_body := { pool_qid := Q_cond }.
Proof. all: pool_laws. Defined.

Section spec.
Context {S : Type} `{WakeLaws S}.
Implicit Types y : ystate S.
Implicit Types W : qid → list Z.

Definition ytab y : tasktab := sub_get (y_sched y).
Definition yheld y : list lock := pk_held (y_sched y).
Definition ytask y (i : Z) : task := task_at (ytab y) i.

(** [s] with the locks [h] held and the tasks [tab]. *)
Definition sst (s : S) (h : list lock) (tab : tasktab) : S := sub_set tab (pk_set_held s h).
Definition yst y (h : list lock) (tab : tasktab) : ystate S := y <| y_sched := sst (y_sched y) h tab |>.

Record queues_ok W y : Prop := {
  qo_pk : pk_ok (y_sched y);
  qo_rep : ∀ q, wq_rep (ytab y) (queue_at y q) (W q);
  qo_disj : ∀ q q' t, t ∈ W q → t ∈ W q' → q = q';
}.

Definition wupd W (q : qid) (l : list Z) : qid → list Z := λ q', if decide (q' = q) then l else W q'.

Lemma wupd_eq W q l : wupd W q l q = l.
Proof. unfold wupd. by rewrite decide_True. Qed.
Lemma wupd_ne W q l q' : q' ≠ q → wupd W q l q' = W q'.
Proof. intros. unfold wupd. by rewrite decide_False. Qed.

(** ** Equations of the parts of the state *)

Lemma sst_id s : sst s (pk_held s) (sub_get s) = s.
Proof.
  unfold sst, pk_set_held, pk_held.
  replace ((sub_get s : machine) <| m_held := m_held (sub_get s) |>) with (sub_get s : machine)
    by (by destruct (sub_get s : machine)).
  rewrite sub_set_get. apply sub_set_get.
Qed.

Lemma sst_tab s h tab : (sub_get (sst s h tab) : tasktab) = tab.
Proof. unfold sst. apply sub_get_set. Qed.

Lemma sst_held s h tab : pk_held (sst s h tab) = h.
Proof. unfold sst, pk_held. rewrite pk_mach_tab. unfold pk_set_held. by rewrite sub_get_set. Qed.

Lemma sst_set_held s h tab h' : pk_set_held (sst s h tab) h' = sst s h' tab.
Proof.
  unfold sst, pk_set_held. rewrite pk_mach_tab, sub_get_set. rewrite <- pk_comm, sub_set_set. done.
Qed.

Lemma sst_set_tab s h tab tab' : (sub_set tab' (sst s h tab) : S) = sst s h tab'.
Proof. unfold sst. apply sub_set_set. Qed.

Lemma sst_sst s h tab h' tab' : sst (sst s h tab) h' tab' = sst s h' tab'.
Proof. unfold sst at 1. rewrite sst_set_held. apply sst_set_tab. Qed.

Lemma yst_id y : yst y (yheld y) (ytab y) = y.
Proof. unfold yst, yheld, ytab. rewrite sst_id. by destruct y. Qed.

Lemma yst_tab y h tab : ytab (yst y h tab) = tab.
Proof. unfold ytab, yst. cbn. apply sst_tab. Qed.
Lemma yst_held y h tab : yheld (yst y h tab) = h.
Proof. unfold yheld, yst. cbn. apply sst_held. Qed.
Lemma yst_yst y h tab h' tab' : yst (yst y h tab) h' tab' = yst y h' tab'.
Proof. unfold yst. cbn. by rewrite sst_sst. Qed.
Lemma yst_queue y h tab q : queue_at (yst y h tab) q = queue_at y q.
Proof. by destruct q. Qed.
Lemma yst_cur y h tab : pk_cur (y_sched (yst y h tab)) = pk_cur (y_sched y).
Proof. unfold yst, sst. cbn. by rewrite pk_cur_tab, pk_cur_held. Qed.

Lemma yst_ok_held W y h : queues_ok W y → queues_ok W (yst y h (ytab y)).
Proof.
  intros [Hp Hr Hd]. split; [|intros q; by rewrite yst_tab, yst_queue|done].
  unfold yst, sst. cbn. apply (pk_ok_wait _ []); [by apply pk_ok_held|].
  unfold pk_set_held. rewrite pk_tab_mach. apply owx_refl.
Qed.

(** ** Locks and calls below *)

Lemma wp_ylock l (Q : unit → ystate S → Prop) y h tab :
  can_lock l h = true → Q () (yst y (l :: h) tab) → wp (ylock l) Q (yst y h tab).
Proof.
  intros Hl HQ. unfold ylock. rewrite !wp_up. change (sub_get (yst y h tab)) with (sst (y_sched y) h tab).
  pose proof (sst_held (y_sched y) h tab) as Hh. unfold pk_held in Hh.
  apply wp_lock; rewrite Hh; [done|].
  unfold yst in HQ. rewrite <- (sst_set_held _ h tab (l :: h)) in HQ. exact HQ.
Qed.

Lemma wp_yunlock l (Q : unit → ystate S → Prop) y h tab :
  Q () (yst y h tab) → wp (yunlock l) Q (yst y (l :: h) tab).
Proof.
  intros HQ. unfold yunlock. rewrite !wp_up. change (sub_get (yst y (l :: h) tab)) with (sst (y_sched y) (l :: h) tab).
  pose proof (sst_held (y_sched y) (l :: h) tab) as Hh. unfold pk_held in Hh.
  apply (wp_unlock _ h); [done|].
  unfold yst in HQ. rewrite <- (sst_set_held _ (l :: h) tab h) in HQ. exact HQ.
Qed.

Lemma wp_on_tasks {A} (m : M tasktab A) (Q : A → ystate S → Prop) y h tab :
  wp m (λ a tab', Q a (yst y h tab')) tab → wp (on_tasks m) Q (yst y h tab).
Proof.
  intros HQ. unfold on_tasks. rewrite !wp_up. change (sub_get (yst y h tab)) with (sst (y_sched y) h tab).
  rewrite sst_tab. eapply wp_mono; [exact HQ|]. intros a tab'.
  unfold yst at 1. rewrite <- (sst_set_tab _ h tab tab'). done.
Qed.

Lemma wp_sched_current cpu (Q : tptr → ystate S → Prop) y :
  pk_ok (y_sched y) → 0 ≤ cpu < 4 → Q (Some (pk_cur (y_sched y) cpu)) y → wp (y_current cpu) Q y.
Proof.
  intros Hp Hc HQ. unfold y_current. rewrite wp_up. cbn.
  destruct (pk_current_spec _ _ Hp Hc) as [E _]. unfold wp. rewrite E. by destruct y.
Qed.

(** The fields of a task that the scheduler's wake-up protocol is about. *)
Definition tview (t : task) : Z * Z * Z * Z := (id t, state t, kill_pending t, wake_pending t).

Lemma core_tview t t' : core t = core t' → tview t = tview t'.
Proof. intros Hc. apply core_fields in Hc as (E1 & E2 & _ & _ & E3 & E4 & _). unfold tview. congruence. Qed.

Lemma core_wait_next t t' : core t = core t' → wait_next t = wait_next t'.
Proof. destruct t, t'. unfold core. cbn. intros [=]. done. Qed.

Lemma owx_tview X tab tab' j : only_wait_next X tab tab' → tview (task_at tab' j) = tview (task_at tab j).
Proof. intros Hx. by destruct (Hx j) as (v & -> & _). Qed.

(** ** Pools *)

Section pools.
Context {A : Type} `{PoolLaws S A}.
Implicit Types p : pool A.

Definition pst y h tab p : ystate S := sub_set p (yst y h tab).

Lemma pst_id y : pst y (yheld y) (ytab y) (the_pool y) = y.
Proof. unfold pst. rewrite yst_id. apply sub_set_get. Qed.

Lemma pst_alt y h tab p : pst y h tab p = yst (sub_set p y) h tab.
Proof. unfold pst, yst. rewrite pl_comm. by rewrite pl_sched. Qed.

Lemma pst_pool y h tab p : the_pool (pst y h tab p) = p.
Proof. apply sub_get_set. Qed.
Lemma pst_tab y h tab p : ytab (pst y h tab p) = tab.
Proof. rewrite pst_alt. apply yst_tab. Qed.
Lemma pst_held y h tab p : yheld (pst y h tab p) = h.
Proof. rewrite pst_alt. apply yst_held. Qed.
Lemma pst_cur y h tab p : pk_cur (y_sched (pst y h tab p)) = pk_cur (y_sched y).
Proof. rewrite pst_alt, yst_cur. by rewrite pl_sched. Qed.
Lemma pst_pst y h tab p h' tab' p' : pst (pst y h tab p) h' tab' p' = pst y h' tab' p'.
Proof.
  unfold pst at 1. rewrite (pst_alt y), yst_yst. rewrite <- (pst_alt y). unfold pst. apply sub_set_set.
Qed.

Lemma wp_plock l (Q : unit → ystate S → Prop) y h tab p :
  can_lock l h = true → Q () (pst y (l :: h) tab p) → wp (ylock l) Q (pst y h tab p).
Proof. rewrite !pst_alt. apply wp_ylock. Qed.
Lemma wp_punlock l (Q : unit → ystate S → Prop) y h tab p :
  Q () (pst y h tab p) → wp (yunlock l) Q (pst y (l :: h) tab p).
Proof. rewrite !pst_alt. apply wp_yunlock. Qed.
Lemma wp_ptasks {B} (m : M tasktab B) (Q : B → ystate S → Prop) y h tab p :
  wp m (λ a tab', Q a (pst y h tab' p)) tab → wp (on_tasks m) Q (pst y h tab p).
Proof.
  intros HQ. rewrite pst_alt. apply wp_on_tasks. eapply wp_mono; [exact HQ|]. intros a tab'. cbn.
  by rewrite pst_alt.
Qed.

Lemma wp_get_pool {B} i (f : pool A → Z → B) (Q : B → ystate S → Prop) y h tab p :
  index_ok i = true → Q (f p i) (pst y h tab p) → wp (get_pool i f) Q (pst y h tab p).
Proof. intros Hi HQ. unfold wp, get_pool. rewrite Hi. by rewrite pst_pool. Qed.
Lemma wp_set_pool i f (Q : unit → ystate S → Prop) y h tab p :
  index_ok i = true → Q () (pst y h tab (f p)) → wp (set_pool i f) Q (pst y h tab p).
Proof.
  intros Hi HQ. unfold wp, set_pool. rewrite Hi. rewrite pst_pool. unfold pst. by rewrite sub_set_set.
Qed.

Lemma p_obj_upd i f p j : p_obj (p_upd_obj i f p) j = if decide (i = j) then f (p_obj p i) else p_obj p j.
Proof. unfold p_obj at 1, p_upd_obj. cbn. rewrite lookup_insert. by case_decide. Qed.

(** A step of the invariant: one queue of the pool and the links change. *)
Lemma queues_ok_pst W y h tab p X i l :
  queues_ok W y → only_wait_next X (ytab y) tab →
  wq_rep tab (waiters (p_obj p i)) l →
  (∀ j, j ≠ i → waiters (p_obj p j) = waiters (p_obj (the_pool y) j)) →
  (∀ q t, q ≠ pool_qid i → t ∈ W q → (t ∉ X) ∧ (t ∉ l)) →
  queues_ok (wupd W (pool_qid i) l) (pst y h tab p).
Proof.
  intros Hok Hx Hr Hsame Hx'. pose proof (yst_ok_held _ _ h Hok) as [Hp _ _]. split.
  - unfold pst. rewrite pl_sched. unfold yst. cbn.
    replace (sst (y_sched y) h tab) with (sub_set tab (y_sched (yst y h (ytab y)))).
    + apply (pk_ok_wait _ X); [done|]. unfold yst. cbn. by rewrite sst_tab.
    + unfold yst. cbn. apply sst_set_tab.
  - intros q. rewrite pst_tab. unfold wupd. destruct (decide (q = pool_qid i)) as [->|Hne].
    + rewrite pl_queue. fold (the_pool (A := A) (pst y h tab p)). by rewrite pst_pool.
    + apply (wq_rep_frame X (ytab y)); [done|intros t Ht; by apply (Hx' q)|].
      destruct (pl_dec q) as [[j ->]|Hno].
      * rewrite pl_queue. fold (the_pool (A := A) (pst y h tab p)). rewrite pst_pool, Hsame by congruence.
        unfold the_pool. rewrite <- pl_queue. apply Hok.
      * unfold pst. rewrite pl_other, yst_queue by done. apply Hok.
  - intros q q' t. unfold wupd. destruct (decide (q = pool_qid i)), (decide (q' = pool_qid i)); try congruence.
    + intros Hl Hq. by destruct (Hx' q' t).
    + intros Hq Hl. by destruct (Hx' q t).
    + apply Hok.
Qed.

(** Updates that leave the queues alone. *)
Lemma queues_ok_pool W y h p :
  queues_ok W y → (∀ j, waiters (p_obj p j) = waiters (p_obj (the_pool y) j)) →
  queues_ok W (pst y h (ytab y) p).
Proof.
  intros Hok Hsame. destruct (yst_ok_held _ _ h Hok) as [Hp Hr Hd]. split; [|intros q|done].
  - unfold pst. by rewrite pl_sched.
  - rewrite pst_tab. destruct (pl_dec q) as [[j ->]|Hno].
    + rewrite pl_queue. fold (the_pool (A := A) (pst y h (ytab y) p)). rewrite pst_pool, Hsame.
      unfold the_pool. rewrite <- pl_queue. apply Hok.
    + unfold pst. rewrite pl_other, yst_queue by done. apply Hok.
Qed.

(** ** Queue operations on an object *)

Lemma obj_enqueue_spec W y h p i t :
  queues_ok W y → the_pool y = p → index_ok i = true → slot_ok t = true → (∀ q, t ∉ W q) →
  wp (obj_enqueue (A := A) i (Some t)) (λ b y', b = true ∧ ∃ tab q,
    y' = pst y h tab (p_upd_obj i (set_waiters q) p) ∧
    queues_ok (wupd W (pool_qid i) (W (pool_qid i) ++ [t])) y' ∧
    only_wait_next (t :: W (pool_qid i)) (ytab y) tab) (pst y h (ytab y) p).
Proof.
  intros Hok Hp Hi Ht Hn. unfold obj_enqueue, get_obj, upd_obj. wp_step. apply wp_get_pool; [done|]. wp_step.
  pose proof (qo_rep _ _ Hok (pool_qid i)) as Hr. rewrite pl_queue in Hr. fold (the_pool (A := A) y) in Hr. rewrite Hp in Hr.
  apply wp_ptasks. eapply wp_mono; [by apply (wq_enqueue_spec _ _ (W (pool_qid i)) t)|].
  intros [b q] tab. rewrite decide_False by apply Hn. cbn. intros (-> & Hq & Hx).
  wp_step. apply wp_set_pool; [done|]. wp_step. split; [done|]. exists tab, q.
  assert (only_wait_next (t :: W (pool_qid i)) (ytab y) tab) as Hx'.
  { intros j. destruct (Hx j) as (v & E & F). exists v. split; [done|]. intros Hj. apply F.
    intros Hin. apply Hj. destruct (last (W (pool_qid i))) as [z|] eqn:Hz.
    - apply elem_of_cons in Hin as [->|Hin]; [by left|]. apply list_elem_of_singleton in Hin as ->.
      right. by apply last_Some_elem_of.
    - apply list_elem_of_singleton in Hin as ->. by left. }
  split; [done|]. split; [|done].
  apply (queues_ok_pst _ _ _ _ _ (t :: W (pool_qid i))); [done|done| | |].
  - rewrite p_obj_upd, decide_True by done. exact Hq.
  - intros j Hj. rewrite p_obj_upd, decide_False by done. by rewrite Hp.
  - intros q' t' Hq' Ht'. assert (t' ∉ W (pool_qid i)) as Hni.
    { intros Hin. apply Hq'. by apply (qo_disj _ _ Hok _ _ t'). }
    assert (t' ≠ t) by (intros ->; by apply (Hn q')). split; set_solver.
Qed.

Lemma obj_dequeue_spec W y h p i :
  queues_ok W y → the_pool y = p → index_ok i = true →
  wp (obj_dequeue (A := A) i) (λ r y', r = head (W (pool_qid i)) ∧ ∃ tab q,
    y' = pst y h tab (p_upd_obj i (set_waiters q) p) ∧
    queues_ok (wupd W (pool_qid i) (tail (W (pool_qid i)))) y' ∧
    only_wait_next (W (pool_qid i)) (ytab y) tab) (pst y h (ytab y) p).
Proof.
  intros Hok Hp Hi. unfold obj_dequeue, get_obj, upd_obj. wp_step. apply wp_get_pool; [done|]. wp_step.
  pose proof (qo_rep _ _ Hok (pool_qid i)) as Hr. rewrite pl_queue in Hr. fold (the_pool (A := A) y) in Hr. rewrite Hp in Hr.
  apply wp_ptasks. eapply wp_mono; [by apply (wq_dequeue_spec _ _ (W (pool_qid i)))|].
  intros [r q] tab Hd.
  assert (r = head (W (pool_qid i)) ∧ wq_rep tab q (tail (W (pool_qid i))) ∧
          only_wait_next (W (pool_qid i)) (ytab y) tab) as (-> & Hq & Hx).
  { destruct (W (pool_qid i)) as [|t l]; [destruct Hd as [[= -> ->] ->]; split; [done|]; split; [done|apply owx_refl]|].
    cbn in Hd. destruct Hd as (-> & Hq & Hx & _). split; [done|]. split; [done|].
    intros j. destruct (Hx j) as (v & E & F). exists v. split; [done|]. intros Hj. apply F. set_solver. }
  wp_step. apply wp_set_pool; [done|]. wp_step. split; [done|]. exists tab, q. split; [done|]. split; [|done].
  apply (queues_ok_pst _ _ _ _ _ (W (pool_qid i))); [done|done| | |].
  - rewrite p_obj_upd, decide_True by done. exact Hq.
  - intros j Hj. rewrite p_obj_upd, decide_False by done. by rewrite Hp.
  - intros q' t' Hq' Ht'. assert (t' ∉ W (pool_qid i)) as Hni.
    { intros Hin. apply Hq'. by apply (qo_disj _ _ Hok _ _ t'). }
    split; [done|]. intros Hin. apply Hni. destruct (W (pool_qid i)); [done|]. by right.
Qed.

Lemma obj_remove_spec W y h p i t :
  queues_ok W y → the_pool y = p → index_ok i = true →
  wp (obj_remove (A := A) i (Some t)) (λ b y', b = bool_decide (t ∈ W (pool_qid i)) ∧ ∃ tab q,
    y' = pst y h tab (p_upd_obj i (set_waiters q) p) ∧
    queues_ok (wupd W (pool_qid i) (without t (W (pool_qid i)))) y' ∧
    only_wait_next (W (pool_qid i)) (ytab y) tab) (pst y h (ytab y) p).
Proof.
  intros Hok Hp Hi. unfold obj_remove, get_obj, upd_obj. wp_step. apply wp_get_pool; [done|]. wp_step.
  pose proof (qo_rep _ _ Hok (pool_qid i)) as Hr. rewrite pl_queue in Hr. fold (the_pool (A := A) y) in Hr. rewrite Hp in Hr.
  apply wp_ptasks. eapply wp_mono; [by apply (wq_remove_spec _ _ (W (pool_qid i)))|].
  intros [b q] tab Hd.
  assert (b = bool_decide (t ∈ W (pool_qid i)) ∧ wq_rep tab q (without t (W (pool_qid i))) ∧
          only_wait_next (W (pool_qid i)) (ytab y) tab) as (-> & Hq & Hx).
  { destruct (decide (t ∈ W (pool_qid i))) as [Hin|Hin].
    - cbn in Hd. destruct Hd as (-> & Hq & Hx). rewrite bool_decide_true by done. done.
    - destruct Hd as [[= -> ->] ->]. rewrite bool_decide_false, without_id by done.
      split; [done|]. split; [done|apply owx_refl]. }
  wp_step. apply wp_set_pool; [done|]. wp_step. split; [done|]. exists tab, q. split; [done|]. split; [|done].
  apply (queues_ok_pst _ _ _ _ _ (W (pool_qid i))); [done|done| | |].
  - rewrite p_obj_upd, decide_True by done. exact Hq.
  - intros j Hj. rewrite p_obj_upd, decide_False by done. by rewrite Hp.
  - intros q' t' Hq' Ht'. assert (t' ∉ W (pool_qid i)) as Hni.
    { intros Hin. apply Hq'. by apply (qo_disj _ _ Hok _ _ t'). }
    split; [done|]. unfold without. rewrite list_elem_of_filter. tauto.
Qed.

(** ** Critical sections on one object *)

Definition obj_at y (i : Z) : pooled A := p_obj (the_pool y) i.

(** The effect of a critical section on object [i]: its body and the queues. *)
Record obj_eff W y (i : Z) W' (b' : A) y' : Prop := {
  oe_ok : queues_ok W' y';
  oe_body : body (obj_at y' i) = b';
  oe_view : ∀ j, tview (ytask y' j) = tview (ytask y j);
  oe_held : yheld y' = yheld y;
  oe_cur : pk_cur (y_sched y') = pk_cur (y_sched y);
  oe_frame : ∃ s p, y' = sub_set p (y <| y_sched := s |>);
}.

Definition lockable y (i : Z) : Prop :=
  index_ok i = true ∧ can_lock (object_lock i) (yheld y) = true.

Lemma wp_pst {B} (m : M (ystate S) B) Q y :
  wp m Q (pst y (yheld y) (ytab y) (the_pool y)) → wp m Q y.
Proof. by rewrite pst_id. Qed.

Lemma pst_view y h tab p X j : only_wait_next X (ytab y) tab →
  tview (ytask (pst y h tab p) j) = tview (ytask y j).
Proof. intros Hx. unfold ytask. rewrite pst_tab. by apply (owx_tview X). Qed.

Lemma pst_pk W y h p : queues_ok W y → (∀ j, waiters (p_obj p j) = waiters (p_obj (the_pool y) j)) →
  pk_ok (y_sched (pst y h (ytab y) p)).
Proof. intros Hok Hp. by eapply qo_pk, queues_ok_pool. Qed.

(** Only the object changes, not its queue. *)
Lemma obj_eff_body W y i b' f :
  queues_ok W y → (∀ m, waiters (f m) = waiters m) → body (f (obj_at y i)) = b' →
  obj_eff W y i W b' (pst y (yheld y) (ytab y) (p_upd_obj i f (the_pool y))).
Proof.
  intros Hok Hw Hb. split.
  - apply queues_ok_pool; [done|]. intros j. rewrite p_obj_upd. case_decide as E; [subst; apply Hw|done].
  - unfold obj_at. by rewrite pst_pool, p_obj_upd, decide_True.
  - intros j. apply (pst_view _ _ _ _ []), owx_refl.
  - apply pst_held.
  - apply pst_cur.
  - by eexists _, _.
Qed.

(** The queue of the object, and perhaps its body, change. *)
Lemma obj_eff_queue W y i W' X b' tab p :
  queues_ok W' (pst y (yheld y) tab p) → only_wait_next X (ytab y) tab → body (p_obj p i) = b' →
  obj_eff W y i W' b' (pst y (yheld y) tab p).
Proof.
  intros Hok Hx Hb. split; [done| | | | |].
  - unfold obj_at. by rewrite pst_pool.
  - intros j. by apply (pst_view _ _ _ _ X).
  - apply pst_held.
  - apply pst_cur.
  - by eexists _, _.
Qed.

(** [queues_ok] does not depend on the locks held. *)
Lemma queues_ok_relock W y h h' tab p : queues_ok W (pst y h tab p) → queues_ok W (pst y h' tab p).
Proof.
  intros Hok. apply (yst_ok_held _ _ h') in Hok. rewrite pst_tab in Hok.
  rewrite pst_alt, yst_yst, <- pst_alt in Hok. done.
Qed.

(** A change of the object after one of its queue. *)
Lemma queues_ok_upd W y h tab p i f : queues_ok W (pst y h tab p) → (∀ m, waiters (f m) = waiters m) →
  queues_ok W (pst y h tab (p_upd_obj i f p)).
Proof.
  intros Hok Hf. apply (queues_ok_pool _ _ h (p_upd_obj i f p)) in Hok.
  - by rewrite pst_tab, pst_pst in Hok.
  - intros j. rewrite pst_pool, p_obj_upd. by case_decide; subst.
Qed.

(** An empty queue stays one. *)
Lemma queues_ok_nil W y q : queues_ok W y → W q = [] → queues_ok (wupd W q []) y.
Proof.
  intros [Hp Hr Hd] Hq. split; [done|intros q'|intros q' q'' t]; unfold wupd.
  - destruct (decide (q' = q)) as [->|]; [rewrite <- Hq|]; apply Hr.
  - destruct (decide (q' = q)), (decide (q'' = q)); set_solver.
Qed.

End pools.

(** ** Parking and unparking *)

(** What a call into the scheduler changes. *)
Record sched_eff W y y' (t : Z) (f : task → task) : Prop := {
  se_ok : queues_ok W y';
  se_view : ∀ j, tview (ytask y' j) = if decide (j = t) then tview (f (ytask y t)) else tview (ytask y j);
  se_held : yheld y' = yheld y;
  se_cur : pk_cur (y_sched y') = pk_cur (y_sched y);
  se_mutex : mutex_pool y' = mutex_pool y;
  se_sem : semaphore_pool y' = semaphore_pool y;
  se_cond : condvar_pool y' = condvar_pool y;
  se_ipc : ipc_channels y' = ipc_channels y;
}.

Lemma sched_eff_intro W y s t f :
  queues_ok W y → pk_ok s → pk_effect (y_sched y) s t f → pk_cur s = pk_cur (y_sched y) →
  (∀ x, wait_next (f x) = wait_next x) → sched_eff W y (y <| y_sched := s |>) t f.
Proof.
  intros [Hp Hr Hd] Hs [Hh He] Hc Hf.
  assert (∀ j, wait_next (pk_task s j) = wait_next (ytask y j)) as Hw.
  { intros j. specialize (He j). destruct (decide (j = t)) as [->|];
      apply core_wait_next in He; rewrite He; [apply Hf|done]. }
  split; try done.
  - split; [done| |done]. intros q. destruct (Hr q) as [Hq Hok]. split; [|done].
    replace (queue_at (y <| y_sched := s |>) q) with (queue_at y q) by (by destruct q).
    apply (qrep_frame (wnext (ytab y))); [done|]. intros j _. apply Hw.
  - intros j. specialize (He j). destruct (decide (j = t)) as [->|]; by apply core_tview in He.
Qed.

Lemma parked_wait_next x : wait_next (parked x) = wait_next x.
Proof. unfold parked. by repeat case_match. Qed.
Lemma unparked_wait_next x : wait_next (unparked x) = wait_next x.
Proof. unfold unparked, readied. by repeat case_match. Qed.

Lemma wp_sched_unpark W y cpu t :
  queues_ok W y → can_lock L_sched (yheld y) = true → slot_ok t = true →
  wp (y_unpark cpu (Some t)) (λ _ y', sched_eff W y y' t unparked) y.
Proof.
  intros Hok Hl Ht. unfold y_unpark. rewrite wp_up. change (sub_get y) with (y_sched y).
  eapply wp_mono; [apply (pk_unpark_spec _ cpu t); [apply Hok|done|done]|].
  intros [] s (Hs & He & Hc). apply sched_eff_intro; try done. apply unparked_wait_next.
Qed.

End spec.

Lemma wp_sched_park {S : Type} `{ParkingLaws S} (W : qid → list Z) (y : ystate S) t :
  queues_ok W y → can_lock L_sched (yheld y) = true → slot_ok t = true →
  wp (y_park (Some t)) (λ b y', b = parks (ytask y t) ∧ sched_eff W y y' t parked) y.
Proof.
  intros Hok Hl Ht. unfold y_park. rewrite wp_up. change (sub_get y) with (y_sched y).
  eapply wp_mono; [apply (pk_park_spec _ t); [apply Hok|done|done]|].
  intros b s (Hs & -> & He & Hc). split; [done|].
  apply sched_eff_intro; try done. apply parked_wait_next.
Qed.
