(* ===== verification/PoolSpec.v ===== *)
(** * Pools of objects addressed by handles: what pin, unpin, alloc and free do,
    and the life of a handle. *)

From S2P Require Import Prelude Machine Task WaitQueue SchedQueue SchedOps Sync SyncSpec.

Open Scope kernel_scope.

(** The next generation of a slot. *)
Definition next_gen (g : Z) : Z :=
  let g' := u32 (g + 1) in if (g' =? 0) || (HANDLE_GENERATION_MAX <? g') then 1 else g'.

Definition next_gens (k : nat) (g : Z) : Z := Nat.iter k next_gen g.

Lemma next_gen_eq g : 0 ≤ g ≤ HANDLE_GENERATION_MAX →
  next_gen g = if g =? HANDLE_GENERATION_MAX then 1 else g + 1.
Proof.
  unfold next_gen, HANDLE_GENERATION_MAX. intros Hg. rewrite u32_small by lia.
  bfalse (g + 1 =? 0). cbn [orb].
  destruct (g =? 0x01ffffff) eqn:E; bool_to_prop; [by btrue (0x01ffffff <? g + 1)|by bfalse (0x01ffffff <? g + 1)].
Qed.

Lemma next_gens_eq k g : 1 ≤ g ≤ HANDLE_GENERATION_MAX →
  next_gens k g = (g - 1 + Z.of_nat k) mod HANDLE_GENERATION_MAX + 1.
Proof.
  intros Hg. induction k as [|k IH].
  - cbn. unfold HANDLE_GENERATION_MAX in *. rewrite Z.mod_small; lia.
  - change (next_gens (S k) g) with (next_gen (next_gens k g)). rewrite IH. clear IH.
    unfold HANDLE_GENERATION_MAX in *. rewrite next_gen_eq; unfold HANDLE_GENERATION_MAX.
    + destruct (_ =? _) eqn:E; bool_to_prop; Z.div_mod_to_equations; lia.
    + Z.div_mod_to_equations; lia.
Qed.

Lemma next_gens_range k g : 1 ≤ g ≤ HANDLE_GENERATION_MAX → 1 ≤ next_gens k g ≤ HANDLE_GENERATION_MAX.
Proof.
  intros Hg. rewrite next_gens_eq by done. unfold HANDLE_GENERATION_MAX in *. Z.div_mod_to_equations. lia.
Qed.

(** A slot takes [HANDLE_GENERATION_MAX] allocations to come back to a generation. *)
Lemma next_gens_ne k g : 1 ≤ g ≤ HANDLE_GENERATION_MAX → 0 < Z.of_nat k < HANDLE_GENERATION_MAX →
  next_gens k g ≠ g.
Proof.
  intros Hg Hk. rewrite next_gens_eq by done. unfold HANDLE_GENERATION_MAX in *. Z.div_mod_to_equations. lia.
Qed.

(** ** The encoding of handles *)

Lemma make_handle_eq index gen : 0 ≤ index < 64 → 0 ≤ gen ≤ HANDLE_GENERATION_MAX →
  make_handle index gen = gen * 64 + index.
Proof.
  unfold make_handle, HANDLE_GENERATION_MAX, HANDLE_INDEX_BITS. intros Hi Hg.
  rewrite Z.shiftl_mul_pow2 by lia. change (2 ^ 6) with 64. rewrite !u32_small by lia.
  replace (Z.lor (gen * 64) index) with (gen * 64 + index).
  - unfold s32. rewrite u32_small by lia. by btrue (gen * 64 + index <? 2 ^ 31).
  - rewrite <- Z.add_lor_land.
    replace (Z.land (gen * 64) index) with 0; [lia|]. symmetry. apply Z.bits_inj_0. intros n.
    rewrite Z.land_spec. change 64 with (2 ^ 6). destruct (decide (0 ≤ n)) as [Hn|]; [|by rewrite !Z.testbit_neg_r by lia].
    destruct (decide (n < 6)); [by rewrite Z.mul_pow2_bits_low|].
    rewrite (Z.bits_above_log2 index n), andb_false_r; [done|lia|].
    destruct (decide (index = 0)) as [->|]; [cbn; lia|]. apply Z.log2_lt_pow2; [lia|].
    assert (2 ^ 6 ≤ 2 ^ n) by (apply Z.pow_le_mono_r; lia). lia.
Qed.

Lemma handle_index_eq h : 0 ≤ h < 2 ^ 31 → handle_index h = h mod 64.
Proof.
  intros Hh. unfold handle_index, HANDLE_INDEX_MASK. bfalse (h <? 0). rewrite u32_small by lia.
  change 63 with (Z.ones 6). by rewrite Z.land_ones by lia.
Qed.

Lemma handle_generation_eq h : 0 ≤ h < 2 ^ 31 → handle_generation h = h / 64.
Proof.
  intros Hh. unfold handle_generation, HANDLE_INDEX_BITS. rewrite u32_small by lia.
  by rewrite Z.shiftr_div_pow2 by lia.
Qed.

Lemma handle_index_range h : 0 ≤ h < 2 ^ 31 → 0 ≤ handle_index h < 64.
Proof. intros. rewrite handle_index_eq by done. Z.div_mod_to_equations. lia. Qed.

Lemma good_handle h : bad_handle h = false → index_ok (handle_index h) = true ∧ 1 ≤ handle_generation h.
Proof.
  unfold bad_handle, index_ok. intros [[Hi Hm]%orb_false_iff Hg]%orb_false_iff. bool_to_prop.
  split; [apply andb_true_iff; split; [by apply Z.leb_le|by apply Z.ltb_lt]|].
  unfold handle_generation in *. assert (0 ≤ Z.shiftr (u32 h) HANDLE_INDEX_BITS); [|lia].
  apply Z.shiftr_nonneg. unfold u32. apply Z.mod_pos_bound. lia.
Qed.

Section spec.
Context {S : Type} `{WakeLaws S}.
Context {A : Type} `{PoolLaws S A}.
Implicit Types y : ystate S.
Implicit Types p : pool A.

(** A handle names a live object. *)
Definition valid p (h : Z) : bool :=
  negb (bad_handle h) && negb (p_used p (handle_index h) =? 0) &&
  (p_gen p (handle_index h) =? handle_generation h) && (destroying (p_obj p (handle_index h)) =? 0).

Definition add_op (o : pooled A) : pooled A := set_ops (u32 (active_ops o + 1)) o.

(** [y] with the pool [p]. *)
Definition with_pool y p : ystate S := pst y (yheld y) (ytab y) p.

Lemma valid_split p h : bad_handle h = false →
  valid p h = negb ((p_used p (handle_index h) =? 0) || negb (p_gen p (handle_index h) =? handle_generation h)
                    || negb (destroying (p_obj p (handle_index h)) =? 0)).
Proof. intros Hb. unfold valid. rewrite Hb. cbn [negb andb]. by rewrite !negb_orb, !negb_involutive. Qed.

Lemma valid_bad p h : bad_handle h = true → valid p h = false.
Proof. intros Hb. unfold valid. by rewrite Hb. Qed.

Lemma pool_pin_spec y h : can_lock pool_lock (yheld y) = true →
  wp (pool_pin (A := A) h) (λ r y',
    if valid (the_pool y) h
    then r = Some (handle_index h) ∧ y' = with_pool y (p_upd_obj (handle_index h) add_op (the_pool y))
    else r = None ∧ y' = y) y.
Proof.
  intros Hl. unfold pool_pin. destruct (bad_handle h) eqn:Hb.
  { rewrite valid_bad by done. by wp_step. }
  destruct (good_handle h Hb) as [Hi _]. apply wp_pst. unfold get_used, get_gen, get_obj, upd_obj.
  wp_step. apply wp_plock; [done|]. do 3 (wp_step; apply wp_get_pool; [done|]).
  rewrite valid_split by done. destruct (_ || _); cbn [negb].
  - wp_step. apply wp_punlock. wp_step. split; [done|apply pst_id].
  - wp_step. apply wp_set_pool; [done|]. wp_step. apply wp_punlock. by wp_step.
Qed.

Lemma pool_unpin_spec y i : can_lock pool_lock (yheld y) = true → index_ok i = true →
  wp (pool_unpin (A := A) i) (λ _ y', y' = with_pool y (p_upd_obj i drop_op (the_pool y))) y.
Proof.
  intros Hl Hi. unfold pool_unpin, upd_obj. apply wp_pst. wp_step. apply wp_plock; [done|].
  wp_step. apply wp_set_pool; [done|]. by apply wp_punlock.
Qed.

(** ** Allocation *)

(** The first free slot. *)
Definition free_slot p : option Z := find (λ i, p_used p i =? 0) (upto 0 POOL_MAX).

Lemma free_slot_some p i : free_slot p = Some i → index_ok i = true ∧ p_used p i = 0.
Proof.
  intros [Hin Hu]%find_some. apply Z.eqb_eq in Hu. split; [|done].
  apply list_elem_of_In in Hin. rewrite upto_seqZ in Hin. apply elem_of_seqZ in Hin. unfold POOL_MAX in *.
  apply andb_true_iff. split; [apply Z.leb_le|apply Z.ltb_lt]; unfold POOL_MAX; lia.
Qed.

Definition allocated (init : pooled A → pooled A) (i : Z) p : pool A :=
  p_upd_obj i init (p_set_used i 1 (p_set_gen i (next_gen (p_gen p i)) p)).

Lemma p_gen_set p i v j : p_gen (p_set_gen i v p) j = if decide (i = j) then v else p_gen p j.
Proof. unfold p_gen, p_set_gen. cbn. rewrite lookup_insert. by case_decide. Qed.
Lemma p_used_set p i v j : p_used (p_set_used i v p) j = if decide (i = j) then v else p_used p j.
Proof. unfold p_used, p_set_used. cbn. rewrite lookup_insert. by case_decide. Qed.

Lemma p_set_gen_twice p i v w : p_set_gen i v (p_set_gen i w p) = p_set_gen i v p.
Proof. unfold p_set_gen. cbn. f_equal. apply insert_insert_eq. Qed.

Lemma pool_alloc_spec y init : can_lock pool_lock (yheld y) = true →
  wp (pool_alloc init) (λ r y',
    match free_slot (the_pool y) with
    | Some i => r = make_handle i (next_gen (p_gen (the_pool y) i)) ∧ y' = with_pool y (allocated init i (the_pool y))
    | None => r = -1 ∧ y' = y
    end) y.
Proof.
  intros Hl. unfold pool_alloc. apply wp_pst. wp_step. apply wp_plock; [done|]. wp_step.
  set (p := the_pool y). set (y1 := pst y _ _ p).
  eapply wp_mono; [apply (wp_iterM _ _ _ (λ pre _ s, s = y1 ∧ ∀ j, j ∈ pre → p_used p j ≠ 0)
    (λ r s, ∃ i, free_slot p = Some i ∧ r = make_handle i (next_gen (p_gen p i)) ∧
            s = with_pool y (allocated init i p)))|].
  - split; [done|]. by intros j ?%not_elem_of_nil.
  - intros pre i post [] s Heq [-> Hpre]. assert (index_ok i = true) as Hi.
    { assert (i ∈ upto 0 POOL_MAX) as Hin by (rewrite Heq; set_solver).
      rewrite upto_seqZ in Hin. apply elem_of_seqZ in Hin. unfold index_ok, POOL_MAX in *.
      apply andb_true_iff. split; [apply Z.leb_le|apply Z.ltb_lt]; lia. }
    unfold get_used, get_gen, set_gen, set_used, upd_obj. wp_step. apply wp_get_pool; [done|].
    destruct (p_used p i =? 0) eqn:Hu; bool_to_prop.
    + do 3 (wp_step; first [apply wp_get_pool; [done|]|apply wp_set_pool; [done|]]).
      assert (free_slot p = Some i) as Hf.
      { unfold free_slot. rewrite Heq. clear Heq. induction pre as [|j pre IH]; cbn.
        - by rewrite (proj2 (Z.eqb_eq _ _) Hu).
        - rewrite (proj2 (Z.eqb_neq _ _)) by (apply Hpre; set_solver). apply IH. intros k Hk. apply Hpre. set_solver. }
      rewrite p_gen_set, decide_True by done. wp_step.
      eapply (wp_mono _ (λ _ s, s = pst y (pool_lock :: yheld y) (ytab y) (p_set_gen i (next_gen (p_gen p i)) p))).
      { unfold next_gen. destruct (_ || _); cbn [whenM].
        - apply wp_set_pool; [done|]. by rewrite p_set_gen_twice.
        - by wp_step. }
      intros [] s ->. do 2 (wp_step; apply wp_set_pool; [done|]). wp_step. apply wp_punlock.
      wp_step. apply wp_get_pool; [done|]. wp_step. exists i. split; [done|]. split; [|done].
      unfold p_upd_obj, p_set_used, p_gen. cbn. by rewrite lookup_insert_eq.
    + wp_step. split; [done|]. intros j. rewrite elem_of_app, list_elem_of_singleton. intros [?| ->]; [by apply Hpre|done].
  - intros [[]|r] s.
    + intros [-> Hno]. wp_step. apply wp_punlock. wp_step.
      destruct (free_slot p) as [i|] eqn:Hf.
      * apply find_some in Hf as [Hin Hu]. apply Z.eqb_eq in Hu. by destruct (Hno i); [by apply list_elem_of_In|].
      * split; [done|apply pst_id].
    + intros (i & -> & -> & ->). by wp_step.
Qed.

(** ** Freeing *)

(** The same objects, use flags and generations. *)
Definition pool_same p p' : Prop :=
  (∀ j, p_obj p' j = p_obj p j) ∧ (∀ j, p_used p' j = p_used p j) ∧ (∀ j, p_gen p' j = p_gen p j).

Definition freed (i : Z) p : pool A := p_set_used i 0 p.

Lemma pool_same_destroying p i : destroying (p_obj p i) = 0 →
  pool_same p (p_upd_obj i (set_destroying 0) (p_upd_obj i (set_destroying 1) p)).
Proof.
  intros Hd. split; [|done]. intros j. rewrite !p_obj_upd.
  rewrite (decide_True (P := i = i)) by done. case_decide as E; [subst j|done].
  destruct (p_obj p i) as [b w n d]. cbn in *. by subst d.
Qed.

(** Once the object is marked, it is freed unless it is busy. *)
Lemma free_if_idle_spec y busy i g :
  can_lock pool_lock (yheld y) = true → can_lock (object_lock i) (yheld y) = true → index_ok i = true →
  p_used (the_pool y) i ≠ 0 → p_gen (the_pool y) i = g → destroying (p_obj (the_pool y) i) = 0 →
  (∀ o, busy (set_destroying 1 o) = busy o) →
  wp (pool_free_if_idle busy i g) (λ b y', b = negb (busy (p_obj (the_pool y) i)) ∧
    ∃ p', y' = with_pool y p' ∧ pool_same (if b then freed i (the_pool y) else the_pool y) p')
    (pst y (yheld y) (ytab y) (p_upd_obj i (set_destroying 1) (the_pool y))).
Proof.
  intros Hlp Hlo Hi Hu Hg Hd Hb. unfold pool_free_if_idle, pool_release, get_obj, get_used, get_gen, set_used, upd_obj.
  wp_step. apply wp_plock; [done|]. wp_step. apply wp_get_pool; [done|].
  rewrite p_obj_upd, decide_True, Hb by done. destruct (busy _); cbn [negb].
  - wp_step. apply wp_punlock. wp_step. apply wp_plock; [done|]. wp_step. apply wp_set_pool; [done|].
    wp_step. apply wp_punlock. wp_step. split; [done|]. eexists. split; [done|]. by apply pool_same_destroying.
  - wp_step. apply wp_punlock. wp_step. apply wp_plock; [done|]. do 2 (wp_step; apply wp_get_pool; [done|]).
    change (p_used (p_upd_obj _ _ ?p)) with (p_used p). change (p_gen (p_upd_obj _ _ ?p)) with (p_gen p).
    rewrite (proj2 (Z.eqb_neq _ _) Hu), Hg, Z.eqb_refl. cbn [negb orb].
    do 2 (wp_step; apply wp_set_pool; [done|]). wp_step. apply wp_punlock. wp_step. split; [done|]. eexists. split; [done|].
    destruct (pool_same_destroying (the_pool y) i Hd) as [Ho _]. split; [|done]. exact Ho.
Qed.

Lemma pool_free_spec y h :
  can_lock pool_lock (yheld y) = true → can_lock (object_lock (handle_index h)) (yheld y) = true →
  wp (pool_free (A := A) h) (λ b y',
    b = valid (the_pool y) h && (active_ops (p_obj (the_pool y) (handle_index h)) =? 0)
        && wait_queue_empty (waiters (p_obj (the_pool y) (handle_index h))) ∧
    ∃ p', y' = with_pool y p' ∧ pool_same (if b then freed (handle_index h) (the_pool y) else the_pool y) p') y.
Proof.
  intros Hlp Hlo. unfold pool_free. destruct (bad_handle h) eqn:Hb.
  { rewrite valid_bad by done. wp_step. split; [done|]. exists (the_pool y). split; [symmetry; apply pst_id|done]. }
  destruct (good_handle h Hb) as [Hi _]. apply wp_pst. unfold get_used, get_gen, get_obj, upd_obj.
  wp_step. apply wp_plock; [done|]. do 3 (wp_step; apply wp_get_pool; [done|]).
  rewrite valid_split by done. set (p := the_pool y). set (i := handle_index h) in *.
  destruct (p_used p i =? 0) eqn:Hu, (p_gen p i =? handle_generation h) eqn:Hg,
    (destroying (p_obj p i) =? 0) eqn:Hd, (active_ops (p_obj p i) =? 0) eqn:Ha; cbn [negb orb andb];
    try by (wp_step; apply wp_punlock; wp_step; split; [done|]; exists p; split; [done|]; split).
  wp_step. apply wp_set_pool; [done|]. wp_step. apply wp_punlock. bool_to_prop.
  eapply wp_mono; [apply (free_if_idle_spec y); try done|].
  intros b y' [-> Hp]. by rewrite negb_involutive in *.
Qed.

(** ** The life of a handle *)

(** The calls on a pool. *)
Inductive pool_op : Type :=
  | PAlloc (init : pooled A → pooled A) | PFree (h : Z) | PPin (h : Z) | PUnpin (i : Z).

Definition pool_exec (o : pool_op) : M (ystate S) unit :=
  match o with
  | PAlloc init => pool_alloc init ;; mret ()
  | PFree h => pool_free (A := A) h ;; mret ()
  | PPin h => pool_pin (A := A) h ;; mret ()
  | PUnpin i => pool_unpin (A := A) i
  end.

Definition pool_op_ok (o : pool_op) : Prop := match o with PUnpin i => index_ok i = true | _ => True end.
Definition is_alloc (o : pool_op) : bool := match o with PAlloc _ => true | _ => false end.
Definition allocs (ops : list pool_op) : nat := length (List.filter is_alloc ops).

(** Slot [i] has been allocated [k] times since its generation was [g]; at
    first it is free. *)
Definition aged (i g : Z) (k : nat) p : Prop :=
  ∃ j, (j ≤ k)%nat ∧ p_gen p i = next_gens j g ∧ (j = 0%nat → p_used p i = 0).

Lemma aged_mono i g k k' p : (k ≤ k')%nat → aged i g k p → aged i g k' p.
Proof. intros Hk (j & Hj & ?). exists j. split; [lia|done]. Qed.

Lemma aged_same i g k p p' : pool_same p p' → aged i g k p → aged i g k p'.
Proof. intros (_ & Hu & Hg) (j & Hj & E1 & E2). exists j. by rewrite Hu, Hg. Qed.

Lemma with_pool_pool y p : the_pool (with_pool y p) = p.
Proof. apply pst_pool. Qed.
Lemma with_pool_held y p : yheld (with_pool y p) = yheld y.
Proof. apply pst_held. Qed.

Lemma pool_exec_aged i g k y o :
  (∀ l, can_lock l (yheld y) = true) → pool_op_ok o → aged i g k (the_pool y) →
  wp (pool_exec o) (λ _ y', yheld y' = yheld y ∧ aged i g (k + if is_alloc o then 1 else 0) (the_pool y')) y.
Proof.
  intros Hl Ho Ha. destruct o as [init|h|h|j]; cbn [pool_exec is_alloc pool_op_ok] in *.
  - wp_step. eapply wp_mono; [by apply pool_alloc_spec|]. intros r y' Hr. wp_step.
    destruct (free_slot (the_pool y)) as [m|] eqn:Hf; destruct Hr as [_ ->].
    + rewrite with_pool_held, with_pool_pool. split; [done|]. destruct Ha as (j & Hj & E1 & E2).
      unfold allocated. destruct (decide (m = i)) as [->|Hne].
      * exists (Datatypes.S j). split; [lia|]. split; [|done].
        change (p_gen (p_upd_obj ?a ?b (p_set_used ?c ?d ?p))) with (p_gen p). rewrite p_gen_set, decide_True by done.
        rewrite E1. done.
      * exists j. split; [lia|]. change (p_gen (p_upd_obj ?a ?b (p_set_used ?c ?d ?p))) with (p_gen p).
        change (p_used (p_upd_obj ?a ?b ?p)) with (p_used p). rewrite p_gen_set, p_used_set, !decide_False by done. done.
    + split; [done|]. by apply (aged_mono _ _ k); [lia|].
  - wp_step. eapply wp_mono; [by apply pool_free_spec|]. intros b y' (_ & p' & -> & Hs). wp_step.
    rewrite with_pool_held, with_pool_pool, Nat.add_0_r. split; [done|]. eapply aged_same; [exact Hs|].
    destruct b; [|done]. destruct Ha as (j & Hj & E1 & E2). exists j. split; [done|]. split; [done|].
    intros Hj0. unfold freed. rewrite p_used_set. case_decide; auto.
  - wp_step. eapply wp_mono; [by apply pool_pin_spec|]. intros r y' Hr. wp_step. rewrite Nat.add_0_r.
    destruct (valid _ _); destruct Hr as [_ ->]; [|done]. by rewrite with_pool_held, with_pool_pool.
  - eapply wp_mono; [by apply pool_unpin_spec|]. intros [] y' ->. rewrite Nat.add_0_r.
    by rewrite with_pool_held, with_pool_pool.
Qed.

Lemma pool_run_aged i g ops : ∀ k y,
  (∀ l, can_lock l (yheld y) = true) → Forall pool_op_ok ops → aged i g k (the_pool y) →
  wp (forM_ ops pool_exec) (λ _ y', yheld y' = yheld y ∧ aged i g (k + allocs ops) (the_pool y')) y.
Proof.
  induction ops as [|o ops IH]; intros k y Hl Ho Ha; cbn [forM_].
  - wp_step. unfold allocs. cbn. by rewrite Nat.add_0_r.
  - apply Forall_cons in Ho as [Ho1 Ho]. wp_step. eapply wp_mono; [by apply pool_exec_aged|].
    intros [] y1 [Hh1 Ha1]. eapply wp_mono; [apply (IH _ _ ltac:(by rewrite Hh1) Ho Ha1)|].
    intros [] y2 [Hh2 Ha2]. split; [congruence|]. eapply aged_mono; [|exact Ha2].
    unfold allocs. cbn. destruct (is_alloc o); cbn; lia.
Qed.

Lemma aged_invalid h k p : bad_handle h = false → handle_generation h ≤ HANDLE_GENERATION_MAX →
  Z.of_nat k < HANDLE_GENERATION_MAX → aged (handle_index h) (handle_generation h) k p → valid p h = false.
Proof.
  intros Hb Hg Hk (j & Hj & E1 & E2). destruct (good_handle h Hb) as [_ Hg1]. unfold valid.
  destruct j as [|j].
  - rewrite (E2 eq_refl), Z.eqb_refl. cbn. by rewrite andb_false_r.
  - rewrite E1. rewrite (proj2 (Z.eqb_neq (next_gens _ _) _)); [by rewrite !andb_false_r|].
    apply next_gens_ne; lia.
Qed.

End spec.
