(* ===== verification/Mutex.v ===== *)
(** * Mutexes: src/src/kernel/mutex.c

    [mutex_lock] gives up the CPU at most once, as its last act: its result says
    whether it ends in [schedule].  [mutex_pool_lock] is cut there;
    [mutex_pool_lock_return] is what it does when the task runs again. *)

From S2P Require Import Prelude Machine Task WaitQueue SchedQueue SchedOps Sync.

Open Scope kernel_scope.

Section mutex.
Context {S : Type} `{Parking S}.
Implicit Types y : ystate S.

Definition mutex_handle_index (handle : Z) : Z := handle_index handle.
Definition mutex_handle_generation (handle : Z) : Z := handle_generation handle.
Definition mutex_make_handle (index gen : Z) : Z := make_handle index gen.

Definition mutex_init (m : pooled mutex_body) : pooled mutex_body :=
  Pooled (MutexBody 0 None) wait_queue_init 0 0.

(** [mutex->locked = ...; mutex->owner = ...]. *)
Definition set_mutex (i l : Z) (t : tptr) : M (ystate S) unit :=
  upd_obj i (set_body (MutexBody l t)).

(** The critical section of [mutex_lock]: the task that must park, if any. *)
Definition mutex_lock_enter (cpu i : Z) : M (ystate S) tptr :=
  ylock (L_mutex i) ;;
  m ← get_obj (A := mutex_body) i;
  if locked (body m) =? 0 then
    t ← y_current cpu;
    set_mutex i 1 t ;;
    yunlock (L_mutex i) ;;
    mret None
  else
    curr ← y_current cpu;
    queued ← obj_enqueue (A := mutex_body) i curr;
    yunlock (L_mutex i) ;;
    mret (if (queued : bool) then curr else None).

Definition mutex_lock (cpu i : Z) : M (ystate S) bool :=
  curr ← mutex_lock_enter cpu i;
  if bool_decide (curr = None) then mret false else y_park curr.

Definition mutex_trylock (cpu i : Z) : M (ystate S) Z :=
  ylock (L_mutex i) ;;
  m ← get_obj (A := mutex_body) i;
  if locked (body m) =? 0 then
    t ← y_current cpu;
    set_mutex i 1 t ;;
    yunlock (L_mutex i) ;;
    mret 1
  else
    yunlock (L_mutex i) ;;
    mret 0.

(** The critical section of [mutex_unlock]: the next owner, if any. *)
Definition mutex_unlock_handoff (i : Z) : M (ystate S) tptr :=
  ylock (L_mutex i) ;;
  m ← get_obj (A := mutex_body) i;
  next_task ← (if wait_queue_empty (waiters m) then
                 set_mutex i 0 None ;; mret None
               else
                 t ← obj_dequeue (A := mutex_body) i;
                 upd_obj (A := mutex_body) i (λ m, set_body (MutexBody (locked (body m)) t) m) ;;
                 mret t);
  yunlock (L_mutex i) ;;
  mret next_task.

Definition mutex_unlock (cpu i : Z) : M (ystate S) unit :=
  next_task ← mutex_unlock_handoff i;
  if bool_decide (next_task = None) then mret () else y_unpark cpu next_task.

Definition mutex_detach_task (cpu : Z) (t : tptr) : M (ystate S) unit :=
  if bool_decide (t = None) then mret () else
  forM_ (upto 0 POOL_MAX) (λ i,
    ylock L_mutex_pool ;;
    u ← get_used (A := mutex_body) i;
    if u =? 0 then yunlock L_mutex_pool else
    upd_obj (A := mutex_body) i (λ m, set_ops (u32 (active_ops m + 1)) m) ;;
    yunlock L_mutex_pool ;;
    ylock (L_mutex i) ;;
    detached_waiter ← obj_remove (A := mutex_body) i t;
    m ← get_obj (A := mutex_body) i;
    wake_task ← (if bool_decide (owner (body m) = t) then
                   if wait_queue_empty (waiters m) then
                     set_mutex i 0 None ;; mret None
                   else
                     w ← obj_dequeue (A := mutex_body) i;
                     upd_obj (A := mutex_body) i (λ m, set_body (MutexBody (locked (body m)) w) m) ;;
                     mret w
                 else mret None);
    yunlock (L_mutex i) ;;
    ylock L_mutex_pool ;;
    upd_obj (A := mutex_body) i (λ m, set_ops (u32 (active_ops m - 1)) m) ;;
    whenM detached_waiter (upd_obj (A := mutex_body) i drop_op) ;;
    yunlock L_mutex_pool ;;
    if bool_decide (wake_task = None) then mret () else y_unpark cpu wake_task).

(** ** The pool *)

Definition mutex_pool_pin (handle : Z) : M (ystate S) (option Z) := pool_pin (A := mutex_body) handle.
Definition mutex_pool_unpin (i : Z) : M (ystate S) unit := pool_unpin (A := mutex_body) i.
Definition mutex_pool_alloc : M (ystate S) Z := pool_alloc mutex_init.

(** [PoolBlocked i]: the caller is parked on object [i] and calls [schedule]. *)
Inductive pool_result : Type := PoolReturns (r : Z) | PoolBlocked (i : Z).

Definition mutex_pool_lock (cpu id : Z) : M (ystate S) pool_result :=
  m ← mutex_pool_pin id;
  match m with
  | None => mret (PoolReturns 0)
  | Some i =>
      blocks ← mutex_lock cpu i;
      if (blocks : bool) then mret (PoolBlocked i) else
      mutex_pool_unpin i ;;
      mret (PoolReturns 1)
  end.

Definition mutex_pool_lock_return (i : Z) : M (ystate S) Z := mutex_pool_unpin i ;; mret 1.

Definition mutex_pool_trylock (cpu id : Z) : M (ystate S) Z :=
  m ← mutex_pool_pin id;
  match m with
  | None => mret 0
  | Some i =>
      result ← mutex_trylock cpu i;
      mutex_pool_unpin i ;;
      mret result
  end.

Definition mutex_pool_unlock (cpu id : Z) : M (ystate S) Z :=
  m ← mutex_pool_pin id;
  match m with
  | None => mret 0
  | Some i =>
      mutex_unlock cpu i ;;
      mutex_pool_unpin i ;;
      mret 1
  end.

(** [mutex->locked || mutex->owner || !wait_queue_empty(&mutex->waiters)]. *)
Definition mutex_busy (m : pooled mutex_body) : bool :=
  negb (locked (body m) =? 0) || negb (bool_decide (owner (body m) = None))
  || negb (wait_queue_empty (waiters m)).

Definition mutex_pool_free (handle : Z) : M (ystate S) bool :=
  let index := handle_index handle in
  let gen := handle_generation handle in
  if bad_handle handle then mret false else
  ylock L_mutex_pool ;;
  u ← get_used (A := mutex_body) index;
  g ← get_gen (A := mutex_body) index;
  m ← get_obj (A := mutex_body) index;
  if (u =? 0) || negb (g =? gen) || negb (destroying m =? 0) then
    yunlock L_mutex_pool ;; mret false
  else
    upd_obj (A := mutex_body) index (set_destroying 1) ;;
    m ← get_obj (A := mutex_body) index;
    if negb (active_ops m =? 0) then
      upd_obj (A := mutex_body) index (set_destroying 0) ;;
      yunlock L_mutex_pool ;;
      mret false
    else
      yunlock L_mutex_pool ;;
      pool_free_if_idle mutex_busy index gen.

End mutex.
