(* ===== verification/MutexSys.v ===== *)
(** * What the operations of mutex.c do, one lemma per critical section, and
    the clients of one mutex as a transition system: mutual exclusion and no
    lost wake-up for every interleaving of its steps. *)

From S2P Require Import Prelude Machine Task WaitQueue Sched SchedQueue SchedOps Sync SyncSpec Mutex.

Open Scope kernel_scope.

Abbreviation mutex_at := (obj_at (A := mutex_body)).
Abbreviation mutex_eff := (obj_eff (A := mutex_body)).
Abbreviation mutex_lockable := (lockable (A := mutex_body)).

Section spec.
Context {S : Type} `{WakeLaws S}.
Implicit Types y : ystate S.
Implicit Types W : qid → list Z.

Lemma mutex_lock_enter_spec W y cpu i t :
  queues_ok W y → mutex_lockable y i → 0 ≤ cpu < 4 → pk_cur (y_sched y) cpu = t → slot_ok t = true →
  (∀ q, t ∉ W q) →
  wp (mutex_lock_enter cpu i) (λ r y',
    if locked (body (mutex_at y i)) =? 0
    then r = None ∧ mutex_eff W y i W (MutexBody 1 (Some t)) y'
    else r = Some t ∧ mutex_eff W y i (wupd W (Q_mutex i) (W (Q_mutex i) ++ [t])) (body (mutex_at y i)) y') y.
Proof.
  intros Hok [Hi Hl] Hc Hcur Ht Hn. apply (wp_pst (A := mutex_body)). unfold mutex_lock_enter, set_mutex, get_obj, upd_obj.
  wp_step. apply wp_plock; [done|]. wp_step. apply wp_get_pool; [done|]. fold (mutex_at y i).
  destruct (locked _ =? 0).
  - wp_step. apply wp_sched_current; [by apply (pst_pk W)|done|]. rewrite pst_cur, Hcur.
    wp_step. apply wp_set_pool; [done|]. wp_step. apply wp_punlock. wp_step. split; [done|].
    by apply obj_eff_body.
  - wp_step. apply wp_sched_current; [by apply (pst_pk W)|done|]. rewrite pst_cur, Hcur. wp_step.
    eapply wp_mono; [by apply (obj_enqueue_spec (A := mutex_body) W)|].
    intros b y' (-> & tab & q & -> & Hok' & Hx). wp_step. apply wp_punlock. wp_step. split; [done|].
    eapply (obj_eff_queue _ _ _ _ (t :: W (Q_mutex i))); [by eapply queues_ok_relock|done|].
    by rewrite p_obj_upd, decide_True.
Qed.

Lemma mutex_trylock_spec W y cpu i t :
  queues_ok W y → mutex_lockable y i → 0 ≤ cpu < 4 → pk_cur (y_sched y) cpu = t →
  wp (mutex_trylock cpu i) (λ r y',
    if locked (body (mutex_at y i)) =? 0
    then r = 1 ∧ mutex_eff W y i W (MutexBody 1 (Some t)) y'
    else r = 0 ∧ y' = y) y.
Proof.
  intros Hok [Hi Hl] Hc Hcur. apply (wp_pst (A := mutex_body)). unfold mutex_trylock, set_mutex, get_obj, upd_obj.
  wp_step. apply wp_plock; [done|]. wp_step. apply wp_get_pool; [done|]. fold (mutex_at y i).
  destruct (locked _ =? 0).
  - wp_step. apply wp_sched_current; [by apply (pst_pk W)|done|].
    rewrite pst_cur, Hcur. wp_step. apply wp_set_pool; [done|]. wp_step. apply wp_punlock. wp_step. split; [done|].
    by apply obj_eff_body.
  - wp_step. apply wp_punlock. wp_step. split; [done|]. apply pst_id.
Qed.

Lemma mutex_unlock_handoff_spec W y i :
  queues_ok W y → mutex_lockable y i →
  wp (mutex_unlock_handoff i) (λ r y', r = head (W (Q_mutex i)) ∧
    mutex_eff W y i (wupd W (Q_mutex i) (tail (W (Q_mutex i))))
      (match W (Q_mutex i) with
       | [] => MutexBody 0 None
       | t :: _ => MutexBody (locked (body (mutex_at y i))) (Some t)
       end) y') y.
Proof.
  intros Hok [Hi Hl]. apply (wp_pst (A := mutex_body)). unfold mutex_unlock_handoff, set_mutex, get_obj, upd_obj.
  wp_step. apply wp_plock; [done|]. wp_step. apply wp_get_pool; [done|].
  pose proof (qo_rep _ _ Hok (Q_mutex i)) as Hr. change (queue_at y (Q_mutex i)) with (waiters (mutex_at y i)) in Hr. unfold obj_at in Hr. wp_step.
  destruct (W (Q_mutex i)) as [|t l] eqn:Hw; cbn [head tail].
  - rewrite (wq_rep_empty _ _ Hr). wp_step. apply wp_set_pool; [done|]. do 2 wp_step.
    apply wp_punlock. wp_step. split; [done|].
    destruct (obj_eff_body W y i (MutexBody 0 None) (set_body (MutexBody 0 None))) as [Ho ? ? ? ? ?]; try done.
    split; try done. by apply queues_ok_nil.
  - rewrite (wq_rep_nonempty _ _ _ _ Hr). wp_step.
    eapply wp_mono; [by apply (obj_dequeue_spec (A := mutex_body) W)|].
    intros r y' (-> & tab & q & -> & Hok' & Hx). cbn [pool_qid mutex_laws] in *. rewrite Hw in *. cbn [head tail] in *.
    wp_step. apply wp_set_pool; [done|]. do 2 wp_step. apply wp_punlock. wp_step. split; [done|].
    eapply (obj_eff_queue _ _ _ _ (t :: l)); [|done|].
    + by apply queues_ok_upd; [eapply queues_ok_relock|].
    + by rewrite !p_obj_upd, !decide_True.
Qed.

End spec.

(** ** The clients of one mutex, in any interleaving

    A client runs [mutex_lock], [mutex_trylock] and [mutex_unlock], each cut at
    the points where another CPU can act: the critical section on the mutex's
    own lock, the call to [sched_park_task], the return from [schedule], and the
    call to [sched_unpark_task].  Everything else in the kernel is an
    environment step, which leaves the mutex alone and neither wakes nor kills
    its waiters ([spurious_wakeup_breaks_mutex] shows that the code needs it). *)

(** Where a client is: outside, between the enqueue and the park, inside
    [schedule], the owner, or between handing the mutex to [n] and waking it. *)
Inductive mpc : Type := MIdle | MEntered | MParked | MHolds | MWaking (n : Z).

#[export] Instance mpc_eq_dec : EqDecision mpc.
Proof. solve_decision. Defined.

Definition waiting (c : mpc) : Prop := c = MEntered ∨ c = MParked.

Definition pupd (pcs : Z → mpc) (t : Z) (c : mpc) : Z → mpc := λ j, if decide (j = t) then c else pcs j.

(** A task that [sched_park_task] may block. *)
Definition parkable (x : task) : Prop := 4 ≤ id x ∧ blockable x = true.

(** What the environment keeps of a waiting task. *)
Definition view_stable (x x' : task) : Prop :=
  id x' = id x ∧ kill_pending x' = kill_pending x ∧ wake_pending x' = wake_pending x ∧
  alive x' = alive x ∧ (state x' = TASK_STATE_BLOCKED ↔ state x = TASK_STATE_BLOCKED).

Section sys.
Context {S : Type} `{WakeLaws S}.
Implicit Types y : ystate S.
Implicit Types W : qid → list Z.
Implicit Types pcs : Z → mpc.

Definition runs y (cpu t : Z) : Prop := 0 ≤ cpu < 4 ∧ pk_cur (y_sched y) cpu = t ∧ slot_ok t = true.

(** The task is in no wait queue. *)
Definition waits_nowhere y (t : Z) : Prop := ∀ W, queues_ok W y → ∀ q, t ∉ W q.

Inductive mstep (i : Z) : (Z → mpc) → ystate S → (Z → mpc) → ystate S → Prop :=
  | ms_lock pcs y cpu t r y' :
      pcs t = MIdle → runs y cpu t → waits_nowhere y t →
      parkable (ytask y t) → state (ytask y t) ≠ TASK_STATE_BLOCKED → wake_pending (ytask y t) = 0 →
      mutex_lock_enter cpu i y = Some (r, y') →
      mstep i pcs y (pupd pcs t (if bool_decide (r = None) then MHolds else MEntered)) y'
  | ms_park pcs y t b y' :
      pcs t = MEntered → y_park (Some t) y = Some (b, y') →
      mstep i pcs y (pupd pcs t (if (b : bool) then MParked else MHolds)) y'
  | ms_return pcs y t :
      pcs t = MParked → state (ytask y t) ≠ TASK_STATE_BLOCKED → mstep i pcs y (pupd pcs t MHolds) y
  | ms_trylock pcs y cpu t r y' :
      pcs t = MIdle → runs y cpu t → mutex_trylock cpu i y = Some (r, y') →
      mstep i pcs y (pupd pcs t (if r =? 0 then MIdle else MHolds)) y'
  | ms_unlock pcs y t r y' :
      pcs t = MHolds → mutex_unlock_handoff i y = Some (r, y') →
      mstep i pcs y (pupd pcs t (match r with None => MIdle | Some n => MWaking n end)) y'
  | ms_unpark pcs y cpu t n y' :
      pcs t = MWaking n → y_unpark cpu (Some n) y = Some ((), y') →
      mstep i pcs y (pupd pcs t MIdle) y'
  | ms_env pcs y y' W W' :
      queues_ok W y → queues_ok W' y' → W' (Q_mutex i) = W (Q_mutex i) →
      body (mutex_at y' i) = body (mutex_at y i) → yheld y' = yheld y →
      (∀ t, waiting (pcs t) → view_stable (ytask y t) (ytask y' t)) → mstep i pcs y pcs y'.

Inductive mreach (i : Z) : (Z → mpc) → ystate S → Prop :=
  | mr_init pcs y W :
      (∀ t, pcs t = MIdle) → queues_ok W y → W (Q_mutex i) = [] → yheld y = [] → index_ok i = true →
      body (mutex_at y i) = body (mutex_init (mutex_at y i)) → mreach i pcs y
  | mr_step pcs y pcs' y' : mreach i pcs y → mstep i pcs y pcs' y' → mreach i pcs' y'.

(** ** The invariant *)

(** Before its wake-up, and after. *)
Definition asleep (c : mpc) (x : task) : Prop :=
  wake_pending x = 0 ∧ match c with MEntered => state x ≠ TASK_STATE_BLOCKED | _ => state x = TASK_STATE_BLOCKED end.
Definition awake (c : mpc) (x : task) : Prop :=
  state x ≠ TASK_STATE_BLOCKED ∧ match c with MEntered => wake_pending x ≠ 0 | _ => True end.

Record minv (i : Z) pcs W y : Prop := {
  mi_ok : queues_ok W y;
  mi_held : yheld y = [];
  mi_index : index_ok i = true;
  mi_free : locked (body (mutex_at y i)) = 0 → owner (body (mutex_at y i)) = None ∧ W (Q_mutex i) = [];
  mi_own : locked (body (mutex_at y i)) ≠ 0 →
    ∃ o, owner (body (mutex_at y i)) = Some o ∧ (pcs o = MHolds ∨ waiting (pcs o));
  mi_holds : ∀ t, pcs t = MHolds → owner (body (mutex_at y i)) = Some t;
  mi_queue : ∀ t, t ∈ W (Q_mutex i) → waiting (pcs t) ∧ owner (body (mutex_at y i)) ≠ Some t;
  mi_parkable : ∀ t, waiting (pcs t) → slot_ok t = true ∧ parkable (ytask y t);
  mi_wait : ∀ t, waiting (pcs t) →
    (t ∈ W (Q_mutex i) ∧ asleep (pcs t) (ytask y t)) ∨
    (owner (body (mutex_at y i)) = Some t ∧ (∃ u, pcs u = MWaking t) ∧ asleep (pcs t) (ytask y t)) ∨
    (owner (body (mutex_at y i)) = Some t ∧ (∀ u, pcs u ≠ MWaking t) ∧ awake (pcs t) (ytask y t));
  mi_waking : ∀ u n, pcs u = MWaking n → owner (body (mutex_at y i)) = Some n ∧ waiting (pcs n);
  mi_waker : ∀ u u' n n', pcs u = MWaking n → pcs u' = MWaking n' → u = u';
}.

Lemma tview_eqs x x' : tview x = tview x' →
  id x = id x' ∧ state x = state x' ∧ kill_pending x = kill_pending x' ∧ wake_pending x = wake_pending x'.
Proof. by intros [= -> -> -> ->]. Qed.

Lemma tview_parkable x x' : tview x = tview x' → parkable x' → parkable x.
Proof.
  intros (E1 & E2 & E3 & _)%tview_eqs. unfold parkable, blockable, alive. by rewrite E1, E2, E3.
Qed.
Lemma tview_asleep c x x' : tview x = tview x' → asleep c x' → asleep c x.
Proof. intros (_ & E2 & _ & E4)%tview_eqs. unfold asleep. by rewrite E2, E4. Qed.
Lemma tview_awake c x x' : tview x = tview x' → awake c x' → awake c x.
Proof. intros (_ & E2 & _ & E4)%tview_eqs. unfold awake. by rewrite E2, E4. Qed.

Lemma pupd_eq pcs t c : pupd pcs t c t = c.
Proof. unfold pupd. by rewrite decide_True. Qed.
Lemma pupd_ne pcs t c j : j ≠ t → pupd pcs t c j = pcs j.
Proof. intros. unfold pupd. by rewrite decide_False. Qed.

Lemma waiting_dec c : waiting c ∨ (c = MIdle ∨ c = MHolds ∨ ∃ n, c = MWaking n).
Proof. destruct c; unfold waiting; eauto 10. Qed.

Lemma not_waiting c : c = MIdle ∨ c = MHolds ∨ (∃ n, c = MWaking n) → ¬ waiting c.
Proof. unfold waiting. naive_solver. Qed.

(** The mutex of a holder, and of a waker, is locked. *)
Lemma minv_owner_locked i pcs W y t : minv i pcs W y → owner (body (mutex_at y i)) = Some t →
  locked (body (mutex_at y i)) ≠ 0.
Proof. intros Hi Ho Hl. destruct (mi_free _ _ _ _ Hi Hl) as [E _]. congruence. Qed.

(** While the mutex is free nobody waits or wakes. *)
Lemma minv_free_quiet i pcs W y : minv i pcs W y → locked (body (mutex_at y i)) = 0 →
  (∀ t, ¬ waiting (pcs t)) ∧ (∀ t, pcs t ≠ MHolds) ∧ (∀ u n, pcs u ≠ MWaking n).
Proof.
  intros Hi Hl. destruct (mi_free _ _ _ _ Hi Hl) as [Ho Hw]. split; [|split].
  - intros t Ht. destruct (mi_wait _ _ _ _ Hi t Ht) as [[Hin _]|[[E _]|[E _]]]; try congruence.
    rewrite Hw in Hin. by apply not_elem_of_nil in Hin.
  - intros t Ht%(mi_holds _ _ _ _ Hi). congruence.
  - intros u n [E _]%(mi_waking _ _ _ _ Hi). congruence.
Qed.

(** While a client holds the mutex nobody wakes. *)
Lemma minv_holds_quiet i pcs W y t : minv i pcs W y → pcs t = MHolds → ∀ u n, pcs u ≠ MWaking n.
Proof.
  intros Hi Ht u n Hu. destruct (mi_waking _ _ _ _ Hi u n Hu) as [Ho Hn].
  rewrite (mi_holds _ _ _ _ Hi t Ht) in Ho. injection Ho as <-. rewrite Ht in Hn. by destruct Hn.
Qed.

(** ** The steps *)

(** A free mutex is taken. *)
Lemma minv_take i pcs W y t y' :
  minv i pcs W y → pcs t = MIdle → locked (body (mutex_at y i)) = 0 →
  mutex_eff W y i W (MutexBody 1 (Some t)) y' → minv i (pupd pcs t MHolds) W y'.
Proof.
  intros Hi Ht Hl [Hok Hb Hv Hh Hc _]. destruct (minv_free_quiet _ _ _ _ Hi Hl) as (Q1 & Q2 & Q3).
  assert (∀ j, pupd pcs t MHolds j = MHolds ∨ ¬ waiting (pupd pcs t MHolds j)) as Hnw.
  { intros j. destruct (decide (j = t)) as [->|]; [left; apply pupd_eq|right; by rewrite pupd_ne]. }
  assert (∀ j n, pupd pcs t MHolds j ≠ MWaking n) as Hnk.
  { intros j n. destruct (decide (j = t)) as [->|]; [by rewrite pupd_eq|by rewrite pupd_ne]. }
  assert (∀ j, ¬ waiting (pupd pcs t MHolds j)) as Hnw'.
  { intros j Hj. destruct (Hnw j) as [E|]; [rewrite E in Hj; by destruct Hj|done]. }
  split; try rewrite Hb; cbn; try done.
  - rewrite Hh. apply Hi.
  - apply Hi.
  - intros _. exists t. rewrite pupd_eq. auto.
  - intros j. destruct (decide (j = t)) as [->|]; [done|]. rewrite pupd_ne by done. intros E. by destruct (Q2 j).
  - intros j. rewrite (proj2 (mi_free _ _ _ _ Hi Hl)). by intros ?%not_elem_of_nil.
  - intros j Hj. by destruct (Hnw' j).
  - intros j Hj. by destruct (Hnw' j).
  - intros u n Hu. by destruct (Hnk u n).
  - intros u u' n n' Hu. by destruct (Hnk u n).
Qed.

(** A client queues behind the owner. *)
Lemma minv_enqueue i pcs W y t y' :
  minv i pcs W y → pcs t = MIdle → locked (body (mutex_at y i)) ≠ 0 → slot_ok t = true →
  parkable (ytask y t) → state (ytask y t) ≠ TASK_STATE_BLOCKED → wake_pending (ytask y t) = 0 →
  mutex_eff W y i (wupd W (Q_mutex i) (W (Q_mutex i) ++ [t])) (body (mutex_at y i)) y' →
  minv i (pupd pcs t MEntered) (wupd W (Q_mutex i) (W (Q_mutex i) ++ [t])) y'.
Proof.
  intros Hi Ht Hl Hs Hp Hst Hwp [Hok Hb Hv Hh Hc _].
  assert (owner (body (mutex_at y i)) ≠ Some t) as Hno.
  { intros E. destruct (mi_own _ _ _ _ Hi Hl) as (o & E' & Ho). rewrite E in E'. injection E' as <-.
    unfold waiting in Ho. rewrite Ht in Ho. naive_solver. }
  assert (∀ u n, pupd pcs t MEntered u = MWaking n ↔ pcs u = MWaking n) as Hwk.
  { intros u n. destruct (decide (u = t)) as [->|]; [rewrite pupd_eq, Ht; done|by rewrite pupd_ne]. }
  assert (∀ j, j ≠ t → waiting (pcs j) → waiting (pupd pcs t MEntered j)) as Hkeep
    by (intros j Hj; by rewrite pupd_ne).
  split; try rewrite Hb; try done.
  - rewrite Hh. apply Hi.
  - apply Hi.
  - intros _. destruct (mi_own _ _ _ _ Hi Hl) as (o & Ho & Hpc). exists o. split; [done|].
    rewrite pupd_ne by congruence. done.
  - intros j. destruct (decide (j = t)) as [->|]; [by rewrite pupd_eq|]. rewrite pupd_ne by done. apply Hi.
  - intros j. unfold wupd. rewrite decide_True, elem_of_app, list_elem_of_singleton by done.
    destruct (decide (j = t)) as [->|Hj]; [rewrite pupd_eq; split; [by left|done]|].
    rewrite pupd_ne by done. intros [Hin|?]; [|done]. by apply (mi_queue _ _ _ _ Hi).
  - intros j. destruct (decide (j = t)) as [->|]; [rewrite pupd_eq; split; [done|by apply (tview_parkable _ _ (Hv _))]|].
    rewrite pupd_ne by done. intros Hj. destruct (mi_parkable _ _ _ _ Hi j Hj). split; [done|by apply (tview_parkable _ _ (Hv _))].
  - intros j. unfold wupd. rewrite decide_True, elem_of_app by done. destruct (decide (j = t)) as [->|Hj].
    + rewrite pupd_eq. intros _. left. split; [right; by left|]. by apply (tview_asleep _ _ (ytask y t)).
    + rewrite pupd_ne by done. intros Hw. destruct (mi_wait _ _ _ _ Hi j Hw) as [(? & Hx)|[(? & (u & Hu) & Hx)|(? & Hno' & Hx)]].
      * left. split; [by left|by apply (tview_asleep _ _ _ (Hv _))].
      * right; left. split; [done|]. split; [exists u; by apply Hwk|by apply (tview_asleep _ _ _ (Hv _))].
      * right; right. split; [done|]. split; [intros u Hu; by apply (Hno' u), Hwk|by apply (tview_awake _ _ _ (Hv _))].
  - intros u n Hu%Hwk. destruct (mi_waking _ _ _ _ Hi u n Hu) as [? Hn]. split; [done|].
    apply Hkeep; [|done]. intros ->. rewrite Ht in Hn. by destruct Hn.
  - intros u u' n n' Hu%Hwk Hu'%Hwk. by eapply (mi_waker _ _ _ _ Hi).
Qed.

(** A waiter whose wake-up came returns as the owner. *)
Lemma minv_acquire i pcs W y t y' :
  minv i pcs W y → waiting (pcs t) → awake (pcs t) (ytask y t) →
  queues_ok W y' → yheld y' = yheld y → mutex_pool y' = mutex_pool y →
  (∀ j, j ≠ t → tview (ytask y' j) = tview (ytask y j)) →
  minv i (pupd pcs t MHolds) W y'.
Proof.
  intros Hi Ht Haw Hok Hh Hp Hv.
  assert (owner (body (mutex_at y i)) = Some t ∧ (t ∉ W (Q_mutex i)) ∧ ∀ u, pcs u ≠ MWaking t) as (Ho & Hnin & Hnk).
  { destruct (mi_wait _ _ _ _ Hi t Ht) as [(? & Hx)|[(? & _ & Hx)|(Ho & Hk & _)]].
    1-2: exfalso; destruct Haw as [A1 A2], Hx as [B1 B2]; destruct Ht as [E|E]; rewrite E in *; congruence.
    split; [done|]. split; [|done]. intros [_ ?]%(mi_queue _ _ _ _ Hi). done. }
  assert (∀ u n, pupd pcs t MHolds u = MWaking n ↔ pcs u = MWaking n) as Hwk.
  { intros u n. destruct (decide (u = t)) as [->|]; [|by rewrite pupd_ne].
    rewrite pupd_eq. split; [done|]. intros E. unfold waiting in Ht. rewrite E in Ht. by destruct Ht. }
  assert (mutex_at y' i = mutex_at y i) as Hm by (unfold obj_at, the_pool; cbn; by rewrite Hp).
  split; try rewrite Hm; try done.
  - rewrite Hh. apply Hi.
  - apply Hi.
  - apply Hi.
  - intros _. exists t. split; [done|]. rewrite pupd_eq. by left.
  - intros j. destruct (decide (j = t)) as [->|]; [done|]. rewrite pupd_ne by done. apply Hi.
  - intros j Hj. rewrite pupd_ne by (intros ->; done). by apply (mi_queue _ _ _ _ Hi).
  - intros j. destruct (decide (j = t)) as [->|]; [rewrite pupd_eq; by intros []|]. rewrite pupd_ne by done.
    intros Hj. destruct (mi_parkable _ _ _ _ Hi j Hj). split; [done|eapply tview_parkable; [by apply Hv|done]].
  - intros j. destruct (decide (j = t)) as [->|Hjt]; [rewrite pupd_eq; by intros []|]. rewrite pupd_ne by done.
    intros Hj. destruct (mi_wait _ _ _ _ Hi j Hj) as [(? & Hx)|[(? & (u & Hu) & Hx)|(E & _)]].
    + left. split; [done|]. eapply tview_asleep; [by apply Hv|done].
    + right; left. split; [done|]. split; [exists u; by apply Hwk|]. eapply tview_asleep; [by apply Hv|done].
    + congruence.
  - intros u n Hu%Hwk. destruct (mi_waking _ _ _ _ Hi u n Hu) as [E Hn]. split; [done|].
    rewrite pupd_ne; [done|]. intros ->. by apply (Hnk u).
  - intros u u' n n' Hu%Hwk Hu'%Hwk. by eapply (mi_waker _ _ _ _ Hi).
Qed.

(** A waiter whose wake-up has not come parks. *)
Lemma minv_park i pcs W y t y' :
  minv i pcs W y → pcs t = MEntered → asleep MEntered (ytask y t) →
  sched_eff W y y' t parked → minv i (pupd pcs t MParked) W y'.
Proof.
  intros Hi Ht [Hwp Hst] [Hok Hv Hh Hc Hm _ _ _].
  assert (waiting (pcs t)) as Hw by (by left).
  destruct (mi_parkable _ _ _ _ Hi t Hw) as [Hs [Hid Hb]].
  assert (tview (ytask y' t) = (id (ytask y t), TASK_STATE_BLOCKED, kill_pending (ytask y t), wake_pending (ytask y t))) as Ht'.
  { rewrite Hv, decide_True by done. unfold parked. btrue (4 <=? id (ytask y t)). rewrite Hb, Hwp. cbn [andb].
    unfold tview. cbn. by rewrite Hwp. }
  assert (∀ j, j ≠ t → tview (ytask y' j) = tview (ytask y j)) as Hv' by (intros j Hj; by rewrite Hv, decide_False).
  assert (mutex_at y' i = mutex_at y i) as Hmt by (unfold obj_at, the_pool; cbn; by rewrite Hm).
  assert (∀ u n, pupd pcs t MParked u = MWaking n ↔ pcs u = MWaking n) as Hwk.
  { intros u n. destruct (decide (u = t)) as [->|]; [by rewrite pupd_eq, Ht|by rewrite pupd_ne]. }
  assert (∀ j, waiting (pupd pcs t MParked j) ↔ waiting (pcs j)) as Hwt.
  { intros j. destruct (decide (j = t)) as [->|]; [|by rewrite pupd_ne]. rewrite pupd_eq. unfold waiting. naive_solver. }
  assert (asleep MParked (ytask y' t)) as Has by (injection Ht' as _ E2 _ E4; unfold asleep; by rewrite E2, E4).
  split; try rewrite Hmt; try done.
  - rewrite Hh. apply Hi.
  - apply Hi.
  - apply Hi.
  - intros Hl. destruct (mi_own _ _ _ _ Hi Hl) as (o & E & Ho). exists o. split; [done|]. rewrite Hwt.
    destruct Ho as [Ho|]; [|by right]. left. rewrite pupd_ne by congruence. done.
  - intros j. destruct (decide (j = t)) as [->|]; [by rewrite pupd_eq|]. rewrite pupd_ne by done. apply Hi.
  - intros j Hj. rewrite Hwt. by apply (mi_queue _ _ _ _ Hi).
  - intros j Hj%Hwt. destruct (mi_parkable _ _ _ _ Hi j Hj) as [? Hp]. split; [done|].
    destruct (decide (j = t)) as [->|]; [|eapply tview_parkable; [by apply Hv'|done]].
    injection Ht' as E1 E2 E3 _. unfold parkable, blockable, alive in *. rewrite E1, E2, E3. split; [done|].
    apply andb_true_iff in Hb as [_ ->]. done.
  - intros j Hj%Hwt. assert (asleep (pcs j) (ytask y j) → asleep (pupd pcs t MParked j) (ytask y' j)) as Hsl.
    { destruct (decide (j = t)) as [->|]; [by rewrite pupd_eq|]. rewrite pupd_ne by done. apply tview_asleep. by apply Hv'. }
    destruct (mi_wait _ _ _ _ Hi j Hj) as [(? & Hx)|[(? & (u & Hu) & Hx)|(E & Hno & Hx)]].
    + left. auto.
    + right; left. split; [done|]. split; [exists u; by apply Hwk|auto].
    + right; right. split; [done|]. split; [intros u Hu; by apply (Hno u), Hwk|].
      destruct (decide (j = t)) as [->|]; [|rewrite pupd_ne by done; eapply tview_awake; [by apply Hv'|done]].
      rewrite Ht in Hx. destruct Hx as [_ Hx]. by rewrite Hwp in Hx.
  - intros u n Hu%Hwk. rewrite Hwt. by apply (mi_waking _ _ _ _ Hi u).
  - intros u u' n n' Hu%Hwk Hu'%Hwk. by eapply (mi_waker _ _ _ _ Hi).
Qed.

(** The owner leaves a mutex nobody waits for. *)
Lemma minv_release i pcs W W' y t y' :
  minv i pcs W y → pcs t = MHolds → W (Q_mutex i) = [] → W' (Q_mutex i) = [] →
  mutex_eff W y i W' (MutexBody 0 None) y' → minv i (pupd pcs t MIdle) W' y'.
Proof.
  intros Hi Ht Hw Hw' [Hok Hb Hv Hh Hc _].
  assert (∀ j, ¬ waiting (pupd pcs t MIdle j)) as Hnw.
  { intros j. destruct (decide (j = t)) as [->|Hj]; [rewrite pupd_eq; by intros []|]. rewrite pupd_ne by done.
    intros Hwj. pose proof (mi_holds _ _ _ _ Hi t Ht) as E.
    destruct (mi_wait _ _ _ _ Hi j Hwj) as [[Hin _]|[[E' _]|[E' _]]]; try congruence.
    rewrite Hw in Hin. by apply not_elem_of_nil in Hin. }
  assert (∀ u n, pupd pcs t MIdle u ≠ MWaking n) as Hnk.
  { intros u n. destruct (decide (u = t)) as [->|]; [by rewrite pupd_eq|]. rewrite pupd_ne by done.
    by eapply minv_holds_quiet. }
  split; try rewrite Hb; cbn; try done.
  - rewrite Hh. apply Hi.
  - apply Hi.
  - intros j. destruct (decide (j = t)) as [->|Hj]; [by rewrite pupd_eq|]. rewrite pupd_ne by done.
    intros E%(mi_holds _ _ _ _ Hi). rewrite (mi_holds _ _ _ _ Hi t Ht) in E. congruence.
  - intros j. rewrite Hw'. by intros ?%not_elem_of_nil.
  - intros j Hj. by destruct (Hnw j).
  - intros j Hj. by destruct (Hnw j).
  - intros u n Hu. by destruct (Hnk u n).
  - intros u u' n n' Hu. by destruct (Hnk u n).
Qed.

(** The owner hands the mutex to the first waiter. *)
Lemma minv_handoff i pcs W W' y t n l y' :
  minv i pcs W y → pcs t = MHolds → W (Q_mutex i) = n :: l → W' (Q_mutex i) = l →
  mutex_eff W y i W' (MutexBody (locked (body (mutex_at y i))) (Some n)) y' →
  minv i (pupd pcs t (MWaking n)) W' y'.
Proof.
  intros Hi Ht Hw Hw' [Hok Hb Hv Hh Hc _]. pose proof (mi_holds _ _ _ _ Hi t Ht) as Hot.
  pose proof (minv_owner_locked _ _ _ _ _ Hi Hot) as Hl.
  pose proof (minv_holds_quiet _ _ _ _ _ Hi Ht) as Hnk.
  assert (NoDup (n :: l)) as [Hnl _]%NoDup_cons.
  { rewrite <- Hw. apply (q_nodup _ _ _ _ (proj1 (qo_rep _ _ (mi_ok _ _ _ _ Hi) (Q_mutex i)))). }
  assert (waiting (pcs n) ∧ n ≠ t) as [Hwn Hnt].
  { destruct (mi_queue _ _ _ _ Hi n) as [? ?]; [rewrite Hw; by left|]. split; [done|]. congruence. }
  assert (∀ j, waiting (pupd pcs t (MWaking n) j) → j ≠ t ∧ waiting (pcs j)) as Hwt.
  { intros j. destruct (decide (j = t)) as [->|]; [rewrite pupd_eq; by intros []|by rewrite pupd_ne]. }
  assert (∀ u m, pupd pcs t (MWaking n) u = MWaking m ↔ u = t ∧ m = n) as Hwk.
  { intros u m. destruct (decide (u = t)) as [->|]; [rewrite pupd_eq; naive_solver|rewrite pupd_ne by done].
    split; [intros E; by destruct (Hnk u m)|naive_solver]. }
  split; try rewrite Hb; cbn; try done.
  - rewrite Hh. apply Hi.
  - apply Hi.
  - intros _. exists n. split; [done|]. right. by rewrite pupd_ne.
  - intros j. destruct (decide (j = t)) as [->|]; [by rewrite pupd_eq|]. rewrite pupd_ne by done.
    intros E%(mi_holds _ _ _ _ Hi). congruence.
  - intros j. rewrite Hw'. intros Hj. destruct (mi_queue _ _ _ _ Hi j) as [? E]; [rewrite Hw; by right|].
    rewrite pupd_ne by congruence. split; [done|]. intros [= ->]. done.
  - intros j [Hj Hwj]%Hwt. destruct (mi_parkable _ _ _ _ Hi j Hwj). split; [done|by apply (tview_parkable _ _ (Hv _))].
  - intros j [Hj Hwj]%Hwt. rewrite pupd_ne by done. rewrite Hw'.
    destruct (mi_wait _ _ _ _ Hi j Hwj) as [(Hin & Hx)|[(E & _)|(E & _)]]; [|congruence|congruence].
    rewrite Hw in Hin. apply elem_of_cons in Hin as [->|Hin].
    + right; left. split; [done|]. split; [exists t; by rewrite pupd_eq|by apply (tview_asleep _ _ _ (Hv _))].
    + left. split; [done|by apply (tview_asleep _ _ _ (Hv _))].
  - intros u m [-> ->]%Hwk. split; [done|]. by rewrite pupd_ne.
  - intros u u' m m' [-> ->]%Hwk [-> ->]%Hwk. done.
Qed.

(** The wake-up reaches the new owner. *)
Lemma minv_unpark i pcs W y t n y' :
  minv i pcs W y → pcs t = MWaking n → sched_eff W y y' n unparked → minv i (pupd pcs t MIdle) W y'.
Proof.
  intros Hi Ht [Hok Hv Hh Hc Hm _ _ _].
  destruct (mi_waking _ _ _ _ Hi t n Ht) as [Ho Hwn]. destruct (mi_parkable _ _ _ _ Hi n Hwn) as [Hs [Hid Hb]].
  assert (n ≠ t) as Hnt by (intros ->; rewrite Ht in Hwn; by destruct Hwn).
  assert (mutex_at y' i = mutex_at y i) as Hmt by (unfold obj_at, the_pool; cbn; by rewrite Hm).
  assert (∀ j, j ≠ n → tview (ytask y' j) = tview (ytask y j)) as Hv' by (intros j Hj; by rewrite Hv, decide_False).
  assert (asleep (pcs n) (ytask y n)) as Has.
  { destruct (mi_wait _ _ _ _ Hi n Hwn) as [[Hin _]|[(_ & _ & ?)|(_ & Hno & _)]]; [|done|].
    - by destruct (mi_queue _ _ _ _ Hi n Hin).
    - by destruct (Hno t). }
  assert (awake (pcs n) (ytask y' n) ∧ parkable (ytask y' n)) as [Haw Hpk].
  { pose proof (Hv n) as E. rewrite decide_True in E by done. apply andb_true_iff in Hb as Hb'. destruct Hb' as [Hal Hkp].
    unfold unparked, wakeable, blockable in *. rewrite Hkp in E. rewrite !andb_true_r in E.
    destruct Has as [Hwp Hst]. destruct Hwn as [Epc|Epc]; rewrite Epc in Hst |- *.
    - rewrite (proj2 (Z.eqb_neq _ _)) in E by done. rewrite Hal in E. apply tview_eqs in E as (E1 & E2 & E3 & E4). cbn in *.
      split; [split; [by rewrite E2|by rewrite E4]|]. unfold parkable, blockable, alive in *. by rewrite E1, E2, E3.
    - rewrite (proj2 (Z.eqb_eq _ _)) in E by done. unfold readied in E. btrue (4 <=? id (ytask y n)).
      rewrite (proj2 (Z.leb_le _ _) Hid) in E. apply tview_eqs in E as (E1 & E2 & E3 & E4). cbn in *.
      split; [split; [by rewrite E2|done]|]. unfold parkable, blockable, alive in *. by rewrite E1, E2, E3. }
  assert (∀ j, waiting (pupd pcs t MIdle j) → j ≠ t ∧ waiting (pcs j)) as Hwt.
  { intros j. destruct (decide (j = t)) as [->|]; [rewrite pupd_eq; by intros []|by rewrite pupd_ne]. }
  assert (∀ u m, pupd pcs t MIdle u ≠ MWaking m) as Hnk.
  { intros u m. destruct (decide (u = t)) as [->|Hu]; [by rewrite pupd_eq|]. rewrite pupd_ne by done.
    intros E. apply Hu. by eapply (mi_waker _ _ _ _ Hi). }
  split; try rewrite Hmt; try done.
  - rewrite Hh. apply Hi.
  - apply Hi.
  - apply Hi.
  - intros Hl. exists n. split; [done|]. right. by rewrite pupd_ne.
  - intros j. destruct (decide (j = t)) as [->|]; [by rewrite pupd_eq|]. rewrite pupd_ne by done. apply Hi.
  - intros j Hj. destruct (mi_queue _ _ _ _ Hi j Hj) as [Hwj ?]. rewrite pupd_ne; [done|].
    intros ->. rewrite Ht in Hwj. by destruct Hwj.
  - intros j [Hj Hwj]%Hwt. destruct (mi_parkable _ _ _ _ Hi j Hwj). split; [done|].
    destruct (decide (j = n)) as [->|]; [done|]. eapply tview_parkable; [by apply Hv'|done].
  - intros j [Hj Hwj]%Hwt. rewrite pupd_ne by done. destruct (decide (j = n)) as [->|Hjn].
    + right; right. done.
    + destruct (mi_wait _ _ _ _ Hi j Hwj) as [(? & Hx)|[(E & _)|(E & _)]]; [|congruence|congruence].
      left. split; [done|]. eapply tview_asleep; [by apply Hv'|done].
  - intros u m Hu. by destruct (Hnk u m).
  - intros u u' m m' Hu. by destruct (Hnk u m).
Qed.

Lemma view_stable_sleep c x x' : view_stable x x' → (asleep c x → asleep c x') ∧ (awake c x → awake c x') ∧
  (parkable x → parkable x').
Proof.
  intros (E1 & E2 & E3 & E4 & E5). unfold asleep, awake, parkable, blockable. rewrite E1, E2, E3, E4.
  destruct c; rewrite E5; tauto.
Qed.

Lemma minv_env i pcs W W' y y' :
  minv i pcs W y → queues_ok W' y' → W' (Q_mutex i) = W (Q_mutex i) →
  body (mutex_at y' i) = body (mutex_at y i) → yheld y' = yheld y →
  (∀ t, waiting (pcs t) → view_stable (ytask y t) (ytask y' t)) → minv i pcs W' y'.
Proof.
  intros Hi Hok Hw Hb Hh Hv. destruct Hi. split; try rewrite Hb; try rewrite Hw; try done; try congruence.
  - intros t Ht. destruct (mi_parkable0 t Ht). split; [done|]. by apply (view_stable_sleep MIdle _ _ (Hv t Ht)).
  - intros t Ht. destruct (view_stable_sleep (pcs t) _ _ (Hv t Ht)) as (A & B & _).
    destruct (mi_wait0 t Ht) as [(? & ?)|[(? & ? & ?)|(? & ? & ?)]]; auto 6.
Qed.

(** The queue list of a state is determined by it. *)
Lemma queues_ok_unique W W' y q : queues_ok W y → queues_ok W' y → W q = W' q.
Proof.
  intros H1 H2. destruct (qo_rep _ _ H1 q) as [Q1 _], (qo_rep _ _ H2 q) as [Q2 _].
  apply list_eq. intros k. induction k as [|k IH].
  - rewrite <- !head_lookup, <- (q_head _ _ _ _ Q1), <- (q_head _ _ _ _ Q2). done.
  - destruct (W q !! k) as [x|] eqn:E.
    + rewrite <- (q_next _ _ _ _ Q1 k x E), <- (q_next _ _ _ _ Q2 k x); [done|]. by rewrite <- IH.
    + symmetry in IH. apply lookup_ge_None_1 in E, IH. by rewrite !lookup_ge_None_2 by lia.
Qed.

End sys.

Section reach.
Context {S : Type} `{ParkingLaws S}.
Implicit Types y : ystate S.
Implicit Types W : qid → list Z.
Implicit Types pcs : Z → mpc.

Lemma minv_step i pcs W y pcs' y' : minv i pcs W y → mstep i pcs y pcs' y' → ∃ W', minv i pcs' W' y'.
Proof.
  intros Hi Hs.
  assert (mutex_lockable y i) as Hlk by (split; [apply Hi|by rewrite (mi_held _ _ _ _ Hi)]).
  assert (can_lock L_sched (yheld y) = true) as Hls by (by rewrite (mi_held _ _ _ _ Hi)).
  pose proof (mi_ok _ _ _ _ Hi) as Hok. destruct Hs.
  - destruct H2 as (Hc & Hcur & Hst).
    assert (∀ q, t ∉ W q) as Hno by (by apply H3).
    pose proof (wp_run _ _ _ _ _ (mutex_lock_enter_spec W y cpu i t Hok Hlk Hc Hcur Hst Hno) H7) as Hp. cbn in Hp.
    destruct (locked _ =? 0) eqn:Hl; bool_to_prop; destruct Hp as [-> He].
    + exists W. by apply (minv_take _ _ _ y).
    + exists (wupd W (Q_mutex i) (W (Q_mutex i) ++ [t])). by apply (minv_enqueue _ _ _ y).
  - assert (waiting (pcs t)) as Hw by (by left). destruct (mi_parkable _ _ _ _ Hi t Hw) as [Hst [Hid Hb]].
    destruct (wp_run _ _ _ _ _ (wp_sched_park W y t Hok Hls Hst) H2) as [-> He].
    exists W. unfold parks. btrue (4 <=? id (ytask y t)). rewrite Hb. cbn [andb].
    assert (state (ytask y t) ≠ TASK_STATE_BLOCKED) as Hnb.
    { destruct (mi_wait _ _ _ _ Hi t Hw) as [[_ [_ ?]]|[(_ & _ & [_ ?])|(_ & _ & [? _])]]; by rewrite H1 in *. }
    destruct (wake_pending (ytask y t) =? 0) eqn:Hz; bool_to_prop.
    + apply (minv_park _ _ _ y); try done.
    + apply (minv_acquire _ _ _ y); try done; [by rewrite H1|apply He|apply He|apply He|].
      intros j Hj. rewrite (se_view _ _ _ _ _ He). by rewrite decide_False.
  - exists W. apply (minv_acquire _ _ _ y); try done; [by right|by rewrite H1].
  - destruct H2 as (Hc & Hcur & Hst).
    pose proof (wp_run _ _ _ _ _ (mutex_trylock_spec W y cpu i t Hok Hlk Hc Hcur) H3) as Hp. cbn in Hp.
    destruct (locked _ =? 0) eqn:Hl; bool_to_prop; destruct Hp as [-> He]; exists W.
    + by apply (minv_take _ _ _ y).
    + subst y'. cbn [Z.eqb]. destruct Hi. assert (∀ j, pupd pcs t MIdle j = pcs j) as Hpu.
      { intros j. destruct (decide (j = t)) as [->|]; [by rewrite pupd_eq|by rewrite pupd_ne]. }
      split; try done; setoid_rewrite Hpu; done.
  - pose proof (wp_run _ _ _ _ _ (mutex_unlock_handoff_spec W y i Hok Hlk) H2) as [-> He].
    exists (wupd W (Q_mutex i) (tail (W (Q_mutex i)))). destruct (W (Q_mutex i)) as [|n l] eqn:Hw; cbn [head tail] in *.
    + by apply (minv_release _ _ W _ y); [..|apply wupd_eq|].
    + by apply (minv_handoff _ _ W _ y _ n l); [..|apply wupd_eq|].
  - destruct (mi_waking _ _ _ _ Hi t n H1) as [_ Hwn]. destruct (mi_parkable _ _ _ _ Hi n Hwn) as [Hst _].
    pose proof (wp_run _ _ _ _ _ (wp_sched_unpark W y cpu n Hok Hls Hst) H2) as He. exists W.
    by eapply minv_unpark.
  - exists W'. apply (minv_env _ _ W _ y); try done. rewrite H3. by apply (queues_ok_unique _ _ y).
Qed.

Lemma mreach_inv i pcs y : mreach i pcs y → ∃ W, minv i pcs W y.
Proof.
  induction 1 as [pcs y W Hpc Hok Hw Hh Hi Hb|pcs y pcs' y' _ [W IH] Hs].
  - exists W. assert (∀ t, ¬ waiting (pcs t)) as Hnw by (intros t; rewrite Hpc; by intros []).
    split; try rewrite Hb; cbn; try done.
    + intros t E. by rewrite Hpc in E.
    + intros t. rewrite Hw. by intros ?%not_elem_of_nil.
    + intros t Ht. by destruct (Hnw t).
    + intros t Ht. by destruct (Hnw t).
    + intros u n E. by rewrite Hpc in E.
    + intros u u' n n' E. by rewrite Hpc in E.
  - by eapply minv_step.
Qed.

End reach.
