(* ===== verification/Semaphore.v ===== *)
(** * Semaphores: src/src/kernel/semaphore.c

    As for mutexes, [semaphore_wait] calls [schedule] at most once, last; its
    result says whether it does. *)

From S2P Require Import Prelude Machine Task WaitQueue SchedQueue SchedOps Sync Mutex.

Open Scope kernel_scope.

Section semaphore.
Context {S : Type} `{Parking S}.
Implicit Types y : ystate S.

Definition semaphore_handle_index (handle : Z) : Z := handle_index handle.
Definition semaphore_handle_generation (handle : Z) : Z := handle_generation handle.
Definition semaphore_make_handle (index gen : Z) : Z := make_handle index gen.

Definition semaphore_init (v : Z) (s : pooled semaphore_body) : pooled semaphore_body :=
  Pooled (SemaphoreBody v) wait_queue_init 0 0.

Definition set_value (i : Z) (f : Z → Z) : M (ystate S) unit :=
  upd_obj i (λ s, set_body (SemaphoreBody (f (value (body s)))) s).

(** A permit is taken, the caller is not a task or already waits, or it is queued. *)
Inductive sem_enter : Type := SemTaken | SemRefused | SemQueued (t : tptr).

Definition semaphore_wait_enter (cpu i : Z) : M (ystate S) sem_enter :=
  current ← y_current cpu;
  if bool_decide (current = None) then mret SemRefused else
  ylock (L_sem i) ;;
  s ← get_obj (A := semaphore_body) i;
  if 0 <? value (body s) then
    set_value i (λ v, v - 1) ;;
    yunlock (L_sem i) ;;
    mret SemTaken
  else
    queued ← obj_enqueue (A := semaphore_body) i current;
    yunlock (L_sem i) ;;
    mret (if (queued : bool) then SemQueued current else SemRefused).

(** The result of [semaphore_wait], or [PoolBlocked]: it calls [schedule] first,
    and then returns 1. *)
Definition semaphore_wait (cpu i : Z) : M (ystate S) pool_result :=
  e ← semaphore_wait_enter cpu i;
  match e with
  | SemTaken => mret (PoolReturns 1)
  | SemRefused => mret (PoolReturns 0)
  | SemQueued t =>
      blocks ← y_park t;
      mret (if (blocks : bool) then PoolBlocked i else PoolReturns 1)
  end.

Definition semaphore_trywait (i : Z) : M (ystate S) Z :=
  ylock (L_sem i) ;;
  s ← get_obj (A := semaphore_body) i;
  if value (body s) =? 0 then yunlock (L_sem i) ;; mret 0 else
  set_value i (λ v, v - 1) ;;
  yunlock (L_sem i) ;;
  mret 1.

(** The critical section of [semaphore_post]: the waiter that gets the permit, if any. *)
Definition semaphore_post_give (i : Z) : M (ystate S) tptr :=
  ylock (L_sem i) ;;
  waiter ← obj_dequeue (A := semaphore_body) i;
  whenM (bool_decide (waiter = None)) (set_value i (λ v, u64 (v + 1))) ;;
  yunlock (L_sem i) ;;
  mret waiter.

Definition semaphore_post (cpu i : Z) : M (ystate S) Z :=
  waiter ← semaphore_post_give i;
  (if bool_decide (waiter = None) then mret () else y_unpark cpu waiter) ;;
  mret 1.

(** ** The pool *)

Definition semaphore_pool_pin (handle : Z) : M (ystate S) (option Z) := pool_pin (A := semaphore_body) handle.
Definition semaphore_pool_unpin (i : Z) : M (ystate S) unit := pool_unpin (A := semaphore_body) i.
Definition semaphore_pool_alloc (v : Z) : M (ystate S) Z := pool_alloc (semaphore_init v).
Definition semaphore_pool_free (handle : Z) : M (ystate S) bool := pool_free (A := semaphore_body) handle.
Definition semaphore_detach_task (t : tptr) : M (ystate S) unit := pool_detach (A := semaphore_body) t.

Definition semaphore_pool_wait (cpu handle : Z) : M (ystate S) pool_result :=
  s ← semaphore_pool_pin handle;
  match s with
  | None => mret (PoolReturns 0)
  | Some i =>
      r ← semaphore_wait cpu i;
      match r with
      | PoolBlocked _ => mret r
      | PoolReturns _ => semaphore_pool_unpin i ;; mret r
      end
  end.

Definition semaphore_pool_wait_return (i : Z) : M (ystate S) Z := semaphore_pool_unpin i ;; mret 1.

Definition semaphore_pool_trywait (handle : Z) : M (ystate S) Z :=
  s ← semaphore_pool_pin handle;
  match s with
  | None => mret 0
  | Some i => result ← semaphore_trywait i; semaphore_pool_unpin i ;; mret result
  end.

Definition semaphore_pool_post (cpu handle : Z) : M (ystate S) Z :=
  s ← semaphore_pool_pin handle;
  match s with
  | None => mret 0
  | Some i => result ← semaphore_post cpu i; semaphore_pool_unpin i ;; mret result
  end.

End semaphore.
