(* ===== verification/SemaphoreSpec.v ===== *)
(** * What the operations of semaphore.c do, and the use of one semaphore as a
    transition system that counts its permits. *)

From S2P Require Import Prelude Machine Task WaitQueue Sched SchedQueue SchedOps Sync SyncSpec Mutex MutexSys Semaphore.

Open Scope kernel_scope.

Abbreviation sem_at := (obj_at (A := semaphore_body)).
Abbreviation sem_eff := (obj_eff (A := semaphore_body)).
Abbreviation sem_lockable := (lockable (A := semaphore_body)).

Lemma sem_body_eta (b : semaphore_body) : SemaphoreBody (value b) = b.
Proof. by destruct b. Qed.

Section spec.
Context {S : Type} `{ParkingLaws S}.
Implicit Types y : ystate S.
Implicit Types W : qid → list Z.

Definition sem_value y (i : Z) : Z := value (body (sem_at y i)).

Lemma semaphore_wait_enter_spec W y cpu i t :
  queues_ok W y → sem_lockable y i → runs y cpu t → (∀ q, t ∉ W q) →
  wp (semaphore_wait_enter cpu i) (λ r y',
    if 0 <? sem_value y i
    then r = SemTaken ∧ sem_eff W y i W (SemaphoreBody (sem_value y i - 1)) y'
    else r = SemQueued (Some t) ∧
         sem_eff W y i (wupd W (Q_sem i) (W (Q_sem i) ++ [t])) (body (sem_at y i)) y') y.
Proof.
  intros Hok [Hi Hl] (Hc & Hcur & Ht) Hn. unfold semaphore_wait_enter, set_value, get_obj, upd_obj.
  apply (wp_pst (A := semaphore_body)). wp_step. apply wp_sched_current; [by apply (pst_pk W)|done|].
  rewrite pst_cur, Hcur, bool_decide_false by done.
  wp_step. apply wp_plock; [done|]. wp_step. apply wp_get_pool; [done|]. fold (sem_at y i).
  unfold sem_value. destruct (0 <? _).
  - wp_step. apply wp_set_pool; [done|]. wp_step. apply wp_punlock. wp_step. split; [done|].
    by apply obj_eff_body.
  - wp_step. eapply wp_mono; [by apply (obj_enqueue_spec (A := semaphore_body) W)|].
    intros b y' (-> & tab & q & -> & Hok' & Hx). wp_step. apply wp_punlock. wp_step. split; [done|].
    eapply (obj_eff_queue _ _ _ _ (t :: W (Q_sem i))); [by eapply queues_ok_relock|done|].
    by rewrite p_obj_upd, decide_True.
Qed.

Lemma semaphore_trywait_spec W y i :
  queues_ok W y → sem_lockable y i →
  wp (semaphore_trywait i) (λ r y',
    if sem_value y i =? 0 then r = 0 ∧ y' = y
    else r = 1 ∧ sem_eff W y i W (SemaphoreBody (sem_value y i - 1)) y') y.
Proof.
  intros Hok [Hi Hl]. unfold semaphore_trywait, set_value, get_obj, upd_obj, sem_value.
  apply (wp_pst (A := semaphore_body)). wp_step. apply wp_plock; [done|]. wp_step. apply wp_get_pool; [done|].
  fold (sem_at y i). destruct (_ =? 0).
  - wp_step. apply wp_punlock. wp_step. split; [done|apply pst_id].
  - wp_step. apply wp_set_pool; [done|]. wp_step. apply wp_punlock. wp_step. split; [done|]. by apply obj_eff_body.
Qed.

(** The first waiter gets the permit; the count goes up only when nobody waits. *)
Lemma semaphore_post_give_spec W y i :
  queues_ok W y → sem_lockable y i →
  wp (semaphore_post_give i) (λ r y', r = head (W (Q_sem i)) ∧
    sem_eff W y i (wupd W (Q_sem i) (tail (W (Q_sem i))))
      (SemaphoreBody (if bool_decide (W (Q_sem i) = []) then u64 (sem_value y i + 1) else sem_value y i)) y') y.
Proof.
  intros Hok [Hi Hl]. unfold semaphore_post_give, set_value, get_obj, upd_obj, sem_value.
  apply (wp_pst (A := semaphore_body)). wp_step. apply wp_plock; [done|]. wp_step.
  eapply wp_mono; [by apply (obj_dequeue_spec (A := semaphore_body) W)|].
  intros r y' (-> & tab & q & -> & Hok' & Hx). cbn [pool_qid semaphore_laws] in *.
  destruct (W (Q_sem i)) as [|t l] eqn:Hw; cbn [head tail] in *.
  - rewrite !bool_decide_true by done. cbn [whenM]. wp_step. apply wp_set_pool; [done|]. wp_step.
    apply wp_punlock. wp_step. split; [done|].
    eapply (obj_eff_queue _ _ _ _ []); [|done|].
    + by apply queues_ok_upd; [eapply queues_ok_relock|].
    + by rewrite !p_obj_upd, !decide_True.
  - rewrite !bool_decide_false by done. cbn [whenM]. do 3 wp_step. apply wp_punlock. wp_step. split; [done|].
    eapply (obj_eff_queue _ _ _ _ (t :: l)); [by eapply queues_ok_relock|done|].
    rewrite p_obj_upd, decide_True by done. by rewrite sem_body_eta.
Qed.

(** ** Permits *)

(** [sreach i n posts grants y]: from a semaphore with [n] permits, [posts]
    calls to [semaphore_post] have run and [grants] permits were handed out, by
    an immediate [semaphore_wait] or [semaphore_trywait] or to a waiter. *)
Inductive sreach (i n : Z) : Z → Z → ystate S → Prop :=
  | sr_init y W : queues_ok W y → W (Q_sem i) = [] → yheld y = [] → index_ok i = true →
      body (sem_at y i) = body (semaphore_init n (sem_at y i)) → sreach i n 0 0 y
  | sr_wait posts grants y cpu t r y' : sreach i n posts grants y → runs y cpu t → waits_nowhere y t →
      semaphore_wait_enter cpu i y = Some (r, y') →
      sreach i n posts (grants + match r with SemTaken => 1 | _ => 0 end) y'
  | sr_trywait posts grants y r y' : sreach i n posts grants y →
      semaphore_trywait i y = Some (r, y') → sreach i n posts (grants + r) y'
  | sr_post posts grants y r y' : sreach i n posts grants y →
      semaphore_post_give i y = Some (r, y') →
      sreach i n (posts + 1) (grants + match r with Some _ => 1 | None => 0 end) y'
  | sr_env posts grants y y' W W' : sreach i n posts grants y →
      queues_ok W y → queues_ok W' y' → W' (Q_sem i) = W (Q_sem i) →
      body (sem_at y' i) = body (sem_at y i) → yheld y' = yheld y → sreach i n posts grants y'.

Record sinv (i n posts grants : Z) y W : Prop := {
  sv_ok : queues_ok W y;
  sv_held : yheld y = [];
  sv_index : index_ok i = true;
  sv_posts : 0 ≤ posts;
  sv_value : 0 ≤ sem_value y i;
  sv_count : n + posts = sem_value y i + grants;
  sv_grants : 0 ≤ grants;
  sv_wait : W (Q_sem i) ≠ [] → sem_value y i = 0;
}.

Lemma sreach_posts i n posts grants y : sreach i n posts grants y → 0 ≤ posts.
Proof. induction 1; lia. Qed.

Lemma sreach_inv i n posts grants y : 0 ≤ n → n + posts < 2 ^ 64 → sreach i n posts grants y →
  ∃ W, sinv i n posts grants y W.
Proof.
  intros Hn Hb Hr. induction Hr as [y W Hok Hw Hh Hi Hbd|posts grants y cpu t r y' Hr IH Hruns Hno Hs
    |posts grants y r y' Hr IH Hs|posts grants y r y' Hr IH Hs|posts grants y y' W W' Hr IH Hok Hok' Hw Hbd Hh].
  - exists W. assert (sem_value y i = n) as Hv by (unfold sem_value; by rewrite Hbd). split; rewrite ?Hv; try done; lia.
  - destruct (IH Hb) as [W []]. assert (sem_lockable y i) as Hlk by (split; [done|by rewrite sv_held0]).
    pose proof (wp_run _ _ _ _ _ (semaphore_wait_enter_spec W y cpu i t sv_ok0 Hlk Hruns (Hno W sv_ok0)) Hs) as Hp.
    cbn in Hp. destruct (0 <? sem_value y i) eqn:Hv; bool_to_prop; destruct Hp as [-> [Hok' Hbd _ Hh _ _]].
    + exists W. assert (sem_value y' i = sem_value y i - 1) as Hv' by (unfold sem_value at 1; by rewrite Hbd).
      split; rewrite ?Hv'; try done; try congruence; try lia. intros Hne%sv_wait0. lia.
    + eexists. assert (sem_value y' i = sem_value y i) as Hv' by (unfold sem_value at 1; by rewrite Hbd).
      split; [exact Hok'|..]; rewrite ?Hv'; try done; try congruence; try lia.
  - destruct (IH Hb) as [W []]. assert (sem_lockable y i) as Hlk by (split; [done|by rewrite sv_held0]).
    pose proof (wp_run _ _ _ _ _ (semaphore_trywait_spec W y i sv_ok0 Hlk) Hs) as Hp. cbn in Hp. exists W.
    destruct (sem_value y i =? 0) eqn:Hv; bool_to_prop.
    + destruct Hp as [-> ->]. split; try done; lia.
    + destruct Hp as [-> [Hok' Hbd _ Hh _ _]].
      assert (sem_value y' i = sem_value y i - 1) as Hv' by (unfold sem_value at 1; by rewrite Hbd).
      split; rewrite ?Hv'; try done; try congruence; try lia. intros Hne%sv_wait0. lia.
  - destruct (IH ltac:(lia)) as [W []]. assert (sem_lockable y i) as Hlk by (split; [done|by rewrite sv_held0]).
    pose proof (wp_run _ _ _ _ _ (semaphore_post_give_spec W y i sv_ok0 Hlk) Hs) as [-> [Hok' Hbd _ Hh _ _]].
    assert (sem_value y' i = if bool_decide (W (Q_sem i) = []) then u64 (sem_value y i + 1) else sem_value y i) as Hv'
      by (unfold sem_value at 1; by rewrite Hbd).
    eexists. split; [exact Hok'|..]; rewrite ?Hv', ?wupd_eq; try done; try congruence; try lia;
      destruct (W (Q_sem i)) as [|t l]; cbn [head tail] in *;
      rewrite ?bool_decide_true, ?bool_decide_false by done; rewrite ?u64_small by lia; try lia; try done.
    intros _. by apply sv_wait0.
  - destruct (IH Hb) as [W0 []]. exists W'.
    assert (sem_value y' i = sem_value y i) as Hv' by (unfold sem_value; by rewrite Hbd).
    split; rewrite ?Hv'; try done; try congruence. rewrite Hw, (queues_ok_unique W W0 y); done.
Qed.

End spec.
