(* ===== verification/Condvar.v ===== *)
(** * Condition variables: src/src/kernel/condvar.c

    [condvar_wait] may call [schedule] twice: when it parks on the condition
    and when it reacquires the mutex.  It is cut at both. *)

From S2P Require Import Prelude Machine Task WaitQueue SchedQueue SchedOps Sync Mutex.

Open Scope kernel_scope.

Section condvar.
Context {S : Type} `{Parking S}.
Implicit Types y : ystate S.

Definition condvar_handle_index (handle : Z) : Z := handle_index handle.
Definition condvar_handle_generation (handle : Z) : Z := handle_generation handle.
Definition condvar_make_handle (index gen : Z) : Z := make_handle index gen.

Definition condvar_init (c : pooled condvar_body) : pooled condvar_body :=
  Pooled CondvarBody wait_queue_init 0 0.

(** The critical section of [condvar_wait]: the task that must park, or a failure. *)
Definition condvar_wait_enter (cpu i mutex_handle : Z) : M (ystate S) tptr :=
  current ← y_current cpu;
  if bool_decide (current = None) then mret None else
  ylock (L_cond i) ;;
  queued ← obj_enqueue (A := condvar_body) i current;
  if negb (queued : bool) then yunlock (L_cond i) ;; mret None else
  released ← mutex_pool_unlock cpu mutex_handle;
  if released =? 0 then
    _ ← obj_remove (A := condvar_body) i current;
    yunlock (L_cond i) ;;
    mret None
  else
    yunlock (L_cond i) ;;
    mret current.

(** Where [condvar_wait] is: returned, in the [schedule] of its park, or in the
    [schedule] of [mutex_pool_lock] on mutex [m]. *)
Inductive cond_result : Type :=
  | CondReturns (r : Z)
  | CondParked
  | CondRelocking (m : Z).

(** After the park: [return mutex_pool_lock(mutex_handle)]. *)
Definition condvar_wait_return (cpu mutex_handle : Z) : M (ystate S) cond_result :=
  r ← mutex_pool_lock cpu mutex_handle;
  mret (match r with PoolReturns r => CondReturns r | PoolBlocked m => CondRelocking m end).

Definition condvar_wait (cpu i mutex_handle : Z) : M (ystate S) cond_result :=
  t ← condvar_wait_enter cpu i mutex_handle;
  if bool_decide (t = None) then mret (CondReturns 0) else
  blocks ← y_park t;
  if (blocks : bool) then mret CondParked else condvar_wait_return cpu mutex_handle.

Definition condvar_signal (cpu i : Z) : M (ystate S) Z :=
  ylock (L_cond i) ;;
  waiter ← obj_dequeue (A := condvar_body) i;
  yunlock (L_cond i) ;;
  (if bool_decide (waiter = None) then mret () else y_unpark cpu waiter) ;;
  mret 1.

(** The loop ends when the queue is empty; it wakes at most [MAX_TASKS] tasks
    when none is queued meanwhile. *)
Definition condvar_broadcast (cpu i : Z) : M (ystate S) Z :=
  whileM wq_fuel (λ _ : unit,
    ylock (L_cond i) ;;
    waiter ← obj_dequeue (A := condvar_body) i;
    yunlock (L_cond i) ;;
    if bool_decide (waiter = None) then mret (inr ()) else
    y_unpark cpu waiter ;;
    mret (inl ())) () ;;
  mret 1.

(** ** The pool *)

Definition condvar_pool_pin (handle : Z) : M (ystate S) (option Z) := pool_pin (A := condvar_body) handle.
Definition condvar_pool_unpin (i : Z) : M (ystate S) unit := pool_unpin (A := condvar_body) i.
Definition condvar_pool_alloc : M (ystate S) Z := pool_alloc condvar_init.
Definition condvar_pool_free (handle : Z) : M (ystate S) bool := pool_free (A := condvar_body) handle.
Definition condvar_detach_task (t : tptr) : M (ystate S) unit := pool_detach (A := condvar_body) t.

(** The pin on the condition is dropped only when [condvar_wait] returns. *)
Definition condvar_pool_wait (cpu cond_handle mutex_handle : Z) : M (ystate S) (option Z * cond_result) :=
  c ← condvar_pool_pin cond_handle;
  match c with
  | None => mret (None, CondReturns 0)
  | Some i =>
      r ← condvar_wait cpu i mutex_handle;
      match r with
      | CondReturns _ => condvar_pool_unpin i ;; mret (Some i, r)
      | _ => mret (Some i, r)
      end
  end.

Definition condvar_pool_signal (cpu handle : Z) : M (ystate S) Z :=
  c ← condvar_pool_pin handle;
  match c with
  | None => mret 0
  | Some i => result ← condvar_signal cpu i; condvar_pool_unpin i ;; mret result
  end.

Definition condvar_pool_broadcast (cpu handle : Z) : M (ystate S) Z :=
  c ← condvar_pool_pin handle;
  match c with
  | None => mret 0
  | Some i => result ← condvar_broadcast cpu i; condvar_pool_unpin i ;; mret result
  end.

End condvar.
