(* ===== verification/CondvarSpec.v ===== *)
(** * What the operations of condvar.c do: a broadcast wakes every waiter, and
    a wait gives the mutex to the next owner before it parks, without losing a
    signal that comes in between. *)

From S2P Require Import Prelude Machine Task WaitQueue Sched SchedQueue SchedOps Sync SyncSpec PoolSpec Mutex MutexSys Condvar.

Open Scope kernel_scope.

Abbreviation cond_at := (obj_at (A := condvar_body)).
Abbreviation cond_eff := (obj_eff (A := condvar_body)).
Abbreviation cond_lockable := (lockable (A := condvar_body)).

Lemma tview_unparked x x' : tview x = tview x' → tview (unparked x) = tview (unparked x').
Proof.
  intros (E1 & E2 & E3 & E4)%tview_eqs. unfold unparked, wakeable, readied, alive, tview.
  rewrite E1, E2, E3. repeat case_match; cbn; congruence.
Qed.

Lemma tview_parked x x' : tview x = tview x' → tview (parked x) = tview (parked x').
Proof.
  intros (E1 & E2 & E3 & E4)%tview_eqs. unfold parked, blockable, alive, tview.
  rewrite E1, E2, E3, E4. repeat case_match; cbn; congruence.
Qed.

Lemma tview_parks x x' : tview x = tview x' → parks x = parks x'.
Proof.
  intros (E1 & E2 & E3 & E4)%tview_eqs. unfold parks, blockable, alive. by rewrite E1, E2, E3, E4.
Qed.

Section spec.
Context {S : Type} `{WakeLaws S}.
Implicit Types y : ystate S.
Implicit Types W : qid → list Z.

Lemma queue_slot W y q t : queues_ok W y → t ∈ W q → slot_ok t = true.
Proof. intros Hok Ht. destruct (qo_rep _ _ Hok q) as [_ Hs]. rewrite Forall_forall in Hs. by apply Hs. Qed.

Lemma head_in {A} (l : list A) t : head l = Some t → t ∈ l.
Proof. destruct l; [done|]. intros [= ->]. by left. Qed.

(** The tasks after the first waiter of [q] was woken. *)
Definition head_woken W (q : qid) y y' : Prop :=
  ∀ j, tview (ytask y' j) =
       if decide (head (W q) = Some j) then tview (unparked (ytask y j)) else tview (ytask y j).

(** ** Unlocking a pooled mutex *)

(** Everything but the mutexes. *)
Definition same_others y y' : Prop :=
  semaphore_pool y' = semaphore_pool y ∧ condvar_pool y' = condvar_pool y ∧ ipc_channels y' = ipc_channels y.

Record unlock_eff W y i y' : Prop := {
  ul_ok : queues_ok (wupd W (Q_mutex i) (tail (W (Q_mutex i)))) y';
  ul_body : body (mutex_at y' i) = match W (Q_mutex i) with
                                   | [] => MutexBody 0 None
                                   | t :: _ => MutexBody (locked (body (mutex_at y i))) (Some t)
                                   end;
  ul_view : head_woken W (Q_mutex i) y y';
  ul_held : yheld y' = yheld y;
  ul_cur : pk_cur (y_sched y') = pk_cur (y_sched y);
  ul_others : same_others y y';
}.

Lemma wake_head {A} W (r : A) (q : qid) y y1 cpu (Q : A → ystate S → Prop) :
  queues_ok W y → queues_ok (wupd W q (tail (W q))) y1 → can_lock L_sched (yheld y1) = true →
  (∀ j, tview (ytask y1 j) = tview (ytask y j)) →
  (∀ y', queues_ok (wupd W q (tail (W q))) y' → head_woken W q y y' → yheld y' = yheld y1 →
     pk_cur (y_sched y') = pk_cur (y_sched y1) → mutex_pool y' = mutex_pool y1 → same_others y1 y' → Q r y') →
  wp ((if bool_decide (head (W q) = None) then mret () else y_unpark cpu (head (W q))) ;; mret r) Q y1.
Proof.
  intros Hok Hok1 Hl Hv HQ. destruct (head (W q)) as [t|] eqn:Hw.
  - rewrite bool_decide_false by done. wp_step.
    eapply wp_mono; [apply (wp_sched_unpark (wupd W q (tail (W q)))); [done|done|]|].
    { eapply queue_slot; [exact Hok|]. by eapply head_in. }
    intros [] y' [Hok' Hv' Hh' Hc' E1 E2 E3 E4]. wp_step. apply HQ; try done.
    intros j. rewrite Hw, Hv'. destruct (decide (j = t)) as [->|].
    + rewrite decide_True by done. apply tview_unparked, Hv.
    + rewrite decide_False by congruence. apply Hv.
  - rewrite bool_decide_true by done. do 3 wp_step. apply HQ; try done. intros j. by rewrite Hw, Hv.
Qed.

Lemma mutex_unlock_spec W y cpu i :
  queues_ok W y → mutex_lockable y i → can_lock L_sched (yheld y) = true →
  wp (mutex_unlock cpu i) (λ _ y', unlock_eff W y i y') y.
Proof.
  intros Hok Hlk Hl. unfold mutex_unlock. wp_step.
  eapply wp_mono; [by apply (mutex_unlock_handoff_spec W)|].
  intros r y1 [-> [Ho Hb Hv Hh Hc (s & p & ->)]].
  set (y1 := sub_set p _) in *.
  eapply (wp_mono _ (λ _, unlock_eff W y i)); [|done].
  assert (∀ m : M (ystate S) unit, wp (m ;; mret ()) (λ _, unlock_eff W y i) y1 → wp m (λ _, unlock_eff W y i) y1) as Hret.
  { intros m. rewrite wp_bind. intros Hm. eapply wp_mono; [exact Hm|]. intros [] y2. done. }
  apply Hret. eapply (wake_head W () (Q_mutex i) y y1); try done; [by rewrite Hh|].
  intros y' Hok' Hv' Hh' Hc' Hm Hoth. split; try done; try congruence.
  unfold obj_at, the_pool in *. cbn in *. by rewrite Hm.
Qed.

(** Pinning and unpinning change only the count of operations. *)
Lemma pin_queues W y i f : queues_ok W y → (∀ m : pooled mutex_body, waiters (f m) = waiters m) →
  queues_ok W (with_pool y (p_upd_obj i f (mutex_pool y))).
Proof.
  intros Hok Hf. apply queues_ok_pool; [done|]. intros j. rewrite p_obj_upd. by case_decide; subst.
Qed.

Lemma drop_op_fields {A} (o : pooled A) : waiters (drop_op o) = waiters o ∧ body (drop_op o) = body o ∧
  destroying (drop_op o) = destroying o.
Proof. unfold drop_op. by case_match. Qed.

Lemma with_pool_tab {A} `{PoolLaws S A} y (p : pool A) : ytab (with_pool y p) = ytab y.
Proof. apply pst_tab. Qed.

Lemma with_pool_task {A} `{PoolLaws S A} y (p : pool A) j : ytask (with_pool y p) j = ytask y j.
Proof. unfold ytask. by rewrite with_pool_tab. Qed.

Definition pool_lockable y (i : Z) : Prop :=
  can_lock L_mutex_pool (yheld y) = true ∧ can_lock (L_mutex i) (yheld y) = true ∧ can_lock L_sched (yheld y) = true.

Lemma mutex_pool_unlock_spec W y cpu h :
  queues_ok W y → pool_lockable y (handle_index h) →
  wp (mutex_pool_unlock cpu h) (λ r y',
    if valid (mutex_pool y) h then r = 1 ∧ unlock_eff W y (handle_index h) y' else r = 0 ∧ y' = y) y.
Proof.
  intros Hok (Hlp & Hlm & Hls). unfold mutex_pool_unlock, mutex_pool_pin, mutex_pool_unpin. wp_step.
  eapply wp_mono; [by apply (pool_pin_spec (A := mutex_body))|]. intros r y0.
  change (the_pool (A := mutex_body) y) with (mutex_pool y).
  destruct (valid (mutex_pool y) h) eqn:Hv; intros [-> ->]; [|by wp_step].
  assert (index_ok (handle_index h) = true) as Hi.
  { apply good_handle. unfold valid in Hv. destruct (bad_handle h); [done|done]. }
  set (i := handle_index h) in *. set (y0 := with_pool y _).
  assert (queues_ok W y0) as Hok0 by (by apply pin_queues).
  assert (yheld y0 = yheld y) as Hh0 by apply with_pool_held.
  wp_step. eapply wp_mono; [apply (mutex_unlock_spec W y0 cpu i); [done|split; [done|by rewrite Hh0]|by rewrite Hh0]|].
  intros [] y1 [Ho1 Hb1 Hv1 Hh1 Hc1 (E1 & E2 & E3)].
  wp_step. eapply wp_mono; [apply (pool_unpin_spec (A := mutex_body)); [by rewrite Hh1, Hh0|done]|].
  intros [] y2 ->. wp_step. split; [done|].
  assert (body (mutex_at y0 i) = body (mutex_at y i)) as Hb0.
  { unfold obj_at, y0. rewrite with_pool_pool. by rewrite p_obj_upd, decide_True. }
  split.
  - apply pin_queues; [exact Ho1|]. intros m. apply drop_op_fields.
  - unfold obj_at at 1. rewrite with_pool_pool, p_obj_upd, decide_True by done.
    rewrite (proj1 (proj2 (drop_op_fields _))). fold (mutex_at y1 i). rewrite Hb1. by rewrite Hb0.
  - intros j. rewrite with_pool_task, Hv1. unfold y0. by rewrite with_pool_task.
  - rewrite with_pool_held. congruence.
  - unfold with_pool. rewrite pst_cur, Hc1. unfold y0, with_pool. apply pst_cur.
  - done.
Qed.

(** ** Condition variables *)

Lemma condvar_dequeue_spec W y i :
  queues_ok W y → cond_lockable y i →
  wp (ylock (L_cond i) ;; waiter ← obj_dequeue (A := condvar_body) i; yunlock (L_cond i) ;; mret waiter)
    (λ r y', r = head (W (Q_cond i)) ∧
       cond_eff W y i (wupd W (Q_cond i) (tail (W (Q_cond i)))) CondvarBody y') y.
Proof.
  intros Hok [Hi Hl]. apply (wp_pst (A := condvar_body)). wp_step. apply wp_plock; [done|]. wp_step.
  eapply wp_mono; [by apply (obj_dequeue_spec (A := condvar_body) W)|].
  intros r y' (-> & tab & q & -> & Hok' & Hx). wp_step. apply wp_punlock. wp_step. split; [done|].
  eapply obj_eff_queue; [by eapply queues_ok_relock|done|]. rewrite p_obj_upd, decide_True by done.
  by destruct (body _).
Qed.

(** The same section with another continuation. *)
Lemma wp_reassoc {A B} (m : M (ystate S) unit) (m1 : M (ystate S) A) (m2 : M (ystate S) unit) (k : A → M (ystate S) B) Q y :
  wp (r ← (m ;; a ← m1; m2 ;; mret a); k r) Q y → wp (m ;; a ← m1; m2 ;; k a) Q y.
Proof.
  unfold wp, mbind, M_bind, mret, M_ret. destruct (m y) as [[[] y1]|]; [|done].
  destruct (m1 y1) as [[a y2]|]; [|done]. by destruct (m2 y2) as [[[] y3]|].
Qed.

Lemma condvar_signal_spec W y cpu i :
  queues_ok W y → cond_lockable y i → can_lock L_sched (yheld y) = true →
  wp (condvar_signal cpu i) (λ r y', r = 1 ∧ queues_ok (wupd W (Q_cond i) (tail (W (Q_cond i)))) y' ∧
    head_woken W (Q_cond i) y y' ∧ yheld y' = yheld y) y.
Proof.
  intros Hok Hlk Hl. unfold condvar_signal. apply wp_reassoc. wp_step.
  eapply wp_mono; [by apply (condvar_dequeue_spec W)|]. intros r y1 [-> [Ho Hb Hv Hh Hc _]].
  apply (wake_head W 1 (Q_cond i) y); try done; [by rewrite Hh|].
  intros y' Hok' Hv' Hh' _ _ _. split; [done|]. split; [done|]. split; [done|]. congruence.
Qed.

(** The loop of [condvar_broadcast] empties the queue and wakes each task in it. *)
Lemma condvar_broadcast_spec W y cpu i :
  queues_ok W y → cond_lockable y i → can_lock L_sched (yheld y) = true →
  wp (condvar_broadcast cpu i) (λ r y', r = 1 ∧ queues_ok (wupd W (Q_cond i) []) y' ∧ yheld y' = yheld y ∧
    ∀ j, tview (ytask y' j) =
         if decide (j ∈ W (Q_cond i)) then tview (unparked (ytask y j)) else tview (ytask y j)) y.
Proof.
  intros Hok Hlk Hl. unfold condvar_broadcast. wp_step.
  set (I := λ (n : nat) (_ : unit) (y' : ystate S), ∃ W' pre, queues_ok W' y' ∧ yheld y' = yheld y ∧
    W (Q_cond i) = pre ++ W' (Q_cond i) ∧ n = length (W' (Q_cond i)) ∧ (∀ q, q ≠ Q_cond i → W' q = W q) ∧
    ∀ j, tview (ytask y' j) = if decide (j ∈ pre) then tview (unparked (ytask y j)) else tview (ytask y j)).
  apply (wp_whileM _ _ _ I _ (length (W (Q_cond i)))).
  { destruct (qo_rep _ _ Hok (Q_cond i)) as [Hq Hs]. pose proof (slots_length _ (q_nodup _ _ _ _ Hq) Hs).
    unfold wq_fuel, MAX_TASKS. lia. }
  { exists W, []. split; [done|]. split; [done|]. split; [done|]. split; [done|]. split; [done|].
    intros j. by rewrite decide_False by apply not_elem_of_nil. }
  intros n [] y1 (W1 & pre & Hok1 & Hh1 & Hpre & -> & Hoth & Hv1).
  apply wp_reassoc. wp_step.
  eapply wp_mono; [apply (condvar_dequeue_spec W1); [done|destruct Hlk; split; [done|by rewrite Hh1]]|].
  intros r y2 [-> [Ho2 Hb2 Hv2 Hh2 _ _]].
  destruct (W1 (Q_cond i)) as [|t l] eqn:Hw; cbn [head tail] in *.
  - rewrite bool_decide_true by done. do 2 wp_step. split; [done|]. rewrite app_nil_r in Hpre.
    split; [|split; [congruence|]].
    + destruct Ho2 as [Hp Hr Hd]. assert (∀ q, wupd W (Q_cond i) [] q = wupd W1 (Q_cond i) [] q) as He.
      { intros q. unfold wupd. case_decide; [done|]. symmetry. by apply Hoth. }
      split; [done|intros q; rewrite He; apply Hr|intros q q' j; rewrite !He; apply Hd].
    + intros j. rewrite Hv2, Hv1, Hpre. done.
  - rewrite bool_decide_false by done. wp_step.
    assert (slot_ok t = true) as Ht by (apply (queue_slot W1 y1 (Q_cond i) t Hok1); rewrite Hw; by left).
    eapply wp_mono; [apply (wp_sched_unpark _ y2 cpu t Ho2); [by rewrite Hh2, Hh1|done]|].
    intros [] y3 [Ho3 Hv3 Hh3 _ _ _ _ _]. wp_step. exists (length l). split; [cbn; lia|].
    exists (wupd W1 (Q_cond i) l), (pre ++ [t]). split; [done|]. split; [congruence|].
    rewrite wupd_eq. split; [by rewrite <- app_assoc|]. split; [done|].
    split; [intros q Hq; rewrite wupd_ne by done; by apply Hoth|].
    assert (NoDup (pre ++ t :: l)) as Hnd.
    { rewrite <- Hpre. apply (q_nodup _ _ _ _ (proj1 (qo_rep _ _ Hok (Q_cond i)))). }
    destruct (NoDup_mid_notin _ pre l t eq_refl Hnd) as [Hnin _].
    intros j. rewrite Hv3. destruct (decide (j = t)) as [->|Hjt].
    + rewrite decide_True by set_solver. apply tview_unparked. rewrite Hv2, Hv1, decide_False by done. done.
    + rewrite Hv2, Hv1. destruct (decide (j ∈ pre)); [by rewrite decide_True by set_solver|].
      by rewrite decide_False by set_solver.
Qed.

(** [condvar_wait] up to its park: the caller is queued on the condition, and
    the mutex is released or handed over, in one critical section. *)
Lemma condvar_wait_enter_spec W y cpu i h t :
  queues_ok W y → cond_lockable y i → pool_lockable (yst y (L_cond i :: yheld y) (ytab y)) (handle_index h) →
  runs y cpu t → (∀ q, t ∉ W q) → valid (mutex_pool y) h = true →
  let W1 := wupd W (Q_cond i) (W (Q_cond i) ++ [t]) in
  wp (condvar_wait_enter cpu i h) (λ r y', r = Some t ∧
    queues_ok (wupd W1 (Q_mutex (handle_index h)) (tail (W (Q_mutex (handle_index h))))) y' ∧
    head_woken W (Q_mutex (handle_index h)) y y' ∧ yheld y' = yheld y ∧
    owner (body (mutex_at y' (handle_index h))) = head (W (Q_mutex (handle_index h)))) y.
Proof.
  intros Hok [Hi Hl] (Hlp & Hlm & Hls) (Hc & Hcur & Ht) Hn Hv W1. unfold condvar_wait_enter.
  rewrite yst_held in Hlp, Hlm, Hls.
  apply (wp_pst (A := condvar_body)). wp_step. apply wp_sched_current; [by apply (pst_pk W)|done|].
  rewrite pst_cur, Hcur, bool_decide_false by done. wp_step. apply wp_plock; [done|]. wp_step.
  eapply wp_mono; [by apply (obj_enqueue_spec (A := condvar_body) W)|].
  intros b y1 (-> & tab & q & -> & Ho1 & Hx). cbn [negb pool_qid condvar_laws] in *. fold W1 in Ho1. wp_step.
  set (y1 := pst y _ tab _) in *.
  assert (mutex_pool y1 = mutex_pool y) as Hmp by done.
  assert (yheld y1 = L_cond i :: yheld y) as Hh1 by apply (pst_held (A := condvar_body)).
  eapply wp_mono; [apply (mutex_pool_unlock_spec W1 y1 cpu h Ho1)|].
  { unfold pool_lockable. by rewrite Hh1. }
  intros r y2. rewrite Hmp, Hv. intros [-> [Ho2 Hb2 Hv2 Hh2 Hc2 _]]. cbn [Z.eqb].
  assert (y2 = yst y2 (L_cond i :: yheld y) (ytab y2)) as -> by (rewrite <- Hh1, <- Hh2; symmetry; apply yst_id).
  wp_step. apply wp_yunlock. wp_step. split; [done|].
  assert (W1 (Q_mutex (handle_index h)) = W (Q_mutex (handle_index h))) as HW1 by (by apply wupd_ne).
  rewrite HW1 in Ho2. split; [|split; [|split]].
  - apply (yst_ok_held _ _ (yheld y)) in Ho2. exact Ho2.
  - intros j. unfold ytask at 1. rewrite yst_tab. fold (ytask y2 j). rewrite (Hv2 j), HW1.
    assert (tview (ytask y1 j) = tview (ytask y j)) as Hvj by (by apply (pst_view (A := condvar_body) _ _ _ _ (t :: W (Q_cond i)))).
    destruct (decide _); [by apply tview_unparked|done].
  - apply yst_held.
  - change (mutex_at (yst y2 ?a ?b) ?k) with (mutex_at y2 k). rewrite Hb2, HW1. by destruct (W (Q_mutex (handle_index h))).
Qed.

End spec.
