(* ===== verification/Ipc.v ===== *)
(** * IPC channels: src/src/kernel/ipc.c

    A channel holds at most one message, of at most 64 bytes, and the tasks
    that wait for one.  The caller's buffer is a list of bytes: [ipc_send] is
    given the [len] bytes at [data] (or [None] for a null pointer), and
    [ipc_receive] returns the bytes it copies out. *)

From S2P Require Import Prelude Machine Task WaitQueue SchedQueue SchedOps Sync.

Open Scope kernel_scope.

Definition IPC_CHANNEL_MAX : Z := 8.
Definition IPC_MESSAGE_MAX : Z := 64.
Definition IPC_RESULT_ERROR : Z := -1.
Definition IPC_RESULT_BLOCKED : Z := -2.

Definition channel0 : ipc_channel := IpcChannel 0 0 (replicate 64 0) wait_queue_init.

Section ipc.
Context {S : Type} `{Parking S}.
Implicit Types y : ystate S.

Definition channel_at y (c : Z) : ipc_channel := default channel0 (ipc_channels y !! c).

Definition ipc_valid_channel (channel_id : Z) : bool := channel_id <? IPC_CHANNEL_MAX.

Definition get_channel (c : Z) : M (ystate S) ipc_channel :=
  λ y, if (0 <=? c) && (c <? IPC_CHANNEL_MAX) then Some (channel_at y c, y) else None.
Definition upd_channel (c : Z) (f : ipc_channel → ipc_channel) : M (ystate S) unit :=
  λ y, if (0 <=? c) && (c <? IPC_CHANNEL_MAX)
       then Some ((), y <| ipc_channels := <[c := f (channel_at y c)]> (ipc_channels y) |>) else None.

(** [channel->buffer[index] = v]. *)
Definition set_byte (c index v : Z) : M (ystate S) unit :=
  λ y, if (0 <=? index) && (index <? IPC_MESSAGE_MAX)
       then upd_channel c (λ ch, ch <| buffer := <[Z.to_nat index := v]> (buffer ch) |>) y else None.

Definition ipc_init : M (ystate S) unit :=
  forM_ (upto 0 IPC_CHANNEL_MAX) (λ c,
    upd_channel c (λ ch, ch <| has_message := 0 |> <| message_length := 0 |>
                            <| receivers := wait_queue_init |>) ;;
    forM_ (upto 0 IPC_MESSAGE_MAX) (λ b, set_byte c b 0)).

(** [data] is the sender's buffer; reading past its end is undefined. *)
Definition read_byte (data : list Z) (index : Z) : M (ystate S) Z :=
  λ y, match data !! Z.to_nat index with Some b => Some (b, y) | None => None end.

Definition ipc_send (cpu channel_id : Z) (data : option (list Z)) (len : Z) : M (ystate S) Z :=
  match data with
  | None => mret IPC_RESULT_ERROR
  | Some bytes =>
      if negb (ipc_valid_channel channel_id) || (len =? 0) || (IPC_MESSAGE_MAX <? len)
      then mret IPC_RESULT_ERROR else
      ylock (L_ipc channel_id) ;;
      ch ← get_channel channel_id;
      if negb (has_message ch =? 0) then
        yunlock (L_ipc channel_id) ;; mret IPC_RESULT_ERROR
      else
        forM_ (upto 0 len) (λ index,
          b ← read_byte bytes index;
          set_byte channel_id index b) ;;
        upd_channel channel_id (λ ch, ch <| message_length := len |> <| has_message := 1 |>) ;;
        ch ← get_channel channel_id;
        '(waiting_receiver, q) ← on_tasks (wait_queue_dequeue (receivers ch));
        upd_channel channel_id (λ ch, ch <| receivers := q |>) ;;
        yunlock (L_ipc channel_id) ;;
        (if bool_decide (waiting_receiver = None) then mret ()
         else y_unpark cpu waiting_receiver) ;;
        mret len
  end.

(** The result and the bytes written to the caller's buffer, which has
    [capacity] bytes. *)
Definition ipc_receive (channel_id : Z) (t : tptr) (data_null : bool) (capacity : Z)
    : M (ystate S) (Z * list Z) :=
  if negb (ipc_valid_channel channel_id) || bool_decide (t = None) || data_null
     || (capacity =? 0) || (IPC_MESSAGE_MAX <? capacity)
  then mret (IPC_RESULT_ERROR, []) else
  ylock (L_ipc channel_id) ;;
  ch ← get_channel channel_id;
  if negb (has_message ch =? 0) then
    if capacity <? message_length ch then
      yunlock (L_ipc channel_id) ;; mret (IPC_RESULT_ERROR, [])
    else
      out ← foldM (upto 0 (message_length ch)) (λ out index,
        ch ← get_channel channel_id;
        b ← read_byte (buffer ch) index;
        mret (out ++ [b])) [];
      upd_channel channel_id (λ ch, ch <| has_message := 0 |>) ;;
      upd_channel channel_id (λ ch, ch <| message_length := 0 |>) ;;
      yunlock (L_ipc channel_id) ;;
      mret (message_length ch, out)
  else
    '(queued, q) ← on_tasks (wait_queue_enqueue (receivers ch) t);
    upd_channel channel_id (λ ch, ch <| receivers := q |>) ;;
    inq ← (if (queued : bool) then mret true else on_tasks (wait_queue_contains q t));
    if negb (inq : bool) then
      yunlock (L_ipc channel_id) ;; mret (IPC_RESULT_ERROR, [])
    else
      yunlock (L_ipc channel_id) ;;
      _ ← y_park t;
      mret (IPC_RESULT_BLOCKED, []).

Definition ipc_detach_task (t : tptr) : M (ystate S) unit :=
  if bool_decide (t = None) then mret () else
  forM_ (upto 0 IPC_CHANNEL_MAX) (λ c,
    ylock (L_ipc c) ;;
    ch ← get_channel c;
    '(_, q) ← on_tasks (wait_queue_remove (receivers ch) t);
    upd_channel c (λ ch, ch <| receivers := q |>) ;;
    yunlock (L_ipc c)).

End ipc.
