(* ===== verification/IpcSpec.v ===== *)
(** * What the operations of ipc.c do: one message per channel, delivered whole
    and once. *)

From S2P Require Import Prelude Machine Task WaitQueue SchedQueue SchedOps Sync SyncSpec PoolSpec MutexSys CondvarSpec Ipc.

Open Scope kernel_scope.

Definition chan_ok (c : Z) : bool := (0 <=? c) && (c <? IPC_CHANNEL_MAX).

Section spec.
Context {S : Type} `{WakeLaws S}.
Implicit Types y : ystate S.
Implicit Types W : qid → list Z.

(** [y] with other locks, tasks and channels. *)
Definition ist y (h : list lock) (tab : tasktab) (m : gmap Z ipc_channel) : ystate S :=
  yst (y <| ipc_channels := m |>) h tab.

Definition chan (m : gmap Z ipc_channel) (c : Z) : ipc_channel := default channel0 (m !! c).

Lemma ist_id y : ist y (yheld y) (ytab y) (ipc_channels y) = y.
Proof. unfold ist. replace (y <| ipc_channels := ipc_channels y |>) with y by (by destruct y). apply yst_id. Qed.

Lemma wp_ist {B} (n : M (ystate S) B) Q y :
  wp n Q (ist y (yheld y) (ytab y) (ipc_channels y)) → wp n Q y.
Proof. by rewrite ist_id. Qed.

Lemma ist_chan y h tab m c : channel_at (ist y h tab m) c = chan m c.
Proof. done. Qed.

Lemma wp_ilock l (Q : unit → ystate S → Prop) y h tab m :
  can_lock l h = true → Q () (ist y (l :: h) tab m) → wp (ylock l) Q (ist y h tab m).
Proof. apply wp_ylock. Qed.
Lemma wp_iunlock l (Q : unit → ystate S → Prop) y h tab m :
  Q () (ist y h tab m) → wp (yunlock l) Q (ist y (l :: h) tab m).
Proof. apply wp_yunlock. Qed.
Lemma wp_itasks {B} (n : M tasktab B) (Q : B → ystate S → Prop) y h tab m :
  wp n (λ a tab', Q a (ist y h tab' m)) tab → wp (on_tasks n) Q (ist y h tab m).
Proof. apply wp_on_tasks. Qed.
Lemma wp_get_channel c (Q : ipc_channel → ystate S → Prop) y h tab m :
  chan_ok c = true → Q (chan m c) (ist y h tab m) → wp (get_channel c) Q (ist y h tab m).
Proof. unfold wp, get_channel, chan_ok. by intros ->. Qed.
Lemma wp_upd_channel c f (Q : unit → ystate S → Prop) y h tab m :
  chan_ok c = true → Q () (ist y h tab (<[c := f (chan m c)]> m)) → wp (upd_channel c f) Q (ist y h tab m).
Proof. unfold wp, upd_channel, chan_ok. by intros ->. Qed.
Lemma wp_set_byte c k v (Q : unit → ystate S → Prop) y h tab m :
  chan_ok c = true → 0 ≤ k < IPC_MESSAGE_MAX →
  Q () (ist y h tab (<[c := (chan m c) <| buffer := <[Z.to_nat k := v]> (buffer (chan m c)) |>]> m)) →
  wp (set_byte c k v) Q (ist y h tab m).
Proof.
  intros Hc Hk HQ. unfold wp, set_byte. btrue (0 <=? k). btrue (k <? IPC_MESSAGE_MAX). cbn [andb].
  by apply (wp_upd_channel c (λ ch, ch <| buffer := <[Z.to_nat k := v]> (buffer ch) |>) Q).
Qed.
Lemma wp_read_byte bytes k b (Q : Z → ystate S → Prop) y :
  bytes !! Z.to_nat k = Some b → Q b y → wp (read_byte bytes k) Q y.
Proof. unfold wp, read_byte. by intros ->. Qed.

Lemma chan_insert m c c' ch : chan (<[c := ch]> m) c' = if decide (c = c') then ch else chan m c'.
Proof. unfold chan. rewrite lookup_insert. by case_decide. Qed.

Lemma queue_chan y c : queue_at y (Q_ipc c) = receivers (chan (ipc_channels y) c).
Proof. cbn. unfold chan. by destruct (ipc_channels y !! c). Qed.

Lemma queues_ok_ist W y h tab m X c l :
  queues_ok W y → only_wait_next X (ytab y) tab →
  wq_rep tab (receivers (chan m c)) l →
  (∀ c', c' ≠ c → receivers (chan m c') = receivers (chan (ipc_channels y) c')) →
  (∀ q t, q ≠ Q_ipc c → t ∈ W q → (t ∉ X) ∧ (t ∉ l)) →
  queues_ok (wupd W (Q_ipc c) l) (ist y h tab m).
Proof.
  intros Hok Hx Hr Hsame Hx'. destruct (yst_ok_held _ _ h Hok) as [Hp _ _]. split.
  - unfold ist, yst. cbn. replace (sst (y_sched y) h tab) with (sub_set tab (y_sched (yst y h (ytab y)))).
    + apply (pk_ok_wait _ X); [done|]. unfold yst. cbn. by rewrite sst_tab.
    + unfold yst. cbn. apply sst_set_tab.
  - intros q. unfold ist. rewrite yst_tab, yst_queue. unfold wupd. destruct (decide (q = Q_ipc c)) as [->|Hne].
    + cbn. unfold chan in Hr. by destruct (m !! c).
    + apply (wq_rep_frame X (ytab y)); [done|intros t Ht; by apply (Hx' q)|].
      pose proof (qo_rep _ _ Hok q) as Hq. destruct q as [i|i|i|c']; try exact Hq.
      rewrite queue_chan in Hq |- *. cbn [ipc_channels setf]. by rewrite Hsame by congruence.
  - intros q q' t. unfold wupd. destruct (decide (q = Q_ipc c)), (decide (q' = Q_ipc c)); try congruence.
    + intros Hl Hq. by destruct (Hx' q' t).
    + intros Hq Hl. by destruct (Hx' q t).
    + apply Hok.
Qed.

Lemma chan_rep W y c m : queues_ok W y → receivers (chan m c) = receivers (chan (ipc_channels y) c) →
  wq_rep (ytab y) (receivers (chan m c)) (W (Q_ipc c)).
Proof. intros Hok ->. rewrite <- queue_chan. apply Hok. Qed.

Lemma chan_ok_valid c : chan_ok c = true → ipc_valid_channel c = true.
Proof. unfold chan_ok, ipc_valid_channel. by intros [_ ?]%andb_true_iff. Qed.

Lemma in_queue_disjoint W y q q' t : queues_ok W y → q ≠ q' → t ∈ W q → t ∉ W q'.
Proof. intros Hok Hne H1 H2. apply Hne. by apply (qo_disj _ _ Hok _ _ t). Qed.

(** ** Sending *)

(** The copy loop of [ipc_send]. *)
Lemma send_loop c bytes len y h tab m :
  chan_ok c = true → 0 ≤ len ≤ IPC_MESSAGE_MAX → len ≤ Z.of_nat (length bytes) → length (buffer (chan m c)) = 64%nat →
  wp (forM_ (upto 0 len) (λ index, b ← read_byte bytes index; set_byte c index b))
    (λ _ s, ∃ m', s = ist y h tab m' ∧
       chan m' c = (chan m c) <| buffer := take (Z.to_nat len) bytes ++ drop (Z.to_nat len) (buffer (chan m c)) |> ∧
       ∀ c', c' ≠ c → chan m' c' = chan m c') (ist y h tab m).
Proof.
  unfold IPC_MESSAGE_MAX. intros Hc Hlen Hb Hbuf.
  set (I := λ (pre : list Z) (s : ystate S), ∃ m', s = ist y h tab m' ∧
    chan m' c = (chan m c) <| buffer := take (length pre) bytes ++ drop (length pre) (buffer (chan m c)) |> ∧
    ∀ c', c' ≠ c → chan m' c' = chan m c').
  eapply wp_mono; [apply (wp_forM _ _ I)|].
  - exists m. split; [done|]. split; [|done]. cbn. rewrite drop_0. by destruct (chan m c).
  - intros pre k post s Heq (m' & -> & Hch & Hoth).
    assert (k = Z.of_nat (length pre) ∧ 0 ≤ k < len) as [Hk Hk2].
    { assert (upto 0 len !! length pre = Some k) as Hl by (rewrite Heq; by apply list_lookup_middle).
      rewrite upto_seqZ in Hl. apply lookup_seqZ in Hl. lia. }
    destruct (lookup_lt_is_Some_2 bytes (length pre)) as [b Hbk]; [lia|].
    wp_step. eapply wp_read_byte; [replace (Z.to_nat k) with (length pre) by lia; exact Hbk|].
    apply wp_set_byte; [done|unfold IPC_MESSAGE_MAX; lia|].
    eexists. split; [done|]. split.
    + rewrite chan_insert, decide_True, Hch, Hk by done. cbn. rewrite Nat2Z.id.
      replace (length (pre ++ [Z.of_nat (length pre)])) with (Datatypes.S (length pre)) by (rewrite length_app; cbn; lia).
      f_equal. rewrite (take_S_r bytes (length pre) b) by done.
      rewrite insert_app_r_alt by (rewrite length_take; lia).
      rewrite length_take_le, Nat.sub_diag by lia. rewrite <- app_assoc. f_equal.
      destruct (drop (length pre) (buffer (chan m c))) as [|x l] eqn:Hd.
      { apply (f_equal length) in Hd. rewrite length_drop in Hd. cbn in Hd. lia. }
      cbn. f_equal. replace (Datatypes.S (length pre)) with (length pre + 1)%nat by lia. rewrite <- drop_drop, Hd. done.
    + intros c' Hc'. rewrite chan_insert, decide_False by done. by apply Hoth.
  - intros [] s (m' & -> & Hch & Hoth). exists m'. split; [done|]. split; [|done].
    assert (length (upto 0 len) = Z.to_nat len) as Hl by (rewrite upto_seqZ; apply length_seqZ).
    by rewrite Hl in Hch.
Qed.

(** The channel after a message of [len] bytes was stored. *)
Definition filled (ch : ipc_channel) (bytes : list Z) (len : Z) : ipc_channel :=
  IpcChannel 1 len (take (Z.to_nat len) bytes ++ drop (Z.to_nat len) (buffer ch)) (receivers ch).

(** Two channels with the same message. *)
Definition same_message (ch ch' : ipc_channel) : Prop :=
  has_message ch' = has_message ch ∧ message_length ch' = message_length ch ∧ buffer ch' = buffer ch.

Lemma ipc_send_spec W y cpu c bytes len :
  queues_ok W y → chan_ok c = true → can_lock (L_ipc c) (yheld y) = true → can_lock L_sched (yheld y) = true →
  has_message (channel_at y c) = 0 → length (buffer (channel_at y c)) = 64%nat →
  1 ≤ len ≤ IPC_MESSAGE_MAX → len ≤ Z.of_nat (length bytes) →
  wp (ipc_send cpu c (Some bytes) len) (λ r y', r = len ∧
    queues_ok (wupd W (Q_ipc c) (tail (W (Q_ipc c)))) y' ∧ head_woken W (Q_ipc c) y y' ∧ yheld y' = yheld y ∧
    same_message (filled (channel_at y c) bytes len) (channel_at y' c) ∧
    ∀ c', c' ≠ c → channel_at y' c' = channel_at y c') y.
Proof.
  intros Hok Hc Hl Hls Hm Hbuf Hlen Hb. unfold ipc_send, IPC_MESSAGE_MAX in *.
  rewrite (chan_ok_valid c Hc). cbn [negb orb]. bfalse (len =? 0). bfalse (64 <? len). cbn [orb].
  apply wp_ist. set (m := ipc_channels y) in *. change (channel_at y c) with (chan m c) in *.
  wp_step. apply wp_ilock; [done|]. wp_step. apply wp_get_channel; [done|]. rewrite Hm. cbn [negb Z.eqb].
  wp_step. eapply wp_mono; [apply send_loop; [done|unfold IPC_MESSAGE_MAX; lia|done|done]|]. intros [] s (m1 & -> & Hch1 & Hoth1).
  wp_step. apply wp_upd_channel; [done|]. wp_step. apply wp_get_channel; [done|].
  rewrite chan_insert, decide_True by done. wp_step. apply wp_itasks.
  assert (wq_rep (ytab y) (receivers (chan m c)) (W (Q_ipc c))) as Hr by (by apply chan_rep).
  rewrite Hch1. cbn [receivers setf].
  eapply wp_mono; [by apply (wq_dequeue_spec _ _ (W (Q_ipc c)))|].
  intros [r q] tab Hd.
  assert (r = head (W (Q_ipc c)) ∧ wq_rep tab q (tail (W (Q_ipc c))) ∧
          only_wait_next (W (Q_ipc c)) (ytab y) tab) as (-> & Hq & Hx).
  { destruct (W (Q_ipc c)) as [|t l]; [destruct Hd as [[= -> ->] ->]; split; [done|]; split; [done|apply owx_refl]|].
    cbn in Hd. destruct Hd as (-> & Hq & Hx & _). split; [done|]. split; [done|].
    intros j. destruct (Hx j) as (v & E & F). exists v. split; [done|]. intros Hj. apply F. set_solver. }
  wp_step. apply wp_upd_channel; [done|]. wp_step. apply wp_iunlock.
  match goal with |- wp _ _ (ist _ _ _ ?x) => set (m2 := x) end.
  assert (chan m2 c = (filled (chan m c) bytes len) <| receivers := q |>) as Hm2.
  { unfold m2. rewrite chan_insert, decide_True by done. rewrite chan_insert, decide_True by done. try rewrite Hch1. done. }
  assert (∀ c', c' ≠ c → chan m2 c' = chan m c') as Hm2'.
  { intros c' Hc'. unfold m2. rewrite !chan_insert, !decide_False by done. by apply Hoth1. }
  clearbody m2.
  assert (queues_ok (wupd W (Q_ipc c) (tail (W (Q_ipc c)))) (ist y (yheld y) tab m2)) as Hok2.
  { apply (queues_ok_ist W y _ _ _ (W (Q_ipc c))); [done|done|by rewrite Hm2|intros c' Hc'; by rewrite Hm2'|].
    intros q' t Hq' Ht. pose proof (in_queue_disjoint _ _ _ _ _ Hok Hq' Ht) as Hni. split; [done|].
    intros Hin. apply Hni. destruct (W (Q_ipc c)); [done|by right]. }
  apply (wake_head W len (Q_ipc c) y); try done.
  - unfold ist. by rewrite yst_held.
  - intros j. unfold ytask at 1, ist. rewrite yst_tab. by apply (owx_tview (W (Q_ipc c))).
  - intros y' Hok' Hv' Hh' _ _ (_ & _ & Hci). split; [done|]. split; [done|]. split; [done|].
    split; [rewrite Hh'; apply yst_held|]. unfold channel_at. rewrite Hci. cbn.
    change (default channel0 (m2 !! ?x)) with (chan m2 x). rewrite Hm2. split; [done|].
    intros c' Hc'. change (default channel0 (m2 !! ?x)) with (chan m2 x). by rewrite Hm2'.
Qed.

(** ** Receiving *)

Lemma receive_loop c n y h tab m : chan_ok c = true → 0 ≤ n ≤ Z.of_nat (length (buffer (chan m c))) →
  wp (foldM (upto 0 n) (λ out index, ch ← get_channel c; b ← read_byte (buffer ch) index; mret (out ++ [b])) [])
    (λ out s, out = take (Z.to_nat n) (buffer (chan m c)) ∧ s = ist y h tab m) (ist y h tab m).
Proof.
  intros Hc Hn.
  eapply wp_mono; [apply (wp_foldM _ _ _ (λ pre out s, out = take (length pre) (buffer (chan m c)) ∧ s = ist y h tab m))|].
  - done.
  - intros pre k post out s Heq [-> ->].
    assert (k = Z.of_nat (length pre) ∧ 0 ≤ k < n) as [Hk Hk2].
    { assert (upto 0 n !! length pre = Some k) as Hl by (rewrite Heq; by apply list_lookup_middle).
      rewrite upto_seqZ in Hl. apply lookup_seqZ in Hl. lia. }
    destruct (lookup_lt_is_Some_2 (buffer (chan m c)) (length pre)) as [b Hb]; [lia|].
    wp_step. apply wp_get_channel; [done|]. wp_step.
    eapply wp_read_byte; [replace (Z.to_nat k) with (length pre) by lia; exact Hb|]. wp_step. split; [|done].
    rewrite length_app, Nat.add_1_r. symmetry. by apply take_S_r.
  - intros out s [-> ->]. split; [|done]. rewrite upto_seqZ, length_seqZ. done.
Qed.

(** A message is copied out and the channel is empty again. *)
Lemma ipc_receive_spec W y c t cap :
  queues_ok W y → chan_ok c = true → can_lock (L_ipc c) (yheld y) = true →
  has_message (channel_at y c) ≠ 0 → 1 ≤ cap ≤ IPC_MESSAGE_MAX →
  0 ≤ message_length (channel_at y c) ≤ Z.of_nat (length (buffer (channel_at y c))) →
  wp (ipc_receive c (Some t) false cap) (λ r y',
    if cap <? message_length (channel_at y c) then r = (IPC_RESULT_ERROR, []) ∧ y' = y else
    r = (message_length (channel_at y c),
         take (Z.to_nat (message_length (channel_at y c))) (buffer (channel_at y c))) ∧
    queues_ok W y' ∧ yheld y' = yheld y ∧ has_message (channel_at y' c) = 0 ∧
    buffer (channel_at y' c) = buffer (channel_at y c) ∧
    ∀ c', c' ≠ c → channel_at y' c' = channel_at y c') y.
Proof.
  intros Hok Hc Hl Hm Hcap Hlen. unfold ipc_receive, IPC_MESSAGE_MAX in *.
  rewrite (chan_ok_valid c Hc), bool_decide_false by done. cbn [negb orb]. bfalse (cap =? 0). bfalse (64 <? cap). cbn [orb].
  apply wp_ist. set (m := ipc_channels y) in *. change (channel_at y c) with (chan m c) in *.
  wp_step. apply wp_ilock; [done|]. wp_step. apply wp_get_channel; [done|].
  rewrite (proj2 (Z.eqb_neq _ _) Hm). cbn [negb]. destruct (cap <? _).
  { wp_step. apply wp_iunlock. wp_step. split; [done|apply ist_id]. }
  wp_step. eapply wp_mono; [by apply receive_loop|]. intros out s [-> ->].
  do 2 (wp_step; apply wp_upd_channel; [done|]). wp_step. apply wp_iunlock. wp_step. split; [done|].
  match goal with |- queues_ok _ (ist _ _ _ ?x) ∧ _ => set (m2 := x) end.
  assert (chan m2 c = (chan m c) <| has_message := 0 |> <| message_length := 0 |>) as Hm2.
  { unfold m2. rewrite chan_insert, decide_True by done. rewrite chan_insert, decide_True by done. done. }
  assert (∀ c', c' ≠ c → chan m2 c' = chan m c') as Hm2'.
  { intros c' Hc'. unfold m2. by rewrite !chan_insert, !decide_False by done. }
  clearbody m2. split; [|split; [apply yst_held|]].
  - assert (queues_ok (wupd W (Q_ipc c) (W (Q_ipc c))) (ist y (yheld y) (ytab y) m2)) as [Hp Hr Hd].
    { apply (queues_ok_ist W y _ _ _ []); [done|apply owx_refl|by apply chan_rep; [|rewrite Hm2]|intros c' Hc'; by rewrite Hm2'|].
      intros q t' Hq Ht'. split; [apply not_elem_of_nil|by eapply in_queue_disjoint]. }
    assert (∀ q, wupd W (Q_ipc c) (W (Q_ipc c)) q = W q) as Hw by (intros q; unfold wupd; by case_decide; subst).
    split; [done|intros q; rewrite <- Hw; apply Hr|intros q q' t'; rewrite <- (Hw q), <- (Hw q'); apply Hd].
  - change (channel_at (ist y (yheld y) (ytab y) m2) ?x) with (chan m2 x). rewrite Hm2. split; [done|]. split; [done|].
    intros c' Hc'. change (channel_at (ist y (yheld y) (ytab y) m2) ?x) with (chan m2 x). by rewrite Hm2'.
Qed.

(** The calls that fail leave the state as it is. *)
Lemma ipc_send_full y cpu c bytes len :
  chan_ok c = true → can_lock (L_ipc c) (yheld y) = true → has_message (channel_at y c) ≠ 0 →
  wp (ipc_send cpu c (Some bytes) len) (λ r y', r = IPC_RESULT_ERROR ∧ y' = y) y.
Proof.
  intros Hc Hl Hm. unfold ipc_send. destruct (_ || _); [by wp_step|].
  apply wp_ist. change (channel_at y c) with (chan (ipc_channels y) c) in *.
  wp_step. apply wp_ilock; [done|]. wp_step. apply wp_get_channel; [done|].
  rewrite (proj2 (Z.eqb_neq _ _) Hm). cbn [negb]. wp_step. apply wp_iunlock. wp_step. split; [done|apply ist_id].
Qed.

Lemma ipc_send_bad y cpu c data len :
  data = None ∨ IPC_CHANNEL_MAX ≤ c ∨ len = 0 ∨ IPC_MESSAGE_MAX < len →
  wp (ipc_send cpu c data len) (λ r y', r = IPC_RESULT_ERROR ∧ y' = y) y.
Proof.
  intros Hb. unfold ipc_send. destruct data as [bytes|]; [|by wp_step].
  replace (negb (ipc_valid_channel c) || (len =? 0) || (IPC_MESSAGE_MAX <? len)) with true; [by wp_step|].
  symmetry. unfold ipc_valid_channel. rewrite !orb_true_iff, negb_true_iff, Z.ltb_ge, Z.eqb_eq, Z.ltb_lt.
  destruct Hb as [?|Hb]; [done|tauto].
Qed.

End spec.

Section park.
Context {S : Type} `{ParkingLaws S}.
Implicit Types y : ystate S.
Implicit Types W : qid → list Z.

(** An empty channel queues the receiver, once, and parks it. *)
Lemma ipc_receive_empty_spec W y c t cap :
  queues_ok W y → chan_ok c = true → can_lock (L_ipc c) (yheld y) = true → can_lock L_sched (yheld y) = true →
  has_message (channel_at y c) = 0 → 1 ≤ cap ≤ IPC_MESSAGE_MAX → slot_ok t = true → (∀ q, t ∉ W q) →
  wp (ipc_receive c (Some t) false cap) (λ r y', r = (IPC_RESULT_BLOCKED, []) ∧
    queues_ok (wupd W (Q_ipc c) (W (Q_ipc c) ++ [t])) y' ∧ yheld y' = yheld y ∧
    same_message (channel_at y c) (channel_at y' c) ∧
    tview (ytask y' t) = tview (parked (ytask y t))) y.
Proof.
  intros Hok Hc Hl Hls Hm Hcap Ht Hn. unfold ipc_receive, IPC_MESSAGE_MAX in *.
  rewrite (chan_ok_valid c Hc), bool_decide_false by done. cbn [negb orb]. bfalse (cap =? 0). bfalse (64 <? cap). cbn [orb].
  apply wp_ist. set (m := ipc_channels y) in *. change (channel_at y c) with (chan m c) in *.
  wp_step. apply wp_ilock; [done|]. wp_step. apply wp_get_channel; [done|]. rewrite Hm. cbn [negb Z.eqb].
  wp_step. apply wp_itasks.
  assert (wq_rep (ytab y) (receivers (chan m c)) (W (Q_ipc c))) as Hr by (by apply chan_rep).
  eapply wp_mono; [by apply (wq_enqueue_spec _ _ (W (Q_ipc c)) t)|].
  intros [b q] tab. rewrite decide_False by apply Hn. cbn. intros (-> & Hq & Hx).
  wp_step. apply wp_upd_channel; [done|]. do 2 wp_step. cbn [negb]. wp_step. apply wp_iunlock.
  match goal with |- wp _ _ (ist _ _ _ ?x) => set (m2 := x) end.
  assert (chan m2 c = (chan m c) <| receivers := q |>) as Hm2 by (unfold m2; by rewrite chan_insert, decide_True).
  assert (∀ c', c' ≠ c → chan m2 c' = chan m c') as Hm2'.
  { intros c' Hc'. unfold m2. by rewrite chan_insert, decide_False by done. }
  clearbody m2.
  assert (queues_ok (wupd W (Q_ipc c) (W (Q_ipc c) ++ [t])) (ist y (yheld y) tab m2)) as Hok2.
  { apply (queues_ok_ist W y _ _ _ (t :: match last (W (Q_ipc c)) with Some z => [z] | None => [] end));
      [done|done|by rewrite Hm2|intros c' Hc'; by rewrite Hm2'|].
    intros q' t' Hq' Ht'. pose proof (in_queue_disjoint _ _ _ _ _ Hok Hq' Ht') as Hni.
    assert (t' ≠ t) by (intros ->; by apply (Hn q')). split; [|set_solver].
    intros [->|Hin]%elem_of_cons; [done|]. destruct (last (W (Q_ipc c))) as [z|] eqn:Hz; [|by apply not_elem_of_nil in Hin].
    apply list_elem_of_singleton in Hin as ->. by apply Hni, last_Some_elem_of. }
  wp_step. eapply wp_mono; [apply (wp_sched_park _ _ t Hok2); [unfold ist; by rewrite yst_held|done]|].
  intros b y' [_ [Hok' Hv Hh _ _ _ _ Hci]]. wp_step. split; [done|]. split; [done|].
  split; [rewrite Hh; apply yst_held|]. split.
  - unfold channel_at. rewrite Hci. cbn. change (default channel0 (m2 !! c)) with (chan m2 c). by rewrite Hm2.
  - rewrite Hv, decide_True by done. assert (tview (ytask (ist y (yheld y) tab m2) t) = tview (ytask y t)) as E.
    { unfold ytask at 1, ist. rewrite yst_tab. by eapply owx_tview. }
    by apply tview_parked.
Qed.

End park.
