(* ===== verification/SyncSched.v ===== *)
(** * The end of a task, and the scheduler under the synchronisation objects

    When a task has exited, [sched_reap_dead] (src/src/kernel/sched.c) makes the
    IPC channels and the pools forget it, gives back its stack and its process,
    and clears its slot.  The scheduler implements the interface of the
    synchronisation objects, with any part of its invariant that waking keeps. *)

From S2P Require Import Prelude Machine PageAllocSpec Task WaitQueue Heap HeapSpec Sched SchedQueue SchedInv SchedOps SchedReap Sync SyncSpec PoolSpec Mutex MutexSys Semaphore Condvar CondvarSpec Ipc IpcSpec.

Open Scope kernel_scope.

(** ** What the detach functions do

    [q_used y q]: the object of the queue [q] is in use. *)

Definition q_used {S} (y : ystate S) (q : qid) : bool :=
  match q with
  | Q_mutex i => index_ok i && negb (p_used (mutex_pool y) i =? 0)
  | Q_sem i => index_ok i && negb (p_used (semaphore_pool y) i =? 0)
  | Q_cond i => index_ok i && negb (p_used (condvar_pool y) i =? 0)
  | Q_ipc c => chan_ok c
  end.

Class PoolUsed (S A : Type) `{PoolLaws S A} := {
  pu_qid : ∀ (y : ystate S) i, q_used y (pool_qid i) = index_ok i && negb (p_used (sub_get y : pool A) i =? 0);
  pu_same : ∀ (p : pool A) (y : ystate S) q, (∀ j, p_used p j = p_used (sub_get y : pool A) j) →
    q_used (sub_set p y) q = q_used y q;
}.

#[export, refine] Instance mutex_pool_used S : PoolUsed S mutex_body := {}.
Proof. all: first [done | by intros p y [] Hs; cbn; try rewrite Hs]. Defined.
#[export, refine] Instance semaphore_pool_used S : PoolUsed S semaphore_body := {}.
Proof. all: first [done | by intros p y [] Hs; cbn; try rewrite Hs]. Defined.
#[export, refine] Instance condvar_pool_used S : PoolUsed S condvar_body := {}.
Proof. all: first [done | by intros p y [] Hs; cbn; try rewrite Hs]. Defined.

(** What the detach functions leave of every task. *)
Definition dview (t : task) : option string * Z * Z * bool * bool :=
  (name t, stack_base t, process t, reapable t, state t =? TASK_STATE_REAPING).

Lemma core_dview t t' : core t = core t' → dview t = dview t'.
Proof. destruct t, t'. unfold core, dview, reapable. cbn. intros [=]. by subst. Qed.

Lemma unparked_dview t : dview (unparked t) = dview t.
Proof.
  unfold unparked, wakeable, readied, dview, reapable.
  destruct (state t =? TASK_STATE_BLOCKED) eqn:E; bool_to_prop; cbn [andb]; repeat case_match; cbn; rewrite ?E; done.
Qed.

Lemma owx_dview X tab tab' j : only_wait_next X tab tab' → dview (task_at tab' j) = dview (task_at tab j).
Proof. intros Hx. by destruct (Hx j) as (v & -> & _). Qed.

Lemma in_range i n : 0 ≤ i < n ↔ (0 <=? i) && (i <? n) = true.
Proof. rewrite andb_true_iff, Z.leb_le, Z.ltb_lt. done. Qed.

Section detach.
Context {S : Type} `{WakeLaws S}.
Implicit Types y : ystate S.
Implicit Types W : qid → list Z.

(** Tasks only leave queues. *)
Record dropped W y W' y' : Prop := {
  dr_ok : queues_ok W' y';
  dr_sub : ∀ q t, t ∈ W' q → t ∈ W q;
  dr_used : ∀ q, q_used y' q = q_used y q;
  dr_task : ∀ j, dview (ytask y' j) = dview (ytask y j);
  dr_held : yheld y' = yheld y;
}.

Lemma dropped_refl W y : queues_ok W y → dropped W y W y.
Proof. by split. Qed.

Lemma dropped_trans W1 y1 W2 y2 W3 y3 : dropped W1 y1 W2 y2 → dropped W2 y2 W3 y3 → dropped W1 y1 W3 y3.
Proof. intros [] []. split; [done|by auto|intros q; by rewrite dr_used1|intros j; by rewrite dr_task1|congruence]. Qed.

Lemma used_yst y h tab q : q_used (yst y h tab) q = q_used y q.
Proof. by destruct q. Qed.

Lemma wp_unpark_dropped W y cpu t :
  queues_ok W y → yheld y = [] → slot_ok t = true →
  wp (y_unpark cpu (Some t)) (λ _ y', dropped W y W y') y.
Proof.
  intros Hok Hh Ht. unfold y_unpark. rewrite wp_up. change (sub_get y) with (y_sched y).
  eapply wp_mono; [apply (pk_unpark_spec _ cpu t); [apply Hok|by unfold yheld in Hh; rewrite Hh|done]|].
  intros [] s (Hs & He & Hc).
  pose proof (sched_eff_intro W y s t unparked Hok Hs He Hc unparked_wait_next) as [Hok' _ Hh' _ _ _ _ _].
  split; [done|done|by intros []| |done].
  intros j. destruct He as [_ He]. specialize (He j). unfold ytask, ytab. cbn.
  destruct (decide (j = t)) as [->|]; apply core_dview in He; unfold pk_task in He; rewrite He; [apply unparked_dview|done].
Qed.

(** ** Pools *)

Section pools.
Context {A : Type} `{PoolUsed S A}.
Implicit Types p : pool A.

Lemma used_pst y h tab p q : (∀ j, p_used p j = p_used (the_pool y) j) → q_used (pst y h tab p) q = q_used y q.
Proof. intros Hs. rewrite pst_alt, used_yst. by apply pu_same. Qed.

Lemma dropped_pst W y W' tab p : queues_ok W' (pst y (yheld y) tab p) → (∀ q t, t ∈ W' q → t ∈ W q) →
  (∀ j, p_used p j = p_used (the_pool y) j) → (∀ j, dview (task_at tab j) = dview (ytask y j)) →
  dropped W y W' (pst y (yheld y) tab p).
Proof.
  intros Hok Hsub Hu Hx. split; [done|done|intros q; by apply used_pst| |apply pst_held].
  intros j. unfold ytask. by rewrite pst_tab.
Qed.

(** [obj_remove] after the object's operation count changed. *)
Lemma remove_after W y i f v h :
  queues_ok W y → index_ok i = true → (∀ o : pooled A, waiters (f o) = waiters o) →
  wp (obj_remove (A := A) i (Some v)) (λ _ y', ∃ tab q,
    y' = pst y h tab (p_upd_obj i (set_waiters q) (p_upd_obj i f (the_pool y))) ∧
    queues_ok (wupd W (pool_qid i) (without v (W (pool_qid i)))) y' ∧
    only_wait_next (W (pool_qid i)) (ytab y) tab) (pst y h (ytab y) (p_upd_obj i f (the_pool y))).
Proof.
  intros Hok Hi Hf. set (p := p_upd_obj i f (the_pool y)).
  assert (queues_ok W (pst y h (ytab y) p)) as Hok1.
  { apply queues_ok_pool; [done|]. intros j. unfold p. rewrite p_obj_upd. by case_decide; subst. }
  set (y1 := pst y h (ytab y) p) in *.
  assert (pst y1 h (ytab y1) p = y1) as E by (unfold y1; by rewrite pst_tab, pst_pst).
  rewrite <- E at 1. eapply wp_mono; [apply (obj_remove_spec W y1 h p i v Hok1); [apply pst_pool|done]|].
  intros b y' (_ & tab & q & -> & Hok' & Hx). exists tab, q. unfold y1 in *. rewrite pst_pst in *. rewrite pst_tab in Hx.
  done.
Qed.

Lemma without_sub v l t : t ∈ without v l → t ∈ l ∧ t ≠ v.
Proof. unfold without. rewrite list_elem_of_filter. tauto. Qed.

Lemma wupd_sub W q l : (∀ t, t ∈ l → t ∈ W q) → ∀ q' t, t ∈ wupd W q l q' → t ∈ W q'.
Proof. intros Hl q' t. unfold wupd. destruct (decide (q' = q)) as [->|]; auto. Qed.

Lemma drop_op_waiters (o : pooled A) : waiters (drop_op o) = waiters o.
Proof. unfold drop_op. by case_match. Qed.

Lemma queues_ok_when W y h tab p i f (b : bool) (Q : unit → ystate S → Prop) :
  index_ok i = true → (∀ m : pooled A, waiters (f m) = waiters m) → queues_ok W (pst y h tab p) →
  (∀ p', queues_ok W (pst y h tab p') → (∀ j, p_used p' j = p_used p j) → Q () (pst y h tab p')) →
  wp (whenM b (upd_obj (A := A) i f)) Q (pst y h tab p).
Proof.
  intros Hi Hf Hok HQ. destruct b; cbn [whenM].
  - apply wp_set_pool; [done|]. apply HQ; [by apply queues_ok_upd|done].
  - apply wp_ret. by apply HQ.
Qed.

(** One round of the loop of [pool_detach]. *)
Lemma pool_detach_round W y i v :
  queues_ok W y → yheld y = [] → index_ok i = true →
  wp (ylock pool_lock ;;
      u ← get_used i;
      if u =? 0 then yunlock pool_lock else
      upd_obj i (λ o, set_ops (u32 (active_ops o + 1)) o) ;;
      yunlock pool_lock ;;
      ylock (object_lock i) ;;
      detached ← obj_remove i (Some v);
      yunlock (object_lock i) ;;
      ylock pool_lock ;;
      upd_obj i drop_op ;;
      whenM detached (upd_obj i drop_op) ;;
      yunlock pool_lock)
    (λ _ y', ∃ W', dropped W y W' y' ∧ (q_used y (pool_qid i) = true → v ∉ W' (pool_qid i))) y.
Proof.
  intros Hok Hh Hi. apply wp_pst. unfold get_used. wp_step. apply wp_plock; [by rewrite Hh|].
  wp_step. apply wp_get_pool; [done|]. destruct (p_used _ i =? 0) eqn:Hu.
  - apply wp_punlock. exists W. rewrite pst_id. split; [by apply dropped_refl|].
    rewrite pu_qid. fold (the_pool (A := A) y). by rewrite Hu, andb_false_r.
  - wp_step. unfold upd_obj at 1. apply wp_set_pool; [done|]. wp_step. apply wp_punlock. wp_step.
    apply wp_plock; [by rewrite Hh|]. wp_step. eapply wp_mono; [by apply (remove_after W)|].
    intros b y' (tab & q & -> & Hok' & Hx). wp_step. apply wp_punlock. wp_step. apply wp_plock; [by rewrite Hh|].
    wp_step. unfold upd_obj at 1. apply wp_set_pool; [done|]. wp_step.
    apply (queues_ok_when (wupd W (pool_qid i) (without v (W (pool_qid i))))); [done|apply drop_op_waiters| |].
    { apply queues_ok_upd; [by eapply queues_ok_relock|apply drop_op_waiters]. }
    intros p' Hok2 Hup. apply wp_punlock. exists (wupd W (pool_qid i) (without v (W (pool_qid i)))). split.
    + apply dropped_pst; [by eapply queues_ok_relock| | |intros j; by eapply owx_dview].
      * apply wupd_sub. intros t Ht. by apply without_sub in Ht as [? _].
      * intros j. by rewrite Hup.
    + intros _. rewrite wupd_eq. intros Hin. by apply without_sub in Hin as [_ ?].
Qed.

End pools.

(** The rest of the critical section of [mutex_detach_task]: a mutex that the
    task owned goes to the next waiter, who is to be woken. *)
Lemma detach_handoff W y i v h tab (p : pool mutex_body) :
  queues_ok W (pst y h tab p) → index_ok i = true →
  wp (m ← get_obj (A := mutex_body) i;
      if bool_decide (owner (body m) = Some v) then
        if wait_queue_empty (waiters m) then set_mutex i 0 None ;; mret None
        else
          w ← obj_dequeue (A := mutex_body) i;
          upd_obj (A := mutex_body) i (λ m, set_body (MutexBody (locked (body m)) w) m) ;;
          mret w
      else mret None)
    (λ r y', ∃ W' tab' (p' : pool mutex_body), y' = pst y h tab' p' ∧ queues_ok W' y' ∧ (∀ q t, t ∈ W' q → t ∈ W q) ∧
      (∀ j, p_used p' j = p_used p j) ∧ (∀ j, dview (task_at tab' j) = dview (task_at tab j)) ∧
      (∀ t, r = Some t → slot_ok t = true)) (pst y h tab p).
Proof.
  intros Hok Hi. unfold get_obj, set_mutex, upd_obj. wp_step. apply wp_get_pool; [done|].
  destruct (bool_decide _); [|wp_step; by exists W, tab, p].
  destruct (wait_queue_empty _).
  - wp_step. apply wp_set_pool; [done|]. wp_step. eexists W, tab, _. split; [done|]. split; [by apply queues_ok_upd|done].
  - wp_step. set (y1 := pst y h tab p) in *.
    assert (pst y1 h (ytab y1) p = y1) as E by (unfold y1; by rewrite pst_tab, pst_pst).
    rewrite <- E at 1.
    eapply wp_mono; [apply (obj_dequeue_spec (A := mutex_body) W y1 h p i Hok); [apply pst_pool|done]|].
    intros r y' (-> & tab' & q & -> & Hok' & Hx). unfold y1 in *. rewrite pst_pst, ?pst_tab in *.
    wp_step. apply wp_set_pool; [done|]. wp_step. eexists _, tab', _. split; [done|].
    split; [by apply queues_ok_upd|]. split; [|split; [done|split; [intros j; by eapply owx_dview|]]].
    + apply wupd_sub. intros t Ht. by destruct (W (pool_qid i)); [|right].
    + intros t Ht. apply head_in in Ht. eapply queue_slot; [exact Hok|exact Ht].
Qed.

(** One round of the loop of [mutex_detach_task]. *)
Lemma mutex_detach_round W y cpu i v :
  queues_ok W y → yheld y = [] → index_ok i = true →
  wp (ylock L_mutex_pool ;;
      u ← get_used (A := mutex_body) i;
      if u =? 0 then yunlock L_mutex_pool else
      upd_obj (A := mutex_body) i (λ m, set_ops (u32 (active_ops m + 1)) m) ;;
      yunlock L_mutex_pool ;;
      ylock (L_mutex i) ;;
      detached_waiter ← obj_remove (A := mutex_body) i (Some v);
      m ← get_obj (A := mutex_body) i;
      wake_task ← (if bool_decide (owner (body m) = Some v) then
                     if wait_queue_empty (waiters m) then
                       set_mutex i 0 None ;; mret None
                     else
                       w ← obj_dequeue (A := mutex_body) i;
                       upd_obj (A := mutex_body) i (λ m, set_body (MutexBody (locked (body m)) w) m) ;;
                       mret w
                   else mret None);
      yunlock (L_mutex i) ;;
      ylock L_mutex_pool ;;
      upd_obj (A := mutex_body) i (λ m, set_ops (u32 (active_ops m - 1)) m) ;;
      whenM detached_waiter (upd_obj (A := mutex_body) i drop_op) ;;
      yunlock L_mutex_pool ;;
      if bool_decide (wake_task = None) then mret () else y_unpark cpu wake_task)
    (λ _ y', ∃ W', dropped W y W' y' ∧ (q_used y (Q_mutex i) = true → v ∉ W' (Q_mutex i))) y.
Proof.
  intros Hok Hh Hi. apply (wp_pst (A := mutex_body)). unfold get_used. wp_step. apply wp_plock; [by rewrite Hh|].
  wp_step. apply wp_get_pool; [done|]. destruct (p_used _ i =? 0) eqn:Hu.
  - apply wp_punlock. exists W. rewrite pst_id. split; [by apply dropped_refl|].
    cbn. change (mutex_pool y) with (the_pool (A := mutex_body) y). by rewrite Hu, andb_false_r.
  - wp_step. unfold upd_obj at 1. apply wp_set_pool; [done|]. wp_step. apply wp_punlock. wp_step.
    apply wp_plock; [by rewrite Hh|]. wp_step. eapply wp_mono; [by apply (remove_after (A := mutex_body) W)|].
    intros b y' (tab & q & -> & Hok' & Hx). cbn [pool_qid mutex_laws] in *.
    set (W1 := wupd W (Q_mutex i) (without v (W (Q_mutex i)))) in *.
    pose proof (detach_handoff W1 y i v _ _ _ Hok' Hi) as Hb. rewrite wp_bind in Hb.
    wp_step. eapply wp_mono; [exact Hb|]. cbn beta. clear Hb. intros m s Hm. wp_step.
    eapply wp_mono; [exact Hm|]. clear Hm s.
    intros r y' (W2 & tab' & p' & -> & Hok2 & Hsub & Hup & Hd & Hr). wp_step. apply wp_punlock. wp_step.
    apply wp_plock; [by rewrite Hh|]. wp_step. unfold upd_obj at 1. apply wp_set_pool; [done|]. wp_step.
    apply (queues_ok_when W2); [done|apply drop_op_waiters|apply queues_ok_upd; [by eapply queues_ok_relock|done]|].
    intros p2 Hok3 Hup2. wp_step. apply wp_punlock.
    assert (dropped W y W2 (pst y (yheld y) tab' p2)) as Hdr.
    { apply dropped_pst; [by eapply queues_ok_relock| | |].
      - intros q' t Ht. apply Hsub in Ht. revert Ht. apply wupd_sub. intros t' Ht. by apply without_sub in Ht as [? _].
      - intros j. rewrite Hup2. exact (Hup j).
      - intros j. rewrite Hd. by eapply owx_dview. }
    assert (v ∉ W2 (Q_mutex i)) as Hv.
    { intros Hin%Hsub. unfold W1 in Hin. rewrite wupd_eq in Hin. by apply without_sub in Hin as [_ ?]. }
    destruct r as [t|]; [rewrite bool_decide_false by done|rewrite bool_decide_true by done].
    + eapply wp_mono; [apply (wp_unpark_dropped W2); [apply Hdr|by rewrite (dr_held _ _ _ _ Hdr)|by apply Hr]|].
      intros [] y' Hdr'. exists W2. split; [by eapply dropped_trans|by intros _].
    + apply wp_ret. exists W2. split; [exact Hdr|by intros _].
Qed.

(** One round of the loop of [ipc_detach_task]. *)
Lemma ipc_detach_round W y c v :
  queues_ok W y → yheld y = [] → chan_ok c = true →
  wp (ylock (L_ipc c) ;;
      ch ← get_channel c;
      '(_, q) ← on_tasks (wait_queue_remove (receivers ch) (Some v));
      upd_channel c (λ ch, ch <| receivers := q |>) ;;
      yunlock (L_ipc c))
    (λ _ y', ∃ W', dropped W y W' y' ∧ (q_used y (Q_ipc c) = true → v ∉ W' (Q_ipc c))) y.
Proof.
  intros Hok Hh Hc. apply wp_ist. wp_step. apply wp_ilock; [by rewrite Hh|]. wp_step. apply wp_get_channel; [done|].
  wp_step. apply wp_itasks. set (m := ipc_channels y).
  pose proof (chan_rep W y c m Hok eq_refl) as Hr.
  eapply wp_mono; [by apply (wq_remove_spec _ _ (W (Q_ipc c)))|]. intros [b q] tab Hd.
  assert (wq_rep tab q (without v (W (Q_ipc c))) ∧ only_wait_next (W (Q_ipc c)) (ytab y) tab) as [Hq Hx].
  { destruct (decide (v ∈ W (Q_ipc c))) as [Hin|Hin]; [by destruct Hd as (_ & ? & ?)|].
    destruct Hd as [[= _ ->] ->]. rewrite without_id by done. split; [done|apply owx_refl]. }
  wp_step. apply wp_upd_channel; [done|]. apply wp_iunlock.
  exists (wupd W (Q_ipc c) (without v (W (Q_ipc c)))). split.
  - split.
    + apply (queues_ok_ist _ _ _ _ _ (W (Q_ipc c))); [done|done|by rewrite chan_insert, decide_True| |].
      * intros c' Hc'. by rewrite chan_insert, decide_False by congruence.
      * intros q' t' Hq' Ht'. assert (t' ∉ W (Q_ipc c)) by (by apply (in_queue_disjoint W y q')).
        split; [done|]. intros Hin. by apply without_sub in Hin as [? _].
    + apply wupd_sub. intros t Ht. by apply without_sub in Ht as [? _].
    + by intros [].
    + intros j. unfold ytask at 1, ist. rewrite yst_tab. by eapply owx_dview.
    + apply yst_held.
  - intros _. rewrite wupd_eq. intros Hin. by apply without_sub in Hin as [_ ?].
Qed.

(** A loop of such rounds over the queues [qf]. *)
Lemma detach_loop W y (n : Z) (qf : Z → qid) v (f : Z → M (ystate S) unit) :
  queues_ok W y → yheld y = [] → 0 ≤ n →
  (∀ W y i, queues_ok W y → yheld y = [] → 0 ≤ i < n →
     wp (f i) (λ _ y', ∃ W', dropped W y W' y' ∧ (q_used y (qf i) = true → v ∉ W' (qf i))) y) →
  wp (forM_ (upto 0 n) f) (λ _ y', ∃ W', dropped W y W' y' ∧
    ∀ i, 0 ≤ i < n → q_used y (qf i) = true → v ∉ W' (qf i)) y.
Proof.
  intros Hok Hh Hn Hf. eapply wp_mono; [apply (wp_forM _ _ (λ pre y', ∃ W', dropped W y W' y' ∧
    ∀ i, i ∈ pre → q_used y (qf i) = true → v ∉ W' (qf i)))|].
  - exists W. split; [by apply dropped_refl|]. by intros i ?%not_elem_of_nil.
  - intros pre i post y1 Heq (W1 & Hd1 & Hno).
    assert (0 ≤ i < n) as Hi.
    { assert (i ∈ upto 0 n) as Hin by (rewrite Heq; set_solver). rewrite upto_seqZ in Hin. apply elem_of_seqZ in Hin. lia. }
    eapply wp_mono; [apply (Hf W1 y1 i); [apply Hd1|by rewrite (dr_held _ _ _ _ Hd1)|done]|].
    intros [] y2 (W2 & Hd2 & Hv). exists W2. split; [exact (dropped_trans _ _ _ _ _ _ Hd1 Hd2)|].
    intros j. rewrite elem_of_app, list_elem_of_singleton. intros [Hj| ->] Hu.
    + intros Hin. apply (Hno j Hj Hu). exact (dr_sub _ _ _ _ Hd2 _ _ Hin).
    + apply Hv. by rewrite (dr_used _ _ _ _ Hd1).
  - intros [] y' (W' & Hd & Hno). exists W'. split; [done|]. intros i Hi. apply Hno.
    rewrite upto_seqZ. apply elem_of_seqZ. lia.
Qed.

Definition detach_task (cpu v : Z) : M (ystate S) unit :=
  ipc_detach_task (Some v) ;;
  mutex_detach_task cpu (Some v) ;;
  semaphore_detach_task (Some v) ;;
  condvar_detach_task (Some v).

(** A detached task waits on nothing in use. *)
Lemma detach_task_spec W y cpu v :
  queues_ok W y → yheld y = [] →
  wp (detach_task cpu v) (λ _ y', ∃ W', dropped W y W' y' ∧ ∀ q, q_used y q = true → v ∉ W' q) y.
Proof.
  intros Hok Hh. unfold detach_task. assert (∀ i, 0 ≤ i < POOL_MAX → index_ok i = true) as Hix.
  { intros i. apply in_range. }
  wp_step. unfold ipc_detach_task. rewrite bool_decide_false by done.
  eapply wp_mono; [apply (detach_loop W y IPC_CHANNEL_MAX Q_ipc v); [done|done|done|]|].
  { intros W0 y0 c Hok0 Hh0 Hc. apply ipc_detach_round; [done|done|]. by apply in_range. }
  intros [] y1 (W1 & Hd1 & Hv1). wp_step. unfold mutex_detach_task. rewrite bool_decide_false by done.
  eapply wp_mono; [apply (detach_loop W1 y1 POOL_MAX Q_mutex v); [apply Hd1|by rewrite (dr_held _ _ _ _ Hd1)|done|]|].
  { intros W0 y0 i Hok0 Hh0 Hi. by apply mutex_detach_round; [..|apply Hix]. }
  intros [] y2 (W2 & Hd2 & Hv2). pose proof (dropped_trans _ _ _ _ _ _ Hd1 Hd2) as Hd12.
  wp_step. unfold semaphore_detach_task, pool_detach. rewrite bool_decide_false by done.
  eapply wp_mono; [apply (detach_loop W2 y2 POOL_MAX Q_sem v); [apply Hd2|by rewrite (dr_held _ _ _ _ Hd12)|done|]|].
  { intros W0 y0 i Hok0 Hh0 Hi. eapply wp_mono; [apply (pool_detach_round (A := semaphore_body) W0 y0 i v); [done|done|by apply Hix]|done]. }
  intros [] y3 (W3 & Hd3 & Hv3). pose proof (dropped_trans _ _ _ _ _ _ Hd12 Hd3) as Hd13.
  unfold condvar_detach_task, pool_detach. rewrite bool_decide_false by done.
  eapply wp_mono; [apply (detach_loop W3 y3 POOL_MAX Q_cond v); [apply Hd3|by rewrite (dr_held _ _ _ _ Hd13)|done|]|].
  { intros W0 y0 i Hok0 Hh0 Hi. eapply wp_mono; [apply (pool_detach_round (A := condvar_body) W0 y0 i v); [done|done|by apply Hix]|done]. }
  intros [] y4 (W4 & Hd4 & Hv4). exists W4. split; [by eapply dropped_trans|]. intros q Hu.
  assert (∀ i, index_ok i = true → 0 ≤ i < POOL_MAX) as Hix'.
  { intros i. apply in_range. }
  destruct q as [i|i|i|c]; pose proof Hu as Hu'; cbn in Hu'; try apply andb_true_iff in Hu' as [Hi%Hix' _].
  - intros Hin%(dr_sub _ _ _ _ Hd4)%(dr_sub _ _ _ _ Hd3). revert Hin. apply Hv2; [done|]. by rewrite (dr_used _ _ _ _ Hd1).
  - intros Hin%(dr_sub _ _ _ _ Hd4). revert Hin. apply Hv3; [done|]. by rewrite (dr_used _ _ _ _ Hd12).
  - apply Hv4; [done|]. by rewrite (dr_used _ _ _ _ Hd13).
  - intros Hin%(dr_sub _ _ _ _ Hd4)%(dr_sub _ _ _ _ Hd3)%(dr_sub _ _ _ _ Hd2). revert Hin. apply Hv1; [|done].
    by apply in_range.
Qed.

End detach.

(** ** The scheduler implements the interface *)

Section sched.
Context {P : Type} `{SchedEnvLaws P}.
Implicit Types s : sstate P.

#[export, refine] Instance sub_sched_machine : Sub machine (sstate P) := {
  sub_get := smachine;
  sub_set := λ m s, smach m s;
}.
Proof.
  - intros m s. unfold smachine, smach. cbn. apply sub_get_set.
  - intros s. unfold smachine, smach. rewrite sub_set_get. by destruct s.
  - intros m m' s. unfold smach. cbn. by rewrite sub_set_set.
Defined.

#[export] Instance sched_parking : Parking (sstate P) := {
  pk_current := Sched.sched_current;
  pk_park := Sched.sched_park_task;
  pk_unpark := Sched.sched_unpark_task;
}.

(** The invariant does not read the links of the wait queues. *)
Lemma inv_wait hole L Q s X tab : sched_inv hole L Q s → only_wait_next X (tasks s) tab →
  sched_inv hole L Q (s <| tasks := tab |>).
Proof.
  intros Hi Hx. set (s' := s <| tasks := tab |>).
  assert (∀ j, ∃ v, tk s' j = (tk s j) <| wait_next := v |>) as Htk.
  { intros j. destruct (Hx j) as (v & E & _). exists v. exact E. }
  assert (∀ j, rq_view (tk s' j) = rq_view (tk s j) ∧ sview (tk s' j) = sview (tk s j) ∧ st s' j = st s j ∧
            on_rq (tk s' j) = on_rq (tk s j)) as Hv.
  { intros j. unfold st. destruct (Htk j) as [v ->]. done. }
  apply (inv_transport hole hole L Q Q s s'); try done.
  - apply Hi.
  - apply (rq_rep_same s); [apply Hi|intros j; apply Hv|done].
  - apply Hi.
  - intros j. apply Hv.
  - intros j _ _. by destruct (Hv j) as (_ & _ & _ & ->).
  - intros j Hj. destruct (Hv j) as (_ & _ & -> & _). by apply (si_slots _ _ _ _ Hi).
  - intros j. by destruct (Hv j) as (_ & _ & -> & _).
  - intros c j c' Hc Hc' Hin. destruct (Hv j) as (_ & _ & -> & _). by apply (si_ready _ _ _ _ Hi c).
  - intros c j Hc Hcu Hj. destruct (Hv j) as (_ & _ & -> & _). by apply (si_blocked _ _ _ _ Hi).
Qed.

(** The invariant with windows and a task list that satisfy [R]. *)
Definition sched_ok (R : (Z → Prop) → list Z → Prop) s : Prop := ∃ hole L Q, R hole L ∧ sched_inv hole L Q s.

Lemma done_effect hole L s i f s' : done_with hole L s i f s' →
  (∃ Q, sched_inv hole L Q s') ∧ pk_effect s s' i f ∧ cur_task s' = cur_task s.
Proof. intros [(Hi & Hh & Hc) He]. split; [done|]. split; [|done]. split; [exact Hh|exact He]. Qed.

#[refine] Definition sched_wake (R : (Z → Prop) → list Z → Prop) : WakeLaws (sstate P) := {|
  pk_ok := sched_ok R;
  pk_cur := λ s cpu, default 0 (curr s cpu);
|}.
Proof.
  - intros s cpu (hole & L & Q & _ & Hi) Hc.
    destruct (inv_current _ _ _ _ _ Hi (proj2 (cpu_ok_spec cpu) Hc)) as (i & Hcu & Hs & _).
    unfold pk_current, sched_parking, Sched.sched_current, arch_get_current_task, gets. fold (curr s cpu). by rewrite Hcu.
  - intros s cpu i (hole & L & Q & HR & Hi) Hl Hs. eapply wp_mono; [by apply (sched_unpark_task_spec hole L Q s cpu i)|].
    intros [] s' ([Q' Ho] & He & Hc)%done_effect. split; [by exists hole, L, Q'|]. split; [done|]. unfold curr. by rewrite Hc.
  - intros s l (hole & L & Q & HR & Hi). exists hole, L, Q. split; [done|]. by apply inv_held.
  - done.
  - intros s X tab (hole & L & Q & HR & Hi) Hx. exists hole, L, Q. split; [done|]. by apply (inv_wait _ _ _ _ X).
  - done.
  - done.
  - done.
  - done.
Defined.

#[export, refine] Instance sched_parking_laws : ParkingLaws (sstate P) := {
  pk_wake := sched_wake (λ _ _, True);
}.
Proof.
  intros s i (hole & L & Q & _ & Hi) Hl Hs. eapply wp_mono; [by apply (sched_park_task_spec hole L Q s i)|].
  intros b s' [-> ([Q' Ho] & He & Hc)%done_effect].
  split; [eexists _, L, Q'; split; [done|exact Ho]|]. split; [done|]. split; [done|]. cbn. unfold curr. by rewrite Hc.
Defined.

End sched.

(** ** Reaping *)

Section reaper.
Context {P : Type} `{SchedEnv P}.
Implicit Types s : sstate P.
Implicit Types y : ystate (sstate P).
Implicit Types W : qid → list Z.

(** [sched_reap_dead]; [release] gives back the stack and the reference to the
    process of the detached task. *)
Definition sched_reap_dead (release : Z → Z → M P unit) (cpu : Z) : M (ystate (sstate P)) unit :=
  whileM (Z.to_nat (MAX_TASKS + 1)) (λ _ : unit,
    r ← up reap_detach;
    match r with
    | None => mret (inr ())
    | Some (v, stack, proc) =>
        detach_task cpu v ;;
        up (S := sstate P) (up (S := P) (release stack proc)) ;;
        up (reap_clear v) ;;
        mret (inl ())
    end) ().

(** What tasks hold of the state below the scheduler. *)
Definition dues s (L : list Z) : list (Z * Z) := (λ i, (stack_base (tk s i), process (tk s i))) <$> L.

(** The environment that still has the stacks and process references [l] to take
    back: [laws l] are the scheduler's laws for it. *)
Definition owing (laws : list (Z * Z) → SchedEnvLaws P) (l : list (Z * Z)) : P → Prop :=
  @ps_ok P _ (@se_pages_laws P _ (laws l)).

Record release_laws (release : Z → Z → M P unit) (laws : list (Z * Z) → SchedEnvLaws P) : Prop := {
  rl_perm : ∀ l l' p, l ≡ₚ l' → owing laws l p → owing laws l' p;
  rl_release : ∀ l stack proc p, owing laws ((stack, proc) :: l) p → m_held (sub_get p) = [] →
    wp (release stack proc) (λ _ p', owing laws l p' ∧ m_held (sub_get p') = []) p;
}.

(** The wait queues of the kernel's objects; an object that is not in use has
    no waiters. *)
Record waiting_ok W y : Prop := {
  wo_rep : ∀ q, wq_rep (tasks (y_sched y)) (queue_at y q) (W q);
  wo_disj : ∀ q q' t, t ∈ W q → t ∈ W q' → q = q';
  wo_idle : ∀ q, q_used y q = false → W q = [];
}.

(** The scheduler's invariant, with what its tasks hold still to be given back. *)
Definition owed_inv (laws : list (Z * Z) → SchedEnvLaws P) hole L Q s : Prop :=
  @sched_inv P _ (laws (dues s L)) hole L Q s.

Section round.
Context (release : Z → Z → M P unit) (laws : list (Z * Z) → SchedEnvLaws P) (Hlaws : release_laws release laws).

Lemma inv_relaw l hole L Q s p : @sched_inv P _ (laws l) hole L Q s → owing laws (dues s L) p →
  owed_inv laws hole L Q (s <| s_env := p |>).
Proof. intros [] Hp. split; first [exact Hp|assumption|by apply (rq_rep_same s)]. Qed.

Lemma inv_owed l hole L Q s : @sched_inv P _ (laws l) hole L Q s → owing laws (dues s L) (s_env s) →
  owed_inv laws hole L Q s.
Proof. intros Hi Ho. pose proof (inv_relaw l hole L Q s _ Hi Ho) as Hr. by destruct s. Qed.

Lemma dues_ext s s' L : (∀ i, i ∈ L → dview (tk s' i) = dview (tk s i)) → dues s' L = dues s L.
Proof.
  intros Hd. apply list_fmap_ext. intros k i Hk. apply list_elem_of_lookup_2 in Hk.
  specialize (Hd i Hk). unfold dview in Hd. congruence.
Qed.

(** The wait queues do not depend on the rest of the tasks. *)
Lemma waiting_sched W y s : waiting_ok W y → (∀ j q, j ∈ W q → wait_next (tk s j) = wait_next (tk (y_sched y) j)) →
  waiting_ok W (y <| y_sched := s |>).
Proof.
  intros [Hr Hd Hu] Hw. split; [|done|].
  - intros q. destruct (Hr q) as [Hq Hs]. split; [|done]. replace (queue_at (y <| y_sched := s |>) q) with (queue_at y q) by (by destruct q).
    apply (qrep_frame (wnext (tasks (y_sched y)))); [done|]. intros j Hj. by apply (Hw j q).
  - intros q Hq. apply Hu. by destruct q.
Qed.

Lemma waiting_queues l hole L Q W y : @sched_inv P _ (laws l) hole L Q (y_sched y) → waiting_ok W y →
  @queues_ok _ _ (@sched_wake P _ (laws l) (λ h L0, h = hole ∧ L0 = L)) W y.
Proof. intros Hi [Hr Hd Hu]. split; [by exists hole, L, Q|exact Hr|exact Hd]. Qed.

Lemma dropped_waiting l R W y W' y' :
  @dropped _ _ (@sched_wake P _ (laws l) R) W y W' y' → waiting_ok W y → waiting_ok W' y'.
Proof.
  intros [[_ Hr Hd] Hsub Hu _ _] [_ _ Hid]. split; [exact Hr|exact Hd|]. intros q Hq. rewrite Hu in Hq.
  specialize (Hid q Hq). destruct (W' q) as [|t T] eqn:E; [done|].
  assert (t ∈ W q) as Hin by (apply Hsub; rewrite E; by left). rewrite Hid in Hin. by apply not_elem_of_nil in Hin.
Qed.

(** One round: the first dead task off its CPU is gone, and its slot free. *)
Lemma reap_round cpu hole L Q W y (Post : unit + unit → ystate (sstate P) → Prop) :
  owed_inv laws hole L Q (y_sched y) → waiting_ok W y → sheld (y_sched y) = [] →
  (∀ y', waiting_ok W y' → sheld (y_sched y') = [] → (∃ Q', owed_inv laws hole L Q' (y_sched y')) → (∀ i, tk (y_sched y') i = tk (y_sched y) i) →
     (∀ i, i ∈ L → reapable (tk (y_sched y) i) = false) → Post (inr ()) y') →
  (∀ y' v L' Q' W', v ∈ L → reapable (tk (y_sched y) v) = true → (∀ i, i ∈ L' ↔ i ∈ L ∧ i ≠ v) →
     owed_inv laws hole L' Q' (y_sched y') → waiting_ok W' y' → sheld (y_sched y') = [] →
     (∀ q, v ∉ W' q) → (∀ q t, t ∈ W' q → t ∈ W q) → tk (y_sched y') v = task0 →
     (∀ i, i ≠ v → dview (tk (y_sched y') i) = dview (tk (y_sched y) i)) → Post (inl ()) y') →
  wp (r ← up reap_detach;
      match r with
      | None => mret (inr ())
      | Some (v, stack, proc) =>
          detach_task cpu v ;;
          up (S := sstate P) (up (S := P) (release stack proc)) ;;
          up (reap_clear v) ;;
          mret (inl ())
      end) Post y.
Proof.
  intros Hi Hw Hh Hend Hgo. set (s := y_sched y) in *. set (l := dues s L) in *. wp_step. rewrite wp_up. change (sub_get y) with s.
  eapply wp_mono; [by apply (@reap_detach_spec P _ (laws l) hole L Q s Hi); rewrite Hh|].
  intros [[[v stack] proc]|] s1.
  2: { intros (((Q' & Hi1) & Hh1 & _) & Ht & Hno). wp_step. assert (∀ i, tk s1 i = tk s i) as Htk by (intros i; by apply tk_tasks).
       apply Hend; [|cbn; congruence| |done|done].
       - apply waiting_sched; [done|]. intros j q _. by rewrite Htk.
       - exists Q'. unfold owed_inv. cbn. replace (dues s1 L) with l; [done|]. symmetry. apply dues_ext. intros i _. by rewrite Htk. }
  intros (Hvs & Hvin & Hre & -> & -> & Hst & (L2 & Q2 & HL2 & Hi1) & Hh1 & _ & Hwv & Hoth). rewrite Hh in Hh1.
  change (sub_set s1 y) with (y <| y_sched := s1 |>). set (y1 := y <| y_sched := s1 |>).
  assert (∀ j, wait_next (tk s1 j) = wait_next (tk s j)) as Hwn.
  { intros j. destruct (decide (j = v)) as [->|Hj]; [done|]. by injection (Hoth j Hj). }
  assert (waiting_ok W y1) as Hw1 by (by apply waiting_sched).
  assert (∀ j, j ≠ v → dview (tk s1 j) = dview (tk s j)) as Hd1.
  { intros j Hj. injection (Hoth j Hj). unfold dview, reapable. by intros _ -> -> -> -> -> _. }
  wp_step. eapply wp_mono; [apply (@detach_task_spec _ _ _ W y1 cpu v (waiting_queues l hole L2 Q2 W y1 Hi1 Hw1)); exact Hh1|].
  intros [] y2 (W2 & Hdr & Hout). pose proof (dropped_waiting _ _ _ _ _ _ Hdr Hw1) as Hw2.
  destruct Hdr as [[(hole' & L' & Q3 & [-> ->] & Hi2) _ _] Hsub Hused Hdt Hh2].
  set (s2 := y_sched y2) in *.
  assert (∀ q, v ∉ W2 q) as Hout'.
  { intros q. destruct (q_used y1 q) eqn:E; [by apply Hout|]. rewrite <- Hused in E. rewrite (wo_idle _ _ Hw2 q E).
    apply not_elem_of_nil. }
  (* release *)
  wp_step. rewrite !wp_up. change (sub_get (sub_get y2)) with (s_env s2).
  assert (L ≡ₚ v :: L2) as HLp.
  { pose proof (si_list _ _ _ _ Hi) as [[_ Hnd]%NoDup_cons _]. pose proof (si_list _ _ _ _ Hi1) as [[_ Hnd1]%NoDup_cons _].
    apply NoDup_Permutation; [done|apply NoDup_cons; split; [|done]; intros Hin; by apply HL2 in Hin as [_ ?]|].
    intros x. rewrite elem_of_cons, HL2. destruct (decide (x = v)) as [->|]; tauto. }
  assert (dues s2 L2 = dues s L2) as Hdues.
  { apply dues_ext. intros i Hin. apply HL2 in Hin as [_ Hiv]. rewrite <- (Hd1 i Hiv). apply Hdt. }
  eapply wp_mono; [apply (rl_release _ _ Hlaws (dues s L2)); [|etransitivity; [exact Hh2|exact Hh1]]|].
  { apply (rl_perm _ _ Hlaws l); [|apply Hi2]. unfold l, dues. by rewrite HLp. }
  intros [] p' [Howe Hhp]. rewrite <- Hdues in Howe. cbn beta.
  pose proof (inv_relaw l hole L2 Q3 s2 p' Hi2 Howe) as Hi3. set (s3 := s2 <| s_env := p' |>) in *.
  match goal with |- wp _ _ ?x => change x with (y2 <| y_sched := s3 |>) end. set (y3 := y2 <| y_sched := s3 |>).
  assert (sheld s3 = []) as Hh3 by (unfold sheld, smachine; exact Hhp).
  assert (waiting_ok W2 y3) as Hw3 by (by apply waiting_sched).
  assert (st s3 v = TASK_STATE_REAPING) as Hst3.
  { specialize (Hdt v). unfold dview in Hdt. injection Hdt as _ _ _ _ Hr.
    change (ytask y2 v) with (tk s2 v) in Hr. change (ytask y1 v) with (tk s1 v) in Hr.
    unfold st in Hst. rewrite Hst in Hr. by apply Z.eqb_eq in Hr. }
  wp_step. rewrite wp_up. change (sub_get y3) with s3.
  eapply wp_mono; [apply (@reap_clear_spec P _ (laws (dues s3 L2)) hole L2 Q3 s3 v Hi3); [by rewrite Hh3|done|done]|].
  intros [] s4 (((Q4 & Hi4) & Hh4 & _) & Hv4 & Hoth4). wp_step.
  assert (∀ j, j ≠ v → dview (tk s4 j) = dview (tk s j)) as Hd4.
  { intros j Hj. rewrite (Hoth4 j Hj), <- (Hd1 j Hj). exact (Hdt j). }
  apply (Hgo _ v L2 Q4 W2); try done.
  - unfold owed_inv. cbn. replace (dues s4 L2) with (dues s3 L2); [exact Hi4|].
    change (dues s3 L2) with (dues s2 L2). rewrite Hdues. symmetry. apply dues_ext.
    intros i Hin. apply HL2 in Hin as [_ Hiv]. by apply Hd4.
  - apply (waiting_sched W2 y3 s4 Hw3). intros j q Hj. rewrite Hoth4; [done|]. intros ->. by apply (Hout' q).
  - cbn. congruence.
Qed.

End round.

(** The loop. *)
Lemma sched_reap_dead_spec release laws cpu hole L Q W y :
  release_laws release laws → owed_inv laws hole L Q (y_sched y) → waiting_ok W y → sheld (y_sched y) = [] →
  wp (sched_reap_dead release cpu) (λ _ y', ∃ L' Q' W',
    owed_inv laws hole L' Q' (y_sched y') ∧ waiting_ok W' y' ∧ sheld (y_sched y') = [] ∧
    (∀ i, i ∈ L' ↔ i ∈ L ∧ reapable (tk (y_sched y) i) = false) ∧
    (∀ q t, t ∈ W' q → t ∈ W q ∧ (t ∈ L → t ∈ L')) ∧
    (∀ i, i ∈ L → i ∉ L' → name (tk (y_sched y') i) = None)) y.
Proof.
  intros Hlaws Hi Hw Hh. unfold sched_reap_dead. set (s0 := y_sched y) in *.
  set (I := λ (n : nat) (_ : unit) (y' : ystate (sstate P)), ∃ L1 Q1 W1, n = length L1 ∧
    owed_inv laws hole L1 Q1 (y_sched y') ∧ waiting_ok W1 y' ∧ sheld (y_sched y') = [] ∧
    (∀ i, i ∈ L1 → i ∈ L) ∧ (∀ i, i ∈ L → i ∉ L1 → reapable (tk s0 i) = true ∧ name (tk (y_sched y') i) = None) ∧
    (∀ i, i ∈ L1 → dview (tk (y_sched y') i) = dview (tk s0 i)) ∧
    (∀ q t, t ∈ W1 q → t ∈ W q ∧ (t ∈ L → t ∈ L1))).
  apply (wp_whileM _ _ _ I _ (length L)).
  { pose proof (@list_length_slots _ _ (laws (dues s0 L)) _ _ _ _ Hi) as Hl. cbn in Hl. unfold MAX_TASKS. lia. }
  { exists L, Q, W. do 5 (split; [done|]). split; [done|]. done. }
  intros n [] y' (L1 & Q1 & W1 & -> & Hi1 & Hw1 & Hh1 & Hsub & Hgone & Hd & HW).
  apply (reap_round release laws Hlaws cpu hole L1 Q1 W1 y'); [done..| |].
  - intros y2 Hw2 Hh2 (Q2 & Hi2) Htk Hno. exists L1, Q2, W1. split; [done|]. split; [done|]. split; [done|].
    split; [|split; [done|]].
    + intros i. split; [|].
      * intros Hin. split; [by apply Hsub|]. specialize (Hd i Hin). specialize (Hno i Hin). unfold dview in Hd. congruence.
      * intros [HiL Hr]. destruct (decide (i ∈ L1)) as [|Hni]; [done|]. destruct (Hgone i HiL Hni). congruence.
    + intros i HiL Hni. rewrite Htk. by apply Hgone.
  - intros y2 v L2 Q2 W2 Hv Hre HL2 Hi2 Hw2 Hh2 Hout Hsub2 Hv0 Hd2. exists (length L2). split.
    + pose proof (@si_list _ _ (laws (dues (y_sched y2) L2)) _ _ _ _ Hi2) as [[_ Hnd2]%NoDup_cons _].
      assert (v :: L2 ⊆+ L1) as Hs.
      { apply NoDup_submseteq; [apply NoDup_cons; split; [|done]; intros Hin; by apply HL2 in Hin as [_ ?]|].
        intros x [->|Hx]%elem_of_cons; [done|by apply HL2]. }
      apply submseteq_length in Hs. cbn in Hs. lia.
    + exists L2, Q2, W2. split; [done|]. split; [done|]. split; [done|]. split; [done|].
      assert (∀ i, i ∈ L2 → i ∈ L1 ∧ i ≠ v) as Hin2 by (intros i; apply HL2).
      split; [intros i [? _]%Hin2; auto|]. split; [|split].
      * intros i HiL Hni. destruct (decide (i = v)) as [->|Hiv].
        -- split; [|by rewrite Hv0]. specialize (Hd v Hv). unfold dview in Hd. congruence.
        -- assert (i ∉ L1) as Hni1 by (intros Hin; apply Hni, HL2; done).
           destruct (Hgone i HiL Hni1) as [? Ht0]. split; [done|].
           specialize (Hd2 i Hiv). unfold dview in Hd2. congruence.
      * intros i [Hi1' Hiv]%Hin2. rewrite Hd2 by done. by apply Hd.
      * intros q t Ht. destruct (HW q t (Hsub2 q t Ht)) as [? Hl]. split; [done|]. intros HtL. apply HL2.
        split; [by apply Hl|]. intros ->. by apply (Hout q).
Qed.

End reaper.
