(* ===== verification/SyncClaims.v ===== *)
(** * The properties of the synchronisation objects. *)

From S2P Require Import Prelude Machine PageAlloc PageAllocSpec PageAllocRefine Heap HeapSpec HeapClaims Task WaitQueue Sched SchedQueue SchedInv SchedOps SchedLife SchedReap SchedSwitch SchedSys SchedClaims Sync SyncSpec PoolSpec Mutex MutexSys Semaphore SemaphoreSpec Condvar CondvarSpec Ipc IpcSpec SyncSched.

Open Scope kernel_scope.

Section claims.
Context {S : Type} `{ParkingLaws S}.
Implicit Types y : ystate S.
Implicit Types W : qid → list Z.

(** ** Mutexes *)

(** C17.  Mutual exclusion: in every interleaving of the steps of the clients of
    a mutex and of the rest of the kernel, at most one client has returned from
    [mutex_lock] or a successful [mutex_trylock] without having unlocked, and it
    is the recorded owner of the locked mutex.  The clients are those of
    [mstep]: only a holder unlocks, and [mutex_lock] is entered by a task that can
    be parked and has no wake-up pending; the rest of the kernel does what it
    likes but for the mutex and for waking or killing a client that waits.  C27
    shows that the code needs this. *)
Theorem mutex_mutual_exclusion i pcs y : mreach i pcs y →
  (∀ t t', pcs t = MHolds → pcs t' = MHolds → t = t') ∧
  (∀ t, pcs t = MHolds → locked (body (mutex_at y i)) ≠ 0 ∧ owner (body (mutex_at y i)) = Some t).
Proof.
  intros [W Hi]%mreach_inv. split.
  - intros t t' H1%(mi_holds _ _ _ _ Hi) H2%(mi_holds _ _ _ _ Hi). congruence.
  - intros t Ht%(mi_holds _ _ _ _ Hi). split; [by eapply minv_owner_locked|done].
Qed.

(** C18.  No lost wake-up, in the interleavings of C17, where nothing but the
    mutex wakes or kills a client that waits: a client that is blocked inside
    [mutex_lock] either owns the mutex already and the task that handed it over
    is about to unpark it, or waits in the queue behind an owner that holds the
    mutex, is about to be unparked, or is awake on its way out of [mutex_lock]. *)
Theorem mutex_no_lost_wakeup i pcs y t : mreach i pcs y →
  pcs t = MParked → state (ytask y t) = TASK_STATE_BLOCKED →
  (owner (body (mutex_at y i)) = Some t ∧ ∃ u, pcs u = MWaking t) ∨
  (∃ W o, queues_ok W y ∧ t ∈ W (Q_mutex i) ∧ owner (body (mutex_at y i)) = Some o ∧ o ≠ t ∧
     (pcs o = MHolds ∨ (∃ u, pcs u = MWaking o) ∨ (waiting (pcs o) ∧ awake (pcs o) (ytask y o)))).
Proof.
  intros [W Hi]%mreach_inv Ht Hb. assert (waiting (pcs t)) as Hw by (by right).
  destruct (mi_wait _ _ _ _ Hi t Hw) as [[Hin _]|[(Ho & Hu & _)|(_ & _ & [Hn _])]]; [|by left|done].
  right. destruct (mi_queue _ _ _ _ Hi t Hin) as [_ Hno].
  assert (locked (body (mutex_at y i)) ≠ 0) as Hl.
  { intros Hz. destruct (mi_free _ _ _ _ Hi Hz) as [_ Hw0]. rewrite Hw0 in Hin. by apply not_elem_of_nil in Hin. }
  destruct (mi_own _ _ _ _ Hi Hl) as (o & Ho & Hpc). exists W, o.
  split; [apply Hi|]. split; [done|]. split; [done|]. split; [congruence|].
  destruct Hpc as [?|Hwo]; [by left|].
  destruct (mi_wait _ _ _ _ Hi o Hwo) as [[Hino _]|[(_ & Hu & _)|(_ & _ & Haw)]]; [|by right; left|by right; right].
  by destruct (mi_queue _ _ _ _ Hi o Hino).
Qed.

(** C19.  [mutex_unlock] serves the waiters in the order they came: the first one
    becomes the owner of the mutex, which stays locked, and is woken; without a
    waiter the mutex becomes free; no other task is affected. *)
Theorem mutex_unlock_fifo W y cpu i :
  queues_ok W y → mutex_lockable y i → can_lock L_sched (yheld y) = true →
  wp (mutex_unlock cpu i) (λ _ y',
    queues_ok (wupd W (Q_mutex i) (tail (W (Q_mutex i)))) y' ∧
    body (mutex_at y' i) = match W (Q_mutex i) with
                           | [] => MutexBody 0 None
                           | t :: _ => MutexBody (locked (body (mutex_at y i))) (Some t)
                           end ∧
    (∀ j, tview (ytask y' j) =
          if decide (head (W (Q_mutex i)) = Some j) then tview (unparked (ytask y j)) else tview (ytask y j)) ∧
    yheld y' = yheld y) y.
Proof.
  intros Hok Hlk Hl. eapply wp_mono; [by apply (mutex_unlock_spec W)|]. by intros [] y' [].
Qed.

(** ** Handles *)

(** C20.  Handles are faithful: the index and the generation of a slot are
    recovered from the handle of its object, which is a positive C [int]
    accepted by the range check of every pool operation. *)
Theorem handle_round_trip index gen : 0 ≤ index < POOL_MAX → 1 ≤ gen ≤ HANDLE_GENERATION_MAX →
  let h := make_handle index gen in
  0 < h < 2 ^ 31 ∧ handle_index h = index ∧ handle_generation h = gen ∧ bad_handle h = false.
Proof.
  intros Hi Hg h. unfold POOL_MAX in Hi. assert (h = gen * 64 + index) as Hh by (apply make_handle_eq; lia).
  unfold HANDLE_GENERATION_MAX in Hg. assert (0 < h < 2 ^ 31) as Hr by lia. split; [done|].
  assert (handle_index h = index) as E1 by (rewrite handle_index_eq by lia; Z.div_mod_to_equations; lia).
  assert (handle_generation h = gen) as E2 by (rewrite handle_generation_eq by lia; Z.div_mod_to_equations; lia).
  split; [done|]. split; [done|]. unfold bad_handle, POOL_MAX. rewrite E1, E2.
  bfalse (index <? 0). bfalse (64 <=? index). by bfalse (gen =? 0).
Qed.

(** C21.  A freed handle stays dead: after a successful [semaphore_pool_free],
    and whatever sequence of allocations, frees, pins and unpins follows with
    fewer than [HANDLE_GENERATION_MAX] allocations, pinning the handle fails and
    so does freeing it again; no object is reached through it. *)
Theorem stale_handle_rejected y h y1 ops :
  yheld y = [] → h < 2 ^ 31 → semaphore_pool_free h y = Some (true, y1) →
  Forall pool_op_ok ops → Z.of_nat (allocs ops) < HANDLE_GENERATION_MAX →
  wp (forM_ ops (pool_exec (A := semaphore_body)) ;;
      pinned ← semaphore_pool_pin h;
      again ← semaphore_pool_free h;
      mret (pinned, again)) (λ r _, r = (None, false)) y1.
Proof.
  intros Hh Hh31 Hrun Hops Hk. assert (∀ l, can_lock l (yheld y) = true) as Hl by (intros l; by rewrite Hh).
  pose proof (wp_run _ _ _ _ _ (pool_free_spec (A := semaphore_body) y h (Hl _) (Hl _)) Hrun)
    as (Hv & p & -> & Hs).
  symmetry in Hv. apply andb_true_iff in Hv as [[Hv _]%andb_true_iff _].
  destruct (bad_handle h) eqn:Hbad; [by rewrite valid_bad in Hv|].
  assert (handle_generation h ≤ HANDLE_GENERATION_MAX) as Hgm.
  { assert (0 ≤ h).
    { apply orb_false_iff in Hbad as [[Hneg _]%orb_false_iff _]. unfold handle_index in Hneg.
      destruct (h <? 0) eqn:E; [done|by apply Z.ltb_ge]. }
    rewrite handle_generation_eq by lia. unfold HANDLE_GENERATION_MAX. Z.div_mod_to_equations. lia. }
  assert (aged (handle_index h) (handle_generation h) 0 (the_pool (A := semaphore_body) (with_pool y p))) as Ha.
  { rewrite with_pool_pool. apply (aged_same _ _ _ (freed (handle_index h) (the_pool y))); [done|].
    exists 0%nat. split; [lia|]. split.
    - unfold valid in Hv. rewrite !andb_true_iff, Z.eqb_eq in Hv. exact (proj2 (proj1 Hv)).
    - intros _. unfold freed. by rewrite p_used_set, decide_True. }
  assert (∀ l, can_lock l (yheld (with_pool y p)) = true) as Hl1 by (intros l; by rewrite with_pool_held).
  wp_step. eapply wp_mono; [by apply (pool_run_aged (handle_index h) (handle_generation h) ops 0)|].
  intros [] y2 [Hh2 Ha2]. cbn [Nat.add] in Ha2.
  assert (∀ l, can_lock l (yheld y2) = true) as Hl2 by (intros l; by rewrite Hh2).
  assert (valid (the_pool (A := semaphore_body) y2) h = false) as Hinv by (by eapply aged_invalid).
  wp_step. eapply wp_mono; [by apply (pool_pin_spec (A := semaphore_body))|].
  intros r y3. rewrite Hinv. intros [-> ->].
  wp_step. eapply wp_mono; [by apply (pool_free_spec (A := semaphore_body))|].
  intros b y4 (Hb & _). rewrite Hinv in Hb. wp_step. by rewrite Hb.
Qed.

(** ** Semaphores *)

(** C22.  A semaphore hands out exactly the permits it has: in every interleaving,
    the permits granted never exceed the initial ones and those posted, the
    counter is the difference, and a task waits only when every permit is out. *)
Theorem semaphore_permits i n posts grants y :
  0 ≤ n → n + posts < 2 ^ 64 → sreach i n posts grants y →
  grants ≤ n + posts ∧ value (body (sem_at y i)) = n + posts - grants ∧
  ∀ W, queues_ok W y → W (Q_sem i) ≠ [] → grants = n + posts.
Proof.
  intros Hn Hb Hr. destruct (sreach_inv _ _ _ _ _ Hn Hb Hr) as [W Hi]. fold (sem_value y i).
  pose proof (sv_count _ _ _ _ _ _ Hi). pose proof (sv_value _ _ _ _ _ _ Hi).
  split; [lia|]. split; [lia|]. intros W' Hok' Hne.
  rewrite (queues_ok_unique W' W y) in Hne by (done || apply (sv_ok _ _ _ _ _ _ Hi)).
  pose proof (sv_wait _ _ _ _ _ _ Hi Hne). lia.
Qed.

(** ** Condition variables *)

(** C23.  [condvar_broadcast] returns 1 with the queue empty and every task that
    was in it woken, or marked to be woken if it had not parked yet; no other
    task is affected. *)
Theorem condvar_broadcast_wakes_all W y cpu i :
  queues_ok W y → cond_lockable y i → can_lock L_sched (yheld y) = true →
  wp (condvar_broadcast cpu i) (λ r y', r = 1 ∧ queues_ok (wupd W (Q_cond i) []) y' ∧ yheld y' = yheld y ∧
    ∀ j, tview (ytask y' j) =
         if decide (j ∈ W (Q_cond i)) then tview (unparked (ytask y j)) else tview (ytask y j)) y.
Proof. intros. by apply condvar_broadcast_spec. Qed.

(** What a client has to satisfy to call [condvar_wait]. *)
Record wait_pre W y (cpu i h t : Z) : Prop := {
  wt_ok : queues_ok W y;
  wt_held : yheld y = [];
  wt_index : index_ok i = true;
  wt_runs : runs y cpu t;
  wt_free : ∀ q, t ∉ W q;
  wt_valid : valid (mutex_pool y) h = true;
  wt_parkable : parkable (ytask y t);
  wt_running : state (ytask y t) ≠ TASK_STATE_BLOCKED;
  wt_token : wake_pending (ytask y t) = 0;
}.

Lemma wait_enter W y cpu i h t : wait_pre W y cpu i h t →
  wp (condvar_wait_enter cpu i h) (λ r y', r = Some t ∧ ∃ W', queues_ok W' y' ∧
    W' (Q_cond i) = W (Q_cond i) ++ [t] ∧ yheld y' = [] ∧
    ∀ j, j ∈ W (Q_cond i) ++ [t] → tview (ytask y' j) = tview (ytask y j)) y.
Proof.
  intros [Hok Hh Hi Hr Hf Hv _ _ _].
  eapply wp_mono; [apply (condvar_wait_enter_spec W y cpu i h t); try done|].
  - split; [done|by rewrite Hh].
  - unfold pool_lockable. rewrite yst_held, Hh. done.
  - intros r y' (-> & Hok' & Hv' & Hh' & _). split; [done|]. eexists. split; [exact Hok'|].
    split; [by rewrite wupd_ne, wupd_eq by done|]. split; [congruence|].
    intros j Hj. rewrite Hv', decide_False; [done|]. intros E%head_in.
    apply elem_of_app in Hj as [Hj|Hj%list_elem_of_singleton].
    + by pose proof (qo_disj _ _ Hok _ _ _ E Hj).
    + subst j. by apply (Hf (Q_mutex (handle_index h))).
Qed.

(** [n] signals. *)
Fixpoint signals (n : nat) (cpu i : Z) : M (ystate S) unit :=
  match n with O => mret () | Datatypes.S n' => _ ← condvar_signal cpu i; signals n' cpu i end.

Lemma signals_spec cpu i n : ∀ W y,
  queues_ok W y → cond_lockable y i → can_lock L_sched (yheld y) = true →
  wp (signals n cpu i) (λ _ y', yheld y' = yheld y ∧ (∃ W', queues_ok W' y') ∧
    ∀ j, tview (ytask y' j) =
         if decide (j ∈ take n (W (Q_cond i))) then tview (unparked (ytask y j)) else tview (ytask y j)) y.
Proof.
  induction n as [|n IH]; intros W y Hok Hlk Hl; cbn [signals].
  { apply wp_ret. split; [done|]. split; [by exists W|]. intros j. by rewrite decide_False by apply not_elem_of_nil. }
  wp_step. eapply wp_mono; [by apply (condvar_signal_spec W)|]. intros r y1 (_ & Hok1 & Hv1 & Hh1).
  eapply wp_mono; [apply (IH _ y1 Hok1); [by destruct Hlk; split; [|rewrite Hh1]|by rewrite Hh1]|].
  intros [] y2 (Hh2 & Hok2 & Hv2). split; [congruence|]. split; [done|]. intros j. rewrite Hv2, wupd_eq.
  specialize (Hv1 j). pose proof (q_nodup _ _ _ _ (proj1 (qo_rep _ _ Hok (Q_cond i)))) as Hnd.
  destruct (W (Q_cond i)) as [|t l]; cbn [head tail take] in *; [by rewrite firstn_nil in *|].
  apply NoDup_cons in Hnd as [Hnin _]. destruct (decide (j = t)) as [->|Hne].
  - rewrite decide_False by (intros Hin%elem_of_take; destruct Hin as (k & Hk & _); by apply Hnin, (list_elem_of_lookup_2 _ k)).
    rewrite decide_True in Hv1 by done. by rewrite decide_True by set_solver.
  - rewrite decide_False in Hv1 by congruence. rewrite (tview_unparked _ _ Hv1), Hv1.
    destruct (decide (j ∈ take n l)); [by rewrite decide_True by set_solver|by rewrite decide_False by set_solver].
Qed.

(** The place of the caller behind the waiters before it. *)
Lemma take_last n (l : list Z) t : t ∉ l → t ∈ take n (l ++ [t]) ↔ (length l < n)%nat.
Proof.
  intros Ht. rewrite take_app, elem_of_app. destruct (decide (length l < n)%nat) as [Hn|Hn].
  - split; [done|]. intros _. right. rewrite take_ge by (cbn; lia). by left.
  - replace (n - length l)%nat with 0%nat by lia. cbn. split; [|lia].
    intros [Hin|Hin]; [|by apply not_elem_of_nil in Hin].
    apply elem_of_take in Hin as (k & Hk & _). by apply list_elem_of_lookup_2 in Hk.
Qed.

(** C24.  No signal is lost between the release of the mutex and the park, and
    signals serve the waiters in the order they came.  When [condvar_wait] has
    queued its task behind the waiters of the condition and released the mutex,
    and [n] signals come before it parks, the park returns at once if they are
    more than the waiters before it, and blocks otherwise; when they come after
    the park, the task is READY if they are more than the waiters before it, and
    BLOCKED still otherwise, and of these waiters exactly the first [n] were
    woken. *)
Theorem condvar_no_lost_signal W y cpu cpu' i h t n :
  wait_pre W y cpu i h t →
  wp (w ← condvar_wait_enter cpu i h; signals n cpu' i ;; y_park w)
     (λ b _, b = (n <=? length (W (Q_cond i)))%nat) y ∧
  wp (w ← condvar_wait_enter cpu i h; b ← y_park w; signals n cpu' i ;; mret b)
     (λ b y', b = true ∧
        state (ytask y' t) = (if (n <=? length (W (Q_cond i)))%nat then TASK_STATE_BLOCKED else TASK_STATE_READY) ∧
        ∀ j, j ∈ W (Q_cond i) → tview (ytask y' j) =
          if decide (j ∈ take n (W (Q_cond i))) then tview (unparked (ytask y j)) else tview (ytask y j)) y.
Proof.
  intros Hpre. pose proof Hpre as [_ _ Hi (_ & _ & Hs) Hf _ [Hid Hb] Hst Hwp].
  assert (wakeable (ytask y t) = false) as Hnw by (unfold wakeable; by rewrite (proj2 (Z.eqb_neq _ _) Hst)).
  pose proof Hb as [Hal Hkp]%andb_true_iff. set (ws := W (Q_cond i)) in *.
  assert (t ∈ ws ++ [t]) as Htin by set_solver.
  assert (t ∉ ws) as Htn by apply Hf. pose proof (take_last n ws t Htn) as Htl.
  split; wp_step; (eapply wp_mono; [by apply (wait_enter W)|]); fold ws;
    intros r y1 (-> & W1 & Hok1 & Hw1 & Hh1 & Hv1); wp_step; pose proof (Hv1 t Htin) as Hvt.
  - eapply wp_mono; [apply (signals_spec cpu' i n W1); [done|by split; [done|rewrite Hh1]|by rewrite Hh1]|].
    intros [] y2 (Hh2 & (W2 & Hok2) & Hv2).
    eapply wp_mono; [apply (wp_sched_park _ _ t Hok2); [by rewrite Hh2, Hh1|done]|].
    intros b y3 [-> _]. specialize (Hv2 t). rewrite Hw1 in Hv2.
    destruct (n <=? length ws)%nat eqn:E; [apply Nat.leb_le in E|apply Nat.leb_gt in E].
    + rewrite decide_False in Hv2 by (rewrite Htl; lia). rewrite (tview_parks _ _ Hv2), (tview_parks _ _ Hvt).
      unfold parks. rewrite Hb, Hwp. by btrue (4 <=? id (ytask y t)).
    + rewrite decide_True in Hv2 by (by apply Htl). rewrite (tview_unparked _ _ Hvt) in Hv2.
      rewrite (tview_parks _ _ Hv2). unfold unparked. rewrite Hnw, Hal, Hkp. cbn [andb]. unfold parks. cbn.
      by rewrite !andb_false_r.
  - eapply wp_mono; [apply (wp_sched_park W1 y1 t Hok1); [by rewrite Hh1|done]|].
    intros b y2 [-> [Hok2 Hv2 Hh2 _ _ _ _ _]]. wp_step.
    eapply wp_mono; [apply (signals_spec cpu' i n W1); [done|by split; [done|rewrite Hh2, Hh1]|by rewrite Hh2, Hh1]|].
    intros [] y3 (_ & _ & Hv3). wp_step. rewrite Hw1 in Hv3.
    assert ((4 <=? id (ytask y t)) = true) as E by (by apply Z.leb_le).
    split; [rewrite (tview_parks _ _ Hvt); unfold parks; by rewrite E, Hb, Hwp|]. split.
    + specialize (Hv3 t). specialize (Hv2 t). rewrite decide_True, (tview_parked _ _ Hvt) in Hv2 by done.
      unfold parked in Hv2. rewrite E, Hb, Hwp in Hv2. cbn [andb Z.eqb] in Hv2.
      destruct (n <=? length ws)%nat eqn:En; [apply Nat.leb_le in En|apply Nat.leb_gt in En].
      * rewrite decide_False, Hv2 in Hv3 by (rewrite Htl; lia). by apply tview_eqs in Hv3 as (_ & -> & _).
      * rewrite decide_True, (tview_unparked _ _ Hv2) in Hv3 by (by apply Htl).
        apply tview_eqs in Hv3 as (_ & -> & _). unfold unparked, wakeable, readied. cbn. rewrite Hkp. cbn. by rewrite E.
    + intros j Hj. assert (j ≠ t) as Hjt by (by intros ->). rewrite (Hv3 j).
      specialize (Hv2 j). rewrite decide_False, (Hv1 j) in Hv2 by (done || set_solver).
      assert (j ∈ take n (ws ++ [t]) ↔ j ∈ take n ws) as Hjn.
      { rewrite take_app, elem_of_app. split; [|by left]. intros [?|Hin]; [done|].
        apply elem_of_take in Hin as (k & Hk & _). apply list_elem_of_lookup_2, list_elem_of_singleton in Hk. done. }
      destruct (decide (j ∈ take n ws)); [rewrite decide_True by tauto; by apply tview_unparked|by rewrite decide_False by tauto].
Qed.

(** ** IPC *)

(** C25.  A message sent on an empty channel is received whole: [ipc_receive]
    returns the length and exactly the bytes [ipc_send] was given, and the channel
    is empty again; a receiver with a smaller buffer gets an error and the message
    stays. *)
Theorem ipc_round_trip W y cpu c bytes len t cap :
  queues_ok W y → yheld y = [] → chan_ok c = true → has_message (channel_at y c) = 0 →
  length (buffer (channel_at y c)) = 64%nat → 1 ≤ len ≤ IPC_MESSAGE_MAX → len ≤ Z.of_nat (length bytes) →
  1 ≤ cap ≤ IPC_MESSAGE_MAX →
  wp (r ← ipc_send cpu c (Some bytes) len; x ← ipc_receive c (Some t) false cap; mret (r, x)) (λ '(r, x) y',
    r = len ∧
    if cap <? len then x = (IPC_RESULT_ERROR, []) ∧ has_message (channel_at y' c) ≠ 0
    else x = (len, take (Z.to_nat len) bytes) ∧ has_message (channel_at y' c) = 0) y.
Proof.
  intros Hok Hh Hc Hm Hbuf Hlen Hb Hcap. wp_step.
  eapply wp_mono; [apply (ipc_send_spec W); try done; by rewrite Hh|].
  intros r y1 (-> & Hok1 & _ & Hh1 & (E1 & E2 & E3) & _). cbn in E1, E2, E3. wp_step.
  assert (length (take (Z.to_nat len) bytes) = Z.to_nat len) as Hlt by (rewrite length_take; lia).
  eapply wp_mono; [apply (ipc_receive_spec _ y1 c t cap Hok1); [done|by rewrite Hh1, Hh|by rewrite E1|done|]|].
  { rewrite E2, E3, length_app, Hlt, length_drop. unfold IPC_MESSAGE_MAX in *. lia. }
  intros x y2 Hx. wp_step. split; [done|]. rewrite E2, E3 in Hx. destruct (cap <? len).
  - destruct Hx as [-> ->]. by rewrite E1.
  - destruct Hx as (-> & _ & _ & Hm2 & _). split; [|done]. f_equal.
    rewrite take_app_le by lia. by rewrite take_ge by lia.
Qed.

(** C26.  A send that cannot be accepted has no effect: on a channel that holds a
    message already, with an invalid channel, a null buffer, an empty or an
    oversized message, [ipc_send] returns an error and leaves the state as it is. *)
Theorem ipc_send_rejects y cpu c data len :
  yheld y = [] →
  data = None ∨ IPC_CHANNEL_MAX ≤ c ∨ len = 0 ∨ IPC_MESSAGE_MAX < len ∨
    (chan_ok c = true ∧ has_message (channel_at y c) ≠ 0) →
  wp (ipc_send cpu c data len) (λ r y', r = IPC_RESULT_ERROR ∧ y' = y) y.
Proof.
  intros Hh [?|[?|[?|[?|[Hc Hm]]]]]; try (apply ipc_send_bad; tauto).
  destruct data as [bytes|]; [|apply ipc_send_bad; by left]. apply ipc_send_full; [done|by rewrite Hh|done].
Qed.

End claims.

(** ** Over the scheduler *)

Section over_sched.
Context {P : Type}.

(** C27.  The restriction of C17 is needed: [mutex_lock] can return without the
    mutex.  In every interleaving of C17, when a client [t] is parked behind a
    holder [o] and a child of [t] exits, [t] becomes READY, because [task_exit]
    wakes its parent whatever it is blocked on; [o] still owns the mutex, and the
    return of [t] from [mutex_lock] is enabled, after which both hold it. *)
Theorem spurious_wakeup_breaks_mutex `{SchedEnvLaws P} i pcs (y : ystate (sstate P)) cpu c t o :
  mreach i pcs y → pcs t = MParked → state (ytask y t) = TASK_STATE_BLOCKED → pcs o = MHolds →
  cpu_ok cpu = true → curr (y_sched y) cpu = Some c → c ≠ t → 4 ≤ id (ytask y c) →
  parent_id (ytask y c) = id (ytask y t) →
  wp (up (task_exit cpu)) (λ _ y',
    state (ytask y' t) = TASK_STATE_READY ∧ owner (body (mutex_at y' i)) = Some o ∧
    mstep i pcs y' (pupd pcs t MHolds) y' ∧ pupd pcs t MHolds t = MHolds ∧ pupd pcs t MHolds o = MHolds ∧ t ≠ o) y.
Proof.
  intros [W Hm]%mreach_inv Ht Hb Ho Hc Hcu Hct Hid Hpar.
  destruct (mi_parkable _ _ _ _ Hm t (or_intror Ht)) as [Hts [Htid _]].
  pose proof (mi_holds _ _ _ _ Hm o Ho) as Hown. pose proof (mi_held _ _ _ _ Hm) as Hh.
  destruct (qo_pk _ _ (mi_ok _ _ _ _ Hm)) as (hole & L & Q & _ & Hi). set (s := y_sched y) in *.
  destruct (inv_slot_id _ _ _ _ _ Hi Hts Htid) as [_ Hn].
  assert (t ≠ o) as Hto by (intros ->; congruence).
  rewrite wp_up. change (sub_get y) with s.
  eapply wp_mono; [apply (task_exit_spec hole L Q s cpu c Hi); [by change (sheld s) with (yheld y); rewrite Hh|done|done|exact Hid]|].
  intros [] s' [_ Hex]. pose proof (Hex t Hts) as Hst. unfold exited in Hst.
  assert (parent_of s c = Some t) as Hp by (by apply (parent_found hole L Q)).
  rewrite decide_False, decide_True, state_reparented in Hst by congruence.
  change (state (tk s t) = TASK_STATE_BLOCKED) in Hb. rewrite Hb in Hst. cbn [Z.eqb Pos.eqb TASK_STATE_BLOCKED] in Hst.
  assert (id (reparented s c t (tk s t)) = id (tk s t)) as Hrid by (unfold reparented; by case_match).
  unfold readied in Hst. rewrite Hrid in Hst. rewrite (proj2 (Z.leb_le 4 (id (tk s t))) Htid) in Hst.
  apply core_fields in Hst as (_ & Hst & _). cbn in Hst.
  assert (state (ytask (sub_set s' y) t) = TASK_STATE_READY) as Hready by exact Hst.
  split; [done|]. split; [exact Hown|]. split.
  - apply ms_return; [done|]. rewrite Hready. done.
  - split; [apply pupd_eq|]. by rewrite pupd_ne by done.
Qed.

(** C15.  The reaper terminates, within one round for every slot, and takes
    exactly the tasks that are DEAD and off their CPU: it leaves the scheduler's
    invariant, with the rest of the list as the task list and the slots of the
    others free; it makes the channels, mutexes, semaphores and condition
    variables forget them, waking who gets a mutex from them, with all wait
    queues as they should be; and what it gives back to the page allocator and
    the process component are their stacks and process references, each once,
    if giving back what a task holds ([owing]) returns and takes just that from
    what is owed ([release_laws]). *)
Theorem reaper_terminates `{SchedEnv P} release laws cpu hole L Q W (y : ystate (sstate P)) :
  release_laws release laws → owed_inv laws hole L Q (y_sched y) → waiting_ok W y → sheld (y_sched y) = [] →
  wp (sched_reap_dead release cpu) (λ _ y', ∃ L' Q' W',
    owed_inv laws hole L' Q' (y_sched y') ∧ waiting_ok W' y' ∧ sheld (y_sched y') = [] ∧
    (∀ i, i ∈ L' ↔ i ∈ L ∧ reapable (tk (y_sched y) i) = false) ∧
    (∀ q t, t ∈ W' q → t ∈ W q ∧ (t ∈ L → t ∈ L')) ∧
    (∀ i, i ∈ L → i ∉ L' → name (tk (y_sched y') i) = None)) y.
Proof. intros. by apply (sched_reap_dead_spec release laws cpu hole L Q W). Qed.

End over_sched.

(** ** Witnesses *)

(** Object 0 of a pool is in use, in its first generation. *)
Definition one_object {A} (b : A) : pool A :=
  Pool {[0 := Pooled b wait_queue_init 0 0]} {[0 := 1]} {[0 := 1]}.

(** Tasks 4 and 5 run on the CPUs 0 and 1; one mutex, one semaphore with a
    permit, one condition variable. *)
Definition sync_up : ystate (sstate bump) :=
  YState sched_family (one_object (MutexBody 0 None)) (one_object (SemaphoreBody 1))
    (one_object CondvarBody) ∅.

(** The handle of object 0. *)
Definition handle0 : Z := make_handle 0 1.

Definition no_waiters : qid → list Z := λ _, [].

Lemma one_object_empty {A} `{PoolKind A} (b : A) i : waiters (p_obj (one_object b) i) = wait_queue_init.
Proof. unfold p_obj, one_object. cbn. destruct (decide (i = 0)) as [->|]; [done|]. by rewrite lookup_singleton_ne. Qed.

(** The queues of these objects over any scheduler. *)
Lemma idle_queues_ok (s : sstate bump) : pk_ok s → queues_ok no_waiters (sync_up <| y_sched := s |>).
Proof.
  intros Hs. split; [exact Hs| |by intros q q' t ?%not_elem_of_nil].
  intros q. replace (queue_at (sync_up <| y_sched := s |>) q) with wait_queue_init; [apply wq_init_rep|].
  destruct q; try (symmetry; apply one_object_empty). done.
Qed.

Lemma sync_up_ok : queues_ok no_waiters sync_up.
Proof.
  apply (idle_queues_ok sched_family). destruct (sched_reach_good _ sched_family sched_family_reach) as [(L & Q & Hi) _].
  exists closed, L, Q. split; [done|exact Hi].
Qed.

Lemma sync_up_held : yheld sync_up = [].
Proof. vm_compute. reflexivity. Qed.

Lemma runs_45 : runs sync_up 0 4 ∧ runs sync_up 1 5.
Proof. repeat split; try lia; vm_compute; reflexivity. Qed.

Lemma fresh_parkable x (i : Z) : tview x = (i, 0, 0, 0) → 4 ≤ i →
  parkable x ∧ state x ≠ TASK_STATE_BLOCKED ∧ wake_pending x = 0.
Proof.
  intros [= Ei Es Ek Ew] Hid. unfold parkable, blockable, alive. rewrite Ei, Es, Ek, Ew. by repeat split.
Qed.

Lemma sync_up_parkable (t : Z) : t = 4 ∨ t = 5 →
  parkable (ytask sync_up t) ∧ state (ytask sync_up t) ≠ TASK_STATE_BLOCKED ∧ wake_pending (ytask sync_up t) = 0.
Proof.
  assert (tview (ytask sync_up 4) = (4, 0, 0, 0) ∧ tview (ytask sync_up 5) = (5, 0, 0, 0)) as [E4 E5]
    by (vm_compute; split; reflexivity).
  intros [-> | ->]; [exact (fresh_parkable _ 4 E4 ltac:(lia))|exact (fresh_parkable _ 5 E5 ltac:(lia))].
Qed.


Definition run_to {A} (m : M (ystate (sstate bump)) A) (y : ystate (sstate bump)) : ystate (sstate bump) :=
  match m y with Some (_, y') => y' | None => y end.

(** The named state is a run by definition. *)
Ltac run_state := match goal with |- _ = ?y => try unfold y; exact eq_refl end.

Lemma run_to_eq {A} (m : M (ystate (sstate bump)) A) y r y' : run_to m y = y' → (fst <$> m y) = Some r →
  m y = Some (r, y').
Proof. intros <-. unfold run_to. destruct (m y) as [[r' y']|]; [|done]. cbn. by intros [= ->]. Qed.

(** Task 4 has the mutex, and task 5 has queued and parked. *)
Definition sync_locked : ystate (sstate bump) := run_to (mutex_lock_enter 0 0) sync_up.
Definition sync_queued : ystate (sstate bump) := run_to (mutex_lock_enter 1 0) sync_locked.
Definition sync_parked : ystate (sstate bump) := run_to (y_park (Some 5)) sync_queued.

Definition pcs_locked : Z → mpc := pupd (λ _, MIdle) 4 MHolds.
Definition pcs_parked : Z → mpc := pupd (pupd pcs_locked 5 MEntered) 5 MParked.

Lemma mutex_lockable0 (y : ystate (sstate bump)) : yheld y = [] → mutex_lockable y 0.
Proof. intros Hh. split; [done|by rewrite Hh]. Qed.

Lemma nobody_waits (y : ystate (sstate bump)) t : queues_ok no_waiters y → waits_nowhere y t.
Proof. intros Hok W HW q. rewrite (queues_ok_unique W no_waiters y q HW Hok). apply not_elem_of_nil. Qed.

Lemma sync_locked_reach : mreach 0 pcs_locked sync_locked ∧ mutex_eff no_waiters sync_up 0 no_waiters (MutexBody 1 (Some 4)) sync_locked.
Proof.
  destruct runs_45 as [Hr _]. destruct (sync_up_parkable 4 (or_introl eq_refl)) as (Hp & Hst & Hw).
  assert (mutex_lock_enter 0 0 sync_up = Some (None, sync_locked)) as Hrun by (apply run_to_eq; [run_state|vm_compute; reflexivity]).
  split.
  - apply (mr_step 0 (λ _, MIdle) sync_up).
    + exact (mr_init 0 (λ _, MIdle) sync_up no_waiters (λ _, eq_refl) sync_up_ok eq_refl sync_up_held eq_refl eq_refl).
    + exact (ms_lock 0 (λ _, MIdle) sync_up 0 4 None sync_locked eq_refl Hr
        (nobody_waits sync_up 4 sync_up_ok) Hp Hst Hw Hrun).
  - destruct Hr as (Hc & Hcur & Hs).
    pose proof (wp_run _ _ _ _ _ (mutex_lock_enter_spec no_waiters sync_up 0 0 4 sync_up_ok
      (mutex_lockable0 _ sync_up_held) Hc Hcur Hs (λ q, not_elem_of_nil 4)) Hrun) as Hp2. exact (proj2 Hp2).
Qed.

Lemma sync_parked_reach : mreach 0 pcs_parked sync_parked.
Proof.
  destruct sync_locked_reach as [Hreach [Hok Hb Hv Hh Hc _]].
  destruct runs_45 as [_ (Hcb & Hcur & Hs)]. destruct (sync_up_parkable 5 (or_intror eq_refl)) as (Hp & Hst & Hw).
  pose proof (tview_eqs _ _ (Hv 5)) as (_ & E2 & _ & E4).
  apply (mr_step 0 (pupd pcs_locked 5 MEntered) sync_queued).
  - apply (mr_step 0 pcs_locked sync_locked); [exact Hreach|].
    apply (ms_lock 0 pcs_locked sync_locked 1 5 (Some 5) sync_queued).
    + reflexivity.
    + split; [done|]. split; [rewrite Hc; exact Hcur|exact Hs].
    + exact (nobody_waits sync_locked 5 Hok).
    + exact (tview_parkable _ _ (Hv 5) Hp).
    + rewrite E2. exact Hst.
    + rewrite E4. exact Hw.
    + apply run_to_eq; [run_state|vm_compute; reflexivity].
  - apply (ms_park 0 (pupd pcs_locked 5 MEntered) sync_queued 5 true sync_parked); [reflexivity|].
    apply run_to_eq; [run_state|vm_compute; reflexivity].
Qed.

Lemma mutex_mutual_exclusion_witness :
  mreach 0 pcs_parked sync_parked ∧ owner (body (mutex_at sync_parked 0)) = Some 4.
Proof.
  split; [exact sync_parked_reach|].
  destruct (mutex_mutual_exclusion 0 pcs_parked sync_parked sync_parked_reach) as [_ Ho].
  exact (proj2 (Ho 4 eq_refl)).
Defined.

Lemma mutex_no_lost_wakeup_witness :
  (owner (body (mutex_at sync_parked 0)) = Some 5 ∧ ∃ u, pcs_parked u = MWaking 5) ∨
  (∃ W o, queues_ok W sync_parked ∧ 5 ∈ W (Q_mutex 0) ∧ owner (body (mutex_at sync_parked 0)) = Some o ∧ o ≠ 5 ∧
     (pcs_parked o = MHolds ∨ (∃ u, pcs_parked u = MWaking o) ∨
      (waiting (pcs_parked o) ∧ awake (pcs_parked o) (ytask sync_parked o)))).
Proof.
  assert (state (ytask sync_parked 5) = TASK_STATE_BLOCKED) as Hb by (vm_compute; reflexivity).
  pose proof (mutex_no_lost_wakeup 0 pcs_parked sync_parked 5 sync_parked_reach eq_refl Hb) as Hw. exact Hw.
Defined.

Lemma mutex_unlock_fifo_witness :
  wp (mutex_unlock 0 0) (λ _ y', body (mutex_at y' 0) = MutexBody 0 None) sync_locked.
Proof.
  destruct sync_locked_reach as [_ [Hok _ _ Hh _ _]].
  assert (yheld sync_locked = []) as Hh' by (rewrite Hh; apply sync_up_held).
  assert (can_lock L_sched (yheld sync_locked) = true) as Hl by (rewrite Hh'; reflexivity).
  eapply wp_mono; [exact (mutex_unlock_fifo no_waiters sync_locked 0 0 Hok (mutex_lockable0 _ Hh') Hl)|].
  intros [] y' (_ & Hb & _). exact Hb.
Defined.

Lemma handle_round_trip_witness : handle_index (make_handle 63 HANDLE_GENERATION_MAX) = 63.
Proof.
  destruct (handle_round_trip 63 HANDLE_GENERATION_MAX) as (_ & Hi & _);
    [unfold POOL_MAX; lia|unfold HANDLE_GENERATION_MAX; lia|exact Hi].
Defined.

(** The semaphore is freed, its slot is allocated again, freed through the new
    handle and allocated once more. *)
Definition reuse_ops : list (pool_op (A := semaphore_body)) :=
  [PAlloc (semaphore_init 3); PPin (make_handle 0 2); PUnpin 0; PFree (make_handle 0 2); PAlloc (semaphore_init 1)].

Lemma stale_handle_rejected_witness :
  wp (forM_ reuse_ops pool_exec ;; pinned ← semaphore_pool_pin handle0; again ← semaphore_pool_free handle0;
      mret (pinned, again)) (λ r _, r = (None, false)) (run_to (semaphore_pool_free handle0) sync_up).
Proof.
  assert (semaphore_pool_free handle0 sync_up = Some (true, run_to (semaphore_pool_free handle0) sync_up)) as Hrun
    by (apply run_to_eq; [run_state|vm_compute; reflexivity]).
  apply (stale_handle_rejected sync_up handle0 _ reuse_ops sync_up_held).
  - vm_compute. reflexivity.
  - exact Hrun.
  - repeat constructor.
  - vm_compute. reflexivity.
Defined.

(** Task 4 takes the only permit, and a post returns it. *)
Definition sem_taken : ystate (sstate bump) := run_to (semaphore_wait_enter 0 0) sync_up.
Definition sem_posted : ystate (sstate bump) := run_to (semaphore_post_give 0) sem_taken.

Lemma sem_posted_reach : sreach 0 1 1 1 sem_posted.
Proof.
  apply (sr_post 0 1 0 1 sem_taken None sem_posted).
  - apply (sr_wait 0 1 0 0 sync_up 0 4 SemTaken sem_taken).
    + exact (sr_init 0 1 sync_up no_waiters sync_up_ok eq_refl sync_up_held eq_refl eq_refl).
    + apply runs_45.
    + exact (nobody_waits sync_up 4 sync_up_ok).
    + apply run_to_eq; [run_state|vm_compute; reflexivity].
  - apply run_to_eq; [run_state|vm_compute; reflexivity].
Qed.

Lemma semaphore_permits_witness : value (body (sem_at sem_posted 0)) = 1.
Proof.
  destruct (semaphore_permits 0 1 1 1 sem_posted) as (_ & Hv & _); [lia|lia|exact sem_posted_reach|].
  rewrite Hv. reflexivity.
Defined.

Lemma condvar_broadcast_wakes_all_witness :
  wp (condvar_broadcast 0 0) (λ r y', r = 1 ∧ yheld y' = []) sync_up.
Proof.
  assert (can_lock L_sched (yheld sync_up) = true) as Hl by (rewrite sync_up_held; reflexivity).
  assert (cond_lockable sync_up 0) as Hlk by (split; [reflexivity|rewrite sync_up_held; reflexivity]).
  eapply wp_mono; [exact (condvar_broadcast_wakes_all no_waiters sync_up 0 0 sync_up_ok Hlk Hl)|].
  intros r y' (Hr & _ & Hh & _). rewrite sync_up_held in Hh. split; [exact Hr|exact Hh].
Defined.

(** Task 4 waits on the condition. *)
Definition sync_waited : ystate (sstate bump) := run_to (condvar_wait_enter 0 0 handle0) sync_up.
Definition one_waiter : qid → list Z := wupd (wupd no_waiters (Q_cond 0) [4]) (Q_mutex 0) [].

Lemma sync_waited_ok : queues_ok one_waiter sync_waited ∧ yheld sync_waited = [].
Proof.
  assert (condvar_wait_enter 0 0 handle0 sync_up = Some (Some 4, sync_waited)) as Hrun
    by (apply run_to_eq; [run_state|vm_compute; reflexivity]).
  assert (valid (mutex_pool sync_up) handle0 = true) as Hv by (vm_compute; reflexivity).
  assert (cond_lockable sync_up 0) as Hlk by (split; [reflexivity|rewrite sync_up_held; reflexivity]).
  assert (pool_lockable (yst sync_up (L_cond 0 :: yheld sync_up) (ytab sync_up)) (handle_index handle0)) as Hpl.
  { unfold pool_lockable. rewrite yst_held, sync_up_held. split; [reflexivity|split; reflexivity]. }
  pose proof (wp_run _ _ _ _ _ (condvar_wait_enter_spec no_waiters sync_up 0 0 handle0 4 sync_up_ok Hlk Hpl
    (proj1 runs_45) (λ q, not_elem_of_nil 4) Hv) Hrun) as (_ & Hok & _ & Hh & _).
  split; [exact Hok|rewrite Hh; apply sync_up_held].
Qed.

(** Task 5 waits behind task 4: one signal is not for it, two are. *)
Lemma condvar_no_lost_signal_witness :
  wp (w ← condvar_wait_enter 1 0 handle0; signals 1 0 0 ;; y_park w) (λ b _, b = true) sync_waited ∧
  wp (w ← condvar_wait_enter 1 0 handle0; signals 2 0 0 ;; y_park w) (λ b _, b = false) sync_waited.
Proof.
  assert (tview (ytask sync_waited 5) = (5, 0, 0, 0)) as E5 by (vm_compute; reflexivity).
  destruct (fresh_parkable _ 5 E5 ltac:(lia)) as (Hp & Hst & Hw).
  destruct sync_waited_ok as [Hok Hh].
  assert (valid (mutex_pool sync_waited) handle0 = true) as Hv by (vm_compute; reflexivity).
  assert (pk_cur (y_sched sync_waited) 1 = 5) as Hcur by (vm_compute; reflexivity).
  assert (∀ q, 5 ∉ one_waiter q) as Hno.
  { intros q. unfold one_waiter, wupd, no_waiters. repeat case_decide; try apply not_elem_of_nil.
    rewrite list_elem_of_singleton. lia. }
  assert (wait_pre one_waiter sync_waited 1 0 handle0 5) as Hpre.
  { split; [exact Hok|exact Hh|reflexivity|split; [lia|split; [exact Hcur|reflexivity]]|exact Hno|exact Hv|exact Hp|exact Hst|exact Hw]. }
  split; [exact (proj1 (condvar_no_lost_signal one_waiter sync_waited 1 0 0 handle0 5 1 Hpre))|
          exact (proj1 (condvar_no_lost_signal one_waiter sync_waited 1 0 0 handle0 5 2 Hpre))].
Defined.

Lemma ipc_round_trip_witness :
  wp (r ← ipc_send 0 3 (Some [7; 8; 9]) 3; x ← ipc_receive 3 (Some 5) false 64; mret (r, x))
     (λ '(r, x) _, r = 3 ∧ x = (3, [7; 8; 9])) sync_up.
Proof.
  eapply wp_mono; [apply (ipc_round_trip no_waiters sync_up 0 3 [7; 8; 9] 3 5 64 sync_up_ok sync_up_held)|].
  - reflexivity.
  - reflexivity.
  - reflexivity.
  - unfold IPC_MESSAGE_MAX. lia.
  - cbn. lia.
  - unfold IPC_MESSAGE_MAX. lia.
  - intros [r x] y' (Hr & Hx & _). split; [exact Hr|exact Hx].
Defined.

Lemma ipc_send_rejects_witness : wp (ipc_send 0 3 (Some [7]) 65) (λ r y', r = IPC_RESULT_ERROR ∧ y' = sync_up) sync_up.
Proof.
  apply (ipc_send_rejects sync_up 0 3 (Some [7]) 65 sync_up_held).
  right. right. right. left. unfold IPC_MESSAGE_MAX. lia.
Defined.

(** Task 4 has two children, 5 and 6, and all three run. *)
Definition sched_three : sstate bump :=
  after (CallSchedule 2) (after (CallAdopt 6) (after (CallCreate 0 1 2 "c") sched_family)).

Lemma sched_three_reach : sched_reach closed sched_three.
Proof.
  apply (after_schedule (H0 := bump_env_laws)); [|vm_compute; reflexivity..].
  apply (after_reach (H0 := bump_env_laws) closed closed _ (CallAdopt 6) false); [|done|vm_compute; reflexivity|done].
  apply (after_reach (H0 := bump_env_laws) closed closed sched_family (CallCreate 0 1 2 "c") false);
    [apply sched_family_reach|vm_compute; split; reflexivity|vm_compute; reflexivity|done].
Qed.

Definition sync_three : ystate (sstate bump) := sync_up <| y_sched := sched_three |>.

(** Task 5 locks the mutex, and task 4 waits for it. *)
Definition three_locked : ystate (sstate bump) := run_to (mutex_lock_enter 1 0) sync_three.
Definition three_queued : ystate (sstate bump) := run_to (mutex_lock_enter 0 0) three_locked.
Definition three_parked : ystate (sstate bump) := run_to (y_park (Some 4)) three_queued.
Definition pcs_three : Z → mpc := pupd (pupd (pupd (λ _, MIdle) 5 MHolds) 4 MEntered) 4 MParked.

Lemma sync_three_ok : queues_ok no_waiters sync_three.
Proof.
  apply idle_queues_ok. destruct (sched_reach_good _ sched_three sched_three_reach) as [(L & Q & Hi) _].
  exists closed, L, Q. split; [done|exact Hi].
Qed.

Lemma three_parked_reach : mreach 0 pcs_three three_parked.
Proof.
  assert (runs sync_three 1 5 ∧ runs sync_three 0 4) as [H5 H4] by (repeat split; try lia; vm_compute; reflexivity).
  assert (yheld sync_three = []) as Hh by (vm_compute; reflexivity).
  assert (tview (ytask sync_three 4) = (4, 0, 0, 0) ∧ tview (ytask sync_three 5) = (5, 0, 0, 0)) as [E4 E5]
    by (vm_compute; split; reflexivity).
  destruct (fresh_parkable _ 5 E5 ltac:(lia)) as (Hp5 & Hst5 & Hw5).
  assert (mutex_lock_enter 1 0 sync_three = Some (None, three_locked)) as Hrun
    by (apply run_to_eq; [run_state|vm_compute; reflexivity]).
  destruct H5 as (Hc5 & Hcur5 & Hs5). destruct H4 as (Hc4 & Hcur4 & Hs4).
  pose proof (wp_run _ _ _ _ _ (mutex_lock_enter_spec no_waiters sync_three 1 0 5 sync_three_ok
    (mutex_lockable0 _ Hh) Hc5 Hcur5 Hs5 (λ q, not_elem_of_nil 5)) Hrun) as [_ [Hok1 _ Hv1 _ Hcu1 _]].
  pose proof (Hv1 4) as Hv4. rewrite E4 in Hv4. destruct (fresh_parkable _ 4 Hv4 ltac:(lia)) as (Hp4 & Hst4 & Hw4).
  apply (mr_step 0 (pupd (pupd (λ _, MIdle) 5 MHolds) 4 MEntered) three_queued).
  - apply (mr_step 0 (pupd (λ _, MIdle) 5 MHolds) three_locked).
    + apply (mr_step 0 (λ _, MIdle) sync_three).
      * exact (mr_init 0 (λ _, MIdle) sync_three no_waiters (λ _, eq_refl) sync_three_ok eq_refl Hh eq_refl eq_refl).
      * exact (ms_lock 0 (λ _, MIdle) sync_three 1 5 None three_locked eq_refl (conj Hc5 (conj Hcur5 Hs5))
          (nobody_waits sync_three 5 sync_three_ok) Hp5 Hst5 Hw5 Hrun).
    + apply (ms_lock 0 (pupd (λ _, MIdle) 5 MHolds) three_locked 0 4 (Some 4) three_queued).
      * reflexivity.
      * split; [done|]. split; [rewrite Hcu1; exact Hcur4|exact Hs4].
      * exact (nobody_waits three_locked 4 Hok1).
      * exact Hp4.
      * exact Hst4.
      * exact Hw4.
      * apply run_to_eq; [run_state|vm_compute; reflexivity].
  - apply (ms_park 0 (pupd (pupd (λ _, MIdle) 5 MHolds) 4 MEntered) three_queued 4 true three_parked); [reflexivity|].
    apply run_to_eq; [run_state|vm_compute; reflexivity].
Qed.

Lemma spurious_wakeup_breaks_mutex_witness :
  wp (up (task_exit 2)) (λ _ y', state (ytask y' 4) = TASK_STATE_READY ∧ owner (body (mutex_at y' 0)) = Some 5)
     three_parked.
Proof.
  assert (state (ytask three_parked 4) = TASK_STATE_BLOCKED) as H1 by (vm_compute; reflexivity).
  assert (curr (y_sched three_parked) 2 = Some 6) as H2 by (vm_compute; reflexivity).
  assert (id (ytask three_parked 6) = 6) as H3 by (vm_compute; reflexivity).
  assert (parent_id (ytask three_parked 6) = id (ytask three_parked 4)) as H4 by (vm_compute; reflexivity).
  eapply wp_mono; [apply (spurious_wakeup_breaks_mutex 0 pcs_three three_parked 2 6 4 5 three_parked_reach);
    [reflexivity|exact H1|reflexivity|reflexivity|exact H2|lia|rewrite H3; lia|exact H4]|].
  intros [] y' (Hst & Ho & _). split; [exact Hst|exact Ho].
Defined.

(** ** The reaper over the page allocator

    The scheduler's stacks come from the page allocator, and go back to it. *)

#[export] Instance pa_sched_env : SchedEnv pastate := {
  se_pages := pa_page_source;
  mmu_context_switch := λ cpu mm, up (emit (Ev_ttbr0 mm));
  console_open_file := mret 1;
}.

(** The tasks have no process, and their stacks are in RAM. *)
Definition stack_due (d : Z * Z) : Prop := d.2 = 0 ∧ 0 ≤ va_to_pa d.1 ≤ RAM_END.

#[refine] Definition pa_due_pages (l : list (Z * Z)) : PageSourceLaws pastate := {|
  ps_ok := λ s, pa_inv s ∧ Forall stack_due l;
  ps_owned := λ s q, is_Some (owned s q);
|}.
Proof.
  - intros s p [Hi _]. by apply (ps_ram (PageSourceLaws := pa_page_source_laws) s).
  - intros s n Hn [Hi Hl] Hk.
    eapply wp_mono; [by apply (ps_alloc_spec (PageSourceLaws := pa_page_source_laws) s n)|].
    intros r s' (Hi' & Hh & Hr). by split.
  - intros s m' [Hi Hl] He Hm. destruct (ps_frame (PageSourceLaws := pa_page_source_laws) s m' Hi He Hm). by split.
Defined.

Lemma emit_ok l e (s : pastate) : @ps_ok _ _ (pa_due_pages l) s →
  wp (up (emit e)) (λ _ s', @ps_ok _ _ (pa_due_pages l) s' ∧ m_held (sub_get s') = m_held (sub_get s)) s.
Proof.
  intros Hok. unfold emit. rewrite wp_up, wp_modify. split; [|done].
  by apply (ps_frame (PageSourceLaws := pa_due_pages l) s).
Qed.

#[refine] Definition pa_due_laws (l : list (Z * Z)) : SchedEnvLaws pastate := {| se_pages_laws := pa_due_pages l |}.
Proof.
  - intros p cpu mm Hok _. by apply emit_ok.
  - intros p Hok _. by apply wp_ret.
Defined.

(** The first half of [release_task]. *)
Definition pa_release (stack proc : Z) : M pastate unit :=
  whenM (negb (stack =? 0)) (page_free_contiguous (va_to_pa stack) TASK_TOTAL_PAGES).

Lemma pa_release_laws : release_laws pa_release pa_due_laws.
Proof.
  split.
  - intros l l' p Hp [Hi Hl]. split; [done|]. by rewrite <- Hp.
  - intros l stack proc p [[fl Hr] [[_ Hd] Hl]%Forall_cons] Hh. unfold pa_release. cbn in Hd.
    destruct (stack =? 0); cbn [negb whenM]; [apply wp_ret; split; [split; [by exists fl|done]|done]|].
    eapply wp_mono; [apply (page_free_contiguous_spec fl p); [done| |lia|done|]|].
    + by replace (pa_held p) with (@nil lock).
    + unfold TASK_TOTAL_PAGES, TASK_GUARD_PAGES, TASK_STACK_PAGES, PAGE_SIZE. assert (RAM_END = 0x48000000) by reflexivity. lia.
    + intros [] s' Hs. case_decide.
      * destruct Hs as [Hi He _ _]. split; [by split|]. etransitivity; [exact (env_held _ _ He)|exact Hh].
      * split; [split; [exists fl; by eapply pa_same_rep|done]|]. etransitivity; [exact (env_held _ _ (same_env _ _ Hs))|exact Hh].
Qed.

(** The kernel image ends 16 pages below the end of RAM. *)
Definition pa_boot16 : pastate :=
  match page_allocator_init 0x47FF0000 pastate0 with Some (_, s) => s | None => pastate0 end.

Lemma pa_boot16_ok : pa_inv pa_boot16 ∧ pa_held pa_boot16 = [].
Proof.
  assert (QEMU_VIRT_RAM_BASE ≤ va_to_pa 0x47FF0000 ≤ RAM_END) as Hk by (by vm_compute).
  destruct (wp_elim _ _ _ (page_allocator_init_spec 0x47FF0000 pastate0 Hk)) as ([] & s & Hs & Hr & _ & _ & _ & _ & Hh & _).
  unfold pa_boot16. rewrite Hs. split; [by eexists|rewrite Hh; reflexivity].
Qed.

(** The scheduler boots on it; a task is created, runs on CPU 0, takes mutex 0,
    and is killed by CPU 1. *)
Definition pa_sched_zero : sstate pastate := SState pa_boot16 ∅ ∅ 0 0 0 0 ∅ ∅.
Definition pa_sched_up : sstate pastate :=
  match sched_boot pa_sched_zero with Some (_, s) => s | None => pa_sched_zero end.
Definition pa_sched_dead : sstate pastate :=
  after (CallSchedule 0) (after (CallKill 1 4) (after (CallSchedule 0) (after (CallCreate 0 1 2 "a") pa_sched_up))).

Lemma pa_sched_dead_reach : @sched_reach pastate _ (pa_due_laws []) closed pa_sched_dead.
Proof.
  destruct pa_boot16_ok as [Hi Hh]. assert (sheld pa_sched_zero = []) as Hh' by exact Hh.
  assert (@ps_ok _ _ (pa_due_pages []) (s_env pa_sched_zero)) as Hok by (by split).
  apply (after_schedule (H0 := pa_due_laws [])); [|vm_compute; reflexivity..].
  apply (after_reach (H0 := pa_due_laws []) closed closed _ (CallKill 1 4) false); [|done|vm_compute; reflexivity|done].
  apply (after_schedule (H0 := pa_due_laws [])); [|vm_compute; reflexivity..].
  apply (after_reach (H0 := pa_due_laws []) closed closed _ (CallCreate 0 1 2 "a") false);
    [|vm_compute; split; reflexivity|vm_compute; reflexivity|done].
  apply (SchedSys.reach_boot pa_sched_zero); [exact Hok|exact Hh'|].
  destruct (wp_elim _ _ _ (@sched_boot_spec _ _ (pa_due_laws []) pa_sched_zero Hok Hh')) as ([] & s & Hs & _).
  unfold pa_sched_up. rewrite Hs. reflexivity.
Qed.

(** The dead task still owns mutex 0. *)
Definition pa_sync_dead : ystate (sstate pastate) :=
  YState pa_sched_dead (one_object (MutexBody 1 (Some 4))) (one_object (SemaphoreBody 1)) (one_object CondvarBody) ∅.

Lemma pa_sync_waiting : waiting_ok no_waiters pa_sync_dead.
Proof.
  split; [|by intros q q' t ?%not_elem_of_nil|done].
  intros q. replace (queue_at pa_sync_dead q) with wait_queue_init; [apply wq_init_rep|].
  destruct q; try (symmetry; apply one_object_empty). done.
Qed.

Definition dues_okb (s : sstate pastate) : bool :=
  forallb (λ i, (process (tk s i) =? 0) && (0 <=? va_to_pa (stack_base (tk s i)))
                && (va_to_pa (stack_base (tk s i)) <=? RAM_END)) (upto 0 MAX_TASKS).

Lemma dues_okb_due s L : dues_okb s = true → (∀ i, i ∈ L → slot_ok i = true) → Forall stack_due (dues s L).
Proof.
  unfold dues_okb. rewrite forallb_forall. intros Hb HL. apply Forall_fmap, Forall_forall. intros i Hi.
  specialize (Hb i). rewrite !andb_true_iff, Z.eqb_eq, !Z.leb_le in Hb.
  destruct Hb as [[? ?] ?]; [|by split]. apply list_elem_of_In. rewrite upto_seqZ. apply elem_of_seqZ.
  specialize (HL i Hi). apply slot_ok_spec in HL. unfold MAX_TASKS. lia.
Qed.

Lemma pa_dead_facts : dues_okb pa_sched_dead = true ∧ reapable (tk pa_sched_dead 4) = true ∧
  named (tk pa_sched_dead 4) = true ∧ st pa_sched_dead 4 = TASK_STATE_DEAD.
Proof. vm_compute. repeat split. Qed.

#[local] Opaque pa_sched_dead.

Lemma reaper_terminates_witness :
  wp (sched_reap_dead pa_release 0) (λ _ y', name (tk (y_sched y') 4) = None ∧ sheld (y_sched y') = []) pa_sync_dead.
Proof.
  destruct (sched_reach_good (H0 := pa_due_laws []) closed pa_sched_dead pa_sched_dead_reach) as [(L & Q & Hi) Hh].
  destruct pa_dead_facts as (Hd & Hre & Hn & Hst).
  assert (owed_inv pa_due_laws closed L Q pa_sched_dead) as Howe.
  { assert (owing pa_due_laws (dues pa_sched_dead L) (s_env pa_sched_dead)) as Hdue.
    { split; [apply (si_env (H0 := pa_due_laws []) _ _ _ _ Hi)|]. apply dues_okb_due; [exact Hd|].
      intros i Hin. apply (si_inlist (H0 := pa_due_laws []) _ _ _ _ Hi). by right. }
    exact (inv_owed pa_due_laws [] closed L Q pa_sched_dead Hi Hdue). }
  eapply wp_mono; [exact (reaper_terminates pa_release pa_due_laws 0 closed L Q no_waiters pa_sync_dead
    pa_release_laws Howe pa_sync_waiting Hh)|].
  intros [] y' (L' & Q' & W' & _ & _ & Hh' & Hiff & _ & Hgone). split; [|exact Hh'].
  assert (4 ∈ L) as Hin.
  { apply named_spec in Hn.
    assert (4 ∈ 0 :: L) as Hx; [|apply elem_of_cons in Hx as [Hx|Hx]; [lia|exact Hx]].
    apply (si_all (H0 := pa_due_laws []) _ _ _ _ Hi 4 eq_refl Hn). rewrite Hst. unfold TASK_STATE_DEAD, TASK_STATE_REAPING. lia. }
  apply Hgone; [exact Hin|]. intros Hin'. apply Hiff in Hin' as [_ Hf].
  change (reapable (tk pa_sched_dead 4) = false) in Hf. rewrite Hre in Hf. exact (diff_true_false Hf).
Defined.
