(* ===== verification/MmuTable.v ===== *)
(** * The registry of translation-table pages: src/src/kernel/mmu_table.c

    [FrameEnv] is what the whole virtual-memory layer calls below it: the
    page allocator's API and the kernel heap.  The registry keeps the address
    and the name of every table page, at most [MMU_TABLE_MAX_PAGES]; the first
    [table_page_count] entries of the two C arrays are the list [table_pages]. *)

From Stdlib Require Import Ascii.
From S2P Require Import Prelude Machine.

Open Scope kernel_scope.

(** What the layer calls below it. *)
Class FrameEnv (P : Type) := {
  fe_sub :: Sub machine P;
  fe_alloc : M P Z;
  fe_free : Z → M P unit;
  fe_ref_inc : Z → M P unit;
  fe_ref_dec : Z → M P Z;
  fe_ref_get : Z → M P Z;
  fe_kmalloc : Z → M P Z;
  fe_kfree : Z → M P unit;
}.

Definition MMU_TABLE_MAX_PAGES : Z := 67.
Definition MMU_TABLE_MAX_NAME_LEN : Z := 24.

(** ** Names *)

(** The characters that fit below the terminator. *)
Definition copy_name (source : string) : string :=
  String.substring 0 (Z.to_nat (MMU_TABLE_MAX_NAME_LEN - 1)) source.

Fixpoint name_has_prefix (name prefix : string) : bool :=
  match prefix, name with
  | EmptyString, _ => true
  | String c prefix', String c' name' => (c =? c')%char && name_has_prefix name' prefix'
  | String _ _, EmptyString => false
  end.

(** The digits of [chunk_index], least significant first; [digits] has room
    for 21. *)
Fixpoint chunk_digits (fuel : nat) (chunk_index : Z) : list ascii :=
  match fuel with
  | O => []
  | Datatypes.S fuel' =>
      ascii_of_nat (48 + Z.to_nat (chunk_index mod 10)) ::
      (if chunk_index / 10 =? 0 then [] else chunk_digits fuel' (chunk_index / 10))
  end.

Definition set_chunk_name (prefix : string) (chunk_index : Z) : string :=
  copy_name (prefix +:+ String.string_of_list_ascii (reverse (chunk_digits 21 chunk_index))).

(** ** State *)

Section table.
Context {P : Type} `{FrameEnv P}.

Record tstate : Type := TState {
  t_env : P;
  table_pages : list (Z * string);
  table_pages_used : Z;
}.

#[global] Instance eta_tstate : Eta tstate := λ s,
  TState (t_env s) (table_pages s) (table_pages_used s).

#[global, refine] Instance sub_table_env : Sub P tstate := {
  sub_get := t_env;
  sub_set := λ p s, s <| t_env := p |>;
}.
Proof. all: intros; by destruct t. Defined.

#[global] Instance sub_table_machine : Sub machine tstate := sub_trans fe_sub sub_table_env.

Definition table_page_count (s : tstate) : Z := Z.of_nat (length (table_pages s)).

(** ** Operations *)

Definition mmu_table_registry_reset : M tstate unit :=
  modify (λ s, s <| table_pages := [] |> <| table_pages_used := 0 |>).

Definition mmu_table_record_page (address : Z) (name : string) : M tstate unit :=
  count ← gets table_page_count;
  if MMU_TABLE_MAX_PAGES <=? count then mret () else
  modify (λ s, s <| table_pages := table_pages s ++ [(address, copy_name name)] |>
                 <| table_pages_used := u64 (table_pages_used s + 1) |>).

Definition mmu_table_alloc_named_page (name : string) : M tstate Z :=
  table ← up (S := P) fe_alloc;
  whenM (negb (table =? 0)) (mmu_table_record_page table name) ;;
  mret table.

Definition mmu_table_alloc_chunk_page (prefix : string) (chunk_index : Z) : M tstate Z :=
  table ← up (S := P) fe_alloc;
  if table =? 0 then mret 0 else
  mmu_table_record_page table (set_chunk_name prefix chunk_index) ;;
  mret table.

(** The kept entries are compacted towards the front, in order. *)
Definition mmu_table_release_boot_ttbr0 (new_root : Z) : M tstate unit :=
  entries ← gets table_pages;
  kept ← foldM entries (λ kept '(address, name),
    if name_has_prefix name "t1-" then mret (kept ++ [(address, name)]) else
    up (S := P) (fe_free address) ;;
    modify (λ s, if 0 <? table_pages_used s
                 then s <| table_pages_used := table_pages_used s - 1 |> else s) ;;
    mret kept) [];
  modify (λ s, s <| table_pages := kept |>) ;;
  mmu_table_record_page new_root "t0-empty-root".

Definition mmu_table_page_count : M tstate Z := gets table_page_count.

Definition mmu_table_page_address (index : Z) : M tstate Z :=
  gets (λ s, match table_pages s !! Z.to_nat index with Some (a, _) => a | None => 0 end).

Definition mmu_table_page_name (index : Z) : M tstate string :=
  gets (λ s, match table_pages s !! Z.to_nat index with
             | Some (_, n) => n | None => "mmu-table-invalid" end).

Definition mmu_table_pages_used : M tstate Z := gets table_pages_used.

End table.

Arguments tstate : clear implicits.
Arguments TState {P} _ _ _.
