(* ===== verification/MmuBoot.v ===== *)
(** * Boot page tables and MMU bring-up: src/src/kernel/mmu_boot.c,
    src/src/kernel/mmu.c and the descriptor constants of
    src/src/include/kernel/mmu.h

    The linker-script symbols are the fields of [layout].  Before the MMU is
    enabled a table is reached through its physical address. *)

From S2P Require Import Prelude Machine MmuTable.

Open Scope kernel_scope.

(** ** mmu.h *)

Definition MMU_VA_BITS : Z := 48.
Definition MMU_T0SZ : Z := 64 - MMU_VA_BITS.
Definition MMU_L1_BLOCK_SIZE : Z := 0x40000000.
Definition MMU_L2_BLOCK_SIZE : Z := 0x00200000.
Definition MMU_KERNEL_FINE_MAP_MIN_CHUNKS : Z := 2.

Definition MMU_DESC_VALID : Z := 1.
Definition MMU_DESC_TABLE : Z := Z.lor MMU_DESC_VALID 2.
Definition MMU_DESC_BLOCK : Z := MMU_DESC_VALID.
Definition MMU_DESC_PAGE : Z := MMU_DESC_TABLE.

Definition MMU_ATTR_INDEX (x : Z) : Z := Z.shiftl x 2.
Definition MMU_ATTR_DEVICE : Z := MMU_ATTR_INDEX 0.
Definition MMU_ATTR_NORMAL : Z := MMU_ATTR_INDEX 1.

Definition MMU_AP_RW : Z := 0.
Definition MMU_AP_RO : Z := Z.shiftl 2 6.
Definition MMU_DESC_SOFTWARE_COW : Z := 2 ^ 55.
Definition MMU_SH_NON_SHAREABLE : Z := 0.
Definition MMU_SH_INNER_SHAREABLE : Z := Z.shiftl 3 8.
Definition MMU_AF : Z := 2 ^ 10.
Definition MMU_PXN : Z := 2 ^ 53.
Definition MMU_UXN : Z := 2 ^ 54.

Definition MMU_MAIR_DEVICE_nGnRnE : Z := 0.
Definition MMU_MAIR_NORMAL_WBWA : Z := 0xff.
Definition MMU_TCR_IPS_48BIT : Z := Z.shiftl 5 32.
Definition MMU_T1SZ : Z := Z.shiftl MMU_T0SZ 16.
Definition MMU_TG1_4K : Z := Z.shiftl 2 30.

Definition SCTLR_EL1_RES1 : Z := 2 ^ 29 + 2 ^ 28 + 2 ^ 23 + 2 ^ 22 + 2 ^ 20 + 2 ^ 11.
Definition SCTLR_EL1_M : Z := 1.
Definition SCTLR_EL1_C : Z := 2 ^ 2.
Definition SCTLR_EL1_I : Z := 2 ^ 12.

Definition MMU_DESC_TYPE_MASK : Z := 3.
Definition MMU_DESC_ADDR_MASK : Z := 0x0000fffffffff000.
Definition MMU_L3_PAGE_ADDR_MASK : Z := 0x0000fffffffff000.

Definition L0_INDEX_FOR (address : Z) : Z := Z.land (Z.shiftr address 39) 0x1ff.
Definition L1_INDEX_FOR (address : Z) : Z := Z.land (Z.shiftr address 30) 0x1ff.
Definition L2_INDEX_FOR (address : Z) : Z := Z.land (Z.shiftr address 21) 0x1ff.
Definition L3_INDEX_FOR (address : Z) : Z := Z.land (Z.shiftr address 12) 0x1ff.

Definition MMU_ALIGN_UP (value alignment : Z) : Z := align_up64 value alignment.

(** The bitwise or of a list of fields. *)
Definition bits (l : list Z) : Z := foldr Z.lor 0 l.

(** [&table[index]] of an array of [unsigned long]. *)
Definition entry_at (table index : Z) : Z := u64 (table + 8 * index).

(** ** The linker script's symbols *)

Record layout : Type := Layout {
  text_start : Z; text_end : Z;
  rodata_start : Z; rodata_end : Z;
  data_start : Z; data_end : Z;
  bss_start : Z; bss_end : Z;
  stack_bottom : Z; stack_top : Z;
  stack_guard : Z; stack_guard_end : Z;
  kernel_end : Z;
}.

Definition in_section (pa start stop : Z) : bool :=
  (va_to_pa start <=? pa) && (pa <? va_to_pa stop).

Definition ATTRS_RX : Z := bits [MMU_ATTR_NORMAL; MMU_AP_RO; MMU_SH_INNER_SHAREABLE; MMU_AF].
Definition ATTRS_RO : Z :=
  bits [MMU_ATTR_NORMAL; MMU_AP_RO; MMU_SH_INNER_SHAREABLE; MMU_AF; MMU_PXN; MMU_UXN].
Definition ATTRS_RW : Z :=
  bits [MMU_ATTR_NORMAL; MMU_AP_RW; MMU_SH_INNER_SHAREABLE; MMU_AF; MMU_PXN; MMU_UXN].
Definition ATTRS_DEVICE : Z :=
  bits [MMU_ATTR_DEVICE; MMU_AP_RW; MMU_SH_NON_SHAREABLE; MMU_AF; MMU_PXN; MMU_UXN].

Definition mmu_kernel_page_attrs (ld : layout) (address : Z) : Z :=
  let pa := va_to_pa address in
  if in_section pa (stack_guard ld) (stack_guard_end ld) then 0
  else if in_section pa (text_start ld) (text_end ld) then ATTRS_RX
  else if in_section pa (rodata_start ld) (rodata_end ld) then ATTRS_RO
  else if in_section pa (data_start ld) (data_end ld) then ATTRS_RW
  else if in_section pa (bss_start ld) (bss_end ld) then ATTRS_RW
  else if in_section pa (stack_bottom ld) (stack_top ld) then ATTRS_RW
  else ATTRS_RW.

(** ** State *)

Section boot.
Context {P : Type} `{FrameEnv P}.

Record bstate : Type := BState {
  b_tab : tstate P;
  mmu_l0_table : Z;
  mmu_l1_table : Z;
  mmu_l2_ram_table : Z;
  mmu_fine_map_chunks_used : Z;
  l0_table_ttbr1 : Z;
  l1_table_ttbr1 : Z;
  l2_ram_table_ttbr1 : Z;
}.

#[global] Instance eta_bstate : Eta bstate := λ s,
  BState (b_tab s) (mmu_l0_table s) (mmu_l1_table s) (mmu_l2_ram_table s)
    (mmu_fine_map_chunks_used s) (l0_table_ttbr1 s) (l1_table_ttbr1 s) (l2_ram_table_ttbr1 s).

#[global, refine] Instance sub_boot_table : Sub (tstate P) bstate := {
  sub_get := b_tab;
  sub_set := λ p s, s <| b_tab := p |>;
}.
Proof. all: intros; by destruct t. Defined.

#[global] Instance sub_boot_machine : Sub machine bstate := sub_trans sub_table_machine sub_boot_table.

(** ** The boot map *)

Definition alloc_named_table_page (name : string) : M bstate Z :=
  up (mmu_table_alloc_named_page name).

(** [if ( !*l ) *l = alloc_named_table_page(name)] on one of the root pointers. *)
Definition ensure_table (ptr : Z) (name : string) : M bstate Z :=
  if ptr =? 0 then alloc_named_table_page name else mret ptr.

(** The body of the fine-mapping loop for one 2 MiB chunk. *)
Definition fine_map_chunk (ld : layout) (l2 : Z) (prefix : string) (chunk_base : Z) : M bstate bool :=
  let chunk_index := u64 (chunk_base - QEMU_VIRT_RAM_BASE) / MMU_L2_BLOCK_SIZE in
  l3_table ← up (mmu_table_alloc_chunk_page prefix chunk_index);
  if l3_table =? 0 then mret false else
  up (store64 (entry_at l2 (L2_INDEX_FOR chunk_base)) (Z.lor l3_table MMU_DESC_TABLE)) ;;
  forM_ (upto 0 (MMU_L2_BLOCK_SIZE / PAGE_SIZE)) (λ k,
    let address := chunk_base + PAGE_SIZE * k in
    let attrs := mmu_kernel_page_attrs ld address in
    whenM (negb (attrs =? 0))
      (up (store64 (entry_at l3_table (L3_INDEX_FOR address)) (bits [address; attrs; MMU_DESC_PAGE])))) ;;
  mret true.

(** The bases [for (b = start; b < stop; b += MMU_L2_BLOCK_SIZE)] visits. *)
Definition chunks (start stop : Z) : list Z :=
  (λ k, start + MMU_L2_BLOCK_SIZE * k) <$>
  upto 0 ((stop - start + (MMU_L2_BLOCK_SIZE - 1)) / MMU_L2_BLOCK_SIZE).

Definition fine_map_end (ld : layout) : Z :=
  let kernel_map_end := MMU_ALIGN_UP (va_to_pa (kernel_end ld)) MMU_L2_BLOCK_SIZE in
  let minimum_map_end :=
    QEMU_VIRT_RAM_BASE + MMU_KERNEL_FINE_MAP_MIN_CHUNKS * MMU_L2_BLOCK_SIZE in
  if kernel_map_end <? minimum_map_end then minimum_map_end else kernel_map_end.

(** [build_generic_boot_map] after the three root tables exist. *)
Definition fill_boot_map (ld : layout) (l0 l1 l2 : Z) (prefix : string) : M bstate bool :=
  up (store64 (entry_at l1 (L1_INDEX_FOR 0)) (Z.lor ATTRS_DEVICE MMU_DESC_BLOCK)) ;;
  up (store64 (entry_at l0 (L0_INDEX_FOR 0)) (Z.lor l1 MMU_DESC_TABLE)) ;;
  up (store64 (entry_at l1 (L1_INDEX_FOR QEMU_VIRT_RAM_BASE)) (Z.lor l2 MMU_DESC_TABLE)) ;;
  let fine_end := fine_map_end ld in
  ram_table ← gets mmu_l2_ram_table;
  whenM (l2 =? ram_table)
    (modify (λ s, s <| mmu_fine_map_chunks_used :=
                         u64 (fine_end - QEMU_VIRT_RAM_BASE) / MMU_L2_BLOCK_SIZE |>)) ;;
  r ← iterM (chunks QEMU_VIRT_RAM_BASE fine_end) (λ (_ : unit) chunk_base,
        ok ← fine_map_chunk ld l2 prefix chunk_base;
        mret (if ok : bool then inl () else inr ())) ();
  match r with
  | inr _ => mret false
  | inl _ =>
      forM_ (chunks fine_end (QEMU_VIRT_RAM_BASE + QEMU_VIRT_RAM_SIZE)) (λ address,
        up (store64 (entry_at l2 (L2_INDEX_FOR address)) (bits [address; ATTRS_RW; MMU_DESC_BLOCK]))) ;;
      mret true
  end.

Definition mmu_build_identity_map (ld : layout) : M bstate bool :=
  p ← gets mmu_l0_table; l0 ← ensure_table p "id";
  modify (λ s, s <| mmu_l0_table := l0 |>) ;;
  p ← gets mmu_l1_table; l1 ← ensure_table p "id";
  modify (λ s, s <| mmu_l1_table := l1 |>) ;;
  p ← gets mmu_l2_ram_table; l2 ← ensure_table p "id";
  modify (λ s, s <| mmu_l2_ram_table := l2 |>) ;;
  if (l0 =? 0) || (l1 =? 0) || (l2 =? 0) then mret false
  else fill_boot_map ld l0 l1 l2 "id".

Definition build_kernel_map (ld : layout) : M bstate bool :=
  p ← gets l0_table_ttbr1; l0 ← ensure_table p "t1-";
  modify (λ s, s <| l0_table_ttbr1 := l0 |>) ;;
  p ← gets l1_table_ttbr1; l1 ← ensure_table p "t1-";
  modify (λ s, s <| l1_table_ttbr1 := l1 |>) ;;
  p ← gets l2_ram_table_ttbr1; l2 ← ensure_table p "t1-";
  modify (λ s, s <| l2_ram_table_ttbr1 := l2 |>) ;;
  if (l0 =? 0) || (l1 =? 0) || (l2 =? 0) then mret false
  else fill_boot_map ld l0 l1 l2 "t1-".

(** ** mmu.c *)

Definition set_sysreg (name : string) (value : Z) : M bstate unit :=
  up (emit (Ev_sysreg name value)).

Definition MAIR_VALUE : Z :=
  Z.lor (Z.shiftl MMU_MAIR_DEVICE_nGnRnE 0) (Z.shiftl MMU_MAIR_NORMAL_WBWA 8).
Definition TCR_VALUE : Z :=
  bits [MMU_T0SZ; Z.shiftl 1 8; Z.shiftl 1 10; Z.shiftl 3 12; Z.shiftl 0 14; Z.shiftl 0 22;
        MMU_T1SZ; Z.shiftl 1 24; Z.shiftl 1 26; Z.shiftl 3 28; MMU_TG1_4K; MMU_TCR_IPS_48BIT].
Definition SCTLR_VALUE : Z := bits [SCTLR_EL1_RES1; SCTLR_EL1_M; SCTLR_EL1_C; SCTLR_EL1_I].

Definition mmu_setup_core : M bstate unit :=
  set_sysreg "mair_el1" MAIR_VALUE ;;
  set_sysreg "tcr_el1" TCR_VALUE ;;
  ttbr0 ← gets mmu_l0_table;
  up (emit (Ev_ttbr0 ttbr0)) ;;
  ttbr1 ← gets l0_table_ttbr1;
  set_sysreg "ttbr1_el1" ttbr1 ;;
  up (emit Ev_tlbi_all) ;;
  set_sysreg "sctlr_el1" SCTLR_VALUE.

Definition mmu_init (ld : layout) : M bstate unit :=
  enabled ← up mmu_is_enabled;
  if (enabled : bool) then mret () else
  up mmu_table_registry_reset ;;
  ok ← mmu_build_identity_map ld;
  if negb ok then mret () else
  ok ← build_kernel_map ld;
  if negb ok then mret () else
  mmu_setup_core ;;
  up (modify (λ m, m <| m_mmu_enabled := true |>)).

Definition mmu_init_secondary : M bstate unit := mmu_setup_core.

End boot.

Arguments bstate : clear implicits.
Arguments BState {P} _ _ _ _ _ _ _ _.
