(* ===== verification/Vmsa.v ===== *)
(** * Address spaces: src/src/kernel/mmu_vmsa.c, the contexts

    The statics of mmu_vmsa.c, the [mm_context] objects by their address and
    the [process] objects whose regions the fault handler reads.  An access to
    an object that was never allocated or was freed has no outcome.  This file
    holds ASID allocation, page ownership, and the life of a context: creation,
    references, installation on a CPU, the TLB shootdown and the deferred
    release.  The page-table walks are in VmsaWalk, faults and user copies in
    VmsaFault.  [cpu_id] is what [arch_get_cpu_id] returns on the calling CPU. *)

From S2P Require Import Prelude Machine MmuTable MmuBoot.

Open Scope kernel_scope.

Definition MM_MAX_TRACKED_PAGES : Z := 256.
Definition MMU_ASID_MAX : Z := 255.
Definition MMU_SHOOTDOWN_SGI : Z := 1.
Definition MMU_CPU_MASK_ALL : Z := 0x0f.
Definition MMU_CPUS : Z := 4.
Definition SIZEOF_MM_CONTEXT : Z := 2088.

(** [struct mm_context]; [mm_pages] is the first [page_count] entries of
    [pages]. *)
Record mm_context : Type := MmContext {
  mm_root_pa : Z;
  mm_asid : Z;
  mm_refs : Z;
  mm_dying : Z;
  mm_active_cpu_mask : Z;
  mm_pages : list Z;
}.

#[export] Instance eta_mm_context : Eta mm_context := λ c,
  MmContext (mm_root_pa c) (mm_asid c) (mm_refs c) (mm_dying c)
    (mm_active_cpu_mask c) (mm_pages c).

Definition mm_page_count (c : mm_context) : Z := Z.of_nat (length (mm_pages c)).

(** process.h *)
Inductive vm_type : Type := VM_TYPE_ANON | VM_TYPE_ELF | VM_TYPE_HEAP.

Record vm_region : Type := VmRegion {
  vr_start : Z;
  vr_end : Z;
  vr_type : vm_type;
  vr_flags : Z;
  vr_elf_image : Z;
  vr_elf_offset : Z;
  vr_file_size : Z;
}.

#[export] Instance eta_vm_region : Eta vm_region := λ r,
  VmRegion (vr_start r) (vr_end r) (vr_type r) (vr_flags r) (vr_elf_image r)
    (vr_elf_offset r) (vr_file_size r).

Definition PROCESS_VM_REGIONS_MAX : Z := 16.

(** [pr_regions] and [pr_owned_images] are the used prefixes of the arrays. *)
Record process : Type := Process {
  pr_name : string;
  pr_mm : Z;
  pr_entry_va : Z;
  pr_stack_top : Z;
  pr_heap_start : Z;
  pr_brk : Z;
  pr_heap_limit : Z;
  pr_heap_mapped_end : Z;
  pr_regions : list vm_region;
  pr_owned_images : list Z;
  pr_user_sp : Z;
  pr_ref_count : Z;
  pr_exec_in_progress : Z;
}.

#[export] Instance eta_process : Eta process := λ p,
  Process (pr_name p) (pr_mm p) (pr_entry_va p) (pr_stack_top p) (pr_heap_start p)
    (pr_brk p) (pr_heap_limit p) (pr_heap_mapped_end p) (pr_regions p)
    (pr_owned_images p) (pr_user_sp p) (pr_ref_count p) (pr_exec_in_progress p).

(** [1U << cpu_id]. *)
Definition cpu_bit (cpu_id : Z) : Z := Z.shiftl 1 cpu_id.

Section vmsa.
Context {P : Type} `{FrameEnv P}.

Record vstate : Type := VState {
  v_boot : bstate P;
  ttbr0_runtime_empty_root : Z;
  next_asid : Z;
  asid_bitmap : gmap Z Z;
  mm_contexts : gmap Z mm_context;
  mmu_cpu_context : gmap Z Z;
  mmu_shootdown_asid : Z;
  mmu_shootdown_pending_mask : Z;
  processes : gmap Z process;
}.

#[global] Instance eta_vstate : Eta vstate := λ s,
  VState (v_boot s) (ttbr0_runtime_empty_root s) (next_asid s) (asid_bitmap s)
    (mm_contexts s) (mmu_cpu_context s) (mmu_shootdown_asid s)
    (mmu_shootdown_pending_mask s) (processes s).

#[global, refine] Instance sub_vm_boot : Sub (bstate P) vstate := {
  sub_get := v_boot;
  sub_set := λ p s, s <| v_boot := p |>;
}.
Proof. all: intros; by destruct t. Defined.

#[global] Instance sub_vm_table : Sub (tstate P) vstate := sub_trans sub_boot_table sub_vm_boot.
#[global] Instance sub_vm_env : Sub P vstate := sub_trans sub_table_env sub_vm_table.
#[global] Instance sub_vm_machine : Sub machine vstate := sub_trans fe_sub sub_vm_env.

Definition vlock (l : lock) : M vstate unit := up (spin_lock_irqsave l).
Definition vunlock (l : lock) : M vstate unit := up (spin_unlock_irqrestore l).
Definition ker_logf (message : string) (arg : Z) : M vstate unit := up (emit (Ev_warn message arg)).
Definition gic_send_ipi (mask intid : Z) : M vstate unit := up (emit (Ev_ipi mask intid)).
Definition mmu_set_ttbr0 (value : Z) : M vstate unit := up (emit (Ev_ttbr0 value)).
Definition mmu_invalidate_tlb_all : M vstate unit := up (emit Ev_tlbi_all).
Definition mmu_invalidate_tlb_asid (asid : Z) : M vstate unit := up (emit (Ev_tlbi_asid asid)).
Definition mmu_invalidate_tlb_va (asid va : Z) : M vstate unit := up (emit (Ev_tlbi_va asid va)).

Definition vm_page_alloc : M vstate Z := up (S := P) fe_alloc.
Definition vm_page_free (pa : Z) : M vstate unit := up (S := P) (fe_free pa).
Definition vm_page_ref_inc (pa : Z) : M vstate unit := up (S := P) (fe_ref_inc pa).
Definition vm_page_ref_dec (pa : Z) : M vstate Z := up (S := P) (fe_ref_dec pa).
Definition vm_page_ref_get (pa : Z) : M vstate Z := up (S := P) (fe_ref_get pa).

(** [*mm] and an update of [*mm]. *)
Definition get_mm (mm : Z) : M vstate mm_context :=
  λ s, match mm_contexts s !! mm with Some c => Some (c, s) | None => None end.
Definition upd_mm (mm : Z) (f : mm_context → mm_context) : M vstate unit :=
  λ s, match mm_contexts s !! mm with
       | Some c => Some ((), s <| mm_contexts := <[mm := f c]> (mm_contexts s) |>)
       | None => None
       end.
(** [spin_lock_irqsave(&mm->lock)]: the object must exist. *)
Definition lock_mm (mm : Z) : M vstate unit := get_mm mm ;; vlock (L_mm mm).
(** [kfree(mm)]. *)
Definition free_mm (mm : Z) : M vstate unit :=
  modify (λ s, s <| mm_contexts := delete mm (mm_contexts s) |>) ;;
  up (S := P) (fe_kfree mm).

(** ** The empty TTBR0 root *)

Definition mmu_install_empty_ttbr0_root : M vstate unit :=
  enabled ← up mmu_is_enabled;
  if negb enabled then mret () else
  root ← gets ttbr0_runtime_empty_root;
  l0 ← gets (λ s, mmu_l0_table (v_boot s));
  if negb (root =? 0) && (l0 =? root) then mret () else
  new_root ← vm_page_alloc;
  if new_root =? 0 then ker_logf "ttbr0 empty-root install failed: no free pages" 0 else
  forM_ (upto 0 512) (λ i, up (store64 (entry_at new_root i) 0)) ;;
  mmu_set_ttbr0 new_root ;;
  mmu_invalidate_tlb_all ;;
  modify (λ s, s <| ttbr0_runtime_empty_root := new_root |>) ;;
  up (modify (λ b : bstate P, b <| mmu_l0_table := new_root |> <| mmu_l1_table := 0 |>
                                <| mmu_l2_ram_table := 0 |>)) ;;
  up (mmu_table_release_boot_ttbr0 new_root).

(** ** ASIDs *)

Definition mmu_tlbi_asid (asid : Z) : M vstate unit :=
  if asid =? 0 then mret () else mmu_invalidate_tlb_asid asid.

Definition asid_word (s : vstate) (asid : Z) : Z := default 0 (asid_bitmap s !! (asid / 64)).

Definition mmu_asid_set (asid : Z) : M vstate unit :=
  modify (λ s, s <| asid_bitmap :=
    <[asid / 64 := Z.lor (asid_word s asid) (Z.shiftl 1 (asid mod 64))]> (asid_bitmap s) |>).
Definition mmu_asid_clear (asid : Z) : M vstate unit :=
  modify (λ s, s <| asid_bitmap :=
    <[asid / 64 := Z.land (asid_word s asid) (not64 (Z.shiftl 1 (asid mod 64)))]> (asid_bitmap s) |>).
Definition mmu_asid_test (asid : Z) : M vstate bool :=
  gets (λ s, negb (Z.land (asid_word s asid) (Z.shiftl 1 (asid mod 64)) =? 0)).

Definition mmu_asid_alloc : M vstate Z :=
  vlock L_asid ;;
  r ← iterM (upto 0 MMU_ASID_MAX) (λ (_ : unit) (attempts : Z),
        asid ← gets next_asid;
        modify (λ s, s <| next_asid := u32 (next_asid s + 1) |>) ;;
        modify (λ s, if MMU_ASID_MAX <? next_asid s then s <| next_asid := 1 |> else s) ;;
        used ← mmu_asid_test asid;
        if (asid =? 0) || (MMU_ASID_MAX <? asid) || used then mret (inl ()) else
        mmu_asid_set asid ;;
        mmu_tlbi_asid asid ;;
        vunlock L_asid ;;
        mret (inr asid)) ();
  match r with
  | inr asid => mret asid
  | inl _ => vunlock L_asid ;; mret 0
  end.

Definition mmu_asid_free (asid : Z) : M vstate unit :=
  if (asid =? 0) || (MMU_ASID_MAX <? asid) then mret () else
  vlock L_asid ;;
  used ← mmu_asid_test asid;
  if negb used then vunlock L_asid else
  mmu_tlbi_asid asid ;;
  mmu_asid_clear asid ;;
  vunlock L_asid.

(** ** Owned pages *)

Definition mmu_context_has_page_locked (mm pa : Z) : M vstate bool :=
  if mm =? 0 then mret false else
  c ← get_mm mm;
  mret (existsb (Z.eqb pa) (mm_pages c)).

Definition mmu_context_add_page_locked (mm pa : Z) : M vstate bool :=
  if (mm =? 0) || (pa =? 0) then mret false else
  has ← mmu_context_has_page_locked mm pa;
  if (has : bool) then mret true else
  c ← get_mm mm;
  if MM_MAX_TRACKED_PAGES <=? mm_page_count c then mret false else
  upd_mm mm (λ c, c <| mm_pages := mm_pages c ++ [pa] |>) ;;
  mret true.

(** The search and the shift of the tail: the first occurrence goes away. *)
Fixpoint remove_first (pa : Z) (l : list Z) : option (list Z) :=
  match l with
  | [] => None
  | x :: l' => if x =? pa then Some l' else (λ r, x :: r) <$> remove_first pa l'
  end.

Definition mmu_context_remove_page_locked (mm pa : Z) : M vstate bool :=
  if (mm =? 0) || (pa =? 0) then mret false else
  c ← get_mm mm;
  match remove_first pa (mm_pages c) with
  | None => mret false
  | Some l => upd_mm mm (λ c, c <| mm_pages := l |>) ;; mret true
  end.

Definition mmu_context_add_page (mm pa : Z) : M vstate bool :=
  if (mm =? 0) || (pa =? 0) then mret false else
  lock_mm mm ;;
  result ← mmu_context_add_page_locked mm pa;
  vunlock (L_mm mm) ;;
  mret result.

Definition mmu_context_remove_page (mm pa : Z) : M vstate bool :=
  if (mm =? 0) || (pa =? 0) then mret false else
  lock_mm mm ;;
  result ← mmu_context_remove_page_locked mm pa;
  vunlock (L_mm mm) ;;
  mret result.

(** ** Creation, references and release *)

Definition mmu_context_create : M vstate Z :=
  mm ← up (S := P) (fe_kmalloc SIZEOF_MM_CONTEXT);
  if mm =? 0 then mret 0 else
  root ← vm_page_alloc;
  if root =? 0 then free_mm mm ;; mret 0 else
  asid ← mmu_asid_alloc;
  modify (λ s, s <| mm_contexts := <[mm := MmContext root asid 1 0 0 []]> (mm_contexts s) |>) ;;
  if asid =? 0 then vm_page_free root ;; free_mm mm ;; mret 0 else
  added ← mmu_context_add_page mm root;
  if negb added then vm_page_free root ;; mmu_asid_free asid ;; free_mm mm ;; mret 0 else
  mret mm.

Definition mmu_context_get (mm : Z) : M vstate bool :=
  if mm =? 0 then mret false else
  vlock L_lifecycle ;;
  c ← get_mm mm;
  let acquired := negb (mm_refs c =? 0) && (mm_dying c =? 0) in
  whenM acquired (upd_mm mm (λ c, c <| mm_refs := u32 (mm_refs c + 1) |>)) ;;
  vunlock L_lifecycle ;;
  mret acquired.

Definition mmu_context_release (mm : Z) : M vstate unit :=
  lock_mm mm ;;
  c ← get_mm mm;
  upd_mm mm (λ c, c <| mm_pages := [] |>) ;;
  vunlock (L_mm mm) ;;
  mmu_tlbi_asid (mm_asid c) ;;
  forM_ (reverse (mm_pages c)) (λ pa, whenM (negb (pa =? 0)) (vm_page_free pa)) ;;
  mmu_asid_free (mm_asid c) ;;
  free_mm mm.

Definition mmu_context_put (mm : Z) : M vstate unit :=
  if mm =? 0 then mret () else
  vlock L_lifecycle ;;
  c ← get_mm mm;
  if mm_refs c =? 0 then vunlock L_lifecycle else
  let refs := mm_refs c - 1 in
  upd_mm mm (λ c, c <| mm_refs := refs |>) ;;
  whenM (refs =? 0) (upd_mm mm (λ c, c <| mm_dying := 1 |>)) ;;
  let release := (refs =? 0) && (mm_active_cpu_mask c =? 0) in
  vunlock L_lifecycle ;;
  whenM release (mmu_context_release mm).

Definition mmu_context_destroy (mm : Z) : M vstate unit := mmu_context_put mm.

(** [mmu_cpu_context[cpu_id]], an array of four. *)
Definition cpu_context (s : vstate) (cpu_id : Z) : Z := default 0 (mmu_cpu_context s !! cpu_id).
Definition get_cpu_context (cpu_id : Z) : M vstate Z :=
  λ s, if (0 <=? cpu_id) && (cpu_id <? MMU_CPUS) then Some (cpu_context s cpu_id, s) else None.
Definition set_cpu_context (cpu_id mm : Z) : M vstate unit :=
  λ s, if (0 <=? cpu_id) && (cpu_id <? MMU_CPUS)
       then Some ((), s <| mmu_cpu_context := <[cpu_id := mm]> (mmu_cpu_context s) |>) else None.

(** [old_mm] leaves the CPU; the result is [release_mm]. *)
Definition switch_out (cpu_id old_mm : Z) : M vstate Z :=
  if old_mm =? 0 then mret 0 else
  upd_mm old_mm (λ c, c <| mm_active_cpu_mask :=
                         Z.land (mm_active_cpu_mask c) (not32 (cpu_bit cpu_id)) |>) ;;
  c ← get_mm old_mm;
  mret (if negb (mm_dying c =? 0) && (mm_refs c =? 0) && (mm_active_cpu_mask c =? 0)
        then old_mm else 0).

(** [mm], unless it is null or dying, is installed; the result is the value
    of TTBR0. *)
Definition switch_in (cpu_id mm : Z) : M vstate Z :=
  live ← (if mm =? 0 then mret false else
          c ← get_mm mm; mret ((mm_dying c =? 0) && negb (mm_refs c =? 0)));
  if (live : bool) then
    upd_mm mm (λ c, c <| mm_active_cpu_mask := Z.lor (mm_active_cpu_mask c) (cpu_bit cpu_id) |>) ;;
    set_cpu_context cpu_id mm ;;
    c ← get_mm mm;
    mret (Z.lor (mm_root_pa c) (Z.shiftl (mm_asid c) 48))
  else
    set_cpu_context cpu_id 0 ;;
    root ← gets ttbr0_runtime_empty_root;
    mret (va_to_pa root).

Definition mmu_context_switch (cpu_id mm : Z) : M vstate unit :=
  enabled ← up mmu_is_enabled;
  if negb enabled then mret () else
  vlock L_lifecycle ;;
  old_mm ← get_cpu_context cpu_id;
  release_mm ← switch_out cpu_id old_mm;
  ttbr0_val ← switch_in cpu_id mm;
  vunlock L_lifecycle ;;
  mmu_set_ttbr0 ttbr0_val ;;
  mmu_invalidate_tlb_all ;;
  if release_mm =? 0 then mret () else mmu_context_release release_mm.

(** ** TLB shootdown

    [mmu_context_shootdown] waits for other CPUs in its loop, so it is cut
    there: [shootdown_begin] runs up to the loop, [shootdown_poll] is one
    iteration, [shootdown_end] what follows. *)

Definition mmu_handle_shootdown_ipi (cpu_id : Z) : M vstate unit :=
  if 4 <=? cpu_id then mret () else
  vlock L_shootdown_state ;;
  pending ← gets mmu_shootdown_pending_mask;
  if Z.land pending (cpu_bit cpu_id) =? 0 then vunlock L_shootdown_state else
  asid ← gets mmu_shootdown_asid;
  vunlock L_shootdown_state ;;
  mmu_tlbi_asid asid ;;
  vlock L_shootdown_state ;;
  modify (λ s, s <| mmu_shootdown_pending_mask :=
                 Z.land (mmu_shootdown_pending_mask s) (not32 (cpu_bit cpu_id)) |>) ;;
  vunlock L_shootdown_state.

(** [false]: the early returns, with nothing to wait for. *)
Definition shootdown_begin (cpu_id mm : Z) : M vstate bool :=
  enabled ← up mmu_is_enabled;
  if (mm =? 0) || negb enabled then mret false else
  if 4 <=? cpu_id then mret false else
  let local_bit := cpu_bit cpu_id in
  vlock L_shootdown ;;
  vlock L_lifecycle ;;
  c ← get_mm mm;
  let target_mask := Z.land (Z.land (mm_active_cpu_mask c) MMU_CPU_MASK_ALL) (not32 local_bit) in
  vunlock L_lifecycle ;;
  vlock L_shootdown_state ;;
  modify (λ s, s <| mmu_shootdown_asid := mm_asid c |>
                 <| mmu_shootdown_pending_mask := target_mask |>) ;;
  vunlock L_shootdown_state ;;
  mmu_tlbi_asid (mm_asid c) ;;
  whenM (negb (target_mask =? 0)) (gic_send_ipi target_mask MMU_SHOOTDOWN_SGI) ;;
  mret true.

(** The loop's exit test: [true] when no acknowledgement is pending. *)
Definition shootdown_poll : M vstate bool :=
  vlock L_shootdown_state ;;
  pending ← gets mmu_shootdown_pending_mask;
  vunlock L_shootdown_state ;;
  mret (pending =? 0).

Definition shootdown_end : M vstate unit := vunlock L_shootdown.

(** The whole call when no other CPU has the context installed: the loop
    exits at its first test. *)
Definition mmu_context_shootdown (cpu_id mm : Z) : M vstate bool :=
  waits ← shootdown_begin cpu_id mm;
  if negb waits then mret false else
  finished ← shootdown_poll;
  if (finished : bool) then shootdown_end ;; mret true else ub.

End vmsa.

Arguments vstate : clear implicits.
Arguments VState {P} _ _ _ _ _ _ _ _ _.
