(* ===== verification/VmsaWalk.v ===== *)
(** * Address spaces: src/src/kernel/mmu_vmsa.c, the page tables

    Sub-table allocation, the walks with and without creation, block splitting
    and merging, mapping and unmapping of pages, and the copy-on-write clone.
    A table is reached through the kernel's linear map. *)

From S2P Require Import Prelude Machine MmuTable MmuBoot Vmsa.

Open Scope kernel_scope.

Definition MMU_USER_PAGE_NORMAL : Z := Z.shiftl 1 2.
Definition MMU_USER_PAGE_AF : Z := Z.shiftl 1 10.
Definition MMU_USER_PAGE_INNER_SH : Z := Z.shiftl 3 8.
Definition MMU_USER_PAGE_AP_RO : Z := Z.shiftl 3 6.
Definition MMU_USER_PAGE_AP_RW : Z := Z.shiftl 1 6.
Definition MMU_USER_PAGE_UXN : Z := Z.shiftl 1 54.
Definition MMU_USER_PAGE_PXN : Z := Z.shiftl 1 53.
Definition MMU_NG : Z := Z.shiftl 1 11.

(** Tests and fields of a descriptor. *)
Definition desc_valid (e : Z) : bool := negb (Z.land e MMU_DESC_VALID =? 0).
Definition desc_type (e : Z) : Z := Z.land e MMU_DESC_TYPE_MASK.
Definition desc_table (e : Z) : bool := desc_valid e && (desc_type e =? MMU_DESC_TABLE).
Definition desc_page (e : Z) : bool := desc_valid e && (desc_type e =? MMU_DESC_PAGE).
Definition desc_block (e : Z) : bool := desc_valid e && (desc_type e =? MMU_DESC_BLOCK).
Definition desc_addr (e : Z) : Z := Z.land e MMU_DESC_ADDR_MASK.
Definition desc_attrs (e : Z) : Z := Z.land e (not64 MMU_DESC_ADDR_MASK).

(** The descriptor [mmu_map_user_page_locked] installs. *)
Definition page_desc (pa flags : Z) : Z :=
  bits [Z.land pa MMU_L3_PAGE_ADDR_MASK; flags; MMU_DESC_PAGE; MMU_NG].

(** A leaf marked copy-on-write by the clone. *)
Definition cow_desc (entry : Z) : Z :=
  bits [Z.land entry (not64 MMU_AP_RW); MMU_AP_RO; MMU_DESC_SOFTWARE_COW].

Definition mmu_user_access_allowed (entry : Z) (write : bool) : bool :=
  let ap_bits := Z.land entry (Z.shiftl 3 6) in
  if write then ap_bits =? MMU_USER_PAGE_AP_RW
  else (ap_bits =? MMU_USER_PAGE_AP_RW) || (ap_bits =? MMU_USER_PAGE_AP_RO).

Section walk.
Context {P : Type} `{FrameEnv P}.

(** [table[index]] and [table[index] = v] through the pointer [table]. *)
Definition load_entry (table index : Z) : M (vstate P) Z := up (load64 (entry_at table index)).
Definition store_entry (table index v : Z) : M (vstate P) unit :=
  up (store64 (entry_at table index) v).

Definition zero_table (table : Z) : M (vstate P) unit :=
  forM_ (upto 0 512) (λ i, store_entry table i 0).

(** The result is the physical address, 0 on failure. *)
Definition mmu_alloc_sub_table_locked (mm : Z) (name : string) : M (vstate P) Z :=
  new_page ← vm_page_alloc;
  if new_page =? 0 then mret 0 else
  added ← mmu_context_add_page_locked mm (va_to_pa new_page);
  if negb added then vm_page_free new_page ;; mret 0 else
  zero_table (pa_to_va (va_to_pa new_page)) ;;
  up (mmu_table_record_page (va_to_pa new_page) name) ;;
  mret new_page.

(** ** Walks *)

(** One level of [mmu_resolve_user_page_desc]: the address of the next table. *)
Definition next_table (table index : Z) : M (vstate P) (option Z) :=
  entry ← load_entry table index;
  mret (if desc_table entry then Some (pa_to_va (desc_addr entry)) else None).

(** The address of the L3 entry. *)
Definition mmu_resolve_user_page_desc (mm va : Z) : M (vstate P) (option Z) :=
  if mm =? 0 then mret None else
  c ← get_mm mm;
  l1 ← next_table (pa_to_va (mm_root_pa c)) (L0_INDEX_FOR va);
  match l1 with None => mret None | Some l1 =>
  l2 ← next_table l1 (L1_INDEX_FOR va);
  match l2 with None => mret None | Some l2 =>
  l3 ← next_table l2 (L2_INDEX_FOR va);
  match l3 with None => mret None | Some l3 =>
  mret (Some (entry_at l3 (L3_INDEX_FOR va)))
  end end end.

(** The page's physical address and its entry. *)
Definition mmu_resolve_user_page (mm va : Z) : M (vstate P) (option (Z * Z)) :=
  ptr ← mmu_resolve_user_page_desc mm va;
  match ptr with
  | None => mret None
  | Some ptr =>
      entry ← up (load64 ptr);
      mret (if desc_page entry then Some (Z.land entry MMU_L3_PAGE_ADDR_MASK, entry) else None)
  end.

Definition mmu_user_page_pa (mm va : Z) : M (vstate P) (option Z) :=
  if mm =? 0 then mret None else
  lock_mm mm ;;
  resolved ← mmu_resolve_user_page mm va;
  vunlock (L_mm mm) ;;
  mret (fst <$> resolved).

Definition mmu_split_block_locked (mm entry_ptr level : Z) : M (vstate P) unit :=
  entry ← up (load64 entry_ptr);
  let block_pa := desc_addr entry in
  let block_attrs := desc_attrs entry in
  let step := if level =? 1 then MMU_L2_BLOCK_SIZE else PAGE_SIZE in
  let next_type := if level =? 1 then MMU_DESC_BLOCK else MMU_DESC_PAGE in
  new_page ← mmu_alloc_sub_table_locked mm (if level =? 1 then "split-l2" else "split-l3");
  if new_page =? 0 then mret () else
  let new_tbl := pa_to_va new_page in
  forM_ (upto 0 512) (λ i,
    store_entry new_tbl i (bits [u64 (block_pa + i * step); block_attrs; next_type])) ;;
  up (store64 entry_ptr (Z.lor (va_to_pa new_page) MMU_DESC_TABLE)).

(** One level of [mmu_find_pte_locked]: split the block found there
    ([level] 0: the level has none), create the missing table, and follow the
    entry.  The result is the next table's address, 0 on failure. *)
Definition find_level (mm table index level : Z) (create : bool) (name : string) : M (vstate P) Z :=
  entry ← load_entry table index;
  let block := negb (level =? 0) && desc_block entry in
  if block && negb create then mret 0 else
  whenM block (mmu_split_block_locked mm (entry_at table index) level) ;;
  entry ← load_entry table index;
  if negb (desc_valid entry) then
    if negb create then mret 0 else
    new_page ← mmu_alloc_sub_table_locked mm name;
    if new_page =? 0 then mret 0 else
    store_entry table index (Z.lor (va_to_pa new_page) MMU_DESC_TABLE) ;;
    entry ← load_entry table index;
    mret (pa_to_va (desc_addr entry))
  else mret (pa_to_va (desc_addr entry)).

(** The address of the L3 table, 0 when there is none. *)
Definition mmu_find_pte_locked (mm va : Z) (create : bool) : M (vstate P) Z :=
  if mm =? 0 then mret 0 else
  c ← get_mm mm;
  l1 ← find_level mm (pa_to_va (mm_root_pa c)) (L0_INDEX_FOR va) 0 create "l1";
  if l1 =? 0 then mret 0 else
  l2 ← find_level mm l1 (L1_INDEX_FOR va) 1 create "l2";
  if l2 =? 0 then mret 0 else
  find_level mm l2 (L2_INDEX_FOR va) 2 create "l3".

(** ** Mapping *)

Definition mmu_map_user_page_locked (mm va pa flags : Z) : M (vstate P) bool :=
  if mm =? 0 then mret false else
  l3 ← mmu_find_pte_locked mm va true;
  if l3 =? 0 then mret false else
  store_entry l3 (L3_INDEX_FOR va) (page_desc pa flags) ;;
  c ← get_mm mm;
  mmu_invalidate_tlb_va (mm_asid c) va ;;
  mret true.

Definition mmu_map_user_page (mm va pa flags : Z) : M (vstate P) bool :=
  if mm =? 0 then mret false else
  lock_mm mm ;;
  result ← mmu_map_user_page_locked mm va pa flags;
  vunlock (L_mm mm) ;;
  mret result.

(** ** Merging and unmapping *)

(** The scan of [mmu_try_merge_table_locked]: the base address and attributes
    when the 512 entries form one block. *)
Definition merge_scan (table block_size sub_step sub_type : Z) : M (vstate P) (option (Z * Z)) :=
  r ← iterM (upto 0 512) (λ '(base_pa, base_attrs) i,
        e ← load_entry table i;
        if negb (desc_valid e) || negb (desc_type e =? sub_type) then mret (inr ()) else
        let cur_pa := desc_addr e in
        let cur_attrs := desc_attrs e in
        if i =? 0 then
          if negb (Z.land cur_pa (block_size - 1) =? 0) then mret (inr ())
          else mret (inl (cur_pa, cur_attrs))
        else if negb (cur_pa =? u64 (base_pa + i * sub_step)) || negb (cur_attrs =? base_attrs)
             then mret (inr ())
             else mret (inl (base_pa, base_attrs))) (0, 0);
  mret (match r with inl b => Some b | inr _ => None end).

(** [levels] bounds the recursion; the code starts at level 3 and recurses
    once, to level 2. *)
Fixpoint mmu_try_merge_table_locked (levels : nat) (mm va level : Z) : M (vstate P) unit :=
  let block_size := if level =? 2 then MMU_L1_BLOCK_SIZE else MMU_L2_BLOCK_SIZE in
  let sub_step := if level =? 2 then MMU_L2_BLOCK_SIZE else PAGE_SIZE in
  let sub_type := if level =? 2 then MMU_DESC_BLOCK else MMU_DESC_PAGE in
  c ← get_mm mm;
  let l0 := pa_to_va (mm_root_pa c) in
  e0 ← load_entry l0 (L0_INDEX_FOR va);
  let l1 := pa_to_va (desc_addr e0) in
  table ← (if level =? 2 then mret l1 else
           e1 ← load_entry l1 (L1_INDEX_FOR va);
           let l2 := pa_to_va (desc_addr e1) in
           if level =? 3 then
             e2 ← load_entry l2 (L2_INDEX_FOR va);
             mret (pa_to_va (desc_addr e2))
           else mret l2);
  scan ← merge_scan table block_size sub_step sub_type;
  match scan with
  | None => mret ()
  | Some (base_pa, base_attrs) =>
      parent_table ← (if level =? 2 then mret l0 else
                      if level =? 3 then
                        e1 ← load_entry l1 (L1_INDEX_FOR va);
                        mret (pa_to_va (desc_addr e1))
                      else mret l1);
      let idx := if level =? 2 then L0_INDEX_FOR va
                 else if level =? 3 then L2_INDEX_FOR va else L1_INDEX_FOR va in
      e ← load_entry parent_table idx;
      let table_pa := desc_addr e in
      store_entry parent_table idx
        (bits [base_pa; Z.land base_attrs (not64 MMU_DESC_TYPE_MASK); MMU_DESC_BLOCK]) ;;
      mmu_context_remove_page_locked mm table_pa ;;
      vm_page_free table_pa ;;
      mmu_invalidate_tlb_va (mm_asid c) (Z.land va (not64 (block_size - 1))) ;;
      if 2 <? level then
        match levels with
        | O => ub
        | Datatypes.S levels' => mmu_try_merge_table_locked levels' mm va (level - 1)
        end
      else mret ()
  end.

Definition mmu_unmap_user_page (mm va : Z) : M (vstate P) bool :=
  if mm =? 0 then mret false else
  lock_mm mm ;;
  l3 ← mmu_find_pte_locked mm va false;
  if l3 =? 0 then vunlock (L_mm mm) ;; mret false else
  let idx := L3_INDEX_FOR va in
  entry ← load_entry l3 idx;
  let result := desc_valid entry in
  whenM result
    (store_entry l3 idx 0 ;;
     c ← get_mm mm;
     mmu_invalidate_tlb_va (mm_asid c) va ;;
     mmu_try_merge_table_locked 1 mm va 3) ;;
  vunlock (L_mm mm) ;;
  mret result.

(** The body of the loop of [mmu_unmap_user_range]: [pte] is what
    [mmu_find_pte_locked] returns, the address of the L3 table. *)
Definition unmap_range_page (mm curr : Z) : M (vstate P) unit :=
  pte ← mmu_find_pte_locked mm curr false;
  if pte =? 0 then mret () else
  entry ← up (load64 pte);
  if negb (desc_valid entry) then mret () else
  let pa := desc_addr entry in
  up (store64 pte 0) ;;
  mmu_context_remove_page_locked mm pa ;;
  vm_page_ref_dec pa ;;
  c ← get_mm mm;
  mmu_invalidate_tlb_va (mm_asid c) curr.

Definition mmu_unmap_user_range (mm va len : Z) : M (vstate P) bool :=
  if (mm =? 0) || (len =? 0) then mret true else
  let start := align_down64 va PAGE_SIZE in
  let stop := align_down64 (u64 (va + len + (PAGE_SIZE - 1))) PAGE_SIZE in
  lock_mm mm ;;
  forM_ ((λ k, start + PAGE_SIZE * k) <$> upto 0 ((stop - start) / PAGE_SIZE))
    (unmap_range_page mm) ;;
  vunlock (L_mm mm) ;;
  mret true.

(** ** The copy-on-write clone *)

(** [depth] is [3 - level]. *)
Fixpoint mmu_clone_walk_locked (depth : nat) (dst_mm src_tbl dst_tbl : Z) : M (vstate P) bool :=
  r ← iterM (upto 0 512) (λ (_ : unit) i,
        entry ← load_entry src_tbl i;
        if negb (desc_valid entry) then mret (inl ()) else
        match depth with
        | Datatypes.S depth' =>
            if desc_type entry =? MMU_DESC_TABLE then
              let next_src := pa_to_va (desc_addr entry) in
              next_dst_pa ← vm_page_alloc;
              if next_dst_pa =? 0 then mret (inr ()) else
              added ← mmu_context_add_page_locked dst_mm next_dst_pa;
              if negb added then vm_page_free next_dst_pa ;; mret (inr ()) else
              let next_dst_va := pa_to_va next_dst_pa in
              zero_table next_dst_va ;;
              store_entry dst_tbl i
                (Z.lor (Z.land next_dst_pa MMU_L3_PAGE_ADDR_MASK)
                       (Z.land entry (not64 MMU_L3_PAGE_ADDR_MASK))) ;;
              ok ← mmu_clone_walk_locked depth' dst_mm next_src next_dst_va;
              mret (if ok : bool then inl () else inr ())
            else mret (inl ())
        | O =>
            let pa := Z.land entry MMU_L3_PAGE_ADDR_MASK in
            added ← mmu_context_add_page_locked dst_mm pa;
            if negb added then mret (inr ()) else
            vm_page_ref_inc pa ;;
            store_entry dst_tbl i (cow_desc entry) ;;
            store_entry src_tbl i (cow_desc entry) ;;
            mret (inl ())
        end) ();
  mret (match r with inl _ => true | inr _ => false end).

Definition mmu_context_clone (src : Z) : M (vstate P) Z :=
  if src =? 0 then mret 0 else
  dst ← mmu_context_create;
  if dst =? 0 then mret 0 else
  lock_mm src ;;
  lock_mm dst ;;
  cs ← get_mm src;
  cd ← get_mm dst;
  clone_ok ← mmu_clone_walk_locked 3 dst (pa_to_va (mm_root_pa cs)) (pa_to_va (mm_root_pa cd));
  cs ← get_mm src;
  mmu_invalidate_tlb_asid (mm_asid cs) ;;
  vunlock (L_mm dst) ;;
  vunlock (L_mm src) ;;
  if negb clone_ok then mmu_context_destroy dst ;; mret 0 else
  mret dst.

End walk.
