(* ===== verification/VmsaFault.v ===== *)
(** * Address spaces: src/src/kernel/mmu_vmsa.c, faults and user copies

    The page-fault handler (copy-on-write, lazy regions, the stack and the
    legacy heap) and the copies between the kernel and user memory that call
    it.  [cur] is what [sched_current] returns: the context and the process of
    the current task, or nothing. *)

From S2P Require Import Prelude Machine MmuTable MmuBoot Vmsa VmsaWalk.

Open Scope kernel_scope.

Definition page_base (va : Z) : Z := align_down64 va PAGE_SIZE.

(** The flags of a page of the stack or the legacy heap. *)
Definition ANON_FLAGS : Z :=
  bits [MMU_USER_PAGE_NORMAL; MMU_USER_PAGE_AF; MMU_USER_PAGE_INNER_SH; MMU_USER_PAGE_AP_RW;
        MMU_USER_PAGE_UXN; MMU_USER_PAGE_PXN].

Definition in_region (far : Z) (r : vm_region) : bool := (vr_start r <=? far) && (far <? vr_end r).

(** The search from the last region to the first. *)
Fixpoint search_regions (far : Z) (l : list vm_region) : option vm_region :=
  match l with
  | [] => None
  | r :: l' => if in_region far r then Some r else search_regions far l'
  end.
Definition find_region (far : Z) (regions : list vm_region) : option vm_region :=
  search_regions far (reverse regions).

(** Whether an address outside every region is still backed. *)
Definition fallback_ok (far brk : Z) : bool :=
  ((USER_HEAP_BASE <=? far) && (far <? brk)) ||
  ((USER_STACK_TOP - 0x100000 <=? far) && (far <? USER_STACK_TOP)).

(** The entry after a copy-on-write upgrade in place, and after a copy. *)
Definition upgraded_desc (entry : Z) : Z :=
  Z.lor (Z.land (Z.land entry (not64 MMU_AP_RO)) (not64 MMU_DESC_SOFTWARE_COW)) MMU_AP_RW.
Definition copied_desc (pa entry : Z) : Z :=
  bits [Z.land pa MMU_DESC_ADDR_MASK;
        Z.land (Z.land (Z.land entry (not64 MMU_DESC_ADDR_MASK)) (not64 MMU_AP_RO))
               (not64 MMU_DESC_SOFTWARE_COW);
        MMU_AP_RW].

(** [cur->mm == mm && cur->process]: the process whose faults a copy may
    resolve, 0 when there is none. *)
Definition faulting_process (cur : option (Z * Z)) (mm : Z) : Z :=
  match cur with
  | Some (cur_mm, cur_process) => if cur_mm =? mm then cur_process else 0
  | None => 0
  end.

Section fault.
Context {P : Type} `{FrameEnv P}.

(** [for (i = 0; i < n; i++) dst[i] = src[i]] and [dst[i] = 0] on bytes. *)
Definition copy_bytes (dst src n : Z) : M (vstate P) unit :=
  forM_ (upto 0 n) (λ i, b ← up (load8 (u64 (src + i))); up (store8 (u64 (dst + i)) b)).
Definition zero_bytes (dst n : Z) : M (vstate P) unit :=
  forM_ (upto 0 n) (λ i, up (store8 (u64 (dst + i)) 0)).

Definition get_process (p : Z) : M (vstate P) process :=
  λ s, match processes s !! p with Some x => Some (x, s) | None => None end.

Definition lock_process (p : Z) : M (vstate P) unit := get_process p ;; vlock (L_process p).

(** The new page is tracked, then mapped; it is released when either fails. *)
Definition publish_page (mm page_va new_page flags : Z) : M (vstate P) bool :=
  added ← mmu_context_add_page_locked mm (va_to_pa new_page);
  if negb added then vm_page_free new_page ;; mret false else
  mapped ← mmu_map_user_page_locked mm page_va (va_to_pa new_page) flags;
  if negb mapped then
    mmu_context_remove_page_locked mm (va_to_pa new_page) ;;
    vm_page_free new_page ;;
    mret false
  else mret true.

(** The copy-on-write branch. *)
Definition handle_cow_fault (mm far : Z) : M (vstate P) bool :=
  ptr ← mmu_resolve_user_page_desc mm far;
  match ptr with
  | None => mret false
  | Some cow_entry_ptr =>
      entry ← up (load64 cow_entry_ptr);
      if negb (desc_valid entry && (Z.land entry MMU_AP_RO =? MMU_AP_RO)
               && negb (Z.land entry MMU_DESC_SOFTWARE_COW =? 0))
      then mret false else
      let old_pa := Z.land entry MMU_L3_PAGE_ADDR_MASK in
      let page_va := page_base far in
      c ← get_mm mm;
      ref ← vm_page_ref_get old_pa;
      if ref =? 1 then
        now ← up (load64 cow_entry_ptr);
        up (store64 cow_entry_ptr (upgraded_desc now)) ;;
        mmu_invalidate_tlb_va (mm_asid c) page_va ;;
        ker_logf "CoW: upgraded to RW (ref=1)" page_va ;;
        mret true
      else
        ref ← vm_page_ref_get old_pa;
        ker_logf "CoW: copying" page_va ;;
        copy_page ← vm_page_alloc;
        if copy_page =? 0 then mret false else
        copy_bytes (pa_to_va copy_page) (pa_to_va old_pa) PAGE_SIZE ;;
        added ← mmu_context_add_page_locked mm (va_to_pa copy_page);
        if negb added then vm_page_free copy_page ;; mret false else
        up (store64 cow_entry_ptr (copied_desc (va_to_pa copy_page) entry)) ;;
        mmu_context_remove_page_locked mm old_pa ;;
        vm_page_ref_dec old_pa ;;
        mmu_invalidate_tlb_va (mm_asid c) page_va ;;
        mret true
  end.

(** The file content of the page at [page_va] of an ELF region: its kernel
    address and its length, 0 when the page is past the file's end. *)
Definition elf_source (r : vm_region) (page_va : Z) : Z * Z :=
  let region_offset := u64 (page_va - vr_start r) in
  if negb (vr_elf_image r =? 0) && (region_offset <? vr_file_size r) then
    let copy_len := vr_file_size r - region_offset in
    (u64 (vr_elf_image r + vr_elf_offset r + region_offset),
     if PAGE_SIZE <? copy_len then PAGE_SIZE else copy_len)
  else (0, 0).

(** A fault inside [region]. *)
Definition handle_region_fault (mm far : Z) (region : vm_region) : M (vstate P) bool :=
  let page_va := page_base far in
  new_page ← vm_page_alloc;
  if new_page =? 0 then mret false else
  let dst := pa_to_va new_page in
  zero_bytes dst PAGE_SIZE ;;
  (match vr_type region with
   | VM_TYPE_ELF =>
       let '(src, copy_len) := elf_source region page_va in copy_bytes dst src copy_len
   | _ => mret ()
   end) ;;
  publish_page mm page_va new_page (vr_flags region).

(** A fault of the stack or the legacy heap. *)
Definition handle_fallback_fault (mm far : Z) : M (vstate P) bool :=
  new_page ← vm_page_alloc;
  if new_page =? 0 then mret false else
  publish_page mm (page_base far) new_page ANON_FLAGS.

Definition mmu_handle_process_page_fault_locked (p far esr : Z) : M (vstate P) bool :=
  enabled ← up mmu_is_enabled;
  if negb enabled then mret false else
  if p =? 0 then mret false else
  proc ← get_process p;
  let mm := pr_mm proc in
  if mm =? 0 then mret false else
  let fsc_type := Z.land (Z.land esr 0x3F) 0x3C in
  resolved ← (if fsc_type =? 0x04 then mmu_resolve_user_page mm far else mret None);
  if bool_decide (is_Some resolved) then mret true else
  if fsc_type =? 0x0C then handle_cow_fault mm far else
  if negb (fsc_type =? 0x04) then mret false else
  match find_region far (pr_regions proc) with
  | Some region => handle_region_fault mm far region
  | None => if fallback_ok far (pr_brk proc) then handle_fallback_fault mm far else mret false
  end.

Definition mmu_handle_process_page_fault (p far esr : Z) : M (vstate P) bool :=
  enabled ← up mmu_is_enabled;
  if negb enabled || (p =? 0) then mret false else
  lock_process p ;;
  proc ← get_process p;
  let mm := pr_mm proc in
  if mm =? 0 then vunlock (L_process p) ;; mret false else
  lock_mm mm ;;
  proc ← get_process p;
  if negb (pr_mm proc =? mm) then
    vunlock (L_mm mm) ;; vunlock (L_process p) ;; mret false
  else
  result ← mmu_handle_process_page_fault_locked p far esr;
  vunlock (L_mm mm) ;;
  vunlock (L_process p) ;;
  mret result.

Definition mmu_handle_page_fault (cur : option (Z * Z)) (far esr : Z) : M (vstate P) bool :=
  match cur with
  | None => mret false
  | Some (_, cur_process) =>
      if cur_process =? 0 then mret false
      else mmu_handle_process_page_fault cur_process far esr
  end.

(** ** Copies between kernel and user memory *)

(** A fault taken in software on behalf of the current task. *)
Definition software_fault (cur : option (Z * Z)) (mm va esr : Z) : M (vstate P) bool :=
  let p := faulting_process cur mm in
  if p =? 0 then mret false else mmu_handle_process_page_fault p va esr.

(** One attempt at the page of [user_va]; [inl] of the same locals is the
    code's [goto retry_page]. *)
Definition copy_user_page (cur : option (Z * Z)) (mm : Z) (write_to_user : bool)
    : Z * Z * Z → M (vstate P) (Z * Z * Z + bool) :=
  λ '(kernel_buffer, user_va, len),
    if len =? 0 then mret (inr true) else
    lock_mm mm ;;
    resolved ← mmu_resolve_user_page mm user_va;
    match resolved with
    | None =>
        vunlock (L_mm mm) ;;
        handled ← software_fault cur mm user_va 0x04;
        if (handled : bool) then mret (inl (kernel_buffer, user_va, len)) else
        ker_logf "copy failed: could not resolve" user_va ;; mret (inr false)
    | Some (page_pa, entry) =>
        if negb (mmu_user_access_allowed entry write_to_user) then
          vunlock (L_mm mm) ;;
          handled ← (if write_to_user then software_fault cur mm user_va 0x0F else mret false);
          if (handled : bool) then mret (inl (kernel_buffer, user_va, len)) else
          ker_logf "copy failed: access denied" user_va ;; mret (inr false)
        else
          let page_offset := Z.land user_va (PAGE_SIZE - 1) in
          let room := PAGE_SIZE - page_offset in
          let chunk := if len <? room then len else room in
          let page_va := pa_to_va (page_pa + page_offset) in
          (if write_to_user then copy_bytes page_va kernel_buffer chunk
           else copy_bytes kernel_buffer page_va chunk) ;;
          vunlock (L_mm mm) ;;
          mret (inl (u64 (kernel_buffer + chunk), u64 (user_va + chunk), len - chunk))
    end.

(** A page is tried at most three times: as it is, after a translation fault
    and after a copy-on-write fault. *)
Definition copy_fuel (len : Z) : nat := Z.to_nat (3 * (len / PAGE_SIZE + 2) + 1).

Definition mmu_copy_user_range (cur : option (Z * Z)) (mm kernel_buffer user_va len : Z)
    (write_to_user : bool) : M (vstate P) bool :=
  whileM (copy_fuel len) (copy_user_page cur mm write_to_user) (kernel_buffer, user_va, len).

Definition mmu_copy_from_user (cur : option (Z * Z)) (mm dst src_va len : Z) : M (vstate P) bool :=
  if len =? 0 then mret true else
  if dst =? 0 then mret false else
  mmu_copy_user_range cur mm dst src_va len false.

Definition mmu_copy_to_user (cur : option (Z * Z)) (mm dst_va src len : Z) : M (vstate P) bool :=
  if len =? 0 then mret true else
  if src =? 0 then mret false else
  mmu_copy_user_range cur mm src dst_va len true.

End fault.
