(* ===== verification/VmBits.v ===== *)
(** * Descriptors as bit fields

    The masks of mmu.h by their test bits, and what the descriptors the
    kernel builds decode to. *)

From S2P Require Import Prelude Machine MmuBoot VmsaWalk VmsaFault.

Open Scope kernel_scope.

(** A page of the 48-bit physical address space, not the null one. *)
Definition page_ok (a : Z) : Prop := a mod PAGE_SIZE = 0 ∧ 0 < a < 2 ^ 48.

(** ** Test bits of the constants *)

Lemma tb_mask i : 0 ≤ i → Z.testbit MMU_DESC_ADDR_MASK i = (12 <=? i) && (i <? 48).
Proof.
  intros. change MMU_DESC_ADDR_MASK with (Z.shiftl (Z.ones 36) 12).
  rewrite Z.shiftl_spec, Z.testbit_ones by lia. lia.
Qed.

Lemma tb_not64 x i : 0 ≤ i → Z.testbit (not64 x) i = (i <? 64) && negb (Z.testbit x i).
Proof.
  intros. unfold not64, u64. rewrite <- Z.land_ones, Z.land_spec, Z.lnot_spec, Z.testbit_ones by lia.
  destruct (Z.testbit x i), (i <? 64) eqn:?; lia.
Qed.

Lemma tb_pow2 k i : 0 ≤ k → Z.testbit (2 ^ k) i = (k =? i).
Proof. apply Z.pow2_bits_eqb. Qed.

Lemma tb_3 i : 0 ≤ i → Z.testbit 3 i = (i <? 2).
Proof. intros. change 3 with (Z.ones 2). rewrite Z.testbit_ones by lia. lia. Qed.

Lemma tb_ap i : 0 ≤ i → Z.testbit (Z.shiftl 3 6) i = (6 <=? i) && (i <? 8).
Proof. intros. rewrite Z.shiftl_spec by lia. change 3 with (Z.ones 2). rewrite Z.testbit_ones; lia. Qed.

Lemma tb_aligned a k i : a mod 2 ^ k = 0 → 0 ≤ i < k → Z.testbit a i = false.
Proof. intros Ha Hi. rewrite <- (Z.mod_pow2_bits_low a k i), Ha by lia. apply Z.bits_0. Qed.

Lemma tb_below a k i : 0 ≤ a < 2 ^ k → k ≤ i → Z.testbit a i = false.
Proof.
  intros Ha Hi. destruct (decide (0 ≤ k)).
  - rewrite <- (Z.mod_small a (2 ^ k)) by lia. by apply Z.mod_pow2_bits_high.
  - rewrite Z.pow_neg_r in Ha by lia. lia.
Qed.

Ltac tb_rewrite :=
  unfold bits; cbn [foldr];
  repeat first
    [ rewrite Z.lor_spec | rewrite Z.land_spec | rewrite tb_mask by lia | rewrite tb_not64 by lia
    | rewrite tb_3 by lia | rewrite tb_ap by lia | rewrite tb_pow2 by lia | rewrite Z.bits_0 ].

(** Equality of words by test bits; the atoms are decided bit by bit. *)
Ltac tb_cases :=
  repeat match goal with
  | |- context [Z.testbit ?a ?i] => destruct (Z.testbit a i) eqn:?
  end; try lia.

Lemma page_ok_low a i : page_ok a → 0 ≤ i < 12 → Z.testbit a i = false.
Proof. intros [Ha _]. by apply (tb_aligned a 12). Qed.
Lemma page_ok_high a i : page_ok a → 48 ≤ i → Z.testbit a i = false.
Proof. intros [_ Ha]. apply (tb_below a 48). lia. Qed.

(** ** Fields *)

Lemma land_mask_range e : 0 ≤ Z.land e MMU_DESC_ADDR_MASK < 2 ^ 48 ∧
  Z.land e MMU_DESC_ADDR_MASK mod PAGE_SIZE = 0.
Proof.
  assert (Z.land e MMU_DESC_ADDR_MASK = Z.land e MMU_DESC_ADDR_MASK mod 2 ^ 48) as Hr.
  { rewrite <- Z.land_ones by lia. apply Z.bits_inj'. intros i Hi. tb_rewrite.
    rewrite Z.testbit_ones by lia. tb_cases. }
  split; [rewrite Hr; by apply Z.mod_pos_bound|].
  change PAGE_SIZE with (2 ^ 12). rewrite <- Z.land_ones by lia.
  apply Z.bits_inj'. intros i Hi. tb_rewrite. rewrite Z.testbit_ones by lia. tb_cases.
Qed.

Lemma desc_addr_range e : 0 ≤ desc_addr e < 2 ^ 48 ∧ desc_addr e mod PAGE_SIZE = 0.
Proof. apply land_mask_range. Qed.

Lemma land_mask_page a : page_ok a → Z.land a MMU_DESC_ADDR_MASK = a.
Proof.
  intros Ha. apply Z.bits_inj'. intros i Hi. tb_rewrite.
  destruct (decide (i < 12)); [rewrite (page_ok_low a i) by (done || lia); lia|].
  destruct (decide (48 ≤ i)); [rewrite (page_ok_high a i) by (done || lia); lia|]. tb_cases.
Qed.

(** The low two bits decide the descriptor's kind. *)
Lemma low_bits e : ∃ r, Z.land e 3 = r ∧ (r = 0 ∨ r = 1 ∨ r = 2 ∨ r = 3) ∧
  Z.testbit e 0 = Z.testbit r 0 ∧ Z.testbit e 1 = Z.testbit r 1 ∧
  Z.land e 1 = Z.land r 1.
Proof.
  exists (Z.land e 3). split; [done|]. split.
  - change (Z.land e 3) with (Z.land e (Z.ones 2)). rewrite Z.land_ones by lia.
    change (2 ^ 2) with 4. pose proof (Z.mod_pos_bound e 4 eq_refl). lia.
  - by rewrite !Z.land_spec, !andb_true_r, <- Z.land_assoc.
Qed.

Lemma desc_kinds e :
  desc_valid e = Z.testbit e 0 ∧
  desc_table e = Z.testbit e 0 && Z.testbit e 1 ∧
  desc_page e = Z.testbit e 0 && Z.testbit e 1 ∧
  desc_block e = Z.testbit e 0 && negb (Z.testbit e 1).
Proof.
  unfold desc_table, desc_page, desc_block, desc_valid, desc_type, MMU_DESC_VALID, MMU_DESC_TYPE_MASK.
  destruct (low_bits e) as (r & -> & Hr & -> & -> & ->).
  destruct Hr as [->|[->|[->| ->]]]; done.
Qed.

Lemma desc_table_tb e : desc_table e = Z.testbit e 0 && Z.testbit e 1.
Proof. apply desc_kinds. Qed.
Lemma desc_page_tb e : desc_page e = Z.testbit e 0 && Z.testbit e 1.
Proof. apply desc_kinds. Qed.

Lemma desc_page_valid e : desc_page e = true → desc_valid e = true.
Proof. unfold desc_page. by intros [? _]%andb_true_iff. Qed.

Lemma zero_invalid : desc_valid 0 = false.
Proof. done. Qed.

(** AP[2:1] of a descriptor: bit 6 lets EL0 in, bit 7 takes writes away. *)
Lemma ap_bits e : ∃ r, Z.land e (Z.shiftl 3 6) = Z.shiftl r 6 ∧ (r = 0 ∨ r = 1 ∨ r = 2 ∨ r = 3) ∧
  Z.testbit e 6 = Z.testbit r 0 ∧ Z.testbit e 7 = Z.testbit r 1.
Proof.
  destruct (low_bits (Z.shiftr e 6)) as (r & Hr & Hc & H0 & H1 & _).
  exists r. split; [|split; [done|]].
  - rewrite <- Hr. apply Z.bits_inj'. intros i Hi. rewrite Z.land_spec, tb_ap, Z.shiftl_spec by lia.
    destruct (decide (6 ≤ i)).
    + rewrite Z.land_spec, tb_3, Z.shiftr_spec, Z.sub_add by lia. tb_cases.
    + rewrite (Z.testbit_neg_r _ (i - 6)) by lia. tb_cases.
  - by rewrite <- H0, <- H1, !Z.shiftr_spec by lia.
Qed.

Lemma access_allowed_tb e w :
  mmu_user_access_allowed e w = Z.testbit e 6 && (if w then negb (Z.testbit e 7) else true).
Proof.
  unfold mmu_user_access_allowed. destruct (ap_bits e) as (r & -> & Hr & -> & ->).
  by destruct Hr as [->|[->|[->| ->]]], w.
Qed.

Lemma ap_ro_tb e : (Z.land e MMU_AP_RO =? MMU_AP_RO) = Z.testbit e 7.
Proof.
  change MMU_AP_RO with (2 ^ 7). apply eq_true_iff_eq. rewrite Z.eqb_eq. split.
  - intros He. apply (f_equal (λ x, Z.testbit x 7)) in He.
    by rewrite Z.land_spec, !tb_pow2, andb_true_r in He by lia.
  - intros He. apply Z.bits_inj'. intros i Hi. rewrite Z.land_spec, !tb_pow2 by lia.
    destruct (decide (7 = i)) as [<-|]; [by rewrite He|]. by rewrite (proj2 (Z.eqb_neq 7 i)), andb_false_r.
Qed.

Lemma bit_set_tb e k : 0 ≤ k → negb (Z.land e (2 ^ k) =? 0) = Z.testbit e k.
Proof.
  intros Hk. destruct (Z.testbit e k) eqn:He.
  - apply negb_true_iff, Z.eqb_neq. intros H0. apply (f_equal (λ x, Z.testbit x k)) in H0.
    by rewrite Z.land_spec, tb_pow2, Z.eqb_refl, He, Z.bits_0 in H0 by done.
  - apply negb_false_iff, Z.eqb_eq, Z.bits_inj'. intros i Hi.
    rewrite Z.land_spec, tb_pow2, Z.bits_0 by done.
    destruct (decide (k = i)) as [<-|]; [by rewrite He|]. by rewrite (proj2 (Z.eqb_neq k i)), andb_false_r.
Qed.

(** ** The descriptors the kernel builds *)

(** What a table descriptor made from a page's address decodes to. *)
Lemma table_desc_ok a : page_ok a →
  desc_table (Z.lor a MMU_DESC_TABLE) = true ∧ desc_addr (Z.lor a MMU_DESC_TABLE) = a.
Proof.
  intros Ha. change MMU_DESC_TABLE with 3. split.
  - rewrite !desc_table_tb, !Z.lor_spec, !tb_3, !orb_true_r by lia. done.
  - unfold desc_addr. rewrite Z.land_lor_distr_l, (land_mask_page a Ha). apply Z.lor_0_r.
Qed.

(** Equality of a built descriptor's field by test bits. *)
Ltac tb_eq :=
  apply Z.bits_inj'; intros i Hi; tb_rewrite; tb_cases.

(** The attribute bits leave the address field alone. *)
Definition flags_ok (flags : Z) : Prop := Z.land flags MMU_DESC_ADDR_MASK = 0.

Lemma page_desc_ok a flags : page_ok a → flags_ok flags →
  desc_page (page_desc a flags) = true ∧ desc_addr (page_desc a flags) = a ∧
  ∀ w, mmu_user_access_allowed (page_desc a flags) w = mmu_user_access_allowed flags w.
Proof.
  intros Ha Hf. unfold page_desc, bits. cbn [foldr].
  change MMU_L3_PAGE_ADDR_MASK with MMU_DESC_ADDR_MASK. rewrite (land_mask_page a Ha).
  split; [|split].
  - rewrite !desc_page_tb. change MMU_DESC_PAGE with 3.
    rewrite !Z.lor_spec, !tb_3, !orb_true_r by lia. done.
  - unfold desc_addr. rewrite !Z.land_lor_distr_l, (land_mask_page a Ha), Hf. apply Z.lor_0_r.
  - intros w. rewrite !access_allowed_tb, !Z.lor_spec, (page_ok_low a 6), (page_ok_low a 7) by (done || lia).
    change MMU_DESC_PAGE with 3. change MMU_NG with (2 ^ 11).
    by rewrite !tb_3, !tb_pow2, !Z.bits_0, !orb_false_l, !orb_false_r by lia.
Qed.

Lemma low_bit_attrs e i : 0 ≤ i < 12 → Z.testbit (Z.land e (not64 MMU_DESC_ADDR_MASK)) i = Z.testbit e i.
Proof. intros. tb_rewrite. tb_cases. Qed.

Lemma attrs_mask e : Z.land (Z.land e (not64 MMU_DESC_ADDR_MASK)) MMU_DESC_ADDR_MASK = 0.
Proof. tb_eq. Qed.

Lemma copied_table_ok a e : page_ok a → desc_table e = true →
  let d := Z.lor (Z.land a MMU_L3_PAGE_ADDR_MASK) (Z.land e (not64 MMU_L3_PAGE_ADDR_MASK)) in
  desc_table d = true ∧ desc_addr d = a.
Proof.
  intros Ha He d. subst d. change MMU_L3_PAGE_ADDR_MASK with MMU_DESC_ADDR_MASK.
  rewrite (land_mask_page a Ha). split.
  - rewrite desc_table_tb in He. rewrite desc_table_tb. apply andb_true_iff in He as [H0 H1].
    by rewrite !Z.lor_spec, !low_bit_attrs, H0, H1, !orb_true_r by lia.
  - unfold desc_addr. rewrite Z.land_lor_distr_l, (land_mask_page a Ha), attrs_mask. apply Z.lor_0_r.
Qed.

Lemma cow_desc_tb e i : 0 ≤ i → Z.testbit (cow_desc e) i =
  (i <? 64) && Z.testbit e i || (i =? 7) || (i =? 55).
Proof.
  intros Hi. unfold cow_desc. change MMU_AP_RW with 0. change MMU_AP_RO with (2 ^ 7).
  change MMU_DESC_SOFTWARE_COW with (2 ^ 55). tb_rewrite. tb_cases.
Qed.

Lemma cow_desc_ok e : desc_page e = true →
  desc_page (cow_desc e) = true ∧ desc_addr (cow_desc e) = desc_addr e ∧
  mmu_user_access_allowed (cow_desc e) true = false ∧
  mmu_user_access_allowed (cow_desc e) false = mmu_user_access_allowed e false.
Proof.
  intros He. rewrite desc_page_tb in He. rewrite desc_page_tb. apply andb_true_iff in He as [H0 H1].
  split; [|split; [|split]].
  - by rewrite !cow_desc_tb, H0, H1 by lia.
  - unfold desc_addr. apply Z.bits_inj'. intros i Hi. rewrite !Z.land_spec, cow_desc_tb, tb_mask by lia. tb_cases.
  - rewrite access_allowed_tb, !cow_desc_tb by lia. by destruct (Z.testbit e 6), (Z.testbit e 7).
  - rewrite !access_allowed_tb, !cow_desc_tb by lia. by destruct (Z.testbit e 6).
Qed.

(** The descriptor after a copy-on-write fault can be written exactly when
    its AP[1] lets EL0 in: AP[2] is lost, also for a page that was mapped
    read-only. *)
Lemma upgraded_desc_tb e i : 0 ≤ i → Z.testbit (upgraded_desc e) i =
  (i <? 64) && Z.testbit e i && negb (i =? 7) && negb (i =? 55).
Proof.
  intros Hi. unfold upgraded_desc. change MMU_AP_RW with 0. change MMU_AP_RO with (2 ^ 7).
  change MMU_DESC_SOFTWARE_COW with (2 ^ 55). tb_rewrite. tb_cases.
Qed.

Lemma upgraded_desc_ok e : desc_page e = true →
  desc_page (upgraded_desc e) = true ∧ desc_addr (upgraded_desc e) = desc_addr e ∧
  ∀ w, mmu_user_access_allowed (upgraded_desc e) w = mmu_user_access_allowed e false.
Proof.
  intros He. rewrite desc_page_tb in He. rewrite desc_page_tb. apply andb_true_iff in He as [H0 H1].
  split; [|split].
  - by rewrite !upgraded_desc_tb, H0, H1 by lia.
  - unfold desc_addr. apply Z.bits_inj'. intros i Hi. rewrite !Z.land_spec, upgraded_desc_tb, tb_mask by lia. tb_cases.
  - intros w. rewrite !access_allowed_tb, !upgraded_desc_tb by lia. by destruct w, (Z.testbit e 6), (Z.testbit e 7).
Qed.

Lemma copied_desc_ok a e : page_ok a → desc_page e = true →
  desc_page (copied_desc a e) = true ∧ desc_addr (copied_desc a e) = a ∧
  ∀ w, mmu_user_access_allowed (copied_desc a e) w = mmu_user_access_allowed e false.
Proof.
  intros Ha He. rewrite desc_page_tb in He. rewrite desc_page_tb. apply andb_true_iff in He as [H0 H1].
  assert (∀ i, 0 ≤ i < 12 → Z.testbit (copied_desc a e) i = Z.testbit e i && negb (i =? 7)) as Htb.
  { intros i Hi. unfold copied_desc. change MMU_AP_RW with 0. change MMU_AP_RO with (2 ^ 7).
    change MMU_DESC_SOFTWARE_COW with (2 ^ 55). rewrite (land_mask_page a Ha). tb_rewrite.
    rewrite (page_ok_low a i) by (done || lia). tb_cases. }
  split; [|split].
  - by rewrite !Htb, H0, H1 by lia.
  - unfold desc_addr, copied_desc. change MMU_AP_RW with 0. rewrite (land_mask_page a Ha).
    unfold bits. cbn [foldr]. rewrite !Z.land_lor_distr_l, (land_mask_page a Ha).
    rewrite <- (Z.lor_0_r a) at 2. f_equal. tb_eq.
  - intros w. rewrite !access_allowed_tb, !Htb by lia. by destruct w, (Z.testbit e 6), (Z.testbit e 7).
Qed.

Lemma copied_desc_bit7 a e : page_ok a → Z.testbit (copied_desc a e) 7 = false.
Proof.
  intros Ha. unfold copied_desc. change MMU_AP_RW with 0. change MMU_AP_RO with (2 ^ 7).
  change MMU_DESC_SOFTWARE_COW with (2 ^ 55). rewrite (land_mask_page a Ha). tb_rewrite.
  rewrite (page_ok_low a 7) by (done || lia). tb_cases.
Qed.
