(* ===== verification/VmsaSpec.v ===== *)
(** * Address spaces: the contract of the layer below and the frame

    [FrameLaws] states what the virtual-memory code relies on: pages have an
    owner count, a page handed out is fresh and zero, and the words of the
    clients survive every call.  [vst] is the normal form of a state, with the
    parts that page-table code changes exposed. *)

From S2P Require Import Prelude Machine MmuTable MmuBoot Vmsa VmsaWalk VmsaFault VmBits.

Open Scope kernel_scope.

(** The page a word lies in. *)
Definition pg (a : Z) : Z := a - a mod PAGE_SIZE.

(** What a call below may do to the machine besides its memory. *)
Definition grows (m m' : machine) : Prop :=
  m_held m' = m_held m ∧ m_mmu_enabled m' = m_mmu_enabled m ∧ ∃ l, m_trace m' = l ++ m_trace m.

#[export] Instance grows_preorder : PreOrder grows.
Proof.
  split.
  - intros m. split; [done|]. split; [done|]. by exists [].
  - intros m1 m2 m3 (H1 & H2 & l & H3) (H1' & H2' & l' & H3').
    split; [congruence|]. split; [congruence|]. exists (l' ++ l). by rewrite H3', H3, app_assoc.
Qed.

Section env.
Context {P : Type} `{FrameEnv P}.
Implicit Types p : P.

Definition pmach p : machine := sub_get p.
Definition pmem p : gmap Z Z := m_mem (pmach p).
Definition pheld p : list lock := m_held (pmach p).

End env.

(** The [n] bytes at the kernel pointer [ptr] are at consecutive physical
    addresses. *)
Definition kbuf (ptr n : Z) : Prop :=
  0 < ptr ∧ 0 ≤ n ∧ (ptr + n ≤ KERNEL_VA_OFFSET ∨ KERNEL_VA_OFFSET ≤ ptr ∧ ptr + n ≤ 2 ^ 64).

(** [fe_own]: the reference count of each page owned by clients.  [fe_mine]:
    the words clients may write; the rest belongs to the allocators.
    [fe_span b]: the words of the heap block at [b]; the block is live when it
    has its first word.  Blocks are disjoint, and a fresh block has words that
    no client had. *)
Class FrameLaws (P : Type) `{FrameEnv P} := {
  fe_ok : P → Prop;
  fe_own : P → Z → option Z;
  fe_mine : P → Z → Prop;
  fe_span : P → Z → Z → Prop;
  fe_own_page : ∀ (p : P) a r, fe_ok p → fe_own p a = Some r → page_ok a ∧ 1 ≤ r < 2 ^ 16;
  fe_own_mine : ∀ (p : P) a r w, fe_ok p → fe_own p a = Some r → pg w = a → fe_mine p w;
  fe_span_mine : ∀ (p : P) b w, fe_ok p → fe_span p b w → fe_mine p w ∧ fe_own p (pg w) = None;
  fe_span_inj : ∀ (p : P) b b' w, fe_ok p → fe_span p b w → fe_span p b' w → b = b';
  fe_alloc_law : ∀ (p : P), fe_ok p → can_lock L_page (pheld p) = true →
    wp fe_alloc (λ a p', fe_ok p' ∧ grows (pmach p) (pmach p') ∧
      (∀ b w, fe_span p' b w ↔ fe_span p b w) ∧
      (∀ w, fe_mine p w → fe_mine p' w ∧ mrd (pmem p') w = mrd (pmem p) w) ∧
      (a = 0 ∧ (∀ q, fe_own p' q = fe_own p q) ∨
       page_ok a ∧ (∀ w, fe_mine p w → pg w ≠ a) ∧ (∀ i, 0 ≤ i < 512 → mrd (pmem p') (a + 8 * i) = 0) ∧
       fe_own p a = None ∧ (∀ q, fe_own p' q = if decide (q = a) then Some 1 else fe_own p q))) p;
  fe_drop_law : ∀ (p : P) a r, fe_ok p → can_lock L_page (pheld p) = true → fe_own p a = Some r →
    let Post p' := fe_ok p' ∧ grows (pmach p) (pmach p') ∧
      (∀ b w, fe_span p' b w ↔ fe_span p b w) ∧
      (∀ w, fe_mine p w → pg w ≠ a ∨ 1 < r → fe_mine p' w ∧ mrd (pmem p') w = mrd (pmem p) w) ∧
      (∀ q, fe_own p' q = if decide (q = a) then (if 1 <? r then Some (r - 1) else None)
                          else fe_own p q) in
    wp (fe_free a) (λ _ p', Post p') p ∧ wp (fe_ref_dec a) (λ _ p', Post p') p;
  fe_ref_inc_law : ∀ (p : P) a r, fe_ok p → can_lock L_page (pheld p) = true →
    fe_own p a = Some r → r + 1 < 2 ^ 16 →
    wp (fe_ref_inc a) (λ _ p', fe_ok p' ∧ grows (pmach p) (pmach p') ∧
      (∀ b w, fe_span p' b w ↔ fe_span p b w) ∧
      (∀ w, fe_mine p w → fe_mine p' w ∧ mrd (pmem p') w = mrd (pmem p) w) ∧
      (∀ q, fe_own p' q = if decide (q = a) then Some (r + 1) else fe_own p q)) p;
  fe_ref_get_law : ∀ (p : P) a r, fe_ok p → can_lock L_page (pheld p) = true →
    fe_own p a = Some r →
    wp (fe_ref_get a) (λ v p', v = r ∧ fe_ok p' ∧ grows (pmach p) (pmach p') ∧
      (∀ b w, fe_span p' b w ↔ fe_span p b w) ∧
      (∀ w, fe_mine p w → fe_mine p' w ∧ mrd (pmem p') w = mrd (pmem p) w) ∧
      (∀ q, fe_own p' q = fe_own p q)) p;
  fe_kmalloc_law : ∀ (p : P) n, fe_ok p → can_lock L_heap (pheld p) = true → 0 ≤ n < 2 ^ 31 →
    wp (fe_kmalloc n) (λ a p', fe_ok p' ∧ grows (pmach p) (pmach p') ∧
      (∀ w, fe_mine p w → fe_mine p' w ∧ mrd (pmem p') w = mrd (pmem p) w) ∧
      (∀ q r, fe_own p q = Some r → fe_own p' q = Some r) ∧
      (a = 0 ∧ (∀ b w, fe_span p' b w ↔ fe_span p b w) ∨
       a ≠ 0 ∧ u64 a = a ∧ a mod 16 = 0 ∧ kbuf a n ∧ fe_span p' a (va_to_pa a) ∧
       (∀ i, 0 ≤ i < n → fe_span p' a (word_of (va_to_pa a + i))) ∧
       (∀ w, fe_span p' a w → ¬ fe_mine p w) ∧ (∀ w, ¬ fe_span p a w) ∧
       (∀ b w, b ≠ a → fe_span p' b w ↔ fe_span p b w))) p;
  fe_kfree_law : ∀ (p : P) a, fe_ok p → can_lock L_heap (pheld p) = true → fe_span p a (va_to_pa a) →
    wp (fe_kfree a) (λ _ p', fe_ok p' ∧ grows (pmach p) (pmach p') ∧
      (∀ w, fe_mine p w → ¬ fe_span p a w → fe_mine p' w ∧ mrd (pmem p') w = mrd (pmem p) w) ∧
      (∀ q r, fe_own p q = Some r → fe_own p' q = Some r) ∧
      (∀ b w, fe_span p' b w ↔ fe_span p b w ∧ b ≠ a)) p;
  fe_mach_law : ∀ (p : P) m', fe_ok p → m_mmu_enabled m' = m_mmu_enabled (pmach p) →
    (∀ w, ¬ fe_mine p w → mrd (m_mem m') w = mrd (pmem p) w) →
    fe_ok (sub_set m' p) ∧ (∀ q, fe_own (sub_set m' p) q = fe_own p q) ∧
    (∀ w, fe_mine (sub_set m' p) w ↔ fe_mine p w) ∧ (∀ b w, fe_span (sub_set m' p) b w ↔ fe_span p b w);
}.

(** The objects of the heap. *)
Definition fe_live `{FrameLaws P} (p : P) (b : Z) : Prop := fe_span p b (va_to_pa b).

Abbreviation treg := (list (Z * string) * Z)%type.

Section spec.
Context {P : Type} `{FrameLaws P}.
Implicit Types (p : P) (s : vstate P) (t : treg) (X : gmap Z mm_context).

(** ** The normal form *)

Definition vst p t X s : vstate P :=
  let b := v_boot s in
  VState (BState (TState p t.1 t.2) (mmu_l0_table b) (mmu_l1_table b) (mmu_l2_ram_table b)
            (mmu_fine_map_chunks_used b) (l0_table_ttbr1 b) (l1_table_ttbr1 b) (l2_ram_table_ttbr1 b))
    (ttbr0_runtime_empty_root s) (next_asid s) (asid_bitmap s) X (mmu_cpu_context s)
    (mmu_shootdown_asid s) (mmu_shootdown_pending_mask s) (processes s).

Definition venv s : P := t_env (b_tab (v_boot s)).
Definition vreg s : treg := (table_pages (b_tab (v_boot s)), table_pages_used (b_tab (v_boot s))).

Lemma vst_self s : s = vst (venv s) (vreg s) (mm_contexts s) s.
Proof. by destruct s as [[[] ? ? ? ? ? ? ?]]. Qed.

Lemma vst_vst p t X p' t' X' s : vst p t X (vst p' t' X' s) = vst p t X s.
Proof. done. Qed.

Lemma wp_env {A} (m : M P A) (Q : A → vstate P → Prop) p t X s :
  wp m (λ a p', Q a (vst p' t X s)) p → wp (up m) Q (vst p t X s).
Proof. intros Hm. apply wp_up. exact Hm. Qed.

Lemma wp_mach {A} (m : M machine A) (Q : A → vstate P → Prop) p t X s :
  wp m (λ a m', Q a (vst (sub_set m' p) t X s)) (pmach p) → wp (up m) Q (vst p t X s).
Proof. intros Hm. apply wp_up. exact Hm. Qed.

Lemma wp_enabled (Q : bool → vstate P → Prop) p t X s :
  Q (m_mmu_enabled (pmach p)) (vst p t X s) → wp (up mmu_is_enabled) Q (vst p t X s).
Proof. intros HQ. apply wp_mach, wp_gets. unfold pmach at 2. by rewrite sub_set_get. Qed.

Lemma wp_get_mm mm c (Q : mm_context → vstate P → Prop) p t X s :
  X !! mm = Some c → Q c (vst p t X s) → wp (get_mm mm) Q (vst p t X s).
Proof. intros HX HQ. unfold wp, get_mm. simpl. by rewrite HX. Qed.

Lemma wp_upd_mm mm c f (Q : unit → vstate P → Prop) p t X s :
  X !! mm = Some c → Q () (vst p t (<[mm := f c]> X) s) → wp (upd_mm mm f) Q (vst p t X s).
Proof. intros HX HQ. unfold wp, upd_mm. simpl. by rewrite HX. Qed.

Lemma wp_record_page a n (Q : unit → vstate P → Prop) p t X s :
  (∀ t', Q () (vst p t' X s)) → wp (up (mmu_table_record_page a n)) Q (vst p t X s).
Proof.
  intros HQ. apply wp_up. unfold mmu_table_record_page. wp_steps. apply wp_if; intros _.
  - wp_step. apply (HQ (t.1, t.2)).
  - wp_step. apply (HQ (_, _)).
Qed.

(** ** Machine steps *)

(** The environment with its machine's memory, locks or trace changed. *)
Definition pwrite (a v : Z) p : P := sub_set ((pmach p) <| m_mem := <[a := v]> (pmem p) |>) p.
Definition pemit (e : event) p : P := sub_set ((pmach p) <| m_trace := e :: m_trace (pmach p) |>) p.
Definition plocks (l : list lock) p : P := sub_set ((pmach p) <| m_held := l |>) p.

Lemma pmach_set m p : pmach (sub_set m p) = m.
Proof. apply sub_get_set. Qed.

(** Environments that agree on everything but what the lemmas mention. *)
Record same_owner p p' : Prop := {
  so_ok : fe_ok p';
  so_own : ∀ q, fe_own p' q = fe_own p q;
  so_mine : ∀ w, fe_mine p' w ↔ fe_mine p w;
  so_span : ∀ b w, fe_span p' b w ↔ fe_span p b w;
}.

Lemma so_live p p' : same_owner p p' → ∀ b, fe_live p' b ↔ fe_live p b.
Proof. intros Hs b. apply (so_span _ _ Hs). Qed.

Lemma pwrite_owner a v p : fe_ok p → fe_mine p a → same_owner p (pwrite a v p).
Proof.
  intros Hp Ha. edestruct (fe_mach_law p ((pmach p) <| m_mem := <[a := v]> (pmem p) |>)) as (? & ? & ? & ?);
    [done|done| |by split].
  intros w Hw. simpl. apply mrd_insert_ne. by intros ->.
Qed.
Lemma pemit_owner e p : fe_ok p → same_owner p (pemit e p).
Proof.
  intros Hp. edestruct (fe_mach_law p ((pmach p) <| m_trace := e :: m_trace (pmach p) |>)) as (? & ? & ? & ?);
    [done..|by split].
Qed.
Lemma plocks_owner l p : fe_ok p → same_owner p (plocks l p).
Proof.
  intros Hp. edestruct (fe_mach_law p ((pmach p) <| m_held := l |>)) as (? & ? & ? & ?);
    [done..|by split].
Qed.

Lemma pmem_pwrite a v p w : mrd (pmem (pwrite a v p)) w = if decide (a = w) then v else mrd (pmem p) w.
Proof. unfold pmem at 1, pwrite. rewrite pmach_set. simpl. apply mrd_insert. Qed.
Lemma pmem_pemit e p : pmem (pemit e p) = pmem p.
Proof. unfold pmem at 1, pemit. by rewrite pmach_set. Qed.
Lemma pmem_plocks l p : pmem (plocks l p) = pmem p.
Proof. unfold pmem at 1, plocks. by rewrite pmach_set. Qed.

(** What is kept of the machine: locks, the MMU switch, and a longer trace. *)
Lemma grows_pwrite a v p : grows (pmach p) (pmach (pwrite a v p)).
Proof. unfold pwrite. rewrite pmach_set. split; [done|]. split; [done|]. by exists []. Qed.
Lemma grows_pemit e p : grows (pmach p) (pmach (pemit e p)).
Proof. unfold pemit. rewrite pmach_set. split; [done|]. split; [done|]. by exists [e]. Qed.

End spec.

Arguments vst : simpl never.
