(* ===== verification/VmTree.v ===== *)
(** * Page tables as a tree and as a map

    [tree_ok mem T root]: the words of [mem] form a four-level table whose
    tables are those of [T], indexed by level and by the index prefix that
    leads to them.  [leaf mem T v] is the abstract view: the valid entry of the
    virtual page [v]. *)

From S2P Require Import Prelude Machine MmuTable MmuBoot Vmsa VmsaWalk VmsaFault VmBits VmsaSpec.

Open Scope kernel_scope.

Abbreviation tmap := (gmap (Z * Z) Z).

(** ** Addresses of entries *)

Lemma page_ok_end a : page_ok a → a + 4096 ≤ 2 ^ 48.
Proof. unfold page_ok, PAGE_SIZE. intros [Ha Hb]. pose proof (Z.div_mod a 4096). lia. Qed.

Lemma pg_offset a k : page_ok a → 0 ≤ k < 4096 → pg (a + k) = a.
Proof.
  intros [Ha _] Hk. unfold pg, PAGE_SIZE in *. rewrite <- Z.add_mod_idemp_l, Ha by lia.
  rewrite Z.mod_small by lia. lia.
Qed.
Lemma pg_entry a i : page_ok a → 0 ≤ i < 512 → pg (a + 8 * i) = a.
Proof. intros. apply pg_offset; [done|lia]. Qed.

Lemma entry_inj a i a' i' : page_ok a → page_ok a' → 0 ≤ i < 512 → 0 ≤ i' < 512 →
  a + 8 * i = a' + 8 * i' → a = a' ∧ i = i'.
Proof.
  intros Ha Ha' Hi Hi' Heq. assert (a = a') as ->; [|lia].
  by rewrite <- (pg_entry a i), Heq, pg_entry by done.
Qed.

Lemma entry_at_pa a i : page_ok a → 0 ≤ i < 512 →
  ptr_ok (entry_at (pa_to_va a) i) = true ∧ va_to_pa (entry_at (pa_to_va a) i) = a + 8 * i.
Proof.
  intros Ha Hi. pose proof (page_ok_end a Ha). destruct Ha as [Hm Hr].
  assert (entry_at (pa_to_va a) i = pa_to_va (a + 8 * i)) as ->.
  { unfold entry_at. rewrite !pa_to_va_eq, u64_small; unfold KERNEL_VA_OFFSET; lia. }
  split; [|apply va_to_pa_to_va; lia].
  rewrite pa_to_va_eq by lia. unfold KERNEL_VA_OFFSET, PAGE_SIZE in *. apply ptr_ok_intro; [lia|].
  pose proof (Z.div_mod a 4096). 
  replace (a + 8 * i + 18446462598732840960) with ((512 * (a / 4096) + i + 2305807824841605120) * 8) by lia.
  apply Z.mod_mul. lia.
Qed.

(** ** Virtual page numbers *)

Definition pfx1 (va : Z) : Z := L0_INDEX_FOR va.
Definition pfx2 (va : Z) : Z := pfx1 va * 512 + L1_INDEX_FOR va.
Definition pfx3 (va : Z) : Z := pfx2 va * 512 + L2_INDEX_FOR va.
Definition vpn (va : Z) : Z := pfx3 va * 512 + L3_INDEX_FOR va.

Lemma land_511 x : Z.land x 0x1ff = x mod 512.
Proof. change 0x1ff with (Z.ones 9). by rewrite Z.land_ones. Qed.

Lemma va_index_eq va k : 0 ≤ k → Z.land (Z.shiftr va k) 0x1ff = (va / 2 ^ k) mod 512.
Proof. intros. by rewrite land_511, Z.shiftr_div_pow2. Qed.

Lemma index_range va :
  0 ≤ L0_INDEX_FOR va < 512 ∧ 0 ≤ L1_INDEX_FOR va < 512 ∧
  0 ≤ L2_INDEX_FOR va < 512 ∧ 0 ≤ L3_INDEX_FOR va < 512.
Proof.
  unfold L0_INDEX_FOR, L1_INDEX_FOR, L2_INDEX_FOR, L3_INDEX_FOR.
  rewrite !land_511. repeat split; apply Z.mod_pos_bound; lia.
Qed.

Lemma vpn_split va : vpn va / 512 = pfx3 va ∧ vpn va mod 512 = L3_INDEX_FOR va.
Proof.
  unfold vpn. destruct (index_range va) as (_ & _ & _ & ?).
  split; [rewrite Z.div_add_l, Z.div_small by lia; lia|].
  rewrite Z.add_comm, Z.mod_add by lia. by apply Z.mod_small.
Qed.

(** Two addresses of the lower half share a page number exactly when they
    share a page. *)
Lemma vpn_eq va : 0 ≤ va → vpn va = (va / PAGE_SIZE) mod 2 ^ 36.
Proof.
  intros Hva. unfold vpn, pfx3, pfx2, pfx1, L0_INDEX_FOR, L1_INDEX_FOR, L2_INDEX_FOR, L3_INDEX_FOR, PAGE_SIZE.
  rewrite !va_index_eq by lia. change (2 ^ 12) with 4096. set (v := va / 4096).
  assert (va / 2 ^ 21 = v / 512) as -> by (unfold v; rewrite Z.div_div by lia; done).
  assert (va / 2 ^ 30 = v / 512 / 512) as -> by (unfold v; rewrite !Z.div_div by lia; done).
  assert (va / 2 ^ 39 = v / 512 / 512 / 512) as -> by (unfold v; rewrite !Z.div_div by lia; done).
  change (2 ^ 36) with (512 * (512 * (512 * 512))). 
  rewrite !Z.rem_mul_r by lia. lia.
Qed.

Lemma vpn_nonneg va : 0 ≤ vpn va.
Proof. unfold vpn, pfx3, pfx2, pfx1. pose proof (index_range va). lia. Qed.

(** ** The tree *)

Definition tabs (T : tmap) (a : Z) : Prop := ∃ k, T !! k = Some a.

Definition wd (mem : gmap Z Z) (a i : Z) : Z := mrd mem (a + 8 * i).

Record tree_ok (mem : gmap Z Z) (T : tmap) (root : Z) : Prop := {
  tr_root : T !! (0, 0) = Some root;
  tr_key : ∀ l x a, T !! (l, x) = Some a → 0 ≤ l ≤ 3 ∧ 0 ≤ x ∧ page_ok a;
  tr_inj : ∀ k k' a, T !! k = Some a → T !! k' = Some a → k = k';
  tr_parent : ∀ l x a, T !! (l, x) = Some a → 0 < l → is_Some (T !! (l - 1, x / 512));
  tr_entry : ∀ l x a i, T !! (l, x) = Some a → l < 3 → 0 ≤ i < 512 →
    match T !! (l + 1, x * 512 + i) with
    | Some b => desc_table (wd mem a i) = true ∧ desc_addr (wd mem a i) = b
    | None => desc_valid (wd mem a i) = false
    end;
  tr_leaf : ∀ x a i, T !! (3, x) = Some a → 0 ≤ i < 512 →
    desc_valid (wd mem a i) = true → desc_page (wd mem a i) = true;
}.

(** The valid entry of the virtual page [v]. *)
Definition leaf (mem : gmap Z Z) (T : tmap) (v : Z) : option Z :=
  match T !! (3, v / 512) with
  | Some a => let e := wd mem a (v mod 512) in if desc_valid e then Some e else None
  | None => None
  end.

Section tree.
Context (mem mem' : gmap Z Z) (T : tmap) (root : Z).
Hypothesis Htree : tree_ok mem T root.

Lemma tabs_ok a : tabs T a → page_ok a.
Proof. intros [[l x] Ha]. by apply (tr_key _ _ _ Htree) in Ha as (_ & _ & ?). Qed.

Lemma leaf_page v e : leaf mem T v = Some e → desc_page e = true.
Proof.
  unfold leaf. destruct (T !! (3, v / 512)) as [a|] eqn:Ha; [|done].
  destruct (desc_valid _) eqn:Hv; [|done]. intros [= <-].
  eapply (tr_leaf _ _ _ Htree); [done|by apply Z.mod_pos_bound|done].
Qed.

(** Nothing hangs below a missing table. *)
Lemma tree_none l x i : T !! (l, x) = None → 0 < l + 1 → 0 ≤ i < 512 → T !! (l + 1, x * 512 + i) = None.
Proof.
  intros Hn Hl Hi. destruct (T !! (l + 1, x * 512 + i)) as [a|] eqn:Ha; [|done].
  destruct (tr_parent _ _ _ Htree _ _ _ Ha) as [b Hb]; [lia|].
  rewrite Z.add_simpl_r, Z.div_add_l, Z.div_small, Z.add_0_r in Hb by lia. congruence.
Qed.

(** Memory outside the tables does not matter. *)
Lemma tree_frame : (∀ w, tabs T (pg w) → mrd mem' w = mrd mem w) →
  tree_ok mem' T root ∧ ∀ v, leaf mem' T v = leaf mem T v.
Proof.
  intros Hf. destruct Htree as [Hr Hk Hi Hp He Hl].
  assert (∀ l x a i, T !! (l, x) = Some a → 0 ≤ i < 512 → wd mem' a i = wd mem a i) as Hw.
  { intros l x a i Ha Hi'. apply Hf. rewrite pg_entry; [by exists (l, x)|by apply (Hk l x)|done]. }
  split.
  - split; try done.
    + intros l x a i Ha Hl' Hi'. rewrite (Hw l x a i) by done. by apply He.
    + intros x a i Ha Hi'. rewrite (Hw 3 x a i) by done. by apply (Hl x).
  - intros v. unfold leaf. destruct (T !! (3, v / 512)) as [a|] eqn:Ha; [|done].
    rewrite (Hw 3 (v / 512)); [done..|]. by apply Z.mod_pos_bound.
Qed.

Lemma key_inj x i x' i' : 0 ≤ i < 512 → 0 ≤ i' < 512 → x * 512 + i = x' * 512 + i' → x = x' ∧ i = i'.
Proof. intros. lia. Qed.

(** A zeroed table linked at a free entry adds no mapping. *)
Lemma tree_add l x t i a : T !! (l, x) = Some t → l < 3 → 0 ≤ i < 512 →
  T !! (l + 1, x * 512 + i) = None → page_ok a → ¬ tabs T a →
  (∀ j, 0 ≤ j < 512 → wd mem' a j = 0) →
  wd mem' t i = Z.lor a MMU_DESC_TABLE →
  (∀ w, tabs T (pg w) → w ≠ t + 8 * i → mrd mem' w = mrd mem w) →
  tree_ok mem' (<[(l + 1, x * 512 + i) := a]> T) root ∧
  ∀ v, leaf mem' (<[(l + 1, x * 512 + i) := a]> T) v = leaf mem T v.
Proof.
  intros Ht Hl Hi Hfree Ha Hnew Hzero Hlink Hf. destruct Htree as [Hr Hk Hinj Hp He Hlf].
  destruct (Hk _ _ _ Ht) as (Hl0 & Hx0 & Htok).
  set (k := (l + 1, x * 512 + i)) in *.
  assert (∀ k' b j, T !! k' = Some b → 0 ≤ j < 512 → (b, j) ≠ (t, i) → wd mem' b j = wd mem b j) as Hw.
  { intros k' b j Hb Hj Hne. destruct k' as [l' x']. destruct (Hk _ _ _ Hb) as (_ & _ & Hbok).
    apply Hf; [rewrite pg_entry by done; by exists (l', x')|].
    intros Heq. apply Hne. apply entry_inj in Heq as [-> ->]; done. }
  rename Hzero into Hz.
  destruct (table_desc_ok a Ha) as [Htd Hta].
  split; [split|].
  - rewrite lookup_insert_ne; [done|]. unfold k. intros [=]. lia.
  - intros l' x' b [[[= <- <-] <-]|[_ Hb]]%lookup_insert_Some; [|by eapply Hk].
    split; [lia|]. split; [lia|done].
  - intros k1 k2 b [[<- <-]|[? H1]]%lookup_insert_Some [[<- H2]|[? H2]]%lookup_insert_Some; try done.
    + destruct Hnew. by exists k2.
    + subst b. destruct Hnew. by exists k1.
    + by eapply Hinj.
  - intros l' x' b [[[= <- <-] <-]|[_ Hb]]%lookup_insert_Some Hl'.
    + rewrite Z.div_add_l, Z.div_small, Z.add_0_r, Z.add_simpl_r by lia.
      destruct (decide ((l, x) = k)) as [->|Hne]; [by rewrite lookup_insert_eq|].
      by rewrite lookup_insert_ne, Ht by done.
    + destruct (Hp _ _ _ Hb Hl') as [b' Hb'].
      destruct (decide ((l' - 1, x' / 512) = k)) as [->|Hne]; [by rewrite lookup_insert_eq|].
      by rewrite lookup_insert_ne, Hb' by done.
  - intros l' x' b j [[[= <- <-] <-]|[Hne Hb]]%lookup_insert_Some Hl' Hj.
    + rewrite Hz by done. rewrite lookup_insert_ne by (unfold k; intros [=]; lia).
      destruct (T !! (l + 1 + 1, (x * 512 + i) * 512 + j)) as [b|] eqn:Hb; [|done].
      apply Hp in Hb as [b' Hb']; [|lia].
      rewrite Z.div_add_l, Z.div_small, Z.add_0_r, Z.add_simpl_r in Hb' by lia. fold k in Hb'. by rewrite Hfree in Hb'.
    + destruct (decide ((l' + 1, x' * 512 + j) = k)) as [Heq|Hne'].
      * unfold k in Heq. injection Heq as Hl1 Hx1. assert (l' = l) as -> by lia.
        destruct (key_inj x' j x i) as [-> ->]; [done..|].
        unfold k. rewrite lookup_insert_eq. assert (b = t) as -> by congruence. by rewrite Hlink.
      * rewrite lookup_insert_ne by done. destruct (decide ((b, j) = (t, i))) as [[= -> ->]|Hne''].
        { destruct Hne'. unfold k. apply (Hinj _ _ _ Ht) in Hb as [= <- <-]. done. }
        rewrite (Hw (l', x') b j) by done. by apply He.
  - intros x' b j [[[= Hl1 <-] <-]|[Hne Hb]]%lookup_insert_Some Hj.
    + by rewrite Hz by done.
    + rewrite (Hw (3, x') b j); [by apply (Hlf x')|done|done|].
      intros [= -> ->]. apply (Hinj _ _ _ Ht) in Hb as [= ]. lia.
  - intros v. unfold leaf. pose proof (Z.mod_pos_bound v 512 eq_refl) as Hm.
    destruct (decide (k = (3, v / 512))) as [Heq|Hne].
    + rewrite <- Heq, Hfree, lookup_insert_eq, Hz by done. done.
    + rewrite lookup_insert_ne by done. destruct (T !! (3, v / 512)) as [b|] eqn:Hb; [|done].
      rewrite (Hw (3, v / 512) b); [done..|]. intros [= -> _].
      apply (Hinj _ _ _ Ht) in Hb as [= ]. lia.
Qed.

(** An entry of an L3 table is replaced. *)
Lemma tree_set v t e : T !! (3, v / 512) = Some t →
  (desc_valid e = true → desc_page e = true) →
  wd mem' t (v mod 512) = e →
  (∀ w, tabs T (pg w) → w ≠ t + 8 * (v mod 512) → mrd mem' w = mrd mem w) →
  tree_ok mem' T root ∧
  ∀ v', leaf mem' T v' = if decide (v' = v) then (if desc_valid e then Some e else None) else leaf mem T v'.
Proof.
  intros Ht Hpage Hset Hf. destruct Htree as [Hr Hk Hinj Hp He Hlf].
  pose proof (Z.mod_pos_bound v 512 eq_refl) as Hm. destruct (Hk _ _ _ Ht) as (_ & _ & Htok).
  assert (∀ k' b j, T !! k' = Some b → 0 ≤ j < 512 → (b, j) ≠ (t, v mod 512) → wd mem' b j = wd mem b j) as Hw.
  { intros [l' x'] b j Hb Hj Hne. destruct (Hk _ _ _ Hb) as (_ & _ & Hbok).
    apply Hf; [rewrite pg_entry by done; by exists (l', x')|].
    intros Heq. apply Hne. apply entry_inj in Heq as [-> ->]; done. }
  split; [split; try done|].
  - intros l' x' b j Hb Hl' Hj. rewrite (Hw (l', x') b j); [by apply He|done|done|].
    intros [= -> _]. apply (Hinj _ _ _ Ht) in Hb as [= ]. lia.
  - intros x' b j Hb Hj. destruct (decide ((b, j) = (t, v mod 512))) as [[= -> ->]|Hne].
    + rewrite Hset. done.
    + rewrite (Hw (3, x') b j) by done. by apply (Hlf x').
  - intros v'. unfold leaf. case_decide as Hv; [subst v'; by rewrite Ht, Hset|].
    destruct (T !! (3, v' / 512)) as [b|] eqn:Hb; [|done].
    rewrite (Hw (3, v' / 512) b); [done|done|by apply Z.mod_pos_bound|].
    intros [= -> Hmod]. apply (Hinj _ _ _ Ht) in Hb as [= Hdiv].
    apply Hv. rewrite (Z.div_mod v' 512), (Z.div_mod v 512) by lia. congruence.
Qed.

End tree.
