(* ===== verification/VmMap.v ===== *)
(** * Page-table code against the tree: walks, mapping and unmapping *)

From S2P Require Import Prelude Machine MmuTable MmuBoot Vmsa VmsaWalk VmsaFault VmBits VmsaSpec VmTree.

Open Scope kernel_scope.

Section map.
Context {P : Type} `{FrameLaws P}.
Implicit Types (p : P) (s : vstate P) (t : treg) (X : gmap Z mm_context) (T : tmap).

(** ** Steps of the environment

    [vmstep p p' new W]: the pages [new] were taken from the allocator, words
    were written in the pages [W] (and in the new ones) only. *)

Record vmstep p p' (new : list Z) (W : Z → Prop) : Prop := {
  vs_ok : fe_ok p';
  vs_grows : grows (pmach p) (pmach p');
  vs_span : ∀ b w, fe_span p' b w ↔ fe_span p b w;
  vs_mem : ∀ w, fe_mine p w → fe_mine p' w ∧ (¬ W (pg w) → mrd (pmem p') w = mrd (pmem p) w);
  vs_own : ∀ q, fe_own p' q = if decide (q ∈ new) then Some 1 else fe_own p q;
  vs_new : ∀ q, q ∈ new → fe_own p q = None ∧ ∀ w, fe_mine p w → pg w ≠ q;
}.

Lemma vs_live p p' new W : vmstep p p' new W → ∀ b, fe_live p' b ↔ fe_live p b.
Proof. intros Hs b. apply (vs_span _ _ _ _ Hs). Qed.

Definition nowhere (_ : Z) : Prop := False.

Lemma vmstep_refl p W : fe_ok p → vmstep p p [] W.
Proof.
  intros Hp. split; [done|done|done|by intros w Hw|done|]. by intros q ?%elem_of_nil.
Qed.

Lemma vmstep_trans p1 p2 p3 n1 n2 (W1 W2 W : Z → Prop) :
  vmstep p1 p2 n1 W1 → vmstep p2 p3 n2 W2 →
  (∀ q, W1 q → W q) → (∀ q, W2 q → W q ∨ q ∈ n1) →
  vmstep p1 p3 (n1 ++ n2) W.
Proof.
  intros [Ho1 Hg1 Hl1 Hm1 Hw1 Hn1] [Ho2 Hg2 Hl2 Hm2 Hw2 Hn2] HW1 HW2. split; try done.
  - by etrans.
  - intros b w. by rewrite Hl2, Hl1.
  - intros w Hw. destruct (Hm1 w Hw) as [Hw' Heq]. destruct (Hm2 w Hw') as [Hw'' Heq'].
    split; [done|]. intros HnW. rewrite Heq', Heq; [done|by intros ?%HW1|].
    intros [?|Hin]%HW2; [done|]. by apply Hn1 in Hin as [_ Hin]; apply Hin in Hw.
  - intros q. rewrite Hw2, Hw1. destruct (decide (q ∈ n1 ++ n2)) as [Hq|Hq]; rewrite elem_of_app in Hq.
    + destruct (decide (q ∈ n2)), (decide (q ∈ n1)); tauto.
    + by rewrite !decide_False by tauto.
  - intros q [Hq|Hq]%elem_of_app; [by apply Hn1|]. apply Hn2 in Hq as [Ho Hq]. split.
    + rewrite Hw1 in Ho. by case_decide.
    + intros w Hw. apply Hq. by apply Hm1.
Qed.

Lemma vmstep_weaken p p' new (W W' : Z → Prop) :
  vmstep p p' new W → (∀ q, W q → W' q) → vmstep p p' new W'.
Proof.
  intros [? ? ? Hm ? ?] HW. split; try done. intros w Hw. destruct (Hm w Hw) as [? Hs].
  split; [done|]. intros Hn. apply Hs. by intros ?%HW.
Qed.

(** A store into an owned page, and a TLB invalidation. *)
Lemma vmstep_write p a v (W : Z → Prop) : fe_ok p → fe_mine p a → W (pg a) → vmstep p (pwrite a v p) [] W.
Proof.
  intros Hp Ha HW. destruct (pwrite_owner a v p Hp Ha) as [? Ho Hm Hl]. split; try done.
  - apply grows_pwrite.
  - intros w Hw. split; [by apply Hm|]. intros Hn. rewrite pmem_pwrite, decide_False; [done|].
    by intros <-.
  - by intros q ?%elem_of_nil.
Qed.
Lemma vmstep_emit p e W : fe_ok p → vmstep p (pemit e p) [] W.
Proof.
  intros Hp. destruct (pemit_owner e p Hp) as [? Ho Hm Hl]. split; try done.
  - apply grows_pemit.
  - intros w Hw. split; [by apply Hm|]. intros _. by rewrite pmem_pemit.
  - by intros q ?%elem_of_nil.
Qed.

Lemma vmstep_held p p' new W : vmstep p p' new W → pheld p' = pheld p.
Proof. intros Hs. apply (vs_grows _ _ _ _ Hs). Qed.

(** ** A context and its tree *)

Record ctx_ok p (c : mm_context) T : Prop := {
  cx_tree : tree_ok (pmem p) T (mm_root_pa c);
  cx_tabs : ∀ a, tabs T a → a ∈ mm_pages c;
  cx_own : ∀ a, a ∈ mm_pages c → is_Some (fe_own p a);
  cx_nodup : NoDup (mm_pages c);
  cx_len : Z.of_nat (length (mm_pages c)) ≤ MM_MAX_TRACKED_PAGES;
}.

Definition add_pages (new : list Z) (c : mm_context) : mm_context := c <| mm_pages := mm_pages c ++ new |>.

(** The context gained the pages [new], some of them as tables, and no
    mapping changed. *)
Record grown p c T p' c' T' (new : list Z) : Prop := {
  gr_step : vmstep p p' new (tabs T);
  gr_ctx : ctx_ok p' c' T';
  gr_add : c' = add_pages new c;
  gr_sub : T ⊆ T';
  gr_tabs : ∀ a, tabs T' a → tabs T a ∨ a ∈ new;
  gr_leaf : ∀ v, leaf (pmem p') T' v = leaf (pmem p) T v;
}.

Lemma add_pages_nil c : add_pages [] c = c.
Proof. destruct c. unfold add_pages. simpl. by rewrite app_nil_r. Qed.

Lemma grown_refl p c T : fe_ok p → ctx_ok p c T → grown p c T p c T [].
Proof. intros Hp Hc. split; [by apply vmstep_refl|done|by rewrite add_pages_nil|done|by left|done]. Qed.

Lemma grown_trans p1 c1 T1 p2 c2 T2 p3 c3 T3 n1 n2 :
  grown p1 c1 T1 p2 c2 T2 n1 → grown p2 c2 T2 p3 c3 T3 n2 → grown p1 c1 T1 p3 c3 T3 (n1 ++ n2).
Proof.
  intros [Hs1 Hc1 He1 Hb1 Ht1 Hl1] [Hs2 Hc2 He2 Hb2 Ht2 Hl2]. split.
  - eapply vmstep_trans; [done|done|done|]. intros q [?|?]%Ht1; auto.
  - done.
  - subst. unfold add_pages. simpl. by rewrite app_assoc.
  - by etrans.
  - intros a [[?|?]%Ht1|?]%Ht2; [by left|right; set_solver..].
  - intros v. by rewrite Hl2, Hl1.
Qed.

Lemma ctx_mine p c T a w : fe_ok p → ctx_ok p c T → tabs T a → pg w = a → fe_mine p w.
Proof. intros Hp Hc Ha Hw. destruct (cx_own _ _ _ Hc a) as [r Hr]; [by apply Hc|]. by eapply fe_own_mine. Qed.

Lemma ctx_tab_ok p c T k a : ctx_ok p c T → T !! k = Some a → page_ok a.
Proof. intros Hc Ha. eapply tabs_ok; [apply Hc|]. by exists k. Qed.

(** A context survives steps elsewhere. *)
Lemma ctx_frame p p' new W c T : vmstep p p' new W → fe_ok p → ctx_ok p c T →
  (∀ a, tabs T a → ¬ W a) → ctx_ok p' c T ∧ ∀ v, leaf (pmem p') T v = leaf (pmem p) T v.
Proof.
  intros [Ho Hg Hl Hm Hw Hn] Hp Hc HW.
  destruct (tree_frame (pmem p) (pmem p') T (mm_root_pa c)) as [Ht Hlf]; [apply Hc| |split; [|done]].
  - intros w Ha. apply Hm; [by eapply ctx_mine|by apply HW].
  - destruct Hc. split; try done. intros a Ha. rewrite Hw. case_decide; [done|auto].
Qed.

(** ** Single accesses *)

Lemma wp_load_entry a i (Q : Z → vstate P → Prop) p t X s :
  page_ok a → 0 ≤ i < 512 → Q (wd (pmem p) a i) (vst p t X s) →
  wp (load_entry (pa_to_va a) i) Q (vst p t X s).
Proof.
  intros Ha Hi HQ. destruct (entry_at_pa a i Ha Hi) as [Hok Hpa].
  apply wp_mach. apply wp_load64; [done|]. rewrite Hpa.
  unfold pmach at 2. rewrite sub_set_get. exact HQ.
Qed.

Lemma wp_store_entry a i v (Q : unit → vstate P → Prop) p t X s :
  page_ok a → 0 ≤ i < 512 → Q () (vst (pwrite (a + 8 * i) v p) t X s) →
  wp (store_entry (pa_to_va a) i v) Q (vst p t X s).
Proof.
  intros Ha Hi HQ. destruct (entry_at_pa a i Ha Hi) as [Hok Hpa].
  apply wp_mach. apply wp_store64; [done|]. rewrite Hpa. exact HQ.
Qed.

Lemma wp_tlbi_va asid va (Q : unit → vstate P → Prop) p t X s :
  Q () (vst (pemit (Ev_tlbi_va asid va) p) t X s) → wp (mmu_invalidate_tlb_va asid va) Q (vst p t X s).
Proof. intros HQ. apply wp_mach. exact HQ. Qed.

Lemma wp_vlock l (Q : unit → vstate P → Prop) p t X s :
  can_lock l (pheld p) = true → Q () (vst (plocks (l :: pheld p) p) t X s) → wp (vlock l) Q (vst p t X s).
Proof. intros Hl HQ. apply wp_mach. by apply wp_lock. Qed.
Lemma wp_vunlock l held (Q : unit → vstate P → Prop) p t X s :
  pheld p = l :: held → Q () (vst (plocks held p) t X s) → wp (vunlock l) Q (vst p t X s).
Proof. intros Hl HQ. apply wp_mach. by eapply wp_unlock. Qed.

(** ** Pages *)

Lemma wp_page_alloc (Q : Z → vstate P → Prop) p t X s :
  fe_ok p → can_lock L_page (pheld p) = true →
  (∀ p', vmstep p p' [] nowhere → Q 0 (vst p' t X s)) →
  (∀ a p', vmstep p p' [a] nowhere → page_ok a → fe_own p a = None →
     (∀ i, 0 ≤ i < 512 → mrd (pmem p') (a + 8 * i) = 0) → Q a (vst p' t X s)) →
  wp vm_page_alloc Q (vst p t X s).
Proof.
  intros Hp Hl HQ0 HQ. apply wp_env. eapply wp_mono; [by apply fe_alloc_law|].
  intros a p' (Hok & Hg & Hlv & Hm & Hr). destruct Hr as [[-> Ho]|(Ha & Hn & Hz & Hf & Ho)].
  - apply HQ0. split; [done..| |done|by intros q ?%elem_of_nil]. intros w Hw. split; [|intros _]; by apply Hm.
  - apply HQ; [|done..]. split; [done..| | |].
    + intros w Hw. split; [|intros _]; by apply Hm.
    + intros q. rewrite Ho. apply decide_ext. symmetry. apply list_elem_of_singleton.
    + intros q ->%list_elem_of_singleton. auto.
Qed.

Lemma vmstep_one p p' a W : vmstep p p' [a] W →
  fe_own p' a = Some 1 ∧ fe_own p a = None ∧ (∀ q, q ≠ a → fe_own p' q = fe_own p q) ∧
  ∀ w, fe_mine p w → pg w ≠ a.
Proof.
  intros [_ _ _ _ Hw Hn]. destruct (Hn a) as [Hnone Hfresh]; [by apply list_elem_of_singleton|].
  split; [|split; [done|split; [|done]]].
  - rewrite Hw. by rewrite decide_True by by apply list_elem_of_singleton.
  - intros q Hq. rewrite Hw. by rewrite decide_False by by intros ?%list_elem_of_singleton.
Qed.

(** A page that was just taken is given back. *)
Lemma wp_free_new a (Q : unit → vstate P → Prop) p p1 t X s W :
  fe_ok p → vmstep p p1 [a] W → can_lock L_page (pheld p) = true →
  (∀ p', vmstep p p' [] W → Q () (vst p' t X s)) →
  wp (vm_page_free a) Q (vst p1 t X s).
Proof.
  intros Hp Hs Hl HQ. rewrite <- (vmstep_held _ _ _ _ Hs) in Hl.
  destruct (vmstep_one _ _ _ _ Hs) as (H1 & Hnone & Hother & Hfresh). destruct Hs as [Ho Hg Hlv Hm Hw _].
  destruct (fe_drop_law p1 a 1 Ho Hl H1) as [Hdrop _].
  apply wp_env. eapply wp_mono; [exact Hdrop|].
  intros [] p' (Hok & Hg' & Hlv' & Hm' & Hw'). apply HQ. split; [done|by etrans| | | |by intros q ?%elem_of_nil].
  - intros b w. by rewrite Hlv', Hlv.
  - intros w Hmine. destruct (Hm w Hmine) as [Hmine' Heq].
    destruct (Hm' w Hmine') as [? Heq']; [left; by apply Hfresh|]. split; [done|].
    intros HW. by rewrite Heq', Heq.
  - intros q. rewrite Hw'. cbn. destruct (decide (q = a)) as [->|Hne]; [done|by apply Hother].
Qed.

(** ** Ownership *)

Lemma existsb_eqb a (l : list Z) : existsb (Z.eqb a) l = bool_decide (a ∈ l).
Proof.
  apply eq_true_iff_eq. rewrite existsb_exists, bool_decide_eq_true. split.
  - intros (x & Hx & ->%Z.eqb_eq). by apply list_elem_of_In.
  - intros Ha. exists a. split; [by apply list_elem_of_In|apply Z.eqb_refl].
Qed.

Lemma wp_add_page mm c a (Q : bool → vstate P → Prop) p t X s :
  mm ≠ 0 → a ≠ 0 → X !! mm = Some c →
  (a ∈ mm_pages c → Q true (vst p t X s)) →
  (a ∉ mm_pages c → mm_page_count c < MM_MAX_TRACKED_PAGES →
     Q true (vst p t (<[mm := add_pages [a] c]> X) s)) →
  (a ∉ mm_pages c → MM_MAX_TRACKED_PAGES ≤ mm_page_count c → Q false (vst p t X s)) →
  wp (mmu_context_add_page_locked mm a) Q (vst p t X s).
Proof.
  intros Hmm Ha HX Hin Hadd Hfull. unfold mmu_context_add_page_locked, mmu_context_has_page_locked.
  bfalse (mm =? 0). bfalse (a =? 0). cbn. wp_step. wp_step. eapply wp_get_mm; [done|]. wp_step.
  rewrite existsb_eqb. case_bool_decide; [by apply Hin|].
  wp_step. eapply wp_get_mm; [done|]. apply wp_if; intros Hc; bool_to_prop; [by apply Hfull|].
  wp_step. eapply wp_upd_mm; [done|]. wp_step. by apply Hadd.
Qed.

Lemma remove_first_spec a (l : list Z) :
  match remove_first a l with
  | Some l' => ∃ l1 l2, l = l1 ++ a :: l2 ∧ (a ∉ l1) ∧ l' = l1 ++ l2
  | None => a ∉ l
  end.
Proof.
  induction l as [|x l IH]; simpl; [set_solver|].
  destruct (x =? a) eqn:Hx; bool_to_prop; [subst; exists [], l; set_solver|].
  destruct (remove_first a l) as [l'|]; simpl; [|set_solver].
  destruct IH as (l1 & l2 & -> & Hn & ->). exists (x :: l1), l2. set_solver.
Qed.

(** ** The walk with creation *)

Record ready p X mm c T : Prop := {
  rd_mm : mm ≠ 0;
  rd_at : X !! mm = Some c;
  rd_ok : fe_ok p;
  rd_ctx : ctx_ok p c T;
  rd_lock : can_lock L_page (pheld p) = true;
}.

Lemma grown_ready p X mm c T p' c' T' new : ready p X mm c T → grown p c T p' c' T' new →
  ready p' (<[mm := c']> X) mm c' T'.
Proof.
  intros [? ? ? ? Hl] [Hs Hc _ _ _ _]. split; [done| |by apply (vs_ok _ _ _ _ Hs)|done|].
  - by rewrite lookup_insert_eq.
  - by rewrite (vmstep_held _ _ _ _ Hs).
Qed.

(** The context's ownership list takes a new page. *)
Lemma ctx_add p p' c T a W : ctx_ok p c T → fe_ok p → vmstep p p' [a] W → (∀ b, tabs T b → ¬ W b) →
  mm_page_count c < MM_MAX_TRACKED_PAGES → ctx_ok p' (add_pages [a] c) T.
Proof.
  intros Hc Hp Hs HW Hlen. destruct (ctx_frame p p' _ _ c T Hs Hp Hc HW) as [[Ht Hi Ho Hn Hl] _].
  destruct (vmstep_one _ _ _ _ Hs) as (H1 & Hnone & _ & _).
  split; simpl; [done| | | |].
  - intros b Hb. apply elem_of_app. left. by apply Hi.
  - intros b [Hb| ->%list_elem_of_singleton]%elem_of_app; [by apply Ho|by eexists].
  - apply NoDup_app. split; [done|]. split; [|apply NoDup_singleton].
    intros b Hb ->%list_elem_of_singleton. apply (cx_own _ _ _ Hc) in Hb as [r Hr]. congruence.
  - rewrite length_app. simpl. unfold mm_page_count in Hlen. lia.
Qed.

(** Zeroing a page that is zero already. *)
Lemma wp_zero_table a (Q : unit → vstate P → Prop) p t X s :
  page_ok a → fe_ok p → (∀ w, pg w = a → fe_mine p w) → (∀ i, 0 ≤ i < 512 → mrd (pmem p) (a + 8 * i) = 0) →
  (∀ p', vmstep p p' [] nowhere → Q () (vst p' t X s)) →
  wp (zero_table (pa_to_va a)) Q (vst p t X s).
Proof.
  intros Ha Hp Hmn Hz HQ. eapply wp_mono.
  - apply (wp_forM _ _ (λ _ s', ∃ p', s' = vst p' t X s ∧ vmstep p p' [] nowhere)).
    + eexists. split; [done|]. by apply vmstep_refl.
    + intros pre i post s' Heq (p' & -> & Hs). apply wp_store_entry; [done| |].
      { apply elem_of_split_mid in Heq. rewrite upto_seqZ, elem_of_seqZ in Heq. lia. }
      assert (0 ≤ i < 512) as Hi.
      { apply elem_of_split_mid in Heq. rewrite upto_seqZ, elem_of_seqZ in Heq. lia. }
      eexists. split; [done|]. pose proof (Hmn (a + 8 * i) (pg_entry _ _ Ha Hi)) as Hmine.
      pose proof (vmstep_write p' (a + 8 * i) 0 (λ q, q = a) (vs_ok _ _ _ _ Hs)) as Hw.
      destruct Hw as [? ? ? Hm ? ?]; [by apply (vs_mem _ _ _ _ Hs)|by apply pg_entry|].
      eapply (vmstep_trans _ _ _ [] []); [exact Hs| |done|by left].
      split; try done. intros w Hw. split; [by apply Hm|]. intros _. rewrite pmem_pwrite. case_decide; [|done].
      subst w. symmetry. rewrite (proj2 (vs_mem _ _ _ _ Hs _ Hmine)) by (by intros []).
      by apply Hz.
  - intros [] s' (p' & -> & Hs). by apply HQ.
Qed.

(** A table page: tracked by the context, zero, and not in the tree yet. *)
Lemma wp_alloc_sub_table mm c T name (Q : Z → vstate P → Prop) p t X s :
  ready p X mm c T →
  (∀ p', vmstep p p' [] nowhere → Q 0 (vst p' t X s)) →
  (∀ a p' t', vmstep p p' [a] nowhere → page_ok a → ctx_ok p' (add_pages [a] c) T →
     (∀ i, 0 ≤ i < 512 → mrd (pmem p') (a + 8 * i) = 0) →
     Q a (vst p' t' (<[mm := add_pages [a] c]> X) s)) →
  wp (mmu_alloc_sub_table_locked mm name) Q (vst p t X s).
Proof.
  intros [Hmm HX Hp Hc Hl] HQ0 HQ. unfold mmu_alloc_sub_table_locked. wp_step.
  apply wp_page_alloc; [done|done| |].
  { intros p' Hs. cbn iota. change (0 =? 0) with true. cbn iota. wp_step. by apply HQ0. }
  intros a p1 Hs Ha Hnone Hz. pose proof Ha as [_ Har]. bfalse (a =? 0). wp_step.
  rewrite va_to_pa_low by (unfold KERNEL_VA_OFFSET; lia).
  assert (a ∉ mm_pages c) as Hnew by (intros [r Hr]%(cx_own _ _ _ Hc); congruence).
  apply (wp_add_page mm c); [done|lia|done|done| |].
  - intros _ Hlen. cbn. wp_step.
    assert (∀ w, pg w = a → fe_mine p1 w) as Hmine.
    { intros w Hw. eapply fe_own_mine; [apply (vs_ok _ _ _ _ Hs)|apply (vmstep_one _ _ _ _ Hs)|done]. }
    apply wp_zero_table; [done|apply (vs_ok _ _ _ _ Hs)|auto..|].
    intros p2 Hs2. wp_step. apply wp_record_page. intros t'. wp_step.
    assert (vmstep p p2 [a] nowhere) as Hs' by (by eapply (vmstep_trans _ _ _ [a] []); auto).
    apply HQ; [done|done| |].
    + eapply ctx_add; eauto.
    + intros i Hi. pose proof (Hmine _ (pg_entry _ _ Ha Hi)) as Hw.
      rewrite (proj2 (vs_mem _ _ _ _ Hs2 _ Hw)) by (by intros []). by apply Hz.
  - intros _ _. cbn. wp_step. eapply wp_free_new; [done..|]. intros p2 Hs2. wp_step. by apply HQ0.
Qed.

(** The context with a new table linked below [(l, x)]. *)
Lemma ctx_link p c T l x b i a : fe_ok p → ctx_ok p c T → T !! (l, x) = Some b → l < 3 → 0 ≤ i < 512 →
  T !! (l + 1, x * 512 + i) = None → page_ok a → ¬ tabs T a → a ∈ mm_pages c →
  (∀ j, 0 ≤ j < 512 → mrd (pmem p) (a + 8 * j) = 0) →
  let p' := pwrite (b + 8 * i) (Z.lor a MMU_DESC_TABLE) p in
  let T' := <[(l + 1, x * 512 + i) := a]> T in
  ctx_ok p' c T' ∧ (∀ v, leaf (pmem p') T' v = leaf (pmem p) T v) ∧ vmstep p p' [] (tabs T).
Proof.
  intros Hp Hc Hb Hl Hi Hfree Ha Hnew Hin Hz p' T'. pose proof (ctx_tab_ok _ _ _ _ _ Hc Hb) as Hbok.
  assert (tabs T b) as Htb by (by eexists).
  assert (vmstep p p' [] (tabs T)) as Hs.
  { apply vmstep_write; [done| |by rewrite pg_entry]. eapply ctx_mine; [done..|by apply pg_entry]. }
  destruct (tree_add (pmem p) (pmem p') T (mm_root_pa c) (cx_tree _ _ _ Hc) l x b i a) as [Ht Hlf]; try done.
  - intros j Hj. unfold wd, p'. rewrite pmem_pwrite, decide_False; [by apply Hz|].
    intros [-> _]%entry_inj; done.
  - unfold wd, p'. by rewrite pmem_pwrite, decide_True.
  - intros w Hw Hne. unfold p'. by rewrite pmem_pwrite, decide_False.
  - split; [|done]. destruct Hc as [_ Hi' Ho Hn Hlen]. split; try done.
    + intros d [k [[<- <-]|[_ Hd]]%lookup_insert_Some]; [done|]. apply Hi'. by exists k.
    + intros d Hd. rewrite (vs_own _ _ _ _ Hs). by apply Ho.
Qed.

Lemma pa_to_va_nonzero a : page_ok a → (pa_to_va a =? 0) = false.
Proof. intros [_ ?]. apply Z.eqb_neq. rewrite pa_to_va_eq by lia. unfold KERNEL_VA_OFFSET. lia. Qed.

(** What an entry of a table above level 3 holds. *)
Lemma ctx_entry p c T l x b i : ctx_ok p c T → T !! (l, x) = Some b → l < 3 → 0 ≤ i < 512 →
  desc_block (wd (pmem p) b i) = false ∧
  match T !! (l + 1, x * 512 + i) with
  | Some d => page_ok d ∧ desc_valid (wd (pmem p) b i) = true ∧ desc_table (wd (pmem p) b i) = true ∧
              desc_addr (wd (pmem p) b i) = d
  | None => desc_valid (wd (pmem p) b i) = false ∧ desc_table (wd (pmem p) b i) = false
  end.
Proof.
  intros Hc Hb Hl Hi. pose proof (tr_entry _ _ _ (cx_tree _ _ _ Hc) l x b i Hb Hl Hi) as He.
  destruct (desc_kinds (wd (pmem p) b i)) as (Hv & Ht & _ & Hbl). rewrite Hbl.
  destruct (T !! (l + 1, x * 512 + i)) as [d|] eqn:Hd.
  - destruct He as [Htab Haddr]. rewrite Ht in Htab. apply andb_true_iff in Htab as [H0' H1].
    rewrite H1. split; [by rewrite andb_false_r|]. rewrite Hv, Ht, H0', H1. 
    split; [by eapply ctx_tab_ok|done].
  - rewrite Hv in He. by rewrite Hv, Ht, He.
Qed.

Lemma wp_find_level_lookup mm c T l x b i name (Q : Z → vstate P → Prop) p t X s :
  ctx_ok p c T → T !! (l, x) = Some b → 0 ≤ l < 3 → 0 ≤ i < 512 →
  Q (match T !! (l + 1, x * 512 + i) with Some d => pa_to_va d | None => 0 end) (vst p t X s) →
  wp (find_level mm (pa_to_va b) i l false name) Q (vst p t X s).
Proof.
  intros Hc Hb Hl Hi HQ. pose proof (ctx_tab_ok _ _ _ _ _ Hc Hb) as Hbok.
  destruct (ctx_entry p c T l x b i) as [Hbl He]; [done..|lia|done|].
  unfold find_level. wp_step. apply wp_load_entry; [done..|]. cbn zeta. rewrite Hbl, !andb_false_r. cbn [andb negb whenM].
  wp_step. wp_step. wp_step. apply wp_load_entry; [done..|].
  destruct (T !! (l + 1, x * 512 + i)) as [d|].
  - destruct He as (_ & -> & _ & ->). cbn [negb]. by wp_step.
  - destruct He as [-> _]. cbn [negb]. by wp_step.
Qed.

Lemma wp_find_level_create mm c T l x b i name (Q : Z → vstate P → Prop) p t X s :
  ready p X mm c T → T !! (l, x) = Some b → 0 ≤ l < 3 → 0 ≤ i < 512 →
  (∀ p' t' c' T' new r, grown p c T p' c' T' new →
     r = 0 ∨ (∃ d, T' !! (l + 1, x * 512 + i) = Some d ∧ r = pa_to_va d) →
     Q r (vst p' t' (<[mm := c']> X) s)) →
  wp (find_level mm (pa_to_va b) i l true name) Q (vst p t X s).
Proof.
  intros Hrd Hb Hl Hi HQ. destruct Hrd as [Hmm HX Hp Hc Hlk] eqn:Heq; clear Heq.
  pose proof (ctx_tab_ok _ _ _ _ _ Hc Hb) as Hbok.
  destruct (ctx_entry p c T l x b i) as [Hbl He]; [done..|lia|done|].
  unfold find_level. wp_step. apply wp_load_entry; [done..|]. cbn zeta. rewrite Hbl, !andb_false_r. cbn [andb negb whenM].
  wp_step. wp_step. wp_step. apply wp_load_entry; [done..|].
  destruct (T !! (l + 1, x * 512 + i)) as [d|] eqn:Hd.
  - destruct He as (_ & -> & _ & ->). cbn [negb]. wp_step. rewrite <- (insert_id X mm c) by done.
    eapply HQ; [by apply grown_refl|]. right. by exists d.
  - destruct He as [-> _]. cbn [negb]. wp_step. apply (wp_alloc_sub_table mm c T); [done| |].
    + intros p' Hs. change (0 =? 0) with true. cbn iota. wp_step. rewrite <- (insert_id X mm c) by done.
      destruct (ctx_frame p p' [] nowhere c T) as [Hc' Hlf]; [done..|by intros ? ? []|].
      eapply HQ; [|by left]. split; [|done|by rewrite add_pages_nil|done|by left|done].
      eapply vmstep_weaken; [done|]. by intros ? [].
    + intros a p1 t1 Hs Ha Hc1 Hz. pose proof Ha as [_ Har]. bfalse (a =? 0). wp_step.
      rewrite va_to_pa_low by (unfold KERNEL_VA_OFFSET; lia).
      assert (¬ tabs T a) as Hnew.
      { intros Ht. apply (cx_tabs _ _ _ Hc), (cx_own _ _ _ Hc) in Ht as [r Hr].
        destruct (vmstep_one _ _ _ _ Hs) as (_ & Hn & _). congruence. }
      destruct (ctx_frame p p1 [a] nowhere c T) as [_ Hlf]; [done..|by intros ? ? []|].
      edestruct (ctx_link p1 (add_pages [a] c) T l x b i a) as (Hc2 & Hlf2 & Hs2);
        [apply (vs_ok _ _ _ _ Hs)|done|done|lia|done|done|done|done| |done|].
      { simpl. apply elem_of_app. right. by apply list_elem_of_singleton. }
      apply wp_store_entry; [done..|]. wp_step. apply wp_load_entry; [done..|]. wp_step.
      replace (wd _ b i) with (Z.lor a MMU_DESC_TABLE) by (unfold wd; by rewrite pmem_pwrite, decide_True).
      destruct (table_desc_ok a Ha) as [_ ->].
      eapply (HQ _ t1 _ _ [a]); [|right; exists a; by rewrite lookup_insert_eq].
      split; [|done|done| | |].
      * eapply (vmstep_trans _ _ _ [a] []); [done|done|by intros ? []|by left].
      * by apply insert_subseteq.
      * intros d' [k [[_ <-]|[_ ?]]%lookup_insert_Some]; [right; by apply list_elem_of_singleton|left; by exists k].
      * intros v. by rewrite Hlf2, Hlf.
Qed.

Lemma wp_find_pte_create mm c T va (Q : Z → vstate P → Prop) p t X s :
  ready p X mm c T →
  (∀ p' t' c' T' new r, grown p c T p' c' T' new →
     r = 0 ∨ (∃ d, T' !! (3, pfx3 va) = Some d ∧ r = pa_to_va d) →
     Q r (vst p' t' (<[mm := c']> X) s)) →
  wp (mmu_find_pte_locked mm va true) Q (vst p t X s).
Proof.
  intros Hrd HQ. pose proof (index_range va) as (HL0 & HL1 & HL2 & _).
  pose proof (rd_mm _ _ _ _ _ Hrd). unfold mmu_find_pte_locked. bfalse (mm =? 0).
  wp_step. eapply wp_get_mm; [apply Hrd|]. wp_step.
  apply (wp_find_level_create mm c T 0 0); [done|apply (cx_tree _ _ _ (rd_ctx _ _ _ _ _ Hrd))|lia|done|].
  intros p1 t1 c1 T1 n1 r1 Hg1 Hr1. pose proof (grown_ready _ _ _ _ _ _ _ _ _ Hrd Hg1) as Hrd1.
  destruct Hr1 as [->|(d1 & Hd1 & ->)]; [change (0 =? 0) with true; cbn iota; wp_step; eapply HQ; [done|by left]|].
  rewrite pa_to_va_nonzero by (eapply ctx_tab_ok; [apply Hg1|done]). wp_step.
  apply (wp_find_level_create mm c1 T1 1 (pfx1 va)); [done|done|lia|done|].
  intros p2 t2 c2 T2 n2 r2 Hg2 Hr2. pose proof (grown_ready _ _ _ _ _ _ _ _ _ Hrd1 Hg2) as Hrd2.
  pose proof (grown_trans _ _ _ _ _ _ _ _ _ _ _ Hg1 Hg2) as Hg12. rewrite insert_insert_eq in *.
  destruct Hr2 as [->|(d2 & Hd2 & ->)]; [change (0 =? 0) with true; cbn iota; wp_step; eapply HQ; [done|by left]|].
  rewrite pa_to_va_nonzero by (eapply ctx_tab_ok; [apply Hg2|done]).
  apply (wp_find_level_create mm c2 T2 2 (pfx2 va)); [done|done|lia|done|].
  intros p3 t3 c3 T3 n3 r3 Hg3 Hr3. rewrite insert_insert_eq. eapply HQ; [|exact Hr3].
  by eapply grown_trans.
Qed.

(** Without creation: the L3 table when the tree has one. *)
Definition l3_of T (va : Z) : option Z := T !! (3, pfx3 va).

Lemma wp_find_pte_lookup mm c T va (Q : Z → vstate P → Prop) p t X s :
  mm ≠ 0 → X !! mm = Some c → ctx_ok p c T →
  Q (match l3_of T va with Some d => pa_to_va d | None => 0 end) (vst p t X s) →
  wp (mmu_find_pte_locked mm va false) Q (vst p t X s).
Proof.
  intros Hmm HX Hc HQ. pose proof (index_range va) as (HL0 & HL1 & HL2 & HL3).
  pose proof (tree_none _ _ _ (cx_tree _ _ _ Hc)) as Hnone.
  unfold mmu_find_pte_locked. bfalse (mm =? 0).
  wp_step. eapply wp_get_mm; [done|]. wp_step.
  apply (wp_find_level_lookup mm c T 0 0); [done|apply (cx_tree _ _ _ Hc)|lia|done|].
  change (0 + 1, 0 * 512 + L0_INDEX_FOR va) with (1, pfx1 va).
  destruct (T !! (1, pfx1 va)) as [d1|] eqn:Hd1; cycle 1.
  { change (0 =? 0) with true. cbn iota. wp_step. unfold l3_of in HQ.
    replace (T !! (3, pfx3 va)) with (@None Z) in HQ; [done|]. symmetry.
    apply (Hnone 2); [|lia|done]. by apply (Hnone 1). }
  rewrite pa_to_va_nonzero by (by eapply ctx_tab_ok). wp_step.
  apply (wp_find_level_lookup mm c T 1 (pfx1 va)); [done..|lia|done|].
  change (1 + 1, pfx1 va * 512 + L1_INDEX_FOR va) with (2, pfx2 va).
  destruct (T !! (2, pfx2 va)) as [d2|] eqn:Hd2; cycle 1.
  { change (0 =? 0) with true. cbn iota. wp_step. unfold l3_of in HQ.
    replace (T !! (3, pfx3 va)) with (@None Z) in HQ; [done|]. symmetry. by apply (Hnone 2). }
  rewrite pa_to_va_nonzero by (by eapply ctx_tab_ok).
  by apply (wp_find_level_lookup mm c T 2 (pfx2 va)); [done..|lia|done|].
Qed.

(** The walk of a translation, against the view. *)
Lemma wp_next_table c T l x b i (Q : option Z → vstate P → Prop) p t X s :
  ctx_ok p c T → T !! (l, x) = Some b → 0 ≤ l < 3 → 0 ≤ i < 512 →
  Q (pa_to_va <$> T !! (l + 1, x * 512 + i)) (vst p t X s) →
  wp (next_table (pa_to_va b) i) Q (vst p t X s).
Proof.
  intros Hc Hb Hl Hi HQ. destruct (ctx_entry p c T l x b i) as [_ He]; [done..|lia|done|].
  unfold next_table. wp_step. apply wp_load_entry; [by eapply ctx_tab_ok|done|]. wp_step.
  destruct (T !! (l + 1, x * 512 + i)) as [d|].
  - destruct He as (_ & _ & -> & ->). done.
  - destruct He as [_ ->]. done.
Qed.

Lemma wp_resolve_desc mm c T va (Q : option Z → vstate P → Prop) p t X s :
  mm ≠ 0 → X !! mm = Some c → ctx_ok p c T →
  Q ((λ d, entry_at (pa_to_va d) (L3_INDEX_FOR va)) <$> l3_of T va) (vst p t X s) →
  wp (mmu_resolve_user_page_desc mm va) Q (vst p t X s).
Proof.
  intros Hmm HX Hc HQ. pose proof (index_range va) as (HL0 & HL1 & HL2 & HL3).
  pose proof (tree_none _ _ _ (cx_tree _ _ _ Hc)) as Hnone.
  unfold mmu_resolve_user_page_desc. bfalse (mm =? 0).
  wp_step. eapply wp_get_mm; [done|]. wp_step.
  eapply (wp_next_table c T 0 0); [done|apply (cx_tree _ _ _ Hc)|lia|done|].
  change (0 + 1, 0 * 512 + L0_INDEX_FOR va) with (1, pfx1 va). unfold l3_of in HQ.
  destruct (T !! (1, pfx1 va)) as [d1|] eqn:Hd1; cbn [fmap option_fmap option_map]; cycle 1.
  { wp_step. rewrite (Hnone 2 (pfx2 va) (L2_INDEX_FOR va) (Hnone 1 _ _ Hd1 eq_refl HL1) eq_refl HL2 : T !! (3, pfx3 va) = None) in HQ. done. }
  wp_step. eapply (wp_next_table c T 1 (pfx1 va)); [done..|lia|done|].
  change (1 + 1, pfx1 va * 512 + L1_INDEX_FOR va) with (2, pfx2 va).
  destruct (T !! (2, pfx2 va)) as [d2|] eqn:Hd2; cbn [fmap option_fmap option_map]; cycle 1.
  { wp_step. rewrite (Hnone 2 _ _ Hd2 eq_refl HL2 : T !! (3, pfx3 va) = None) in HQ. done. }
  wp_step. eapply (wp_next_table c T 2 (pfx2 va)); [done..|lia|done|].
  change (2 + 1, pfx2 va * 512 + L2_INDEX_FOR va) with (3, pfx3 va).
  by destruct (T !! (3, pfx3 va)) as [d3|]; cbn [fmap option_fmap option_map]; wp_step.
Qed.

(** ** Changing one mapping *)

Record mapped p c T p' c' T' (new : list Z) (v e : Z) : Prop := {
  mp_step : vmstep p p' new (tabs T);
  mp_ctx : ctx_ok p' c' T';
  mp_add : c' = add_pages new c;
  mp_sub : T ⊆ T';
  mp_tabs : ∀ a, tabs T' a → tabs T a ∨ a ∈ new;
  mp_leaf : ∀ v', leaf (pmem p') T' v' =
    if decide (v' = v) then (if desc_valid e then Some e else None) else leaf (pmem p) T v';
}.

Lemma mapped_store p c T v b e : fe_ok p → ctx_ok p c T → T !! (3, v / 512) = Some b →
  (desc_valid e = true → desc_page e = true) →
  mapped p c T (pwrite (b + 8 * (v mod 512)) e p) c T [] v e.
Proof.
  intros Hp Hc Hb He. pose proof (ctx_tab_ok _ _ _ _ _ Hc Hb) as Hbok.
  pose proof (Z.mod_pos_bound v 512 eq_refl) as Hv. assert (tabs T b) as Htb by (by eexists).
  set (p' := pwrite _ e p).
  assert (vmstep p p' [] (tabs T)) as Hs.
  { apply vmstep_write; [done| |by rewrite pg_entry]. eapply ctx_mine; [done..|by apply pg_entry]. }
  destruct (tree_set (pmem p) (pmem p') T (mm_root_pa c) (cx_tree _ _ _ Hc) v b e) as [Ht Hlf]; try done.
  - unfold wd, p'. by rewrite pmem_pwrite, decide_True.
  - intros w Hw Hne. unfold p'. by rewrite pmem_pwrite, decide_False.
  - split; [done| |by rewrite add_pages_nil|done|by left|done].
    destruct Hc as [_ Hi' Ho Hn Hlen]. split; try done. intros d Hd. rewrite (vs_own _ _ _ _ Hs). by apply Ho.
Qed.

Lemma mapped_grown p1 c1 T1 p2 c2 T2 p3 c3 T3 n1 n2 v e :
  grown p1 c1 T1 p2 c2 T2 n1 → mapped p2 c2 T2 p3 c3 T3 n2 v e → mapped p1 c1 T1 p3 c3 T3 (n1 ++ n2) v e.
Proof.
  intros [Hs1 Hc1 He1 Hb1 Ht1 Hl1] [Hs2 Hc2 He2 Hb2 Ht2 Hl2]. split.
  - eapply vmstep_trans; [done|done|done|]. intros q [?|?]%Ht1; auto.
  - done.
  - subst. unfold add_pages. simpl. by rewrite app_assoc.
  - by etrans.
  - intros a [[?|?]%Ht1|?]%Ht2; [by left|right; apply elem_of_app; auto..].
  - intros v'. by rewrite Hl2, Hl1.
Qed.

Lemma mapped_emit p c T p' c' T' new v e ev : mapped p c T p' c' T' new v e →
  mapped p c T (pemit ev p') c' T' new v e.
Proof.
  intros [Hs Hc He Hb Ht Hl]. 
  assert (vmstep p' (pemit ev p') [] nowhere) as Hs' by (apply vmstep_emit; apply (vs_ok _ _ _ _ Hs)).
  destruct (ctx_frame _ _ _ _ c' T' Hs') as [Hc' Hl']; [apply (vs_ok _ _ _ _ Hs)|done|by intros ? ? []|].
  split; [|done|done|done|done|].
  - rewrite <- (app_nil_r new). by eapply vmstep_trans; [done|done|done|intros ? []].
  - intros v'. by rewrite Hl', Hl.
Qed.

Lemma page_desc_page pa flags : desc_page (page_desc pa flags) = true.
Proof.
  rewrite desc_page_tb. unfold page_desc, bits. cbn [foldr]. change MMU_DESC_PAGE with 3.
  by rewrite !Z.lor_spec, !tb_3, !orb_true_l, !orb_true_r by lia.
Qed.

Lemma wp_map_locked mm c T va pa flags (Q : bool → vstate P → Prop) p t X s :
  ready p X mm c T →
  (∀ p' t' c' T' new, grown p c T p' c' T' new → Q false (vst p' t' (<[mm := c']> X) s)) →
  (∀ p' t' c' T' new, mapped p c T p' c' T' new (vpn va) (page_desc pa flags) →
     Q true (vst p' t' (<[mm := c']> X) s)) →
  wp (mmu_map_user_page_locked mm va pa flags) Q (vst p t X s).
Proof.
  intros Hrd HQ0 HQ. pose proof (rd_mm _ _ _ _ _ Hrd). unfold mmu_map_user_page_locked. bfalse (mm =? 0).
  wp_step. apply (wp_find_pte_create mm c T); [done|]. intros p1 t1 c1 T1 n1 r1 Hg Hr.
  pose proof (grown_ready _ _ _ _ _ _ _ _ _ Hrd Hg) as Hrd1.
  destruct Hr as [->|(b & Hb & ->)]; [change (0 =? 0) with true; cbn iota; wp_step; by eapply HQ0|].
  pose proof (ctx_tab_ok _ _ _ _ _ (gr_ctx _ _ _ _ _ _ _ Hg) Hb) as Hbok. rewrite pa_to_va_nonzero by done.
  pose proof (index_range va) as (_ & _ & _ & HL3). destruct (vpn_split va) as [Hv1 Hv2].
  wp_step. apply wp_store_entry; [done..|]. wp_step. eapply wp_get_mm; [apply Hrd1|].
  wp_step. apply wp_tlbi_va. wp_step. eapply HQ. apply mapped_emit.
  eapply mapped_grown; [done|]. rewrite <- Hv2. rewrite <- Hv1 in Hb.
  apply mapped_store; [apply Hrd1|apply Hrd1|done|intros _; apply page_desc_page].
Qed.

(** ** Translation *)

Lemma wp_load_leaf c T va b (Q : Z → vstate P → Prop) p t X s :
  ctx_ok p c T → l3_of T va = Some b →
  Q (wd (pmem p) b (vpn va mod 512)) (vst p t X s) →
  wp (up (load64 (entry_at (pa_to_va b) (L3_INDEX_FOR va)))) Q (vst p t X s).
Proof.
  intros Hc Hb HQ. apply wp_load_entry; [by eapply ctx_tab_ok|apply index_range|].
  by rewrite <- (proj2 (vpn_split va)).
Qed.

Lemma leaf_at p c T va b : ctx_ok p c T → l3_of T va = Some b →
  leaf (pmem p) T (vpn va) =
    if desc_valid (wd (pmem p) b (vpn va mod 512)) then Some (wd (pmem p) b (vpn va mod 512)) else None.
Proof. intros _ Hb. unfold leaf. rewrite (proj1 (vpn_split va)). unfold l3_of in Hb. by rewrite Hb. Qed.

Lemma leaf_none p T va : l3_of T va = None → leaf (pmem p) T (vpn va) = None.
Proof. intros Hb. unfold leaf. rewrite (proj1 (vpn_split va)). unfold l3_of in Hb. by rewrite Hb. Qed.

Lemma wp_resolve mm c T va (Q : option (Z * Z) → vstate P → Prop) p t X s :
  mm ≠ 0 → X !! mm = Some c → ctx_ok p c T →
  Q ((λ e, (desc_addr e, e)) <$> leaf (pmem p) T (vpn va)) (vst p t X s) →
  wp (mmu_resolve_user_page mm va) Q (vst p t X s).
Proof.
  intros Hmm HX Hc HQ. unfold mmu_resolve_user_page. wp_step. eapply wp_resolve_desc; [done..|].
  destruct (l3_of T va) as [b|] eqn:Hb; cbn [fmap option_fmap option_map].
  - wp_step. eapply wp_load_leaf; [done..|]. wp_step. rewrite (leaf_at p c T va b) in HQ by done.
    destruct (desc_valid _) eqn:Hv.
    + rewrite (tr_leaf _ _ _ (cx_tree _ _ _ Hc) (pfx3 va) b); [exact HQ|done|by apply Z.mod_pos_bound|done].
    + replace (desc_page _) with false; [exact HQ|]. symmetry. unfold desc_page. by rewrite Hv.
  - wp_step. by rewrite leaf_none in HQ.
Qed.

(** ** Critical sections of a context *)

Lemma pheld_plocks l p : pheld (plocks l p) = l.
Proof. unfold pheld, plocks. by rewrite pmach_set. Qed.

Lemma vmstep_plocks l p p' new W : fe_ok p → vmstep (plocks l p) p' new W →
  vmstep p (plocks (pheld p) p') new W.
Proof.
  intros Hp [Hok (Hh & He & tr & Htr) Hl Hm Ho Hn].
  destruct (plocks_owner l p Hp) as [_ Ho1 Hm1 Hl1]. destruct (plocks_owner (pheld p) p' Hok) as [Hok' Ho2 Hm2 Hl2].
  split; [done| | | | |].
  - unfold plocks in *. rewrite pmach_set in *. split; [done|]. split; [done|]. by exists tr.
  - intros b w. by rewrite Hl2, Hl.
  - intros w Hw. apply Hm1, Hm in Hw as [Hw Heq]. split; [by apply Hm2|]. intros HW.
    rewrite !pmem_plocks in *. by apply Heq.
  - intros q. by rewrite Ho2, Ho, Ho1.
  - intros q [Hnone Hw]%Hn. split; [by rewrite <- Ho1|]. intros w Hmine. apply Hw. by apply Hm1.
Qed.

Lemma ctx_plocks l p c T : fe_ok p → ctx_ok p c T ↔ ctx_ok (plocks l p) c T.
Proof.
  intros Hp. destruct (plocks_owner l p Hp) as [_ Ho _ _].
  split; intros [Ht Hi Hw Hn Hlen]; (split; [|done| |done|done]).
  - by rewrite pmem_plocks.
  - intros a Ha%Hw. by rewrite Ho.
  - by rewrite pmem_plocks in Ht.
  - intros a Ha%Hw. by rewrite <- Ho.
Qed.

Lemma can_lock_rank l1 l2 held : can_lock l1 held = true → rank l1 < rank l2 → can_lock l2 (l1 :: held) = true.
Proof.
  unfold can_lock. rewrite !forallb_forall. intros Hl Hr h [<-|Hin].
  - rewrite bool_decide_false by (intros ->; lia). cbn. by apply Z.leb_le; lia.
  - apply Hl, andb_true_iff in Hin as [_ Hin%Z.leb_le].
    rewrite bool_decide_false by (intros ->; lia). by apply Z.leb_le; lia.
Qed.

Lemma can_lock_up l1 l2 held : can_lock l1 held = true → rank l1 < rank l2 → can_lock l2 held = true.
Proof.
  intros Hl Hr%(can_lock_rank _ _ _ Hl). unfold can_lock in *. cbn in Hr. by apply andb_true_iff in Hr as [_ ?].
Qed.

(** Outside a critical section of the context. *)
Record idle p X mm c T : Prop := {
  id_mm : mm ≠ 0;
  id_at : X !! mm = Some c;
  id_ok : fe_ok p;
  id_ctx : ctx_ok p c T;
  id_lock : can_lock (L_mm mm) (pheld p) = true;
}.

Definition in_mm mm p : P := plocks (L_mm mm :: pheld p) p.

Lemma idle_ready p X mm c T : idle p X mm c T → ready (in_mm mm p) X mm c T.
Proof.
  intros [? ? Hp ? Hl]. split; [done|done| | |].
  - by apply plocks_owner.
  - by apply ctx_plocks.
  - unfold in_mm. rewrite pheld_plocks. by apply can_lock_rank.
Qed.

Lemma wp_lock_mm mm c T (Q : unit → vstate P → Prop) p t X s :
  idle p X mm c T → Q () (vst (in_mm mm p) t X s) → wp (lock_mm mm) Q (vst p t X s).
Proof.
  intros [? ? ? ? ?] HQ. unfold lock_mm. wp_step. eapply wp_get_mm; [done|]. by apply wp_vlock.
Qed.

(** The section ends: the outer locks are back. *)
Lemma wp_unlock_mm mm new W (Q : unit → vstate P → Prop) p p' t X s :
  vmstep (in_mm mm p) p' new W → Q () (vst (plocks (pheld p) p') t X s) →
  wp (vunlock (L_mm mm)) Q (vst p' t X s).
Proof.
  intros Hs HQ. eapply wp_vunlock; [|done]. rewrite (vmstep_held _ _ _ _ Hs). apply pheld_plocks.
Qed.

Lemma grown_out mm p c T p' c' T' new : fe_ok p → grown (in_mm mm p) c T p' c' T' new →
  grown p c T (plocks (pheld p) p') c' T' new.
Proof.
  intros Hp [Hs Hc He Hb Ht Hl]. unfold in_mm in *. split; [by eapply vmstep_plocks| |done|done|done|].
  - apply ctx_plocks; [apply (vs_ok _ _ _ _ Hs)|done].
  - intros v. rewrite pmem_plocks, Hl. by rewrite pmem_plocks.
Qed.
Lemma mapped_out mm p c T p' c' T' new v e : fe_ok p → mapped (in_mm mm p) c T p' c' T' new v e →
  mapped p c T (plocks (pheld p) p') c' T' new v e.
Proof.
  intros Hp [Hs Hc He Hb Ht Hl]. unfold in_mm in *. split; [by eapply vmstep_plocks| |done|done|done|].
  - apply ctx_plocks; [apply (vs_ok _ _ _ _ Hs)|done].
  - intros v'. rewrite pmem_plocks, Hl. by rewrite pmem_plocks.
Qed.

Lemma wp_map mm c T va pa flags (Q : bool → vstate P → Prop) p t X s :
  idle p X mm c T →
  (∀ p' t' c' T' new, grown p c T p' c' T' new → Q false (vst p' t' (<[mm := c']> X) s)) →
  (∀ p' t' c' T' new, mapped p c T p' c' T' new (vpn va) (page_desc pa flags) →
     Q true (vst p' t' (<[mm := c']> X) s)) →
  wp (mmu_map_user_page mm va pa flags) Q (vst p t X s).
Proof.
  intros Hid HQ0 HQ. pose proof (id_mm _ _ _ _ _ Hid). unfold mmu_map_user_page. bfalse (mm =? 0).
  wp_step. eapply wp_lock_mm; [done|]. wp_step. apply (wp_map_locked mm c T); [by apply idle_ready| |].
  - intros p' t' c' T' new Hg. wp_step. eapply wp_unlock_mm; [apply Hg|]. wp_step.
    eapply HQ0. eapply grown_out; [apply Hid|done].
  - intros p' t' c' T' new Hm. wp_step. eapply wp_unlock_mm; [apply Hm|]. wp_step.
    eapply HQ. eapply mapped_out; [apply Hid|done].
Qed.

Lemma wp_user_page_pa mm c T va (Q : option Z → vstate P → Prop) p t X s :
  idle p X mm c T →
  (∀ p', vmstep p p' [] nowhere → Q (desc_addr <$> leaf (pmem p) T (vpn va)) (vst p' t X s)) →
  wp (mmu_user_page_pa mm va) Q (vst p t X s).
Proof.
  intros Hid HQ. pose proof (id_mm _ _ _ _ _ Hid) as Hmm. unfold mmu_user_page_pa. bfalse (mm =? 0).
  wp_step. eapply wp_lock_mm; [done|]. apply idle_ready in Hid as Hrd.
  wp_step. eapply wp_resolve; [apply Hrd..|]. wp_step.
  pose proof (vmstep_refl (in_mm mm p) nowhere (rd_ok _ _ _ _ _ Hrd)) as Hs.
  eapply wp_unlock_mm; [exact Hs|]. wp_step. unfold in_mm. rewrite pmem_plocks.
  destruct (leaf (pmem p) T (vpn va)); apply HQ; (eapply vmstep_plocks; [apply Hid|exact Hs]).
Qed.

End map.
