(* ===== verification/VmOwn.v ===== *)
(** * Who owns which page: the invariant of all address spaces

    [vm_ok p X F]: every context of [X] has a well-formed tree [F mm]; the
    reference count of a tracked page is the number of contexts that track it;
    table pages and pages mapped writable are tracked by one context only. *)

From S2P Require Import Prelude Machine MmuTable MmuBoot Vmsa VmsaWalk VmsaFault VmBits VmsaSpec VmTree VmMap.

Open Scope kernel_scope.

(** ** Counting the contexts that track a page *)

Definition tracking (a : Z) (kv : Z * mm_context) : Prop := a ∈ mm_pages kv.2.
#[export] Instance tracking_dec a kv : Decision (tracking a kv).
Proof. unfold tracking. apply _. Defined.

Definition trackers (X : gmap Z mm_context) (a : Z) : nat := size (filter (tracking a) X).

Definition tracks (c : mm_context) (a : Z) : nat := if decide (a ∈ mm_pages c) then 1 else 0.

Definition sole (X : gmap Z mm_context) (mm a : Z) : Prop :=
  ∀ mm' c', X !! mm' = Some c' → a ∈ mm_pages c' → mm' = mm.

Lemma trackers_new X mm c a : X !! mm = None →
  trackers (<[mm := c]> X) a = (trackers X a + tracks c a)%nat.
Proof.
  intros HX. unfold trackers, tracks. rewrite map_filter_insert.
  rewrite (decide_ext (tracking a (mm, c)) (a ∈ mm_pages c)) by done. destruct (decide (a ∈ mm_pages c)).
  - rewrite map_size_insert_None; [lia|]. apply map_lookup_filter_None. by left.
  - rewrite delete_id by done. lia.
Qed.

Lemma trackers_delete X mm c a : X !! mm = Some c →
  trackers X a = (trackers (delete mm X) a + tracks c a)%nat.
Proof.
  intros HX. rewrite <- (insert_delete_id X mm c HX) at 1. by rewrite trackers_new by apply lookup_delete_eq.
Qed.

Lemma trackers_update X mm c c' a : X !! mm = Some c →
  (trackers (<[mm := c']> X) a + tracks c a = trackers X a + tracks c' a)%nat.
Proof.
  intros HX. rewrite (trackers_delete X mm c a HX), <- insert_delete_eq, trackers_new by apply lookup_delete_eq.
  lia.
Qed.

Lemma trackers_pos X mm c a : X !! mm = Some c → a ∈ mm_pages c → (0 < trackers X a)%nat.
Proof.
  intros HX Ha. rewrite (trackers_delete X mm c a HX). unfold tracks. rewrite decide_True by done. lia.
Qed.

Lemma trackers_one X mm c a : X !! mm = Some c → a ∈ mm_pages c →
  (trackers X a = 1%nat ↔ sole X mm a).
Proof.
  intros HX Ha. rewrite (trackers_delete X mm c a HX). unfold tracks. rewrite decide_True by done. split.
  - intros H1 mm' c' HX' Ha'. destruct (decide (mm' = mm)) as [|Hne]; [done|].
    pose proof (trackers_pos (delete mm X) mm' c' a) as Hpos.
    rewrite lookup_delete_ne in Hpos by done. specialize (Hpos HX' Ha'). lia.
  - intros Hs. unfold trackers.
    replace (filter (tracking a) (delete mm X)) with (∅ : gmap Z mm_context).
    { by rewrite map_size_empty. }
    symmetry. apply map_empty. intros mm'. apply map_lookup_filter_None. right. intros c' Hc' Ht.
    apply lookup_delete_Some in Hc' as [Hne Hc']. by apply Hne, eq_sym, (Hs mm' c').
Qed.

Lemma trackers_zero X a : (∀ mm c, X !! mm = Some c → a ∉ mm_pages c) ↔ trackers X a = 0%nat.
Proof.
  split.
  - intros Hn. unfold trackers. replace (filter (tracking a) X) with (∅ : gmap Z mm_context).
    { by rewrite map_size_empty. }
    symmetry. apply map_empty. intros mm. apply map_lookup_filter_None. right. intros c Hc Ht. by apply (Hn mm c).
  - intros H0 mm c Hc Ha. pose proof (trackers_pos X mm c a Hc Ha). lia.
Qed.

Section own.
Context {P : Type} `{FrameLaws P}.
Implicit Types (p : P) (s : vstate P) (t : treg) (X : gmap Z mm_context) (T : tmap) (F : Z → tmap).

Record vm_ok p X F : Prop := {
  vk_ok : fe_ok p;
  vk_live : ∀ mm c, X !! mm = Some c → mm ≠ 0 ∧ fe_live p mm;
  vk_ctx : ∀ mm c, X !! mm = Some c → ctx_ok p c (F mm);
  vk_count : ∀ mm c a, X !! mm = Some c → a ∈ mm_pages c → fe_own p a = Some (Z.of_nat (trackers X a));
  vk_tabs : ∀ mm c a, X !! mm = Some c → tabs (F mm) a → sole X mm a;
  vk_leaf : ∀ mm c v e, X !! mm = Some c → leaf (pmem p) (F mm) v = Some e →
    desc_addr e ∈ mm_pages c ∧ ¬ tabs (F mm) (desc_addr e);
  vk_inj : ∀ mm c v1 v2 e1 e2, X !! mm = Some c → leaf (pmem p) (F mm) v1 = Some e1 →
    leaf (pmem p) (F mm) v2 = Some e2 → desc_addr e1 = desc_addr e2 → v1 = v2;
  vk_write : ∀ mm c v e, X !! mm = Some c → leaf (pmem p) (F mm) v = Some e →
    mmu_user_access_allowed e true = true → sole X mm (desc_addr e);
}.

Definition fset F (mm : Z) T : Z → tmap := λ mm', if decide (mm' = mm) then T else F mm'.

Lemma vm_ok_ext p X F F' : (∀ mm, F' mm = F mm) → vm_ok p X F → vm_ok p X F'.
Proof.
  intros HF [? ? Hc Hn Ht Hl Hi Hw]. split; try done; intros mm c; rewrite HF; eauto.
Qed.
Lemma fset_id F mm : ∀ mm', F mm' = fset F mm (F mm) mm'.
Proof. intros mm'. unfold fset. by case_decide as Heq; [rewrite Heq|]. Qed.

(** The tables of one context are not pages of another. *)
Lemma tabs_other p X F mm c mm' c' a : vm_ok p X F → X !! mm = Some c → X !! mm' = Some c' → mm' ≠ mm →
  tabs (F mm) a → a ∉ mm_pages c'.
Proof. intros Hk HX HX' Hne Ha Hin. by apply Hne, (vk_tabs _ _ _ Hk mm c a HX Ha mm' c'). Qed.

(** One context changes: its tree takes new pages, the entry of one virtual
    page may change, nothing else does. *)
Record vm_mapped p X F mm c p' c' T' (new : list Z) : Prop := {
  vm_step_ : vmstep p p' new (tabs (F mm));
  vm_ctx_ : ctx_ok p' c' T';
  vm_add_ : c' = add_pages new c;
  vm_tabs_ : ∀ a, tabs T' a → tabs (F mm) a ∨ a ∈ new;
  vm_leaf_ : ∀ v e, leaf (pmem p') T' v = Some e → leaf (pmem p) (F mm) v = Some e ∨
    (desc_addr e ∈ mm_pages c ∧ ¬ tabs (F mm) (desc_addr e) ∧
     (∀ v' e', leaf (pmem p') T' v' = Some e' → desc_addr e' = desc_addr e → v' = v) ∧
     (mmu_user_access_allowed e true = true → sole X mm (desc_addr e)));
}.

Lemma new_untracked p X F a : vm_ok p X F → fe_own p a = None → ∀ mm c, X !! mm = Some c → a ∉ mm_pages c.
Proof. intros Hk Ha mm c HX Hin. by rewrite (vk_count _ _ _ Hk mm c a) in Ha. Qed.

Lemma vm_ok_mapped p X F mm c p' c' T' new : vm_ok p X F → X !! mm = Some c →
  vm_mapped p X F mm c p' c' T' new → vm_ok p' (<[mm := c']> X) (fset F mm T').
Proof.
  intros Hk HX [Hs Hc' Hadd Htb Hlf].
  assert (∀ a, a ∈ new → ∀ mm' c', X !! mm' = Some c' → a ∉ mm_pages c') as Hnew.
  { intros a Ha. eapply new_untracked; [done|]. by apply (vs_new _ _ _ _ Hs). }
  assert (∀ mm' c'', mm' ≠ mm → X !! mm' = Some c'' →
            ctx_ok p' c'' (F mm') ∧ ∀ v, leaf (pmem p') (F mm') v = leaf (pmem p) (F mm') v) as Hoth.
  { intros mm' c'' Hne HX'. eapply ctx_frame; [done|apply Hk|by eapply vk_ctx|].
    intros a Ha Hm. eapply (tabs_other p X F mm c mm' c''); [done..|].
    apply (cx_tabs _ _ _ (vk_ctx _ _ _ Hk mm' c'' HX')). done. }
  assert (∀ a, a ∈ mm_pages c' ↔ a ∈ mm_pages c ∨ a ∈ new) as Hin' by (intros a; subst c'; apply elem_of_app).
  assert (∀ mm' a, (a ∉ new) → sole X mm' a → (a ∈ mm_pages c → mm = mm') → sole (<[mm := c']> X) mm' a) as Hsole.
  { intros mm' a Ha Hso _ k d [[<- <-]|[_ Hd]]%lookup_insert_Some Hin; [|by apply (Hso k d)].
    apply Hin' in Hin as [Hin|]; [|done]. by apply (Hso mm c). }
  split.
  - apply (vs_ok _ _ _ _ Hs).
  - intros mm' c'' [[<- <-]|[_ Hd]]%lookup_insert_Some; rewrite (vs_live _ _ _ _ Hs); by eapply vk_live.
  - intros mm' c'' [[<- <-]|[Hne Hd]]%lookup_insert_Some; unfold fset.
    + by rewrite decide_True.
    + rewrite decide_False by done. by apply Hoth.
  - intros mm' c'' a HX' Ha. rewrite (vs_own _ _ _ _ Hs). pose proof (trackers_update X mm c c' a HX) as Hup.
    unfold tracks in Hup. destruct (decide (a ∈ new)) as [Hn|Hn].
    + rewrite (proj1 (trackers_zero X a) (Hnew a Hn)) in Hup.
      rewrite decide_False in Hup by by eapply Hnew. rewrite decide_True in Hup by (apply Hin'; by right).
      f_equal. lia.
    + replace (trackers (<[mm := c']> X) a) with (trackers X a); cycle 1.
      { rewrite (decide_ext (a ∈ mm_pages c') (a ∈ mm_pages c)) in Hup; [lia|]. rewrite Hin'. tauto. }
      apply lookup_insert_Some in HX' as [[<- <-]|[_ Hd]]; [|by eapply vk_count].
      apply Hin' in Ha as [Ha|]; [|done]. by eapply vk_count.
  - intros mm' c'' a HX' Ha. unfold fset in Ha. case_decide as Hm; [subst mm'|].
    + destruct (decide (a ∈ new)) as [Hn|Hn].
      * intros k d [[<- <-]|[_ Hd]]%lookup_insert_Some Hin; [done|]. by apply (Hnew a Hn) in Hd.
      * apply Hsole; [done| |done]. apply Htb in Ha as [Ha|]; [|done]. by eapply vk_tabs.
    + rewrite lookup_insert_ne in HX' by done.
      pose proof (vk_tabs _ _ _ Hk mm' c'' a HX' Ha) as Hso.
      assert (a ∈ mm_pages c'') as Hin by (by apply (cx_tabs _ _ _ (vk_ctx _ _ _ Hk mm' c'' HX'))).
      apply Hsole; [intros Hn; by eapply Hnew|done|]. intros Hi. by apply (Hso mm c).
  - intros mm' c'' v e HX' Hl. unfold fset in *. case_decide as Hm; [subst mm'|].
    + rewrite lookup_insert_eq in HX'. injection HX' as <-. rewrite Hin'.
      assert (desc_addr e ∈ mm_pages c ∧ ¬ tabs (F mm) (desc_addr e)) as [Hi Ht].
      { destruct (Hlf v e Hl) as [?|(? & ? & _)]; [by eapply vk_leaf|done]. }
      split; [by left|]. intros [?|?]%Htb; [done|by eapply Hnew].
    + rewrite lookup_insert_ne in HX' by done. destruct (Hoth mm' c'') as [_ Heq]; [done..|].
      rewrite Heq in Hl. by eapply vk_leaf.
  - intros mm' c'' v1 v2 e1 e2 HX' Hl1 Hl2 Heq. unfold fset in *. case_decide as Hm; [subst mm'|].
    + destruct (Hlf v1 e1 Hl1) as [Ho1|(_ & _ & Hu & _)]; [|symmetry; by eapply Hu].
      destruct (Hlf v2 e2 Hl2) as [Ho2|(_ & _ & Hu & _)]; [|by eapply Hu].
      by eapply (vk_inj _ _ _ Hk mm c).
    + rewrite lookup_insert_ne in HX' by done. destruct (Hoth mm' c'') as [_ Hsame]; [done..|].
      rewrite Hsame in Hl1, Hl2. by eapply (vk_inj _ _ _ Hk mm' c'').
  - intros mm' c'' v e HX' Hl Hw. unfold fset in *. case_decide as Hm; [subst mm'|].
    + assert (desc_addr e ∈ mm_pages c ∧ sole X mm (desc_addr e)) as [Hi Hso].
      { destruct (Hlf v e Hl) as [?|(? & ? & ? & ?)]; [|by auto]. split; [by eapply vk_leaf|by eapply vk_write]. }
      apply Hsole; [intros Hn; by eapply Hnew|done|done].
    + rewrite lookup_insert_ne in HX' by done. destruct (Hoth mm' c'') as [_ Hsame]; [done..|]. rewrite Hsame in Hl.
      pose proof (vk_write _ _ _ Hk mm' c'' v e HX' Hl Hw) as Hso.
      destruct (vk_leaf _ _ _ Hk mm' c'' v e HX' Hl) as [Hi _].
      apply Hsole; [intros Hn; by eapply Hnew|done|]. intros Hi'. by apply (Hso mm c).
Qed.

(** Environments that own the same pages with the same contents. *)
Lemma vm_ok_owner p X F p' : vm_ok p X F → same_owner p p' →
  (∀ w, mrd (pmem p') w = mrd (pmem p) w) → vm_ok p' X F.
Proof.
  intros Hk [Hok Ho Hmn Hl] Hm.
  assert (∀ mm c, X !! mm = Some c → ctx_ok p' c (F mm) ∧ ∀ v, leaf (pmem p') (F mm) v = leaf (pmem p) (F mm) v) as Hc.
  { intros mm c HX. destruct (vk_ctx _ _ _ Hk mm c HX) as [Ht Hi Hw Hn Hlen].
    destruct (tree_frame (pmem p) (pmem p') (F mm) (mm_root_pa c) Ht) as [Ht' Hlf]; [by intros|].
    split; [|done]. split; try done. intros a Ha. rewrite Ho. by apply Hw. }
  split; try done.
  - intros mm c HX. unfold fe_live. rewrite Hl. by eapply vk_live.
  - intros mm c HX. by apply Hc.
  - intros mm c a HX Ha. rewrite Ho. by eapply vk_count.
  - intros mm c a HX Ha. by eapply vk_tabs.
  - intros mm c v e HX. rewrite (proj2 (Hc mm c HX)). by eapply vk_leaf.
  - intros mm c v1 v2 e1 e2 HX. rewrite !(proj2 (Hc mm c HX)). by eapply vk_inj.
  - intros mm c v e HX. rewrite (proj2 (Hc mm c HX)). by eapply vk_write.
Qed.

(** A step that takes no page and writes in no page. *)
Lemma vm_ok_step p X F p' : vm_ok p X F → vmstep p p' [] nowhere → vm_ok p' X F.
Proof.
  intros Hk Hs.
  assert (∀ mm c, X !! mm = Some c → ctx_ok p' c (F mm) ∧ ∀ v, leaf (pmem p') (F mm) v = leaf (pmem p) (F mm) v) as Hc.
  { intros mm c HX. eapply ctx_frame; [done|apply Hk|by eapply vk_ctx|]. by intros ? _ []. }
  split; try done.
  - apply (vs_ok _ _ _ _ Hs).
  - intros mm c HX. rewrite (vs_live _ _ _ _ Hs). by eapply vk_live.
  - intros mm c HX. by apply Hc.
  - intros mm c a HX Ha. rewrite (vs_own _ _ _ _ Hs). by eapply vk_count.
  - intros mm c a HX Ha. by eapply vk_tabs.
  - intros mm c v e HX. rewrite (proj2 (Hc mm c HX)). by eapply vk_leaf.
  - intros mm c v1 v2 e1 e2 HX. rewrite !(proj2 (Hc mm c HX)). by eapply vk_inj.
  - intros mm c v e HX. rewrite (proj2 (Hc mm c HX)). by eapply vk_write.
Qed.

(** ** A context stops tracking a page *)

Record dropped p (a r : Z) p' : Prop := {
  dr_ok : fe_ok p';
  dr_grows : grows (pmach p) (pmach p');
  dr_span : ∀ b w, fe_span p' b w ↔ fe_span p b w;
  dr_mem : ∀ w, fe_mine p w → pg w ≠ a ∨ 1 < r → fe_mine p' w ∧ mrd (pmem p') w = mrd (pmem p) w;
  dr_own : ∀ q, fe_own p' q = if decide (q = a) then (if 1 <? r then Some (r - 1) else None) else fe_own p q;
}.

Lemma dr_live p a r p' : dropped p a r p' → ∀ b, fe_live p' b ↔ fe_live p b.
Proof. intros Hs b. apply (dr_span _ _ _ _ Hs). Qed.

Lemma wp_drop a r p t X s :
  fe_ok p → can_lock L_page (pheld p) = true → fe_own p a = Some r →
  (∀ Q : unit → vstate P → Prop, (∀ p', dropped p a r p' → Q () (vst p' t X s)) →
     wp (vm_page_free a) Q (vst p t X s)) ∧
  (∀ Q : Z → vstate P → Prop, (∀ v p', dropped p a r p' → Q v (vst p' t X s)) →
     wp (vm_page_ref_dec a) Q (vst p t X s)).
Proof.
  intros Hp Hl Ha. destruct (fe_drop_law p a r Hp Hl Ha) as [Hf Hd]. split; intros Q HQ; apply wp_env.
  - eapply wp_mono; [exact Hf|]. intros [] p' (? & ? & ? & ? & ?). by apply HQ.
  - eapply wp_mono; [exact Hd|]. intros v p' (? & ? & ? & ? & ?). by apply HQ.
Qed.

(** A context that does not use the page does not notice. *)
Lemma ctx_dropped p a r p' c T : fe_ok p → dropped p a r p' → ctx_ok p c T → ¬ tabs T a →
  (a ∈ mm_pages c → 1 < r) →
  ctx_ok p' c T ∧ ∀ v, leaf (pmem p') T v = leaf (pmem p) T v.
Proof.
  intros Hp [Hok Hg Hl Hm Ho] Hc Ha Hr.
  destruct (tree_frame (pmem p) (pmem p') T (mm_root_pa c)) as [Ht Hlf]; [apply Hc| |split; [|done]].
  - intros w Hw. apply Hm; [by eapply ctx_mine|]. left. by intros <-.
  - destruct Hc as [_ Hi Hw Hn Hlen]. split; try done. intros q Hq. rewrite Ho.
    case_decide; [subst q|by apply Hw]. rewrite (proj2 (Z.ltb_lt 1 r)); [done|by apply Hr].
Qed.

Lemma vm_ok_untrack p X F mm c a p' l : vm_ok p X F → X !! mm = Some c →
  remove_first a (mm_pages c) = Some l → ¬ tabs (F mm) a →
  (∀ v e, leaf (pmem p) (F mm) v = Some e → desc_addr e ≠ a) →
  dropped p a (Z.of_nat (trackers X a)) p' →
  vm_ok p' (<[mm := c <| mm_pages := l |>]> X) F ∧
  ∀ mm' c', X !! mm' = Some c' → ∀ v, leaf (pmem p') (F mm') v = leaf (pmem p) (F mm') v.
Proof.
  intros Hk HX Hrm Htab Hleaf Hd. pose proof (remove_first_spec a (mm_pages c)) as Hsp. rewrite Hrm in Hsp.
  destruct Hsp as (l1 & l2 & Hpg & Hn1 & ->). pose proof (vk_ctx _ _ _ Hk mm c HX) as Hc.
  pose proof (cx_nodup _ _ _ Hc) as Hnd. rewrite Hpg in Hnd.
  destruct (NoDup_mid_notin _ _ _ _ eq_refl Hnd) as [_ Hn2].
  set (c' := c <| mm_pages := l1 ++ l2 |>).
  assert (∀ q, q ∈ mm_pages c' ↔ q ∈ mm_pages c ∧ q ≠ a) as Hin'.
  { intros q. simpl. rewrite Hpg, !elem_of_app, elem_of_cons. split; [|tauto].
    intros [Hq|Hq]; (split; [tauto|by intros ->]). }
  assert (a ∈ mm_pages c) as Ha by (rewrite Hpg; apply elem_of_app; right; left).
  assert (∀ mm' c'', X !! mm' = Some c'' → ¬ tabs (F mm') a) as Htabs.
  { intros mm' c'' HX' Ht. pose proof (vk_tabs _ _ _ Hk mm' c'' a HX' Ht mm c HX Ha) as <-. done. }
  assert (∀ mm' c'', X !! mm' = Some c'' → mm' ≠ mm → a ∈ mm_pages c'' → 1 < Z.of_nat (trackers X a)) as Hshare.
  { intros mm' c'' HX' Hne Hi. pose proof (trackers_pos X mm c a HX Ha) as Hpos.
    destruct (decide (trackers X a = 1%nat)) as [H1|]; [|lia].
    destruct Hne. by apply (proj1 (trackers_one X mm c a HX Ha) H1 mm' c''). }
  assert (∀ mm' c'', X !! mm' = Some c'' → ∀ v, leaf (pmem p') (F mm') v = leaf (pmem p) (F mm') v) as Hsame.
  { intros mm' c'' HX'. apply (tree_frame (pmem p) (pmem p') (F mm') (mm_root_pa c'')).
    - apply (vk_ctx _ _ _ Hk mm' c'' HX').
    - intros w Hw. apply (dr_mem _ _ _ _ Hd); [|left; intros Heq; rewrite Heq in Hw; by apply (Htabs mm' c'')].
      eapply ctx_mine; [apply Hk|by apply (vk_ctx _ _ _ Hk mm' c'' HX')|done|done]. }
  assert (∀ mm' q, sole X mm' q → sole (<[mm := c']> X) mm' q) as Hsole.
  { intros mm' q Hso k d [[<- <-]|[_ Hd']]%lookup_insert_Some Hi; [|by apply (Hso k d)].
    apply Hin' in Hi as [Hi _]. by apply (Hso mm c). }
  assert (∀ q, trackers (<[mm := c']> X) q = if decide (q = a) then pred (trackers X a) else trackers X q) as Htr.
  { intros q. pose proof (trackers_update X mm c c' q HX) as Hup. unfold tracks in Hup.
    destruct (decide (q = a)) as [->|Hne].
    - rewrite (decide_True (P := a ∈ mm_pages c)) in Hup by done.
      rewrite (decide_False (P := a ∈ mm_pages c')) in Hup; [lia|]. intros [_ ?]%Hin'. done.
    - rewrite (decide_ext (q ∈ mm_pages c') (q ∈ mm_pages c)) in Hup; [lia|]. rewrite Hin'. tauto. }
  split; [|done]. split.
  - apply (dr_ok _ _ _ _ Hd).
  - intros mm' c'' [[<- <-]|[_ HX']]%lookup_insert_Some; rewrite (dr_live _ _ _ _ Hd); by eapply vk_live.
  - intros mm' c'' [[<- <-]|[Hne HX']]%lookup_insert_Some; cycle 1.
    { eapply ctx_dropped; [apply Hk|done|by eapply vk_ctx|by eapply Htabs|by eapply Hshare]. }
    destruct Hc as [Ht Hi Hw Hn Hlen]. split.
    + apply (tree_frame (pmem p) (pmem p') (F mm)); [done|].
      intros w Hw'. apply (dr_mem _ _ _ _ Hd); [|left; by intros <-].
      eapply ctx_mine; [apply Hk|by apply (vk_ctx _ _ _ Hk mm c HX)|done|done].
    + intros q Hq. apply Hin'. split; [by apply Hi|]. by intros ->.
    + intros q [Hq Hne]%Hin'. rewrite (dr_own _ _ _ _ Hd), decide_False by done. by apply Hw.
    + simpl. apply NoDup_app in Hnd as (Hd1 & Hd2 & Hd3). apply NoDup_app. split; [done|].
      apply NoDup_cons in Hd3 as [_ Hd3]. split; [|done]. intros q Hq Hq'. apply (Hd2 q Hq). by right.
    + simpl. rewrite Hpg, !length_app in Hlen. simpl in Hlen. rewrite length_app. lia.
  - intros mm' c'' q HX' Hq. rewrite Htr, (dr_own _ _ _ _ Hd).
    apply lookup_insert_Some in HX' as [[<- <-]|[Hne HX']].
    + apply Hin' in Hq as [Hq Hne]. rewrite !decide_False by done. by eapply vk_count.
    + case_decide as Heq; [subst q|by eapply vk_count].
      pose proof (Hshare mm' c'' HX' (not_eq_sym Hne) Hq).
      rewrite (proj2 (Z.ltb_lt 1 _)) by done. f_equal. lia.
  - intros mm' c'' q HX' Hq. apply Hsole. apply lookup_insert_Some in HX' as [[<- <-]|[_ HX']]; by eapply vk_tabs.
  - intros mm' c'' v e [[<- <-]|[Hne HX']]%lookup_insert_Some; rewrite (Hsame _ _ ltac:(done)).
    + intros Hl. rewrite Hin'. destruct (vk_leaf _ _ _ Hk mm c v e HX Hl) as [? ?]. split; [|done].
      split; [done|by eapply Hleaf].
    + intros Hl. by eapply vk_leaf.
  - intros mm' c'' v1 v2 e1 e2 [[<- <-]|[Hne HX']]%lookup_insert_Some; rewrite !(Hsame _ _ ltac:(done)); by eapply vk_inj.
  - intros mm' c'' v e [[<- <-]|[Hne HX']]%lookup_insert_Some; rewrite (Hsame _ _ ltac:(done)); intros Hl Hw;
      apply Hsole; by eapply vk_write.
Qed.

End own.
