(* ===== verification/VmUnmap.v ===== *)
(** * Unmapping: the entry is cleared and no table is ever merged *)

From S2P Require Import Prelude Machine MmuTable MmuBoot Vmsa VmsaWalk VmsaFault VmBits VmsaSpec VmTree VmMap VmOwn.

Open Scope kernel_scope.

Section unmap.
Context {P : Type} `{FrameLaws P}.
Implicit Types (p : P) (s : vstate P) (t : treg) (X : gmap Z mm_context) (T : tmap).

(** One invalid entry is enough for the scan to give up. *)
Lemma wp_merge_scan b j block_size sub_step sub_type (Q : option (Z * Z) → vstate P → Prop) p t X s :
  page_ok b → 0 ≤ j < 512 → desc_valid (wd (pmem p) b j) = false →
  Q None (vst p t X s) → wp (merge_scan (pa_to_va b) block_size sub_step sub_type) Q (vst p t X s).
Proof.
  intros Hb Hj Hinv HQ. unfold merge_scan. wp_step. eapply wp_mono.
  - apply (wp_iterM _ _ _
      (λ done (_ : Z * Z) s', s' = vst p t X s ∧ ∀ i, i ∈ done → desc_valid (wd (pmem p) b i) = true)
      (λ _ s', s' = vst p t X s)).
    + split; [done|]. by intros i ?%elem_of_nil.
    + intros pre i post [base attrs] s' Heq [-> Hpre].
      assert (0 ≤ i < 512) as Hi.
      { apply elem_of_split_mid in Heq. rewrite upto_seqZ, elem_of_seqZ in Heq. lia. }
      wp_step. apply wp_load_entry; [done..|].
      destruct (desc_valid (wd (pmem p) b i)) eqn:Hv; cbn [negb orb]; [|by wp_step].
      assert (∀ i', i' ∈ pre ++ [i] → desc_valid (wd (pmem p) b i') = true) as Hpre'.
      { intros i' [?| ->%list_elem_of_singleton]%elem_of_app; auto. }
      repeat first [apply wp_if; intros _ | by wp_step].
  - intros [ba|[]] s' Hs; [destruct Hs as [-> Hall]|subst s'; by wp_step].
    exfalso. rewrite (Hall j) in Hinv; [done|]. rewrite upto_seqZ, elem_of_seqZ. lia.
Qed.

Lemma wp_try_merge mm c T va b levels (Q : unit → vstate P → Prop) p t X s :
  X !! mm = Some c → ctx_ok p c T → l3_of T va = Some b → leaf (pmem p) T (vpn va) = None →
  Q () (vst p t X s) → wp (mmu_try_merge_table_locked levels mm va 3) Q (vst p t X s).
Proof.
  intros HX Hc Hb Hleaf HQ. pose proof (index_range va) as (HL0 & HL1 & HL2 & HL3).
  pose proof (cx_tree _ _ _ Hc) as Ht. pose proof (tr_root _ _ _ Ht) as Hr.
  assert (∀ l x i d, T !! (l + 1, x * 512 + i) = Some d → 0 ≤ i < 512 → 0 ≤ l →
            ∃ e, T !! (l, x) = Some e) as Hup.
  { intros l x i d Hd Hi Hl. destruct (T !! (l, x)) as [e|] eqn:He; [by eexists|].
    rewrite (tree_none _ _ _ Ht l x i He) in Hd by lia. done. }
  destruct (Hup 2 (pfx2 va) (L2_INDEX_FOR va) b) as [d2 Hd2]; [done..|].
  destruct (Hup 1 (pfx1 va) (L1_INDEX_FOR va) d2) as [d1 Hd1]; [done..|].
  destruct (ctx_entry p c T 0 0 (mm_root_pa c) (L0_INDEX_FOR va)) as [_ He0]; [done..|].
  destruct (ctx_entry p c T 1 (pfx1 va) d1 (L1_INDEX_FOR va)) as [_ He1]; [done..|].
  destruct (ctx_entry p c T 2 (pfx2 va) d2 (L2_INDEX_FOR va)) as [_ He2]; [done..|].
  change (0 + 1, 0 * 512 + L0_INDEX_FOR va) with (1, pfx1 va) in He0.
  change (1 + 1, pfx1 va * 512 + L1_INDEX_FOR va) with (2, pfx2 va) in He1.
  change (2 + 1, pfx2 va * 512 + L2_INDEX_FOR va) with (3, pfx3 va) in He2.
  unfold l3_of in Hb. rewrite Hd1 in He0. rewrite Hd2 in He1. rewrite Hb in He2.
  destruct He0 as (Hok1 & _ & _ & Ha0), He1 as (Hok2 & _ & _ & Ha1), He2 as (Hok3 & _ & _ & Ha2).
  rewrite (leaf_at p c T va b Hc Hb) in Hleaf.
  destruct (desc_valid _) eqn:Hv in Hleaf; [done|].
  pose proof (tr_root _ _ _ Ht) as Hroot.
  assert (page_ok (mm_root_pa c)) as Hokr by (by eapply ctx_tab_ok).
  destruct levels as [|levels]; cbn [mmu_try_merge_table_locked];
    change (3 =? 2) with false; change (3 =? 3) with true; cbv zeta; cbn iota;
    (wp_step; eapply wp_get_mm; [done|]; wp_step; apply wp_load_entry; [done..|]; rewrite Ha0;
     wp_step; wp_step; apply wp_load_entry; [done..|]; rewrite Ha1;
     wp_step; apply wp_load_entry; [done..|]; rewrite Ha2; wp_step;
     wp_step; eapply wp_merge_scan; [done|by apply Z.mod_pos_bound|exact Hv|]; by wp_step).
Qed.

(** [mmu_unmap_user_page] clears the entry of [va] and nothing else; it
    reports whether there was one. *)
Lemma wp_unmap mm c T va (Q : bool → vstate P → Prop) p t X s :
  idle p X mm c T →
  (leaf (pmem p) T (vpn va) = None → ∀ p', vmstep p p' [] nowhere → Q false (vst p' t X s)) →
  (∀ e, leaf (pmem p) T (vpn va) = Some e →
     ∀ p', mapped p c T p' c T [] (vpn va) 0 → Q true (vst p' t X s)) →
  wp (mmu_unmap_user_page mm va) Q (vst p t X s).
Proof.
  intros Hid HQ0 HQ. pose proof (id_mm _ _ _ _ _ Hid) as Hmm. unfold mmu_unmap_user_page. bfalse (mm =? 0).
  wp_step. eapply wp_lock_mm; [done|]. apply idle_ready in Hid as Hrd. pose proof (rd_ctx _ _ _ _ _ Hrd) as Hc.
  pose proof (vmstep_refl (in_mm mm p) nowhere (rd_ok _ _ _ _ _ Hrd)) as Hrefl.
  assert (vmstep p (plocks (pheld p) (in_mm mm p)) [] nowhere) as Hs0
    by (eapply vmstep_plocks; [apply Hid|exact Hrefl]).
  assert (leaf (pmem (in_mm mm p)) T (vpn va) = leaf (pmem p) T (vpn va)) as Hle
    by (unfold in_mm; by rewrite pmem_plocks).
  wp_step. eapply wp_find_pte_lookup; [apply Hrd..|]. destruct (l3_of T va) as [b|] eqn:Hb; cycle 1.
  { change (0 =? 0) with true. cbn iota. wp_step. eapply wp_unlock_mm; [exact Hrefl|]. wp_step.
    apply HQ0; [by apply leaf_none|done]. }
  pose proof (ctx_tab_ok _ _ _ _ _ Hc Hb) as Hbok. rewrite pa_to_va_nonzero by done.
  destruct (vpn_split va) as [Hv1 Hv2]. pose proof (index_range va) as (_ & _ & _ & HL3).
  wp_step. apply wp_load_entry; [done..|]. cbv zeta. wp_step. rewrite <- Hv2.
  pose proof (leaf_at _ _ _ va b Hc Hb) as Hat. rewrite Hle in Hat.
  destruct (desc_valid _) eqn:Hv; cbn [whenM]; cycle 1.
  { wp_step. wp_step. eapply wp_unlock_mm; [exact Hrefl|]. wp_step. by apply HQ0. }
  wp_step. apply wp_store_entry; [done..|by rewrite Hv2|].
  unfold l3_of in Hb. rewrite <- Hv1 in Hb.
  pose proof (mapped_store _ _ T (vpn va) b 0 (rd_ok _ _ _ _ _ Hrd) Hc Hb) as Hm.
  wp_step. eapply wp_get_mm; [apply Hrd|]. wp_step. apply wp_tlbi_va.
  apply (mapped_emit _ _ _ _ _ _ _ _ _ (Ev_tlbi_va (mm_asid c) va)) in Hm; [|done].
  eapply (wp_try_merge mm c T va b); [apply Hrd|apply Hm|unfold l3_of; by rewrite <- Hv1| |].
  { rewrite (mp_leaf _ _ _ _ _ _ _ _ _ Hm). by rewrite decide_True. }
  wp_step. eapply wp_unlock_mm; [apply Hm|]. wp_step. eapply HQ; [exact Hat|].
  eapply mapped_out; [apply Hid|exact Hm].
Qed.

(** ** Ranges

    The loop of [mmu_unmap_user_range] takes the address of the L3 table for
    the address of the entry: the page it unmaps is the first of the table. *)

Definition first_page (v : Z) : Z := 512 * (v / 512).

Lemma first_page_split v : first_page v / 512 = v / 512 ∧ first_page v mod 512 = 0.
Proof.
  unfold first_page. rewrite (Z.mul_comm 512). split; [by apply Z.div_mul|by apply Z.mod_mul].
Qed.

Lemma wp_load_first b (Q : Z → vstate P → Prop) p t X s :
  page_ok b → Q (wd (pmem p) b 0) (vst p t X s) → wp (up (load64 (pa_to_va b))) Q (vst p t X s).
Proof.
  intros Hb HQ. destruct (entry_at_pa b 0 Hb ltac:(lia)) as [Hok Hpa].
  assert (entry_at (pa_to_va b) 0 = pa_to_va b) as Heq.
  { unfold entry_at. rewrite Z.mul_0_r, Z.add_0_r. pose proof Hb as [_ ?]. rewrite pa_to_va_eq by lia.
    apply u64_small. unfold KERNEL_VA_OFFSET. lia. }
  rewrite <- Heq. by apply (wp_load_entry b 0).
Qed.
Lemma wp_store_first b v (Q : unit → vstate P → Prop) p t X s :
  page_ok b → Q () (vst (pwrite (b + 8 * 0) v p) t X s) → wp (up (store64 (pa_to_va b) v)) Q (vst p t X s).
Proof.
  intros Hb HQ. 
  assert (entry_at (pa_to_va b) 0 = pa_to_va b) as Heq.
  { unfold entry_at. rewrite Z.mul_0_r, Z.add_0_r. pose proof Hb as [_ ?]. rewrite pa_to_va_eq by lia.
    apply u64_small. unfold KERNEL_VA_OFFSET. lia. }
  rewrite <- Heq. by apply (wp_store_entry b 0).
Qed.

Lemma wp_remove_page mm c a l (Q : bool → vstate P → Prop) p t X s :
  mm ≠ 0 → a ≠ 0 → X !! mm = Some c → remove_first a (mm_pages c) = Some l →
  Q true (vst p t (<[mm := c <| mm_pages := l |>]> X) s) →
  wp (mmu_context_remove_page_locked mm a) Q (vst p t X s).
Proof.
  intros Hmm Ha HX Hl HQ. unfold mmu_context_remove_page_locked. bfalse (mm =? 0). bfalse (a =? 0).
  cbn [orb]. wp_step. eapply wp_get_mm; [done|]. rewrite Hl. wp_step. eapply wp_upd_mm; [done|].
  by wp_step.
Qed.

Lemma tracked_removable a (l : list Z) : a ∈ l → ∃ l', remove_first a l = Some l'.
Proof.
  intros Ha. pose proof (remove_first_spec a l) as Hs. destruct (remove_first a l); [by eexists|done].
Qed.

Lemma vm_mapped_clear p X F mm c p' v : vm_ok p X F → X !! mm = Some c →
  mapped p c (F mm) p' c (F mm) [] v 0 → vm_mapped p X F mm c p' c (F mm) [].
Proof.
  intros Hk HX [Hs Hc _ _ _ Hl]. split; [done|done|by rewrite add_pages_nil|by left|].
  intros v' e Hv. rewrite Hl in Hv. case_decide; [done|]. by left.
Qed.

(** The pages first of their tables for the addresses [l] are unmapped and
    dropped; nothing else changes. *)
Record range_cut p X F mm c (l : list Z) p' c' : Prop := {
  rc_ok : vm_ok p' (<[mm := c']> X) F;
  rc_ctx : ∃ pages, c' = c <| mm_pages := pages |>;
  rc_grows : grows (pmach p) (pmach p');
  rc_leaf : ∀ v, leaf (pmem p') (F mm) v =
    if decide (v ∈ (λ a, first_page (vpn a)) <$> l) then None else leaf (pmem p) (F mm) v;
  rc_other : ∀ mm' d v, mm' ≠ mm → X !! mm' = Some d → leaf (pmem p') (F mm') v = leaf (pmem p) (F mm') v;
}.

Lemma range_cut_nil p X F mm c : vm_ok p X F → X !! mm = Some c → range_cut p X F mm c [] p c.
Proof.
  intros Hk HX. split; [by rewrite insert_id| |done| |done].
  - exists (mm_pages c). by destruct c.
  - intros v. rewrite decide_False; [done|]. by intros ?%elem_of_nil.
Qed.

Lemma range_cut_app p X F mm c l1 p1 c1 l2 p2 c2 : range_cut p X F mm c l1 p1 c1 →
  range_cut p1 (<[mm := c1]> X) F mm c1 l2 p2 c2 → range_cut p X F mm c (l1 ++ l2) p2 c2.
Proof.
  intros [Hk1 [g1 ->] Hg1 Hl1 Ho1] [Hk2 [g2 ->] Hg2 Hl2 Ho2]. split.
  - by rewrite insert_insert_eq in Hk2.
  - by exists g2.
  - by etrans.
  - intros v. rewrite Hl2, Hl1, fmap_app. destruct (decide (v ∈ _ <$> l1)), (decide (v ∈ _ <$> l2)).
    1-3: by rewrite decide_True by (rewrite elem_of_app; tauto).
    by rewrite decide_False by (rewrite elem_of_app; tauto).
  - intros mm' d v Hne HX. rewrite (Ho2 mm' d v), (Ho1 mm' d v); try done. by rewrite lookup_insert_ne.
Qed.

(** The only effect of an iteration is on the first page of the table. *)
Lemma wp_unmap_range_page mm c va (Q : unit → vstate P → Prop) p t X s F :
  vm_ok p X F → X !! mm = Some c → can_lock L_page (pheld p) = true →
  (∀ p' c', range_cut p X F mm c [va] p' c' → Q () (vst p' t (<[mm := c']> X) s)) →
  wp (unmap_range_page mm va) Q (vst p t X s).
Proof.
  intros Hk HX Hlk HQ. pose proof (vk_ctx _ _ _ Hk mm c HX) as Hc. destruct (vk_live _ _ _ Hk mm c HX) as [Hmm _].
  assert (leaf (pmem p) (F mm) (first_page (vpn va)) = None → Q () (vst p t X s)) as HQ0.
  { intros Hn. rewrite <- (insert_id X mm c HX). apply HQ. split; [by rewrite insert_id| |done| |done].
    - exists (mm_pages c). by destruct c.
    - intros v. case_decide as Hv; [|done]. by apply list_elem_of_singleton in Hv as ->. }
  destruct (first_page_split (vpn va)) as [Hf1 Hf2]. destruct (vpn_split va) as [Hv1 Hv2].
  unfold unmap_range_page. wp_step. eapply wp_find_pte_lookup; [done..|].
  destruct (l3_of (F mm) va) as [b|] eqn:Hb; cycle 1.
  { change (0 =? 0) with true. cbn iota. wp_step. apply HQ0. unfold leaf. rewrite Hf1, Hv1.
    unfold l3_of in Hb. by rewrite Hb. }
  pose proof (ctx_tab_ok _ _ _ _ _ Hc Hb) as Hbok. rewrite pa_to_va_nonzero by done.
  assert (leaf (pmem p) (F mm) (first_page (vpn va)) =
          if desc_valid (wd (pmem p) b 0) then Some (wd (pmem p) b 0) else None) as Hat.
  { unfold leaf. rewrite Hf1, Hf2, Hv1. unfold l3_of in Hb. by rewrite Hb. }
  wp_step. apply wp_load_first; [done|]. destruct (desc_valid _) eqn:Hv; cbn [negb]; cycle 1.
  { wp_step. by apply HQ0. }
  set (e := wd (pmem p) b 0) in *. destruct (vk_leaf _ _ _ Hk mm c _ e HX Hat) as [Hin Htab].
  unfold l3_of in Hb. rewrite <- Hv1, <- Hf1 in Hb.
  pose proof (mapped_store p c (F mm) (first_page (vpn va)) b 0 (vk_ok _ _ _ Hk) Hc Hb) as Hm. rewrite Hf2 in Hm.
  specialize (Hm ltac:(done)).
  wp_step. apply wp_store_first; [done|]. set (p1 := pwrite _ 0 p) in *.
  pose proof (vm_ok_mapped p X F mm c p1 c (F mm) [] Hk HX (vm_mapped_clear _ _ _ _ _ _ _ Hk HX Hm)) as Hk1.
  rewrite insert_id in Hk1 by done.
  apply (vm_ok_ext _ _ _ F) in Hk1; [|apply fset_id].
  assert (∀ v, leaf (pmem p1) (F mm) v = if decide (v = first_page (vpn va)) then None else leaf (pmem p) (F mm) v)
    as Hl1 by apply Hm.
  destruct (tracked_removable _ _ Hin) as [l Hrm]. destruct (desc_addr_range e) as [Hr1 _].
  assert (desc_addr e ≠ 0) as Hnz.
  { destruct (cx_own _ _ _ Hc _ Hin) as [r Hr]. apply fe_own_page in Hr as [[_ ?] _]; [lia|apply Hk]. }
  wp_step. eapply wp_remove_page; [done|done|done|exact Hrm|].
  assert (pheld p1 = pheld p) as Hh by apply (vmstep_held _ _ _ _ (mp_step _ _ _ _ _ _ _ _ _ Hm)).
  wp_step. eapply wp_drop; [apply Hk1|by rewrite Hh|by eapply (vk_count _ _ _ Hk1)|].
  intros _ p2 Hd. edestruct (vm_ok_untrack p1 X F mm c (desc_addr e) p2 l) as [Hk2 Hsame]; [done..| |done|].
  { intros v e' Hle Heq. rewrite Hl1 in Hle. case_decide as Hne; [done|].
    by apply Hne, (vk_inj _ _ _ Hk mm c v _ e' e HX Hle Hat). }
  wp_step. eapply wp_get_mm; [by rewrite lookup_insert_eq|]. apply wp_tlbi_va.
  pose proof (vmstep_emit p2 (Ev_tlbi_va (mm_asid (c <| mm_pages := l |>)) va) nowhere (vk_ok _ _ _ Hk2)) as Hs3.
  assert (∀ mm' d v, mm' ≠ mm → X !! mm' = Some d → leaf (pmem p1) (F mm') v = leaf (pmem p) (F mm') v) as Hoth.
  { intros mm' d v Hne HX'. eapply (ctx_frame p p1); [apply Hm|apply Hk|by eapply vk_ctx|].
    intros a Ha Ht. apply (tabs_other p X F mm' d mm c a Hk HX' HX (not_eq_sym Hne) Ha). by apply Hc. }
  apply HQ. split.
  - apply (vm_ok_step _ _ _ _ Hk2 Hs3).
  - by exists l.
  - etrans; [apply Hm|]. etrans; [apply (dr_grows _ _ _ _ Hd)|]. apply Hs3.
  - intros v. rewrite pmem_pemit, (Hsame mm c HX), Hl1. cbn [fmap list_fmap].
    apply decide_ext. by rewrite list_elem_of_singleton.
  - intros mm' d v Hne HX'. rewrite pmem_pemit, (Hsame mm' d HX'). by eapply Hoth.
Qed.

(** The pages of a range. *)
Definition range_pages (va len : Z) : list Z :=
  (λ k, va / PAGE_SIZE * PAGE_SIZE + PAGE_SIZE * k) <$>
    upto 0 ((va + len + (PAGE_SIZE - 1)) / PAGE_SIZE - va / PAGE_SIZE).

Lemma align_down_page a : 0 ≤ a < 2 ^ 64 → align_down64 a PAGE_SIZE = a / PAGE_SIZE * PAGE_SIZE.
Proof.
  intros Ha. unfold align_down64, PAGE_SIZE. change (4096 - 1) with (2 ^ 12 - 1).
  rewrite (land_not_ones a 12) by lia. change (2 ^ 12) with 4096. pose proof (Z.div_mod a 4096). lia.
Qed.

(** [mmu_unmap_user_range]: the call succeeds, and for each page of the range
    the first page of its table is what goes away. *)
Lemma wp_unmap_range mm c va len (Q : bool → vstate P → Prop) p t X s F :
  vm_ok p X F → X !! mm = Some c → can_lock (L_mm mm) (pheld p) = true →
  0 ≤ va → 0 < len → va + len + PAGE_SIZE ≤ 2 ^ 64 →
  (∀ p' c', range_cut p X F mm c (range_pages va len) p' c' → Q true (vst p' t (<[mm := c']> X) s)) →
  wp (mmu_unmap_user_range mm va len) Q (vst p t X s).
Proof.
  intros Hk HX Hl Hva Hlen Hhi HQ. pose proof (vk_ctx _ _ _ Hk mm c HX) as Hc. destruct (vk_live _ _ _ Hk mm c HX) as [Hmm _].
  assert (idle p X mm c (F mm)) as Hid by (split; [done..|apply Hk|done|done]).
  unfold mmu_unmap_user_range. bfalse (mm =? 0). bfalse (len =? 0). cbn [orb].
  rewrite u64_small by (unfold PAGE_SIZE in *; lia).
  rewrite !align_down_page by (unfold PAGE_SIZE in *; lia).
  rewrite <- Z.mul_sub_distr_r, Z.div_mul by done. fold (range_pages va len).
  wp_step. eapply wp_lock_mm; [done|]. wp_step.
  set (p1 := in_mm mm p). assert (vm_ok p1 X F) as Hk1.
  { eapply vm_ok_owner; [done|by apply plocks_owner, Hk|]. intros w. unfold p1, in_mm. by rewrite pmem_plocks. }
  eapply wp_mono.
  - apply (wp_forM _ _ (λ pre s', ∃ p' c', s' = vst p' t (<[mm := c']> X) s ∧ range_cut p1 X F mm c pre p' c')).
    + exists p1, c. split; [by rewrite insert_id|by apply range_cut_nil].
    + intros pre a post s' _ (p' & c' & -> & Hcut).
      apply (wp_unmap_range_page mm c' a _ p' t _ s F); [apply Hcut|apply lookup_insert_eq| |].
      { destruct (rc_grows _ _ _ _ _ _ _ _ Hcut) as (Hh & _). unfold pheld. rewrite Hh.
        change (can_lock L_page (pheld (in_mm mm p)) = true). unfold in_mm. rewrite pheld_plocks. by apply can_lock_rank. }
      intros p2 c2 Hcut2. exists p2, c2. split; [by rewrite insert_insert_eq|]. by eapply range_cut_app.
  - intros [] s' (p' & c' & -> & Hcut). destruct Hcut as [Hk' Hp' Hg' Hl' Ho'].
    wp_step. eapply wp_vunlock; [transitivity (pheld p1); [apply Hg'|apply pheld_plocks]|].
    wp_step. apply HQ. split.
    + eapply vm_ok_owner; [exact Hk'|by apply plocks_owner, Hk'|]. intros w. by rewrite pmem_plocks.
    + done.
    + destruct Hg' as (_ & He & tr & Htr). unfold p1, in_mm, plocks in *. rewrite !pmach_set in *.
      split; [done|]. split; [done|]. by exists tr.
    + intros v. rewrite pmem_plocks, Hl'. unfold p1, in_mm. by rewrite pmem_plocks.
    + intros mm' d v Hne HX'. rewrite pmem_plocks, (Ho' mm' d v Hne HX'). unfold p1, in_mm. by rewrite pmem_plocks.
Qed.

End unmap.
