(* ===== verification/VmBytes.v ===== *)
(** * Bytes of memory, and the byte loops of the fault handler and the user
    copies *)

From S2P Require Import Prelude Machine MmuTable MmuBoot Vmsa VmsaWalk VmsaFault VmBits VmsaSpec VmTree VmMap.

Open Scope kernel_scope.

(** ** Bytes inside words *)

Lemma word_of_same q q' : 0 ≤ q → 0 ≤ q' → word_of q = word_of q' ↔ q / 8 = q' / 8.
Proof. intros. unfold word_of. pose proof (Z.div_mod q 8). pose proof (Z.div_mod q' 8). lia. Qed.

Lemma pg_word_of q : pg (word_of q) = pg q.
Proof.
  unfold pg, word_of, PAGE_SIZE. pose proof (Z.div_mod q 8). 
  assert (q - q mod 8 = 8 * (q / 8)) as -> by lia.
  change 4096 with (8 * 512). rewrite Z.mul_mod_distr_l by lia. rewrite Z.rem_mul_r by lia. lia.
Qed.

Lemma word_of_page a k : page_ok a → 0 ≤ k < 4096 → word_of (a + k) = a + 8 * (k / 8) ∧ 0 ≤ k / 8 < 512.
Proof. intros [Hm _] Hk. unfold word_of, PAGE_SIZE in *. Z.div_mod_to_equations. lia. Qed.

Lemma rd8_frame m m' q : mrd m' (word_of q) = mrd m (word_of q) → rd8 m' q = rd8 m q.
Proof. unfold rd8. by intros ->. Qed.

Lemma rd8_tb m q i : 0 ≤ i → Z.testbit (rd8 m q) i = (i <? 8) && Z.testbit (mrd m (word_of q)) (i + 8 * (q mod 8)).
Proof.
  intros Hi. unfold rd8. change 255 with (Z.ones 8). pose proof (Z.mod_pos_bound q 8 eq_refl).
  rewrite Z.land_spec, Z.shiftr_spec, Z.testbit_ones by lia.
  destruct (Z.testbit _ _), (i <? 8) eqn:?; lia.
Qed.

Lemma rd8_range m q : 0 ≤ rd8 m q < 256.
Proof. unfold rd8. change 255 with (Z.ones 8). rewrite Z.land_ones by lia. by apply Z.mod_pos_bound. Qed.

Lemma u8_tb v i : 0 ≤ i → Z.testbit (u8 v) i = (i <? 8) && Z.testbit v i.
Proof.
  intros. unfold u8. rewrite <- Z.land_ones, Z.land_spec, Z.testbit_ones by lia.
  destruct (Z.testbit v i), (i <? 8) eqn:?; lia.
Qed.

Lemma rd8_wr8 m a v q : 0 ≤ a → 0 ≤ q →
  rd8 (wr8 m a v) q = if decide (q = a) then u8 v else rd8 m q.
Proof.
  intros Ha Hq. apply Z.bits_inj'. intros i Hi. rewrite rd8_tb by done. unfold wr8.
  pose proof (Z.mod_pos_bound a 8 eq_refl). pose proof (Z.mod_pos_bound q 8 eq_refl).
  destruct (decide (word_of a = word_of q)) as [Hw|Hw]; cycle 1.
  { rewrite mrd_insert_ne by done. rewrite decide_False by (by intros ->). by rewrite rd8_tb. }
  rewrite <- Hw, mrd_insert_eq. apply word_of_same in Hw as Hd; [|done..].
  rewrite Z.lor_spec, Z.land_spec, tb_not64, !Z.shiftl_spec by lia.
  change 255 with (Z.ones 8).
  destruct (i <? 8) eqn:Hi8; cycle 1.
  { cbn [andb]. destruct (decide (q = a)); [rewrite u8_tb by done|rewrite rd8_tb by done]; by rewrite Hi8. }
  bool_to_prop. destruct (decide (q = a)) as [Heq|Heq].
  - subst q. rewrite Z.testbit_ones by lia. replace (i + 8 * (a mod 8) - 8 * (a mod 8)) with i by lia.
    rewrite !u8_tb by lia.
    tb_cases.
  - rewrite rd8_tb by done. btrue (i <? 8). rewrite Hw.
    assert (a mod 8 ≠ q mod 8) as Hne.
    { intros He. apply Heq. rewrite (Z.div_mod q 8), (Z.div_mod a 8) by lia. congruence. }
    rewrite Z.testbit_ones by lia. btrue (i + 8 * (q mod 8) <? 64).
    destruct (decide (i + 8 * (q mod 8) - 8 * (a mod 8) < 0)).
    + rewrite (Z.testbit_neg_r (u8 v)) by lia. bfalse (0 <=? i + 8 * (q mod 8) - 8 * (a mod 8)).
      tb_cases.
    + rewrite u8_tb by lia. bfalse (i + 8 * (q mod 8) - 8 * (a mod 8) <? 8).
      tb_cases.
Qed.

(** ** Kernel pointers to a buffer *)

Lemma kbuf_at ptr n i : kbuf ptr n → 0 ≤ i < n →
  u64 (ptr + i) = ptr + i ∧ ptr + i ≠ 0 ∧ va_to_pa (ptr + i) = va_to_pa ptr + i ∧ 0 ≤ va_to_pa ptr.
Proof.
  unfold kbuf, va_to_pa, KERNEL_VA_OFFSET. intros (Hp & Hn & Hr) Hi.
  split; [apply u64_small; lia|]. split; [lia|].
  destruct Hr as [Hr|[Hr Hr']].
  - rewrite !(proj2 (Z.leb_gt _ _)) by lia. lia.
  - rewrite !(proj2 (Z.leb_le _ _)) by lia. lia.
Qed.

Lemma kbuf_page a k n : page_ok a → 0 ≤ k < 4096 → 0 ≤ n → k + n ≤ 4096 →
  kbuf (pa_to_va (a + k)) n ∧ va_to_pa (pa_to_va (a + k)) = a + k.
Proof.
  intros Ha Hk Hn Hkn. pose proof (page_ok_end a Ha) as He. destruct Ha as [Hm Hr].
  rewrite pa_to_va_eq by lia. unfold kbuf, va_to_pa, KERNEL_VA_OFFSET. split; [lia|].
  rewrite (proj2 (Z.leb_le _ _)) by lia. lia.
Qed.

Section bytes.
Context {P : Type} `{FrameLaws P}.
Implicit Types (p : P) (s : vstate P) (t : treg) (X : gmap Z mm_context) (T : tmap).

Lemma wp_load8 ptr n i (Q : Z → vstate P → Prop) p t X s :
  kbuf ptr n → 0 ≤ i < n → Q (rd8 (pmem p) (va_to_pa ptr + i)) (vst p t X s) →
  wp (up (load8 (u64 (ptr + i)))) Q (vst p t X s).
Proof.
  intros Hk Hi HQ. destruct (kbuf_at ptr n i Hk Hi) as (-> & Hnz & Hpa & _).
  apply wp_mach. unfold wp, load8. bfalse (ptr + i =? 0). rewrite Hpa.
  unfold pmach at 2. rewrite sub_set_get. exact HQ.
Qed.

(** The environment after a byte store. *)
Definition pwrite8 (a v : Z) p : P := sub_set ((pmach p) <| m_mem := wr8 (pmem p) a v |>) p.

Lemma wp_store8 ptr n i v (Q : unit → vstate P → Prop) p t X s :
  kbuf ptr n → 0 ≤ i < n → Q () (vst (pwrite8 (va_to_pa ptr + i) v p) t X s) →
  wp (up (store8 (u64 (ptr + i)) v)) Q (vst p t X s).
Proof.
  intros Hk Hi HQ. destruct (kbuf_at ptr n i Hk Hi) as (-> & Hnz & Hpa & _).
  apply wp_mach. unfold wp, store8. bfalse (ptr + i =? 0). rewrite Hpa. exact HQ.
Qed.

Lemma pmem_pwrite8 a v p : pmem (pwrite8 a v p) = wr8 (pmem p) a v.
Proof. unfold pmem at 1, pwrite8. by rewrite pmach_set. Qed.

Lemma pwrite8_owner a v p : fe_ok p → fe_mine p (word_of a) → same_owner p (pwrite8 a v p) ∧
  grows (pmach p) (pmach (pwrite8 a v p)) ∧
  ∀ w, w ≠ word_of a → mrd (pmem (pwrite8 a v p)) w = mrd (pmem p) w.
Proof.
  intros Hp Ha. assert (∀ w, w ≠ word_of a → mrd (wr8 (pmem p) a v) w = mrd (pmem p) w) as Hf.
  { intros w Hw. unfold wr8. by apply mrd_insert_ne. }
  split; [|split].
  - destruct (fe_mach_law p ((pmach p) <| m_mem := wr8 (pmem p) a v |>)) as (? & ? & ? & ?);
      [done|done| |by split].
    intros w Hw. simpl. apply Hf. by intros ->.
  - unfold pwrite8. rewrite pmach_set. split; [done|]. split; [done|]. by exists [].
  - intros w Hw. rewrite pmem_pwrite8. by apply Hf.
Qed.

(** The [n] bytes at physical address [d] were written, byte [i] with [f i]. *)
Record wrote p p' (d n : Z) (f : Z → Z) : Prop := {
  wt_owner : same_owner p p';
  wt_grows : grows (pmach p) (pmach p');
  wt_words : ∀ w, (∀ i, 0 ≤ i < n → w ≠ word_of (d + i)) → mrd (pmem p') w = mrd (pmem p) w;
  wt_bytes : ∀ q, 0 ≤ q → rd8 (pmem p') q = if decide (d ≤ q < d + n) then f (q - d) else rd8 (pmem p) q;
}.

Lemma same_owner_trans p1 p2 p3 : same_owner p1 p2 → same_owner p2 p3 → same_owner p1 p3.
Proof.
  intros [? H1 H2 H3] [? H1' H2' H3']. split; [done|..].
  - intros q. by rewrite H1', H1.
  - intros w. by rewrite H2', H2.
  - intros b w. by rewrite H3', H3.
Qed.

Lemma wrote_refl p d f : fe_ok p → wrote p p d 0 f.
Proof.
  intros Hp. split; [by split|done|done|]. intros q Hq. rewrite decide_False by lia. done.
Qed.

(** One more byte. *)
Lemma wrote_step p p' d n f v : 0 ≤ d → 0 ≤ n → (∀ i, 0 ≤ i ≤ n → fe_mine p (word_of (d + i))) →
  wrote p p' d n f → f n = u8 v → wrote p (pwrite8 (d + n) v p') d (n + 1) f.
Proof.
  intros Hd Hn Hm [Ho Hg Hw Hb] Hf.
  destruct (pwrite8_owner (d + n) v p') as (Ho' & Hg' & Hw'); [apply Ho|apply (so_mine _ _ Ho), Hm; lia|].
  split.
  - by eapply same_owner_trans.
  - by etrans.
  - intros w Hne. rewrite Hw' by (apply Hne; lia). apply Hw. intros i Hi. apply Hne. lia.
  - intros q Hq. rewrite pmem_pwrite8, rd8_wr8 by lia. rewrite Hb by done.
    destruct (decide (q = d + n)) as [->|Hne].
    + rewrite decide_True by lia. by replace (d + n - d) with n by lia.
    + apply decide_ext. lia.
Qed.

(** A byte loop writes [f i] at each offset when its body does. *)
Lemma wp_byte_loop ptr n (f : Z → Z) body (Q : unit → vstate P → Prop) p t X s :
  kbuf ptr n → fe_ok p → (∀ i, 0 ≤ i < n → fe_mine p (word_of (va_to_pa ptr + i))) →
  (∀ i p', 0 ≤ i < n → wrote p p' (va_to_pa ptr) i f →
     wp (body i) (λ _ s', ∃ v, s' = vst (pwrite8 (va_to_pa ptr + i) v p') t X s ∧ f i = u8 v) (vst p' t X s)) →
  (∀ p', wrote p p' (va_to_pa ptr) n f → Q () (vst p' t X s)) →
  wp (forM_ (upto 0 n) body) Q (vst p t X s).
Proof.
  intros Hk Hp Hm Hbody HQ. assert (0 ≤ n) as Hn by apply Hk.
  eapply wp_mono.
  - apply (wp_forM _ _ (λ done s', ∃ p', s' = vst p' t X s ∧ wrote p p' (va_to_pa ptr) (Z.of_nat (length done)) f)).
    + eexists. split; [done|]. by apply wrote_refl.
    + intros pre i post s' Heq (p' & -> & Hw).
      assert (i = Z.of_nat (length pre) ∧ 0 ≤ i < n) as [Hi Hir].
      { rewrite upto_seqZ in Heq. pose proof (f_equal (.!! length pre) Heq) as Hlk.
        cbn beta in Hlk. rewrite list_lookup_middle in Hlk by done. apply lookup_seqZ in Hlk. lia. }
      rewrite <- Hi in Hw. eapply wp_mono; [by apply Hbody|]. intros [] s'' (v & -> & Hv).
      eexists. split; [done|]. rewrite length_app. cbn [length]. rewrite Nat2Z.inj_add, <- Hi.
      apply wrote_step; [by apply (kbuf_at ptr n i)|lia| |done|done]. intros j Hj. apply Hm. lia.
  - intros [] s' (p' & -> & Hw). apply HQ. rewrite upto_seqZ, length_seqZ, Z2Nat.id in Hw by done. exact Hw.
Qed.

Lemma u8_small x : 0 ≤ x < 256 → u8 x = x.
Proof. apply Z.mod_small. Qed.

(** Copies between disjoint buffers. *)
Lemma wp_copy_bytes dst src n (Q : unit → vstate P → Prop) p t X s :
  kbuf dst n → kbuf src n → fe_ok p →
  (∀ i, 0 ≤ i < n → fe_mine p (word_of (va_to_pa dst + i))) →
  (va_to_pa src + n ≤ va_to_pa dst ∨ va_to_pa dst + n ≤ va_to_pa src) →
  (∀ p', wrote p p' (va_to_pa dst) n (λ i, rd8 (pmem p) (va_to_pa src + i)) → Q () (vst p' t X s)) →
  wp (copy_bytes dst src n) Q (vst p t X s).
Proof.
  intros Hd Hs Hp Hm Hdis HQ. eapply (wp_byte_loop dst n); [done..| |exact HQ].
  intros i p' Hi Hw. wp_step. apply (wp_load8 src n); [done..|]. apply (wp_store8 dst n); [done..|].
  eexists. split; [done|]. rewrite u8_small by apply rd8_range. symmetry.
  rewrite (wt_bytes _ _ _ _ _ Hw); [apply decide_False; lia|]. pose proof (kbuf_at src n i Hs Hi). lia.
Qed.

Lemma wp_zero_bytes dst n (Q : unit → vstate P → Prop) p t X s :
  kbuf dst n → fe_ok p → (∀ i, 0 ≤ i < n → fe_mine p (word_of (va_to_pa dst + i))) →
  (∀ p', wrote p p' (va_to_pa dst) n (λ _, 0) → Q () (vst p' t X s)) →
  wp (zero_bytes dst n) Q (vst p t X s).
Proof.
  intros Hd Hp Hm HQ. eapply (wp_byte_loop dst n); [done..| |exact HQ].
  intros i p' Hi Hw. apply (wp_store8 dst n); [done..|]. by eexists.
Qed.

End bytes.
