(* ===== verification/VmFrame.v ===== *)
(** * What a user sees, and what an operation keeps of it

    [view_kept] compares two address spaces by the bytes and the rights of
    their mapped pages, not by where the pages are.  [vm_frame mm] is the frame
    of an operation on behalf of the context [mm]: every other context keeps
    its entries, every context keeps its view, and the kernel's own words are
    untouched. *)

From S2P Require Import Prelude Machine MmuTable MmuBoot Vmsa VmsaWalk VmsaFault VmBits VmsaSpec VmTree VmMap VmOwn VmBytes.

Open Scope kernel_scope.

Definition page_same (m : gmap Z Z) (a : Z) (m' : gmap Z Z) (a' : Z) : Prop :=
  ∀ k, 0 ≤ k < PAGE_SIZE → rd8 m' (a' + k) = rd8 m (a + k).

(** The entry [e'] shows the page of [e], with at least its rights. *)
Definition entry_kept (m : gmap Z Z) (e : Z) (m' : gmap Z Z) (e' : Z) : Prop :=
  page_same m (desc_addr e) m' (desc_addr e') ∧
  ∀ w, mmu_user_access_allowed e w = true → mmu_user_access_allowed e' w = true.

Definition view_kept (m : gmap Z Z) (T : tmap) (m' : gmap Z Z) (T' : tmap) : Prop :=
  ∀ v e, leaf m T v = Some e → ∃ e', leaf m' T' v = Some e' ∧ entry_kept m e m' e'.

Lemma view_kept_trans m1 T1 m2 T2 m3 T3 :
  view_kept m1 T1 m2 T2 → view_kept m2 T2 m3 T3 → view_kept m1 T1 m3 T3.
Proof.
  intros H12 H23 v e Hv. destruct (H12 v e Hv) as (e2 & Hv2 & Hp2 & Ha2).
  destruct (H23 v e2 Hv2) as (e3 & Hv3 & Hp3 & Ha3). exists e3. split; [done|]. split; [|auto].
  intros k Hk. by rewrite Hp3, Hp2.
Qed.

Lemma page_same_words m a m' : page_ok a → (∀ w, pg w = a → mrd m' w = mrd m w) → page_same m a m' a.
Proof.
  intros Ha Hw k Hk. apply rd8_frame, Hw. rewrite pg_word_of. by apply pg_offset.
Qed.

Section frame.
Context {P : Type} `{FrameLaws P}.
Implicit Types (p : P) (s : vstate P) (t : treg) (X : gmap Z mm_context) (T : tmap) (F : Z → tmap).

(** Not in a page of any context. *)
Definition untracked X (w : Z) : Prop := ∀ mm c, X !! mm = Some c → pg w ∉ mm_pages c.

Record vm_frame (mm : Z) p X F p' X' F' : Prop := {
  vf_ok : vm_ok p' X' F';
  vf_grows : grows (pmach p) (pmach p');
  vf_span : ∀ b w, fe_span p' b w ↔ fe_span p b w;
  vf_dom : ∀ mm', mm' ≠ mm → X' !! mm' = X !! mm' ∧ F' mm' = F mm';
  vf_ctx : ∀ c, X !! mm = Some c → ∃ l, X' !! mm = Some (c <| mm_pages := l |>);
  vf_view : ∀ mm' c', X !! mm' = Some c' → view_kept (pmem p) (F mm') (pmem p') (F' mm');
  vf_other : ∀ mm' c' v, mm' ≠ mm → X !! mm' = Some c' →
    leaf (pmem p') (F' mm') v = leaf (pmem p) (F mm') v;
  vf_kernel : ∀ w, fe_mine p w → untracked X w →
    fe_mine p' w ∧ mrd (pmem p') w = mrd (pmem p) w ∧ untracked X' w;
}.

Lemma ctx_eta c : c <| mm_pages := mm_pages c |> = c.
Proof. by destruct c. Qed.

Lemma vm_frame_refl mm p X F : vm_ok p X F → vm_frame mm p X F p X F.
Proof.
  intros Hk. split; try done.
  - intros c HX. exists (mm_pages c). by rewrite ctx_eta.
  - intros mm' c' HX' v e Hv. exists e. by split.
Qed.

Lemma vm_frame_ext mm p X F p' X' F1 F2 : (∀ mm', F2 mm' = F1 mm') →
  vm_frame mm p X F p' X' F1 → vm_frame mm p X F p' X' F2.
Proof.
  intros HF [Hk Hg Hl Hd Hc Hv Ho Hm]. split; try done.
  - by eapply vm_ok_ext.
  - intros mm' Hne. rewrite HF. by apply Hd.
  - intros mm' c' HX. rewrite HF. by eapply Hv.
  - intros mm' c' v Hne HX. rewrite HF. by eapply Ho.
Qed.

Lemma vm_frame_trans mm p1 X1 F1 p2 X2 F2 p3 X3 F3 :
  vm_frame mm p1 X1 F1 p2 X2 F2 → vm_frame mm p2 X2 F2 p3 X3 F3 → vm_frame mm p1 X1 F1 p3 X3 F3.
Proof.
  intros [_ Hg Hl Hd Hc Hv Ho Hm] [Hk' Hg' Hl' Hd' Hc' Hv' Ho' Hm'].
  assert (∀ mm' c', X1 !! mm' = Some c' → ∃ c2, X2 !! mm' = Some c2) as Hin.
  { intros mm' c' HX. destruct (decide (mm' = mm)) as [->|Hne].
    - destruct (Hc c' HX) as [l ?]. by eexists.
    - exists c'. by rewrite (proj1 (Hd mm' Hne)). }
  split; [done|by etrans| | | | | |].
  - intros b w. by rewrite Hl', Hl.
  - intros mm' Hne. destruct (Hd mm' Hne), (Hd' mm' Hne). split; congruence.
  - intros c HX. destruct (Hc c HX) as [l HX2]. destruct (Hc' _ HX2) as [l' HX3]. by exists l'.
  - intros mm' c' HX. destruct (Hin mm' c' HX) as [c2 HX2]. eapply view_kept_trans; [by eapply Hv|by eapply Hv'].
  - intros mm' c' v Hne HX. destruct (Hin mm' c' HX) as [c2 HX2]. by rewrite (Ho' mm' c2), (Ho mm' c').
  - intros w Hw Hu. destruct (Hm w Hw Hu) as (Hw2 & He2 & Hu2). destruct (Hm' w Hw2 Hu2) as (Hw3 & He3 & Hu3).
    split; [done|]. split; [congruence|done].
Qed.

Lemma tracked_ok p X F mm c a : vm_ok p X F → X !! mm = Some c → a ∈ mm_pages c → page_ok a ∧
  ∀ w, pg w = a → fe_mine p w.
Proof.
  intros Hk HX Ha. pose proof (vk_count _ _ _ Hk mm c a HX Ha) as Ho. split.
  - eapply fe_own_page; [apply Hk|done].
  - intros w Hw. eapply fe_own_mine; [apply Hk|done|done].
Qed.

(** The frame of a step that extends one tree and keeps its entries, up to a
    page with the same contents. *)
Lemma frame_replaced p X F mm c p' c' T' new : vm_ok p X F → X !! mm = Some c →
  vm_mapped p X F mm c p' c' T' new →
  (∀ v e, leaf (pmem p) (F mm) v = Some e → leaf (pmem p') T' v = Some e ∨
     ∃ e', leaf (pmem p') T' v = Some e' ∧ entry_kept (pmem p) e (pmem p') e') →
  vm_frame mm p X F p' (<[mm := c']> X) (fset F mm T').
Proof.
  intros Hk HX Hm Hkeep. pose proof (vm_ok_mapped _ _ _ _ _ _ _ _ _ Hk HX Hm) as Hk'.
  destruct Hm as [Hs Hc' Hadd Htb Hlf].
  assert (∀ mm' c'', mm' ≠ mm → X !! mm' = Some c'' → ∀ v, leaf (pmem p') (F mm') v = leaf (pmem p) (F mm') v) as Hoth.
  { intros mm' c'' Hne HX'. eapply ctx_frame; [done|apply Hk|by eapply vk_ctx|].
    intros a Ha Hm. eapply (tabs_other p X F mm c mm' c''); [done..|].
    by apply (cx_tabs _ _ _ (vk_ctx _ _ _ Hk mm' c'' HX')). }
  assert (∀ mm' c'' v e, X !! mm' = Some c'' → leaf (pmem p) (F mm') v = Some e →
            entry_kept (pmem p) e (pmem p') e) as Hpage.
  { intros mm' c'' v e HX' Hv. split; [|done]. destruct (vk_leaf _ _ _ Hk mm' c'' v e HX' Hv) as [Hin Hnt].
    destruct (tracked_ok _ _ _ _ _ _ Hk HX' Hin) as [Hok Hmine].
    apply page_same_words; [done|]. intros w Hw. apply (vs_mem _ _ _ _ Hs); [by apply Hmine|].
    rewrite Hw. intros Ht. destruct (decide (mm' = mm)) as [->|Hne]; [done|].
    by apply (tabs_other p X F mm c mm' c'' (desc_addr e)). }
  split; [done|apply Hs|apply Hs| | | | |].
  - intros mm' Hne. unfold fset. by rewrite lookup_insert_ne, decide_False.
  - intros d HX'. rewrite HX in HX'. injection HX' as <-. rewrite lookup_insert_eq. exists (mm_pages c').
    by subst c'.
  - intros mm' c'' HX' v e Hv. unfold fset. case_decide as Hne; [subst mm'|].
    + destruct (Hkeep v e Hv) as [Hv'|Hv']; [|done]. exists e. split; [done|by eapply Hpage].
    + exists e. rewrite (Hoth mm' c'') by done. split; [done|by eapply Hpage].
  - intros mm' c'' v Hne HX'. unfold fset. rewrite decide_False by done. by eapply Hoth.
  - intros w Hw Hu. destruct (vs_mem _ _ _ _ Hs w Hw) as [Hw' Heq]. split; [done|]. split.
    + apply Heq. intros Ht. apply (Hu mm c HX). by apply (cx_tabs _ _ _ (vk_ctx _ _ _ Hk mm c HX)).
    + intros mm' c'' [[<- <-]|[_ HX']]%lookup_insert_Some; [|by apply (Hu mm' c'')].
      subst c'. simpl. intros [Hi|Hi]%elem_of_app; [by apply (Hu mm c)|].
      by apply (vs_new _ _ _ _ Hs) in Hi as [_ Hi]; apply Hi in Hw.
Qed.

Lemma frame_mapped p X F mm c p' c' T' new : vm_ok p X F → X !! mm = Some c →
  vm_mapped p X F mm c p' c' T' new →
  (∀ v e, leaf (pmem p) (F mm) v = Some e → leaf (pmem p') T' v = Some e) →
  vm_frame mm p X F p' (<[mm := c']> X) (fset F mm T').
Proof. intros Hk HX Hm Hkeep. eapply frame_replaced; [done..|]. intros v e Hv. left. by apply Hkeep. Qed.

(** The frame of a step without new pages that writes in no page. *)
Lemma frame_step mm p X F p' : vm_ok p X F → vmstep p p' [] nowhere → vm_frame mm p X F p' X F.
Proof.
  intros Hk Hs.
  assert (∀ mm c, X !! mm = Some c → ∀ v, leaf (pmem p') (F mm) v = leaf (pmem p) (F mm) v) as Hc.
  { intros mm' c HX. eapply ctx_frame; [done|apply Hk|by eapply vk_ctx|]. by intros ? _ []. }
  split; [by eapply vm_ok_step|apply Hs|apply Hs|done| | | |].
  - intros c HX. exists (mm_pages c). by rewrite ctx_eta.
  - intros mm' c' HX' v e Hv. exists e. rewrite (Hc mm' c') by done. split; [done|]. split; [|done].
    destruct (vk_leaf _ _ _ Hk mm' c' v e HX' Hv) as [Hin _].
    destruct (tracked_ok _ _ _ _ _ _ Hk HX' Hin) as [Hok Hmine].
    apply page_same_words; [done|]. intros w Hw. apply (vs_mem _ _ _ _ Hs); [by apply Hmine|by intros []].
  - intros mm' c' v _ HX'. by rewrite (Hc mm' c').
  - intros w Hw Hu. destruct (vs_mem _ _ _ _ Hs w Hw) as [Hw' Heq]. split; [done|]. split; [|done].
    apply Heq. by intros [].
Qed.

(** The frame of a change of locks. *)
Lemma frame_locks mm l p X F : vm_ok p X F → l = pheld p → vm_frame mm p X F (plocks l p) X F.
Proof.
  intros Hk ->. apply frame_step; [done|]. destruct (plocks_owner (pheld p) p) as [Hok Ho Hm Hl]; [apply Hk|].
  split; [done| |done| |done|by intros q ?%elem_of_nil].
  - unfold plocks. rewrite pmach_set. split; [done|]. split; [done|]. by exists [].
  - intros w Hw. rewrite pmem_plocks. split; [by apply Hm|done].
Qed.

(** The frame of dropping a page that the context tracks and does not map. *)
Lemma frame_untrack p X F mm c a p' l : vm_ok p X F → X !! mm = Some c →
  remove_first a (mm_pages c) = Some l → ¬ tabs (F mm) a →
  (∀ v e, leaf (pmem p) (F mm) v = Some e → desc_addr e ≠ a) →
  dropped p a (Z.of_nat (trackers X a)) p' →
  vm_frame mm p X F p' (<[mm := c <| mm_pages := l |>]> X) F.
Proof.
  intros Hk HX Hrm Htab Hleaf Hd.
  destruct (vm_ok_untrack p X F mm c a p' l) as [Hk' Hsame]; [done..|].
  assert (a ∈ mm_pages c ∧ ∀ q, q ∈ l → q ∈ mm_pages c) as [Ha Hsub].
  { pose proof (remove_first_spec a (mm_pages c)) as Hsp. rewrite Hrm in Hsp.
    destruct Hsp as (l1 & l2 & -> & _ & ->). split; [apply elem_of_app; right; left|].
    intros q [?|?]%elem_of_app; apply elem_of_app; [by left|right; by right]. }
  split; [done|apply (dr_grows _ _ _ _ Hd)|apply (dr_span _ _ _ _ Hd)| | | | |].
  - intros mm' Hne. by rewrite lookup_insert_ne.
  - intros d HX'. rewrite HX in HX'. injection HX' as <-. rewrite lookup_insert_eq. by eexists.
  - intros mm' c' HX' v e Hv. exists e. rewrite (Hsame mm' c') by done. split; [done|]. split; [|done].
    destruct (vk_leaf _ _ _ Hk mm' c' v e HX' Hv) as [Hin _].
    destruct (tracked_ok _ _ _ _ _ _ Hk HX' Hin) as [Hok Hmine].
    apply page_same_words; [done|]. intros w Hw. apply (dr_mem _ _ _ _ Hd); [by apply Hmine|]. rewrite Hw.
    destruct (decide (desc_addr e = a)) as [Heq|]; [right|by left].
    destruct (decide (mm' = mm)) as [->|Hne]; [by apply Hleaf in Hv|].
    pose proof (trackers_pos X mm c a HX Ha). destruct (decide (trackers X a = 1%nat)) as [Hone|]; [|lia].
    destruct Hne. rewrite Heq in Hin. by apply (proj1 (trackers_one X mm c a HX Ha) Hone mm' c').
  - intros mm' c' v _ HX'. by apply (Hsame mm' c').
  - intros w Hw Hu. destruct (dr_mem _ _ _ _ Hd w Hw) as [Hw' Heq].
    { left. intros Heq. apply (Hu mm c HX). by rewrite Heq. }
    split; [done|]. split; [done|]. intros mm' c' [[<- <-]|[_ HX']]%lookup_insert_Some; [|by apply (Hu mm' c')].
    simpl. intros Hi%Hsub. by apply (Hu mm c).
Qed.

(** A page that was just taken becomes one of the context's. *)
Record tracked_new (mm : Z) p X F c p1 (a : Z) : Prop := {
  tn_ctx : ctx_ok p1 (add_pages [a] c) (F mm);
  tn_ok : vm_ok p1 (<[mm := add_pages [a] c]> X) F;
  tn_frame : vm_frame mm p X F p1 (<[mm := add_pages [a] c]> X) F;
  tn_table : ¬ tabs (F mm) a;
  tn_sole : sole (<[mm := add_pages [a] c]> X) mm a;
  tn_leaf : ∀ v, leaf (pmem p1) (F mm) v = leaf (pmem p) (F mm) v;
  tn_unmapped : ∀ v e, leaf (pmem p1) (F mm) v = Some e → desc_addr e ≠ a;
}.

Lemma track_new mm p X F c p1 a : vm_ok p X F → X !! mm = Some c → vmstep p p1 [a] nowhere →
  mm_page_count c < MM_MAX_TRACKED_PAGES → tracked_new mm p X F c p1 a.
Proof.
  intros Hk HX Hs Hlen. pose proof (vk_ctx _ _ _ Hk mm c HX) as Hc.
  destruct (vmstep_one _ _ _ _ Hs) as (_ & Hfree & _ & _). pose proof (new_untracked p X F a Hk Hfree) as Hun.
  destruct (ctx_frame p p1 _ _ c (F mm) Hs (vk_ok _ _ _ Hk) Hc) as [_ Hl1]; [by intros ? _ []|].
  assert (ctx_ok p1 (add_pages [a] c) (F mm)) as Hc1
    by (eapply (ctx_add p); [done|apply Hk|done|by intros ? _ []|done]).
  assert (vm_mapped p X F mm c p1 (add_pages [a] c) (F mm) [a]) as Hm1.
  { split; [eapply vmstep_weaken; [done|by intros ? []]|done|done|by left|]. intros v e Hv. left. by rewrite <- Hl1. }
  pose proof (vm_ok_mapped _ _ _ _ _ _ _ _ _ Hk HX Hm1) as Hk1. apply (vm_ok_ext _ _ _ F) in Hk1; [|apply fset_id].
  split; [done|done| | | |done|].
  - eapply vm_frame_ext; [apply fset_id|]. apply (frame_mapped _ _ _ _ _ _ _ _ _ Hk HX Hm1).
    intros v e Hv. by rewrite Hl1.
  - intros Ht%(cx_tabs _ _ _ Hc). by apply (Hun mm c HX).
  - intros k d [[<- <-]|[_ Hd]]%lookup_insert_Some Hi; [done|]. by apply (Hun k d Hd) in Hi.
  - intros v e Hv Heq. rewrite Hl1 in Hv. destruct (vk_leaf _ _ _ Hk mm c v e HX Hv) as [Hi _].
    rewrite Heq in Hi. by apply (Hun mm c HX) in Hi.
Qed.

(** A new entry for a page the context owns alone. *)
Lemma vm_mapped_set p X F mm c p' c' T' new v e : vm_ok p X F → X !! mm = Some c →
  mapped p c (F mm) p' c' T' new v e → desc_valid e = true →
  desc_addr e ∈ mm_pages c → ¬ tabs (F mm) (desc_addr e) → sole X mm (desc_addr e) →
  (∀ v' e', leaf (pmem p) (F mm) v' = Some e' → v' ≠ v → desc_addr e' ≠ desc_addr e) →
  vm_mapped p X F mm c p' c' T' new.
Proof.
  intros Hk HX [Hs Hc Hadd _ Htb Hl] Hv Hin Hnt Hso Hu. rewrite Hv in Hl. split; [done..|].
  intros v1 e1 Hv1. rewrite Hl in Hv1. case_decide as Hvv; [|by left]. right. injection Hv1 as <-.
  split; [done|]. split; [done|]. split; [|done]. intros v' e' Hv' Heq. rewrite Hl in Hv'.
  case_decide as Hne; [congruence|]. by destruct (Hu v' e' Hv').
Qed.

End frame.
