(* ===== verification/VmFaultSpec.v ===== *)
(** * The page-fault handler against the view of the user *)

From S2P Require Import Prelude Machine MmuTable MmuBoot Vmsa VmsaWalk VmsaFault VmBits VmsaSpec VmTree VmMap VmOwn VmUnmap VmBytes VmFrame.

Open Scope kernel_scope.

(** ** Pure parts *)

(** The last region that contains the address wins. *)
Lemma search_regions_spec far l :
  match search_regions far l with
  | Some r => ∃ l1 l2, l = l1 ++ r :: l2 ∧ in_region far r = true ∧ Forall (λ r, in_region far r = false) l1
  | None => Forall (λ r, in_region far r = false) l
  end.
Proof.
  induction l as [|r l IH]; simpl; [done|]. destruct (in_region far r) eqn:Hr.
  - exists [], l. done.
  - destruct (search_regions far l) as [r'|].
    + destruct IH as (l1 & l2 & -> & Hr' & Hl1). exists (r :: l1), l2. split; [done|]. split; [done|]. by constructor.
    + by constructor.
Qed.

Lemma find_region_spec far l :
  match find_region far l with
  | Some r => ∃ l1 l2, l = l1 ++ r :: l2 ∧ in_region far r = true ∧ Forall (λ r, in_region far r = false) l2
  | None => Forall (λ r, in_region far r = false) l
  end.
Proof.
  unfold find_region. pose proof (search_regions_spec far (reverse l)) as Hs.
  destruct (search_regions far (reverse l)) as [r|].
  - destruct Hs as (l1 & l2 & Heq & Hr & Hl). exists (reverse l2), (reverse l1).
    split; [|split; [done|by apply Forall_reverse]].
    rewrite <- (reverse_involutive l), Heq, reverse_app, reverse_cons, <- app_assoc. done.
  - by apply Forall_reverse in Hs; rewrite reverse_involutive in Hs.
Qed.

Lemma page_base_eq va : 0 ≤ va < 2 ^ 64 → page_base va = pg va.
Proof.
  intros. unfold page_base, align_down64, pg, PAGE_SIZE. change (4096 - 1) with (2 ^ 12 - 1).
  by rewrite land_not_ones by lia.
Qed.

Lemma vpn_page_base va : 0 ≤ va < 2 ^ 64 → vpn (page_base va) = vpn va.
Proof.
  intros Hva. rewrite page_base_eq by done.
  assert (pg va = va / PAGE_SIZE * PAGE_SIZE) as Heq.
  { unfold pg, PAGE_SIZE. pose proof (Z.div_mod va 4096). lia. }
  pose proof (Z.div_pos va PAGE_SIZE). unfold PAGE_SIZE in *.
  rewrite !vpn_eq, Heq by lia. unfold PAGE_SIZE. by rewrite Z.div_mul.
Qed.

(** The byte at offset [k] of the page [page_va] of a region. *)
Definition region_byte (m : gmap Z Z) (r : vm_region) (page_va k : Z) : Z :=
  match vr_type r with
  | VM_TYPE_ELF =>
      let o := u64 (page_va - vr_start r) in
      if negb (vr_elf_image r =? 0) && (o + k <? vr_file_size r)
      then rd8 m (va_to_pa (vr_elf_image r + vr_elf_offset r) + o + k) else 0
  | _ => 0
  end.

Section fault.
Context {P : Type} `{FrameLaws P}.
Implicit Types (p : P) (s : vstate P) (t : treg) (X : gmap Z mm_context) (T : tmap) (F : Z → tmap).

(** A page taken with [vmstep p p1 [a]] is tracked and mapped, or given back. *)
Lemma wp_publish mm c a va flags (Q : bool → vstate P → Prop) p p1 t X s F :
  vm_ok p X F → X !! mm = Some c → can_lock L_page (pheld p) = true →
  vmstep p p1 [a] nowhere → page_ok a → flags_ok flags →
  leaf (pmem p) (F mm) (vpn va) = None →
  (∀ p' t' X' F', vm_frame mm p X F p' X' F' → Q false (vst p' t' X' s)) →
  (∀ p' t' X' F', vm_frame mm p X F p' X' F' →
     (∀ v, leaf (pmem p') (F' mm) v =
       if decide (v = vpn va) then Some (page_desc a flags) else leaf (pmem p) (F mm) v) →
     (∀ w, pg w = a → mrd (pmem p') w = mrd (pmem p1) w) →
     Q true (vst p' t' X' s)) →
  wp (publish_page mm va a flags) Q (vst p1 t X s).
Proof.
  intros Hk HX Hlk Hs Ha Hfl Hnone HQ0 HQ. pose proof Ha as [_ Har].
  destruct (vk_live _ _ _ Hk mm c HX) as [Hmm _].
  destruct (vmstep_one _ _ _ _ Hs) as (Hown & Hfree & _ & _).
  pose proof (new_untracked p X F a Hk Hfree mm c HX) as Hun.
  unfold publish_page. rewrite va_to_pa_low by (unfold KERNEL_VA_OFFSET; lia).
  wp_step. apply (wp_add_page mm c); [done|lia|done|by intros ?%Hun| |]; cycle 1.
  { intros _ _. cbn [negb]. wp_step. eapply wp_free_new; [apply Hk|done|done|]. intros p' Hs'. wp_step.
    apply HQ0 with (F' := F). by apply frame_step. }
  intros _ Hlen. cbn [negb]. destruct (track_new mm p X F c p1 a Hk HX Hs Hlen) as [Hc1 Hk1 Hf1 Hnt Hsole Hl1 Hother].
  set (c1 := add_pages [a] c) in *. set (X1 := <[mm := c1]> X) in *.
  assert (X1 !! mm = Some c1) as HX1 by apply lookup_insert_eq.
  assert (a ∈ mm_pages c1) as Hin1 by (simpl; apply elem_of_app; right; by apply list_elem_of_singleton).
  wp_step. apply (wp_map_locked mm c1 (F mm)).
  { split; [done|done|apply Hk1|done|]. by rewrite (vmstep_held _ _ _ _ Hs). }
  - (* no table: the page is given back *)
    intros p2 t2 c2 T2 n2 [Hs2 Hc2 Hadd2 _ Htb2 Hl2]. cbn [negb].
    pose proof (frame_mapped p1 X1 F mm c1 p2 c2 T2 n2 Hk1 HX1) as Hf2.
    assert (vm_frame mm p1 X1 F p2 (<[mm := c2]> X1) (fset F mm T2)) as Hf2'.
    { apply Hf2; [split; [done..|]|]; intros v e Hv; [left; by rewrite <- Hl2|by rewrite Hl2]. }
    pose proof (vf_ok _ _ _ _ _ _ _ Hf2') as Hk2.
    destruct (tracked_removable a (mm_pages c2)) as [l Hrm]; [subst c2; apply elem_of_app; by left|].
    assert (<[mm:=c2]> X1 !! mm = Some c2) as HX2 by apply lookup_insert_eq.
    wp_step. eapply wp_remove_page; [done|lia|done|exact Hrm|]. wp_step.
    eapply wp_drop; [apply Hk2| |eapply (vk_count _ _ _ Hk2); [done|subst c2; apply elem_of_app; by left]|].
    { by rewrite (vmstep_held _ _ _ _ Hs2), (vmstep_held _ _ _ _ Hs). }
    intros p3 Hd. wp_step. eapply HQ0. eapply vm_frame_trans; [exact Hf1|].
    eapply vm_frame_trans; [exact Hf2'|]. eapply frame_untrack; [exact Hk2|done|done| | |done].
    + unfold fset. rewrite decide_True by done. intros [Ht|Ht]%Htb2; [done|].
      apply (vs_new _ _ _ _ Hs2) in Ht as [Ht _]. congruence.
    + intros v e. unfold fset. rewrite decide_True by done. rewrite Hl2. apply Hother.
  - intros p2 t2 c2 T2 n2 Hm2. cbn [negb]. destruct (page_desc_ok a flags Ha Hfl) as (Hpd & Hpa & _).
    apply desc_page_valid in Hpd as Hpv. pose proof (mp_leaf _ _ _ _ _ _ _ _ _ Hm2) as Hl2. rewrite Hpv in Hl2.
    wp_step. eapply (HQ _ _ _ (fset F mm T2)).
    + eapply vm_frame_trans; [exact Hf1|]. eapply frame_mapped; [done|done| |].
      { eapply vm_mapped_set; [done|done|exact Hm2|done|by rewrite Hpa..|].
        rewrite Hpa. intros v' e' Hv' _. by eapply Hother. }
      intros v e Hv. rewrite Hl2. rewrite decide_False; [done|]. intros ->. rewrite Hl1 in Hv. congruence.
    + intros v. unfold fset. rewrite decide_True by done. by rewrite Hl2, Hl1.
    + intros w Hw. apply (vs_mem _ _ _ _ (mp_step _ _ _ _ _ _ _ _ _ Hm2)).
      * eapply fe_own_mine; [apply (vs_ok _ _ _ _ Hs)|exact Hown|done].
      * by rewrite Hw.
Qed.

(** ** Lazy pages *)

(** What a region must satisfy: attribute flags only, and a file image that
    the kernel can read. *)
Record region_ok p (r : vm_region) : Prop := {
  ro_flags : flags_ok (vr_flags r);
  ro_image : vr_elf_image r ≠ 0 → 0 ≤ vr_file_size r →
    kbuf (vr_elf_image r + vr_elf_offset r) (vr_file_size r) ∧
    ∀ i, 0 ≤ i < vr_file_size r → fe_mine p (word_of (va_to_pa (vr_elf_image r + vr_elf_offset r) + i));
}.

Lemma vmstep_wrote p p1 p2 a n f : vmstep p p1 [a] nowhere → page_ok a → n ≤ PAGE_SIZE →
  wrote p1 p2 a n f → vmstep p p2 [a] nowhere.
Proof.
  intros Hs Ha Hn [[Hok Ho Hm Hl] Hg Hw _]. 
  apply (vmstep_trans p p1 p2 [a] [] nowhere (λ q, q = a)); [done| |done|].
  - split; [done|done|done| |done|by intros q ?%elem_of_nil].
    intros w Hw'. split; [by apply Hm|]. intros Hne. apply Hw. intros i Hi ->. apply Hne.
    rewrite pg_word_of. apply pg_offset; [done|]. unfold PAGE_SIZE in *. lia.
  - intros q ->. right. by apply list_elem_of_singleton.
Qed.

(** The words of a page just taken may be written. *)
Lemma new_page_buffer p p1 a : vmstep p p1 [a] nowhere → page_ok a →
  kbuf (pa_to_va a) PAGE_SIZE ∧ va_to_pa (pa_to_va a) = a ∧
  ∀ i, 0 ≤ i < PAGE_SIZE → fe_mine p1 (word_of (a + i)).
Proof.
  intros Hs Ha. destruct (kbuf_page a 0 PAGE_SIZE Ha) as [Hk Hpa]; [unfold PAGE_SIZE; lia..|].
  rewrite Z.add_0_r in *. split; [done|]. split; [done|]. intros i Hi.
  destruct (vmstep_one _ _ _ _ Hs) as (Hown & _). eapply fe_own_mine; [apply (vs_ok _ _ _ _ Hs)|exact Hown|].
  rewrite pg_word_of. by apply pg_offset.
Qed.

Lemma kbuf_sub ptr n k m : kbuf ptr n → 0 ≤ k < n → 0 ≤ m → k + m ≤ n →
  kbuf (ptr + k) m ∧ va_to_pa (ptr + k) = va_to_pa ptr + k ∧ u64 (ptr + k) = ptr + k.
Proof.
  intros Hb Hk Hm Hkm. destruct (kbuf_at ptr n k Hb Hk) as (Hu & _ & Hpa & _). split; [|done].
  unfold kbuf, KERNEL_VA_OFFSET in *. lia.
Qed.

(** Words that some predicate keeps out of a page are on one side of it. *)
Lemma mine_disjoint (own : Z → Prop) a S n : page_ok a → (∀ w, own w → pg w ≠ a) →
  (∀ i, 0 ≤ i < n → own (word_of (S + i))) → 0 < n →
  S + n ≤ a ∨ a + PAGE_SIZE ≤ S.
Proof.
  intros Ha Hf Hm Hn. assert (∀ i, 0 ≤ i < n → ¬ (a ≤ S + i < a + PAGE_SIZE)) as Hno.
  { intros i Hi Hr. apply (Hf _ (Hm i Hi)). rewrite pg_word_of.
    replace (S + i) with (a + (S + i - a)) by lia. apply pg_offset; [done|unfold PAGE_SIZE in *; lia]. }
  destruct (decide (S + n ≤ a)); [by left|]. destruct (decide (a + PAGE_SIZE ≤ S)); [by right|]. exfalso.
  unfold PAGE_SIZE in *. destruct (decide (a ≤ S)); [apply (Hno 0)|apply (Hno (a - S))]; lia.
Qed.

Lemma wp_region mm c far r (Q : bool → vstate P → Prop) p t X s F :
  vm_ok p X F → X !! mm = Some c → can_lock L_page (pheld p) = true →
  0 ≤ far < 2 ^ 64 → region_ok p r → leaf (pmem p) (F mm) (vpn far) = None →
  (∀ p' t' X' F', vm_frame mm p X F p' X' F' → Q false (vst p' t' X' s)) →
  (∀ a p' t' X' F', vm_frame mm p X F p' X' F' → page_ok a →
     (∀ v, leaf (pmem p') (F' mm) v =
       if decide (v = vpn far) then Some (page_desc a (vr_flags r)) else leaf (pmem p) (F mm) v) →
     (∀ k, 0 ≤ k < PAGE_SIZE → rd8 (pmem p') (a + k) = region_byte (pmem p) r (page_base far) k) →
     Q true (vst p' t' X' s)) →
  wp (handle_region_fault mm far r) Q (vst p t X s).
Proof.
  intros Hk HX Hlk Hfar [Hfl Himg] Hnone HQ0 HQ. rewrite <- (vpn_page_base far Hfar) in *.
  unfold handle_region_fault. wp_step. apply wp_page_alloc; [apply Hk|done| |].
  { intros p' Hs. change (0 =? 0) with true. cbn iota. wp_step. apply HQ0 with (F' := F). by apply frame_step. }
  intros a p1 Hs1 Ha Hfree _. pose proof Ha as [_ Har]. bfalse (a =? 0).
  destruct (new_page_buffer p p1 a Hs1 Ha) as (Hkb & Hpa & Hmine).
  destruct (vmstep_one _ _ _ _ Hs1) as (_ & _ & _ & Hfresh).
  wp_step. apply wp_zero_bytes; [done|apply (vs_ok _ _ _ _ Hs1)|by rewrite Hpa|].
  rewrite Hpa. intros p2 Hw2.
  assert (vmstep p p2 [a] nowhere) as Hs2 by (eapply vmstep_wrote; [exact Hs1|done|reflexivity|exact Hw2]).
  assert (∀ k, 0 ≤ k < PAGE_SIZE → rd8 (pmem p2) (a + k) = 0) as Hz.
  { intros k Hk'. rewrite (wt_bytes _ _ _ _ _ Hw2), decide_True by lia. done. }
  assert (∀ p3 n g, wrote p2 p3 a n g → n ≤ PAGE_SIZE →
            (∀ k, 0 ≤ k < PAGE_SIZE → (if decide (k < n) then g k else 0) = region_byte (pmem p) r (page_base far) k) →
            wp (publish_page mm (page_base far) a (vr_flags r)) Q (vst p3 t X s)) as Hpub.
  { intros p3 n g Hw3 Hn Hg. eapply (wp_publish mm c a (page_base far)); [exact Hk|done|done| |done|done|done|done|].
    - eapply vmstep_wrote; [exact Hs2|done|done|exact Hw3].
    - intros p' t' X' F' Hf Hl Hc. eapply HQ; [exact Hf|done|exact Hl|]. intros k Hk'.
      rewrite (rd8_frame (pmem p3)); cycle 1.
      { apply Hc. rewrite pg_word_of. by apply pg_offset. }
      rewrite (wt_bytes _ _ _ _ _ Hw3) by lia. rewrite <- Hg by done.
      destruct (decide (k < n)); [rewrite decide_True by lia; f_equal; lia|].
      rewrite decide_False by lia. by apply Hz. }
  assert ((∀ k, 0 ≤ k < PAGE_SIZE → region_byte (pmem p) r (page_base far) k = 0) →
          wp (publish_page mm (page_base far) a (vr_flags r)) Q (vst p2 t X s)) as Hzero.
  { intros Hb. apply (Hpub p2 0 (λ _, 0)); [apply wrote_refl, (vs_ok _ _ _ _ Hs2)|unfold PAGE_SIZE; lia|].
    intros k Hk'. rewrite decide_False by lia. by rewrite Hb. }
  unfold region_byte in Hzero, Hpub.
  wp_step. destruct (vr_type r); [wp_step; by apply Hzero| |wp_step; by apply Hzero].
  unfold elf_source. set (o := u64 (page_base far - vr_start r)) in *.
  assert (0 ≤ o) as Ho by (apply Z.mod_pos_bound; lia).
  destruct (vr_elf_image r =? 0) eqn:Hi; cbn [negb andb] in *; [by apply Hzero|]. bool_to_prop.
  destruct (o <? vr_file_size r) eqn:Hof; bool_to_prop; cycle 1.
  { apply Hzero. intros k Hk'. by bfalse (o + k <? vr_file_size r). }
  destruct (Himg Hi) as [Hsb Hsm]; [lia|]. set (img := vr_elf_image r + vr_elf_offset r) in *.
  set (len := if PAGE_SIZE <? _ then PAGE_SIZE else vr_file_size r - o).
  assert (0 < len ≤ PAGE_SIZE ∧ len ≤ vr_file_size r - o ∧ (len = PAGE_SIZE ∨ len = vr_file_size r - o)) as (Hl1 & Hl2 & Hl3).
  { unfold len. destruct (PAGE_SIZE <? vr_file_size r - o) eqn:?; bool_to_prop; unfold PAGE_SIZE in *; lia. }
  destruct (kbuf_sub img (vr_file_size r) o len Hsb) as (Hsb' & Hspa & Hsu); [lia..|]. rewrite Hsu.
  assert (∀ i, 0 ≤ i < len → fe_mine p (word_of (va_to_pa img + o + i))) as Hsm'.
  { intros i Hi'. rewrite <- Z.add_assoc. apply Hsm. lia. }
  pose proof (mine_disjoint (fe_mine p) a (va_to_pa img + o) len Ha Hfresh Hsm') as Hdis.
  apply (wp_copy_bytes (pa_to_va a) (img + o) len).
  - destruct (kbuf_page a 0 len Ha) as [Hkl _]; [lia..|unfold PAGE_SIZE in *; lia|]. by rewrite Z.add_0_r in Hkl.
  - done.
  - apply (vs_ok _ _ _ _ Hs2).
  - rewrite Hpa. intros i Hi'. apply (so_mine _ _ (wt_owner _ _ _ _ _ Hw2)), Hmine. lia.
  - rewrite Hpa, Hspa. unfold PAGE_SIZE in *. lia.
  - rewrite Hpa. intros p3 Hw3. eapply Hpub; [exact Hw3|lia|]. intros k Hk'.
    case_decide; [btrue (o + k <? vr_file_size r)|bfalse (o + k <? vr_file_size r); done].
    rewrite Hspa. apply rd8_frame. apply (vs_mem _ _ _ _ Hs2); [apply Hsm'; lia|by intros []].
Qed.

(** A fault of the stack or of the legacy heap maps a zero page. *)
Lemma anon_flags_ok : flags_ok ANON_FLAGS.
Proof. done. Qed.

Lemma wp_fallback mm c far (Q : bool → vstate P → Prop) p t X s F :
  vm_ok p X F → X !! mm = Some c → can_lock L_page (pheld p) = true →
  0 ≤ far < 2 ^ 64 → leaf (pmem p) (F mm) (vpn far) = None →
  (∀ p' t' X' F', vm_frame mm p X F p' X' F' → Q false (vst p' t' X' s)) →
  (∀ a p' t' X' F', vm_frame mm p X F p' X' F' → page_ok a →
     (∀ v, leaf (pmem p') (F' mm) v =
       if decide (v = vpn far) then Some (page_desc a ANON_FLAGS) else leaf (pmem p) (F mm) v) →
     (∀ k, 0 ≤ k < PAGE_SIZE → rd8 (pmem p') (a + k) = 0) →
     Q true (vst p' t' X' s)) →
  wp (handle_fallback_fault mm far) Q (vst p t X s).
Proof.
  intros Hk HX Hlk Hfar Hnone HQ0 HQ. rewrite <- (vpn_page_base far Hfar) in *.
  unfold handle_fallback_fault. wp_step. apply wp_page_alloc; [apply Hk|done| |].
  { intros p' Hs. change (0 =? 0) with true. cbn iota. wp_step. apply HQ0 with (F' := F). by apply frame_step. }
  intros a p1 Hs1 Ha _ Hz. pose proof Ha as [_ Har]. bfalse (a =? 0).
  eapply (wp_publish mm c a (page_base far)); [exact Hk|done|done|exact Hs1|done|apply anon_flags_ok|done|done|].
  intros p' t' X' F' Hf Hl Hc. eapply HQ; [exact Hf|done|exact Hl|]. intros k Hk'.
  assert (pg (word_of (a + k)) = a) as Hpg by (rewrite pg_word_of; by apply pg_offset).
  rewrite (rd8_frame (pmem p1)) by (apply Hc; exact Hpg). unfold rd8.
  destruct (word_of_page a k Ha Hk') as [-> Hw]. by rewrite Hz, Z.shiftr_0_l.
Qed.

(** ** Copy on write *)

Lemma wp_ref_get a r (Q : Z → vstate P → Prop) p t X s :
  fe_ok p → can_lock L_page (pheld p) = true → fe_own p a = Some r →
  (∀ p', vmstep p p' [] nowhere → Q r (vst p' t X s)) → wp (vm_page_ref_get a) Q (vst p t X s).
Proof.
  intros Hp Hl Ha HQ. apply wp_env. eapply wp_mono; [by apply fe_ref_get_law|].
  intros v p' (-> & Hok & Hg & Hlv & Hm & Ho). apply HQ. split; [done|done|done| |done|by intros q ?%elem_of_nil].
  intros w Hw. split; [|intros _]; by apply Hm.
Qed.

Lemma wp_logf msg v (Q : unit → vstate P → Prop) p t X s :
  fe_ok p → (∀ p', vmstep p p' [] nowhere → Q () (vst p' t X s)) → wp (ker_logf msg v) Q (vst p t X s).
Proof. intros Hp HQ. apply wp_mach. apply (HQ (pemit (Ev_warn msg v) p)). by apply vmstep_emit. Qed.

Lemma frame_emit mm ev p X F : vm_ok p X F → vm_frame mm p X F (pemit ev p) X F.
Proof. intros Hk. apply frame_step; [done|]. apply vmstep_emit, Hk. Qed.

Lemma leaf_step mm c p p' X F : vm_ok p X F → X !! mm = Some c → vmstep p p' [] nowhere →
  ∀ v, leaf (pmem p') (F mm) v = leaf (pmem p) (F mm) v.
Proof. intros Hk HX Hs. eapply ctx_frame; [done|apply Hk|by eapply vk_ctx|by intros ? _ []]. Qed.

Lemma ready_of mm c p X F : vm_ok p X F → X !! mm = Some c → can_lock L_page (pheld p) = true →
  ready p X mm c (F mm).
Proof. intros Hk HX Hl. split; [by eapply vk_live|done|apply Hk|by eapply vk_ctx|done]. Qed.

(** The last owner: the entry is upgraded in place. *)
Lemma wp_cow_upgrade mm c far b e asid (Q : bool → vstate P → Prop) p t X s F :
  vm_ok p X F → X !! mm = Some c → l3_of (F mm) far = Some b →
  wd (pmem p) b (vpn far mod 512) = e → leaf (pmem p) (F mm) (vpn far) = Some e →
  sole X mm (desc_addr e) →
  (∀ p', vm_frame mm p X F p' X F →
     (∀ v, leaf (pmem p') (F mm) v =
       if decide (v = vpn far) then Some (upgraded_desc e) else leaf (pmem p) (F mm) v) →
     Q true (vst p' t X s)) →
  wp (now ← up (load64 (entry_at (pa_to_va b) (L3_INDEX_FOR far)));
      up (store64 (entry_at (pa_to_va b) (L3_INDEX_FOR far)) (upgraded_desc now)) ;;
      mmu_invalidate_tlb_va asid (page_base far) ;;
      ker_logf "CoW: upgraded to RW (ref=1)" (page_base far) ;;
      mret true) Q (vst p t X s).
Proof.
  intros Hk HX Hb Hwd Hleaf Hso HQ. pose proof (vk_ctx _ _ _ Hk mm c HX) as Hc.
  pose proof (ctx_tab_ok _ _ _ _ _ Hc Hb) as Hbok. destruct (vpn_split far) as [Hv1 Hv2].
  pose proof (leaf_page _ _ _ (cx_tree _ _ _ Hc) _ _ Hleaf) as Hpage.
  destruct (upgraded_desc_ok e Hpage) as (Hup & Hua & Huw). destruct (vk_leaf _ _ _ Hk mm c _ e HX Hleaf) as [Hin Hnt].
  wp_step. eapply wp_load_leaf; [done..|]. rewrite Hwd. wp_step. apply wp_store_entry; [done|apply index_range|].
  unfold l3_of in Hb. rewrite <- Hv1 in Hb. rewrite <- Hv2.
  pose proof (mapped_store p c (F mm) (vpn far) b (upgraded_desc e) (vk_ok _ _ _ Hk) Hc Hb (λ _, Hup)) as Hm.
  set (p1 := pwrite _ _ p) in *. apply desc_page_valid in Hup as Huv.
  pose proof (mp_leaf _ _ _ _ _ _ _ _ _ Hm) as Hl. rewrite Huv in Hl.
  assert (vm_frame mm p X F p1 X F) as Hf.
  { eapply vm_frame_ext; [apply (fset_id F mm)|]. rewrite <- (insert_id X mm c HX) at 2.
    eapply frame_replaced; [done|done|eapply vm_mapped_set; [done|done|exact Hm|done|by rewrite Hua..|]|].
    - intros v' e' Hv' Hne Heq. rewrite Hua in Heq. by apply Hne, (vk_inj _ _ _ Hk mm c v' (vpn far) e' e).
    - intros v e' Hv'. rewrite Hl. case_decide as Hvv; [|by left]. subst v. right. eexists. split; [done|].
      assert (e' = e) as -> by congruence. split; [|intros w Hw].
      + rewrite Hua. destruct (tracked_ok _ _ _ _ _ _ Hk HX Hin) as [Hok Hmine].
        apply page_same_words; [done|]. intros w Hw.
        apply (vs_mem _ _ _ _ (mp_step _ _ _ _ _ _ _ _ _ Hm)); [by apply Hmine|by rewrite Hw].
      + rewrite Huw. destruct w; [|done]. rewrite access_allowed_tb in Hw |- *.
        apply andb_true_iff in Hw as [-> _]. done. }
  wp_step. apply wp_tlbi_va. wp_step.
  pose proof (frame_emit mm (Ev_tlbi_va asid (page_base far)) p1 X F (vf_ok _ _ _ _ _ _ _ Hf)) as Hf2.
  apply wp_logf; [apply (vf_ok _ _ _ _ _ _ _ Hf2)|]. intros p3 Hs3. wp_step. apply HQ.
  - eapply vm_frame_trans; [exact Hf|]. eapply vm_frame_trans; [exact Hf2|].
    apply frame_step; [apply Hf2|done].
  - intros v. rewrite (leaf_step mm c _ p3 X F (vf_ok _ _ _ _ _ _ _ Hf2) HX Hs3), pmem_pemit. apply Hl.
Qed.

(** A shared page: the context gets a private copy. *)
Lemma wp_cow_copy mm c far b e asid (Q : bool → vstate P → Prop) p t X s F :
  vm_ok p X F → X !! mm = Some c → can_lock L_page (pheld p) = true → l3_of (F mm) far = Some b →
  wd (pmem p) b (vpn far mod 512) = e → leaf (pmem p) (F mm) (vpn far) = Some e →
  Z.testbit e 7 = true →
  (∀ p' t' X' F', vm_frame mm p X F p' X' F' → Q false (vst p' t' X' s)) →
  (∀ e' p' t' X' F', vm_frame mm p X F p' X' F' →
     (∀ v, leaf (pmem p') (F' mm) v = if decide (v = vpn far) then Some e' else leaf (pmem p) (F mm) v) →
     (∀ w, mmu_user_access_allowed e' w = mmu_user_access_allowed e false) → Z.testbit e' 7 = false →
     Q true (vst p' t' X' s)) →
  wp (copy_page ← vm_page_alloc;
      if copy_page =? 0 then mret false else
      copy_bytes (pa_to_va copy_page) (pa_to_va (desc_addr e)) PAGE_SIZE ;;
      added ← mmu_context_add_page_locked mm (va_to_pa copy_page);
      if negb added then vm_page_free copy_page ;; mret false else
      up (store64 (entry_at (pa_to_va b) (L3_INDEX_FOR far)) (copied_desc (va_to_pa copy_page) e)) ;;
      mmu_context_remove_page_locked mm (desc_addr e) ;;
      vm_page_ref_dec (desc_addr e) ;;
      mmu_invalidate_tlb_va asid (page_base far) ;;
      mret true) Q (vst p t X s).
Proof.
  intros Hk HX Hlk Hb Hwd Hleaf Hro HQ0 HQ. pose proof (vk_ctx _ _ _ Hk mm c HX) as Hc.
  destruct (vk_live _ _ _ Hk mm c HX) as [Hmm _]. pose proof (ctx_tab_ok _ _ _ _ _ Hc Hb) as Hbok.
  destruct (vpn_split far) as [Hv1 Hv2]. pose proof (leaf_page _ _ _ (cx_tree _ _ _ Hc) _ _ Hleaf) as Hpage.
  destruct (vk_leaf _ _ _ Hk mm c _ e HX Hleaf) as [Hin Hnt].
  destruct (tracked_ok _ _ _ _ _ _ Hk HX Hin) as [Hold Hmine_old].
  wp_step. apply wp_page_alloc; [apply Hk|done| |].
  { intros p' Hs. change (0 =? 0) with true. cbn iota. wp_step. apply HQ0 with (F' := F). by apply frame_step. }
  intros a p1 Hs1 Ha Hfree _. pose proof Ha as [_ Har]. bfalse (a =? 0).
  rewrite va_to_pa_low by (unfold KERNEL_VA_OFFSET; lia).
  destruct (new_page_buffer p p1 a Hs1 Ha) as (Hkb & Hpa & Hmine).
  destruct (kbuf_page (desc_addr e) 0 PAGE_SIZE Hold) as [Hskb Hspa]; [unfold PAGE_SIZE; lia..|].
  rewrite Z.add_0_r in Hskb, Hspa. pose proof (new_untracked p X F a Hk Hfree mm c HX) as Hun.
  assert (desc_addr e ≠ a) as Hne by (by intros <-).
  assert (desc_addr e + 4096 ≤ a ∨ a + 4096 ≤ desc_addr e) as Hdis.
  { destruct Ha as [Ha _], Hold as [Ho _]. unfold PAGE_SIZE in *.
    pose proof (Z.div_mod a 4096). pose proof (Z.div_mod (desc_addr e) 4096). lia. }
  wp_step. apply (wp_copy_bytes (pa_to_va a) (pa_to_va (desc_addr e)) PAGE_SIZE);
    [done|done|apply (vs_ok _ _ _ _ Hs1)|by rewrite Hpa|rewrite Hpa, Hspa; unfold PAGE_SIZE; lia|].
  rewrite Hpa, Hspa. intros p2 Hw2.
  assert (vmstep p p2 [a] nowhere) as Hs2 by (eapply vmstep_wrote; [exact Hs1|done|reflexivity|exact Hw2]).
  wp_step. apply (wp_add_page mm c); [done|lia|done|by intros ?%Hun| |]; cycle 1.
  { intros _ _. cbn [negb]. wp_step. eapply wp_free_new; [apply Hk|done|done|]. intros p' Hs'. wp_step.
    apply HQ0 with (F' := F). by apply frame_step. }
  intros _ Hlen. cbn [negb]. destruct (track_new mm p X F c p2 a Hk HX Hs2 Hlen) as [Hc1 Hk1 Hf1 Hnta Hsole Hl1 Hother].
  set (c1 := add_pages [a] c) in *. set (X1 := <[mm := c1]> X) in *.
  assert (X1 !! mm = Some c1) as HX1 by apply lookup_insert_eq.
  assert (a ∈ mm_pages c1) as Hin1 by (simpl; apply elem_of_app; right; by apply list_elem_of_singleton).
  assert (desc_addr e ∈ mm_pages c1) as Hin1' by (simpl; apply elem_of_app; by left).
  destruct (copied_desc_ok a e Ha Hpage) as (Hcp & Hca & Hcw). set (e' := copied_desc a e) in *.
  apply desc_page_valid in Hcp as Hcv.
  wp_step. apply wp_store_entry; [done|apply index_range|].
  unfold l3_of in Hb. rewrite <- Hv1 in Hb. rewrite <- Hv2.
  pose proof (mapped_store p2 c1 (F mm) (vpn far) b e' (vk_ok _ _ _ Hk1) Hc1 Hb (λ _, Hcp)) as Hm3.
  set (p3 := pwrite _ _ p2) in *. pose proof (mp_leaf _ _ _ _ _ _ _ _ _ Hm3) as Hl3. rewrite Hcv in Hl3.
  assert (vm_mapped p2 X1 F mm c1 p3 c1 (F mm) []) as Hvm3.
  { eapply vm_mapped_set; [done|done|exact Hm3|done|by rewrite Hca..|]. intros v' e1 Hv' _. rewrite Hca. by eapply Hother. }
  assert (page_same (pmem p2) (desc_addr e) (pmem p3) a) as Hsame.
  { intros k Hk'. transitivity (rd8 (pmem p2) (a + k)).
    - apply rd8_frame. apply (vs_mem _ _ _ _ (mp_step _ _ _ _ _ _ _ _ _ Hm3)).
      + apply (so_mine _ _ (wt_owner _ _ _ _ _ Hw2)), Hmine. lia.
      + by rewrite pg_word_of, pg_offset.
    - unfold PAGE_SIZE in *. rewrite !(wt_bytes _ _ _ _ _ Hw2) by (destruct Ha, Hold; lia).
      rewrite decide_True, decide_False by lia. f_equal. lia. }
  assert (vm_frame mm p2 X1 F p3 X1 F) as Hf3.
  { eapply vm_frame_ext; [apply (fset_id F mm)|]. rewrite <- (insert_id X1 mm c1 HX1) at 2.
    eapply frame_replaced; [done|done|exact Hvm3|]. intros v e1 Hv'. rewrite Hl3. case_decide as Hvv; [|by left].
    subst v. right. eexists. split; [done|]. rewrite Hl1, Hleaf in Hv'. injection Hv' as <-.
    split; [by rewrite Hca|]. intros w Hw. rewrite Hcw. destruct w; [|done].
    rewrite access_allowed_tb, Hro, andb_false_r in Hw. done. }
  pose proof (vf_ok _ _ _ _ _ _ _ Hf3) as Hk3.
  destruct (tracked_removable _ _ Hin1') as [l Hrm].
  wp_step. eapply wp_remove_page; [done|destruct Hold; lia|done|exact Hrm|]. wp_step.
  eapply wp_drop; [apply Hk3| |by eapply (vk_count _ _ _ Hk3)|].
  { rewrite (vmstep_held _ _ _ _ (mp_step _ _ _ _ _ _ _ _ _ Hm3)). by rewrite (vmstep_held _ _ _ _ Hs2). }
  intros _ p4 Hd.
  assert (∀ v e1, leaf (pmem p3) (F mm) v = Some e1 → desc_addr e1 ≠ desc_addr e) as Hgone.
  { intros v e1 Hv' Heq. rewrite Hl3 in Hv'. case_decide as Hvv; [injection Hv' as <-; congruence|].
    rewrite Hl1 in Hv'. by apply Hvv, (vk_inj _ _ _ Hk mm c v (vpn far) e1 e). }
  pose proof (frame_untrack p3 X1 F mm c1 (desc_addr e) p4 l Hk3 HX1 Hrm Hnt Hgone Hd) as Hf4.
  destruct (vm_ok_untrack p3 X1 F mm c1 (desc_addr e) p4 l Hk3 HX1 Hrm Hnt Hgone Hd) as [_ Hl4].
  wp_step. apply wp_tlbi_va. wp_step. eapply (HQ e' _ _ _ F).
  - eapply vm_frame_trans; [exact Hf1|]. eapply vm_frame_trans; [exact Hf3|].
    eapply vm_frame_trans; [exact Hf4|]. apply frame_emit, Hf4.
  - intros v. rewrite pmem_pemit, (Hl4 mm c1 HX1), Hl3, Hl1. done.
  - done.
  - by apply copied_desc_bit7.
Qed.

Lemma wp_get_process q pr (Q : process → vstate P → Prop) p t X s :
  processes s !! q = Some pr → Q pr (vst p t X s) → wp (get_process q) Q (vst p t X s).
Proof.
  intros Hq HQ. unfold wp, get_process. change (processes (vst p t X s)) with (processes s). by rewrite Hq.
Qed.

Lemma wp_load_desc c T far b (Q : Z → vstate P → Prop) p t X s :
  ctx_ok p c T → l3_of T far = Some b → Q (wd (pmem p) b (vpn far mod 512)) (vst p t X s) →
  wp (up (load64 (entry_at (pa_to_va b) (L3_INDEX_FOR far)))) Q (vst p t X s).
Proof. apply wp_load_leaf. Qed.

Lemma wp_cow mm c far (Q : bool → vstate P → Prop) p t X s F :
  vm_ok p X F → X !! mm = Some c → can_lock L_page (pheld p) = true →
  (∀ p' t' X' F', vm_frame mm p X F p' X' F' → Q false (vst p' t' X' s)) →
  (∀ e e' p' t' X' F', vm_frame mm p X F p' X' F' →
     leaf (pmem p) (F mm) (vpn far) = Some e → Z.testbit e 7 = true → Z.testbit e 55 = true →
     (∀ v, leaf (pmem p') (F' mm) v = if decide (v = vpn far) then Some e' else leaf (pmem p) (F mm) v) →
     (∀ w, mmu_user_access_allowed e' w = mmu_user_access_allowed e false) → Z.testbit e' 7 = false →
     Q true (vst p' t' X' s)) →
  wp (handle_cow_fault mm far) Q (vst p t X s).
Proof.
  intros Hk HX Hlk HQ0 HQ. pose proof (vk_ctx _ _ _ Hk mm c HX) as Hc.
  destruct (vk_live _ _ _ Hk mm c HX) as [Hmm _].
  assert (Q false (vst p t X s)) as Hno by (eapply HQ0; by apply vm_frame_refl).
  unfold handle_cow_fault. wp_step. eapply wp_resolve_desc; [done..|].
  destruct (l3_of (F mm) far) as [b|] eqn:Hb; cbn [fmap option_fmap option_map]; [|by wp_step].
  wp_step. eapply wp_load_leaf; [done..|]. set (e := wd (pmem p) b _).
  destruct (desc_valid e && _ && _) eqn:Hcond; cbn [negb]; [|by wp_step].
  apply andb_true_iff in Hcond as [[Hv Hro]%andb_true_iff Hcow].
  rewrite ap_ro_tb in Hro. unfold MMU_DESC_SOFTWARE_COW in Hcow. rewrite bit_set_tb in Hcow by lia.
  assert (leaf (pmem p) (F mm) (vpn far) = Some e) as Hleaf.
  { rewrite (leaf_at p c (F mm) far b Hc Hb). fold e. by rewrite Hv. }
  destruct (vk_leaf _ _ _ Hk mm c _ e HX Hleaf) as [Hin _].
  pose proof (vk_count _ _ _ Hk mm c _ HX Hin) as Hown.
  change (Z.land e MMU_L3_PAGE_ADDR_MASK) with (desc_addr e).
  wp_step. eapply wp_get_mm; [done|]. wp_step. eapply wp_ref_get; [apply Hk|done|done|]. intros p1 Hs1.
  pose proof (frame_step mm _ _ _ _ Hk Hs1) as Hf1. pose proof (vf_ok _ _ _ _ _ _ _ Hf1) as Hk1.
  pose proof (leaf_step mm c p p1 X F Hk HX Hs1) as Hl1.
  pose proof (vmstep_held _ _ _ _ Hs1) as Hh1.
  assert (∀ p2, vmstep p p2 [] nowhere → wd (pmem p2) b (vpn far mod 512) = e) as Hwd.
  { intros p2 Hs2. apply (vs_mem _ _ _ _ Hs2); [|by intros []]. 
    eapply ctx_mine; [apply Hk|exact Hc|by exists (3, pfx3 far)|].
    apply pg_entry; [by eapply ctx_tab_ok|by apply Z.mod_pos_bound]. }
  destruct (Z.of_nat (trackers X (desc_addr e)) =? 1) eqn:Href; bool_to_prop.
  - eapply (wp_cow_upgrade mm c far b e); [done|done|done|by apply Hwd|by rewrite Hl1| |].
    + apply (trackers_one X mm c); [done|done|lia].
    + intros p2 Hf2 Hl2. eapply (HQ e); [eapply vm_frame_trans; [exact Hf1|exact Hf2]|done|done|done| | |].
      * intros v. by rewrite Hl2, Hl1.
      * apply upgraded_desc_ok. by eapply leaf_page; [apply Hc|].
      * by rewrite upgraded_desc_tb, andb_false_r by lia.
  - wp_step. eapply wp_ref_get; [apply Hk1|by rewrite Hh1|by eapply (vk_count _ _ _ Hk1)|]. intros p2 Hs2.
    assert (vmstep p p2 [] nowhere) as Hs12 by (by eapply (vmstep_trans _ _ _ [] []); [exact Hs1|exact Hs2|done|left]).
    wp_step. apply wp_logf; [apply (vs_ok _ _ _ _ Hs2)|]. intros p3 Hs3.
    assert (vmstep p p3 [] nowhere) as Hs by (by eapply (vmstep_trans _ _ _ [] []); [exact Hs12|exact Hs3|done|left]).
    pose proof (frame_step mm _ _ _ _ Hk Hs) as Hf3. pose proof (leaf_step mm c p p3 X F Hk HX Hs) as Hl3.
    eapply (wp_cow_copy mm c far b e);
      [apply Hf3|done|by rewrite (vmstep_held _ _ _ _ Hs)|done|by apply Hwd|by rewrite Hl3|done| |].
    + intros p4 t4 X4 F4 Hf4. eapply HQ0. eapply vm_frame_trans; [exact Hf3|exact Hf4].
    + intros e' p4 t4 X4 F4 Hf4 Hl4 Hw H7. eapply (HQ e e'); [eapply vm_frame_trans; [exact Hf3|exact Hf4]|done|done|done| |done|done].
      intros v. by rewrite Hl4, Hl3.
Qed.

(** ** The handler *)

Definition fault_type (esr : Z) : Z := Z.land (Z.land esr 0x3F) 0x3C.

(** What a served fault did, by kind: nothing, since another CPU had served
    it; a new page; a page that can now be written. *)
Inductive served (m : gmap Z Z) T (pr : process) (far esr : Z) (m' : gmap Z Z) T' : Prop :=
  | served_before e :
      fault_type esr = 4 → leaf m T (vpn far) = Some e →
      (∀ v, leaf m' T' v = leaf m T v) → served m T pr far esr m' T'
  | served_lazy a flags :
      fault_type esr = 4 → leaf m T (vpn far) = None → page_ok a →
      (∀ v, leaf m' T' v = if decide (v = vpn far) then Some (page_desc a flags) else leaf m T v) →
      match find_region far (pr_regions pr) with
      | Some r => flags = vr_flags r ∧
          ∀ k, 0 ≤ k < PAGE_SIZE → rd8 m' (a + k) = region_byte m r (page_base far) k
      | None => fallback_ok far (pr_brk pr) = true ∧ flags = ANON_FLAGS ∧
          ∀ k, 0 ≤ k < PAGE_SIZE → rd8 m' (a + k) = 0
      end → served m T pr far esr m' T'
  | served_cow e e' :
      fault_type esr = 12 → leaf m T (vpn far) = Some e → Z.testbit e 7 = true → Z.testbit e 55 = true →
      (∀ v, leaf m' T' v = if decide (v = vpn far) then Some e' else leaf m T v) →
      (∀ w, mmu_user_access_allowed e' w = mmu_user_access_allowed e false) → Z.testbit e' 7 = false →
      served m T pr far esr m' T'.

Lemma wp_fault_locked q pr c far esr (Q : bool → vstate P → Prop) p t X s F :
  let mm := pr_mm pr in
  vm_ok p X F → X !! mm = Some c → processes s !! q = Some pr → q ≠ 0 →
  can_lock L_page (pheld p) = true → 0 ≤ far < 2 ^ 64 → Forall (region_ok p) (pr_regions pr) →
  (∀ p' t' X' F', vm_frame mm p X F p' X' F' → Q false (vst p' t' X' s)) →
  (∀ p' t' X' F', vm_frame mm p X F p' X' F' →
     served (pmem p) (F mm) pr far esr (pmem p') (F' mm) → Q true (vst p' t' X' s)) →
  wp (mmu_handle_process_page_fault_locked q far esr) Q (vst p t X s).
Proof.
  intros mm Hk HX Hpr Hq Hlk Hfar Hreg HQ0 HQ. pose proof (vk_ctx _ _ _ Hk mm c HX) as Hc.
  destruct (vk_live _ _ _ Hk mm c HX) as [Hmm _]. pose proof (vm_frame_refl mm p X F Hk) as Hrefl.
  unfold mmu_handle_process_page_fault_locked. wp_step. apply wp_enabled. destruct (m_mmu_enabled _); cbn [negb]; [|wp_step; by eapply HQ0].
  bfalse (q =? 0). wp_step. eapply wp_get_process; [done|].
  fold mm. bfalse (mm =? 0). change (Z.land (Z.land esr 63) 60) with (fault_type esr).
  destruct (fault_type esr =? 4) eqn:Ht; bool_to_prop.
  - wp_step. eapply wp_resolve; [done..|]. destruct (leaf (pmem p) (F mm) (vpn far)) as [e|] eqn:Hl; cbn [fmap option_fmap option_map].
    { rewrite bool_decide_true by done. wp_step. eapply HQ; [exact Hrefl|]. by eapply served_before. }
    rewrite bool_decide_false by (by intros [? ?]). bfalse (fault_type esr =? 12). cbn [negb].
    destruct (find_region far (pr_regions pr)) as [r|] eqn:Hr.
    + assert (region_ok p r) as Hro.
      { pose proof (find_region_spec far (pr_regions pr)) as Hs. rewrite Hr in Hs.
        destruct Hs as (l1 & l2 & Heq & _). rewrite Heq in Hreg. by apply Forall_app in Hreg as [_ [? _]%Forall_cons]. }
      eapply (wp_region mm c); [done..|]. intros a p' t' X' F' Hf Ha Hlf Hb. eapply HQ; [exact Hf|].
      eapply served_lazy; [done|done|done|exact Hlf|]. by rewrite Hr.
    + destruct (fallback_ok far (pr_brk pr)) eqn:Hfb; [|wp_step; by eapply HQ0].
      eapply (wp_fallback mm c); [done..|]. intros a p' t' X' F' Hf Ha Hlf Hb. eapply HQ; [exact Hf|].
      eapply served_lazy; [done|done|done|exact Hlf|]. by rewrite Hr.
  - wp_step. wp_step. rewrite bool_decide_false by (by intros [? ?]).
    destruct (fault_type esr =? 12) eqn:Ht'; bool_to_prop; [|cbn [negb]; wp_step; by eapply HQ0].
    eapply (wp_cow mm c); [done..|]. intros e e' p' t' X' F' Hf He H7 H55 Hlf Hw H7'. eapply HQ; [exact Hf|].
    by eapply served_cow.
Qed.

(** ** Under the locks *)

Lemma vm_ok_plocks l p X F : vm_ok p X F → vm_ok (plocks l p) X F.
Proof.
  intros Hk. eapply vm_ok_owner; [exact Hk|apply plocks_owner, Hk|]. intros w. by rewrite pmem_plocks.
Qed.

Lemma frame_under mm l p X F p' X' F' : vm_ok p X F → vm_frame mm (plocks l p) X F p' X' F' →
  vm_frame mm p X F (plocks (pheld p) p') X' F'.
Proof.
  intros Hk [Hok (_ & He & tr & Htr) Hl Hd Hc Hv Ho Hm].
  destruct (plocks_owner l p (vk_ok _ _ _ Hk)) as [_ _ Hm1 Hl1].
  destruct (plocks_owner (pheld p) p' (vk_ok _ _ _ Hok)) as [_ _ Hm2 Hl2].
  split; [by apply vm_ok_plocks| | |done|done| | |].
  - unfold plocks in *. rewrite pmach_set in *. split; [done|]. split; [done|]. by exists tr.
  - intros b w. by rewrite Hl2, Hl.
  - intros mm' c' HX. specialize (Hv mm' c' HX). by rewrite !pmem_plocks in *.
  - intros mm' c' v Hne HX. specialize (Ho mm' c' v Hne HX). by rewrite !pmem_plocks in *.
  - intros w Hw Hu. destruct (Hm w) as (? & Heq & ?); [by apply Hm1|done|]. rewrite !pmem_plocks in *.
    split; [by apply Hm2|done].
Qed.

Lemma region_ok_mine p p' r : (∀ w, fe_mine p w → fe_mine p' w) → region_ok p r → region_ok p' r.
Proof.
  intros Hm [Hf Hi]. split; [done|]. intros Hne Hz. destruct (Hi Hne Hz) as [Hb Hw]. split; [done|].
  intros i Hi'. by apply Hm, Hw.
Qed.

Lemma wp_fault q pr c far esr (Q : bool → vstate P → Prop) p t X s F :
  let mm := pr_mm pr in
  vm_ok p X F → X !! mm = Some c → processes s !! q = Some pr → q ≠ 0 →
  can_lock (L_process q) (pheld p) = true → 0 ≤ far < 2 ^ 64 → Forall (region_ok p) (pr_regions pr) →
  (∀ p' t' X' F', vm_frame mm p X F p' X' F' → Q false (vst p' t' X' s)) →
  (∀ p' t' X' F', vm_frame mm p X F p' X' F' →
     served (pmem p) (F mm) pr far esr (pmem p') (F' mm) → Q true (vst p' t' X' s)) →
  wp (mmu_handle_process_page_fault q far esr) Q (vst p t X s).
Proof.
  intros mm Hk HX Hpr Hq Hlk Hfar Hreg HQ0 HQ. destruct (vk_live _ _ _ Hk mm c HX) as [Hmm _].
  unfold mmu_handle_process_page_fault. wp_step. apply wp_enabled.
  destruct (m_mmu_enabled _); cbn [negb orb]; [|wp_step; eapply HQ0; by apply vm_frame_refl]. bfalse (q =? 0).
  set (h1 := L_process q :: pheld p). set (h2 := L_mm mm :: h1). 
  assert (can_lock (L_mm mm) h1 = true) as Hlm by (by apply can_lock_rank).
  assert (can_lock L_page h2 = true) as Hlp by (by apply can_lock_rank).
  assert (pheld (plocks h1 p) = h1) as Hh1 by apply pheld_plocks.
  wp_step. unfold lock_process. wp_step. eapply wp_get_process; [done|]. apply wp_vlock; [done|]. fold h1.
  wp_step. eapply wp_get_process; [done|]. fold mm. bfalse (mm =? 0).
  wp_step. unfold lock_mm. wp_step. eapply wp_get_mm; [done|]. apply wp_vlock; rewrite Hh1; [done|]. fold h2.
  wp_step. eapply wp_get_process; [done|]. fold mm. rewrite Z.eqb_refl. cbn [negb].
  set (p2 := plocks h2 (plocks h1 p)). assert (vm_ok p2 X F) as Hk2 by by do 2 apply vm_ok_plocks.
  assert (∀ p' X' F', vm_frame mm p2 X F p' X' F' → pheld p' = h2 ∧
            vm_frame mm p X F (plocks (pheld p) (plocks h1 p')) X' F') as Hout.
  { intros p' X' F' Hf. split; [rewrite <- (pheld_plocks h2 (plocks h1 p)); apply Hf|].
    apply (frame_under mm h1); [done|]. rewrite <- Hh1 at 2. apply (frame_under mm h2); [by apply vm_ok_plocks|done]. }
  assert (pmem p2 = pmem p) as Hmem by (unfold p2; by rewrite !pmem_plocks).
  wp_step. eapply (wp_fault_locked q pr c far esr); [exact Hk2|done|done|done| |done| | |].
  - unfold p2. by rewrite pheld_plocks.
  - eapply Forall_impl; [exact Hreg|]. intros r. apply region_ok_mine. intros w Hw.
    apply plocks_owner; [apply plocks_owner, Hk|]. by apply plocks_owner; [apply Hk|].
  - intros p' t' X' F' Hf. destruct (Hout _ _ _ Hf) as [Hh Hf']. fold mm.
    wp_step. eapply wp_vunlock; [exact Hh|]. wp_step. eapply wp_vunlock; [apply pheld_plocks|]. wp_step. by eapply HQ0.
  - intros p' t' X' F' Hf Hs. destruct (Hout _ _ _ Hf) as [Hh Hf']. fold mm.
    wp_step. eapply wp_vunlock; [exact Hh|]. wp_step. eapply wp_vunlock; [apply pheld_plocks|]. wp_step. eapply HQ; [done|].
    rewrite !pmem_plocks. by rewrite Hmem in Hs.
Qed.

End fault.
