(* ===== verification/VmCopy.v ===== *)
(** * Copies between the kernel and user memory

    [vm_xfer K R mm] is [vm_frame mm] except for the kernel bytes [K] and the
    user addresses [R] of [mm].  A copy that succeeds leaves the same bytes on
    both sides, and it fails only at a page the user could not access before. *)

From S2P Require Import Prelude Machine MmuTable MmuBoot Vmsa VmsaWalk VmsaFault VmBits VmsaSpec VmTree VmMap VmOwn VmUnmap VmBytes VmFrame VmFaultSpec.

Open Scope kernel_scope.

(** The byte at a user address, and whether the user may access it. *)
Definition ubyte (m : gmap Z Z) (T : tmap) (va : Z) : option Z :=
  (λ e, rd8 m (desc_addr e + va mod PAGE_SIZE)) <$> leaf m T (vpn va).
Definition uaccess (m : gmap Z Z) (T : tmap) (write : bool) (va : Z) : Prop :=
  ∃ e, leaf m T (vpn va) = Some e ∧ mmu_user_access_allowed e write = true.

Lemma va_split va : 0 ≤ va < 2 ^ 48 → vpn va * PAGE_SIZE + va mod PAGE_SIZE = va ∧
  0 ≤ va mod PAGE_SIZE < PAGE_SIZE.
Proof.
  intros Hva. pose proof (Z.div_mod va PAGE_SIZE). pose proof (Z.mod_pos_bound va PAGE_SIZE).
  assert (va / PAGE_SIZE < 2 ^ 36) by (apply Z.div_lt_upper_bound; unfold PAGE_SIZE in *; lia).
  rewrite vpn_eq by lia. rewrite Z.mod_small; unfold PAGE_SIZE in *; [lia|].
  split; [by apply Z.div_pos; lia|done].
Qed.

(** Addresses of one page. *)
Lemma vpn_offset va i : 0 ≤ va → 0 ≤ i → va mod PAGE_SIZE + i < PAGE_SIZE →
  vpn (va + i) = vpn va ∧ (va + i) mod PAGE_SIZE = va mod PAGE_SIZE + i.
Proof.
  intros Hva Hi Hr.
  assert ((va + i) / PAGE_SIZE = va / PAGE_SIZE ∧ (va + i) mod PAGE_SIZE = va mod PAGE_SIZE + i) as [Hd Hm].
  { unfold PAGE_SIZE in *. pose proof (Z.div_mod va 4096 ltac:(done)). pose proof (Z.mod_pos_bound va 4096 eq_refl).
    assert (va + i = va / 4096 * 4096 + (va mod 4096 + i)) as Heq by lia. split.
    - symmetry. apply (Z.div_unique_pos _ _ _ (va mod 4096 + i)); lia.
    - symmetry. apply (Z.mod_unique_pos _ _ (va / 4096)); lia. }
  split; [|done]. rewrite !vpn_eq by lia. by rewrite Hd.
Qed.

Section copy.
Context {P : Type} `{FrameLaws P}.
Implicit Types (p : P) (s : vstate P) (t : treg) (X : gmap Z mm_context) (T : tmap) (F : Z → tmap).

(** Writes outside the tables. *)
Lemma vm_ok_mem p X F p' : vm_ok p X F → same_owner p p' →
  (∀ mm c w, X !! mm = Some c → tabs (F mm) (pg w) → mrd (pmem p') w = mrd (pmem p) w) →
  vm_ok p' X F ∧ ∀ mm c, X !! mm = Some c → ∀ v, leaf (pmem p') (F mm) v = leaf (pmem p) (F mm) v.
Proof.
  intros Hk [Hok Ho Hmn Hl] Hm.
  assert (∀ mm c, X !! mm = Some c → ctx_ok p' c (F mm) ∧ ∀ v, leaf (pmem p') (F mm) v = leaf (pmem p) (F mm) v) as Hc.
  { intros mm c HX. destruct (vk_ctx _ _ _ Hk mm c HX) as [Ht Hi Hw Hn Hlen].
    destruct (tree_frame (pmem p) (pmem p') (F mm) (mm_root_pa c) Ht) as [Ht' Hlf]; [intros w; by eapply Hm|].
    split; [|done]. split; try done. intros a Ha. rewrite Ho. by apply Hw. }
  split; [split|]; try done.
  - intros mm c HX. unfold fe_live. rewrite Hl. by eapply vk_live.
  - intros mm c HX. by apply Hc.
  - intros mm c a HX Ha. rewrite Ho. by eapply vk_count.
  - intros mm c a HX Ha. by eapply vk_tabs.
  - intros mm c v e HX. rewrite (proj2 (Hc mm c HX)). by eapply vk_leaf.
  - intros mm c v1 v2 e1 e2 HX. rewrite !(proj2 (Hc mm c HX)). by eapply vk_inj.
  - intros mm c v e HX. rewrite (proj2 (Hc mm c HX)). by eapply vk_write.
  - intros mm c HX. apply (Hc mm c HX).
Qed.

(** ** The frame of a transfer *)

Record vm_xfer (K R : Z → Prop) (mm : Z) p X F p' X' F' : Prop := {
  xf_ok : vm_ok p' X' F';
  xf_grows : grows (pmach p) (pmach p');
  xf_span : ∀ b w, fe_span p' b w ↔ fe_span p b w;
  xf_dom : ∀ mm', mm' ≠ mm → X' !! mm' = X !! mm' ∧ F' mm' = F mm';
  xf_ctx : ∀ c, X !! mm = Some c → ∃ l, X' !! mm = Some (c <| mm_pages := l |>);
  xf_other : ∀ mm' c' v, mm' ≠ mm → X !! mm' = Some c' →
    leaf (pmem p') (F' mm') v = leaf (pmem p) (F mm') v;
  xf_view : ∀ mm' c' v e, X !! mm' = Some c' → leaf (pmem p) (F mm') v = Some e →
    ∃ e', leaf (pmem p') (F' mm') v = Some e' ∧
      (∀ w, mmu_user_access_allowed e w = true → mmu_user_access_allowed e' w = true) ∧
      ∀ k, 0 ≤ k < PAGE_SIZE → (mm' = mm → ¬ R (v * PAGE_SIZE + k)) →
        rd8 (pmem p') (desc_addr e' + k) = rd8 (pmem p) (desc_addr e + k);
  xf_kernel : ∀ a, fe_mine p (word_of a) → untracked X (word_of a) →
    fe_mine p' (word_of a) ∧ untracked X' (word_of a) ∧ (¬ K a → rd8 (pmem p') a = rd8 (pmem p) a);
}.

Lemma xfer_frame K R mm p X F p' X' F' : vm_frame mm p X F p' X' F' → vm_xfer K R mm p X F p' X' F'.
Proof.
  intros [Hk Hg Hl Hd Hc Hv Ho Hm]. split; try done.
  - intros mm' c' v e HX Hlf. destruct (Hv mm' c' HX v e Hlf) as (e' & Hl' & Hp & Ha).
    exists e'. split; [done|]. split; [done|]. intros k Hk' _. by apply Hp.
  - intros a Ha Hu. destruct (Hm _ Ha Hu) as (? & Heq & ?). split; [done|]. split; [done|].
    intros _. by apply rd8_frame.
Qed.

Lemma xfer_trans K R mm p1 X1 F1 p2 X2 F2 p3 X3 F3 :
  vm_xfer K R mm p1 X1 F1 p2 X2 F2 → vm_xfer K R mm p2 X2 F2 p3 X3 F3 → vm_xfer K R mm p1 X1 F1 p3 X3 F3.
Proof.
  intros [_ Hg Hl Hd Hc Ho Hv Hm] [Hk' Hg' Hl' Hd' Hc' Ho' Hv' Hm'].
  assert (∀ mm' c', X1 !! mm' = Some c' → ∃ c2, X2 !! mm' = Some c2) as Hin.
  { intros mm' c' HX. destruct (decide (mm' = mm)) as [->|Hne].
    - destruct (Hc c' HX) as [l ?]. by eexists.
    - exists c'. by rewrite (proj1 (Hd mm' Hne)). }
  split; [done|by etrans| | | | | |].
  - intros b w. by rewrite Hl', Hl.
  - intros mm' Hne. destruct (Hd mm' Hne), (Hd' mm' Hne). split; congruence.
  - intros c HX. destruct (Hc c HX) as [l HX2]. destruct (Hc' _ HX2) as [l' HX3]. by exists l'.
  - intros mm' c' v Hne HX. destruct (Hin mm' c' HX) as [c2 HX2]. by rewrite (Ho' mm' c2), (Ho mm' c').
  - intros mm' c' v e HX Hlf. destruct (Hin mm' c' HX) as [c2 HX2].
    destruct (Hv mm' c' v e HX Hlf) as (e2 & Hlf2 & Ha2 & Hb2).
    destruct (Hv' mm' c2 v e2 HX2 Hlf2) as (e3 & Hlf3 & Ha3 & Hb3).
    exists e3. split; [done|]. split; [auto|]. intros k Hk Hr. by rewrite Hb3, Hb2.
  - intros a Ha Hu. destruct (Hm a Ha Hu) as (Ha2 & Hu2 & He2). destruct (Hm' a Ha2 Hu2) as (Ha3 & Hu3 & He3).
    split; [done|]. split; [done|]. intros Hn. by rewrite He3, He2.
Qed.

Lemma xfer_refl K R mm p X F : vm_ok p X F → vm_xfer K R mm p X F p X F.
Proof. intros Hk. by apply xfer_frame, vm_frame_refl. Qed.

(** Bytes of a user page that is mapped writable. *)
Lemma xfer_page K R mm p X F c v e o n f p' : vm_ok p X F → X !! mm = Some c →
  leaf (pmem p) (F mm) v = Some e → mmu_user_access_allowed e true = true →
  0 ≤ o → o + n ≤ PAGE_SIZE → (∀ k, o ≤ k < o + n → R (v * PAGE_SIZE + k)) →
  wrote p p' (desc_addr e + o) n f →
  vm_xfer K R mm p X F p' X F ∧ leaf (pmem p') (F mm) v = Some e.
Proof.
  intros Hk HX Hlf Hw Ho0 Hon HR [Hown Hg Hwords Hbytes].
  destruct (vk_leaf _ _ _ Hk mm c v e HX Hlf) as [Hin Hnt].
  pose proof (vk_write _ _ _ Hk mm c v e HX Hlf Hw) as Hsole.
  destruct (tracked_ok _ _ _ _ _ _ Hk HX Hin) as [Hpok _]. unfold PAGE_SIZE in Hon.
  assert (∀ w, pg w ≠ desc_addr e → mrd (pmem p') w = mrd (pmem p) w) as Hfr.
  { intros w Hne. apply Hwords. intros i Hi ->. apply Hne.
    rewrite pg_word_of, <- Z.add_assoc. apply pg_offset; [done|lia]. }
  destruct (vm_ok_mem p X F p' Hk Hown) as [Hk' Hleaf].
  { intros mm' c' w HX' Ht. apply Hfr. intros Heq. rewrite Heq in Ht.
    pose proof (vk_tabs _ _ _ Hk mm' c' _ HX' Ht mm c HX Hin) as <-. congruence. }
  assert (∀ mm' c' v' e', X !! mm' = Some c' → leaf (pmem p) (F mm') v' = Some e' → desc_addr e' = desc_addr e →
            mm' = mm ∧ v' = v) as Huniq.
  { intros mm' c' v' e' HX' Hlf' Heq. destruct (vk_leaf _ _ _ Hk mm' c' v' e' HX' Hlf') as [Hin' _].
    rewrite Heq in Hin'. pose proof (Hsole mm' c' HX' Hin') as ->. split; [done|].
    by eapply (vk_inj _ _ _ Hk mm c' v' v e' e). }
  split; [|by rewrite (Hleaf mm c)]. split; [done|done| |done| | | |].
  - intros b w. apply (so_span _ _ Hown).
  - intros d HX'. exists (mm_pages d). by rewrite ctx_eta.
  - intros mm' c' v' _ HX'. by rewrite (Hleaf mm' c').
  - intros mm' c' v' e' HX' Hlf'. exists e'. rewrite (Hleaf mm' c') by done. split; [done|]. split; [done|].
    intros k Hkr HnR. destruct (vk_leaf _ _ _ Hk mm' c' v' e' HX' Hlf') as [Hin' _].
    destruct (tracked_ok _ _ _ _ _ _ Hk HX' Hin') as [Hpok' _].
    destruct (decide (desc_addr e' = desc_addr e)) as [Heq|Hne]; cycle 1.
    { apply rd8_frame, Hfr. by rewrite pg_word_of, pg_offset. }
    destruct (Huniq mm' c' v' e' HX' Hlf' Heq) as [-> ->]. rewrite Hbytes by (destruct Hpok'; lia).
    rewrite decide_False; [done|]. rewrite Heq. intros Hr. apply (HnR eq_refl). apply HR. lia.
  - intros a Ha Hu. split; [by apply Hown|]. split; [done|]. intros _. apply rd8_frame, Hfr.
    intros Heq. apply (Hu mm c HX). by rewrite Heq.
Qed.

(** Bytes of the kernel. *)
Lemma xfer_kernel K R mm p X F d n f p' : vm_ok p X F → 0 ≤ d →
  (∀ i, 0 ≤ i < n → untracked X (word_of (d + i)) ∧ K (d + i)) →
  wrote p p' d n f → vm_xfer K R mm p X F p' X F ∧
  ∀ mm' c', X !! mm' = Some c' → ∀ v, leaf (pmem p') (F mm') v = leaf (pmem p) (F mm') v.
Proof.
  intros Hk Hd HK [Hown Hg Hwords Hbytes].
  assert (∀ mm' c' w, X !! mm' = Some c' → pg w ∈ mm_pages c' → mrd (pmem p') w = mrd (pmem p) w) as Hfr.
  { intros mm' c' w HX' Hin. apply Hwords. intros i Hi ->. by apply (proj1 (HK i Hi) mm' c'). }
  destruct (vm_ok_mem p X F p' Hk Hown) as [Hk' Hleaf].
  { intros mm' c' w HX' Ht. eapply Hfr; [done|]. by apply (cx_tabs _ _ _ (vk_ctx _ _ _ Hk mm' c' HX')). }
  split; [|done]. split; [done|done| |done| | | |].
  - intros b w. apply (so_span _ _ Hown).
  - intros c HX. exists (mm_pages c). by rewrite ctx_eta.
  - intros mm' c' v' _ HX'. by rewrite (Hleaf mm' c').
  - intros mm' c' v' e' HX' Hlf'. exists e'. rewrite (Hleaf mm' c') by done. split; [done|]. split; [done|].
    intros k Hkr _. destruct (vk_leaf _ _ _ Hk mm' c' v' e' HX' Hlf') as [Hin' _].
    destruct (tracked_ok _ _ _ _ _ _ Hk HX' Hin') as [Hpok' _].
    apply rd8_frame, (Hfr mm' c'); [done|]. by rewrite pg_word_of, pg_offset.
  - intros a Ha Hu. split; [by apply Hown|]. split; [done|]. intros HnK.
    destruct (decide (0 ≤ a)) as [Ha0|Ha0].
    + rewrite Hbytes by done. rewrite decide_False; [done|]. intros Hr.
      apply HnK. replace a with (d + (a - d)) by lia. apply HK. lia.
    + apply rd8_frame, Hwords. intros i Hi Heq. unfold word_of in Heq.
      pose proof (Z.mod_pos_bound a 8). pose proof (Z.mod_pos_bound (d + i) 8).
      pose proof (Z.div_mod a 8). pose proof (Z.div_mod (d + i) 8). lia.
Qed.

Lemma xfer_weaken (K R K' R' : Z → Prop) mm p X F p' X' F' : vm_xfer K R mm p X F p' X' F' →
  (∀ a, K a → K' a) → (∀ a, R a → R' a) → vm_xfer K' R' mm p X F p' X' F'.
Proof.
  intros [Hk Hg Hl Hd Hc Ho Hv Hm] HK HR. split; try done.
  - intros mm' c' v e HX Hlf. destruct (Hv mm' c' v e HX Hlf) as (e' & Hl' & Ha & Hb).
    exists e'. split; [done|]. split; [done|]. intros k Hk' Hn. apply Hb; [done|]. intros Heq Hr. by apply (Hn Heq), HR.
  - intros a Ha Hu. destruct (Hm a Ha Hu) as (? & ? & Hs). split; [done|]. split; [done|].
    intros Hn. apply Hs. by intros ?%HK.
Qed.

Lemma xfer_under K R mm l p X F p' X' F' : vm_ok p X F → vm_xfer K R mm (plocks l p) X F p' X' F' →
  vm_xfer K R mm p X F (plocks (pheld p) p') X' F'.
Proof.
  intros Hk [Hok (_ & He & tr & Htr) Hl Hd Hc Ho Hv Hm].
  destruct (plocks_owner l p (vk_ok _ _ _ Hk)) as [_ _ Hm1 Hl1].
  destruct (plocks_owner (pheld p) p' (vk_ok _ _ _ Hok)) as [_ _ Hm2 Hl2].
  split; [by apply vm_ok_plocks| | |done|done| | |].
  - unfold plocks in *. rewrite pmach_set in *. split; [done|]. split; [done|]. by exists tr.
  - intros b w. by rewrite Hl2, Hl.
  - intros mm' c' v Hne HX. specialize (Ho mm' c' v Hne HX). by rewrite !pmem_plocks in *.
  - intros mm' c' v e HX. rewrite !pmem_plocks in *. by apply (Hv mm' c').
  - intros a Ha Hu. destruct (Hm a) as (? & ? & Hs); [by apply Hm1|done|]. rewrite !pmem_plocks in *.
    split; [by apply Hm2|done].
Qed.

(** ** What a transfer keeps *)

Lemma ubyte_kept K R mm c p X F p' X' F' va b : vm_xfer K R mm p X F p' X' F' → X !! mm = Some c →
  0 ≤ va < 2 ^ 48 → ¬ R va → ubyte (pmem p) (F mm) va = Some b → ubyte (pmem p') (F' mm) va = Some b.
Proof.
  intros Hx HX Hva HR. unfold ubyte. destruct (va_split va Hva) as [Hsp Hmod].
  destruct (leaf (pmem p) (F mm) (vpn va)) as [e|] eqn:Hl; [|done]. intros [= <-].
  destruct (xf_view _ _ _ _ _ _ _ _ _ Hx mm c _ e HX Hl) as (e' & -> & _ & Hb). cbn. f_equal.
  apply Hb; [done|]. intros _. by rewrite Hsp.
Qed.

Lemma uaccess_kept K R mm c p X F p' X' F' va w : vm_xfer K R mm p X F p' X' F' → X !! mm = Some c →
  uaccess (pmem p) (F mm) w va → uaccess (pmem p') (F' mm) w va.
Proof.
  intros Hx HX (e & Hl & Ha). destruct (xf_view _ _ _ _ _ _ _ _ _ Hx mm c _ e HX Hl) as (e' & Hl' & Ha' & _).
  exists e'. split; [done|by apply Ha'].
Qed.

(** ** One chunk *)

Lemma wp_chunk mm c (write : bool) buf ua n e (Q : unit → vstate P → Prop) p t X s F :
  vm_ok p X F → X !! mm = Some c → 0 ≤ ua < 2 ^ 48 → 0 < n → ua mod PAGE_SIZE + n ≤ PAGE_SIZE →
  leaf (pmem p) (F mm) (vpn ua) = Some e → mmu_user_access_allowed e write = true → kbuf buf n →
  (∀ i, 0 ≤ i < n → fe_mine p (word_of (va_to_pa buf + i)) ∧ untracked X (word_of (va_to_pa buf + i))) →
  (∀ p', vm_xfer (λ a, write = false ∧ va_to_pa buf ≤ a < va_to_pa buf + n)
           (λ a, write = true ∧ ua ≤ a < ua + n) mm p X F p' X F →
     (∀ i, 0 ≤ i < n → ubyte (pmem p') (F mm) (ua + i) = Some (rd8 (pmem p') (va_to_pa buf + i)) ∧
        uaccess (pmem p') (F mm) write (ua + i)) →
     Q () (vst p' t X s)) →
  wp (if write then copy_bytes (pa_to_va (desc_addr e + Z.land ua (PAGE_SIZE - 1))) buf n
      else copy_bytes buf (pa_to_va (desc_addr e + Z.land ua (PAGE_SIZE - 1))) n) Q (vst p t X s).
Proof.
  intros Hk HX Hua Hn Hr Hl Ha Hkb Hker HQ. set (o := ua mod PAGE_SIZE) in *.
  assert (Z.land ua (PAGE_SIZE - 1) = o) as ->.
  { unfold o, PAGE_SIZE. change (4096 - 1) with (Z.ones 12). by rewrite Z.land_ones. }
  assert (0 ≤ o) as Ho by (by apply Z.mod_pos_bound). destruct (va_split ua Hua) as [Hsp _]. fold o in Hsp.
  destruct (vk_leaf _ _ _ Hk mm c _ e HX Hl) as [Hin _]. destruct (tracked_ok _ _ _ _ _ _ Hk HX Hin) as [Hpok Hmine].
  unfold PAGE_SIZE in Hr. destruct (kbuf_page (desc_addr e) o n Hpok) as [Hub Hupa]; [lia..|].
  assert (∀ i, 0 ≤ i < n → pg (word_of (desc_addr e + o + i)) = desc_addr e) as Hpg.
  { intros i Hi. rewrite pg_word_of, <- Z.add_assoc. apply pg_offset; [done|lia]. }
  pose proof (mine_disjoint (untracked X) (desc_addr e) (va_to_pa buf) n Hpok) as Hdis.
  assert (0 ≤ va_to_pa buf) as Hb0 by (apply (kbuf_at buf n 0 Hkb); lia).
  assert (va_to_pa buf + n ≤ desc_addr e ∨ desc_addr e + 4096 ≤ va_to_pa buf) as Hdis'.
  { apply Hdis; [|by intros i Hi; apply Hker|done]. intros w Hw Heq. apply (Hw mm c HX). by rewrite Heq. }
  clear Hdis. destruct Hpok as [_ Hpr].
  assert (∀ p', (∀ i, 0 ≤ i < n → rd8 (pmem p') (desc_addr e + o + i) = rd8 (pmem p') (va_to_pa buf + i)) →
         leaf (pmem p') (F mm) (vpn ua) = Some e → ∀ i, 0 ≤ i < n →
         ubyte (pmem p') (F mm) (ua + i) = Some (rd8 (pmem p') (va_to_pa buf + i)) ∧
         uaccess (pmem p') (F mm) write (ua + i)) as Hdone.
  { intros p' Hsame Hlf i Hi. destruct (vpn_offset ua i) as [Hv Hm]; [lia|lia|fold o; unfold PAGE_SIZE; lia|].
    unfold ubyte, uaccess. rewrite Hv, Hm, Hlf. cbn. fold o. split; [by rewrite Z.add_assoc, Hsame|by exists e]. }
  destruct write.
  - apply (wp_copy_bytes _ buf n); [done|done|apply Hk| | |].
    { intros i Hi. rewrite Hupa. by apply Hmine, Hpg. }
    { rewrite Hupa. lia. }
    rewrite Hupa. intros p' Hw.
    destruct (xfer_page (λ _, False) (λ a, true = true ∧ ua ≤ a < ua + n) mm p X F c (vpn ua) e o n
      (λ i, rd8 (pmem p) (va_to_pa buf + i)) p'
      Hk HX Hl Ha Ho Hr) as [Hx Hlf]; [intros k Hk'; split; [done|lia]|exact Hw|].
    apply HQ; [by eapply xfer_weaken; [exact Hx|intros ? []|]|]. apply Hdone; [|done]. intros i Hi.
    rewrite !(wt_bytes _ _ _ _ _ Hw) by lia. rewrite decide_True, decide_False by lia. f_equal. lia.
  - apply (wp_copy_bytes buf _ n); [done|done|apply Hk| | |].
    { intros i Hi. by apply Hker. }
    { rewrite Hupa. lia. }
    rewrite Hupa. intros p' Hw.
    destruct (xfer_kernel (λ a, false = false ∧ va_to_pa buf ≤ a < va_to_pa buf + n) (λ a, false = true ∧ ua ≤ a < ua + n)
      mm p X F (va_to_pa buf) n (λ i, rd8 (pmem p) (desc_addr e + o + i)) p' Hk Hb0) as [Hx Hlf]; [|exact Hw|].
    { intros i Hi. split; [by apply Hker|]. split; [done|lia]. }
    apply HQ; [exact Hx|]. apply Hdone; [|by rewrite (Hlf mm c HX)]. intros i Hi.
    rewrite !(wt_bytes _ _ _ _ _ Hw) by lia. rewrite decide_False, decide_True by lia. f_equal. lia.
Qed.

(** ** The loop *)

(** A region whose file image no user page holds. *)
Definition region_src p X (r : vm_region) : Prop :=
  region_ok p r ∧ (vr_elf_image r ≠ 0 → ∀ i, 0 ≤ i < vr_file_size r →
    untracked X (word_of (va_to_pa (vr_elf_image r + vr_elf_offset r) + i))).

Lemma region_src_kept K R mm p X F p' X' F' r : vm_xfer K R mm p X F p' X' F' → region_src p X r → region_src p' X' r.
Proof.
  intros Hx [[Hf Hi] Hu]. split.
  - split; [done|]. intros Hne Hz. destruct (Hi Hne Hz) as [Hb Hm]. split; [done|].
    intros i Hir. apply (xf_kernel _ _ _ _ _ _ _ _ _ Hx); [by apply Hm|by apply Hu].
  - intros Hne i Hir. destruct (Hi Hne) as [_ Hm]; [lia|].
    apply (xf_kernel _ _ _ _ _ _ _ _ _ Hx); [by apply Hm|by apply Hu].
Qed.

(** The process whose faults the copy may resolve runs in [mm]. *)
Definition cur_ok (cur : option (Z * Z)) (mm : Z) p X (s : vstate P) : Prop :=
  let q := faulting_process cur mm in
  q ≠ 0 → can_lock (L_process q) (pheld p) = true ∧
    ∃ pr, processes s !! q = Some pr ∧ pr_mm pr = mm ∧ Forall (region_src p X) (pr_regions pr).

(** A fault the copy takes itself: nothing, or what the handler did. *)
Lemma wp_software_fault cur mm c va esr (Q : bool → vstate P → Prop) p t X s F :
  vm_ok p X F → X !! mm = Some c → 0 ≤ va < 2 ^ 64 → cur_ok cur mm p X s →
  (∀ p' t' X' F', vm_frame mm p X F p' X' F' → Q false (vst p' t' X' s)) →
  (∀ pr p' t' X' F', vm_frame mm p X F p' X' F' →
     served (pmem p) (F mm) pr va esr (pmem p') (F' mm) → Q true (vst p' t' X' s)) →
  wp (software_fault cur mm va esr) Q (vst p t X s).
Proof.
  intros Hk HX Hva Hcur HQ0 HQ. unfold software_fault. set (q := faulting_process cur mm) in *.
  destruct (q =? 0) eqn:Hq; bool_to_prop; [wp_step; eapply HQ0; by apply vm_frame_refl|].
  destruct (Hcur Hq) as (Hlk & pr & Hpr & <- & Hreg).
  eapply (wp_fault q pr c); [done..| |by eapply HQ0|by eapply HQ].
  eapply Forall_impl; [exact Hreg|]. by intros r [? _].
Qed.

(** What remains to be done for the page at [va]. *)
Definition stage (m : gmap Z Z) (T : tmap) (write : bool) (va : Z) : nat :=
  match leaf m T (vpn va) with
  | None => 3
  | Some e => if mmu_user_access_allowed e write then 1 else if Z.testbit e 7 then 2 else 1
  end.
Definition pages_left (va len : Z) : nat := Z.to_nat ((va mod PAGE_SIZE + len + PAGE_SIZE - 1) / PAGE_SIZE).
Definition copy_measure (m : gmap Z Z) (T : tmap) (write : bool) (va len : Z) : nat :=
  if decide (len = 0) then 0 else 3 * (pages_left va len - 1) + stage m T write va.

Lemma stage_range m T write va : (1 ≤ stage m T write va ≤ 3)%nat.
Proof. unfold stage. destruct (leaf m T (vpn va)) as [e|]; [|lia]. destruct (mmu_user_access_allowed e write), (Z.testbit e 7); lia. Qed.

Lemma pages_left_pos va len : 0 < len → (1 ≤ pages_left va len)%nat.
Proof.
  intros Hl. unfold pages_left. pose proof (Z.mod_pos_bound va PAGE_SIZE eq_refl).
  assert (1 ≤ (va mod PAGE_SIZE + len + PAGE_SIZE - 1) / PAGE_SIZE); [|lia].
  apply Z.div_le_lower_bound; unfold PAGE_SIZE in *; lia.
Qed.

(** The next chunk begins on a page boundary, one page on. *)
Lemma pages_left_next va len : 0 ≤ va → 0 < PAGE_SIZE - va mod PAGE_SIZE < len →
  S (pages_left (va + (PAGE_SIZE - va mod PAGE_SIZE)) (len - (PAGE_SIZE - va mod PAGE_SIZE))) = pages_left va len.
Proof.
  intros Hva Hl. unfold pages_left. pose proof (Z.mod_pos_bound va PAGE_SIZE eq_refl).
  assert ((va + (PAGE_SIZE - va mod PAGE_SIZE)) mod PAGE_SIZE = 0) as ->.
  { replace (va + _) with ((va / PAGE_SIZE + 1) * PAGE_SIZE); [by apply Z.mod_mul|].
    pose proof (Z.div_mod va PAGE_SIZE ltac:(done)). lia. }
  set (o := va mod PAGE_SIZE) in *.
  replace (o + len + PAGE_SIZE - 1) with (0 + (len - (PAGE_SIZE - o)) + PAGE_SIZE - 1 + 1 * PAGE_SIZE) by lia.
  rewrite Z.div_add by done.
  assert (0 ≤ (0 + (len - (PAGE_SIZE - o)) + PAGE_SIZE - 1) / PAGE_SIZE); [|lia].
  apply Z.div_pos; unfold PAGE_SIZE in *; lia.
Qed.

Lemma copy_measure_fuel m T write va len : 0 ≤ len → (copy_measure m T write va len < copy_fuel len)%nat.
Proof.
  intros Hl. unfold copy_measure, copy_fuel. pose proof (stage_range m T write va).
  assert (0 ≤ len / PAGE_SIZE) by (by apply Z.div_pos).
  case_decide; [lia|]. assert (Z.of_nat (pages_left va len) ≤ len / PAGE_SIZE + 2); [|lia].
  unfold pages_left. pose proof (Z.mod_pos_bound va PAGE_SIZE eq_refl).
  assert (0 ≤ va mod PAGE_SIZE + len + PAGE_SIZE - 1) by (unfold PAGE_SIZE in *; lia).
  rewrite Z2Nat.id by (by apply Z.div_pos).
  rewrite <- Z.div_add by done. apply Z.div_le_mono; unfold PAGE_SIZE in *; lia.
Qed.

(** A served fault is progress. *)
Lemma served_translation m T pr va m' T' write :
  served m T pr va 0x04 m' T' → leaf m T (vpn va) = None → (stage m' T' write va < stage m T write va)%nat.
Proof.
  intros Hs Hl. unfold stage. rewrite Hl. destruct Hs as [e Ht Hl' _|a flags Ht _ Ha Hl' _|e e' Ht]; [congruence| |done].
  rewrite Hl', decide_True by done. destruct (mmu_user_access_allowed (page_desc a flags) write), (Z.testbit (page_desc a flags) 7); lia.
Qed.
Lemma served_permission m T pr va m' T' e :
  served m T pr va 0x0F m' T' → leaf m T (vpn va) = Some e → mmu_user_access_allowed e true = false →
  (stage m' T' true va < stage m T true va)%nat.
Proof.
  intros Hs Hl Ha. unfold stage. rewrite Hl, Ha.
  destruct Hs as [e1 Ht|a flags Ht|e1 e' Ht Hl1 H7 _ Hl' _ H7']; [done..|]. simplify_eq.
  rewrite Hl', decide_True, H7, H7' by done. destruct (mmu_user_access_allowed e' true); lia.
Qed.

Section loop.
Variables (cur : option (Z * Z)) (mm : Z) (write : bool) (buf va len : Z) (s : vstate P).
Variables (p0 : P) (X0 : gmap Z mm_context) (F0 : Z → tmap) (c0 : mm_context).
Hypotheses (Hk0 : vm_ok p0 X0 F0) (HX0 : X0 !! mm = Some c0).
Hypotheses (Hlk0 : can_lock (L_mm mm) (pheld p0) = true) (Hcur0 : cur_ok cur mm p0 X0 s).
Hypotheses (Hva : 0 ≤ va) (Hend : va + len ≤ 2 ^ 48) (Hkb : kbuf buf len).
Hypothesis (Hker : ∀ i, 0 ≤ i < len →
  fe_mine p0 (word_of (va_to_pa buf + i)) ∧ untracked X0 (word_of (va_to_pa buf + i))).

Definition copy_K (a : Z) : Prop := write = false ∧ va_to_pa buf ≤ a < va_to_pa buf + len.
Definition copy_R (a : Z) : Prop := write = true ∧ va ≤ a < va + len.

(** The first [j] bytes are the same on both sides. *)
Record copied (j : Z) p X F : Prop := {
  cp_xfer : vm_xfer copy_K copy_R mm p0 X0 F0 p X F;
  cp_same : ∀ i, 0 ≤ i < j → ubyte (pmem p) (F mm) (va + i) = Some (rd8 (pmem p) (va_to_pa buf + i)) ∧
    uaccess (pmem p) (F mm) write (va + i);
}.

Lemma copied_ctx j p X F : copied j p X F → ∃ c, X !! mm = Some c.
Proof. intros Hc. destruct (xf_ctx _ _ _ _ _ _ _ _ _ (cp_xfer _ _ _ _ Hc) c0 HX0) as [l ?]. by eexists. Qed.

Lemma copied_held j p X F : copied j p X F → pheld p = pheld p0.
Proof. intros Hc. apply (xf_grows _ _ _ _ _ _ _ _ _ (cp_xfer _ _ _ _ Hc)). Qed.

Lemma copied_kernel j p X F i : copied j p X F → 0 ≤ i < len →
  fe_mine p (word_of (va_to_pa buf + i)) ∧ untracked X (word_of (va_to_pa buf + i)).
Proof.
  intros Hc Hi. destruct (Hker i Hi) as [Hm Hu].
  by destruct (xf_kernel _ _ _ _ _ _ _ _ _ (cp_xfer _ _ _ _ Hc) _ Hm Hu) as (? & ? & _).
Qed.

Lemma copied_cur j p X F : copied j p X F → cur_ok cur mm p X s.
Proof.
  intros Hc Hq. destruct (Hcur0 Hq) as (Hlk & pr & Hpr & Hmm & Hreg). rewrite (copied_held j p X F Hc).
  split; [done|]. exists pr. split; [done|]. split; [done|]. eapply Forall_impl; [exact Hreg|].
  intros r Hr. eapply region_src_kept; [apply Hc|done].
Qed.

(** A step that touches neither the bytes already moved nor, outside its own
    range, anything else. *)
Lemma copied_step (K R : Z → Prop) j p X F p' X' F' : copied j p X F → 0 ≤ j ≤ len →
  vm_xfer K R mm p X F p' X' F' → (∀ a, K a → copy_K a ∧ va_to_pa buf + j ≤ a) →
  (∀ a, R a → copy_R a ∧ va + j ≤ a) → copied j p' X' F'.
Proof.
  intros Hc Hj Hx HK HR. pose proof (copied_ctx _ _ _ _ Hc) as [c HX]. split.
  - eapply xfer_trans; [apply Hc|]. eapply xfer_weaken; [exact Hx|by intros a []%HK|by intros a []%HR].
  - intros i Hi. destruct (cp_same _ _ _ _ Hc i Hi) as [Hb Ha]. destruct (copied_kernel _ _ _ _ i Hc) as [Hm Hu]; [lia|].
    split; [|by eapply uaccess_kept]. destruct (xf_kernel _ _ _ _ _ _ _ _ _ Hx _ Hm Hu) as (_ & _ & ->).
    + eapply ubyte_kept; [exact Hx|done|lia| |done]. intros [_ ?]%HR. lia.
    + intros [_ ?]%HK. lia.
Qed.

Lemma copied_frame j p X F p' X' F' : copied j p X F → 0 ≤ j ≤ len →
  vm_frame mm p X F p' X' F' → copied j p' X' F'.
Proof.
  intros Hc Hj Hf. eapply (copied_step (λ _, False) (λ _, False)); [done..| | |].
  - by apply xfer_frame.
  - by intros ? [].
  - by intros ? [].
Qed.

(** The state between two attempts. *)
Definition copy_inv (n : nat) : Z * Z * Z → vstate P → Prop :=
  λ '(ptr, ua, l) s', ∃ j p t X F, s' = vst p t X s ∧ copied j p X F ∧ 0 ≤ j ≤ len ∧
    ptr = u64 (buf + j) ∧ ua = va + j ∧ l = len - j ∧
    n = copy_measure (pmem p) (F mm) write (va + j) (len - j).

Definition copy_outcome (r : bool) (s' : vstate P) : Prop := ∃ j p t X F, s' = vst p t X s ∧ copied j p X F ∧
  if r then j = len else 0 ≤ j < len ∧ ¬ uaccess (pmem p0) (F0 mm) write (va + j).

Definition copy_next (n : nat) (r : Z * Z * Z + bool) (s' : vstate P) : Prop :=
  match r with inl b => ∃ n', (n' < n)%nat ∧ copy_inv n' b s' | inr r => copy_outcome r s' end.

Lemma no_access j p X F : copied j p X F → ¬ uaccess (pmem p) (F mm) write (va + j) →
  ¬ uaccess (pmem p0) (F0 mm) write (va + j).
Proof. intros Hc Hn Ha. apply Hn. eapply uaccess_kept; [apply Hc|done|done]. Qed.

(** After a fault the same page is tried again, one stage further. *)
Lemma copy_retry n j p X F : copied j p X F → 0 ≤ j < len →
  n = copy_measure (pmem p) (F mm) write (va + j) (len - j) →
  ∀ p' t' X' F', vm_frame mm p X F p' X' F' →
    (stage (pmem p') (F' mm) write (va + j) < stage (pmem p) (F mm) write (va + j))%nat →
    copy_next n (inl (u64 (buf + j), va + j, len - j)) (vst p' t' X' s).
Proof.
  intros Hc Hj -> p' t' X' F' Hf Hlt. exists (copy_measure (pmem p') (F' mm) write (va + j) (len - j)).
  split; [unfold copy_measure; rewrite !decide_False by lia; lia|].
  exists j, p', t', X', F'. split; [done|]. split; [eapply copied_frame; [done|lia|done]|]. split; [lia|done].
Qed.

Lemma frame_unlocked p X F l : vm_ok p X F → vm_frame mm p X F (plocks (pheld p) (plocks l p)) X F.
Proof. intros Hk. apply (frame_under mm l); [done|]. by apply vm_frame_refl, vm_ok_plocks. Qed.

(** The software fault of an attempt that found no usable entry. *)
Lemma wp_retry n j p t X F l esr msg (try : bool) : copied j p X F → 0 ≤ j < len →
  n = copy_measure (pmem p) (F mm) write (va + j) (len - j) →
  ¬ uaccess (pmem p) (F mm) write (va + j) →
  (∀ pr m' T', try = true → served (pmem p) (F mm) pr (va + j) esr m' T' →
     (stage m' T' write (va + j) < stage (pmem p) (F mm) write (va + j))%nat) →
  wp (handled ← (if try then software_fault cur mm (va + j) esr else mret false);
      if (handled : bool) then mret (inl (u64 (buf + j), va + j, len - j)) else
      ker_logf msg (va + j) ;; mret (inr false)) (copy_next n) (vst (plocks (pheld p) (plocks l p)) t X s).
Proof.
  intros Hc Hj Hn Hno Hst. pose proof (xf_ok _ _ _ _ _ _ _ _ _ (cp_xfer _ _ _ _ Hc)) as Hk.
  pose proof (frame_unlocked p X F l Hk) as Hf. set (p1 := plocks _ _) in *.
  destruct (copied_ctx _ _ _ _ Hc) as [c HX].
  assert (pmem p1 = pmem p) as Hm1 by (unfold p1; by rewrite !pmem_plocks).
  assert (∀ p' t' X' F', vm_frame mm p1 X F p' X' F' →
    wp (ker_logf msg (va + j) ;; mret (inr false)) (copy_next n) (vst p' t' X' s)) as Hfail.
  { intros p' t' X' F' Hf'. wp_step. apply wp_logf; [apply Hf'|]. intros p2 Hs2. wp_step.
    assert (copied j p2 X' F') as Hc2.
    { eapply copied_frame; [exact Hc|lia|]. eapply vm_frame_trans; [exact Hf|].
      eapply vm_frame_trans; [exact Hf'|]. by apply frame_step; [apply Hf'|]. }
    exists j, p2, t', X', F'. split; [done|]. split; [done|]. split; [done|]. by apply (no_access _ _ _ _ Hc). }
  pose proof (copied_frame j p X F p1 X F Hc ltac:(lia) Hf) as Hc1.
  destruct try; wp_step; [|wp_step; by apply (Hfail p1 t X F), vm_frame_refl, Hf].
  eapply (wp_software_fault cur mm c); [apply Hf|done|lia|by eapply copied_cur|done|].
  intros pr p' t' X' F' Hf' Hs. wp_step. rewrite Hm1 in Hs.
  eapply copy_retry; [exact Hc|done|done|by eapply vm_frame_trans|by eapply Hst].
Qed.

Lemma wp_attempt n ptr ua l s' : copy_inv n (ptr, ua, l) s' →
  wp (copy_user_page cur mm write (ptr, ua, l)) (copy_next n) s'.
Proof.
  intros (j & p & t & X & F & -> & Hc & Hj & -> & -> & -> & Hn).
  pose proof (xf_ok _ _ _ _ _ _ _ _ _ (cp_xfer _ _ _ _ Hc)) as Hk.
  destruct (copied_ctx _ _ _ _ Hc) as [c HX]. destruct (vk_live _ _ _ Hk mm c HX) as [Hmm _].
  unfold copy_user_page. destruct (len - j =? 0) eqn:Hl; bool_to_prop.
  { wp_step. exists j, p, t, X, F. split; [done|]. split; [done|]. lia. }
  assert (idle p X mm c (F mm)) as Hid.
  { split; [done|done|apply Hk|by eapply vk_ctx|]. by rewrite (copied_held _ _ _ _ Hc). }
  pose proof (idle_ready _ _ _ _ _ Hid) as Hrd. set (p1 := in_mm mm p) in *.
  assert (pmem p1 = pmem p) as Hm1 by apply pmem_plocks.
  assert (pheld p1 = L_mm mm :: pheld p) as Hh1 by apply pheld_plocks.
  wp_step. eapply wp_lock_mm; [exact Hid|]. fold p1.
  wp_step. eapply wp_resolve; [apply Hrd..|]. rewrite Hm1.
  destruct (leaf (pmem p) (F mm) (vpn (va + j))) as [e|] eqn:Hle; cbn [fmap option_fmap option_map]; cycle 1.
  { wp_step. eapply wp_vunlock; [exact Hh1|].
    apply (wp_retry n j p t X F _ 0x04 _ true); [done|lia|done|by intros (? & ? & _); congruence|].
    intros pr m' T' _ Hs. by eapply served_translation. }
  destruct (mmu_user_access_allowed e write) eqn:Ha; cbn [negb]; cycle 1.
  { wp_step. eapply wp_vunlock; [exact Hh1|].
    apply (wp_retry n j p t X F _ 0x0F _ write); [done|lia|done|by intros (? & ? & ?); congruence|].
    intros pr m' T' Hw Hs. rewrite Hw in *. by eapply served_permission. }
  set (o := (va + j) mod PAGE_SIZE).
  assert (Z.land (va + j) (PAGE_SIZE - 1) = o) as Ho.
  { unfold o, PAGE_SIZE. change (4096 - 1) with (Z.ones 12). by rewrite Z.land_ones. }
  pose proof (Z.mod_pos_bound (va + j) PAGE_SIZE eq_refl) as Hor. fold o in Hor.
  set (ch := if len - j <? PAGE_SIZE - Z.land (va + j) (PAGE_SIZE - 1) then len - j else _).
  assert (0 < ch ≤ len - j ∧ ch ≤ PAGE_SIZE - o ∧ (ch = len - j ∨ ch = PAGE_SIZE - o)) as (Hch1 & Hch2 & Hch3).
  { unfold ch. rewrite Ho. destruct (len - j <? PAGE_SIZE - o) eqn:?; bool_to_prop; lia. }
  destruct (kbuf_sub buf len j ch Hkb) as (Hkb' & Hpa & Hu); [lia..|]. rewrite Hu.
  assert (vm_ok p1 X F) as Hk1 by by apply vm_ok_plocks.
  wp_step. apply (wp_chunk mm c write (buf + j) (va + j) ch e _ p1 t X s F); [done|done|lia|lia|fold o; lia| |done|done| |].
  { by rewrite Hm1. }
  { intros i Hi. rewrite Hpa, <- Z.add_assoc. destruct (copied_kernel j p X F (j + i) Hc) as [Hm Hun]; [lia|].
    split; [|done]. by apply plocks_owner; [apply Hk|]. }
  rewrite Hpa. intros p2 Hx Hsame. pose proof (xfer_under _ _ mm _ p X F p2 X F Hk Hx) as Hx'.
  wp_step. eapply wp_vunlock.
  { rewrite <- Hh1. apply (xf_grows _ _ _ _ _ _ _ _ _ Hx). }
  set (p3 := plocks (pheld p) p2) in *. assert (pmem p3 = pmem p2) as Hm3 by apply pmem_plocks.
  wp_step. exists (copy_measure (pmem p3) (F mm) write (va + (j + ch)) (len - (j + ch))). split.
  { rewrite Hn. unfold copy_measure. pose proof (stage_range (pmem p) (F mm) write (va + j)).
    pose proof (stage_range (pmem p3) (F mm) write (va + (j + ch))).
    rewrite (decide_False (P := len - j = 0)) by done. case_decide; [lia|].
    pose proof (pages_left_next (va + j) (len - j)) as Hp. fold o in Hp.
    replace (va + j + (PAGE_SIZE - o)) with (va + (j + ch)) in Hp by lia.
    replace (len - j - (PAGE_SIZE - o)) with (len - (j + ch)) in Hp by lia.
    pose proof (pages_left_pos (va + (j + ch)) (len - (j + ch))). lia. }
  exists (j + ch), p3, t, X, F. split; [done|]. split; cycle 1.
  { split; [lia|]. split; [by rewrite Z.add_assoc|]. split; [rewrite u64_small; lia|]. split; [lia|done]. }
  assert (copied j p3 X F) as [Hc3 Hs3].
  { eapply copied_step; [exact Hc|lia|exact Hx'| |]; intros a [? ?]; unfold copy_K, copy_R; split; [split; [done|lia]|lia..| |lia].
    split; [done|lia]. }
  split; [done|]. intros i Hi. destruct (decide (i < j)); [apply Hs3; lia|]. rewrite Hm3.
  replace (va + i) with (va + j + (i - j)) by lia. replace (va_to_pa buf + i) with (va_to_pa buf + j + (i - j)) by lia.
  apply Hsame. lia.
Qed.

Lemma wp_copy_user_range t (Q : bool → vstate P → Prop) : 0 ≤ len → u64 buf = buf →
  (∀ r s', copy_outcome r s' → Q r s') →
  wp (mmu_copy_user_range cur mm buf va len write) Q (vst p0 t X0 s).
Proof.
  intros Hlen Hbuf HQ. eapply wp_mono; [|exact HQ].
  apply (wp_whileM _ _ _ copy_inv copy_outcome (copy_measure (pmem p0) (F0 mm) write va len)).
  - by apply copy_measure_fuel.
  - exists 0, p0, t, X0, F0. rewrite !Z.add_0_r, Z.sub_0_r, Hbuf. split; [done|]. split; [|split; [lia|done]].
    split; [by apply xfer_refl|lia].
  - intros n [[ptr ua] l] s' Hi. eapply wp_mono; [by apply (wp_attempt n)|]. by intros [b|r] s''.
Qed.

End loop.

End copy.
