(* ===== verification/VmEnv.v ===== *)
(** * The page allocator and the heap below the address spaces

    [FrameEnv] for the kernel heap on top of the page allocator, and the proof
    that the page calls satisfy [FrameLaws]: a tracked page is one that the
    page allocator has handed out and that no arena of the heap contains. *)

From S2P Require Import Prelude Machine PageAlloc PageAllocSpec PageAllocRefine Heap HeapSeg HeapSpec HeapInv HeapOps HeapClaims MmuTable MmuBoot Vmsa VmsaWalk VmsaFault VmBits VmsaSpec.

Open Scope kernel_scope.

(** ** What every call leaves of the machine

    The calls below never touch the MMU switch and only add to the trace:
    [keeps] is closed under the constructs of the code, so the proofs follow
    its text. *)

Definition later (m m' : machine) : Prop :=
  m_mmu_enabled m' = m_mmu_enabled m ∧ ∃ l, m_trace m' = l ++ m_trace m.

#[export] Instance later_preorder : PreOrder later.
Proof.
  split.
  - intros m. split; [done|]. by exists [].
  - intros m1 m2 m3 (H2 & l & H3) (H2' & l' & H3'). split; [congruence|].
    exists (l' ++ l). by rewrite H3', H3, app_assoc.
Qed.

Definition keeps {S A} `{Sub machine S} (f : M S A) : Prop :=
  ∀ s a s', f s = Some (a, s') → later (sub_get s) (sub_get s').

Section keeps.
Context {S : Type} `{Sub machine S}.

Lemma keeps_ret {A} (a : A) : keeps (mret a).
Proof. intros s b s' [= _ <-]. done. Qed.
Lemma keeps_gets {A} (f : S → A) : keeps (gets f).
Proof. intros s b s' [= _ <-]. done. Qed.
Lemma keeps_modify (f : S → S) : (∀ s, sub_get (f s) = sub_get s) → keeps (modify f).
Proof. intros Hf s b s' [= _ <-]. by rewrite Hf. Qed.
Lemma keeps_bind {A B} (f : M S A) (k : A → M S B) : keeps f → (∀ a, keeps (k a)) → keeps (f ≫= k).
Proof.
  intros Hf Hk s b s' Hs. unfold mbind, M_bind in Hs. destruct (f s) as [[a s1]|] eqn:He; [|done].
  etrans; [by eapply Hf|by eapply Hk].
Qed.
Lemma keeps_when (b : bool) (f : M S unit) : keeps f → keeps (whenM b f).
Proof. destruct b; [done|]. intros _. apply keeps_ret. Qed.
Lemma keeps_for {A} (l : list A) (f : A → M S unit) : (∀ a, keeps (f a)) → keeps (forM_ l f).
Proof. intros Hf. induction l as [|a l IH]; [apply keeps_ret|]. by apply keeps_bind. Qed.
Lemma keeps_iter {A B C} (l : list A) (f : B → A → M S (B + C)) : (∀ b a, keeps (f b a)) →
  ∀ b, keeps (iterM l f b).
Proof.
  intros Hf. induction l as [|a l IH]; intros b; [apply keeps_ret|].
  apply keeps_bind; [done|]. intros [b'|c]; [done|apply keeps_ret].
Qed.
Lemma keeps_while {B C} fuel (f : B → M S (B + C)) : (∀ b, keeps (f b)) → ∀ b, keeps (whileM fuel f b).
Proof.
  intros Hf. induction fuel as [|fuel IH]; intros b; [done|].
  apply keeps_bind; [done|]. intros [b'|c]; [done|apply keeps_ret].
Qed.

End keeps.

(** The machine's own steps, and a call of the component below. *)
Definition keepsm {A} (f : M machine A) : Prop := ∀ m a m', f m = Some (a, m') → later m m'.

Lemma keeps_up {S A} `{Sub machine S} (f : M machine A) : keepsm f → keeps (up f).
Proof.
  intros Hf t a t' Ht. unfold up in Ht. destruct (f (sub_get t)) as [[b s']|] eqn:He; [|done].
  injection Ht as <- <-. rewrite sub_get_set. by eapply Hf.
Qed.
Lemma keeps_below {S T A} `{HS : Sub machine S} `{HT : Sub S T} (f : M S A) :
  keeps f → keeps (H := sub_trans HS HT) (up f).
Proof.
  intros Hf t a t' Ht. unfold up in Ht. destruct (f (sub_get t)) as [[b s']|] eqn:He; [|done].
  injection Ht as <- <-. cbn. rewrite sub_get_set. by eapply Hf.
Qed.

Ltac machine_step :=
  intros m a m' Hm;
  cbv beta delta [load64 store64 load8 store8 spin_lock_irqsave spin_unlock_irqrestore emit modify
                  mmu_is_enabled gets] in Hm;
  repeat (case_match; try done); simplify_eq; (split; [done|]); (by exists []) || by eexists [_].

Lemma keepsm_load64 p : keepsm (load64 p).
Proof. machine_step. Qed.
Lemma keepsm_store64 p v : keepsm (store64 p v).
Proof. machine_step. Qed.
Lemma keepsm_lock l : keepsm (spin_lock_irqsave l).
Proof. machine_step. Qed.
Lemma keepsm_unlock l : keepsm (spin_unlock_irqrestore l).
Proof. machine_step. Qed.
Lemma keepsm_emit e : keepsm (emit e).
Proof. machine_step. Qed.
Lemma keepsm_enabled : keepsm mmu_is_enabled.
Proof. machine_step. Qed.

Create HintDb keeps.
#[export] Hint Resolve keepsm_load64 keepsm_store64 keepsm_lock keepsm_unlock keepsm_emit keepsm_enabled : keeps.
#[export] Hint Resolve keeps_ret keeps_gets : keeps.

Ltac keeps_step :=
  lazymatch goal with
  | |- keeps (_ ≫= _) => apply keeps_bind; [|intros ?]
  | |- keeps (mret _) => apply keeps_ret
  | |- keeps (gets _) => apply keeps_gets
  | |- keeps (modify _) => apply keeps_modify; by intros ?
  | |- keeps (whenM _ _) => apply keeps_when
  | |- keeps (forM_ _ _) => apply keeps_for; intros ?
  | |- keeps (iterM _ _ _) => apply keeps_iter; intros ? ?
  | |- keeps (whileM _ _ _) => apply keeps_while; intros ?
  | |- keeps (match ?x with _ => _ end) => destruct x
  | |- keeps ((match ?x with _ => _ end) _) => destruct x
  | |- keeps (up _) => first [apply keeps_up; solve [eauto 1 with keeps nocore]|apply keeps_below]
  | |- keeps _ => first [solve [eauto 1 with keeps nocore]|progress cbv beta zeta]
  end.
Ltac keeps := repeat keeps_step.

(** ** The page allocator *)

Lemma keeps_get_page i : keeps (get_page i).
Proof. intros s a s' Hs. unfold get_page in Hs. case_match; [|done]. by injection Hs as _ <-. Qed.
Lemma keeps_put_page i v : keeps (put_page i v).
Proof. intros s a s' Hs. unfold put_page in Hs. case_match; [|done]. by injection Hs as _ <-. Qed.
#[export] Hint Resolve keeps_get_page keeps_put_page : keeps.

Ltac unfold_pages := unfold page_alloc, page_alloc_contiguous, scan_run, claim_run, page_free, page_ref_inc,
  page_ref_dec, page_ref_get, page_allocator_rebuild_free_list, page_allocator_warn, push_free, zero_page,
  set_page_state, set_page_ref, set_free_list, bump_invalid, bump_double, lock_page, unlock_page.

Lemma keeps_page_alloc : keeps page_alloc.
Proof. unfold_pages. keeps. Qed.
Lemma keeps_page_alloc_contiguous n : keeps (page_alloc_contiguous n).
Proof. unfold_pages. keeps. Qed.
Lemma keeps_page_free a : keeps (page_free a).
Proof. unfold_pages. keeps. Qed.
Lemma keeps_page_ref_inc a : keeps (page_ref_inc a).
Proof. unfold_pages. keeps. Qed.
Lemma keeps_page_ref_dec a : keeps (page_ref_dec a).
Proof. unfold_pages. keeps. Qed.
Lemma keeps_page_ref_get a : keeps (page_ref_get a).
Proof. unfold_pages. keeps. Qed.

(** ** The heap *)

Abbreviation kheap := (hstate pastate).

Definition kheap_machine : Sub machine kheap := sub_trans sub_machine_pa sub_heap_ps.
#[local] Existing Instance kheap_machine.

Ltac unfold_heap := unfold kmalloc, kfree, kmalloc_scan, kernel_heap_add_arena, kernel_heap_allocate_from_arena,
  kernel_heap_split_block, kernel_heap_page_from_pointer, kernel_heap_coalesce, coalesce_next, coalesce_prev,
  hload, hstore, lock_heap, unlock_heap, heap_warn.

#[export] Hint Resolve keeps_page_alloc_contiguous : keeps.
Lemma keeps_kmalloc n : keeps (kmalloc n : M kheap Z).
Proof. unfold_heap. cbn [ps_alloc pa_page_source]. keeps. Qed.
Lemma keeps_kfree a : keeps (kfree a : M kheap unit).
Proof. unfold_heap. keeps. Qed.

(** *** The arenas are determined by memory *)

Lemma blocks_unique mem p a bs1 bs2 : sizes_ok bs1 → sizes_ok bs2 →
  seg mem p a bs1 0 → seg mem p a bs2 0 → bend a bs1 = bend a bs2 → bs1 = bs2.
Proof.
  revert p a bs2. induction bs1 as [|[sz1 f1] bs1 IH]; intros p a [|[sz2 f2] bs2] H1 H2 S1 S2 He; [done|..].
  - apply sizes_cons in H2 as [? H2]. pose proof (bend_ge (a + SIZEOF_BLOCK + sz2) bs2 H2).
    cbn in He. unfold SIZEOF_BLOCK in *. lia.
  - apply sizes_cons in H1 as [? H1]. pose proof (bend_ge (a + SIZEOF_BLOCK + sz1) bs1 H1).
    cbn in He. unfold SIZEOF_BLOCK in *. lia.
  - apply sizes_cons in H1 as [? H1], H2 as [? H2]. destruct S1 as [[Hs1 Hf1 _ _] S1], S2 as [[Hs2 Hf2 _ _] S2].
    assert (sz1 = sz2) as -> by congruence. cbn in He.
    assert (f1 = f2) as -> by (rewrite Hf1 in Hf2; by destruct f1, f2).
    f_equal. by apply (IH (kv a) (a + SIZEOF_BLOCK + sz2)).
Qed.

Lemma arenas_unique mem A1 A2 : arenas mem A1 → arenas mem A2 → arena_head A1 = arena_head A2 → A1 = A2.
Proof.
  revert A2. induction A1 as [|[b1 n1 l1] A1 IH]; intros [|[b2 n2 l2] A2] HA1 HA2 Hh; [done|..].
  - destruct HA2 as [Ha _]. pose proof (ram_bounds _ (ao_base _ _ _ Ha)). cbn in *. unfold kv, KERNEL_VA_OFFSET in Hh. lia.
  - destruct HA1 as [Ha _]. pose proof (ram_bounds _ (ao_base _ _ _ Ha)). cbn in *. unfold kv, KERNEL_VA_OFFSET in Hh. lia.
  - destruct HA1 as [[_ _ _ Hc1 Hn1 _ _ [Hs1 Hg1 _ _ _] He1 _] HA1], HA2 as [[_ _ _ Hc2 Hn2 _ _ [Hs2 Hg2 _ _ _] He2 _] HA2].
    cbn in *. assert (b1 = b2) as -> by (unfold kv in Hh; lia). assert (n1 = n2) as -> by congruence.
    rewrite (IH A2) by (done || congruence). f_equal. f_equal.
    eapply (blocks_unique mem 0); [done..|]. unfold ar_first in *. cbn in *. congruence.
Qed.

Lemma heap_rep_unique A1 A2 (h : kheap) : heap_rep A1 h → heap_rep A2 h → A1 = A2.
Proof.
  intros H1 H2. eapply arenas_unique; [apply (hr_arenas _ _ H1)|apply (hr_arenas _ _ H2)|].
  rewrite <- (hr_head _ _ H1). apply (hr_head _ _ H2).
Qed.

(** The pages of the arenas, from memory. *)
Fixpoint arena_walk (fuel : nat) (mem : gmap Z Z) (page : Z) : list Z :=
  match fuel with
  | O => []
  | Datatypes.S fuel' =>
      if page =? 0 then [] else
      let base := va_to_pa page in
      run_pages base (mrd mem (base + 8)) ++ arena_walk fuel' mem (mrd mem (base + 16))
  end.
Definition heap_pages (h : kheap) : list Z :=
  arena_walk (Z.to_nat (kernel_heap_pages_used h)) (hmem h) (kernel_heap_pages h).

Lemma arena_walk_eq mem A fuel : arenas mem A → (length A ≤ fuel)%nat →
  arena_walk fuel mem (arena_head A) = all_pages A.
Proof.
  revert A. induction fuel as [|fuel IH]; intros [|ar A] HA Hl; cbn in Hl; [done|lia|done|].
  destruct HA as [Ha HA]. pose proof (ram_bounds _ (ao_base _ _ _ Ha)) as Hb.
  pose proof (ram_page_nz _ (ao_base _ _ _ Ha)).
  change (all_pages (ar :: A)) with (ar_run ar ++ all_pages A). cbn [arena_walk arena_head].
  rewrite kv_nz by lia. replace (va_to_pa (kv (ar_base ar))) with (ar_base ar).
  2: { unfold va_to_pa, kv, KERNEL_VA_OFFSET. rewrite (proj2 (Z.leb_le _ _)); lia. }
  rewrite (ao_count _ _ _ Ha), (ao_next _ _ _ Ha), IH by (done || lia). done.
Qed.

Lemma heap_pages_eq A (h : kheap) : heap_rep A h → heap_pages h = all_pages A.
Proof.
  intros Hr. unfold heap_pages. rewrite (hr_head _ _ Hr), (hr_pages _ _ Hr).
  apply arena_walk_eq; [apply Hr|]. pose proof (hr_arenas _ _ Hr) as HA. clear Hr.
  assert (Z.of_nat (length A) ≤ zsum ar_pages A); [|lia].
  induction A as [|ar A IH]; [done|]. destruct HA as [Ha HA]. rewrite zsum_cons. cbn [length].
  pose proof (ao_pages _ _ _ Ha). specialize (IH HA). lia.
Qed.

(** *** Changes of memory that the arenas do not notice *)

Definition in_payload A (x : Z) : Prop := ∃ p n, (p, n) ∈ live A ∧ p ≤ x < p + n.

Lemma arenas_payload_frame mem mem' A : arenas mem A → NoDup (all_pages A) →
  (∀ x, page_of x ∈ all_pages A → ¬ in_payload A x → mrd mem' x = mrd mem x) → arenas mem' A.
Proof.
  intros HA Hnd Hf. assert (∀ ar next x, ar ∈ A → arena_ok mem next ar → page_of x ∈ ar_run ar →
    (∀ p n, (p, n) ∈ live_blocks (ar_first ar) (ar_blocks ar) → ¬ p ≤ x < p + n) → mrd mem' x = mrd mem x) as Hf'.
  { intros ar next x Hin Ha Hx Hno. apply Hf; [apply list_elem_of_bind; by exists ar|].
    intros (p & n & Hl & Hr). apply list_elem_of_bind in Hl as (ar' & Hl & Hin').
    destruct (arenas_in _ _ _ HA Hin') as [nx Ha']. pose proof (live_in_run _ _ _ _ _ _ Ha' Hl Hr) as Hx'.
    apply list_elem_of_split in Hin as (A1 & A2 & ->). rewrite all_pages_app in Hnd.
    change (all_pages (ar :: A2)) with (ar_run ar ++ all_pages A2) in Hnd.
    apply NoDup_app in Hnd as (_ & Hd1 & (_ & Hd2 & _)%NoDup_app).
    apply elem_of_app in Hin' as [Hi|[->|Hi]%elem_of_cons]; [|by apply (Hno p n)|].
    - apply (Hd1 (page_of x)); [apply list_elem_of_bind; by exists ar'|apply elem_of_app; by left].
    - apply (Hd2 (page_of x)); [done|apply list_elem_of_bind; by exists ar']. }
  clear Hf Hnd. induction A as [|ar A IH]; [done|]. destruct HA as [Ha HA]. split.
  - assert (ar ∈ ar :: A) as Hin by (by left). clear IH. pose proof (λ x, Hf' ar _ x Hin Ha) as Hfa.
    destruct Ha as [Hb Hp Hm Hc Hnx Hu Hfst [Hs Hseg Hlo Hal Hhi] He Hco].
    assert (∀ k, 0 ≤ k < 48 → mrd mem' (ar_base ar + k) = mrd mem (ar_base ar + k)) as Hh.
    { intros k Hk. apply Hfa; [apply page_of_run; [apply Hb|unfold PAGE_SIZE; lia]|].
      intros p n Hl. destruct (live_blocks_bounds _ _ _ _ Hs Hl) as (? & _). unfold ar_first in *. lia. }
    split; try done; rewrite ?Hh by lia; try done.
    + rewrite <- (Z.add_0_r (ar_base ar)), Hh by lia. by rewrite Z.add_0_r.
    + split; try done. eapply seg_frame; [done|]. intros x Hx. apply Hfa.
      * apply hdrs_bounds in Hx; [|done]. apply page_of_run; [apply Hb|]. rewrite He in Hx. unfold ar_first in Hx. lia.
      * intros p n Hl Hr. by eapply live_not_hdr.
  - apply IH; [done|]. intros ar' next x Hin. apply Hf'. by right.
Qed.

Lemma rep_ps A (h : kheap) ps' : heap_rep A h → pa_inv ps' →
  (∀ q, q ∈ all_pages A → is_Some (owned ps' q)) →
  (∀ x, page_of x ∈ all_pages A → ¬ in_payload A x → mrd (pa_mem ps') x = mrd (hmem h) x) →
  heap_rep A (h <| h_ps := ps' |>).
Proof.
  intros [Hok Hh Ha Hnd Ho Hp Hu Hf] Hok' Ho' Hm. split; try done. by eapply arenas_payload_frame.
Qed.

(** ** The instance *)

#[export] Instance kheap_env : FrameEnv kheap := {
  fe_sub := kheap_machine;
  fe_alloc := up page_alloc;
  fe_free := λ a, up (page_free a);
  fe_ref_inc := λ a, up (page_ref_inc a);
  fe_ref_dec := λ a, up (page_ref_dec a);
  fe_ref_get := λ a, up (page_ref_get a);
  fe_kmalloc := kmalloc;
  fe_kfree := kfree;
}.

Section instance.
Implicit Types (h : kheap).

Definition kh_own h (a : Z) : option Z := if decide (a ∈ heap_pages h) then None else owned (h_ps h) a.
Definition kh_mine h (w : Z) : Prop := is_Some (kh_own h (pg w)) ∨ ∃ A, heap_rep A h ∧ in_payload A w.
Definition kh_span h (b w : Z) : Prop :=
  ∃ A p n, heap_rep A h ∧ (p, n) ∈ live A ∧ b = kv p ∧ p ≤ w < p + n.

Lemma kh_own_eq A h a : heap_rep A h → kh_own h a = if decide (a ∈ all_pages A) then None else owned (h_ps h) a.
Proof. intros Hr. unfold kh_own. by rewrite (heap_pages_eq A h Hr). Qed.

Lemma payload_page A h w : heap_rep A h → in_payload A w → pg w ∈ all_pages A.
Proof.
  intros Hr (p & n & Hl & Hw). apply list_elem_of_bind in Hl as (ar & Hl & Hin).
  destruct (arenas_in _ _ _ (hr_arenas _ _ Hr) Hin) as [nx Ha].
  apply list_elem_of_bind. exists ar. split; [|done]. by eapply live_in_run.
Qed.

Lemma mine_owned A h w : heap_rep A h → kh_mine h w → is_Some (owned (h_ps h) (pg w)).
Proof.
  intros Hr [[r Ho]|(A' & Hr' & Hp)].
  - rewrite (kh_own_eq A h) in Ho by done. case_decide; [done|]. by eexists.
  - rewrite (heap_rep_unique _ _ _ Hr' Hr) in Hp. apply (hr_owned _ _ Hr). by eapply payload_page.
Qed.

Lemma kh_span_eq A h b w : heap_rep A h → kh_span h b w ↔ ∃ p n, (p, n) ∈ live A ∧ b = kv p ∧ p ≤ w < p + n.
Proof.
  intros Hr. split.
  - intros (A' & p & n & Hr' & Hl & -> & Hw). rewrite (heap_rep_unique _ _ _ Hr' Hr) in Hl. by exists p, n.
  - intros (p & n & Hl & -> & Hw). by exists A, p, n.
Qed.

Lemma live_apart A h p n q m w : heap_rep A h → (p, n) ∈ live A → (q, m) ∈ live A →
  p ≤ w < p + n → q ≤ w < q + m → (p, n) = (q, m).
Proof.
  intros Hr Hp Hq Hw Hw'. pose proof (live_disjoint A h Hr) as Hd. revert Hp Hq Hd. generalize (live A).
  intros l. induction l as [|z l IH]; [by intros ?%not_elem_of_nil|].
  intros [<-|Hp]%elem_of_cons [Hz|Hq]%elem_of_cons [Hf Hd]; [done| |subst z|by apply IH].
  - eapply Forall_forall in Hf; [|done]. unfold disj in Hf. cbn in Hf. lia.
  - eapply Forall_forall in Hf; [|done]. unfold disj in Hf. cbn in Hf. lia.
Qed.

(** States with the same arenas. *)
Lemma span_same A h h' b w : heap_rep A h → heap_rep A h' → kh_span h' b w ↔ kh_span h b w.
Proof. intros Hr Hr'. by rewrite (kh_span_eq A h), (kh_span_eq A h'). Qed.

Lemma mine_kept A h h' w : heap_rep A h → heap_rep A h' →
  kh_mine h w → is_Some (owned (h_ps h') (pg w)) → kh_mine h' w.
Proof.
  intros Hr Hr' [[r Ho]|(A' & Hr1 & Hp)] Ho'; [left|right].
  - rewrite (kh_own_eq A h) in Ho by done. rewrite (kh_own_eq A h') by done. by case_decide.
  - rewrite (heap_rep_unique _ _ _ Hr1 Hr) in Hp. by exists A.
Qed.

(** *** Page calls *)

Lemma wp_page_call c A h (Q : Z → kheap → Prop) :
  heap_rep A h → can_lock L_page (pheld h) = true → pa_pre (owned (h_ps h)) c → (∀ a v, c ≠ Store a v) →
  keeps (pa_exec c) →
  (∀ r own', pa_spec (managed (h_ps h)) (owned (h_ps h)) c r own' → ∀ q, q ∈ all_pages A → is_Some (own' q)) →
  (∀ r h', heap_rep A h' → grows (pmach h) (pmach h') → (∀ b w, kh_span h' b w ↔ kh_span h b w) →
     (∀ w, kh_mine h w → is_Some (owned (h_ps h') (pg w)) → kh_mine h' w ∧ mrd (pmem h') w = mrd (pmem h) w) →
     (∀ p k, owned (h_ps h) p = None → is_Some (owned (h_ps h') p) → 0 ≤ k < 512 → mrd (pmem h') (p + 8 * k) = 0) →
     pa_spec (managed (h_ps h)) (owned (h_ps h)) c r (owned (h_ps h')) → Q r h') →
  wp (up (pa_exec c)) Q h.
Proof.
  intros Hr Hl Hpre Hns Hkp Hown HQ. apply wp_up.
  assert (pa_ok (h_ps h)) as Hok by (split; [apply Hr|exact Hl]).
  destruct (wp_elim _ _ _ (pa_step_total _ c Hok Hpre)) as (r & s' & Hs & [Hi He Hsp [Hk Hz]]).
  eapply wp_intro; [exact Hs|].
  assert (∀ w, is_Some (owned (h_ps h) (pg w)) → is_Some (owned s' (pg w)) → mrd (pa_mem s') w = mrd (hmem h) w) as Hmem.
  { intros w H1 H2. rewrite Hk by (by right). destruct c; try done. by destruct (Hns a v). }
  assert (heap_rep A (h <| h_ps := s' |>)) as Hr'.
  { apply rep_ps; [done|done|by eapply Hown|]. intros x Hx _. apply Hmem; [by apply (hr_owned _ _ Hr)|by eapply Hown]. }
  apply HQ; [done| | | |exact Hz|exact Hsp].
  - split; [apply He|]. split; [apply He|]. destruct (Hkp _ _ _ Hs) as [_ [l Hl']]. by exists l.
  - intros b w. by eapply span_same.
  - intros w Hw Ho. split; [by apply (mine_kept A h)|]. apply Hmem; [by eapply mine_owned|done].
Qed.

Lemma wp_discard {A} (m : M pastate A) (Q : kheap → Prop) h :
  wp (up (m ;; mret 0)) (λ _ h', Q h') h → wp (up m) (λ _ h', Q h') h.
Proof. rewrite !wp_up, wp_bind. intros Hm. eapply wp_mono; [exact Hm|]. by intros a s' H. Qed.

Lemma drop_call A h a r : heap_rep A h → can_lock L_page (pheld h) = true → kh_own h a = Some r →
  ∀ c, c = Free a ∨ c = RefDec a → keeps (pa_exec c) →
  wp (up (pa_exec c)) (λ _ h', (∃ A', heap_rep A' h') ∧ grows (pmach h) (pmach h') ∧
    (∀ b w, kh_span h' b w ↔ kh_span h b w) ∧
    (∀ w, kh_mine h w → pg w ≠ a ∨ 1 < r → kh_mine h' w ∧ mrd (pmem h') w = mrd (pmem h) w) ∧
    (∀ q, kh_own h' q = if decide (q = a) then (if 1 <? r then Some (r - 1) else None) else kh_own h q)) h.
Proof.
  intros Hr Hl Ha c Hc Hkp. pose proof Ha as Ha'. rewrite (kh_own_eq A h) in Ha by done.
  case_decide as Hna; [done|]. pose proof (hr_ps _ _ Hr) as [fl Hfl].
  pose proof (managed_ram _ _ (rep_win _ _ Hfl) (proj1 (owned_managed _ _ _ Ha))) as Hram.
  pose proof (ram_bounds _ Hram) as Hb.
  assert (∀ r0 own', pa_spec (managed (h_ps h)) (owned (h_ps h)) c r0 own' → ∀ q, own' q = own_drop (owned (h_ps h)) a q) as Hsp.
  { intros r0 own' Hs. by destruct Hc as [->| ->], Hs as [_ Hs]. }
  assert (∀ q, own_drop (owned (h_ps h)) a q = if decide (q = a) then (if 1 <? r then Some (r - 1) else None)
            else owned (h_ps h) q) as Hdr by (intros q; unfold own_drop; by rewrite Ha).
  apply (wp_page_call c A); [done|done| | |done| |].
  - destruct Hc as [->| ->]; cbn; [lia|]. split; [lia|apply Hram].
  - intros b v ->. by destruct Hc.
  - intros r0 own' Hs q Hq. rewrite (Hsp _ _ Hs), Hdr. rewrite decide_False by by intros ->. by apply (hr_owned _ _ Hr).
  - intros r0 h' Hr' Hg Hlv Hm _ Hs. split; [by exists A|]. split; [done|]. split; [done|]. split.
    + intros w Hw Hne. apply Hm; [done|]. rewrite (Hsp _ _ Hs), Hdr. pose proof (mine_owned _ _ _ Hr Hw) as Hwo.
      case_decide as Heq; [|done]. destruct Hne as [?|Hgt]; [done|]. by rewrite (proj2 (Z.ltb_lt 1 r) Hgt).
    + intros q. rewrite (kh_own_eq A h'), (kh_own_eq A h) by done. rewrite (Hsp _ _ Hs), Hdr.
      destruct (decide (q ∈ all_pages A)) as [Hq|Hq]; [|done]. by rewrite decide_False by by intros ->.
Qed.

(** The frame of the heap's own memory. *)
Lemma kh_mach_rep A h m' : heap_rep A h → m_mmu_enabled m' = m_mmu_enabled (pmach h) →
  (∀ w, ¬ kh_mine h w → mrd (m_mem m') w = mrd (pmem h) w) → heap_rep A (sub_set m' h).
Proof.
  intros Hr He Hm. apply (rep_ps A h (sub_set m' (h_ps h))); [done| |by apply (hr_owned _ _ Hr)|].
  - apply pa_frame; [apply Hr|done|]. intros w Hno. apply Hm. intros Hw. by eapply Hno, mine_owned.
  - intros w Hw Hno. apply Hm. intros [[r Hown]|(A' & Hr1 & Hp)].
    + rewrite (kh_own_eq A h) in Hown by done. by case_decide.
    + by rewrite (heap_rep_unique _ _ _ Hr1 Hr) in Hp.
Qed.

Lemma kh_mach h m' : (∃ A, heap_rep A h) → m_mmu_enabled m' = m_mmu_enabled (pmach h) →
  (∀ w, ¬ kh_mine h w → mrd (m_mem m') w = mrd (pmem h) w) →
  let h' := sub_set m' h in
  (∃ A, heap_rep A h') ∧ (∀ q, kh_own h' q = kh_own h q) ∧ (∀ w, kh_mine h' w ↔ kh_mine h w) ∧
  (∀ b w, kh_span h' b w ↔ kh_span h b w).
Proof.
  intros [A Hr] He Hm h'.
  assert (∀ q, owned (h_ps h') q = owned (h_ps h) q) as Ho by done.
  assert (heap_rep A h') as Hr' by by apply kh_mach_rep.
  split; [by exists A|]. split; [|split].
  - intros q. by rewrite (kh_own_eq A h'), (kh_own_eq A h).
  - intros w. split; intros Hw.
    + eapply (mine_kept A h' h); [done..|]. pose proof (mine_owned _ _ _ Hr' Hw) as Hw'. by rewrite Ho in Hw'.
    + eapply (mine_kept A h h'); [done..|]. pose proof (mine_owned _ _ _ Hr Hw) as Hw'. by rewrite Ho.
  - intros b w. by eapply span_same.
Qed.

End instance.

(** *** Heap calls

    The heap's theorems hold for every page source.  Here the page allocator
    is one that promises, besides, that the pages of the set [C] keep their
    reference counts and their contents: the heap may not break the promise,
    so it leaves the pages of its clients alone. *)

Section client.
Variables (C : Z → Prop) (cnt : Z → option Z) (m0 : gmap Z Z).
Hypothesis HC : ∀ q, C q → is_Some (cnt q).

Definition client_ok (s : pastate) : Prop :=
  pa_inv s ∧ (∀ q, C q → owned s q = cnt q) ∧ ∀ w, C (page_of w) → mrd (pa_mem s) w = mrd m0 w.

#[refine] Definition client_laws : PageSourceLaws pastate := {|
  ps_ok := client_ok;
  ps_owned := λ s q, is_Some (owned s q) ∧ ¬ C q;
|}.
Proof.
  - intros s p (Hi & _) [Ho _]. by apply (ps_ram (PageSourceLaws := pa_page_source_laws) s).
  - intros s n Hn ([fl Hr] & Hc & Hm) Hlk. eapply wp_mono; [by apply (page_alloc_contiguous_spec fl)|].
    intros r s' [(-> & -> & _)|(Hn' & [Hi He Ho Hz Hf] & Hfree & _)].
    { split; [split; [by eexists|done]|]. split; [done|]. by left. }
    assert (∀ q, is_free s q → owned s q = None) as Hnone.
    { intros q Hq. apply (owned_None_free _ _ _ Hr); [apply Hq|done]. }
    assert (∀ q, q ∈ run_pages r n → ¬ C q) as HnC.
    { intros q Hq HCq. pose proof (HC q HCq) as [v Hv]. rewrite <- Hc, Hnone in Hv; [done|by apply Hfree|done]. }
    split; [split; [done|split]|split; [apply He|right; split; [done|split; [|split]]]].
    + intros q Hq. rewrite Ho. case_decide as Hin; [by apply HnC in Hin|by apply Hc].
    + intros w Hw. rewrite Hf; [by apply Hm|]. intros Hfr. pose proof (HC _ Hw) as [v Hv].
      by rewrite <- Hc, Hnone in Hv.
    + intros q Hq [[v Hv] _]. by rewrite (Hnone q (Hfree q Hq)) in Hv.
    + intros q. rewrite Ho. case_decide as Hin; [|tauto].
      split; [by left|]. intros _. split; [by eexists|by apply HnC].
    + intros a [[v Hv] _]. apply Hf. intros Hfr. by rewrite (Hnone _ Hfr) in Hv.
  - intros s m' (Hi & Hc & Hm) He Hf. split; [|done]. split; [|split; [done|]].
    + apply pa_frame; [done|done|]. intros a Ha. apply Hf. by intros [? _].
    + intros w Hw. cbn. rewrite Hf; [by apply Hm|]. by intros [_ ?].
Defined.

Lemma rep_client A (h : kheap) : heap_rep A h → (∀ q, q ∈ all_pages A → ¬ C q) →
  (∀ q, C q → owned (h_ps h) q = cnt q) → (∀ w, C (page_of w) → mrd (hmem h) w = mrd m0 w) →
  @heap_rep pastate _ client_laws A h.
Proof.
  intros [Hok Hh Ha Hnd Ho Hp Hu Hf] HA Hc Hm. split; try done. intros q Hq. split; [by apply Ho|by apply HA].
Qed.

Lemma rep_plain A (h : kheap) : @heap_rep pastate _ client_laws A h →
  heap_rep A h ∧ (∀ q, q ∈ all_pages A → ¬ C q) ∧
  (∀ q, C q → owned (h_ps h) q = cnt q) ∧ (∀ w, C (page_of w) → mrd (hmem h) w = mrd m0 w).
Proof.
  intros [(Hi & Hc & Hm) Hh Ha Hnd Ho Hp Hu Hf]. split; [split; try done; intros q Hq; by apply Ho|].
  split; [intros q Hq; by apply Ho|done].
Qed.

End client.

Section heap_laws.
Implicit Types (h : kheap).

Definition client h (q : Z) : Prop := is_Some (kh_own h q).

Lemma client_owned h q : client h q → is_Some (owned (h_ps h) q).
Proof. unfold client, kh_own. case_decide; [by intros []|done]. Qed.

Definition kh_laws h : PageSourceLaws pastate := client_laws (client h) (owned (h_ps h)) (hmem h) (client_owned h).

Lemma kh_rep A h : heap_rep A h → @heap_rep pastate _ (kh_laws h) A h.
Proof.
  intros Hr. apply rep_client; [done| |done|done]. intros q Hq [r Ho]. rewrite (kh_own_eq A h) in Ho by done.
  by case_decide.
Qed.

(** What a heap call leaves of the pages of the clients. *)
Lemma kh_after h A' h' : @heap_rep pastate _ (kh_laws h) A' h' →
  heap_rep A' h' ∧ (∀ q r, kh_own h q = Some r → kh_own h' q = Some r) ∧
  (∀ w, client h (pg w) → mrd (hmem h') w = mrd (hmem h) w).
Proof.
  intros (Hr' & HA & Hc & Hm)%rep_plain. split; [done|]. split; [|exact Hm].
  intros q r Ho. assert (client h q) as Hq by by eexists.
  rewrite (kh_own_eq A' h') by done. rewrite decide_False by (intros Hin; by apply (HA q)).
  rewrite Hc by done. unfold kh_own in Ho. by case_decide.
Qed.

Lemma kh_mine_after A h A' h' w : heap_rep A h → heap_rep A' h' →
  (∀ q r, kh_own h q = Some r → kh_own h' q = Some r) →
  (∀ w, client h (pg w) → mrd (hmem h') w = mrd (hmem h) w) →
  (∀ x, x ∈ live A → x ∈ live A') → kept A (hmem h) (hmem h') →
  kh_mine h w → kh_mine h' w ∧ mrd (hmem h') w = mrd (hmem h) w.
Proof.
  intros Hr Hr' Ho Hc Hl Hk [[r Hw]|(A1 & Hr1 & p & n & Hin & Hw)].
  - split; [left; by exists r; apply Ho|]. apply Hc. by exists r.
  - rewrite (heap_rep_unique _ _ _ Hr1 Hr) in Hin. split; [|by eapply Hk].
    right. exists A'. split; [done|]. exists p, n. split; [by apply Hl|done].
Qed.

Lemma live_once A h p n m : heap_rep A h → live A ≡ₚ (p, n) :: m → (∀ k, (p, k) ∉ m).
Proof.
  intros Hr Hp k Hin. pose proof (live_disjoint A h Hr) as Hd.
  assert ((p, n) ∈ live A ∧ (p, k) ∈ live A) as [Hn Hk] by (rewrite Hp; split; [by left|by right]).
  destruct (live_arena _ _ _ _ Hr Hn) as [[? _] _]. destruct (live_arena _ _ _ _ Hr Hk) as [[? _] _].
  assert (NoDup (live A)) as Hnd.
  { clear -Hd Hr. assert (∀ x, x ∈ live A → 0 < x.2) as Hpos.
    { intros [q m] Hq. destruct (live_arena _ _ _ _ Hr Hq) as [[? _] _]. cbn. lia. }
    revert Hd Hpos. generalize (live A). clear. induction l as [|x l IH]; [constructor|]. intros [Hf Hd] Hp.
    constructor; [|apply IH; [done|]; intros y Hy; apply Hp; by right].
    intros Hin. rewrite Forall_forall in Hf. specialize (Hf x Hin). specialize (Hp x ltac:(by left)).
    unfold disj in Hf. lia. }
  assert (n ≠ k).
  { intros ->. rewrite Hp in Hnd. by apply NoDup_cons in Hnd as [? _]. }
  assert (∀ x y, x ∈ live A → y ∈ live A → x ≠ y → disj x y) as Hdj.
  { clear -Hd. revert Hd. generalize (live A). intros l. induction l as [|z l IH]; [by intros _ x y ?%not_elem_of_nil|].
    intros [Hf Hd] x y [->|Hx]%elem_of_cons [->|Hy]%elem_of_cons Hne; [done| | |by apply IH].
    - by eapply Forall_forall in Hf.
    - eapply Forall_forall in Hf; [|done]. unfold disj in *. tauto. }
  specialize (Hdj (p, n) (p, k) Hn Hk ltac:(congruence)). unfold disj in Hdj. cbn in Hdj. lia.
Qed.

Lemma kv_inj p q : kv p = kv q → p = q.
Proof. unfold kv. lia. Qed.

(** A word is in a payload already, or a client page, unless the heap took it. *)
Lemma fresh_not_mine A h A' h' p n w : heap_rep A h → heap_rep A' h' →
  (∀ q r, kh_own h q = Some r → kh_own h' q = Some r) →
  live A' ≡ₚ (p, n) :: live A → p ≤ w < p + n → ¬ kh_mine h w.
Proof.
  intros Hr Hr' Ho Hl Hw [[r Hown]|(A1 & Hr1 & q & m & Hq & Hwq)].
  - assert (pg w ∈ all_pages A') as Hin.
    { apply (payload_page A' h'); [done|]. exists p, n. split; [|done]. rewrite Hl. by left. }
    apply Ho in Hown. rewrite (kh_own_eq A' h') in Hown by done. by rewrite decide_True in Hown.
  - rewrite (heap_rep_unique _ _ _ Hr1 Hr) in Hq.
    assert ((p, n) = (q, m)) as [= <- <-].
    { apply (live_apart A' h' p n q m w); [done| | |done|done]; rewrite Hl; [by left|by right]. }
    by apply (live_once A' h' p n (live A) Hr' Hl n).
Qed.

Lemma kh_grows {A} h (m : M kheap A) a h' : keeps m → m h = Some (a, h') → hheld h' = hheld h → grows (pmach h) (pmach h').
Proof. intros Hk Hs Hh. destruct (Hk _ _ _ Hs) as [He Ht]. split; [exact Hh|]. split; [exact He|exact Ht]. Qed.

End heap_laws.

Section laws.
Implicit Types (h : kheap).

Lemma live_below A h p m : heap_rep A h → (p, m) ∈ live A → p + m < 2 ^ 40.
Proof.
  intros Hr (ar & Hin & Har)%list_elem_of_bind. destruct (arenas_in _ _ _ (hr_arenas _ _ Hr) Har) as [nx Ha].
  destruct (live_blocks_bounds _ _ _ _ (bo_sizes _ _ _ (ao_blocks _ _ _ Ha)) Hin) as (_ & _ & H3 & _).
  destruct (arena_addr _ _ _ Hr Har). pose proof (ao_pages _ _ _ Ha).
  rewrite (ao_end _ _ _ Ha) in H3. unfold PAGE_SIZE in *. lia.
Qed.

(** The payload of the block that [kmalloc] returns. *)
Lemma payload_kbuf p m n i : 0 < p → p mod 16 = 0 → p + m < 2 ^ 40 → 0 ≤ n ≤ m →
  kbuf (kv p) n ∧ u64 (kv p) = kv p ∧ va_to_pa (kv p) = p ∧
  (0 ≤ i < n → p ≤ word_of (p + i) < p + m).
Proof.
  intros Hp Hal Hpm Hn. split; [unfold kbuf, kv, KERNEL_VA_OFFSET; lia|].
  split; [apply u64_small; unfold kv, KERNEL_VA_OFFSET; lia|]. split.
  { unfold va_to_pa, kv, KERNEL_VA_OFFSET. rewrite (proj2 (Z.leb_le _ _)); lia. }
  intros Hi. unfold word_of. pose proof (Z.mod_pos_bound (p + i) 8 eq_refl).
  assert (p mod 8 = 0) as Hp8.
  { rewrite (Z.div_mod p 16), Hal by done. replace (16 * (p / 16) + 0) with (2 * (p / 16) * 8) by lia. by apply Z.mod_mul. }
  assert ((p + i) mod 8 ≤ i); [|lia].
  rewrite Z.add_mod, Hp8, Z.add_0_l, Z.mod_mod by done. apply Z.mod_le; lia.
Qed.

Lemma kh_kmalloc_law h n : (∃ A, heap_rep A h) → can_lock L_heap (pheld h) = true → 0 ≤ n < 2 ^ 31 →
  wp (kmalloc n) (λ a h', (∃ A, heap_rep A h') ∧ grows (pmach h) (pmach h') ∧
    (∀ w, kh_mine h w → kh_mine h' w ∧ mrd (pmem h') w = mrd (pmem h) w) ∧
    (∀ q r, kh_own h q = Some r → kh_own h' q = Some r) ∧
    (a = 0 ∧ (∀ b w, kh_span h' b w ↔ kh_span h b w) ∨
     a ≠ 0 ∧ u64 a = a ∧ a mod 16 = 0 ∧ kbuf a n ∧ kh_span h' a (va_to_pa a) ∧
     (∀ i, 0 ≤ i < n → kh_span h' a (word_of (va_to_pa a + i))) ∧
     (∀ w, kh_span h' a w → ¬ kh_mine h w) ∧ (∀ w, ¬ kh_span h a w) ∧
     (∀ b w, b ≠ a → kh_span h' b w ↔ kh_span h b w))) h.
Proof.
  intros [A Hr] Hl Hn. pose proof (kh_rep A h Hr) as Hrc.
  destruct (wp_elim _ _ _ (@kmalloc_spec pastate _ (kh_laws h) A n h Hrc Hl ltac:(lia))) as (a & h' & Hs & Hres).
  eapply wp_intro; [exact Hs|]. destruct Hres as [(-> & [Hr' Hh Hm] & _)|(p & A' & -> & [Hr' Hh (m & Hm & Hlv) Hk Hal Hp])].
  - destruct (kh_after h A h' Hr') as (Hrp & Ho & Hc). split; [by exists A|].
    split; [by apply (kh_grows h (kmalloc n) 0); [apply keeps_kmalloc|..]|]. split; [|split; [done|]].
    + intros w. apply (kh_mine_after A h A h'); [done..|]. intros p n' x _ _. by rewrite Hm.
    + left. split; [done|]. intros b w. by eapply span_same.
  - destruct (kh_after h A' h' Hr') as (Hrp & Ho & Hc). split; [by exists A'|].
    split; [by apply (kh_grows h (kmalloc n) (kv p)); [apply keeps_kmalloc|..]|]. split; [|split; [done|right]].
    { intros w. apply (kh_mine_after A h A' h'); [done..| |done]. intros x Hx. rewrite Hlv. by right. }
    assert ((p, m) ∈ live A') as Hin by (rewrite Hlv; by left).
    destruct (live_arena _ _ _ _ Hrp Hin) as [[Hm16 Hp40] _].
    assert (n ≤ aligned16 n < n + 16) as Hab by (unfold aligned16; Z.div_mod_to_equations; lia).
    assert (p + m < 2 ^ 40) as Hpm by by eapply live_below.
    pose proof (λ i, payload_kbuf p m n i Hp Hal Hpm ltac:(lia)) as Hbuf.
    destruct (Hbuf 0) as (Hkb & Hu & Hpa & _). rewrite Hpa.
    assert (∀ q k, (q, k) ∈ live A' → kv q = kv p → (q, k) = (p, m)) as Honly.
    { intros q k Hq ->%kv_inj. destruct (live_arena _ _ _ _ Hrp Hq) as [[Hk16 _] _].
      apply (live_apart A' h' p k p m p); [done|done|done|lia|lia]. }
    split; [unfold kv, KERNEL_VA_OFFSET; lia|]. split; [done|].
    split; [unfold kv; rewrite Z.add_mod, Hal by done; done|]. split; [done|]. split; [|split; [|split; [|split]]].
    + apply (kh_span_eq A' h'); [done|]. exists p, m. split; [done|]. split; [done|lia].
    + intros i Hi. apply (kh_span_eq A' h'); [done|]. exists p, m. split; [done|]. split; [done|]. by apply Hbuf.
    + intros w (q & k & Hq & Hkv & Hw)%(kh_span_eq A' h'); [|done]. pose proof (Honly q k Hq (eq_sym Hkv)) as [= -> ->].
      by eapply (fresh_not_mine A h A' h').
    + intros w (q & k & Hq & Hkv%eq_sym & Hw)%(kh_span_eq A h); [|done].
      assert ((q, k) ∈ live A') as Hq' by (rewrite Hlv; by right). pose proof (Honly q k Hq' Hkv) as [= -> ->].
      by apply (live_once A' h' p m (live A) Hrp Hlv m).
    + intros b w Hne. rewrite (kh_span_eq A h), (kh_span_eq A' h') by done. split; intros (q & k & Hq & -> & Hw); exists q, k.
      * rewrite Hlv in Hq. apply elem_of_cons in Hq as [[= -> ->]|Hq]; done.
      * split; [|done]. rewrite Hlv. by right.
Qed.

Lemma kh_kfree_law h a : (∃ A, heap_rep A h) → can_lock L_heap (pheld h) = true → kh_span h a (va_to_pa a) →
  wp (kfree a) (λ _ h', (∃ A, heap_rep A h') ∧ grows (pmach h) (pmach h') ∧
    (∀ w, kh_mine h w → ¬ kh_span h a w → kh_mine h' w ∧ mrd (pmem h') w = mrd (pmem h) w) ∧
    (∀ q r, kh_own h q = Some r → kh_own h' q = Some r) ∧
    (∀ b w, kh_span h' b w ↔ kh_span h b w ∧ b ≠ a)) h.
Proof.
  intros [A Hr] Hl (p & n & Hin & -> & _)%(kh_span_eq A h _ _ Hr). pose proof (kh_rep A h Hr) as Hrc.
  destruct (wp_elim _ _ _ (@kfree_live pastate _ (kh_laws h) A p n h Hrc Hl Hin)) as ([] & h' & Hs & A' & [Hr' Hh Hlv Hk]).
  eapply wp_intro; [exact Hs|]. destruct (kh_after h A' h' Hr') as (Hrp & Ho & Hc). split; [by exists A'|].
  split; [by apply (kh_grows h (kfree (kv p)) ()); [apply keeps_kfree|..]|]. split; [|split; [done|]].
  - intros w [Hw|(A1 & Hr1 & q & k & Hq & Hw)] Hno.
    { split; [destruct Hw as [r Hw]; left; exists r; by apply Ho|by apply Hc]. }
    rewrite (heap_rep_unique _ _ _ Hr1 Hr) in Hq. assert ((q, k) ∈ live A') as Hq'.
    { rewrite Hlv in Hq. apply elem_of_cons in Hq as [[= -> ->]|Hq]; [|done].
      exfalso. apply Hno, (kh_span_eq A h); [done|]. by exists p, n. }
    split; [right; exists A'; split; [done|]; by exists q, k|by eapply Hk].
  - intros b w. rewrite (kh_span_eq A' h'), (kh_span_eq A h) by done. split.
    + intros (q & k & Hq & -> & Hw). split; [exists q, k; split; [rewrite Hlv; by right|done]|].
      intros ->%kv_inj. by eapply (live_once A h p n (live A')).
    + intros [(q & k & Hq & -> & Hw) Hne]. exists q, k. split; [|done]. rewrite Hlv in Hq.
      by apply elem_of_cons in Hq as [[= -> ->]|Hq].
Qed.

Lemma kh_alloc_law h : (∃ A, heap_rep A h) → can_lock L_page (pheld h) = true →
  wp (up page_alloc) (λ a h', (∃ A, heap_rep A h') ∧ grows (pmach h) (pmach h') ∧
    (∀ b w, kh_span h' b w ↔ kh_span h b w) ∧
    (∀ w, kh_mine h w → kh_mine h' w ∧ mrd (pmem h') w = mrd (pmem h) w) ∧
    (a = 0 ∧ (∀ q, kh_own h' q = kh_own h q) ∨
     page_ok a ∧ (∀ w, kh_mine h w → pg w ≠ a) ∧ (∀ i, 0 ≤ i < 512 → mrd (pmem h') (a + 8 * i) = 0) ∧
     kh_own h a = None ∧ (∀ q, kh_own h' q = if decide (q = a) then Some 1 else kh_own h q))) h.
Proof.
  intros [A Hr] Hl. pose proof (hr_ps _ _ Hr) as [fl Hfl].
  assert (∀ r own', pa_spec (managed (h_ps h)) (owned (h_ps h)) Alloc r own' →
    ∀ q, is_Some (owned (h_ps h) q) → is_Some (own' q)) as Hmono.
  { intros r own' [(_ & _ & He)|(_ & _ & He)] q Hq; rewrite He; [done|]. unfold own_set. by case_decide. }
  apply (wp_page_call Alloc A); [done..|apply keeps_page_alloc| |].
  { intros r own' Hs q Hq. eapply Hmono; [exact Hs|]. by apply (hr_owned _ _ Hr). }
  intros a h' Hr' Hg Hlv Hm Hz Hs. split; [by exists A|]. split; [done|]. split; [done|]. split.
  { intros w Hw. apply Hm; [done|]. eapply Hmono; [exact Hs|]. by eapply mine_owned. }
  destruct Hs as [(-> & _ & He)|(Hw & Hno & He)]; [left|right].
  { split; [done|]. intros q. rewrite (kh_own_eq A h'), (kh_own_eq A h) by done. by rewrite He. }
  pose proof (managed_ram _ _ (rep_win _ _ Hfl) Hw) as Hram.
  assert (a ∉ all_pages A) as Hna by (intros [v Hv]%(hr_owned _ _ Hr); congruence).
  assert (∀ q, owned (h_ps h') q = if decide (q = a) then Some 1 else owned (h_ps h) q) as Ho.
  { intros q. rewrite He. unfold own_set. apply decide_ext. by rewrite list_elem_of_singleton. }
  split; [|split; [|split; [|split]]].
  - pose proof (ram_bounds _ Hram). pose proof (ram_page_nz _ Hram). split; [apply Hram|lia].
  - intros w Hmw%(mine_owned A h) <-; [|done]. rewrite Hno in Hmw. by destruct Hmw.
  - intros i Hi. apply Hz; [done| |done]. rewrite Ho, decide_True by done. by eexists.
  - rewrite (kh_own_eq A h) by done. by case_decide.
  - intros q. rewrite (kh_own_eq A h'), (kh_own_eq A h) by done. rewrite Ho.
    destruct (decide (q = a)) as [->|]; [by rewrite decide_False|done].
Qed.

Lemma kh_count_law h a r : (∃ A, heap_rep A h) → can_lock L_page (pheld h) = true → kh_own h a = Some r →
  ∀ c own', (c = RefInc a ∧ r + 1 < 2 ^ 16 ∧ own' = λ q, if decide (q = a) then Some (r + 1) else kh_own h q) ∨
            (c = RefGet a ∧ own' = kh_own h) → keeps (pa_exec c) →
  wp (up (pa_exec c)) (λ v h', (c = RefGet a → v = r) ∧ (∃ A, heap_rep A h') ∧ grows (pmach h) (pmach h') ∧
    (∀ b w, kh_span h' b w ↔ kh_span h b w) ∧
    (∀ w, kh_mine h w → kh_mine h' w ∧ mrd (pmem h') w = mrd (pmem h) w) ∧
    (∀ q, kh_own h' q = own' q)) h.
Proof.
  intros [A Hr] Hl Ha c own' Hc Hkp. pose proof Ha as Ha'. rewrite (kh_own_eq A h) in Ha by done.
  case_decide as Hna; [done|]. pose proof (hr_ps _ _ Hr) as [fl Hfl].
  pose proof (managed_ram _ _ (rep_win _ _ Hfl) (proj1 (owned_managed _ _ _ Ha))) as Hram.
  pose proof (ram_bounds _ Hram) as Hb. assert (page_of a = a) as Hpa by (apply page_of_page, Hram).
  assert (∀ v own, pa_spec (managed (h_ps h)) (owned (h_ps h)) c v own →
    (c = RefGet a → v = r) ∧ ∀ q, own q = if decide (q = a) then own' a else owned (h_ps h) q) as Hsp.
  { intros v own Hs. destruct Hc as [(-> & Hlt & ->)|[-> ->]]; destruct Hs as [Hv He]; rewrite Hpa in *.
    - split; [done|]. intros q. rewrite He. unfold ref_inc_own. rewrite Ha, (decide_True (P := a = a)) by done.
      destruct (decide (q = a)); [|done]. cbn. rewrite (proj2 (Z.eqb_neq r 65535)) by lia. done.
    - rewrite Ha in Hv. split; [done|]. intros q. rewrite He. destruct (decide (q = a)) as [->|]; [by rewrite Ha'|done]. }
  assert (is_Some (own' a)) as Hsa.
  { destruct Hc as [(_ & _ & ->)|[_ ->]]; [by rewrite decide_True|by rewrite Ha']. }
  assert (∀ q, (if decide (q = a) then own' a else kh_own h q) = own' q) as Hown'.
  { intros q. destruct (decide (q = a)) as [->|Hq]; [done|]. destruct Hc as [(_ & _ & ->)|[_ ->]]; [by rewrite decide_False|done]. }
  assert (∀ v own, pa_spec (managed (h_ps h)) (owned (h_ps h)) c v own →
    ∀ q, is_Some (owned (h_ps h) q) → is_Some (own q)) as Hmono.
  { intros v own Hs q Hq. rewrite (proj2 (Hsp v own Hs)). by case_decide. }
  apply (wp_page_call c A); [done|done| | |done| |].
  - destruct Hc as [(-> & _)|[-> _]]; cbn; lia.
  - intros b v ->. by destruct Hc as [(? & _)|[? _]].
  - intros v own Hs q Hq. eapply Hmono; [exact Hs|]. by apply (hr_owned _ _ Hr).
  - intros v h' Hr' Hg Hlv Hm _ Hs. destruct (Hsp _ _ Hs) as [Hv Ho]. split; [done|]. split; [by exists A|].
    split; [done|]. split; [done|]. split.
    + intros w Hw. apply Hm; [done|]. eapply Hmono; [exact Hs|]. by eapply mine_owned.
    + intros q. rewrite <- Hown', (kh_own_eq A h'), (kh_own_eq A h), Ho by done.
      destruct (decide (q = a)) as [->|]; [by rewrite decide_False|done].
Qed.

End laws.

#[export] Hint Resolve keeps_page_alloc keeps_page_free keeps_page_ref_inc keeps_page_ref_dec keeps_page_ref_get : keeps.

#[export, refine] Instance kheap_laws : FrameLaws kheap := {
  fe_ok := λ h, ∃ A, heap_rep A h;
  fe_own := kh_own;
  fe_mine := kh_mine;
  fe_span := kh_span;
}.
Proof.
  - intros h a r [A Hr] Ho. rewrite (kh_own_eq A h) in Ho by done. case_decide; [done|].
    pose proof (hr_ps _ _ Hr) as [fl Hfl]. pose proof (owned_ref_range _ _ _ _ Hfl Ho).
    pose proof (managed_ram _ _ (rep_win _ _ Hfl) (proj1 (owned_managed _ _ _ Ho))) as Hram.
    pose proof (ram_bounds _ Hram). pose proof (ram_page_nz _ Hram). split; [split; [apply Hram|lia]|lia].
  - intros h a r w _ Ho Hw. left. rewrite Hw, Ho. by eexists.
  - intros h b w [A Hr] (p & n & Hl & _ & Hw)%(kh_span_eq A h _ _ Hr). assert (in_payload A w) as Hp by by exists p, n.
    split; [right; by exists A|]. rewrite (kh_own_eq A h), decide_True by (done || by eapply payload_page). done.
  - intros h b b' w [A Hr]. rewrite !(kh_span_eq A h) by done. intros (p & n & Hp & -> & Hw) (q & m & Hq & -> & Hw').
    pose proof (live_apart A h p n q m w Hr Hp Hq Hw Hw'). congruence.
  - exact kh_alloc_law.
  - intros h a r [A Hr] Hl Ho. cbv zeta. split.
    + apply wp_discard. apply (drop_call A h a r Hr Hl Ho (Free a)); [by left|cbn [pa_exec]; keeps].
    + apply (drop_call A h a r Hr Hl Ho (RefDec a)); [by right|cbn [pa_exec]; keeps].
  - intros h a r Hok Hl Ho Hr. apply wp_discard. eapply wp_mono.
    + apply (kh_count_law h a r Hok Hl Ho (RefInc a) _ ltac:(by left)). cbn [pa_exec]. keeps.
    + by intros v h' [_ Hres].
  - intros h a r Hok Hl Ho. eapply wp_mono.
    + apply (kh_count_law h a r Hok Hl Ho (RefGet a) _ ltac:(by right)). cbn [pa_exec]. keeps.
    + intros v h' [Hv Hres]. split; [by apply Hv|exact Hres].
  - exact kh_kmalloc_law.
  - exact kh_kfree_law.
  - exact kh_mach.
Defined.

