(* ===== verification/VmStep.v ===== *)
(** * Steps that create and free kernel objects

    [kstep K B D p X F p' X' F'] is the frame of an operation of the kernel
    proper: the heap blocks [B] are new, the old blocks [D] are freed, the
    contexts that stay are translated as before, and so are the clients' bytes
    outside [K] and outside the freed blocks.  Other contexts are compared by
    [vm_same]. *)

From S2P Require Import Prelude Machine MmuTable MmuBoot Vmsa VmsaWalk VmsaFault VmBits VmsaSpec VmTree VmMap VmOwn VmUnmap VmBytes VmFrame VmFaultSpec VmCopy.

Open Scope kernel_scope.

Section step.
Context {P : Type} `{FrameLaws P}.
Implicit Types (p : P) (s : vstate P) (t : treg) (X : gmap Z mm_context) (T : tmap) (F : Z → tmap) (K : Z → Prop) (B D : list Z).

(** ** Other contexts are left alone *)

(** The view of every context of [X] is the same in [p']. *)
Record vm_same p X F p' : Prop := {
  vs_leaves : ∀ mm c v, X !! mm = Some c → leaf (pmem p') (F mm) v = leaf (pmem p) (F mm) v;
  vs_bytes : ∀ mm c v e, X !! mm = Some c → leaf (pmem p) (F mm) v = Some e →
    page_same (pmem p) (desc_addr e) (pmem p') (desc_addr e);
}.

Lemma vm_same_refl p X F : vm_same p X F p.
Proof. by split. Qed.

Lemma vm_same_trans p1 p2 p3 X F : vm_same p1 X F p2 → vm_same p2 X F p3 → vm_same p1 X F p3.
Proof.
  intros [Hl Hb] [Hl' Hb']. split.
  - intros mm c v HX. by rewrite (Hl' mm c), (Hl mm c).
  - intros mm c v e HX Hv k Hk. rewrite (Hb' mm c v e), (Hb mm c v e); try done. by rewrite (Hl mm c).
Qed.

(** ** Steps of the heap *)

Lemma vm_ok_heap p X F p' : vm_ok p X F → fe_ok p' →
  (∀ w r, fe_own p (pg w) = Some r → mrd (pmem p') w = mrd (pmem p) w) →
  (∀ q r, fe_own p q = Some r → fe_own p' q = Some r) →
  (∀ mm c, X !! mm = Some c → fe_live p' mm) → vm_ok p' X F ∧ vm_same p X F p'.
Proof.
  intros Hk Hok Hm Ho Hl.
  assert (∀ mm c, X !! mm = Some c → ctx_ok p' c (F mm) ∧ ∀ v, leaf (pmem p') (F mm) v = leaf (pmem p) (F mm) v) as Hc.
  { intros mm c HX. destruct (vk_ctx _ _ _ Hk mm c HX) as [Ht Hi Hw Hn Hlen].
    destruct (tree_frame (pmem p) (pmem p') (F mm) (mm_root_pa c) Ht) as [Ht' Hlf].
    { intros w Htw. destruct (Hw (pg w) (Hi _ Htw)) as [r Hr]. by eapply Hm. }
    split; [|done]. split; try done. intros a Ha. destruct (Hw a Ha) as [r Hr]. exists r. by apply Ho. }
  split; [split|split]; try done.
  - intros mm c HX. split; [by apply (vk_live _ _ _ Hk mm c)|by eapply Hl].
  - intros mm c HX. by apply Hc.
  - intros mm c a HX Ha. apply Ho. by eapply vk_count.
  - intros mm c a HX Ha. by eapply vk_tabs.
  - intros mm c v e HX. rewrite (proj2 (Hc mm c HX)). by eapply vk_leaf.
  - intros mm c v1 v2 e1 e2 HX. rewrite !(proj2 (Hc mm c HX)). by eapply vk_inj.
  - intros mm c v e HX. rewrite (proj2 (Hc mm c HX)). by eapply vk_write.
  - intros mm c v HX. apply (Hc mm c HX).
  - intros mm c v e HX Hv. destruct (vk_leaf _ _ _ Hk mm c v e HX Hv) as [Hin _].
    pose proof (vk_count _ _ _ Hk mm c _ HX Hin) as Hr. apply page_same_words; [by eapply fe_own_page; [apply Hk|]|].
    intros w Hw. eapply Hm. by rewrite Hw.
Qed.

Lemma own_frame p p' X F : vm_ok p X F → (∀ w, fe_mine p w → fe_mine p' w → mrd (pmem p') w = mrd (pmem p) w) →
  fe_ok p' → (∀ q r, fe_own p q = Some r → fe_own p' q = Some r) →
  ∀ w r, fe_own p (pg w) = Some r → mrd (pmem p') w = mrd (pmem p) w.
Proof.
  intros Hk Hm Hok' Ho w r Hr. apply Hm; [by eapply fe_own_mine; [apply Hk|exact Hr|]|].
  by eapply fe_own_mine; [exact Hok'|by apply Ho|].
Qed.

Lemma vm_same_step p X F p' : vm_ok p X F → vmstep p p' [] nowhere → vm_same p X F p'.
Proof.
  intros Hk Hs. pose proof (frame_step 0 _ _ _ _ Hk Hs) as Hf. split.
  - intros mm c v HX. eapply (ctx_frame p p'); [done|apply Hk|by eapply vk_ctx|by intros ? _ []].
  - intros mm c v e HX Hl. destruct (vk_leaf _ _ _ Hk mm c v e HX Hl) as [Hi _].
    destruct (tracked_ok _ _ _ _ _ _ Hk HX Hi) as [Hpk Hmn]. apply page_same_words; [done|].
    intros w Hw. apply (vs_mem _ _ _ _ Hs); [by apply Hmn|by intros []].
Qed.

(** ** The frame *)

Record kstep K B D p X F p' X' F' : Prop := {
  kp_ok : vm_ok p' X' F';
  kp_grows : grows (pmach p) (pmach p');
  kp_ctx : ∀ mm c, X !! mm = Some c → mm ∉ D → X' !! mm = Some c ∧
    (∀ v, leaf (pmem p') (F' mm) v = leaf (pmem p) (F mm) v) ∧
    ∀ v e, leaf (pmem p) (F mm) v = Some e → page_same (pmem p) (desc_addr e) (pmem p') (desc_addr e);
  kp_dom : ∀ mm, is_Some (X' !! mm) → mm ∈ B ∨ is_Some (X !! mm) ∧ mm ∉ D;
  kp_span : ∀ b w, b ∉ B → fe_span p' b w ↔ fe_span p b w ∧ b ∉ D;
  kp_new : ∀ b, b ∈ B → fe_live p' b ∧ (∀ w, ¬ fe_span p b w) ∧
    ∀ a, fe_span p' b (word_of a) → ¬ fe_mine p (word_of a);
  kp_mem : ∀ a, fe_mine p (word_of a) → untracked X (word_of a) → (∀ d, d ∈ D → ¬ fe_span p d (word_of a)) →
    fe_mine p' (word_of a) ∧ untracked X' (word_of a) ∧ (¬ K a → rd8 (pmem p') a = rd8 (pmem p) a);
}.

Lemma kstep_live K B D p X F p' X' F' b : kstep K B D p X F p' X' F' → b ∉ B →
  fe_live p' b ↔ fe_live p b ∧ b ∉ D.
Proof. intros Hs Hb. by apply (kp_span _ _ _ _ _ _ _ _ _ Hs). Qed.

Lemma kstep_fresh K B D p X F p' X' F' b : kstep K B D p X F p' X' F' → b ∈ B → ¬ fe_live p b.
Proof. intros Hs Hb Hl. destruct (kp_new _ _ _ _ _ _ _ _ _ Hs b Hb) as (_ & Hno & _). by apply Hno in Hl. Qed.

Lemma kstep_weaken (K K' : Z → Prop) B D p X F p' X' F' : (∀ a, K a → K' a) → kstep K B D p X F p' X' F' → kstep K' B D p X F p' X' F'.
Proof.
  intros HK [? ? ? ? ? ? Hm]. split; try done. intros a Ha Hu Hno. destruct (Hm a Ha Hu Hno) as (? & ? & Hr).
  split; [done|]. split; [done|]. intros Hn. apply Hr. by intros ?%HK.
Qed.

(** The view of the contexts that stay. *)
Lemma kstep_same K B p X F p' X' : kstep K B [] p X F p' X' F → vm_same p X F p'.
Proof.
  intros Hs. split.
  - intros mm c v HX. by apply (kp_ctx _ _ _ _ _ _ _ _ _ Hs mm c HX ltac:(by intros ?%elem_of_nil)).
  - intros mm c v e HX. by apply (kp_ctx _ _ _ _ _ _ _ _ _ Hs mm c HX ltac:(by intros ?%elem_of_nil)).
Qed.

Lemma kstep_same_del K mm p X F p' X' : kstep K [] [mm] p X F p' X' F → vm_same p (delete mm X) F p'.
Proof.
  intros Hs. split; intros k c; [intros v|intros v e]; intros [Hne HX]%lookup_delete_Some;
    apply (kp_ctx _ _ _ _ _ _ _ _ _ Hs k c HX); by intros <-%list_elem_of_singleton.
Qed.

Lemma kstep_step K p X F p' : vm_ok p X F → vmstep p p' [] nowhere → kstep K [] [] p X F p' X F.
Proof.
  intros Hk Hs. pose proof (vm_same_step _ _ _ _ Hk Hs) as [Hl Hb]. split.
  - by eapply vm_ok_step.
  - apply Hs.
  - intros mm c HX _. split; [done|]. split; [intros v; by eapply Hl|intros v e; by eapply Hb].
  - intros mm HX. right. split; [done|by intros ?%elem_of_nil].
  - intros b w _. rewrite (vs_span _ _ _ _ Hs). split; [|by intros [? _]].
    intros Hsp. split; [done|]. by intros ?%elem_of_nil.
  - by intros b ?%elem_of_nil.
  - intros a Ha Hu _. destruct (vs_mem _ _ _ _ Hs _ Ha) as [Ha' Heq]. split; [done|]. split; [done|].
    intros _. apply rd8_frame, Heq. by intros [].
Qed.

Lemma kstep_refl K p X F : vm_ok p X F → kstep K [] [] p X F p X F.
Proof. intros Hk. apply kstep_step; [done|]. apply vmstep_refl, Hk. Qed.

(** A word in a page of a context belongs to the clients. *)
Lemma tracked_mine p X F mm c w : vm_ok p X F → X !! mm = Some c → pg w ∈ mm_pages c → fe_mine p w.
Proof.
  intros Hk HX Hin. pose proof (vk_count _ _ _ Hk mm c _ HX Hin) as Ho. by eapply fe_own_mine; [apply Hk|exact Ho|].
Qed.

(** A word of the clients survives a step that frees nothing. *)
Lemma kstep_mine K B p X F p' X' F' a : vm_ok p X F → kstep K B [] p X F p' X' F' →
  fe_mine p (word_of a) → ¬ fe_mine p' (word_of a) → False.
Proof.
  intros Hk Hs Hm Hno. apply Hno. apply (kp_mem _ _ _ _ _ _ _ _ _ Hs a Hm); [|by intros d ?%elem_of_nil].
  intros mm c HX Hin. apply Hno. destruct (kp_ctx _ _ _ _ _ _ _ _ _ Hs mm c HX) as [HX' _]; [by intros ?%elem_of_nil|].
  by eapply tracked_mine; [apply Hs| |].
Qed.

Lemma kstep_trans K B1 B2 D1 D2 p1 X1 F1 p2 X2 F2 p3 X3 F3 : vm_ok p1 X1 F1 →
  kstep K B1 D1 p1 X1 F1 p2 X2 F2 → kstep K B2 D2 p2 X2 F2 p3 X3 F3 →
  (∀ b, b ∈ B1 → b ∉ D2) → B2 = [] ∨ D1 = [] → kstep K (B2 ++ B1) (D1 ++ D2) p1 X1 F1 p3 X3 F3.
Proof.
  intros Hk1 Hs1 Hs2 Hd Hor. pose proof Hs1 as [Hk2 Hg1 Hc1 Hx1 Hp1 Hn1 Hm1]. pose proof Hs2 as [Hk3 Hg2 Hc2 Hx2 Hp2 Hn2 Hm2].
  assert (∀ b, b ∈ B1 → b ∉ B2) as Hdis.
  { intros b Hb Hb'. destruct (Hn1 b Hb) as [Hl _]. by eapply (kstep_fresh _ _ _ _ _ _ _ _ _ b Hs2). }
  assert (∀ b, b ∈ B2 → D1 = []) as HD1 by (intros b Hb; destruct Hor as [->|?]; [by apply elem_of_nil in Hb|done]).
  split; [done|by etrans| | | | |].
  - intros mm c HX [H1 H2]%not_elem_of_app. destruct (Hc1 mm c HX H1) as (HX2 & Hl1 & Hb1).
    destruct (Hc2 mm c HX2 H2) as (HX3 & Hl2 & Hb2). split; [done|]. split; [intros v; by rewrite Hl2, Hl1|].
    intros v e He k Hkr. rewrite (Hb2 v e), (Hb1 v e); try done. by rewrite Hl1.
  - intros mm [Hb|[HX Hno]]%Hx2; [left; apply elem_of_app; by left|].
    apply Hx1 in HX as [Hb|[HX Hno']]; [left; apply elem_of_app; by right|right]. split; [done|]. by apply not_elem_of_app.
  - intros b w [H2 H1]%not_elem_of_app. rewrite Hp2, Hp1 by done. rewrite not_elem_of_app. tauto.
  - intros b [Hb|Hb]%elem_of_app.
    + destruct (Hn2 b Hb) as (Hl & Hno & Hnm). pose proof (HD1 b Hb) as ->. split; [done|].
      assert (b ∉ B1) as Hb1 by (intros Hb1; by apply (Hdis b)). split.
      * intros w Hw. apply (Hno w). rewrite Hp1 by done. split; [done|by intros ?%elem_of_nil].
      * intros a Ha Hm. by eapply (kstep_mine K B1 p1 X1 F1); [exact Hk1|exact Hs1|exact Hm|by apply Hnm].
    + destruct (Hn1 b Hb) as (Hl & Hno & Hnm). pose proof (Hdis b Hb) as Hb2.
      split; [by apply (kstep_live _ _ _ _ _ _ _ _ _ b Hs2 Hb2); auto|]. split; [done|].
      intros a Ha. apply Hnm. by apply (Hp2 b _ Hb2) in Ha as [Ha _].
  - intros a Ha Hu Hno. destruct (Hm1 a Ha Hu) as (Ha2 & Hu2 & He2).
    { intros d Hd'. apply Hno, elem_of_app. by left. }
    destruct (Hm2 a Ha2 Hu2) as (Ha3 & Hu3 & He3).
    { intros d Hd2 Hsp. apply (Hno d); [apply elem_of_app; by right|]. apply Hp1 in Hsp as [Hsp _]; [done|].
      intros Hb. by apply (Hd d). }
    split; [done|]. split; [done|]. intros HK. by rewrite He3, He2.
Qed.

Lemma kstep_seq K B1 B2 p1 X1 F1 p2 X2 F2 p3 X3 F3 : vm_ok p1 X1 F1 →
  kstep K B1 [] p1 X1 F1 p2 X2 F2 → kstep K B2 [] p2 X2 F2 p3 X3 F3 → kstep K (B2 ++ B1) [] p1 X1 F1 p3 X3 F3.
Proof.
  intros Hk H1 H2. apply (kstep_trans K B1 B2 [] [] p1 X1 F1 p2 X2 F2); [done..| |by right]. by intros b _ ?%elem_of_nil.
Qed.

(** A new block is freed again. *)
Lemma kstep_cancel K B b p1 X1 F1 p2 X2 F2 p3 X3 F3 : vm_ok p1 X1 F1 → b ∉ B →
  kstep K (b :: B) [] p1 X1 F1 p2 X2 F2 → kstep K [] [b] p2 X2 F2 p3 X3 F3 → kstep K B [] p1 X1 F1 p3 X3 F3.
Proof.
  intros Hk1 HbB Hs1 Hs2. pose proof Hs1 as [Hk2 Hg1 Hc1 Hx1 Hp1 Hn1 Hm1]. pose proof Hs2 as [Hk3 Hg2 Hc2 Hx2 Hp2 Hn2 Hm2].
  destruct (Hn1 b ltac:(by left)) as (Hlb & Hnb & Hmb).
  split; [done|by etrans| | | | |].
  - intros mm c HX _. destruct (Hc1 mm c HX) as (HX2 & Hl1 & Hb1); [by intros ?%elem_of_nil|].
    destruct (Hc2 mm c HX2) as (HX3 & Hl2 & Hb2).
    { intros ->%list_elem_of_singleton. eapply Hnb. by eapply vk_live. }
    split; [done|]. split; [intros v; by rewrite Hl2, Hl1|].
    intros v e He k Hkr. rewrite (Hb2 v e), (Hb1 v e); try done. by rewrite Hl1.
  - intros mm [Hb|[HX Hno]]%Hx2; [by apply elem_of_nil in Hb|]. apply Hx1 in HX as [[->|Hb]%elem_of_cons|HX]; [|by left|by right].
    destruct Hno. by left.
  - intros c w Hc. rewrite Hp2 by by intros ?%elem_of_nil. destruct (decide (c = b)) as [->|Hne].
    + split; [intros [_ Hno]; destruct Hno; by left|]. intros [Hw _]. by apply Hnb in Hw.
    + rewrite Hp1 by (by apply not_elem_of_cons). rewrite list_elem_of_singleton. tauto.
  - intros c Hc. destruct (Hn1 c ltac:(by right)) as (Hl & Hno & Hnm). assert (c ≠ b) as Hne by by intros ->.
    assert (c ∉ []) as Hnil by by intros ?%elem_of_nil.
    split; [apply (kstep_live _ _ _ _ _ _ _ _ _ c Hs2 Hnil); by rewrite list_elem_of_singleton|]. split; [done|].
    intros a Ha. apply Hnm. by apply (Hp2 c _ Hnil) in Ha as [Ha _].
  - intros a Ha Hu _. destruct (Hm1 a Ha Hu) as (Ha2 & Hu2 & He2); [by intros d ?%elem_of_nil|].
    destruct (Hm2 a Ha2 Hu2) as (Ha3 & Hu3 & He3); [|split; [done|]; split; [done|]; intros HK; by rewrite He3, He2].
    intros d ->%list_elem_of_singleton Hsp. by apply Hmb in Hsp.
Qed.

(** The order of the new blocks does not matter. *)
Lemma kstep_blocks K B B' D p X F p' X' F' : (∀ b, b ∈ B ↔ b ∈ B') → kstep K B D p X F p' X' F' → kstep K B' D p X F p' X' F'.
Proof.
  intros HB [Hk Hg Hc Hx Hp Hn Hm]. split; try done.
  - intros mm HX. rewrite <- HB. by apply Hx.
  - intros b w Hb. apply Hp. by rewrite HB.
  - intros b Hb. apply Hn. by rewrite HB.
Qed.

(** ** Producers *)

(** An operation inside a context that is new. *)
Lemma kstep_xfer K (K' R : Z → Prop) B mm p X F p1 X1 F1 p2 X2 F2 : kstep K B [] p X F p1 X1 F1 → mm ∈ B → X !! mm = None →
  vm_xfer K' R mm p1 X1 F1 p2 X2 F2 → (∀ a, K' a → K a) → kstep K B [] p X F p2 X2 F2.
Proof.
  intros [Hk1 Hg1 Hc1 Hx1 Hp1 Hn1 Hm1] Hmm HX0 [Hk2 Hg2 Hsp Hd Hc Ho Hv Hm] HK. split; [done|by etrans| | | | |].
  - intros k c HX Hno. destruct (Hc1 k c HX Hno) as (HX1 & Hl1 & Hb1). assert (k ≠ mm) as Hne by congruence.
    split; [by rewrite (proj1 (Hd k Hne))|]. split; [intros v; by rewrite (Ho k c v Hne HX1)|].
    intros v e He j Hj. assert (leaf (pmem p1) (F1 k) v = Some e) as He1 by by rewrite Hl1.
    destruct (Hv k c v e HX1 He1) as (e' & He' & _ & Hb'). rewrite (Ho k c v Hne HX1), He1 in He'. injection He' as <-.
    rewrite Hb' by done. by apply (Hb1 v e).
  - intros k [c HX2]. destruct (decide (k = mm)) as [->|Hne]; [by left|]. apply Hx1. exists c. by rewrite <- (proj1 (Hd k Hne)).
  - intros b w Hb. by rewrite Hsp, Hp1.
  - intros b Hb. destruct (Hn1 b Hb) as (Hl & Hno & Hnm). split; [by apply Hsp|]. split; [done|].
    intros a. rewrite Hsp. apply Hnm.
  - intros a Ha Hu Hno. destruct (Hm1 a Ha Hu Hno) as (Ha1 & Hu1 & He1). destruct (Hm a Ha1 Hu1) as (Ha2 & Hu2 & He2).
    split; [done|]. split; [done|]. intros HnK. rewrite He2 by auto. by apply He1.
Qed.

(** The clients write bytes that are in no address space. *)
Lemma kstep_wrote K B p X F p1 X1 F1 p2 d n f : kstep K B [] p X F p1 X1 F1 → wrote p1 p2 d n f → 0 ≤ d →
  (∀ i, 0 ≤ i < n → fe_mine p1 (word_of (d + i)) ∧ untracked X1 (word_of (d + i))) →
  (∀ i, 0 ≤ i < n → ¬ fe_mine p (word_of (d + i)) ∨ K (d + i)) → kstep K B [] p X F p2 X1 F1.
Proof.
  intros [Hk1 Hg1 Hc1 Hx1 Hp1 Hn1 Hm1] Hw Hd Hin HK.
  destruct (xfer_kernel (λ a, d ≤ a < d + n) (λ _, False) 0 p1 X1 F1 d n f p2 Hk1 Hd) as [Hx Hl2]; [|exact Hw|].
  { intros i Hi. split; [by apply Hin|lia]. }
  destruct Hx as [Hk2 Hg2 Hsp Hdm Hc Ho Hv Hm]. split; [done|by etrans| |done| | |].
  - intros k c HX Hno. destruct (Hc1 k c HX Hno) as (HX1 & Hl1 & Hb1). split; [done|].
    split; [intros v; by rewrite (Hl2 k c HX1)|]. intros v e He j Hj.
    assert (leaf (pmem p1) (F1 k) v = Some e) as He1 by by rewrite Hl1.
    destruct (Hv k c v e HX1 He1) as (e' & He' & _ & Hb'). rewrite (Hl2 k c HX1), He1 in He'. injection He' as <-.
    rewrite Hb' by (done || by intros _ []). by apply (Hb1 v e).
  - intros b w Hb. by rewrite Hsp, Hp1.
  - intros b Hb. destruct (Hn1 b Hb) as (Hl & Hno & Hnm). split; [by apply Hsp|]. split; [done|].
    intros a. rewrite Hsp. apply Hnm.
  - intros a Ha Hu Hno. destruct (Hm1 a Ha Hu Hno) as (Ha1 & Hu1 & He1). destruct (Hm a Ha1 Hu1) as (Ha2 & Hu2 & He2).
    split; [done|]. split; [done|]. intros HnK. rewrite He2; [by apply He1|]. intros Ha'.
    destruct (HK (a - d)) as [Hno'|HK']; [lia|..]; replace (d + (a - d)) with a in * by lia; done.
Qed.

(** The words of a block are the clients' and in no address space. *)
Lemma span_client p X F b w : vm_ok p X F → fe_span p b w → fe_mine p w ∧ untracked X w.
Proof.
  intros Hk Hsp. destruct (fe_span_mine p b w (vk_ok _ _ _ Hk) Hsp) as [Hm Ho]. split; [done|].
  intros mm c HX Hin. pose proof (vk_count _ _ _ Hk mm c _ HX Hin) as Hc. congruence.
Qed.

Lemma vm_ok_blocks p X F p' : vm_ok p X F → fe_ok p' →
  (∀ w, fe_mine p w → (∀ b, ¬ fe_span p b w) → mrd (pmem p') w = mrd (pmem p) w) →
  (∀ q r, fe_own p q = Some r → fe_own p' q = Some r) →
  (∀ mm c, X !! mm = Some c → fe_live p' mm) → vm_ok p' X F ∧ vm_same p X F p'.
Proof.
  intros Hk Hok Hm Ho Hl. apply vm_ok_heap; [done|done| |done|done]. intros w r Hr.
  apply Hm; [by eapply fe_own_mine; [apply Hk|exact Hr|]|]. intros b Hsp.
  destruct (fe_span_mine p b w (vk_ok _ _ _ Hk) Hsp) as [_ Hno]. congruence.
Qed.

Lemma wp_kmalloc K n (Q : Z → vstate P → Prop) p t X s F :
  vm_ok p X F → can_lock L_heap (pheld p) = true → 0 ≤ n < 2 ^ 31 →
  (∀ p', kstep K [] [] p X F p' X F → Q 0 (vst p' t X s)) →
  (∀ a p', a ≠ 0 → u64 a = a → a mod 16 = 0 → kbuf a n → kstep K [a] [] p X F p' X F →
     (∀ i, 0 ≤ i < n → fe_span p' a (word_of (va_to_pa a + i))) → Q a (vst p' t X s)) →
  wp (up (fe_kmalloc n)) Q (vst p t X s).
Proof.
  intros Hk Hl Hn HQ0 HQ. apply wp_env. eapply wp_mono; [by apply fe_kmalloc_law; [apply Hk|..]|].
  intros a p' (Hok & Hg & Hm & Ho & Hres).
  assert ((∀ mm c, X !! mm = Some c → fe_live p' mm) → vm_ok p' X F ∧ vm_same p X F p') as Hkeep.
  { apply vm_ok_blocks; [done|done| |done]. intros w Hw _. by apply Hm. }
  assert (∀ a, fe_mine p (word_of a) → untracked X (word_of a) → fe_mine p' (word_of a) ∧ untracked X (word_of a) ∧
            (¬ K a → rd8 (pmem p') a = rd8 (pmem p) a)) as Hmem.
  { intros q Hq Hu. destruct (Hm _ Hq) as [Hq' Heq]. split; [done|]. split; [done|]. intros _. by apply rd8_frame. }
  destruct Hres as [[-> Hsp]|(Ha & Hu & Hal & Hkb & Hla & Hbuf & Hnew & Hno & Hsp)].
  - destruct Hkeep as [Hk' [Hl' Hb']]; [intros mm c HX; apply Hsp; by eapply vk_live|]. apply HQ0. split; try done.
    + intros mm c HX _. split; [done|]. split; [intros v; by eapply Hl'|intros v e; by eapply Hb'].
    + intros mm HX. right. split; [done|]. by intros ?%elem_of_nil.
    + intros b w _. rewrite Hsp. split; [|by intros [? _]]. intros ?. split; [done|]. by intros ?%elem_of_nil.
    + by intros b ?%elem_of_nil.
    + intros q Hq Hun _. by apply Hmem.
  - assert (∀ mm c, X !! mm = Some c → mm ≠ a) as Hne.
    { intros mm c HX ->. apply (Hno (va_to_pa a)). by eapply vk_live. }
    destruct Hkeep as [Hk' [Hl' Hb']].
    { intros mm c HX. apply Hsp; [by eapply Hne|]. by eapply vk_live. }
    apply HQ; [done|done|done|done| |done]. split; try done.
    + intros mm c HX _. split; [done|]. split; [intros v; by eapply Hl'|intros v e; by eapply Hb'].
    + intros mm HX. right. split; [done|]. by intros ?%elem_of_nil.
    + intros b w Hb%not_elem_of_cons. rewrite Hsp by tauto. split; [|by intros [? _]]. intros ?. split; [done|]. by intros ?%elem_of_nil.
    + intros b ->%list_elem_of_singleton. split; [done|]. split; [done|]. intros q. apply Hnew.
    + intros q Hq Hun _. by apply Hmem.
Qed.

Lemma wp_kfree K a (Q : unit → vstate P → Prop) p t X s F :
  vm_ok p X F → can_lock L_heap (pheld p) = true → fe_live p a → X !! a = None →
  (∀ p', kstep K [] [a] p X F p' X F → Q () (vst p' t X s)) →
  wp (up (fe_kfree a)) Q (vst p t X s).
Proof.
  intros Hk Hl Hla HXa HQ. apply wp_env. eapply wp_mono; [by apply fe_kfree_law; [apply Hk|..]|].
  intros [] p' (Hok & Hg & Hm & Ho & Hsp).
  destruct (vm_ok_blocks p X F p' Hk Hok) as [Hk' [Hl' Hb']].
  { intros w Hw Hno. by apply Hm. }
  { done. }
  { intros mm c HX. apply Hsp. split; [by eapply vk_live|]. by intros ->; rewrite HXa in HX. }
  apply HQ. split; try done.
  - intros mm c HX _. split; [done|]. split; [intros v; by eapply Hl'|intros v e; by eapply Hb'].
  - intros mm [c HX]. right. split; [by eexists|]. intros ->%list_elem_of_singleton. by rewrite HXa in HX.
  - intros b w _. rewrite Hsp. by rewrite list_elem_of_singleton.
  - by intros b ?%elem_of_nil.
  - intros q Hq Hun Hno. destruct (Hm _ Hq) as [Hq' Heq]; [apply Hno; by left|]. split; [done|]. split; [done|].
    intros _. by apply rd8_frame.
Qed.

(** Fields of a context that the step frees do not matter. *)
Lemma kstep_update K D mm c c' p X F p' X' F' : X !! mm = Some c → mm ∈ D → mm_pages c' = mm_pages c →
  kstep K [] D p (<[mm := c']> X) F p' X' F' → kstep K [] D p X F p' X' F'.
Proof.
  intros HX HD Hpg [Hk Hg Hc Hx Hp Hn Hm]. split; try done.
  - intros k d HXk Hno. apply Hc; [|done]. rewrite lookup_insert_ne; [done|]. by intros ->.
  - intros k [?|[HXk Hno]]%Hx; [by left|right]. split; [|done]. apply lookup_insert_is_Some in HXk as [->|[_ ?]]; [by eexists|done].
  - intros a Ha Hu. apply (Hm a Ha). intros k d [[<- <-]|[_ HXk]]%lookup_insert_Some; [rewrite Hpg; by eapply Hu|by eapply Hu].
Qed.

(** The object of a context that is gone already. *)
Lemma kstep_gone K mm p X F p1 p2 : vm_ok p X F → is_Some (X !! mm) →
  vm_same p (delete mm X) F p1 → grows (pmach p) (pmach p1) → (∀ b w, fe_span p1 b w ↔ fe_span p b w) →
  (∀ w, fe_mine p w → untracked X w → fe_mine p1 w ∧ mrd (pmem p1) w = mrd (pmem p) w) →
  kstep K [] [mm] p1 (delete mm X) F p2 (delete mm X) F → kstep K [] [mm] p X F p2 (delete mm X) F.
Proof.
  intros Hk [c0 HX0] [Hl Hb] Hg Hsp Hm [Hk2 Hg2 Hc2 Hx2 Hp2 Hn2 Hm2]. split; [done|by etrans| | | | |].
  - intros k c HX Hno. assert (k ≠ mm) as Hne by (by intros ->; destruct Hno; left).
    assert (delete mm X !! k = Some c) as HX' by by rewrite lookup_delete_ne.
    destruct (Hc2 k c HX' Hno) as (HX2 & Hl2 & Hb2). split; [done|].
    split; [intros v; rewrite Hl2; by eapply Hl|]. intros v e He j Hj.
    rewrite (Hb2 v e), (Hb k c v e HX' He); try done. by rewrite (Hl k c).
  - intros k HX. right. destruct HX as [c [Hne HX]%lookup_delete_Some]. split; [by eexists|].
    by intros ->%list_elem_of_singleton.
  - intros b w Hnil. by rewrite Hp2, Hsp.
  - intros b Hnil. by apply elem_of_nil in Hnil.
  - intros a Ha Hu Hno. destruct (Hm _ Ha Hu) as [Ha1 He1].
    destruct (Hm2 a Ha1) as (Ha2 & Hu2 & He2).
    { intros k c [_ HX]%lookup_delete_Some. by eapply Hu. }
    { intros d Hd. rewrite Hsp. by apply Hno. }
    split; [done|]. split; [done|]. intros HK. rewrite He2 by done. by apply rd8_frame.
Qed.

End step.
