(* ===== verification/VmLife.v ===== *)
(** * The life of an address space: the pages of a dying context and ASIDs

    [shared p X F R] is [vm_ok p X F] while the pages [R] still carry one
    reference of a context that is being released.  [mmu_asid_alloc] returns
    an ASID that was free, and 0 only when all 255 are in use. *)

From S2P Require Import Prelude Machine MmuTable MmuBoot Vmsa VmsaWalk VmsaFault VmBits VmsaSpec VmTree VmMap VmOwn VmUnmap VmBytes VmFrame VmFaultSpec VmCopy VmStep.

Open Scope kernel_scope.

Section life.
Context {P : Type} `{FrameLaws P}.
Implicit Types (p : P) (s : vstate P) (t : treg) (X : gmap Z mm_context) (T : tmap) (F : Z → tmap).

(** ** Releasing the pages of a context *)

Record shared p X F (R : list Z) : Prop := {
  sh_ok : fe_ok p;
  sh_live : ∀ mm c, X !! mm = Some c → mm ≠ 0 ∧ fe_live p mm;
  sh_ctx : ∀ mm c, X !! mm = Some c → ctx_ok p c (F mm);
  sh_count : ∀ mm c a, X !! mm = Some c → a ∈ mm_pages c → a ∉ R → fe_own p a = Some (Z.of_nat (trackers X a));
  sh_pending : ∀ a, a ∈ R → fe_own p a = Some (Z.of_nat (trackers X a) + 1);
  sh_tabs : ∀ mm c a, X !! mm = Some c → tabs (F mm) a → sole X mm a ∧ a ∉ R;
  sh_leaf : ∀ mm c v e, X !! mm = Some c → leaf (pmem p) (F mm) v = Some e →
    desc_addr e ∈ mm_pages c ∧ ¬ tabs (F mm) (desc_addr e);
  sh_inj : ∀ mm c v1 v2 e1 e2, X !! mm = Some c → leaf (pmem p) (F mm) v1 = Some e1 →
    leaf (pmem p) (F mm) v2 = Some e2 → desc_addr e1 = desc_addr e2 → v1 = v2;
  sh_write : ∀ mm c v e, X !! mm = Some c → leaf (pmem p) (F mm) v = Some e →
    mmu_user_access_allowed e true = true → sole X mm (desc_addr e);
}.

Lemma shared_nil p X F : shared p X F [] ↔ vm_ok p X F.
Proof.
  split.
  - intros [? ? ? Hc _ Ht ? ? ?]. split; try done.
    + intros mm c a HX Ha. apply (Hc mm c a HX Ha). by intros ?%elem_of_nil.
    + intros mm c a HX Ha. by apply (Ht mm c a).
  - intros [? ? ? Hc Ht ? ? ?]. split; try done.
    + intros mm c a HX Ha _. by eapply Hc.
    + by intros a ?%elem_of_nil.
    + intros mm c a HX Ha. split; [by eapply Ht|by intros ?%elem_of_nil].
Qed.

Lemma sole_delete X mm mm' a : sole X mm' a → sole (delete mm X) mm' a.
Proof. intros Hs k d [_ Hd]%lookup_delete_Some. by apply Hs. Qed.

(** The context leaves; its pages are pending. *)
Lemma shared_delete p X F mm c : vm_ok p X F → X !! mm = Some c → shared p (delete mm X) F (mm_pages c).
Proof.
  intros Hk HX. assert (∀ a, (trackers X a = trackers (delete mm X) a + tracks c a)%nat) as Htr
    by (intros a; by apply trackers_delete).
  assert (∀ mm' c', delete mm X !! mm' = Some c' → mm' ≠ mm ∧ X !! mm' = Some c') as HX'.
  { intros mm' c' [? ?]%lookup_delete_Some. by split. }
  split.
  - apply Hk.
  - intros mm' c' [_ H']%HX'. by eapply vk_live.
  - intros mm' c' [_ H']%HX'. by eapply vk_ctx.
  - intros mm' c' a [Hne H']%HX' Ha Hn. rewrite (vk_count _ _ _ Hk mm' c' a H' Ha), Htr.
    unfold tracks. rewrite decide_False by done. do 2 f_equal. lia.
  - intros a Ha. rewrite (vk_count _ _ _ Hk mm c a HX Ha), Htr. unfold tracks. rewrite decide_True by done.
    f_equal. lia.
  - intros mm' c' a [Hne H']%HX' Ha. pose proof (vk_tabs _ _ _ Hk mm' c' a H' Ha) as Hs.
    split; [by apply sole_delete|]. intros Hin. by apply Hne, eq_sym, (Hs mm c).
  - intros mm' c' v e [_ H']%HX'. by eapply vk_leaf.
  - intros mm' c' v1 v2 e1 e2 [_ H']%HX'. by eapply vk_inj.
  - intros mm' c' v e [_ H']%HX' Hl Hw. apply sole_delete. by eapply (vk_write _ _ _ Hk mm' c').
Qed.

Lemma shared_drop p X F a R p' : shared p X F (a :: R) → NoDup (a :: R) →
  dropped p a (Z.of_nat (trackers X a) + 1) p' → shared p' X F R ∧ vm_same p X F p'.
Proof.
  intros [Hok Hlv Hcx Hct Hpd Htb Hlf Hij Hwr] [Hna Hnd]%NoDup_cons Hd.
  assert (∀ mm c, X !! mm = Some c → a ∈ mm_pages c → 1 < Z.of_nat (trackers X a) + 1) as Hr.
  { intros mm c HX Ha. pose proof (trackers_pos X mm c a HX Ha). lia. }
  assert (∀ mm c, X !! mm = Some c → ctx_ok p' c (F mm) ∧ ∀ v, leaf (pmem p') (F mm) v = leaf (pmem p) (F mm) v) as Hc.
  { intros mm c HX. eapply ctx_dropped; [done|exact Hd|by apply Hcx| |by eapply Hr].
    intros Ht. apply (Htb mm c a HX) in Ht as [_ Ht]. apply Ht. by left. }
  split; [split|split].
  - apply (dr_ok _ _ _ _ Hd).
  - intros mm c HX. rewrite (dr_live _ _ _ _ Hd). by eapply Hlv.
  - intros mm c HX. by apply Hc.
  - intros mm c q HX Hq Hn. rewrite (dr_own _ _ _ _ Hd). case_decide as Hqa.
    + subst q. pose proof (Hr mm c HX Hq) as Hgt. rewrite (proj2 (Z.ltb_lt 1 _) Hgt). f_equal. lia.
    + eapply Hct; [done|done|]. by apply not_elem_of_cons.
  - intros q Hq. rewrite (dr_own _ _ _ _ Hd). case_decide as Hqa; [by subst q|]. apply Hpd. by right.
  - intros mm c q HX Hq. destruct (Htb mm c q HX Hq) as [Hs Hn]. split; [done|]. intros Hin. apply Hn. by right.
  - intros mm c v e HX. rewrite (proj2 (Hc mm c HX)). by eapply Hlf.
  - intros mm c v1 v2 e1 e2 HX. rewrite !(proj2 (Hc mm c HX)). by eapply Hij.
  - intros mm c v e HX. rewrite (proj2 (Hc mm c HX)). by eapply Hwr.
  - intros mm c v HX. apply (Hc mm c HX).
  - intros mm c v e HX Hl. destruct (Hlf mm c v e HX Hl) as [Hin _].
    pose proof (cx_own _ _ _ (Hcx mm c HX) _ Hin) as [r Ho]. apply page_same_words; [by eapply fe_own_page|].
    intros w Hw. apply (dr_mem _ _ _ _ Hd); [by eapply fe_own_mine|].
    destruct (decide (desc_addr e = a)) as [Heq|Hne]; [right|left; by rewrite Hw].
    rewrite Heq in Hin. by eapply Hr.
Qed.

(** What the loop of [mmu_context_release] leaves when the pages [R] are gone. *)
Record pages_dropped p X F (R : list Z) p' : Prop := {
  pd_ok : vm_ok p' X F;
  pd_same : vm_same p X F p';
  pd_grows : grows (pmach p) (pmach p');
  pd_span : ∀ b w, fe_span p' b w ↔ fe_span p b w;
  pd_mem : ∀ w, fe_mine p w → pg w ∉ R → fe_mine p' w ∧ mrd (pmem p') w = mrd (pmem p) w;
}.

Lemma wp_drop_pages (Q : unit → vstate P → Prop) t Y s X F R : ∀ p,
  shared p X F R → NoDup R → can_lock L_page (pheld p) = true →
  (∀ p', pages_dropped p X F R p' → Q () (vst p' t Y s)) →
  wp (forM_ R (λ pa, whenM (negb (pa =? 0)) (vm_page_free pa))) Q (vst p t Y s).
Proof.
  induction R as [|a R IH]; intros p Hsh Hnd Hlk HQ.
  { apply HQ. split; [by apply shared_nil|apply vm_same_refl|done|done|done]. }
  pose proof (sh_pending _ _ _ _ Hsh a ltac:(by left)) as Ho.
  destruct (fe_own_page p a _ (sh_ok _ _ _ _ Hsh) Ho) as [[_ Ha] _].
  cbn [forM_]. wp_step. bfalse (a =? 0). cbn [negb whenM]. eapply wp_drop; [apply Hsh|done|exact Ho|].
  intros p1 Hd. destruct (shared_drop p X F a R p1 Hsh Hnd Hd) as [Hsh1 Hsm].
  apply IH; [done|by apply NoDup_cons in Hnd as [_ ?]| |].
  { unfold pheld. by rewrite (proj1 (dr_grows _ _ _ _ Hd)). }
  intros p' [Hk Hsm' Hg Hl Hm]. apply HQ. split; [done|by eapply vm_same_trans|etrans; [apply Hd|done]| |].
  - intros b w. rewrite Hl. apply (dr_span _ _ _ _ Hd).
  - intros w Hw [Hne HR]%not_elem_of_cons. destruct (dr_mem _ _ _ _ Hd w Hw) as [Hw1 He1]; [by left|].
    destruct (Hm w Hw1 HR) as [Hw' He']. split; [done|congruence].
Qed.

(** ** A new context *)

Definition root_tree (root : Z) : tmap := {[ (0, 0) := root ]}.

Lemma root_tree_leaf m root v : leaf m (root_tree root) v = None.
Proof. unfold leaf, root_tree. by rewrite lookup_singleton_ne. Qed.

Lemma root_tabs root a : tabs (root_tree root) a ↔ a = root.
Proof.
  unfold tabs, root_tree. split.
  - intros [k [_ ?]%lookup_singleton_Some]. done.
  - intros ->. exists (0, 0). apply lookup_singleton_eq.
Qed.

Lemma root_tree_ok m root : page_ok root → (∀ i, 0 ≤ i < 512 → mrd m (root + 8 * i) = 0) →
  tree_ok m (root_tree root) root.
Proof.
  intros Hp Hz. assert (∀ k a, root_tree root !! k = Some a → k = (0, 0) ∧ a = root) as Hin.
  { intros k a Hk. unfold root_tree in Hk. by apply lookup_singleton_Some in Hk as [<- <-]. }
  split.
  - apply lookup_singleton_eq.
  - intros l x a [[= -> ->] ->]%Hin. done.
  - intros k1 k2 a [-> _]%Hin [-> _]%Hin. done.
  - intros l x a [[= -> ->] _]%Hin Hl. lia.
  - intros l x a i [[= -> ->] ->]%Hin _ Hi. unfold root_tree. rewrite lookup_singleton_ne by (intros [= ?]; lia).
    unfold wd. by rewrite Hz.
  - by intros x a i [? _]%Hin.
Qed.

(** ** ASIDs *)

Definition asid_used (s : vstate P) (a : Z) : bool := Z.testbit (asid_word s a) (a mod 64).

Definition asid_valid (a : Z) : Prop := 1 ≤ a ≤ MMU_ASID_MAX.

Lemma asid_bits a : 0 ≤ a mod 64 < 64.
Proof. by apply Z.mod_pos_bound. Qed.

Lemma wp_asid_test a (Q : bool → vstate P → Prop) s : Q (asid_used s a) s → wp (mmu_asid_test a) Q s.
Proof.
  intros HQ. apply wp_gets. unfold asid_used in HQ. rewrite Z.shiftl_1_l, bit_set_tb by apply asid_bits. exact HQ.
Qed.

Definition asid_write (a : Z) (v : bool) (s : vstate P) : vstate P :=
  s <| asid_bitmap := <[a / 64 := if v then Z.lor (asid_word s a) (Z.shiftl 1 (a mod 64))
                                  else Z.land (asid_word s a) (not64 (Z.shiftl 1 (a mod 64)))]> (asid_bitmap s) |>.

(** One bit of the bitmap changes. *)
Lemma asid_write_used a v s b : 0 ≤ a → 0 ≤ b →
  asid_used (asid_write a v s) b = if decide (b = a) then v else asid_used s b.
Proof.
  intros Ha Hb. unfold asid_used, asid_word, asid_write. cbn.
  pose proof (asid_bits a). pose proof (asid_bits b).
  destruct (decide (a / 64 = b / 64)) as [He|Hne]; cycle 1.
  { rewrite lookup_insert_ne by done. rewrite decide_False by by intros ->. done. }
  rewrite He, lookup_insert_eq. cbn [default from_option id]. unfold id, asid_word. rewrite He, Z.shiftl_1_l.
  assert (a mod 64 = b mod 64 ↔ b = a) as Heq.
  { rewrite (Z.div_mod a 64), (Z.div_mod b 64) at 2 by done. rewrite He. lia. }
  destruct v; cbn iota.
  - rewrite Z.lor_spec, tb_pow2 by lia. case_decide.
    + subst b. rewrite Z.eqb_refl. apply orb_true_r.
    + rewrite (proj2 (Z.eqb_neq _ _)) by tauto. apply orb_false_r.
  - rewrite Z.land_spec, tb_not64, tb_pow2 by lia. btrue (b mod 64 <? 64). cbn [andb]. case_decide.
    + subst b. rewrite Z.eqb_refl. apply andb_false_r.
    + rewrite (proj2 (Z.eqb_neq _ _)) by tauto. apply andb_true_r.
Qed.

(** The candidate after [k] attempts. *)
Definition asid_after (n k : Z) : Z := (n - 1 + k) mod MMU_ASID_MAX + 1.

Lemma asid_after_range n k : asid_valid (asid_after n k).
Proof. unfold asid_after, asid_valid, MMU_ASID_MAX. pose proof (Z.mod_pos_bound (n - 1 + k) 255 eq_refl). lia. Qed.

Lemma asid_after_next n k : 0 ≤ n - 1 + k →
  (if MMU_ASID_MAX <? u32 (asid_after n k + 1) then 1 else u32 (asid_after n k + 1)) = asid_after n (k + 1).
Proof.
  intros Hk. pose proof (asid_after_range n k) as Hr. unfold asid_valid in Hr.
  rewrite u32_small by (unfold MMU_ASID_MAX in *; lia).
  unfold asid_after, MMU_ASID_MAX in *. rewrite Z.add_assoc.
  pose proof (Z.div_mod (n - 1 + k) 255 ltac:(done)). pose proof (Z.mod_pos_bound (n - 1 + k) 255 eq_refl).
  set (q := (n - 1 + k) / 255) in *. set (r := (n - 1 + k) mod 255) in *.
  destruct (255 <? r + 1 + 1) eqn:Hlt; bool_to_prop.
  - replace ((n - 1 + k + 1) mod 255) with 0; [done|]. apply (Z.mod_unique_pos _ _ (q + 1)); lia.
  - replace ((n - 1 + k + 1) mod 255) with (r + 1); [done|]. apply (Z.mod_unique_pos _ _ q); lia.
Qed.

(** The attempts cover every ASID. *)
Lemma asid_after_cover n a : asid_valid n → asid_valid a → ∃ k, 0 ≤ k < MMU_ASID_MAX ∧ asid_after n k = a.
Proof.
  unfold asid_valid, asid_after, MMU_ASID_MAX. intros Hn Ha. exists ((a - n) mod 255).
  split; [by apply Z.mod_pos_bound|].
  pose proof (Z.div_mod (a - n) 255 ltac:(done)). pose proof (Z.mod_pos_bound (a - n) 255 eq_refl).
  replace ((n - 1 + (a - n) mod 255) mod 255) with (a - 1); [lia|].
  apply (Z.mod_unique_pos _ _ (- ((a - n) / 255))); lia.
Qed.

Lemma wp_asid_alloc (Q : Z → vstate P → Prop) p t X s :
  fe_ok p → can_lock L_asid (pheld p) = true → asid_valid (next_asid s) →
  (∀ p' n, vmstep p p' [] nowhere → asid_valid n → (∀ a, asid_valid a → asid_used s a = true) →
     Q 0 (vst p' t X (s <| next_asid := n |>))) →
  (∀ p' n a, vmstep p p' [] nowhere → asid_valid n → asid_valid a → asid_used s a = false →
     Q a (vst p' t X (asid_write a true (s <| next_asid := n |>)))) →
  wp mmu_asid_alloc Q (vst p t X s).
Proof.
  intros Hp Hlk Hn HQ0 HQ. unfold mmu_asid_alloc. wp_step. apply wp_vlock; [done|].
  set (p1 := plocks (L_asid :: pheld p) p). assert (fe_ok p1) as Hp1 by by apply plocks_owner.
  assert (∀ p', vmstep p1 p' [] nowhere → vmstep p (plocks (pheld p) p') [] nowhere ∧ pheld p' = L_asid :: pheld p) as Hout.
  { intros p' Hs. split; [by eapply vmstep_plocks|]. rewrite (vmstep_held _ _ _ _ Hs). apply pheld_plocks. }
  wp_step. eapply wp_mono.
  - apply (wp_iterM _ _ _
      (λ pre _ s', let k := Z.of_nat (length pre) in
         s' = vst p1 t X (s <| next_asid := asid_after (next_asid s) k |>) ∧
         ∀ i, 0 ≤ i < k → asid_used s (asid_after (next_asid s) i) = true) Q).
    + split; [|intros i Hi; cbn in Hi; lia]. cbn [length]. unfold asid_after.
      unfold asid_valid, MMU_ASID_MAX in *. rewrite Z.add_0_r, Z.mod_small by lia.
      replace (next_asid s - 1 + 1) with (next_asid s) by lia. by destruct s.
    + intros pre x post [] s' _ [-> Hu]. set (k := Z.of_nat (length pre)) in *.
      set (a := asid_after (next_asid s) k) in *. pose proof (asid_after_range (next_asid s) k) as Ha. fold a in Ha.
      wp_step. apply wp_gets. wp_step. apply wp_modify. wp_step. apply wp_modify. wp_step. apply wp_asid_test.
      change (next_asid (vst p1 t X (s <| next_asid := a |>))) with a.
      match goal with |- wp _ _ ?st => set (s2 := st) end.
      assert (s2 = vst p1 t X (s <| next_asid := asid_after (next_asid s) (k + 1) |>)) as Hs2.
      { unfold s2. rewrite <- asid_after_next by (unfold asid_valid in Hn; lia). fold a.
        cbn. destruct (MMU_ASID_MAX <? u32 (a + 1)); done. }
      clearbody s2. subst s2. change (asid_used (vst p1 t X _) a) with (asid_used s a).
      assert ((a =? 0) || (MMU_ASID_MAX <? a) = false) as ->.
      { unfold asid_valid in Ha. bfalse (a =? 0). by bfalse (MMU_ASID_MAX <? a). }
      cbn [orb]. destruct (asid_used s a) eqn:Hua.
      * wp_step. rewrite length_app. cbn [length]. rewrite Nat2Z.inj_add. fold k. split; [done|].
        intros i Hi. destruct (decide (i < k)); [by apply Hu; lia|]. by replace i with k by lia.
      * wp_step. apply wp_modify. wp_step. unfold mmu_tlbi_asid. unfold asid_valid in Ha. bfalse (a =? 0).
        set (s3 := s <| next_asid := asid_after (next_asid s) (k + 1) |>).
        match goal with |- wp _ _ ?st => change st with (vst p1 t X (asid_write a true s3)) end.
        apply wp_mach, wp_modify.
        assert (vmstep p1 (pemit (Ev_tlbi_asid a) p1) [] nowhere) as Hs by by apply vmstep_emit.
        destruct (Hout _ Hs) as [Hs' Hh].
        wp_step. eapply (wp_vunlock _ _ _ (pemit (Ev_tlbi_asid a) p1)); [exact Hh|]. wp_step.
        apply (HQ (plocks (pheld p) (pemit (Ev_tlbi_asid a) p1))); [done|apply asid_after_range|done|done].
  - intros [u|a] s'; [|done]. intros [-> Hu]. cbn beta iota. rewrite upto_seqZ, length_seqZ, Z2Nat.id in * by done.
    assert (vmstep p1 p1 [] nowhere) as Hs by by apply vmstep_refl. destruct (Hout _ Hs) as [Hs' Hh].
    wp_step. eapply wp_vunlock; [exact Hh|]. wp_step. apply HQ0; [done|apply asid_after_range|].
    intros a Ha. destruct (asid_after_cover _ _ Hn Ha) as (k & Hk & <-). by apply Hu.
Qed.

Lemma wp_asid_free a (Q : unit → vstate P → Prop) p t X s :
  fe_ok p → can_lock L_asid (pheld p) = true → asid_valid a → asid_used s a = true →
  (∀ p', vmstep p p' [] nowhere → Q () (vst p' t X (asid_write a false s))) →
  wp (mmu_asid_free a) Q (vst p t X s).
Proof.
  intros Hp Hlk Ha Hu HQ. unfold mmu_asid_free. unfold asid_valid in Ha. bfalse (a =? 0). bfalse (MMU_ASID_MAX <? a).
  cbn [orb]. wp_step. apply wp_vlock; [done|]. set (p1 := plocks (L_asid :: pheld p) p).
  assert (fe_ok p1) as Hp1 by by apply plocks_owner.
  wp_step. apply wp_asid_test. change (asid_used (vst p1 t X s) a) with (asid_used s a). rewrite Hu. cbn [negb].
  wp_step. unfold mmu_tlbi_asid. bfalse (a =? 0). apply wp_mach, wp_modify. wp_step. apply wp_modify.
  match goal with |- wp _ _ ?st => change st with (vst (pemit (Ev_tlbi_asid a) p1) t X (asid_write a false s)) end.
  assert (vmstep p1 (pemit (Ev_tlbi_asid a) p1) [] nowhere) as Hs by by apply vmstep_emit.
  eapply (wp_vunlock _ (pheld p) _ (pemit (Ev_tlbi_asid a) p1)).
  - rewrite (vmstep_held _ _ _ _ Hs). apply pheld_plocks.
  - apply (HQ (plocks (pheld p) (pemit (Ev_tlbi_asid a) p1))). by apply (vmstep_plocks (L_asid :: pheld p)).
Qed.

End life.
