(* ===== verification/VmCreate.v ===== *)
(** * The life of an address space: creation and release *)

From S2P Require Import Prelude Machine MmuTable MmuBoot Vmsa VmsaWalk VmsaFault VmBits VmsaSpec VmTree VmMap VmOwn VmUnmap VmBytes VmFrame VmFaultSpec VmCopy VmStep VmLife.

Open Scope kernel_scope.

Section create.
Context {P : Type} `{FrameLaws P}.
Implicit Types (p : P) (s : vstate P) (t : treg) (X : gmap Z mm_context) (T : tmap) (F : Z → tmap).

Lemma vm_ok_new p X F mm c root : vm_ok p X F → X !! mm = None → mm ≠ 0 → fe_live p mm →
  mm_root_pa c = root → mm_pages c = [root] → fe_own p root = Some 1 →
  (∀ i, 0 ≤ i < 512 → mrd (pmem p) (root + 8 * i) = 0) →
  (∀ mm' c', X !! mm' = Some c' → root ∉ mm_pages c') →
  vm_ok p (<[mm := c]> X) (fset F mm (root_tree root)).
Proof.
  intros Hk HX Hmm Hlv Hroot Hpg Hown Hz Hfresh. destruct (fe_own_page p root 1 (vk_ok _ _ _ Hk) Hown) as [Hpok _].
  assert (∀ mm' c', <[mm := c]> X !! mm' = Some c' → (mm' = mm ∧ c' = c) ∨ (mm' ≠ mm ∧ X !! mm' = Some c')) as Hin.
  { intros mm' c' [[<- <-]|[? ?]]%lookup_insert_Some; [by left|right]. by split. }
  assert (∀ q, trackers (<[mm := c]> X) q = (trackers X q + tracks c q)%nat) as Htr by (intros; by apply trackers_new).
  assert (∀ mm' q, (mm' = mm ∨ q ≠ root) → (mm' ≠ mm → sole X mm' q) → (mm' = mm → q = root) → sole (<[mm := c]> X) mm' q) as Hsole.
  { intros mm' q Hor Hs Hq k d [[-> ->]|[Hne Hd]]%Hin Hi.
    - rewrite Hpg in Hi. apply list_elem_of_singleton in Hi. subst q. by destruct Hor.
    - destruct (decide (mm' = mm)) as [->|Hne']; [|by apply (Hs Hne' k d)].
      rewrite (Hq eq_refl) in Hi. by apply (Hfresh k d) in Hi. }
  assert (∀ mm' c', mm' ≠ mm → X !! mm' = Some c' → ∀ v e, leaf (pmem p) (F mm') v = Some e → desc_addr e ≠ root) as Hnl.
  { intros mm' c' _ HX' v e Hl Heq. destruct (vk_leaf _ _ _ Hk mm' c' v e HX' Hl) as [Hi _]. rewrite Heq in Hi.
    by apply (Hfresh mm' c'). }
  split.
  - apply Hk.
  - intros mm' c' [[-> ->]|[_ HX']]%Hin; [done|by eapply vk_live].
  - intros mm' c' [[-> ->]|[Hne HX']]%Hin; unfold fset; [rewrite decide_True by done|rewrite decide_False by done; by eapply vk_ctx].
    split; rewrite ?Hpg, ?Hroot.
    + by apply root_tree_ok.
    + intros a ->%root_tabs. by left.
    + intros a ->%list_elem_of_singleton. by eexists.
    + apply NoDup_singleton.
    + done.
  - intros mm' c' a HX' Ha. rewrite Htr. unfold tracks. rewrite Hpg.
    destruct (decide (a ∈ [root])) as [->%list_elem_of_singleton|Hne].
    + rewrite (proj1 (trackers_zero X root) Hfresh). done.
    + apply Hin in HX' as [[-> ->]|[_ HX']]; [by rewrite Hpg in Ha|].
      rewrite Nat.add_0_r. by eapply vk_count.
  - intros mm' c' a [[-> ->]|[Hne HX']]%Hin Ha; unfold fset in Ha.
    + rewrite decide_True in Ha by done. apply root_tabs in Ha as ->. apply Hsole; [by left|done|done].
    + rewrite decide_False in Ha by done.
      assert (a ∈ mm_pages c') as Hi by by apply (cx_tabs _ _ _ (vk_ctx _ _ _ Hk mm' c' HX')).
      apply Hsole; [right; intros ->; by apply (Hfresh mm' c')|intros _; by eapply vk_tabs|done].
  - intros mm' c' v e [[-> ->]|[Hne HX']]%Hin Hl; unfold fset in *.
    + rewrite decide_True in Hl by done. by rewrite root_tree_leaf in Hl.
    + rewrite decide_False in * by done. by eapply vk_leaf.
  - intros mm' c' v1 v2 e1 e2 [[-> ->]|[Hne HX']]%Hin Hl1 Hl2; unfold fset in *.
    + rewrite decide_True in Hl1 by done. by rewrite root_tree_leaf in Hl1.
    + rewrite decide_False in * by done. by eapply (vk_inj _ _ _ Hk mm' c').
  - intros mm' c' v e [[-> ->]|[Hne HX']]%Hin Hl Hw; unfold fset in *.
    + rewrite decide_True in Hl by done. by rewrite root_tree_leaf in Hl.
    + rewrite decide_False in Hl by done. pose proof (Hnl mm' c' Hne HX' v e Hl).
      apply Hsole; [by right|intros _; by eapply (vk_write _ _ _ Hk mm' c')|done].
Qed.

(** ** Creation *)

Lemma wp_free_mm K mm (Q : unit → vstate P → Prop) p t X Y s F :
  vm_ok p Y F → delete mm X = Y → Y !! mm = None → can_lock L_heap (pheld p) = true → fe_live p mm →
  (∀ p', kstep K [] [mm] p Y F p' Y F → Q () (vst p' t Y s)) →
  wp (free_mm mm) Q (vst p t X s).
Proof.
  intros Hk HY Hno Hl Hlv HQ. unfold free_mm. wp_step. apply wp_modify.
  change ((vst p t X s) <| mm_contexts := delete mm (mm_contexts (vst p t X s)) |>) with (vst p t (delete mm X) s).
  rewrite HY. by apply (wp_kfree K mm _ _ _ _ _ F).
Qed.

(** The object was taken and nothing else changed. *)
Lemma kstep_after K B p X F p1 p2 : vm_ok p X F → kstep K B [] p X F p1 X F → vmstep p1 p2 [] nowhere →
  kstep K B [] p X F p2 X F.
Proof.
  intros Hk Hs Hs2. rewrite <- (app_nil_l B). eapply kstep_seq; [exact Hk|exact Hs|].
  apply kstep_step; [apply Hs|done].
Qed.

(** What [mmu_context_create] does when it gives up. *)
Lemma wp_create_undo K mm (Q : Z → vstate P → Prop) p p1 p2 t X Y s F :
  vm_ok p X F → kstep K [mm] [] p X F p1 X F → vmstep p1 p2 [] nowhere → delete mm Y = X →
  can_lock L_heap (pheld p) = true → (∀ p', kstep K [] [] p X F p' X F → Q 0 (vst p' t X s)) →
  wp (free_mm mm ;; mret 0) Q (vst p2 t Y s).
Proof.
  intros Hk Hs1 Hs2 HY Hl HQ. pose proof (kstep_after _ _ _ _ _ _ _ Hk Hs1 Hs2) as Hs.
  destruct (kp_new _ _ _ _ _ _ _ _ _ Hs mm ltac:(by left)) as (Hlm & Hnm & _).
  assert (X !! mm = None) as HX.
  { destruct (X !! mm) as [c|] eqn:Hc; [|done]. exfalso. eapply Hnm. by eapply vk_live. }
  wp_step. apply (wp_free_mm K mm _ _ _ _ X _ F); [apply Hs|done|done| |done|].
  - unfold pheld. by rewrite (proj1 (kp_grows _ _ _ _ _ _ _ _ _ Hs)).
  - intros p3 Hs3. wp_step. apply HQ. apply (kstep_cancel K [] mm p X F p2 X F); [done|by intros ?%elem_of_nil|done|done].
Qed.

(** The new context with its root page. *)
Lemma create_step K mm root c p p1 p4 X F : vm_ok p X F → mm ≠ 0 →
  kstep K [mm] [] p X F p1 X F → vmstep p1 p4 [root] nowhere →
  (∀ i, 0 ≤ i < 512 → mrd (pmem p4) (root + 8 * i) = 0) → mm_root_pa c = root → mm_pages c = [root] →
  X !! mm = None ∧ kstep K [mm] [] p X F p4 (<[mm := c]> X) (fset F mm (root_tree root)).
Proof.
  intros Hk Hmm Hs1 Hs4 Hz Hr Hpg. destruct (vmstep_one _ _ _ _ Hs4) as (Ho4 & Hfree & _ & Hnm4).
  pose proof Hs1 as [Hk1 Hg1 Hc1 Hx1 Hp1 Hn1 Hm1]. pose proof (new_untracked p1 X F root Hk1 Hfree) as Hfresh.
  destruct (Hn1 mm ltac:(by left)) as (Hlm & Hno & Hnew).
  assert (X !! mm = None) as HX.
  { destruct (X !! mm) as [d|] eqn:Hd; [|done]. exfalso. eapply Hno. by eapply vk_live. }
  assert (vm_ok p4 X F ∧ vm_same p1 X F p4) as [Hk4 [Hl4 Hb4]].
  { apply vm_ok_heap; [exact Hk1|apply (vs_ok _ _ _ _ Hs4)| | |].
    - intros w r Hw. apply (vs_mem _ _ _ _ Hs4); [by eapply fe_own_mine; [apply Hk1|exact Hw|]|by intros []].
    - intros q r Hq. rewrite (vs_own _ _ _ _ Hs4), decide_False; [done|]. intros ->%list_elem_of_singleton. congruence.
    - intros mm' d HX'. apply (vs_live _ _ _ _ Hs4). by eapply vk_live. }
  split; [done|]. split.
  - apply vm_ok_new; [done|done|done|by apply (vs_live _ _ _ _ Hs4)|done|done|done|done|done].
  - etrans; [exact Hg1|apply (vs_grows _ _ _ _ Hs4)].
  - intros k d HXk Hnil. destruct (Hc1 k d HXk Hnil) as (_ & Hl1 & Hb1). assert (k ≠ mm) as Hne by congruence.
    unfold fset. rewrite lookup_insert_ne, decide_False by done. split; [done|].
    split; [intros v; by rewrite (Hl4 k d), Hl1|]. intros v e He j Hj. rewrite (Hb4 k d v e), (Hb1 v e); try done.
    by rewrite Hl1.
  - intros k [->|[_ HXk]]%lookup_insert_is_Some; [left; by left|]. by apply Hx1.
  - intros b w Hb. by rewrite (vs_span _ _ _ _ Hs4), Hp1.
  - intros b Hb. destruct (Hn1 b Hb) as (Hlb & Hnb & Hmb). split; [by apply (vs_live _ _ _ _ Hs4)|]. split; [done|].
    intros a. rewrite (vs_span _ _ _ _ Hs4). apply Hmb.
  - intros a Ha Hu Hnil. destruct (Hm1 a Ha Hu Hnil) as (Ha1 & Hu1 & He1). destruct (vs_mem _ _ _ _ Hs4 _ Ha1) as [Ha4 He4].
    split; [done|]. split.
    + intros k d [[<- <-]|[_ HXk]]%lookup_insert_Some; [|by eapply Hu1]. rewrite Hpg.
      intros Hin%list_elem_of_singleton. by apply Hnm4 in Ha1.
    + intros HK. rewrite <- He1 by done. apply rd8_frame, He4. by intros [].
Qed.

Lemma wp_context_create K (Q : Z → vstate P → Prop) p t X s F :
  vm_ok p X F → (∀ mm, can_lock (L_mm mm) (pheld p) = true) → asid_valid (next_asid s) →
  (∀ p' n, kstep K [] [] p X F p' X F → asid_valid n → Q 0 (vst p' t X (s <| next_asid := n |>))) →
  (∀ p' n, kstep K [] [] p X F p' X F → next_asid s = n → Q 0 (vst p' t X s)) →
  (∀ mm root a p' n, let c := MmContext root a 1 0 0 [root] in
     X !! mm = None → mm ≠ 0 → kstep K [mm] [] p X F p' (<[mm := c]> X) (fset F mm (root_tree root)) →
     asid_valid n → asid_valid a → asid_used s a = false →
     Q mm (vst p' t (<[mm := c]> X) (asid_write a true (s <| next_asid := n |>)))) →
  wp mmu_context_create Q (vst p t X s).
Proof.
  intros Hk Hlk Hn HQf HQ0 HQ. pose proof (can_lock_up (L_mm 0) L_heap _ (Hlk 0) ltac:(done)) as Hlh.
  unfold mmu_context_create. wp_step. apply (wp_kmalloc K _ _ _ _ _ _ F); [done|done|done| |].
  { intros p1 Hs1. change (0 =? 0) with true. cbn iota. wp_step. by eapply HQ0. }
  intros mm p1 Hmm _ _ _ Hs1 _. bfalse (mm =? 0). pose proof Hs1 as [Hk1 Hg1 _ _ _ Hn1 _].
  assert (X !! mm = None) as HX.
  { destruct (X !! mm) as [c|] eqn:Hc; [|done]. exfalso. destruct (Hn1 mm ltac:(by left)) as (_ & Hno & _).
    eapply Hno. by eapply vk_live. }
  assert (pheld p1 = pheld p) as Hh1 by apply Hg1. assert (delete mm X = X) as Hdel by by apply delete_id.
  assert (∀ l, rank (L_mm 0) < rank l → can_lock l (pheld p1) = true) as Hcl.
  { intros l Hr. rewrite Hh1. by apply (can_lock_up (L_mm 0) l). }
  wp_step. apply wp_page_alloc; [apply Hk1|by apply Hcl| |].
  { intros p2 Hs2. change (0 =? 0) with true. cbn iota. apply (wp_create_undo K mm _ p p1 _ _ X _ _ F); [done..|].
    intros p' Hs'. by eapply HQ0. }
  intros root p2 Hs2 Hroot Hfree Hzero. pose proof Hroot as [_ Hrr]. bfalse (root =? 0).
  assert (pheld p2 = pheld p1) as Hh2 by by eapply vmstep_held.
  wp_step. apply wp_asid_alloc; [apply (vs_ok _ _ _ _ Hs2)|rewrite Hh2; by apply Hcl|done| |].
  - intros p3 n Hs3 Hn' _. wp_step. apply wp_modify. change (0 =? 0) with true. cbn iota.
    match goal with |- wp _ _ ?st => change st with (vst p3 t (<[mm := MmContext root 0 1 0 0 []]> X) (s <| next_asid := n |>)) end.
    assert (vmstep p1 p3 [root] nowhere) as Hs13 by (by eapply (vmstep_trans _ _ _ [root] []); [exact Hs2|exact Hs3|done|left]).
    wp_step. eapply wp_free_new; [apply Hk1|exact Hs13|by apply Hcl|]. intros p4 Hs4.
    apply (wp_create_undo K mm _ p p1 _ _ X _ _ F); [done|done|done|by rewrite delete_insert_eq|done|].
    intros p' Hs'. by eapply HQf.
  - intros p3 n a Hs3 Hn' Ha Hua. wp_step. apply wp_modify. unfold asid_valid in Ha. bfalse (a =? 0).
    set (s3 := asid_write a true (s <| next_asid := n |>)).
    match goal with |- wp _ _ ?st => change st with (vst p3 t (<[mm := MmContext root a 1 0 0 []]> X) s3) end.
    assert (vmstep p1 p3 [root] nowhere) as Hs13 by (by eapply (vmstep_trans _ _ _ [root] []); [exact Hs2|exact Hs3|done|left]).
    assert (pheld p3 = pheld p) as Hh3 by (rewrite (vmstep_held _ _ _ _ Hs13); done).
    set (c0 := MmContext root a 1 0 0 []). set (X3 := <[mm := c0]> X).
    assert (X3 !! mm = Some c0) as HX3 by apply lookup_insert_eq.
    unfold mmu_context_add_page. bfalse (mm =? 0). bfalse (root =? 0). cbn [orb].
    wp_step. unfold lock_mm. wp_step. wp_step. eapply wp_get_mm; [exact HX3|]. apply wp_vlock; [by rewrite Hh3|].
    wp_step. apply (wp_add_page mm c0); [done|lia|exact HX3|by intros ?%elem_of_nil| |intros _ Hge; exfalso; by apply Hge].
    intros _ _. wp_step. eapply wp_vunlock; [apply pheld_plocks|]. wp_step. cbn [negb]. wp_step.
    unfold X3. rewrite insert_insert_eq. set (p4 := plocks (pheld p3) _).
    assert (vmstep p1 p4 [root] nowhere) as Hs4.
    { eapply (vmstep_trans _ _ _ [root] []); [exact Hs13| |done|by left]. unfold p4.
      apply (vmstep_plocks (L_mm mm :: pheld p3)); [apply (vs_ok _ _ _ _ Hs3)|].
      apply vmstep_refl. apply plocks_owner, (vs_ok _ _ _ _ Hs3). }
    destruct (create_step K mm root (MmContext root a 1 0 0 [root]) p p1 p4 X F) as [_ Hs]; [done|done|done|done| |done|done|].
    { intros i Hi. unfold p4. rewrite !pmem_plocks.
      rewrite (proj2 (vs_mem _ _ _ _ Hs3 (root + 8 * i) ltac:(eapply fe_own_mine; [apply (vs_ok _ _ _ _ Hs2)|apply (vmstep_one _ _ _ _ Hs2)|by apply pg_entry])));
        [by apply Hzero|by intros []]. }
    by apply (HQ mm root a p4 n).
Qed.

(** ** Release *)

Lemma shared_equiv p X F R R' : (∀ a, a ∈ R' ↔ a ∈ R) → shared p X F R → shared p X F R'.
Proof.
  intros HR [? ? ? Hc Hp Ht ? ? ?]. split; try done.
  - intros mm c a HX Ha Hn. apply (Hc mm c a HX Ha). by rewrite <- HR.
  - intros a Ha. apply Hp. by apply HR.
  - intros mm c a HX Ha. destruct (Ht mm c a HX Ha) as [? Hn]. split; [done|]. by rewrite HR.
Qed.

Lemma wp_tlbi_asid a (Q : unit → vstate P → Prop) p t X s : fe_ok p →
  (∀ p', vmstep p p' [] nowhere → Q () (vst p' t X s)) → wp (mmu_tlbi_asid a) Q (vst p t X s).
Proof.
  intros Hp HQ. unfold mmu_tlbi_asid. destruct (a =? 0).
  - wp_step. apply HQ. by apply vmstep_refl.
  - apply wp_mach, wp_modify. apply (HQ (pemit (Ev_tlbi_asid a) p)). by apply vmstep_emit.
Qed.

Lemma vm_same_delete mm p X F p' : vm_same p X F p' → vm_same p (delete mm X) F p'.
Proof.
  intros [Hl Hb]. split.
  - intros k c v [_ HX]%lookup_delete_Some. by apply (Hl k c).
  - intros k c v e [_ HX]%lookup_delete_Some. by apply (Hb k c v).
Qed.

Lemma wp_context_release K mm c (Q : unit → vstate P → Prop) p t X s F :
  vm_ok p X F → X !! mm = Some c → can_lock (L_mm mm) (pheld p) = true →
  asid_valid (mm_asid c) → asid_used s (mm_asid c) = true →
  (∀ p', kstep K [] [mm] p X F p' (delete mm X) F →
     Q () (vst p' t (delete mm X) (asid_write (mm_asid c) false s))) →
  wp (mmu_context_release mm) Q (vst p t X s).
Proof.
  intros Hk HX Hlk Ha Hu HQ. destruct (vk_live _ _ _ Hk mm c HX) as [Hmm Hlv].
  pose proof (cx_nodup _ _ _ (vk_ctx _ _ _ Hk mm c HX)) as Hnd.
  unfold mmu_context_release, lock_mm. wp_step. wp_step. eapply wp_get_mm; [exact HX|]. apply wp_vlock; [done|].
  wp_step. eapply wp_get_mm; [exact HX|]. wp_step. eapply wp_upd_mm; [exact HX|].
  wp_step. eapply wp_vunlock; [apply pheld_plocks|]. set (p1 := plocks (pheld p) _).
  set (Y := <[mm := c <| mm_pages := [] |>]> X).
  assert (vmstep p p1 [] nowhere) as Hs1.
  { apply (vmstep_plocks (L_mm mm :: pheld p)); [apply Hk|]. apply vmstep_refl. apply plocks_owner, Hk. }
  wp_step. apply wp_tlbi_asid; [apply (vs_ok _ _ _ _ Hs1)|]. intros p2 Hs2'.
  assert (vmstep p p2 [] nowhere) as Hs2 by (by eapply (vmstep_trans _ _ _ [] []); [exact Hs1|exact Hs2'|done|left]).
  pose proof (vm_ok_step _ _ _ _ Hk Hs2) as Hk2. pose proof (vm_same_step _ _ _ _ Hk Hs2) as Hsm2.
  assert (pheld p2 = pheld p) as Hh2 by by eapply vmstep_held.
  assert (∀ l, rank (L_mm mm) < rank l → can_lock l (pheld p) = true) as Hcl by (intros l Hr; by apply (can_lock_up (L_mm mm) l)).
  wp_step. apply (wp_drop_pages _ _ _ _ (delete mm X) F).
  { eapply shared_equiv; [|by apply (shared_delete p2 X F mm c)]. intros a. by rewrite elem_of_reverse. }
  { by apply NoDup_reversed. }
  { rewrite Hh2. by apply Hcl. }
  intros p3 [Hk3 Hsm3 Hg3 Hlv3 Hm3]. assert (pheld p3 = pheld p) as Hh3 by (rewrite <- Hh2; apply Hg3).
  wp_step. apply wp_asid_free; [apply Hk3|rewrite Hh3; by apply Hcl|done|done|]. intros p4 Hs4.
  assert (vm_same p (delete mm X) F p4) as Hsm4.
  { eapply vm_same_trans; [by apply vm_same_delete|]. eapply vm_same_trans; [exact Hsm3|by eapply vm_same_step]. }
  apply (wp_free_mm K mm _ _ _ Y (delete mm X) _ F).
  - by eapply vm_ok_step.
  - apply delete_insert_eq.
  - apply lookup_delete_eq.
  - rewrite (vmstep_held _ _ _ _ Hs4), Hh3. by apply Hcl.
  - apply (vs_live _ _ _ _ Hs4), Hlv3, (vs_live _ _ _ _ Hs2). done.
  - intros p5 Hs5. apply HQ. eapply kstep_gone; [done|by eexists|exact Hsm4| | | |exact Hs5].
    + etrans; [apply (vs_grows _ _ _ _ Hs2)|]. etrans; [exact Hg3|apply (vs_grows _ _ _ _ Hs4)].
    + intros b w. by rewrite (vs_span _ _ _ _ Hs4), Hlv3, (vs_span _ _ _ _ Hs2).
    + intros w Hw Hun. destruct (vs_mem _ _ _ _ Hs2 w Hw) as [Hw2 He2]. destruct (Hm3 w Hw2) as [Hw3 He3].
      { rewrite elem_of_reverse. by apply (Hun mm c). }
      destruct (vs_mem _ _ _ _ Hs4 w Hw3) as [Hw4 He4]. split; [done|]. rewrite He4, He3, He2; [done|by intros []..].
Qed.

End create.
