(* ===== verification/VmCtx.v ===== *)
(** * The lifecycle of address spaces: references, CPUs and ASIDs

    [life Z p X F s]: the contexts of [X] own distinct ASIDs, no ASID is in
    use without a context, the CPU masks and the per-CPU slots agree, and a
    context outside [Z] has a reference or a CPU.  The operations keep it, and
    [mmu_context_put] and [mmu_context_switch] release a context exactly when
    it loses the last of both. *)

From S2P Require Import Prelude Machine MmuTable MmuBoot Vmsa VmsaWalk VmsaFault VmBits VmsaSpec VmTree VmMap VmOwn VmUnmap VmBytes VmFrame VmFaultSpec VmCopy VmStep VmLife VmCreate.

Open Scope kernel_scope.

(** ** Bits of a CPU mask *)

Lemma cpu_bit_tb i j : 0 ≤ i → Z.testbit (cpu_bit i) j = (i =? j).
Proof. intros Hi. unfold cpu_bit. rewrite Z.shiftl_1_l. by apply tb_pow2. Qed.

Lemma not32_tb x i : 0 ≤ i → Z.testbit (not32 x) i = (i <? 32) && negb (Z.testbit x i).
Proof.
  intros Hi. unfold not32, u32. rewrite <- Z.land_ones, Z.land_spec, Z.lnot_spec, Z.testbit_ones by lia.
  rewrite (proj2 (Z.leb_le 0 i)) by done. by rewrite andb_comm.
Qed.

Lemma mask_ext m m' : 0 ≤ m < 16 → 0 ≤ m' < 16 → (∀ i, 0 ≤ i < 4 → Z.testbit m i = Z.testbit m' i) → m = m'.
Proof.
  intros Hm Hm' Hb. apply Z.bits_inj'. intros i Hi. destruct (decide (i < 4)); [by apply Hb|].
  by rewrite !(tb_below _ 4) by lia.
Qed.

Lemma mask_clear m i j : 0 ≤ m < 16 → 0 ≤ i < 4 → 0 ≤ j < 4 →
  Z.testbit (Z.land m (not32 (cpu_bit i))) j = negb (i =? j) && Z.testbit m j.
Proof.
  intros Hm Hi Hj. rewrite Z.land_spec, not32_tb, cpu_bit_tb by lia. btrue (j <? 32). by rewrite andb_comm.
Qed.
Lemma mask_set m i j : 0 ≤ i → Z.testbit (Z.lor m (cpu_bit i)) j = (i =? j) || Z.testbit m j.
Proof. intros Hi. by rewrite Z.lor_spec, cpu_bit_tb, orb_comm. Qed.

Lemma bits_range m : 0 ≤ m → (∀ i, 4 ≤ i → Z.testbit m i = false) → 0 ≤ m < 16.
Proof.
  intros Hm Hb. split; [done|]. assert (m = m mod 2 ^ 4) as ->; [|by apply Z.mod_pos_bound].
  apply Z.bits_inj'. intros i Hi. destruct (decide (i < 4)).
  - by rewrite Z.mod_pow2_bits_low by lia.
  - by rewrite Z.mod_pow2_bits_high, Hb by lia.
Qed.

Lemma mask_clear_range m i : 0 ≤ m < 16 → 0 ≤ Z.land m (not32 (cpu_bit i)) < 16.
Proof.
  intros Hm. apply bits_range.
  - apply Z.land_nonneg. left; lia.
  - intros j Hj. rewrite Z.land_spec, (tb_below m 4) by lia. done.
Qed.
Lemma mask_set_range m i : 0 ≤ m < 16 → 0 ≤ i < 4 → 0 ≤ Z.lor m (cpu_bit i) < 16.
Proof.
  intros Hm Hi. apply bits_range.
  - apply Z.lor_nonneg. split; [lia|]. unfold cpu_bit. apply Z.shiftl_nonneg. lia.
  - intros j Hj. rewrite mask_set, (tb_below m 4) by lia. rewrite (proj2 (Z.eqb_neq i j)) by lia. done.
Qed.

Section ctx.
Context {P : Type} `{FrameLaws P}.
Implicit Types (p : P) (s : vstate P) (t : treg) (X : gmap Z mm_context) (F : Z → tmap).

(** ** The invariant *)

Definition cpu_of (s : vstate P) (i : Z) : Z := default 0 (mmu_cpu_context s !! i).

Record ctx_state (s : vstate P) (mm : Z) (c : mm_context) : Prop := {
  cs_asid : asid_valid (mm_asid c);
  cs_used : asid_used s (mm_asid c) = true;
  cs_refs : 0 ≤ mm_refs c < 2 ^ 32;
  cs_dying : mm_dying c = if mm_refs c =? 0 then 1 else 0;
  cs_range : 0 ≤ mm_active_cpu_mask c < 16;
  cs_mask : ∀ i, 0 ≤ i < 4 → Z.testbit (mm_active_cpu_mask c) i = (cpu_of s i =? mm);
}.

Definition alive (c : mm_context) : Prop := mm_refs c ≠ 0 ∨ mm_active_cpu_mask c ≠ 0.

Record life (zombie : Z → Prop) p X F s : Prop := {
  lf_ok : vm_ok p X F;
  lf_next : asid_valid (next_asid s);
  lf_ctx : ∀ mm c, X !! mm = Some c → ctx_state s mm c;
  lf_inj : ∀ mm mm' c c', X !! mm = Some c → X !! mm' = Some c' → mm_asid c = mm_asid c' → mm = mm';
  lf_asids : ∀ a, asid_valid a → asid_used s a = true → ∃ mm c, X !! mm = Some c ∧ mm_asid c = a;
  lf_cpu : ∀ i, 0 ≤ i < 4 → cpu_of s i = 0 ∨ is_Some (X !! cpu_of s i);
  lf_alive : ∀ mm c, X !! mm = Some c → ¬ zombie mm → alive c;
}.

Definition nobody (_ : Z) : Prop := False.

(** A mask is empty exactly when no CPU runs in the context. *)
Lemma mask_zero s mm c : ctx_state s mm c → mm_active_cpu_mask c = 0 ↔ ∀ i, 0 ≤ i < 4 → cpu_of s i ≠ mm.
Proof.
  intros [_ _ _ _ Hr Hm]. split.
  - intros Hz i Hi Hc. specialize (Hm i Hi). rewrite Hz, Z.bits_0, Hc, Z.eqb_refl in Hm. done.
  - intros Hn. apply mask_ext; [done|done|]. intros i Hi. rewrite Hm, Z.bits_0 by done.
    by apply Z.eqb_neq, Hn.
Qed.

Lemma life_ok z p p' X F s : life z p X F s → vm_ok p' X F → life z p' X F s.
Proof. intros [_ ? ? ? ? ? ?] Hk. by split. Qed.

Lemma life_weaken (z z' : Z → Prop) p X F s : (∀ mm, z mm → z' mm) → life z p X F s → life z' p X F s.
Proof. intros Hz [? ? ? ? ? ? Ha]. split; try done. intros mm c HX Hn. apply (Ha mm c HX). by intros ?%Hz. Qed.

(** The count and the mask of one context change. *)
Lemma vm_ok_fields p X F mm c c' : vm_ok p X F → X !! mm = Some c → mm_root_pa c' = mm_root_pa c →
  mm_pages c' = mm_pages c → vm_ok p (<[mm := c']> X) F.
Proof.
  intros Hk HX Hr Hp.
  assert (∀ mm' d, <[mm := c']> X !! mm' = Some d → ∃ d0, X !! mm' = Some d0 ∧ mm_root_pa d = mm_root_pa d0 ∧
            mm_pages d = mm_pages d0) as Hin.
  { intros mm' d [[<- <-]|[_ Hd]]%lookup_insert_Some; [by exists c|by exists d]. }
  assert (∀ mm' a, sole X mm' a → sole (<[mm := c']> X) mm' a) as Hsole.
  { intros mm' a Hs k d (d0 & Hd & _ & Hpg)%Hin Ha. rewrite Hpg in Ha. by apply (Hs k d0). }
  assert (∀ a, trackers (<[mm := c']> X) a = trackers X a) as Htr.
  { intros a. pose proof (trackers_update X mm c c' a HX) as Hup. unfold tracks in Hup. rewrite Hp in Hup. lia. }
  split.
  - apply Hk.
  - intros mm' d (d0 & Hd & _)%Hin. by eapply vk_live.
  - intros mm' d (d0 & Hd & Hroot & Hpg)%Hin. destruct (vk_ctx _ _ _ Hk mm' d0 Hd). by split; rewrite ?Hroot, ?Hpg.
  - intros mm' d a (d0 & Hd & _ & Hpg)%Hin Ha. rewrite Hpg in Ha. rewrite Htr. by eapply vk_count.
  - intros mm' d a (d0 & Hd & _)%Hin Ha. apply Hsole. by eapply vk_tabs.
  - intros mm' d v e (d0 & Hd & _ & Hpg)%Hin Hl. rewrite Hpg. by eapply vk_leaf.
  - intros mm' d v1 v2 e1 e2 (d0 & Hd & _)%Hin. by eapply vk_inj.
  - intros mm' d v e (d0 & Hd & _)%Hin Hl Hw. apply Hsole. by eapply vk_write.
Qed.

(** The same change and one of the CPU slots keep the invariant when the new
    fields agree with the slots. *)
Lemma life_update (z z' : Z → Prop) p X F s s' mm c c' : life z p X F s → X !! mm = Some c →
  mm_root_pa c' = mm_root_pa c → mm_pages c' = mm_pages c → mm_asid c' = mm_asid c →
  next_asid s' = next_asid s → asid_bitmap s' = asid_bitmap s →
  ctx_state s' mm c' → (∀ mm' d, mm' ≠ mm → X !! mm' = Some d → ctx_state s' mm' d ∧ (¬ z' mm' → alive d)) →
  (¬ z' mm → alive c') → (∀ i, 0 ≤ i < 4 → cpu_of s' i = 0 ∨ is_Some (X !! cpu_of s' i)) →
  life z' p (<[mm := c']> X) F s'.
Proof.
  intros [Hk Hn Hc Hi Ha Hcpu Hal] HX Hr Hp Has Hnx Hbm Hc' Hoth Hal' Hcpu'.
  assert (∀ mm' d, <[mm := c']> X !! mm' = Some d → ∃ d0, X !! mm' = Some d0 ∧ mm_asid d = mm_asid d0) as Hin.
  { intros mm' d [[<- <-]|[_ Hd]]%lookup_insert_Some; [by exists c|by exists d]. }
  assert (∀ a, asid_used s' a = asid_used s a) as Hu by (intros a; unfold asid_used, asid_word; by rewrite Hbm).
  split.
  - by eapply vm_ok_fields.
  - by rewrite Hnx.
  - intros mm' d [[<- <-]|[Hne Hd]]%lookup_insert_Some; [done|]. by apply Hoth.
  - intros m1 m2 d1 d2 (e1 & H1 & He1)%Hin (e2 & H2 & He2)%Hin He. apply (Hi m1 m2 e1 e2); congruence.
  - intros a Hav Hus. rewrite Hu in Hus. destruct (Ha a Hav Hus) as (mm' & d & Hd & Hda).
    destruct (decide (mm' = mm)) as [->|Hne].
    + exists mm, c'. rewrite lookup_insert_eq. split; [done|]. congruence.
    + exists mm', d. by rewrite lookup_insert_ne.
  - intros i Hi'. destruct (Hcpu' i Hi') as [?|Hs]; [by left|right]. rewrite lookup_insert_is_Some'. by right.
  - intros mm' d [[<- <-]|[Hne Hd]]%lookup_insert_Some; [done|]. by apply Hoth.
Qed.

(** ** Two operations on the counts *)

Lemma wp_lifecycle_lock (Q : unit → vstate P → Prop) p t X s : can_lock L_lifecycle (pheld p) = true →
  Q () (vst (plocks (L_lifecycle :: pheld p) p) t X s) → wp (vlock L_lifecycle) Q (vst p t X s).
Proof. by apply wp_vlock. Qed.

Lemma wp_context_get mm c z (Q : bool → vstate P → Prop) p t X s F :
  life z p X F s → X !! mm = Some c → mm_refs c < 2 ^ 32 - 1 → can_lock L_lifecycle (pheld p) = true →
  (∀ p', vmstep p p' [] nowhere → let acquired := negb (mm_refs c =? 0) in
     let c' := if acquired then c <| mm_refs := mm_refs c + 1 |> else c in
     life z p' (<[mm := c']> X) F s → Q acquired (vst p' t (<[mm := c']> X) s)) →
  wp (mmu_context_get mm) Q (vst p t X s).
Proof.
  intros Hlf HX Hmax Hlk HQ. pose proof (lf_ok _ _ _ _ _ Hlf) as Hk. destruct (vk_live _ _ _ Hk mm c HX) as [Hmm _].
  pose proof (lf_ctx _ _ _ _ _ Hlf mm c HX) as Hc. pose proof Hc as [Hca Hcu Hcr Hcd Hcr' Hcm].
  unfold mmu_context_get. bfalse (mm =? 0). wp_step. apply wp_lifecycle_lock; [done|].
  set (p1 := plocks _ p). wp_step. eapply wp_get_mm; [exact HX|].
  assert (negb (mm_refs c =? 0) && (mm_dying c =? 0) = negb (mm_refs c =? 0)) as ->.
  { rewrite Hcd. by destruct (mm_refs c =? 0). }
  assert (vmstep p (plocks (pheld p) p1) [] nowhere) as Hs.
  { apply (vmstep_plocks (L_lifecycle :: pheld p)); [apply Hk|]. apply vmstep_refl. apply plocks_owner, Hk. }
  specialize (HQ _ Hs). cbv zeta in HQ. pose proof (life_ok _ _ _ _ _ _ Hlf (vm_ok_step _ _ _ _ Hk Hs)) as Hlf'.
  destruct (mm_refs c =? 0) eqn:Hr; bool_to_prop; cbn [negb whenM] in *.
  - wp_step. wp_step. wp_step. eapply wp_vunlock; [apply pheld_plocks|]. wp_step.
    rewrite insert_id in HQ by done. by apply HQ.
  - wp_step. eapply wp_upd_mm; [exact HX|]. rewrite u32_small by lia. wp_step.
    eapply wp_vunlock; [apply pheld_plocks|]. wp_step. apply HQ.
    eapply (life_update z z); [exact Hlf'|exact HX|done|done|done|done|done| | | |apply Hlf].
    + split; try done; cbn [mm_refs mm_dying setf]; [simpl; lia|].
      change (mm_dying c = if mm_refs c + 1 =? 0 then 1 else 0). rewrite Hcd.
      bfalse (mm_refs c =? 0). by bfalse (mm_refs c + 1 =? 0).
    + intros mm' d Hne Hd. split; [by eapply (lf_ctx _ _ _ _ _ Hlf)|]. by eapply (lf_alive _ _ _ _ _ Hlf).
    + intros _. left. cbn. lia.
Qed.

(** ** The last reference *)

Lemma life_release z p p' X F s mm c : life z p X F s → (∀ q, z q → q = mm) → X !! mm = Some c →
  mm_active_cpu_mask c = 0 → vm_ok p' (delete mm X) F →
  life nobody p' (delete mm X) F (asid_write (mm_asid c) false s).
Proof.
  intros [Hk Hn Hc Hi Ha Hcpu Hal] Hz HX Hm Hk'. pose proof (Hc mm c HX) as Hcm.
  assert (∀ mm' d, delete mm X !! mm' = Some d → mm' ≠ mm ∧ X !! mm' = Some d) as Hin by (by intros mm' d [? ?]%lookup_delete_Some).
  assert (∀ a, asid_valid a → asid_used (asid_write (mm_asid c) false s) a = if decide (a = mm_asid c) then false else asid_used s a) as Hu.
  { intros a Hav. apply asid_write_used; unfold asid_valid in *; [|lia]. destruct (cs_asid _ _ _ Hcm). lia. }
  split; [done|done| | | | |].
  - intros mm' d [Hne Hd]%Hin. destruct (Hc mm' d Hd) as [H1 H2 H3 H4 H5 H6]. split; try done.
    rewrite Hu, decide_False by (done || by intros He; apply Hne; eapply Hi). done.
  - intros m1 m2 d1 d2 [_ H1]%Hin [_ H2]%Hin. by eapply Hi.
  - intros a Hav Hua. rewrite Hu in Hua by done. case_decide as Hac; [done|]. destruct (Ha a Hav Hua) as (mm' & d & Hd & <-).
    exists mm', d. rewrite lookup_delete_ne; [done|]. intros ->. congruence.
  - intros i Hi'. destruct (Hcpu i Hi') as [H0'|Hs]; [by left|right].
    change (cpu_of (asid_write (mm_asid c) false s) i) with (cpu_of s i). rewrite lookup_delete_ne; [done|].
    intros He. by apply (proj1 (mask_zero s mm c Hcm) Hm i Hi').
  - intros mm' d [Hne Hd]%Hin _. apply (Hal mm' d Hd). by intros ?%Hz.
Qed.

(** Dropping one reference. *)
Definition dropped_ref (c : mm_context) : mm_context :=
  let r := mm_refs c - 1 in
  let c' := c <| mm_refs := r |> in if r =? 0 then c' <| mm_dying := 1 |> else c'.

Lemma ctx_state_drop s mm c : ctx_state s mm c → mm_refs c ≠ 0 → ctx_state s mm (dropped_ref c).
Proof.
  intros [Ha Hu Hr Hd Hr' Hm] Hnz. unfold dropped_ref. destruct (mm_refs c - 1 =? 0) eqn:Hz.
  - split; try done; [|by cbn; rewrite Hz]. simpl. bool_to_prop. lia.
  - split; try done; [simpl; lia|]. change (mm_dying c = if mm_refs c - 1 =? 0 then 1 else 0).
    rewrite Hz, Hd. by bfalse (mm_refs c =? 0).
Qed.

Lemma wp_context_put K mm c (Q : unit → vstate P → Prop) p t X s F :
  life nobody p X F s → X !! mm = Some c → can_lock L_lifecycle (pheld p) = true →
  (∀ p', vmstep p p' [] nowhere → mm_refs c = 0 → Q () (vst p' t X s)) →
  (∀ p', let c' := dropped_ref c in vmstep p p' [] nowhere → mm_refs c ≠ 0 →
     mm_refs c ≠ 1 ∨ mm_active_cpu_mask c ≠ 0 → life nobody p' (<[mm := c']> X) F s →
     Q () (vst p' t (<[mm := c']> X) s)) →
  (∀ p', let s' := asid_write (mm_asid c) false s in mm_refs c = 1 → mm_active_cpu_mask c = 0 →
     life nobody p' (delete mm X) F s' → kstep K [] [mm] p X F p' (delete mm X) F →
     Q () (vst p' t (delete mm X) s')) →
  wp (mmu_context_put mm) Q (vst p t X s).
Proof.
  intros Hlf HX Hlk HQ0 HQ1 HQ2. pose proof (lf_ok _ _ _ _ _ Hlf) as Hk. destruct (vk_live _ _ _ Hk mm c HX) as [Hmm _].
  pose proof (lf_ctx _ _ _ _ _ Hlf mm c HX) as Hc.
  unfold mmu_context_put. bfalse (mm =? 0). wp_step. apply wp_lifecycle_lock; [done|].
  set (p1 := plocks _ p). wp_step. eapply wp_get_mm; [exact HX|].
  assert (vmstep p (plocks (pheld p) p1) [] nowhere) as Hs.
  { apply (vmstep_plocks (L_lifecycle :: pheld p)); [apply Hk|]. apply vmstep_refl. apply plocks_owner, Hk. }
  set (p2 := plocks (pheld p) p1) in *.
  assert (pheld p1 = L_lifecycle :: pheld p) as Hh1 by apply pheld_plocks.
  destruct (mm_refs c =? 0) eqn:Hr; bool_to_prop.
  { eapply wp_vunlock; [exact Hh1|]. by apply HQ0. }
  pose proof (life_ok _ _ _ _ _ _ Hlf (vm_ok_step _ _ _ _ Hk Hs)) as Hlf2.
  assert (∀ z, (¬ z mm → alive (dropped_ref c)) → life z p2 (<[mm := dropped_ref c]> X) F s) as Hdrop.
  { intros z Hal. eapply (life_update nobody z); [exact Hlf2|exact HX| | | |done|done|by apply ctx_state_drop| |done|apply Hlf2].
    1-3: unfold dropped_ref; by destruct (mm_refs c - 1 =? 0).
    intros mm' d Hne Hd. split; [by eapply (lf_ctx _ _ _ _ _ Hlf)|]. intros _. apply (lf_alive _ _ _ _ _ Hlf mm' d Hd). by intros []. }
  wp_step. eapply wp_upd_mm; [exact HX|]. wp_step.
  assert (∀ Q' : unit → vstate P → Prop, Q' () (vst p1 t (<[mm := dropped_ref c]> X) s) →
    wp (whenM (mm_refs c - 1 =? 0) (upd_mm mm (λ c, c <| mm_dying := 1 |>))) Q' (vst p1 t (<[mm := c <| mm_refs := mm_refs c - 1 |>]> X) s)) as Hwhen.
  { intros Q' HQ'. unfold dropped_ref in HQ'. destruct (mm_refs c - 1 =? 0); cbn [whenM].
    - eapply wp_upd_mm; [apply lookup_insert_eq|]. by rewrite insert_insert_eq.
    - by apply wp_ret. }
  apply Hwhen. wp_step. eapply wp_vunlock; [exact Hh1|]. fold p2.
  set (X2 := <[mm := dropped_ref c]> X) in *.
  destruct ((mm_refs c - 1 =? 0) && (mm_active_cpu_mask c =? 0)) eqn:Hrel; cbn [whenM].
  - apply andb_true_iff in Hrel as [Hr1 Hm]. bool_to_prop. 
    assert (mm_asid (dropped_ref c) = mm_asid c) as Has by (unfold dropped_ref; by destruct (mm_refs c - 1 =? 0)).
    assert (life (λ q, q = mm) p2 X2 F s) as Hlz by (by apply Hdrop).
    assert (delete mm X2 = delete mm X) as Hdel by apply delete_insert_eq.
    pose proof (lf_ctx _ _ _ _ _ Hlz mm (dropped_ref c) (lookup_insert_eq _ _ _)) as Hc2.
    apply (wp_context_release K mm (dropped_ref c) _ _ _ _ _ F); [apply Hlz|apply lookup_insert_eq| |apply Hc2|apply Hc2|].
    { rewrite (vmstep_held _ _ _ _ Hs). by eapply can_lock_up. }
    rewrite Hdel, Has. intros p3 Hs3. apply HQ2; [lia|done| |].
    + rewrite <- Hdel, <- Has. eapply life_release; [exact Hlz|done|apply lookup_insert_eq| |rewrite Hdel; apply Hs3].
      unfold dropped_ref. by destruct (mm_refs c - 1 =? 0).
    + rewrite <- (app_nil_l [mm]). eapply (kstep_trans K [] [] [] [mm]); [exact Hk|by apply kstep_step| |by intros b ?%elem_of_nil|by left].
      rewrite <- Hdel. eapply kstep_update; [exact HX|by left| |by rewrite Hdel].
      unfold dropped_ref. by destruct (mm_refs c - 1 =? 0).
  - wp_step. apply andb_false_iff in Hrel. assert (mm_refs c ≠ 1 ∨ mm_active_cpu_mask c ≠ 0) as Hor.
    { destruct Hrel; bool_to_prop; [left; lia|by right]. }
    apply HQ1; [done|done|done|]. apply Hdrop. intros _. unfold alive, dropped_ref.
    destruct (mm_refs c - 1 =? 0) eqn:Hz; bool_to_prop; simpl; [right|left; lia].
    destruct Hor as [?|?]; [lia|done].
Qed.

(** ** Switching *)

Definition set_cpu (i mm : Z) (s : vstate P) : vstate P :=
  s <| mmu_cpu_context := <[i := mm]> (mmu_cpu_context s) |>.

Lemma cpu_of_set i mm s j : cpu_of (set_cpu i mm s) j = if decide (j = i) then mm else cpu_of s j.
Proof.
  unfold cpu_of, set_cpu. cbn. case_decide as Hj; [by rewrite Hj, lookup_insert_eq|by rewrite lookup_insert_ne].
Qed.
Lemma set_cpu_twice i m1 m2 s : set_cpu i m2 (set_cpu i m1 s) = set_cpu i m2 s.
Proof. unfold set_cpu. cbn. by rewrite insert_insert_eq. Qed.

Definition mask_without (i : Z) (c : mm_context) : mm_context :=
  c <| mm_active_cpu_mask := Z.land (mm_active_cpu_mask c) (not32 (cpu_bit i)) |>.
Definition mask_with (i : Z) (c : mm_context) : mm_context :=
  c <| mm_active_cpu_mask := Z.lor (mm_active_cpu_mask c) (cpu_bit i) |>.

(** A CPU leaves a context. *)
Definition left (i : Z) X s : gmap Z mm_context :=
  match X !! cpu_of s i with Some c => <[cpu_of s i := mask_without i c]> X | None => X end.

Lemma ctx_state_slot i s mm c m : ctx_state s mm c → 0 ≤ i < 4 → mm ≠ m → cpu_of s i ≠ mm →
  ctx_state (set_cpu i m s) mm c.
Proof.
  intros [Ha Hu Hr Hd Hr' Hm] Hi Hne Hc. split; try done. intros j Hj. rewrite cpu_of_set, Hm by done.
  case_decide as Hji; [|done]. subst j. by rewrite !(proj2 (Z.eqb_neq _ _)) by done.
Qed.

Lemma ctx_state_without i s mm c m : ctx_state s mm c → 0 ≤ i < 4 → mm ≠ m →
  ctx_state (set_cpu i m s) mm (mask_without i c).
Proof.
  intros [Ha Hu Hr Hd Hr' Hm] Hi Hne. split; try done; [by apply mask_clear_range|].
  intros j Hj. unfold mask_without. cbn [mm_active_cpu_mask setf]. rewrite cpu_of_set.
  change (Z.testbit (Z.land (mm_active_cpu_mask c) (not32 (cpu_bit i))) j = ((if decide (j = i) then m else cpu_of s j) =? mm)).
  rewrite mask_clear, Hm by done. case_decide as Hji.
  - subst j. rewrite Z.eqb_refl. cbn. symmetry. by apply Z.eqb_neq.
  - by rewrite (proj2 (Z.eqb_neq i j)) by done.
Qed.

Lemma ctx_state_with i s mm c : ctx_state s mm c → 0 ≤ i < 4 → cpu_of s i = 0 →
  ctx_state (set_cpu i mm s) mm (mask_with i c).
Proof.
  intros [Ha Hu Hr Hd Hr' Hm] Hi Hc. split; try done; [by apply mask_set_range|].
  intros j Hj. rewrite cpu_of_set.
  change (Z.testbit (Z.lor (mm_active_cpu_mask c) (cpu_bit i)) j = ((if decide (j = i) then mm else cpu_of s j) =? mm)).
  rewrite mask_set, Hm by lia. case_decide as Hji.
  - subst j. by rewrite !Z.eqb_refl.
  - by rewrite (proj2 (Z.eqb_neq i j)) by done.
Qed.

(** The context that [switch_out] finds dead: without references, and only
    this CPU was in it. *)
Definition dead (i : Z) (X : gmap Z mm_context) (s : vstate P) : Z :=
  let old := cpu_of s i in
  match X !! old with
  | Some c => if negb (mm_dying c =? 0) && (mm_refs c =? 0) && (mm_active_cpu_mask (mask_without i c) =? 0)
              then old else 0
  | None => 0
  end.

Lemma life_left i p X F s : life nobody p X F s → 0 ≤ i < 4 →
  life (λ q, q = dead i X s) p (left i X s) F (set_cpu i 0 s).
Proof.
  intros Hlf Hi. pose proof (lf_ok _ _ _ _ _ Hlf) as Hk. unfold left, dead.
  assert (∀ j, 0 ≤ j < 4 → cpu_of (set_cpu i 0 s) j = 0 ∨ is_Some (X !! cpu_of (set_cpu i 0 s) j)) as Hcpu.
  { intros j Hj. rewrite cpu_of_set. case_decide; [by left|]. by apply Hlf. }
  destruct (X !! cpu_of s i) as [c|] eqn:HX.
  - set (old := cpu_of s i) in *. destruct (vk_live _ _ _ Hk old c HX) as [Hold _].
    pose proof (lf_ctx _ _ _ _ _ Hlf old c HX) as Hc.
    eapply (life_update nobody); [exact Hlf|exact HX|done|done|done|done|done|by apply ctx_state_without| | |exact Hcpu].
    + intros mm' d Hne Hd. split; [|intros _; by apply (lf_alive _ _ _ _ _ Hlf mm' d Hd); intros []].
      apply ctx_state_slot; [by apply (lf_ctx _ _ _ _ _ Hlf)|done|by apply (vk_live _ _ _ Hk mm' d Hd)|done].
    + intros Hno. unfold alive. pose proof (cs_dying _ _ _ Hc) as Hdy.
      change (mm_refs (mask_without i c)) with (mm_refs c).
      destruct (decide (mm_refs c = 0)) as [Hr|]; [|by left]. right. intros Hm. apply Hno.
      rewrite Hdy, Hr, Hm. done.
  - destruct (lf_cpu _ _ _ _ _ Hlf i Hi) as [Hz|Hs]; [|rewrite HX in Hs; by destruct Hs].
    destruct Hlf as [_ Hn Hc Hij Ha Hcp Hal]. split; try done.
    + intros mm c Hd. apply ctx_state_slot; [by apply Hc|done|by apply (vk_live _ _ _ Hk mm c Hd)|].
      rewrite Hz. intros <-. by apply (vk_live _ _ _ Hk 0 c Hd).
    + intros mm c Hd _. apply (Hal mm c Hd). by intros [].
Qed.

Lemma life_entered z i p X F s mm c : life z p X F s → 0 ≤ i < 4 → cpu_of s i = 0 → X !! mm = Some c →
  life z p (<[mm := mask_with i c]> X) F (set_cpu i mm s).
Proof.
  intros Hlf Hi Hz HX. pose proof (lf_ok _ _ _ _ _ Hlf) as Hk.
  pose proof (lf_ctx _ _ _ _ _ Hlf mm c HX) as Hc. destruct (vk_live _ _ _ Hk mm c HX) as [Hmm _].
  eapply (life_update z); [exact Hlf|exact HX|done|done|done|done|done|by apply ctx_state_with| | |].
  - intros mm' d Hne Hd. split; [|by apply (lf_alive _ _ _ _ _ Hlf mm' d Hd)].
    apply ctx_state_slot; [by apply (lf_ctx _ _ _ _ _ Hlf)|done|done|]. rewrite Hz.
    intros <-. by apply (vk_live _ _ _ Hk 0 d Hd).
  - intros _. right. intros H0'. assert (Z.testbit (mm_active_cpu_mask (mask_with i c)) i = false) as Hb by (by rewrite H0', Z.bits_0).
    change (Z.testbit (Z.lor (mm_active_cpu_mask c) (cpu_bit i)) i = false) in Hb.
    rewrite mask_set, Z.eqb_refl in Hb by lia. done.
  - intros j Hj. rewrite cpu_of_set. case_decide; [right; by eexists|by apply Hlf].
Qed.

(** What [switch_in] finds: a context to run, and the root it installs. *)
Definition runs (mm : Z) X : option mm_context :=
  match X !! mm with
  | Some c => if (mm_dying c =? 0) && negb (mm_refs c =? 0) then Some c else None
  | None => None
  end.
Definition entered (i mm : Z) X : gmap Z mm_context :=
  match runs mm X with Some c => <[mm := mask_with i c]> X | None => X end.
Definition slot_of (mm : Z) X : Z := if decide (is_Some (runs mm X)) then mm else 0.
Definition root_of (mm : Z) X s : Z :=
  match runs mm X with
  | Some c => Z.lor (mm_root_pa c) (Z.shiftl (mm_asid c) 48)
  | None => va_to_pa (ttbr0_runtime_empty_root s)
  end.

Lemma wp_switch_out i (Q : Z → vstate P → Prop) p0 p t X s F : life nobody p0 X F s → 0 ≤ i < 4 →
  Q (dead i X s) (vst p t (left i X s) s) → wp (switch_out i (cpu_of s i)) Q (vst p t X s).
Proof.
  intros Hlf Hi HQ. unfold switch_out, dead, left in *. pose proof (lf_ok _ _ _ _ _ Hlf) as Hk.
  destruct (X !! cpu_of s i) as [c|] eqn:HX.
  - destruct (vk_live _ _ _ Hk _ c HX) as [Hold _]. bfalse (cpu_of s i =? 0). wp_step.
    eapply wp_upd_mm; [exact HX|]. wp_step. eapply wp_get_mm; [apply lookup_insert_eq|]. wp_step. exact HQ.
  - destruct (lf_cpu _ _ _ _ _ Hlf i Hi) as [Hz|Hs]; [|rewrite HX in Hs; by destruct Hs].
    rewrite Hz. by apply wp_ret.
Qed.

Lemma wp_switch_in i mm (Q : Z → vstate P → Prop) p t X s : 0 ≤ i < 4 → mm = 0 ∧ X !! mm = None ∨ mm ≠ 0 ∧ is_Some (X !! mm) →
  Q (root_of mm X s) (vst p t (entered i mm X) (set_cpu i (slot_of mm X) s)) → wp (switch_in i mm) Q (vst p t X s).
Proof.
  intros Hi Hmm HQ. unfold switch_in, set_cpu_context, MMU_CPUS, root_of, slot_of, entered in *.
  assert (runs mm X = None → wp (set_cpu_context i 0;; root ← gets ttbr0_runtime_empty_root; mret (va_to_pa root)) Q (vst p t X s)) as Hno.
  { intros Hr. rewrite Hr in HQ. rewrite decide_False in HQ by (by intros [? ?]). wp_step.
    unfold wp, set_cpu_context, MMU_CPUS. btrue (0 <=? i). btrue (i <? 4). cbn [andb]. wp_steps. exact HQ. }
  destruct Hmm as [[-> H0']|[Hne [c HX]]].
  - change (0 =? 0) with true. cbn iota. wp_step. wp_step. apply Hno. unfold runs. by rewrite H0'.
  - bfalse (mm =? 0). wp_step. wp_step. eapply wp_get_mm; [exact HX|]. wp_step. unfold runs in *. rewrite HX in *.
    destruct ((mm_dying c =? 0) && negb (mm_refs c =? 0)); [|by apply Hno].
    rewrite decide_True in HQ by by eexists. wp_step. eapply wp_upd_mm; [exact HX|]. wp_step.
    unfold wp at 1, set_cpu_context. unfold MMU_CPUS. btrue (0 <=? i). btrue (i <? 4). cbn [andb].
    change (wp (c0 ← get_mm mm; mret (Z.lor (mm_root_pa c0) (Z.shiftl (mm_asid c0) 48))) Q
      (vst p t (<[mm := mask_with i c]> X) (set_cpu i mm s))).
    wp_step. eapply wp_get_mm; [apply lookup_insert_eq|]. wp_step. exact HQ.
Qed.

(** The state after a switch. *)
Definition switched (i mm : Z) X s : gmap Z mm_context := delete (dead i X s) (entered i mm (left i X s)).
Definition switched_state (i mm : Z) X s : vstate P :=
  let s' := set_cpu i (slot_of mm (left i X s)) s in
  match X !! dead i X s with Some c => asid_write (mm_asid c) false s' | None => s' end.

Lemma life_enter z i mm p X F s : life z p X F (set_cpu i 0 s) → 0 ≤ i < 4 →
  life z p (entered i mm X) F (set_cpu i (slot_of mm X) s).
Proof.
  intros Hlf Hi. unfold entered, slot_of. destruct (runs mm X) as [c|] eqn:Hr.
  - rewrite decide_True by by eexists. rewrite <- (set_cpu_twice i 0 mm). apply life_entered; [done|done| |].
    + by rewrite cpu_of_set, decide_True.
    + unfold runs in Hr. destruct (X !! mm) as [d|]; [|done]. destruct (_ && _); [|done]. by injection Hr as ->.
  - rewrite decide_False; [done|]. by intros [? ?].
Qed.

(** The dead context is still there, without CPU, and is not the one entered. *)
Lemma dead_entered i mm X s : dead i X s ≠ 0 → ∃ c, X !! dead i X s = Some c ∧
  entered i mm (left i X s) !! dead i X s = Some (mask_without i c) ∧ mm_active_cpu_mask (mask_without i c) = 0.
Proof.
  unfold dead, left. destruct (X !! cpu_of s i) as [c|] eqn:HX; [|done].
  destruct (_ && _) eqn:Hd; [|done]. intros _. apply andb_true_iff in Hd as [[_ Hr]%andb_true_iff Hm].
  exists c. rewrite HX. split; [done|]. bool_to_prop. split; [|done].
  unfold entered, runs. destruct (decide (mm = cpu_of s i)) as [->|Hne].
  - rewrite lookup_insert_eq. change (mm_refs (mask_without i c)) with (mm_refs c). rewrite Hr.
    change (0 =? 0) with true. rewrite andb_false_r. apply lookup_insert_eq.
  - rewrite lookup_insert_ne by done. destruct (X !! mm) as [d|]; [|apply lookup_insert_eq].
    destruct (_ && _); [rewrite lookup_insert_ne by done|]; apply lookup_insert_eq.
Qed.

Lemma life_nobody p X F s a : life (λ q, q = a) p X F s → X !! a = None → life nobody p X F s.
Proof. intros [? ? ? ? ? ? Ha] Hn. split; try done. intros mm c HX _. apply (Ha mm c HX). intros ->. congruence. Qed.

Lemma vm_same_sub p p' (X Y : gmap Z mm_context) F : vm_same p X F p' →
  (∀ mm c, Y !! mm = Some c → is_Some (X !! mm)) → vm_same p Y F p'.
Proof.
  intros [Hl Hb] HY. split.
  - intros mm c v HX. destruct (HY mm c HX) as [d Hd]. by apply (Hl mm d).
  - intros mm c v e HX. destruct (HY mm c HX) as [d Hd]. by apply (Hb mm d v).
Qed.

Lemma left_dom i X s k : is_Some (left i X s !! k) ↔ is_Some (X !! k).
Proof.
  unfold left. destruct (X !! cpu_of s i) as [c|] eqn:HX; [|done]. rewrite lookup_insert_is_Some'.
  split; [intros [<-|?]; [by eexists|done]|by right].
Qed.
Lemma entered_dom i mm X k : is_Some (entered i mm X !! k) ↔ is_Some (X !! k).
Proof.
  unfold entered, runs. destruct (X !! mm) as [c|] eqn:HX; [|done]. destruct (_ && _); [|done].
  rewrite lookup_insert_is_Some'. split; [intros [<-|?]; [by eexists|done]|by right].
Qed.

Lemma wp_context_switch i mm (Q : unit → vstate P → Prop) p t X s F :
  life nobody p X F s → 0 ≤ i < 4 → m_mmu_enabled (pmach p) = true → can_lock L_lifecycle (pheld p) = true →
  mm = 0 ∨ is_Some (X !! mm) →
  (∀ p', let X' := switched i mm X s in life nobody p' X' F (switched_state i mm X s) → vm_same p X' F p' →
     (∃ l, m_trace (pmach p') = l ++ Ev_ttbr0 (root_of mm (left i X s) s) :: m_trace (pmach p)) → pheld p' = pheld p →
     m_mmu_enabled (pmach p') = true → Q () (vst p' t X' (switched_state i mm X s))) →
  wp (mmu_context_switch i mm) Q (vst p t X s).
Proof.
  intros Hlf Hi Hen Hlk Hmm HQ. pose proof (lf_ok _ _ _ _ _ Hlf) as Hk.
  assert (X !! 0 = None) as HX0.
  { destruct (X !! 0) as [c|] eqn:HX; [|done]. by destruct (vk_live _ _ _ Hk 0 c HX). }
  assert (∀ Y : gmap Z mm_context, (∀ k, is_Some (Y !! k) ↔ is_Some (X !! k)) → Y !! 0 = None) as H0'.
  { intros Y HY. apply eq_None_not_Some. rewrite HY, HX0. by intros [? ?]. }
  unfold mmu_context_switch. wp_step. apply wp_enabled. rewrite Hen. cbn [negb]. wp_step. apply wp_lifecycle_lock; [done|].
  set (p1 := plocks _ p). wp_step. unfold wp at 1, get_cpu_context, MMU_CPUS. btrue (0 <=? i). btrue (i <? 4). cbn [andb].
  change (cpu_context _ i) with (cpu_of s i).
  wp_step. apply (wp_switch_out i _ p p1 t X s F); [done|done|].
  wp_step. apply wp_switch_in; [done| |].
  { destruct Hmm as [->|Hs]; [left; split; [done|]; by apply H0', left_dom|right]. rewrite left_dom. split; [|done].
    destruct Hs as [c HX]. by apply (vk_live _ _ _ Hk mm c HX). }
  set (X2 := entered i mm (left i X s)). set (s2 := set_cpu i _ s). set (root := root_of _ _ _).
  wp_step. eapply wp_vunlock; [apply pheld_plocks|]. set (p2 := plocks (pheld p) p1).
  assert (vmstep p p2 [] nowhere) as Hs2.
  { apply (vmstep_plocks (L_lifecycle :: pheld p)); [apply Hk|]. apply vmstep_refl. apply plocks_owner, Hk. }
  unfold mmu_set_ttbr0, mmu_invalidate_tlb_all. wp_step. apply wp_mach, wp_modify.
  change (sub_set _ p2) with (pemit (Ev_ttbr0 root) p2). set (p3 := pemit _ p2).
  wp_step. apply wp_mach, wp_modify. change (sub_set _ p3) with (pemit Ev_tlbi_all p3). set (p4 := pemit _ p3).
  assert (vmstep p2 p4 [] nowhere) as Hs4.
  { eapply (vmstep_trans _ p3 _ [] []); [apply vmstep_emit, Hs2|apply vmstep_emit|done|by left].
    apply pemit_owner, Hs2. }
  assert (vmstep p p4 [] nowhere) as Hs by (by eapply (vmstep_trans _ p2 _ [] []); [exact Hs2|exact Hs4|done|left]).
  assert (m_trace (pmach p4) = [Ev_tlbi_all] ++ Ev_ttbr0 root :: m_trace (pmach p)) as Htr4.
  { unfold p4, p3, p2, p1, pemit, plocks. by rewrite !pmach_set. }
  pose proof (vm_ok_step _ _ _ _ Hk Hs) as Hk4. pose proof (vm_same_step _ _ _ _ Hk Hs) as Hsm4.
  assert (life (λ q, q = dead i X s) p4 X2 F s2) as Hl4.
  { apply life_enter; [|done]. apply life_left; [|done]. by eapply life_ok. }
  assert (∀ k, is_Some (X2 !! k) ↔ is_Some (X !! k)) as Hdom2 by (intros k; unfold X2; by rewrite entered_dom, left_dom).
  unfold switched_state, switched in HQ. fold X2 s2 root in HQ.
  destruct (dead i X s =? 0) eqn:Hd; bool_to_prop.
  - rewrite Hd, HX0 in HQ. rewrite (delete_id X2 0 (H0' X2 Hdom2)) in HQ. apply wp_ret. apply HQ.
    + rewrite Hd in Hl4. eapply life_nobody; [exact Hl4|by apply H0'].
    + eapply vm_same_sub; [exact Hsm4|]. intros k c HX. apply Hdom2. by eexists.
    + by eexists.
    + apply (vmstep_held _ _ _ _ Hs).
    + rewrite <- Hen. apply (vs_grows _ _ _ _ Hs).
  - destruct (dead_entered i mm X s Hd) as (c & HX & HX2 & Hm). fold X2 in HX2. rewrite HX in HQ.
    pose proof (lf_ctx _ _ _ _ _ Hl4 _ _ HX2) as Hc2. change (mm_asid c) with (mm_asid (mask_without i c)) in *.
    eapply (wp_context_release (λ _, False) _ (mask_without i c) _ _ _ _ _ F); [apply Hl4|exact HX2| |apply Hc2|apply Hc2|].
    { rewrite (vmstep_held _ _ _ _ Hs). by eapply can_lock_up. }
    intros p5 Hs5. pose proof (kstep_same_del _ _ _ _ _ _ _ Hs5) as Hsm5.
    destruct (kp_grows _ _ _ _ _ _ _ _ _ Hs5) as (Hh5 & He5 & l & Hl). apply HQ.
    + eapply life_release; [exact Hl4|done|exact HX2|exact Hm|apply Hs5].
    + eapply vm_same_trans; [|exact Hsm5]. eapply vm_same_sub; [exact Hsm4|].
      intros k d [_ HX']%lookup_delete_Some. apply Hdom2. by eexists.
    + exists (l ++ [Ev_tlbi_all]). rewrite Hl, Htr4. by rewrite <- app_assoc.
    + rewrite <- (vmstep_held _ _ _ _ Hs). exact Hh5.
    + rewrite He5, <- Hen. apply (vs_grows _ _ _ _ Hs).
Qed.

End ctx.
