(* ===== verification/VmSys.v ===== *)
(** * Address spaces as a system

    [vm_call] is one call of the interface the rest of the kernel uses, made
    with no lock held; [vm_reach] are the states such calls reach.  Every call
    whose precondition holds returns, and the invariant of VmOwn and VmCtx
    holds in every reachable state. *)

From S2P Require Import Prelude Machine MmuTable MmuBoot Vmsa VmsaWalk VmsaFault VmBits VmsaSpec VmTree VmMap VmOwn VmUnmap VmBytes VmFrame VmFaultSpec VmCopy VmStep VmLife VmCreate VmCtx.

Open Scope kernel_scope.

Section sys.
Context {P : Type} `{FrameLaws P}.
Implicit Types (p : P) (s : vstate P) (t : treg) (X : gmap Z mm_context) (F : Z → tmap).

(** ** The pages of one context change *)

Lemma life_pages z mm p X F s p' X' F' : life z p X F s → vm_ok p' X' F' →
  (∀ mm', mm' ≠ mm → X' !! mm' = X !! mm') →
  (∀ c, X !! mm = Some c → ∃ l, X' !! mm = Some (c <| mm_pages := l |>)) →
  (X !! mm = None → X' !! mm = None) → life z p' X' F' s.
Proof.
  intros [_ Hn Hc Hi Ha Hcpu Hal] Hk' Hoth Hmm Hno.
  assert (∀ k d, X' !! k = Some d → ∃ d0 l, X !! k = Some d0 ∧ d = d0 <| mm_pages := l |>) as Hin.
  { intros k d Hd. destruct (decide (k = mm)) as [->|Hne].
    - destruct (X !! mm) as [c|] eqn:HX; [|by rewrite Hno in Hd]. destruct (Hmm c eq_refl) as [l Hl].
      exists c, l. split; [done|]. congruence.
    - exists d, (mm_pages d). rewrite <- Hoth by done. split; [done|]. by destruct d. }
  assert (∀ k d0, X !! k = Some d0 → ∃ l, X' !! k = Some (d0 <| mm_pages := l |>)) as Hout.
  { intros k d0 Hd. destruct (decide (k = mm)) as [->|Hne]; [by apply Hmm|].
    exists (mm_pages d0). rewrite Hoth by done. rewrite Hd. by destruct d0. }
  split; [done|done| | | | |].
  - intros k d (d0 & l & Hd & ->)%Hin. by destruct (Hc k d0 Hd).
  - intros m1 m2 d1 d2 (e1 & l1 & H1 & ->)%Hin (e2 & l2 & H2 & ->)%Hin He. by apply (Hi m1 m2 e1 e2).
  - intros a Hav Hu. destruct (Ha a Hav Hu) as (k & d0 & Hd & <-). destruct (Hout k d0 Hd) as [l Hl]. by eexists _, _.
  - intros i Hi'. destruct (Hcpu i Hi') as [?|[d0 Hd]]; [by left|right]. destruct (Hout _ d0 Hd) as [l Hl]. by eexists.
  - intros k d (d0 & l & Hd & ->)%Hin Hz. by apply (Hal k d0 Hd).
Qed.

Lemma life_xfer z K R mm c p X F s p' X' F' : life z p X F s → X !! mm = Some c →
  vm_xfer K R mm p X F p' X' F' → life z p' X' F' s.
Proof.
  intros Hl HX Hx. apply (life_pages z mm p X F); [done|apply Hx|by apply Hx|apply Hx|congruence].
Qed.

Lemma life_frame z mm c p X F s p' X' F' : life z p X F s → X !! mm = Some c →
  vm_frame mm p X F p' X' F' → life z p' X' F' s.
Proof. intros Hl HX Hf. eapply (life_xfer z (λ _, False) (λ _, False)); [done..|by apply xfer_frame]. Qed.

(** A fresh context. *)
Lemma life_create z p X F s mm root a n p' : let c := MmContext root a 1 0 0 [root] in
  life z p X F s → X !! mm = None → mm ≠ 0 → vm_ok p' (<[mm := c]> X) (fset F mm (root_tree root)) →
  asid_valid n → asid_valid a → asid_used s a = false →
  life z p' (<[mm := c]> X) (fset F mm (root_tree root)) (asid_write a true (s <| next_asid := n |>)).
Proof.
  intros c [Hk Hn Hc Hi Ha Hcpu Hal] HX Hmm Hk' Hn' Hav Hua. set (s' := asid_write _ _ _).
  assert (∀ b, asid_valid b → asid_used s' b = if decide (b = a) then true else asid_used s b) as Hu.
  { intros b Hb. unfold s'. rewrite asid_write_used by (unfold asid_valid in *; lia). done. }
  assert (∀ k d, X !! k = Some d → mm_asid d ≠ a) as Hfresh.
  { intros k d Hd He. pose proof (cs_used _ _ _ (Hc k d Hd)). congruence. }
  split; [done|done| | | | |].
  - intros k d [[<- <-]|[Hne Hd]]%lookup_insert_Some.
    + split; try done; [rewrite Hu by done; by rewrite decide_True|]. intros i Hi'. cbn [mm_active_cpu_mask c].
      rewrite Z.bits_0. symmetry. apply Z.eqb_neq. change (cpu_of s' i) with (cpu_of s i).
      destruct (Hcpu i Hi') as [->|[d Hd]]; [by apply not_eq_sym|]. intros He. congruence.
    + destruct (Hc k d Hd) as [H1 H2 H3 H4 H5 H6]. split; try done.
      rewrite Hu, decide_False by (done || by eapply Hfresh). done.
  - intros m1 m2 d1 d2 [[<- <-]|[Hn1 H1]]%lookup_insert_Some [[<- <-]|[Hn2 H2]]%lookup_insert_Some He; [done| | |by eapply Hi].
    + by destruct (Hfresh m2 d2 H2).
    + by destruct (Hfresh m1 d1 H1).
  - intros b Hb Hub. rewrite Hu in Hub by done. case_decide as Hba.
    + exists mm, c. rewrite lookup_insert_eq. by split.
    + destruct (Ha b Hb Hub) as (k & d & Hd & <-). exists k, d. rewrite lookup_insert_ne; [done|congruence].
  - intros i Hi'. change (cpu_of s' i) with (cpu_of s i). destruct (Hcpu i Hi') as [?|Hs]; [by left|right].
    rewrite lookup_insert_is_Some'. by right.
  - intros k d [[<- <-]|[Hne Hd]]%lookup_insert_Some Hz; [by left|by eapply Hal].
Qed.

Lemma life_next z p X F s n p' : life z p X F s → vm_ok p' X F → asid_valid n → life z p' X F (s <| next_asid := n |>).
Proof. intros [_ Hn Hc Hi Ha Hcpu Hal] Hk' Hn'. split; try done. intros mm c HX. by destruct (Hc mm c HX). Qed.

(** ** Calls *)

Inductive vm_call : Type :=
  | Create
  | Get (mm : Z)
  | Put (mm : Z)
  | Switch (cpu mm : Z)
  | Fault (q far esr : Z)
  | CopyTo (cur : option (Z * Z)) (mm dst_va src len : Z)
  | CopyFrom (cur : option (Z * Z)) (mm dst src_va len : Z)
  | UnmapRange (mm va len : Z).

Definition b2z (b : bool) : Z := if b then 1 else 0.

Definition vm_exec (c : vm_call) : M (vstate P) Z :=
  match c with
  | Create => mmu_context_create
  | Get mm => r ← mmu_context_get mm; mret (b2z r)
  | Put mm => mmu_context_put mm ;; mret 0
  | Switch cpu mm => mmu_context_switch cpu mm ;; mret 0
  | Fault q far esr => r ← mmu_handle_process_page_fault q far esr; mret (b2z r)
  | CopyTo cur mm dst_va src len => r ← mmu_copy_to_user cur mm dst_va src len; mret (b2z r)
  | CopyFrom cur mm dst src_va len => r ← mmu_copy_from_user cur mm dst src_va len; mret (b2z r)
  | UnmapRange mm va len => r ← mmu_unmap_user_range mm va len; mret (b2z r)
  end.

(** A kernel buffer that clients own and that is in no address space. *)
Definition kernel_buffer p X (buf len : Z) : Prop :=
  buf ≠ 0 ∧ kbuf buf len ∧ u64 buf = buf ∧ ∀ i, 0 ≤ i < len →
    fe_mine p (word_of (va_to_pa buf + i)) ∧ untracked X (word_of (va_to_pa buf + i)).

(** The process object [q] describes the address space [mm]. *)
Definition runs_in p X s (q mm : Z) : Prop :=
  q ≠ 0 ∧ ∃ pr, processes s !! q = Some pr ∧ pr_mm pr = mm ∧ is_Some (X !! mm) ∧
    Forall (region_src p X) (pr_regions pr).

Definition vm_pre s (c : vm_call) : Prop :=
  let X := mm_contexts s in let p := venv s in
  match c with
  | Create => True
  | Get mm => ∃ c, X !! mm = Some c ∧ mm_refs c < 2 ^ 32 - 1
  | Put mm => is_Some (X !! mm)
  | Switch cpu mm => 0 ≤ cpu < 4 ∧ (mm = 0 ∨ is_Some (X !! mm))
  | Fault q far esr => (∃ mm, runs_in p X s q mm) ∧ 0 ≤ far < 2 ^ 64
  | CopyTo cur mm va buf len | CopyFrom cur mm buf va len =>
      is_Some (X !! mm) ∧ 0 ≤ va ∧ 0 ≤ len ∧ va + len ≤ 2 ^ 48 ∧ kernel_buffer p X buf len ∧
      (faulting_process cur mm ≠ 0 → runs_in p X s (faulting_process cur mm) mm)
  | UnmapRange mm va len => is_Some (X !! mm) ∧ 0 ≤ va ∧ 0 ≤ len ∧ va + len + PAGE_SIZE ≤ 2 ^ 64
  end.

(** The state between two calls. *)
Definition vm_inv s : Prop := (∃ F, life nobody (venv s) (mm_contexts s) F s) ∧
  pheld (venv s) = [] ∧ m_mmu_enabled (pmach (venv s)) = true.

Lemma vm_inv_intro p t X F s : life nobody p X F s → pheld p = [] → m_mmu_enabled (pmach p) = true →
  vm_inv (vst p t X s).
Proof.
  intros [Hk Hn Hc Hi Ha Hcpu Hal] Hh He. split; [|by split]. exists F. split; try done.
  intros mm c HX. by destruct (Hc mm c HX).
Qed.

Lemma vm_inv_grows p p' t X F s : life nobody p' X F s → grows (pmach p) (pmach p') → pheld p = [] →
  m_mmu_enabled (pmach p) = true → vm_inv (vst p' t X s).
Proof. intros Hl (Hh & He & _) Hp Hen. eapply vm_inv_intro; [done| |congruence]. unfold pheld in *. congruence. Qed.

Lemma xfer_held K R mm p X F p' X' F' : vm_xfer K R mm p X F p' X' F' → grows (pmach p) (pmach p').
Proof. by intros []. Qed.

Lemma no_lock p l : pheld p = [] → can_lock l (pheld p) = true.
Proof. by intros ->. Qed.

Section calls.
Variables (p : P) (t : treg) (X : gmap Z mm_context) (s : vstate P) (F : Z → tmap).
Hypotheses (Hl : life nobody p X F s) (Hh : pheld p = []) (He : m_mmu_enabled (pmach p) = true).

Let Hk : vm_ok p X F.
Proof. apply Hl. Qed.

Lemma call_create : wp (vm_exec Create) (λ _, vm_inv) (vst p t X s).
Proof.
  cbn. apply (wp_context_create (λ _, False) _ p t X s F); [done|by intros; apply no_lock|apply Hl| | |].
  - intros p' n Hs Hn. eapply vm_inv_grows; [eapply life_next; [done|apply Hs|done]|apply Hs|done..].
  - intros p' n Hs _. eapply vm_inv_grows; [eapply life_ok; [done|apply Hs]|apply Hs|done..].
  - intros mm root a p' n c HX Hmm Hs Hn Ha Hu. eapply vm_inv_grows; [|apply Hs|done..].
    apply (life_create nobody p X F s mm root a n p'); [done|done|done|apply Hs|done..].
Qed.

Lemma call_get mm c : X !! mm = Some c → mm_refs c < 2 ^ 32 - 1 → wp (vm_exec (Get mm)) (λ _, vm_inv) (vst p t X s).
Proof.
  intros HX Hr. cbn. wp_step. apply (wp_context_get mm c nobody _ p t X s F); [done|done|done|by apply no_lock|].
  intros p1 Hs. cbv zeta. intros Hl1. wp_step. eapply vm_inv_grows; [exact Hl1|apply (vs_grows _ _ _ _ Hs)|done..].
Qed.

Lemma call_put mm c : X !! mm = Some c → wp (vm_exec (Put mm)) (λ _, vm_inv) (vst p t X s).
Proof.
  intros HX. cbn. wp_step. apply (wp_context_put (λ _, False) mm c _ p t X s F); [done|done|by apply no_lock| | |].
  - intros p' Hs _. wp_step. eapply vm_inv_grows; [eapply life_ok; [done|by eapply vm_ok_step]|apply (vs_grows _ _ _ _ Hs)|done..].
  - intros p' c' Hs _ _ Hl'. wp_step. eapply vm_inv_grows; [done|apply (vs_grows _ _ _ _ Hs)|done..].
  - intros p' s' _ _ Hl' Hs. wp_step. eapply vm_inv_grows; [done|apply Hs|done..].
Qed.

Lemma call_switch i mm : 0 ≤ i < 4 → mm = 0 ∨ is_Some (X !! mm) → wp (vm_exec (Switch i mm)) (λ _, vm_inv) (vst p t X s).
Proof.
  intros Hi Hmm. cbn. wp_step. apply (wp_context_switch i mm _ p t X s F); [done|done|done|by apply no_lock|done|].
  intros p' X' Hl' _ _ Hh' He'. wp_step. apply (vm_inv_intro p' t X' F); [done|congruence|congruence].
Qed.

Lemma call_fault q far esr mm : runs_in p X s q mm → 0 ≤ far < 2 ^ 64 →
  wp (vm_exec (Fault q far esr)) (λ _, vm_inv) (vst p t X s).
Proof.
  intros (Hq & pr & Hpr & <- & [c HX] & Hreg) Hfar. cbn. wp_step.
  apply (wp_fault q pr c far esr _ p t X s F); [done|done|done|done|by apply no_lock|done| | |].
  - eapply Forall_impl; [exact Hreg|]. by intros r [? _].
  - intros p' t' X' F' Hf. wp_step. eapply vm_inv_grows; [by eapply life_frame|apply Hf|done..].
  - intros p' t' X' F' Hf _. wp_step. eapply vm_inv_grows; [by eapply life_frame|apply Hf|done..].
Qed.

Lemma runs_in_cur cur mm : (faulting_process cur mm ≠ 0 → runs_in p X s (faulting_process cur mm) mm) →
  cur_ok cur mm p X s.
Proof.
  intros Hc Hq. destruct (Hc Hq) as (_ & pr & Hpr & Hmm & _ & Hreg). split; [by apply no_lock|]. by exists pr.
Qed.

Lemma call_copy cur mm buf va len w : is_Some (X !! mm) → 0 ≤ va → 0 ≤ len → va + len ≤ 2 ^ 48 → kernel_buffer p X buf len →
  (faulting_process cur mm ≠ 0 → runs_in p X s (faulting_process cur mm) mm) →
  wp (mmu_copy_user_range cur mm buf va len w) (λ _, vm_inv) (vst p t X s).
Proof.
  intros [c HX] Hva Hlen Hend (Hnz & Hkb & Hub & Hker) Hcur.
  apply (wp_copy_user_range cur mm w buf va len s p X F c); [done|done|by apply no_lock|by apply runs_in_cur|done..|].
  intros r s' (j & p' & t' & X' & F' & -> & Hc & _). destruct Hc as [Hx _].
  eapply vm_inv_grows; [by eapply life_xfer|by eapply xfer_held|done..].
Qed.

Lemma call_unmap mm va len : is_Some (X !! mm) → 0 ≤ va → 0 ≤ len → va + len + PAGE_SIZE ≤ 2 ^ 64 →
  wp (vm_exec (UnmapRange mm va len)) (λ _, vm_inv) (vst p t X s).
Proof.
  intros [c HX] Hva Hlen Hend. cbn. wp_step. destruct (decide (len = 0)) as [->|Hne].
  - unfold mmu_unmap_user_range. change (0 =? 0) with true. rewrite orb_true_r. wp_step. wp_step.
    by apply (vm_inv_intro p t X F).
  - apply (wp_unmap_range mm c va len _ p t X s F); [done|done|by apply no_lock|done|lia|done|].
    intros p' c' [Hk' [pages ->] Hg _ _]. wp_step. eapply vm_inv_grows; [|done..].
    apply (life_pages nobody mm p X F); [done|done| | |congruence].
    + intros mm' Hne'. by rewrite lookup_insert_ne.
    + intros c0 HX0. rewrite lookup_insert_eq. exists pages. congruence.
Qed.

End calls.

Lemma vm_call_ok s c : vm_inv s → vm_pre s c → wp (vm_exec c) (λ _, vm_inv) s.
Proof.
  intros ([F Hl] & Hh & He) Hpre. rewrite (vst_self s). destruct c; cbn [vm_pre] in Hpre.
  - by eapply call_create.
  - destruct Hpre as (c & HX & Hr). by eapply call_get.
  - destruct Hpre as [c HX]. by eapply call_put.
  - destruct Hpre. by eapply call_switch.
  - destruct Hpre as [[mm Hm] Hfar]. by eapply call_fault.
  - destruct Hpre as (HX & Hva & Hlen & Hend & Hb & Hcur). cbn [vm_exec]. wp_step. unfold mmu_copy_to_user.
    destruct (len =? 0) eqn:Hz; [wp_step; wp_step; by eapply vm_inv_intro|]. pose proof Hb as (Hnz & _).
    bfalse (src =? 0). eapply wp_mono; [by eapply call_copy|]. intros r s' Hi. by wp_step.
  - destruct Hpre as (HX & Hva & Hlen & Hend & Hb & Hcur). cbn [vm_exec]. wp_step. unfold mmu_copy_from_user.
    destruct (len =? 0) eqn:Hz; [wp_step; wp_step; by eapply vm_inv_intro|]. pose proof Hb as (Hnz & _).
    bfalse (dst =? 0). eapply wp_mono; [by eapply call_copy|]. intros r s' Hi. by wp_step.
  - destruct Hpre as (HX & Hva & Hlen & Hend). by eapply call_unmap.
Qed.

(** ** Reachable states *)

(** Between calls the owner of the process objects may change them: a call's
    precondition reads them anew. *)
Inductive vm_reach : vstate P → Prop :=
  | vreach_boot s :
      fe_ok (venv s) → pheld (venv s) = [] → m_mmu_enabled (pmach (venv s)) = true →
      mm_contexts s = ∅ → next_asid s = 1 → asid_bitmap s = ∅ → mmu_cpu_context s = ∅ → vm_reach s
  | vreach_call s c r s' : vm_reach s → vm_pre s c → vm_exec c s = Some (r, s') → vm_reach s'
  | vreach_process s q pr : vm_reach s → vm_reach (s <| processes := <[q := pr]> (processes s) |>).

Lemma vm_inv_boot s : fe_ok (venv s) → pheld (venv s) = [] → m_mmu_enabled (pmach (venv s)) = true →
  mm_contexts s = ∅ → next_asid s = 1 → asid_bitmap s = ∅ → mmu_cpu_context s = ∅ → vm_inv s.
Proof.
  intros Hok Hh He HX Hn Hb Hc. split; [|by split]. exists (λ _, ∅). rewrite HX.
  assert (∀ a, asid_used s a = false) as Hu.
  { intros a. unfold asid_used, asid_word. rewrite Hb, lookup_empty. cbn. apply Z.bits_0. }
  split; try (intros *; rewrite lookup_empty; intros ?; done).
  - split; try (intros *; rewrite lookup_empty; intros ?; done). done.
  - rewrite Hn. unfold asid_valid, MMU_ASID_MAX. lia.
  - intros a _. by rewrite Hu.
  - intros i _. left. unfold cpu_of. by rewrite Hc, lookup_empty.
Qed.

Lemma vm_reach_inv s : vm_reach s → vm_inv s.
Proof.
  induction 1 as [s|s c r s' _ IH Hpre Hs|s q pr _ ([F Hl] & Hh & He)].
  - by apply vm_inv_boot.
  - destruct (wp_elim _ _ _ (vm_call_ok s c IH Hpre)) as (r1 & s1 & Hs1 & Hi). congruence.
  - split; [|by split]. exists F. destruct Hl as [? ? Hc ? ? ? ?]. split; try done.
    intros mm c HX. by destruct (Hc mm c HX).
Qed.

End sys.
