(* ===== verification/VmView.v ===== *)
(** * What a user program sees

    [arch_walk] is the translation as the architecture defines it: four
    levels of descriptors read from memory, with no knowledge of the tables
    the kernel keeps.  [user_entry], [user_byte] and [user_can] describe an
    address space through it; the invariant makes them agree with the trees
    of VmTree, so the claims about address spaces are stated with them. *)

From S2P Require Import Prelude Machine MmuTable MmuBoot Vmsa VmsaWalk VmsaFault VmBits VmsaSpec VmTree VmMap VmOwn VmUnmap VmBytes VmFrame VmFaultSpec VmCopy VmStep VmLife VmCreate VmCtx VmSys.

Open Scope kernel_scope.

(** One level: the descriptor's two low bits say table (or page), the address
    is in bits 47 to 12. *)
Definition arch_entry (mem : gmap Z Z) (table va shift : Z) : option Z :=
  let e := mrd mem (table + 8 * ((va / 2 ^ shift) mod 512)) in
  if e mod 4 =? 3 then Some e else None.
Definition arch_addr (e : Z) : Z := (e mod 2 ^ 48) / 4096 * 4096.

Definition arch_walk (mem : gmap Z Z) (root va : Z) : option Z :=
  match arch_entry mem root va 39 with None => None | Some e0 =>
  match arch_entry mem (arch_addr e0) va 30 with None => None | Some e1 =>
  match arch_entry mem (arch_addr e1) va 21 with None => None | Some e2 =>
  arch_entry mem (arch_addr e2) va 12
  end end end.

Lemma arch_addr_desc e : arch_addr e = desc_addr e.
Proof.
  unfold arch_addr, desc_addr. change MMU_DESC_ADDR_MASK with (Z.shiftl (Z.ones 36) 12).
  apply Z.bits_inj'. intros i Hi.
  rewrite Z.land_spec. change 4096 with (2 ^ 12). rewrite <- Z.shiftr_div_pow2, <- Z.shiftl_mul_pow2 by done.
  rewrite !Z.shiftl_spec by done. destruct (decide (i < 12)).
  { rewrite !(Z.testbit_neg_r _ (i - 12)) by lia. by rewrite andb_false_r. }
  rewrite Z.shiftr_spec by lia. replace (i - 12 + 12) with i by lia.
  rewrite Z.testbit_ones by lia. rewrite (proj2 (Z.leb_le 0 (i - 12))) by lia. cbn [andb].
  destruct (decide (i < 48)).
  - rewrite Z.mod_pow2_bits_low by lia. rewrite (proj2 (Z.ltb_lt _ _)) by lia. by rewrite andb_true_r.
  - rewrite Z.mod_pow2_bits_high by lia. rewrite (proj2 (Z.ltb_ge _ _)) by lia. by rewrite andb_false_r.
Qed.

Lemma arch_type_desc e : (e mod 4 =? 3) = desc_table e.
Proof.
  rewrite desc_table_tb. change 4 with (2 ^ 2). rewrite <- Z.land_ones by done.
  assert (Z.land e (Z.ones 2) = 3 ↔ Z.testbit e 0 && Z.testbit e 1 = true) as Hiff.
  { rewrite andb_true_iff. split.
    - intros H3. assert (∀ i, 0 ≤ i < 2 → Z.testbit e i = true) as Hb.
      { intros i Hi. assert (Z.testbit (Z.land e (Z.ones 2)) i = true) as Ht.
        { rewrite H3. assert (i = 0 ∨ i = 1) as [->| ->] by lia; done. }
        rewrite Z.land_spec in Ht. by apply andb_true_iff in Ht as [? _]. }
      split; apply Hb; lia.
    - intros [H0 H1]. apply Z.bits_inj'. intros i Hi. rewrite Z.land_spec, Z.testbit_ones by done.
      destruct (decide (i = 0)) as [->|]; [by rewrite H0|]. destruct (decide (i = 1)) as [->|]; [by rewrite H1|].
      rewrite (proj2 (Z.ltb_ge _ _)), !andb_false_r by lia. symmetry. by apply (tb_below 3 2); lia. }
  destruct (Z.testbit e 0 && Z.testbit e 1).
  - apply Z.eqb_eq. by apply Hiff.
  - apply Z.eqb_neq. by intros ?%Hiff.
Qed.

Section view.
Context {P : Type} `{FrameLaws P}.
Implicit Types (p : P) (s : vstate P) (t : treg) (X : gmap Z mm_context) (T : tmap) (F : Z → tmap).

Lemma arch_level mem T root l x b va k : tree_ok mem T root → T !! (l, x) = Some b → l < 3 →
  match arch_entry mem b va k with
  | Some e => T !! (l + 1, x * 512 + (va / 2 ^ k) mod 512) = Some (arch_addr e)
  | None => T !! (l + 1, x * 512 + (va / 2 ^ k) mod 512) = None
  end.
Proof.
  intros Ht Hb Hl. unfold arch_entry. pose proof (Z.mod_pos_bound (va / 2 ^ k) 512 eq_refl) as Hi.
  pose proof (tr_entry _ _ _ Ht l x b _ Hb Hl Hi) as He. fold (wd mem b ((va / 2 ^ k) mod 512)).
  set (e := wd mem b _) in *. rewrite arch_type_desc. clearbody e.
  destruct (T !! (l + 1, _)) as [a|].
  - destruct He as [-> He]. by rewrite arch_addr_desc, He.
  - unfold desc_table. by rewrite He.
Qed.

Lemma arch_walk_leaf mem T root va : tree_ok mem T root → arch_walk mem root va = leaf mem T (vpn va).
Proof.
  intros Ht. destruct (vpn_split va) as [Hv1 Hv2]. unfold leaf, arch_walk. rewrite Hv1, Hv2.
  unfold pfx3, pfx2, pfx1, L0_INDEX_FOR, L1_INDEX_FOR, L2_INDEX_FOR, L3_INDEX_FOR. rewrite !va_index_eq by lia.
  pose proof (arch_level mem T root 0 0 root va 39 Ht (tr_root _ _ _ Ht) ltac:(done)) as H1. cbn [Z.mul Z.add] in H1.
  set (i0 := (va / 2 ^ 39) mod 512) in *. set (i1 := (va / 2 ^ 30) mod 512). set (i2 := (va / 2 ^ 21) mod 512).
  assert (∀ l l' x i, l' = l + 1 → T !! (l, x) = None → 0 < l → 0 ≤ i < 512 → T !! (l', x * 512 + i) = None) as Hnone.
  { intros l l' x i -> Hn Hl Hi. apply (tree_none mem T root Ht l x i Hn); lia. }
  pose proof (Z.mod_pos_bound (va / 2 ^ 30) 512 eq_refl) as Hb1. pose proof (Z.mod_pos_bound (va / 2 ^ 21) 512 eq_refl) as Hb2.
  destruct (arch_entry mem root va 39) as [e0|]; cycle 1.
  { rewrite (Hnone 2 3 (i0 * 512 + i1) i2); [done|done| |done|done]. by apply (Hnone 1 2 i0 i1). }
  pose proof (arch_level mem T root 1 i0 _ va 30 Ht H1 ltac:(done)) as H2. fold i1 in H2. change (1 + 1) with 2 in H2.
  destruct (arch_entry mem (arch_addr e0) va 30) as [e1|]; cycle 1.
  { rewrite (Hnone 2 3 (i0 * 512 + i1) i2); done. }
  pose proof (arch_level mem T root 2 _ _ va 21 Ht H2 ltac:(done)) as H3. fold i2 in H3. change (2 + 1) with 3 in H3.
  destruct (arch_entry mem (arch_addr e1) va 21) as [e2|]; [|by rewrite H3].
  rewrite H3. unfold arch_entry.
  set (i3 := (va / 2 ^ 12) mod 512). fold (wd mem (arch_addr e2) i3). rewrite arch_type_desc.
  assert (0 ≤ i3 < 512) as Hi3 by by apply Z.mod_pos_bound.
  pose proof (tr_leaf _ _ _ Ht _ _ i3 H3 Hi3) as Hlf. cbv zeta.
  destruct (desc_valid (wd mem (arch_addr e2) i3)) eqn:Hv.
  - specialize (Hlf eq_refl). by rewrite desc_table_tb, <- desc_page_tb, Hlf.
  - unfold desc_table. by rewrite Hv.
Qed.

(** ** Address spaces *)

Definition memory s : gmap Z Z := pmem (venv s).

Definition user_entry s (mm va : Z) : option Z :=
  match mm_contexts s !! mm with
  | Some c => arch_walk (memory s) (mm_root_pa c) va
  | None => None
  end.
Definition user_page s (mm va : Z) : option Z := arch_addr <$> user_entry s mm va.
Definition user_byte s (mm va : Z) : option Z :=
  (λ a, rd8 (memory s) (a + va mod PAGE_SIZE)) <$> user_page s mm va.
(** Whether user code may read ([w = false]) or write there. *)
Definition user_can s (mm : Z) (w : bool) (va : Z) : bool :=
  match user_entry s mm va with Some e => mmu_user_access_allowed e w | None => false end.

Lemma user_entry_leaf p t X s F mm c va : vm_ok p X F → X !! mm = Some c →
  user_entry (vst p t X s) mm va = leaf (pmem p) (F mm) (vpn va).
Proof.
  intros Hk HX. unfold user_entry. change (mm_contexts (vst p t X s)) with X. rewrite HX.
  apply arch_walk_leaf. apply (vk_ctx _ _ _ Hk mm c HX).
Qed.

Lemma user_page_leaf p t X s F mm c va : vm_ok p X F → X !! mm = Some c →
  user_page (vst p t X s) mm va = desc_addr <$> leaf (pmem p) (F mm) (vpn va).
Proof.
  intros Hk HX. unfold user_page. rewrite (user_entry_leaf p t X s F mm c va) by done.
  destruct (leaf _ _ _); [|done]. cbn. by rewrite arch_addr_desc.
Qed.

Lemma user_byte_leaf p t X s F mm c va : vm_ok p X F → X !! mm = Some c →
  user_byte (vst p t X s) mm va = ubyte (pmem p) (F mm) va.
Proof.
  intros Hk HX. unfold user_byte, ubyte. rewrite (user_page_leaf p t X s F mm c va) by done.
  change (memory (vst p t X s)) with (pmem p). by destruct (leaf _ _ _).
Qed.

Lemma user_can_leaf p t X s F mm c w va : vm_ok p X F → X !! mm = Some c →
  user_can (vst p t X s) mm w va = true ↔ uaccess (pmem p) (F mm) w va.
Proof.
  intros Hk HX. unfold user_can, uaccess. rewrite (user_entry_leaf p t X s F mm c va) by done.
  destruct (leaf _ _ _) as [e|]; split; [intros ?; by exists e|intros (e' & He & ?); by simplify_eq|done|by intros (e' & ? & _)].
Qed.

(** The tables the translation of [va] reads. *)
Definition arch_tables (mem : gmap Z Z) (root va : Z) : list Z :=
  match arch_entry mem root va 39 with None => [root] | Some e0 =>
  match arch_entry mem (arch_addr e0) va 30 with None => [root; arch_addr e0] | Some e1 =>
  match arch_entry mem (arch_addr e1) va 21 with
  | None => [root; arch_addr e0; arch_addr e1]
  | Some e2 => [root; arch_addr e0; arch_addr e1; arch_addr e2]
  end end end.

Lemma arch_tables_tabs mem T root va a : tree_ok mem T root → a ∈ arch_tables mem root va → tabs T a.
Proof.
  intros Ht. unfold arch_tables. pose proof (tr_root _ _ _ Ht) as Hr.
  pose proof (arch_level mem T root 0 0 root va 39 Ht Hr ltac:(done)) as H1.
  destruct (arch_entry mem root va 39) as [e0|]; cycle 1.
  { intros ->%list_elem_of_singleton. by eexists. }
  pose proof (arch_level mem T root _ _ _ va 30 Ht H1 ltac:(done)) as H2.
  destruct (arch_entry mem (arch_addr e0) va 30) as [e1|]; cycle 1.
  { rewrite !elem_of_cons, elem_of_nil. intros [->|[->|[]]]; by eexists. }
  pose proof (arch_level mem T root _ _ _ va 21 Ht H2 ltac:(done)) as H3.
  destruct (arch_entry mem (arch_addr e1) va 21) as [e2|];
    rewrite !elem_of_cons, elem_of_nil; intros Ha; destruct_or?; subst; by eexists.
Qed.

(** ** What a call keeps

    Every context but [mm] is translated as before; bytes the user of any
    context saw are the same, except those of [R] in [mm], and no right is
    lost; so are the bytes of the clients of the kernel's allocators, except
    those of [K]. *)
Record user_kept (K R : Z → Prop) (mm : Z) s s' : Prop := {
  uk_other : ∀ mm' va, mm' ≠ mm → user_entry s' mm' va = user_entry s mm' va;
  uk_byte : ∀ mm' va b, 0 ≤ va < 2 ^ 48 → (mm' = mm → ¬ R va) →
    user_byte s mm' va = Some b → user_byte s' mm' va = Some b;
  uk_can : ∀ mm' w va, user_can s mm' w va = true → user_can s' mm' w va = true;
  uk_kernel : ∀ a, fe_mine (venv s) (word_of a) → untracked (mm_contexts s) (word_of a) → ¬ K a →
    rd8 (memory s') a = rd8 (memory s) a;
}.

Lemma user_kept_xfer K R mm p t X s F p' t' X' F' : vm_ok p X F → is_Some (X !! mm) →
  vm_xfer K R mm p X F p' X' F' → user_kept K R mm (vst p t X s) (vst p' t' X' s).
Proof.
  intros Hk [c0 HX0] Hx. pose proof Hx as [Hk' _ _ Hd Hc Ho Hv Hm]. destruct (Hc c0 HX0) as [l Hl].
  assert (∀ mm', X !! mm' = None → X' !! mm' = None) as Hno.
  { intros mm' Hn. destruct (decide (mm' = mm)) as [->|Hne]; [congruence|]. by rewrite (proj1 (Hd mm' Hne)). }
  assert (∀ mm' c, X !! mm' = Some c → ∃ c', X' !! mm' = Some c') as Hyes.
  { intros mm' c HX. destruct (decide (mm' = mm)) as [->|Hne]; [by eexists|]. rewrite (proj1 (Hd mm' Hne)). by eexists. }
  split.
  - intros mm' va Hne. destruct (X !! mm') as [c|] eqn:HX.
    + destruct (Hyes mm' c HX) as [c' HX']. rewrite (user_entry_leaf p' t' X' s F' mm' c'), (user_entry_leaf p t X s F mm' c) by done.
      by apply (Ho mm' c).
    + unfold user_entry. change (mm_contexts (vst p' t' X' s)) with X'. change (mm_contexts (vst p t X s)) with X.
      by rewrite HX, (Hno mm' HX).
  - intros mm' va b Hva HR. destruct (X !! mm') as [c|] eqn:HX; cycle 1.
    { unfold user_byte, user_page, user_entry. change (mm_contexts (vst p t X s)) with X. by rewrite HX. }
    destruct (Hyes mm' c HX) as [c' HX']. rewrite (user_byte_leaf p' t' X' s F' mm' c'), (user_byte_leaf p t X s F mm' c) by done.
    unfold ubyte. destruct (va_split va Hva) as [Hsp Hmod].
    destruct (leaf (pmem p) (F mm') (vpn va)) as [e|] eqn:Hlf; [|done]. intros [= <-].
    destruct (Hv mm' c _ e HX Hlf) as (e' & -> & _ & Hb). cbn. f_equal. apply Hb; [done|]. rewrite Hsp. done.
  - intros mm' w va. destruct (X !! mm') as [c|] eqn:HX; cycle 1.
    { unfold user_can, user_entry. change (mm_contexts (vst p t X s)) with X. by rewrite HX. }
    destruct (Hyes mm' c HX) as [c' HX'].
    rewrite (user_can_leaf p' t' X' s F' mm' c'), (user_can_leaf p t X s F mm' c) by done.
    intros (e & He & Ha). destruct (Hv mm' c _ e HX He) as (e' & He' & Ha' & _). exists e'. by auto.
  - intros a Ha Hu HK. by apply (Hm a Ha Hu).
Qed.

(** The same from a context's tree alone. *)
Lemma user_entry_ctx p t X s T mm c va : ctx_ok p c T → X !! mm = Some c →
  user_entry (vst p t X s) mm va = leaf (pmem p) T (vpn va).
Proof.
  intros Hc HX. unfold user_entry. change (mm_contexts (vst p t X s)) with X. rewrite HX.
  apply arch_walk_leaf. apply Hc.
Qed.

Lemma inv_normal s : vm_inv s → ∃ p t X F, s = vst p t X s ∧ p = venv s ∧ X = mm_contexts s ∧ life nobody p X F s ∧ vm_ok p X F ∧
  pheld p = [] ∧ m_mmu_enabled (pmach p) = true.
Proof.
  intros ([F Hl] & Hh & He). exists (venv s), (vreg s), (mm_contexts s), F. split; [by rewrite <- vst_self|].
  split; [done|]. split; [done|]. split; [done|]. split; [apply Hl|by split].
Qed.

End view.
