(* ===== verification/VmClaims.v ===== *)
(** * Address spaces: the claims

    Stated on whole states, through the architecture's translation (VmView),
    for every layer below that satisfies [FrameLaws]; the witnesses run on the
    kernel's own page allocator and heap (VmEnv). *)

From S2P Require Import Prelude Machine PageAlloc PageAllocSpec PageAllocRefine Heap HeapSpec HeapInv HeapOps HeapClaims MmuTable MmuBoot Vmsa VmsaWalk VmsaFault VmBits VmsaSpec VmTree VmMap VmOwn VmUnmap VmBytes VmFrame VmFaultSpec VmCopy VmEnv VmStep VmLife VmCreate VmCtx VmSys VmView.

Open Scope kernel_scope.

Section claims.
Context {P : Type} `{FrameLaws P}.
Implicit Types (s : vstate P).

(** C28.  Address spaces stay consistent.  In every state that any sequence of
    creations, references, releases, CPU switches, page faults, user copies
    and range unmappings reaches, the invariant holds (page tables are trees of
    pages that no other context and no mapping shares; a page's reference
    count is the number of contexts that own it; ASIDs are distinct and none
    leaks; CPU masks and per-CPU slots agree; a context without reference or
    CPU is gone); and every further call whose precondition holds returns. *)
Theorem address_spaces_stay_consistent s :
  vm_reach s → vm_inv s ∧ ∀ c, vm_pre s c → ∃ r s', vm_exec c s = Some (r, s') ∧ vm_reach s'.
Proof.
  intros Hr. pose proof (vm_reach_inv s Hr) as Hi. split; [exact Hi|]. intros c Hpre.
  destruct (wp_elim _ _ _ (vm_call_ok s c Hi Hpre)) as (r & s' & Hs & _). exists r, s'. split; [exact Hs|].
  by eapply vreach_call.
Qed.

(** C29.  Isolation.  In every reachable state, as the architecture translates
    addresses: a page that user code can write is mapped nowhere else, neither
    in another address space nor at another page of its own; and no page that
    a user address maps to is a translation table of any address space. *)
Theorem user_pages_isolated s :
  vm_reach s →
  (∀ mm va mm' va' a, user_can s mm true va = true → user_page s mm va = Some a →
     user_page s mm' va' = Some a → mm' = mm ∧ vpn va' = vpn va) ∧
  (∀ mm va a mm' c va', user_page s mm va = Some a → mm_contexts s !! mm' = Some c →
     a ∉ arch_tables (memory s) (mm_root_pa c) va').
Proof.
  intros Hr. destruct (inv_normal s (vm_reach_inv s Hr)) as (p & t & X & F & Hs & _ & _ & _ & Hk & _).
  rewrite Hs. clear Hs Hr.
  assert (∀ mm va a, user_page (vst p t X s) mm va = Some a → ∃ c e, X !! mm = Some c ∧
            leaf (pmem p) (F mm) (vpn va) = Some e ∧ desc_addr e = a) as Hin.
  { intros mm va a Ha. destruct (X !! mm) as [c|] eqn:HX.
    - rewrite (user_page_leaf p t X s F mm c) in Ha by done. destruct (leaf _ _ _) as [e|]; [|done].
      injection Ha as <-. by exists c, e.
    - unfold user_page, user_entry in Ha. change (mm_contexts (vst p t X s)) with X in Ha. by rewrite HX in Ha. }
  split.
  - intros mm va mm' va' a Hw (c & e & HX & Hl & <-)%Hin (c' & e' & HX' & Hl' & He)%Hin.
    apply (user_can_leaf p t X s F mm c true va Hk HX) in Hw as (e0 & Hl0 & Hw). rewrite Hl in Hl0. injection Hl0 as <-.
    destruct (vk_leaf _ _ _ Hk mm' c' _ e' HX' Hl') as [Hp _]. rewrite He in Hp.
    pose proof (vk_write _ _ _ Hk mm c _ e HX Hl Hw mm' c' HX' Hp) as ->.
    split; [done|]. by apply (vk_inj _ _ _ Hk mm c _ _ e' e).
  - intros mm va a mm' c' va' (c & e & HX & Hl & <-)%Hin HX' Ht.
    change (mm_contexts (vst p t X s)) with X in HX'. change (memory (vst p t X s)) with (pmem p) in Ht.
    apply (arch_tables_tabs _ (F mm')) in Ht; [|apply (vk_ctx _ _ _ Hk mm' c' HX')].
    destruct (vk_leaf _ _ _ Hk mm c _ e HX Hl) as [Hp Hno].
    pose proof (vk_tabs _ _ _ Hk mm' c' _ HX' Ht mm c HX Hp) as ->. done.
Qed.

(** C30.  The kernel's translation is the architecture's.  For every address
    space and address, [mmu_user_page_pa] returns what the four-level walk of
    the architecture finds, and changes no translation. *)
Theorem translation_is_architectural s mm c va :
  vm_inv s → mm_contexts s !! mm = Some c →
  ∃ s', mmu_user_page_pa mm va s = Some (user_page s mm va, s') ∧
    ∀ mm' va', user_entry s' mm' va' = user_entry s mm' va'.
Proof.
  intros Hi HX. destruct (inv_normal s Hi) as (p & t & X & F & Hs & _ & EX & _ & Hk & Hh & _).
  rewrite <- EX in HX. rewrite Hs. clear Hs EX Hi.
  assert (idle p X mm c (F mm)) as Hid.
  { split; [by eapply vk_live|done|apply Hk|by eapply vk_ctx|by apply no_lock]. }
  assert (wp (mmu_user_page_pa mm va) (λ r s', r = user_page (vst p t X s) mm va ∧
    ∀ mm' va', user_entry s' mm' va' = user_entry (vst p t X s) mm' va') (vst p t X s)) as Hwp.
  { apply (wp_user_page_pa mm c (F mm)); [done|]. intros p' Hst. split; [by rewrite (user_page_leaf p t X s F mm c)|].
    intros mm' va'. destruct (X !! mm') as [d|] eqn:HX'.
    - rewrite (user_entry_leaf p' t X s F mm' d), (user_entry_leaf p t X s F mm' d); [|done|done|by eapply vm_ok_step|done].
      apply (vs_leaves _ _ _ _ (vm_same_step _ _ _ _ Hk Hst) mm' d _ HX').
    - unfold user_entry. change (mm_contexts (vst p' t X s)) with X. change (mm_contexts (vst p t X s)) with X. by rewrite HX'. }
  destruct (wp_elim _ _ _ Hwp) as (r & s' & Hs & -> & Hv). by exists s'.
Qed.

(** What a page fault that was served did, by its status code: the page was
    there already; a page was mapped, with the content and rights of its
    region, or zero for the stack and the legacy heap; or a copy-on-write page
    became writable, its content kept (C31's frame says so). *)
Inductive fault_served s (mm : Z) (pr : process) (far esr : Z) s' : Prop :=
  | fault_spurious :
      fault_type esr = 4 → is_Some (user_entry s mm far) → user_entry s' mm far = user_entry s mm far →
      fault_served s mm pr far esr s'
  | fault_lazy a flags :
      fault_type esr = 4 → user_entry s mm far = None → page_ok a → user_entry s' mm far = Some (page_desc a flags) →
      match find_region far (pr_regions pr) with
      | Some r => flags = vr_flags r ∧
          ∀ k, 0 ≤ k < PAGE_SIZE → rd8 (memory s') (a + k) = region_byte (memory s) r (page_base far) k
      | None => fallback_ok far (pr_brk pr) = true ∧ flags = ANON_FLAGS ∧
          ∀ k, 0 ≤ k < PAGE_SIZE → rd8 (memory s') (a + k) = 0
      end → fault_served s mm pr far esr s'
  | fault_cow e e' :
      fault_type esr = 12 → user_entry s mm far = Some e → Z.testbit e 7 = true → Z.testbit e 55 = true →
      user_entry s' mm far = Some e' →
      (∀ w, mmu_user_access_allowed e' w = mmu_user_access_allowed e false) →
      fault_served s mm pr far esr s'.

(** C31.  Page faults.  A fault of a process whose regions are well formed is
    handled without getting stuck; whatever the result, every other address
    space is translated as before, every byte that users saw reads the same and
    no right is lost, and the bytes of the kernel's own blocks and pages are
    untouched ([user_kept]); pages other
    than the faulting one are translated as before; when the handler reports
    success the fault was served as [fault_served] says. *)
Theorem page_fault_handled s q pr far esr :
  vm_inv s → processes s !! q = Some pr → runs_in (venv s) (mm_contexts s) s q (pr_mm pr) → 0 ≤ far < 2 ^ 48 →
  ∃ r s', mmu_handle_process_page_fault q far esr s = Some (r, s') ∧ vm_inv s' ∧
    user_kept (λ _, False) (λ _, False) (pr_mm pr) s s' ∧
    (r = true → fault_served s (pr_mm pr) pr far esr s').
Proof.
  intros Hi Hpr (Hq & pr' & Hpr' & _ & [c HX] & Hreg) Hfar. rewrite Hpr in Hpr'. injection Hpr' as <-.
  destruct (inv_normal s Hi) as (p & t & X & F & Hs & Ep & EX & Hl & Hk & Hh & He).
  rewrite <- EX, <- Ep in *.
  assert (wp (mmu_handle_process_page_fault q far esr) (λ r s', vm_inv s' ∧ user_kept (λ _, False) (λ _, False) (pr_mm pr) (vst p t X s) s' ∧
    (r = true → fault_served (vst p t X s) (pr_mm pr) pr far esr s')) (vst p t X s)) as Hwp.
  { assert (∀ p' t' X' F', vm_frame (pr_mm pr) p X F p' X' F' → vm_inv (vst p' t' X' s) ∧
      user_kept (λ _, False) (λ _, False) (pr_mm pr) (vst p t X s) (vst p' t' X' s) ∧
      ∃ c', X' !! (pr_mm pr) = Some c' ∧ vm_ok p' X' F') as Hfr.
    { intros p' t' X' F' Hf. split; [eapply vm_inv_grows; [by eapply life_frame|apply Hf|done..]|]. split.
      - eapply user_kept_xfer; [done|by eexists|by apply xfer_frame].
      - destruct (vf_ctx _ _ _ _ _ _ _ Hf c HX) as [l ?]. eexists. split; [done|apply Hf]. }
    apply (wp_fault q pr c far esr _ p t X s F); [done|done|done|done|by apply no_lock|lia| | |].
    - eapply Forall_impl; [exact Hreg|]. by intros r [? _].
    - intros p' t' X' F' Hf. destruct (Hfr p' t' X' F' Hf) as (? & ? & _). by split.
    - intros p' t' X' F' Hf Hsv. destruct (Hfr p' t' X' F' Hf) as (? & ? & c' & HX' & Hk'). split; [done|]. split; [done|].
      intros _. pose proof (user_entry_leaf p t X s F (pr_mm pr) c far Hk HX) as E.
      pose proof (user_entry_leaf p' t' X' s F' (pr_mm pr) c' far Hk' HX') as E'.
      destruct Hsv as [e Ht Hlf Hall|a flags Ht Hn Ha Hlf Hreg'|e e' Ht Hlf H7 H55 Hlf' Hw _].
      + apply fault_spurious; [done|rewrite E, Hlf; by eexists|by rewrite E, E', Hall].
      + apply (fault_lazy _ _ _ _ _ _ a flags); [done|by rewrite E|done|by rewrite E', Hlf, decide_True|exact Hreg'].
      + apply (fault_cow _ _ _ _ _ _ e e'); [done|by rewrite E|done|done|by rewrite E', Hlf', decide_True|done]. }
  destruct (wp_elim _ _ _ Hwp) as (r & s' & Hrun & Hres). exists r, s'. by rewrite Hs.
Qed.

Lemma user_kept_same K R mm s : user_kept K R mm s s.
Proof. by split. Qed.

(** C32.  Copies between the kernel and user memory.  [mmu_copy_to_user]
    ([w] true) and [mmu_copy_from_user] ([w] false) of a kernel buffer always
    return, page faults taken on the way included; only the destination bytes
    change ([user_kept]); on success the user's bytes and the kernel's are
    equal and the user may access all of them; on failure there was a byte of
    the range that the user could not access. *)
Theorem user_copy_correct s (w : bool) cur mm c va buf len :
  vm_inv s → mm_contexts s !! mm = Some c → 0 ≤ va → 0 ≤ len → va + len ≤ 2 ^ 48 →
  kernel_buffer (venv s) (mm_contexts s) buf len →
  (faulting_process cur mm ≠ 0 → runs_in (venv s) (mm_contexts s) s (faulting_process cur mm) mm) →
  ∃ r s', (if w then mmu_copy_to_user cur mm va buf len else mmu_copy_from_user cur mm buf va len) s = Some (r, s') ∧
    vm_inv s' ∧
    user_kept (λ a, w = false ∧ va_to_pa buf ≤ a < va_to_pa buf + len) (λ a, w = true ∧ va ≤ a < va + len) mm s s' ∧
    (r = true → ∀ i, 0 ≤ i < len → user_can s' mm w (va + i) = true ∧
       user_byte s' mm (va + i) = Some (rd8 (memory s') (va_to_pa buf + i))) ∧
    (r = false → ∃ i, 0 ≤ i < len ∧ user_can s mm w (va + i) = false).
Proof.
  intros Hi HX Hva Hlen Hend Hb Hcur. pose proof Hb as (Hnz & Hkb & Hub & Hker).
  assert (∀ m, wp (mmu_copy_user_range cur mm buf va len w) m s → len ≠ 0 →
            wp (if w then mmu_copy_to_user cur mm va buf len else mmu_copy_from_user cur mm buf va len) m s) as Hcopy.
  { intros m Hm Hne. destruct w.
    - unfold mmu_copy_to_user. bfalse (len =? 0). bfalse (buf =? 0). exact Hm.
    - unfold mmu_copy_from_user. bfalse (len =? 0). bfalse (buf =? 0). exact Hm. }
  destruct (decide (len = 0)) as [->|Hne].
  { exists true, s. split; [by destruct w|]. split; [done|]. split; [apply user_kept_same|]. split; [lia|done]. }
  destruct (inv_normal s Hi) as (p & t & X & F & Hs & Ep & EX & Hl & Hk & Hh & He).
  rewrite <- EX, <- Ep in *. apply wp_elim, Hcopy; [|done]. rewrite Hs.
  apply (wp_copy_user_range cur mm w buf va len s p X F c); [done|done|by apply no_lock|by apply runs_in_cur|done..|].
  intros r s' (j & p' & t' & X' & F' & -> & [Hx Hsame] & Hj).
  destruct (xf_ctx _ _ _ _ _ _ _ _ _ Hx c HX) as [l HX'].
  split; [eapply vm_inv_grows; [by eapply life_xfer|by eapply xfer_held|done..]|].
  split; [eapply user_kept_xfer; [done|by eexists|exact Hx]|]. split.
  - intros ->. subst j. intros i Hi'. destruct (Hsame i Hi') as [Hb' Ha].
    rewrite (user_byte_leaf p' t' X' s F' mm _ _ (xf_ok _ _ _ _ _ _ _ _ _ Hx) HX'). split; [|exact Hb'].
    by apply (user_can_leaf p' t' X' s F' mm _ w _ (xf_ok _ _ _ _ _ _ _ _ _ Hx) HX').
  - intros ->. destruct Hj as [Hj Hn]. exists j. split; [done|]. apply not_true_is_false. intros Ht.
    by apply Hn, (user_can_leaf p t X s F mm c w).
Qed.

(** The pages [range_cut] removes, in addresses. *)
Lemma range_firsts va len a : 0 ≤ va → 0 < len → va + len ≤ 2 ^ 48 → 0 ≤ a < 2 ^ 48 →
  vpn a ∈ (λ b, first_page (vpn b)) <$> range_pages va len ↔
  (a / PAGE_SIZE) mod 512 = 0 ∧ va / 2 ^ 21 ≤ a / 2 ^ 21 ≤ (va + len - 1) / 2 ^ 21.
Proof.
  intros Hva Hlen Hhi Ha.
  assert (∀ v, 0 ≤ v < 2 ^ 48 → vpn v = v / 4096) as Hvpn.
  { intros v Hv. rewrite vpn_eq by lia. unfold PAGE_SIZE. apply Z.mod_small. split; [apply Z.div_pos; lia|].
    apply Z.div_lt_upper_bound; lia. }
  assert (∀ v, v / 2 ^ 21 = v / 4096 / 512) as Hblk by (intros v; by rewrite Z.div_div).
  assert ((va + len + (PAGE_SIZE - 1)) / PAGE_SIZE = (va + len - 1) / 4096 + 1) as Hlast.
  { unfold PAGE_SIZE. rewrite <- Z.div_add by done. f_equal. lia. }
  rewrite (Hvpn a Ha), !Hblk. set (last := (va + len - 1) / 4096) in *. unfold PAGE_SIZE in *.
  assert (va / 4096 ≤ last) as Hle by (apply Z.div_le_mono; lia).
  assert (last * 4096 ≤ va + len - 1) as Hll by (pose proof (Z.div_mod (va + len - 1) 4096 ltac:(done)); pose proof (Z.mod_pos_bound (va + len - 1) 4096 eq_refl); lia).
  assert (∀ k, va / 4096 ≤ k ≤ last → vpn (k * 4096) = k) as Hk.
  { intros k Hk. pose proof (Z.div_pos va 4096). rewrite Hvpn by lia. by apply Z.div_mul. }
  pose proof (Z.div_mod (a / 4096) 512 ltac:(done)) as Hdm. rewrite list_elem_of_fmap. unfold range_pages. split.
  - intros (b & Hb & (k & -> & Hin)%list_elem_of_fmap). rewrite upto_seqZ, elem_of_seqZ in Hin. unfold PAGE_SIZE in *.
    replace (va / 4096 * 4096 + 4096 * k) with ((va / 4096 + k) * 4096) in Hb by lia. rewrite Hk in Hb by lia.
    unfold first_page in Hb. rewrite Hb. rewrite (Z.mul_comm 512), Z.mod_mul, Z.div_mul by done. split; [done|].
    split; apply Z.div_le_mono; lia.
  - intros [Hm Hr]. set (B := a / 4096 / 512) in *.
    set (k := Z.max (va / 4096) (512 * B)).
    assert (k / 512 = B) as HkB.
    { unfold k. destruct (Z.max_spec (va / 4096) (512 * B)) as [[? ->]|[? ->]].
      - rewrite Z.mul_comm. by apply Z.div_mul.
      - assert (512 * B / 512 ≤ va / 4096 / 512) by (apply Z.div_le_mono; lia).
        rewrite (Z.mul_comm 512), Z.div_mul in * by done. lia. }
    assert (512 * B ≤ last) as HB by (pose proof (Z.div_mod last 512 ltac:(done)); pose proof (Z.mod_pos_bound last 512 eq_refl); lia).
    assert (va / 4096 ≤ k ≤ last) as Hkr by lia.
    exists (k * 4096). split.
    + rewrite Hk by done. unfold first_page. rewrite HkB. lia.
    + apply list_elem_of_fmap. exists (k - va / 4096). unfold PAGE_SIZE. split; [lia|]. rewrite upto_seqZ, elem_of_seqZ. lia.
Qed.

(** C33.  [mmu_unmap_user_range] does not unmap its range.  It reports success,
    but what it clears is the first page of every 2 MiB block that the range
    meets, inside or outside the range: the code reads and clears the entry at
    the address of the level-3 table, entry 0, for every page.  So a mapped page of the
    range stays mapped unless it is the first of its block, and the first page
    of a block is lost when any page of the block is unmapped. *)
Theorem unmap_range_clears_first_pages s mm c va len :
  vm_inv s → mm_contexts s !! mm = Some c → 0 ≤ va → 0 < len → va + len ≤ 2 ^ 48 →
  ∃ s', mmu_unmap_user_range mm va len s = Some (true, s') ∧ vm_inv s' ∧
    ∀ mm' a, 0 ≤ a < 2 ^ 48 → user_entry s' mm' a =
      if decide (mm' = mm ∧ (a / PAGE_SIZE) mod 512 = 0 ∧ va / 2 ^ 21 ≤ a / 2 ^ 21 ≤ (va + len - 1) / 2 ^ 21)
      then None else user_entry s mm' a.
Proof.
  intros Hi HX Hva Hlen Hend. destruct (inv_normal s Hi) as (p & t & X & F & Hs & Ep & EX & Hl & Hk & Hh & He).
  rewrite <- EX in HX. rewrite Hs.
  assert (wp (mmu_unmap_user_range mm va len) (λ r s', r = true ∧ vm_inv s' ∧
    ∀ mm' a, 0 ≤ a < 2 ^ 48 → user_entry s' mm' a =
      if decide (mm' = mm ∧ (a / PAGE_SIZE) mod 512 = 0 ∧ va / 2 ^ 21 ≤ a / 2 ^ 21 ≤ (va + len - 1) / 2 ^ 21)
      then None else user_entry (vst p t X s) mm' a) (vst p t X s)) as Hwp.
  { apply (wp_unmap_range mm c va len _ p t X s F); [done|done|by apply no_lock|done|done|unfold PAGE_SIZE; lia|].
    intros p' c' [Hk' [pages ->] Hg Hlf Ho]. split; [done|]. split.
    - eapply vm_inv_grows; [|done..]. apply (life_pages nobody mm p X F); [done|done| | |congruence].
      + intros mm' Hne'. by rewrite lookup_insert_ne.
      + intros c0 HX0. rewrite lookup_insert_eq. exists pages. congruence.
    - intros mm' a Ha. destruct (decide (mm' = mm)) as [->|Hne].
      + rewrite (user_entry_leaf p' t _ s F mm _ a Hk' (lookup_insert_eq _ _ _)), (user_entry_leaf p t X s F mm c) by done.
        rewrite Hlf. pose proof (range_firsts va len a Hva Hlen Hend Ha) as Hr.
        destruct (decide (vpn a ∈ _)) as [Hin|Hin]; rewrite Hr in Hin.
        * by rewrite decide_True.
        * rewrite decide_False; [done|]. by intros [_ ?].
      + rewrite decide_False by by intros [? _]. destruct (X !! mm') as [d|] eqn:HX'.
        * rewrite (user_entry_leaf p' t _ s F mm' d), (user_entry_leaf p t X s F mm' d); [by apply (Ho mm' d)|done|done|done|by rewrite lookup_insert_ne].
        * unfold user_entry. change (mm_contexts (vst p t X s)) with X. rewrite HX'.
          change (mm_contexts (vst p' t (<[mm:=c <| mm_pages := pages |>]> X) s)) with (<[mm:=c <| mm_pages := pages |>]> X).
          by rewrite lookup_insert_ne, HX'. }
  destruct (wp_elim _ _ _ Hwp) as (r & s' & Hrun & -> & Hres). by exists s'.
Qed.

(** C34.  ASID allocation.  [mmu_asid_alloc] terminates after at most one
    round; it returns 0 only when all of 1 to 255 are in use; any other
    result is an ASID in that range that was free, and it is the only one
    whose use changes. *)
Theorem asid_alloc_bounds s :
  vm_inv s →
  ∃ a s', mmu_asid_alloc s = Some (a, s') ∧ 0 ≤ a ≤ 255 ∧ asid_valid (next_asid s') ∧
    (a = 0 → ∀ b, asid_valid b → asid_used s b = true ∧ asid_used s' b = true) ∧
    (a ≠ 0 → asid_used s a = false ∧ ∀ b, asid_valid b → asid_used s' b = (b =? a) || asid_used s b).
Proof.
  intros Hi. destruct (inv_normal s Hi) as (p & t & X & F & Hs & _ & _ & Hl & Hk & Hh & _). apply wp_elim. rewrite Hs at 1.
  assert (∀ b, asid_used (vst p t X s) b = asid_used s b) as Hus by done.
  apply wp_asid_alloc; [apply Hk|by apply no_lock|apply Hl| |].
  - intros p' n _ Hn Hall. split; [lia|]. split; [done|]. split; [|done]. intros _ b Hb. split; by apply Hall.
  - intros p' n a _ Hn Ha Hu. unfold asid_valid, MMU_ASID_MAX in Ha. split; [lia|]. split; [done|]. split; [lia|].
    intros _. split; [done|]. intros b Hb. unfold asid_valid in Hb.
    change (asid_used (asid_write a true (s <| next_asid := n |>)) b = (b =? a) || asid_used s b).
    rewrite asid_write_used by lia. case_decide as Hba.
    + subst b. by rewrite Z.eqb_refl.
    + rewrite (proj2 (Z.eqb_neq b a)) by done. done.
Qed.

(** C35.  Mapping refines a finite map.  [mmu_map_user_page] always returns;
    when it succeeds the translation is updated at exactly one page of one
    address space, to the descriptor of the code; when it fails (no page for
    a table, or no room to own it) no translation of any address space
    changes. *)
Theorem user_map_refines s mm c va pa flags :
  vm_inv s → mm_contexts s !! mm = Some c →
  ∃ r s', mmu_map_user_page mm va pa flags s = Some (r, s') ∧
    ∀ mm' va', user_entry s' mm' va' =
      if r && (mm' =? mm) && (vpn va' =? vpn va) then Some (page_desc pa flags) else user_entry s mm' va'.
Proof.
  intros Hi HX. destruct (inv_normal s Hi) as (p & t & X & F & Hs & _ & EX & _ & Hk & Hh & _).
  rewrite <- EX in HX. apply wp_elim. rewrite Hs. clear Hs EX Hi.
  pose proof (vk_ctx _ _ _ Hk mm c HX) as Hc.
  assert (idle p X mm c (F mm)) as Hid by (split; [by eapply vk_live|done|apply Hk|done|by apply no_lock]).
  assert (∀ p' t' c' new mm' va', vmstep p p' new (tabs (F mm)) → mm' ≠ mm →
    user_entry (vst p' t' (<[mm := c']> X) s) mm' va' = user_entry (vst p t X s) mm' va') as Hoth.
  { intros p' t' c' new mm' va' Hst Hne. destruct (X !! mm') as [d|] eqn:HX'.
    - destruct (ctx_frame p p' new _ d (F mm') Hst (vk_ok _ _ _ Hk) (vk_ctx _ _ _ Hk mm' d HX')) as [Hc' Hlf].
      { intros a Ha Ht. apply (tabs_other p X F mm' d mm c a Hk HX' HX (not_eq_sym Hne) Ha). by apply Hc. }
      rewrite (user_entry_ctx p' t' _ s (F mm') mm' d) by (done || by rewrite lookup_insert_ne).
      by rewrite (user_entry_leaf p t X s F mm' d).
    - unfold user_entry. change (mm_contexts (vst p t X s)) with X. rewrite HX'.
      change (mm_contexts (vst p' t' (<[mm := c']> X) s)) with (<[mm := c']> X). by rewrite lookup_insert_ne, HX'. }
  apply (wp_map mm c (F mm)); [done| |].
  - intros p' t' c' T' new [Hst Hc' _ _ _ Hlf] mm' va'. cbn [andb]. destruct (decide (mm' = mm)) as [->|Hne].
    + rewrite (user_entry_ctx p' t' _ s T' mm c') by (done || apply lookup_insert_eq).
      by rewrite (user_entry_leaf p t X s F mm c), Hlf.
    + by eapply Hoth.
  - intros p' t' c' T' new [Hst Hc' _ _ _ Hlf] mm' va'. cbn [andb]. destruct (Z.eqb_spec mm' mm) as [->|Hne]; cbn [andb].
    + rewrite (user_entry_ctx p' t' _ s T' mm c') by (done || apply lookup_insert_eq).
      rewrite (user_entry_leaf p t X s F mm c), Hlf by done.
      rewrite (desc_page_valid _ (page_desc_page pa flags)). destruct (Z.eqb_spec (vpn va') (vpn va)) as [->|Hv].
      * by rewrite decide_True.
      * by rewrite decide_False.
    + by eapply Hoth.
Qed.

(** C36.  Release.  [mmu_context_put] drops one reference.  It releases the
    context exactly when that was the last one and no CPU runs in it: then the
    context is gone, its ASID is free again, and every other address space
    keeps its translation; otherwise the context stays, dying when no
    reference is left. *)
Theorem context_put_releases_last s mm c :
  vm_inv s → mm_contexts s !! mm = Some c → mm_refs c ≠ 0 →
  ∃ s', mmu_context_put mm s = Some ((), s') ∧ vm_inv s' ∧
    (∀ mm' va, mm' ≠ mm → user_entry s' mm' va = user_entry s mm' va) ∧
    if (mm_refs c =? 1) && (mm_active_cpu_mask c =? 0)
    then mm_contexts s' = delete mm (mm_contexts s) ∧ asid_used s' (mm_asid c) = false
    else ∃ c', mm_contexts s' = <[mm := c']> (mm_contexts s) ∧ mm_refs c' = mm_refs c - 1 ∧
      mm_dying c' = (if mm_refs c =? 1 then 1 else 0) ∧ ∀ va, user_entry s' mm va = user_entry s mm va.
Proof.
  intros Hi HX Hr. destruct (inv_normal s Hi) as (p & t & X & F & Hs & _ & EX & Hl & Hk & Hh & He).
  rewrite <- EX in *. pose proof (lf_ctx _ _ _ _ _ Hl mm c HX) as [Ha Hu Hrr Hd _ _].
  match goal with |- ∃ s', _ ∧ @?R s' => assert (wp (mmu_context_put mm) (λ _ s', R s') s) as Hwp end; cycle 1.
  { destruct (wp_elim _ _ _ Hwp) as ([] & s' & Hrun & Hres). by exists s'. }
  rewrite Hs at 1.
  assert (∀ p' (Y : gmap Z mm_context) s2 mm' va, vm_ok p' Y F → vm_same p Y F p' → (∀ d, Y !! mm' = Some d → ∃ d0, X !! mm' = Some d0) →
    (Y !! mm' = None → X !! mm' = None) → user_entry (vst p' t Y s2) mm' va = user_entry s mm' va) as Hsame.
  { intros p' Y s2 mm' va Hk' [Hlf _] Hin Hout. rewrite Hs. destruct (Y !! mm') as [d|] eqn:HY.
    - destruct (Hin d eq_refl) as [d0 HX']. rewrite (user_entry_leaf p' t Y s2 F mm' d), (user_entry_leaf p t X s F mm' d0) by done.
      by apply (Hlf mm' d).
    - unfold user_entry. change (mm_contexts (vst p t X s)) with X. rewrite (Hout eq_refl).
      change (mm_contexts (vst p' t Y s2)) with Y. by rewrite HY. }
  apply (wp_context_put (λ _, False) mm c _ p t X s F); [done|done|by apply no_lock|done| |].
  - intros p' c' Hst _ Hor Hl'.
    assert ((mm_refs c =? 1) && (mm_active_cpu_mask c =? 0) = false) as ->.
    { apply andb_false_iff. destruct Hor; [left|right]; by apply Z.eqb_neq. }
    assert (vm_same p (<[mm := c']> X) F p') as Hsm.
    { eapply vm_same_sub; [by eapply vm_same_step|]. intros k d [[<- _]|[_ Hd']]%lookup_insert_Some; by eexists. }
    assert (∀ mm' va, user_entry (vst p' t (<[mm := c']> X) s) mm' va = user_entry s mm' va) as Hue.
    { intros mm' va. apply Hsame; [apply Hl'|done| |].
      - intros d [[<- _]|[_ Hd']]%lookup_insert_Some; by eexists.
      - by intros [? ?]%lookup_insert_None. }
    split; [eapply vm_inv_grows; [done|apply (vs_grows _ _ _ _ Hst)|done..]|]. split; [done|].
    assert (mm_refs c' = mm_refs c - 1 ∧ mm_dying c' = if mm_refs c =? 1 then 1 else 0) as [E1 E2].
    { unfold c', dropped_ref. destruct (mm_refs c - 1 =? 0) eqn:Hz; bool_to_prop.
      - by rewrite (proj2 (Z.eqb_eq (mm_refs c) 1)) by lia.
      - rewrite (proj2 (Z.eqb_neq (mm_refs c) 1)) by lia. split; [done|]. change (mm_dying c = 0).
        rewrite Hd. by bfalse (mm_refs c =? 0). }
    exists c'. split; [done|]. split; [exact E1|]. split; [exact E2|]. intros va. apply Hue.
  - intros p' s2 Hr1 Hm Hl' Hst. pose proof (kstep_same_del _ _ _ _ _ _ _ Hst) as Hsm.
    pose proof (kp_grows _ _ _ _ _ _ _ _ _ Hst) as Hg. rewrite Hr1, Hm. change ((1 =? 1) && (0 =? 0)) with true. cbn iota.
    split; [by eapply vm_inv_grows|]. split.
    + intros mm' va Hne. apply Hsame; [apply Hl'|done| |].
      * intros d [_ Hd']%lookup_delete_Some. by eexists.
      * intros [?|?]%lookup_delete_None; [congruence|done].
    + split; [done|]. change (asid_used (asid_write (mm_asid c) false s) (mm_asid c) = false).
      unfold asid_valid in Ha. rewrite asid_write_used by lia. by rewrite decide_True.
Qed.

End claims.

(** ** Witnesses: a machine with 32 free pages *)

Definition vm_pa : pastate :=
  match page_allocator_init 0x47FE0000 pastate0 with Some (_, s) => s | None => pastate0 end.
Definition vm_heap0 : kheap := HState vm_pa 0 0 0 0 0 0.
Definition vm_heap : kheap := match kernel_heap_init vm_heap0 with Some (_, h) => h | None => vm_heap0 end.
(** A page of the kernel's own. *)
Definition vm_buf : Z := match fe_alloc vm_heap with Some (a, _) => a | None => 0 end.
Definition vm_env : kheap := match fe_alloc vm_heap with Some (_, h) => h | None => vm_heap end.

Lemma vm_pa_ok : pa_ok vm_pa.
Proof.
  apply (pa_reach_ok 0x47FE0000); [by vm_compute|]. apply (reach_boot _ pastate0); [reflexivity|].
  assert (wp (page_allocator_init 0x47FE0000) (λ _ _, True) pastate0) as Hwp.
  { eapply wp_mono; [apply page_allocator_init_spec|done]. by vm_compute. }
  apply wp_elim in Hwp as ([] & s & Hs & _). unfold vm_pa. rewrite Hs. reflexivity.
Qed.

Lemma vm_heap_init : kernel_heap_init vm_heap0 = Some ((), vm_heap).
Proof.
  destruct (wp_elim _ _ _ (kernel_heap_init_spec vm_heap0 (ok_inv _ vm_pa_ok) (ok_lock _ vm_pa_ok)))
    as ([] & h & Hs & _). unfold vm_heap. rewrite Hs. reflexivity.
Qed.

Lemma vm_heap_reach : heap_reach vm_heap.
Proof. apply (hreach_init vm_heap0); [apply vm_pa_ok|vm_compute; reflexivity|apply vm_heap_init]. Qed.

Lemma vm_env_ok : fe_ok vm_env.
Proof.
  destruct (heap_reach_rep _ vm_heap_reach) as (A & Hr & _).
  assert (fe_ok vm_heap) as Hok by (exists A; exact Hr).
  assert (can_lock L_page (pheld vm_heap) = true) as Hl by (vm_compute; reflexivity).
  destruct (wp_elim _ _ _ (fe_alloc_law vm_heap Hok Hl)) as (a & h & Hs & Hok' & _).
  unfold vm_env. rewrite Hs. exact Hok'.
Qed.

(** The machine after boot, with one context, with a process in it whose only
    region is one zero page, and after the fault that maps the page. *)
Definition vm_after (c : vm_call) (s : vstate kheap) : vstate kheap :=
  match vm_exec c s with Some (_, s') => s' | None => s end.
Definition v_start : vstate kheap := VState (BState (TState vm_env [] 0) 0 0 0 0 0 0 0) 0 1 ∅ ∅ ∅ 0 0 ∅.
Definition v_mm : Z := match vm_exec Create v_start with Some (mm, _) => mm | None => 0 end.
Definition v_one : vstate kheap := vm_after Create v_start.
Definition v_va : Z := 0x400000.
Definition v_region : vm_region := VmRegion v_va (v_va + PAGE_SIZE) VM_TYPE_ANON ANON_FLAGS 0 0 0.
Definition v_process : process := Process EmptyString v_mm 0 0 0 0 0 0 [v_region] [] 0 1 0.
Definition v_user : vstate kheap := v_one <| processes := <[1 := v_process]> (processes v_one) |>.
Definition v_fault : vm_call := Fault 1 v_va 4.
Definition v_mapped : vstate kheap := vm_after v_fault v_user.

Definition v_frame : Z := default 0 (user_page v_mapped v_mm v_va).

Definition is_some (o : option Z) : bool := match o with Some _ => true | None => false end.
Lemma is_some_default o : is_some o = true → o = Some (default 0 o).
Proof. destruct o; [reflexivity|discriminate]. Qed.

(** What evaluation shows of these states, in one equation. *)
Lemma v_runs :
  (pheld (venv v_start), m_mmu_enabled (pmach (venv v_start)), vm_buf,
   (λ c, mm_refs c <? 2 ^ 32 - 1) <$> mm_contexts v_user !! v_mm,
   fst <$> mmu_asid_alloc v_one,
   fst <$> mmu_handle_process_page_fault 1 v_va 4 v_user,
   (λ c, (mm_refs c, mm_active_cpu_mask c)) <$> mm_contexts v_mapped !! v_mm,
   user_can v_mapped v_mm true v_va,
   is_some (user_page v_mapped v_mm v_va),
   fe_own (venv v_mapped) vm_buf,
   bool_decide (map_Forall (λ _ c, vm_buf ∉ mm_pages c) (mm_contexts v_mapped)),
   fst <$> mmu_copy_to_user None v_mm v_va (pa_to_va vm_buf) 16 v_mapped,
   fst <$> mmu_map_user_page v_mm 0x10000000 0x48000000 ANON_FLAGS v_mapped,
   asid_used v_one 1) =
  ([], true, 0x47FE1000, Some true, Some 2, Some true, Some (1, 0), true, true, Some 1, true, Some true, Some true, true).
Proof. vm_compute. reflexivity. Qed.

Ltac v_facts := pose proof v_runs as Hheld;
  apply pair_equal_spec in Hheld as [Hheld Hasid1];
  apply pair_equal_spec in Hheld as [Hheld Hmapok];
  apply pair_equal_spec in Hheld as [Hheld Hcopyok];
  apply pair_equal_spec in Hheld as [Hheld Huntr];
  apply pair_equal_spec in Hheld as [Hheld Hown];
  apply pair_equal_spec in Hheld as [Hheld Hpage];
  apply pair_equal_spec in Hheld as [Hheld Hcan];
  apply pair_equal_spec in Hheld as [Hheld Hctx];
  apply pair_equal_spec in Hheld as [Hheld Hfaultok];
  apply pair_equal_spec in Hheld as [Hheld Hasidok];
  apply pair_equal_spec in Hheld as [Hheld Hrefs];
  apply pair_equal_spec in Hheld as [Hheld Hbuf];
  apply pair_equal_spec in Hheld as [Hheld Hen].

Lemma reach_after s c : vm_reach s → vm_pre s c → vm_reach (vm_after c s).
Proof.
  intros Hr Hpre. destruct (wp_elim _ _ _ (vm_call_ok s c (vm_reach_inv s Hr) Hpre)) as (r & s' & Hs & _).
  unfold vm_after. rewrite Hs. by eapply vreach_call.
Qed.

Lemma v_start_reach : vm_reach v_start.
Proof.
  v_facts. apply vreach_boot; [exact vm_env_ok|exact Hheld|exact Hen|reflexivity..].
Qed.
Lemma v_one_reach : vm_reach v_one.
Proof. apply reach_after; [exact v_start_reach|exact I]. Qed.
Lemma v_user_reach : vm_reach v_user.
Proof. exact (vreach_process _ _ _ v_one_reach). Qed.

Lemma v_user_process : processes v_user !! 1 = Some v_process.
Proof. exact (lookup_insert_eq (processes v_one) 1 v_process). Qed.
Lemma v_mapped_after : v_mapped = vm_after v_fault v_user.
Proof. reflexivity. Qed.

#[local] Opaque v_start v_one v_user v_mapped v_frame vm_buf v_mm vm_after.

Lemma fmap_some {A B} (f : A → B) o b : f <$> o = Some b → ∃ a, o = Some a ∧ f a = b.
Proof. destruct o as [a|]; [|discriminate]. intros [= <-]. exists a. split; reflexivity. Qed.

Lemma v_user_runs : runs_in (venv v_user) (mm_contexts v_user) v_user 1 v_mm.
Proof.
  v_facts.
  split; [discriminate|]. exists v_process. split; [exact v_user_process|].
  split; [reflexivity|]. split; [destruct (fmap_some _ _ _ Hrefs) as (c & -> & _); exists c; reflexivity|].
  constructor; [|constructor]. split; [split; [exact anon_flags_ok|]|]; intros Hne; destruct Hne; reflexivity.
Qed.
Lemma v_mapped_reach : vm_reach v_mapped.
Proof.
  rewrite v_mapped_after. apply reach_after; [exact v_user_reach|].
  split; [exists v_mm; exact v_user_runs|split; [discriminate|reflexivity]].
Qed.

Lemma v_mapped_ctx : ∃ c, mm_contexts v_mapped !! v_mm = Some c ∧ mm_refs c = 1 ∧ mm_active_cpu_mask c = 0.
Proof.
  v_facts. destruct (fmap_some _ _ _ Hctx) as (c & Hc & He).
  apply pair_equal_spec in He as [H1 H2].
  exists c. split; [exact Hc|]. split; [exact H1|exact H2].
Qed.
Lemma v_mapped_page : user_page v_mapped v_mm v_va = Some v_frame.
Proof. v_facts. exact (is_some_default _ Hpage). Qed.

Lemma address_spaces_stay_consistent_witness :
  vm_reach v_user ∧ ∃ r s', vm_exec (Get v_mm) v_user = Some (r, s') ∧ vm_reach s'.
Proof.
  split; [exact v_user_reach|]. destruct (address_spaces_stay_consistent v_user v_user_reach) as [_ Hc].
  v_facts. destruct (fmap_some _ _ _ Hrefs) as (c & HX & Hlt).
  apply Hc. cbn [vm_pre]. exists c. split; [exact HX|]. apply Z.ltb_lt. exact Hlt.
Defined.

Lemma user_pages_isolated_witness :
  vm_reach v_mapped ∧ user_can v_mapped v_mm true v_va = true ∧
  ∀ mm' va', user_page v_mapped mm' va' = user_page v_mapped v_mm v_va → mm' = v_mm.
Proof.
  v_facts. split; [exact v_mapped_reach|]. split; [exact Hcan|]. intros mm' va' Heq.
  destruct (user_pages_isolated v_mapped v_mapped_reach) as [Hiso _].
  pose proof v_mapped_page as Ha. rewrite Ha in Heq. exact (proj1 (Hiso v_mm v_va mm' va' v_frame Hcan Ha Heq)).
Defined.

Lemma translation_is_architectural_witness :
  ∃ s', mmu_user_page_pa v_mm v_va v_mapped = Some (Some v_frame, s').
Proof.
  destruct v_mapped_ctx as (c & HX & _).
  destruct (translation_is_architectural v_mapped v_mm c v_va (vm_reach_inv _ v_mapped_reach) HX) as (s' & Hs & _).
  exists s'. rewrite <- v_mapped_page. exact Hs.
Defined.

Lemma page_fault_handled_witness :
  ∃ s', mmu_handle_process_page_fault 1 v_va 4 v_user = Some (true, s') ∧ fault_served v_user v_mm v_process v_va 4 s'.
Proof.
  v_facts.
  destruct (page_fault_handled v_user 1 v_process v_va 4 (vm_reach_inv _ v_user_reach)) as (r & s' & Hs & _ & _ & Hsv);
    [exact v_user_process|exact v_user_runs|split; [discriminate|reflexivity]|].
  rewrite Hs in Hfaultok. injection Hfaultok as ->. exists s'. split; [exact Hs|]. exact (Hsv eq_refl).
Defined.

(** The first bytes of the kernel's page, and 16 of them. *)
Lemma v_page n : 0 ≤ n ≤ 4096 → kernel_buffer (venv v_mapped) (mm_contexts v_mapped) (pa_to_va vm_buf) n.
Proof.
  intros Hn. v_facts. apply bool_decide_eq_true_1 in Huntr. rewrite Hbuf in *.
  assert (page_ok 0x47FE1000) as Hp by (split; [reflexivity|lia]).
  destruct (kbuf_page 0x47FE1000 0 n Hp) as [Hkb Hpa]; [lia..|]. rewrite Z.add_0_r in *.
  split; [discriminate|]. split; [exact Hkb|]. split; [reflexivity|]. rewrite Hpa. intros i Hi.
  assert (pg (word_of (0x47FE1000 + i)) = 0x47FE1000) as Hpg by (rewrite pg_word_of; apply pg_offset; [exact Hp|lia]).
  split.
  - eapply fe_own_mine; [|exact Hown|exact Hpg].
    destruct (vm_reach_inv _ v_mapped_reach) as [[F Hl] _]. apply Hl.
  - intros mm c HX. rewrite Hpg. exact (Huntr mm c HX).
Qed.
Lemma v_buffer : kernel_buffer (venv v_mapped) (mm_contexts v_mapped) (pa_to_va vm_buf) 16.
Proof. apply v_page. lia. Qed.

Lemma user_copy_correct_witness :
  ∃ s', mmu_copy_to_user None v_mm v_va (pa_to_va vm_buf) 16 v_mapped = Some (true, s') ∧
    ∀ i, 0 ≤ i < 16 → user_byte s' v_mm (v_va + i) = Some (rd8 (memory s') (va_to_pa (pa_to_va vm_buf) + i)).
Proof.
  v_facts. destruct v_mapped_ctx as (c & HX & _).
  destruct (user_copy_correct v_mapped true None v_mm c v_va (pa_to_va vm_buf) 16 (vm_reach_inv _ v_mapped_reach) HX)
    as (r & s' & Hs & _ & _ & Hok & _);
    [unfold v_va; lia|lia|unfold v_va; lia|exact v_buffer|intros Hne; destruct Hne; reflexivity|].
  rewrite Hs in Hcopyok. injection Hcopyok as ->. exists s'. split; [exact Hs|]. intros i Hi. exact (proj2 (Hok eq_refl i Hi)).
Defined.

(** Unmapping the page after the mapped one unmaps the mapped one. *)
Lemma unmap_range_clears_first_pages_witness :
  user_page v_mapped v_mm v_va = Some v_frame ∧
  ∃ s', mmu_unmap_user_range v_mm (v_va + PAGE_SIZE) PAGE_SIZE v_mapped = Some (true, s') ∧ user_entry s' v_mm v_va = None.
Proof.
  split; [exact v_mapped_page|]. destruct v_mapped_ctx as (c & HX & _).
  destruct (unmap_range_clears_first_pages v_mapped v_mm c (v_va + PAGE_SIZE) PAGE_SIZE (vm_reach_inv _ v_mapped_reach) HX)
    as (s' & Hs & _ & Hv); [unfold v_va, PAGE_SIZE; lia..|].
  exists s'. split; [exact Hs|]. rewrite Hv by (unfold v_va; lia). rewrite decide_True; [reflexivity|].
  split; [reflexivity|]. vm_compute. split; [reflexivity|]. split; discriminate.
Defined.

Lemma asid_alloc_bounds_witness :
  ∃ s', mmu_asid_alloc v_one = Some (2, s') ∧ asid_used v_one 2 = false ∧ asid_used s' 1 = true.
Proof.
  v_facts.
  destruct (asid_alloc_bounds v_one (vm_reach_inv _ v_one_reach)) as (a & s' & Hs & _ & _ & _ & Hne).
  rewrite Hs in Hasidok. injection Hasidok as ->. destruct (Hne ltac:(discriminate)) as [Hu Hall].
  exists s'. split; [exact Hs|]. split; [exact Hu|]. rewrite Hall by (unfold asid_valid, MMU_ASID_MAX; lia). exact Hasid1.
Defined.

Lemma user_map_refines_witness :
  ∃ s', mmu_map_user_page v_mm 0x10000000 0x48000000 ANON_FLAGS v_mapped = Some (true, s') ∧
    user_page s' v_mm 0x10000000 = Some 0x48000000 ∧ user_entry s' v_mm v_va = user_entry v_mapped v_mm v_va.
Proof.
  v_facts. destruct v_mapped_ctx as (c & HX & _).
  destruct (user_map_refines v_mapped v_mm c 0x10000000 0x48000000 ANON_FLAGS (vm_reach_inv _ v_mapped_reach) HX)
    as (r & s' & Hs & Hm).
  rewrite Hs in Hmapok. injection Hmapok as ->.
  exists s'. split; [exact Hs|]. split.
  - unfold user_page. rewrite Hm, !Z.eqb_refl. reflexivity.
  - rewrite Hm, Z.eqb_refl. assert ((vpn v_va =? vpn 0x10000000) = false) as -> by reflexivity. reflexivity.
Defined.

Lemma context_put_releases_last_witness :
  ∃ c s', mm_contexts v_mapped !! v_mm = Some c ∧ mmu_context_put v_mm v_mapped = Some ((), s') ∧
    mm_contexts s' = delete v_mm (mm_contexts v_mapped) ∧ asid_used s' (mm_asid c) = false.
Proof.
  destruct v_mapped_ctx as (c & HX & Hr & Hm).
  destruct (context_put_releases_last v_mapped v_mm c (vm_reach_inv _ v_mapped_reach) HX) as (s' & Hs & _ & _ & Hres);
    [rewrite Hr; discriminate|].
  rewrite Hr, Hm in Hres. exists c, s'. split; [exact HX|]. split; [exact Hs|exact Hres].
Defined.
