(* ===== verification/Fs.v ===== *)
(** * Files: src/src/kernel/fs.c, ramfs.c and the console's vnode (console.c)

    The file-system registry and the mount list, the RAM file system's node
    table, and the vnodes on the heap.  A [struct file] belongs to the caller:
    a function that takes a pointer to one takes its value and returns the new
    one.  Path strings are C strings, without a null inside.  A call through a
    null function pointer, or of an object that was freed, has no outcome. *)

From S2P Require Import Prelude Machine MmuTable MmuBoot Vmsa VmsaWalk VmsaFault.

Open Scope kernel_scope.

Definition RAMFS_FILES_MAX : Z := 32.
Definition RAMFS_PATH_MAX : Z := 64.
Definition SIZEOF_FS_TYPE : Z := 24.
Definition SIZEOF_VFS_MOUNT : Z := 40.
Definition SIZEOF_VNODE : Z := 32.
Definition SIZEOF_FILE : Z := 32.

(** The two tables of vnode operations and the table of file-system
    operations that the kernel has. *)
Inductive vnode_ops : Type := ramfs_vnode_ops | console_ops.
Inductive vfs_ops : Type := ramfs_vfs_ops.

Record fs_type : Type := FsType { ft_name : string; ft_ops : vfs_ops }.

(** [mt_self] is the object's address, [mt_root] its [vnode_root]. *)
Record vfs_mount : Type := VfsMount {
  mt_self : Z;
  mt_path : string;
  mt_ops : vfs_ops;
  mt_root : Z;
}.

(** [vn_data] of a RAM file is the index of its node, [-1] for null. *)
Record vnode : Type := Vnode { vn_mnt : Z; vn_ops : vnode_ops; vn_data : Z; vn_is_dir : Z }.

Record file : Type := File { f_vn : Z; f_name : string; f_offset : Z; f_size : Z }.

#[export] Instance eta_file : Eta file := λ f, File (f_vn f) (f_name f) (f_offset f) (f_size f).

Record ramfs_node : Type := RamfsNode {
  rn_in_use : bool;
  rn_owns_data : bool;
  rn_path : string;
  rn_data : Z;
  rn_size : Z;
}.

#[export] Instance eta_ramfs_node : Eta ramfs_node := λ n,
  RamfsNode (rn_in_use n) (rn_owns_data n) (rn_path n) (rn_data n) (rn_size n).

Definition ramfs_node0 : ramfs_node := RamfsNode false false EmptyString 0 0.

(** [console_vnode], a static object: its address is not a heap address. *)
Definition console_vnode : Z := 1.

(** The comparison loops of [ramfs_path_equals] and [vfs_mount]. *)
Fixpoint ramfs_path_equals (lhs rhs : string) : bool :=
  match lhs, rhs with
  | String a lhs', String b rhs' => if Ascii.eqb a b then ramfs_path_equals lhs' rhs' else false
  | EmptyString, EmptyString => true
  | _, _ => false
  end.

(** The scan of [vfs_lookup]: the length of the mount's path when it is a
    prefix of [path]. *)
Fixpoint mount_match (path mnt_path : string) : option Z :=
  match mnt_path with
  | EmptyString => Some 0
  | String b mnt_path' =>
      match path with
      | String a path' => if Ascii.eqb a b then Z.succ <$> mount_match path' mnt_path' else None
      | EmptyString => None
      end
  end.

(** The mount whose path is the longest prefix, the first of equal ones. *)
Fixpoint best_mount (path : string) (mounts : list vfs_mount) (best : option vfs_mount) (max_len : Z)
    : option vfs_mount :=
  match mounts with
  | [] => best
  | m :: mounts' =>
      match mount_match path (mt_path m) with
      | Some len =>
          if (max_len <? len) || match best with None => true | Some _ => false end
          then best_mount path mounts' (Some m) len
          else best_mount path mounts' best max_len
      | None => best_mount path mounts' best max_len
      end
  end.

(** The first [RAMFS_PATH_MAX - 1] characters. *)
Definition node_path (path : string) : string := String.substring 0 (Z.to_nat (RAMFS_PATH_MAX - 1)) path.

Section fs.
Context {P : Type} `{FrameEnv P}.

Record fstate : Type := FState {
  f_vm : vstate P;
  fs_types : list fs_type;
  mounts : list vfs_mount;
  ramfs_nodes : list ramfs_node;
  vnodes : gmap Z vnode;
  console_out : list Z;
}.

#[global] Instance eta_fstate : Eta fstate := λ s,
  FState (f_vm s) (fs_types s) (mounts s) (ramfs_nodes s) (vnodes s) (console_out s).

#[global, refine] Instance sub_fs_vm : Sub (vstate P) fstate := {
  sub_get := f_vm;
  sub_set := λ v s, s <| f_vm := v |>;
}.
Proof. all: intros; by destruct t. Defined.

Definition fs_kmalloc (size : Z) : M fstate Z := up (S := vstate P) (up (S := P) (fe_kmalloc size)).
Definition fs_kfree (ptr : Z) : M fstate unit := up (S := vstate P) (up (S := P) (fe_kfree ptr)).
Definition fs_log (message : string) (arg : Z) : M fstate unit := up (S := vstate P) (ker_logf message arg).

(** A loop of byte assignments between two kernel buffers. *)
Definition fs_copy (dst src n : Z) : M fstate unit := up (S := vstate P) (copy_bytes dst src n).

(** ** Vnodes *)

Definition get_vnode (vn : Z) : M fstate vnode :=
  λ s, if vn =? console_vnode then Some (Vnode 0 console_ops (-1) 0, s)
       else match vnodes s !! vn with Some v => Some (v, s) | None => None end.
(** [kmalloc(sizeof(struct vnode))] and the assignments of its fields. *)
Definition new_vnode (v : vnode) : M fstate Z :=
  vn ← fs_kmalloc SIZEOF_VNODE;
  if vn =? 0 then mret 0 else
  modify (λ s, s <| vnodes := <[vn := v]> (vnodes s) |>) ;;
  mret vn.

Definition get_node (i : Z) : M fstate ramfs_node :=
  λ s, match ramfs_nodes s !! Z.to_nat i with
       | Some n => if 0 <=? i then Some (n, s) else None
       | None => None
       end.
Definition set_node (i : Z) (n : ramfs_node) : M fstate unit :=
  modify (λ s, s <| ramfs_nodes := <[Z.to_nat i := n]> (ramfs_nodes s) |>).

(** ** ramfs.c *)

(** The index of the node, nothing for null. *)
Definition ramfs_find_node (path : string) : M fstate (option Z) :=
  gets (λ s, Z.of_nat ∘ fst <$> list_find (λ n, rn_in_use n && ramfs_path_equals (rn_path n) path) (ramfs_nodes s)).
Definition ramfs_free_node : M fstate (option Z) :=
  gets (λ s, Z.of_nat ∘ fst <$> list_find (λ n, negb (rn_in_use n)) (ramfs_nodes s)).

Definition ramfs_open (vn : Z) (f : file) : M fstate file :=
  v ← get_vnode vn;
  node ← get_node (vn_data v);
  mret (f <| f_vn := vn |> <| f_offset := 0 |> <| f_size := rn_size node |>).

Definition ramfs_read (vn : Z) (f : file) (dst len : Z) : M fstate (Z * file) :=
  v ← get_vnode vn;
  node ← get_node (vn_data v);
  if rn_size node <=? f_offset f then mret (0, f) else
  let remaining := rn_size node - f_offset f in
  let count := if len <? remaining then len else remaining in
  fs_copy dst (u64 (rn_data node + f_offset f)) count ;;
  mret (count, f <| f_offset := f_offset f + count |>).

Definition ramfs_vfs_mount (mnt : Z) : M fstate Z := new_vnode (Vnode mnt ramfs_vnode_ops (-1) 1).

Definition ramfs_lookup (vn : Z) (name : string) : M fstate (option Z) :=
  v ← get_vnode vn;
  node ← ramfs_find_node name;
  match node with
  | Some i =>
      new_vn ← new_vnode (Vnode (vn_mnt v) (vn_ops v) i 0);
      mret (if new_vn =? 0 then None else Some new_vn)
  | None => fs_log "[ramfs] lookup failed: node not found" 0 ;; mret None
  end.

Definition ramfs_add_builtin (path : string) (start stop : Z) : M fstate unit :=
  node ← ramfs_free_node;
  match node with
  | Some i => set_node i (RamfsNode true false (node_path path) start (u64 (stop - start)))
  | None => mret ()
  end.

(** A builtin of the linker section: its path and its image. *)
Record ramfs_builtin_file : Type := Builtin { bf_path : string; bf_start : Z; bf_end : Z }.

Definition ramfs_register_file (path : string) (data size : Z) : M fstate bool :=
  found ← ramfs_find_node path;
  node ← (match found with Some i => mret (Some i) | None => ramfs_free_node end);
  match node with
  | None => mret false
  | Some i =>
      copy ← fs_kmalloc size;
      if copy =? 0 then mret false else
      fs_copy copy data size ;;
      n ← get_node i;
      whenM (rn_in_use n && rn_owns_data n) (fs_kfree (rn_data n)) ;;
      set_node i (RamfsNode true true (node_path path) copy size) ;;
      mret true
  end.

Definition ramfs_unregister_file (path : string) : M fstate bool :=
  node ← ramfs_find_node path;
  match node with
  | None => mret false
  | Some i =>
      n ← get_node i;
      whenM (rn_owns_data n) (fs_kfree (rn_data n)) ;;
      set_node i (n <| rn_in_use := false |>) ;;
      mret true
  end.

Definition ramfs_get_data_ptr (f : file) : M fstate Z :=
  if f_vn f =? 0 then mret 0 else
  v ← get_vnode (f_vn f);
  match vn_ops v with
  | ramfs_vnode_ops => if vn_data v =? -1 then mret 0 else n ← get_node (vn_data v); mret (rn_data n)
  | console_ops => mret 0
  end.

(** ** The console's vnode *)

(** The UART's queue always has room: the loop that waits for it is not modelled. *)
Definition pl011_write (value : Z) : M fstate unit :=
  up (S := vstate P) (vlock L_uart) ;;
  modify (λ s, s <| console_out := value :: console_out s |>) ;;
  up (S := vstate P) (vunlock L_uart).

Definition console_putc_unlocked (ch : Z) : M fstate unit :=
  whenM (ch =? 10) (pl011_write 13) ;;
  pl011_write (u8 ch).

Definition console_vnode_write (src len : Z) : M fstate Z :=
  up (S := vstate P) (vlock L_console) ;;
  forM_ (upto 0 len) (λ i,
    ch ← up (S := vstate P) (up (S := machine) (load8 (u64 (src + i))));
    console_putc_unlocked ch) ;;
  up (S := vstate P) (vunlock L_console) ;;
  mret len.

(** ** fs.c *)

Definition vfs_init : M fstate unit := modify (λ s, s <| fs_types := [] |> <| mounts := [] |>).

Definition vfs_register_fs (name : string) (ops : vfs_ops) : M fstate bool :=
  type ← fs_kmalloc SIZEOF_FS_TYPE;
  if type =? 0 then mret false else
  modify (λ s, s <| fs_types := FsType name ops :: fs_types s |>) ;;
  fs_log "[vfs] registered filesystem" 0 ;;
  mret true.

Definition vfs_mount_fs (path fs_name : string) : M fstate bool :=
  type ← gets (λ s, snd <$> list_find (λ t, ramfs_path_equals (ft_name t) fs_name) (fs_types s));
  match type with
  | None => mret false
  | Some type =>
      mnt ← fs_kmalloc SIZEOF_VFS_MOUNT;
      if mnt =? 0 then mret false else
      root ← (match ft_ops type with ramfs_vfs_ops => ramfs_vfs_mount mnt end);
      if root =? 0 then fs_kfree mnt ;; mret false else
      modify (λ s, s <| mounts := VfsMount mnt path (ft_ops type) root :: mounts s |>) ;;
      fs_log "[vfs] mounted" 0 ;;
      mret true
  end.

(** [best_mnt->vnode_root->ops->lookup]: the console has none. *)
Definition vnode_lookup (vn : Z) (path : string) : M fstate (option Z) :=
  v ← get_vnode vn;
  match vn_ops v with
  | ramfs_vnode_ops => ramfs_lookup vn path
  | console_ops => ub
  end.

Definition starts_with_slash (path : string) : bool :=
  match path with String c _ => Ascii.eqb c (Ascii.ascii_of_nat 47) | EmptyString => false end.

Definition vfs_lookup (path : string) : M fstate (option Z) :=
  if negb (starts_with_slash path) then mret None else
  best ← gets (λ s, best_mount path (mounts s) None 0);
  match best with
  | None => fs_log "[vfs] lookup failed: no mount" 0 ;; mret None
  | Some m => vnode_lookup (mt_root m) path
  end.

(** The uninitialised file of the caller is [f]. *)
Definition fs_open (path : string) (f : file) : M fstate (option file) :=
  vn ← vfs_lookup path;
  match vn with
  | None => mret None
  | Some vn =>
      let f := f <| f_name := path |> in
      v ← get_vnode vn;
      match vn_ops v with
      | ramfs_vnode_ops => f ← ramfs_open vn f; mret (Some f)
      | console_ops => mret (Some (f <| f_offset := 0 |> <| f_size := 0 |>))
      end
  end.

Definition fs_read (f : file) (dst len : Z) : M fstate (Z * file) :=
  if f_vn f =? 0 then mret (0, f) else
  v ← get_vnode (f_vn f);
  match vn_ops v with
  | ramfs_vnode_ops => ramfs_read (f_vn f) f dst len
  | console_ops => mret (0, f)
  end.

Definition fs_write (f : file) (src len : Z) : M fstate Z :=
  if f_vn f =? 0 then mret 0 else
  v ← get_vnode (f_vn f);
  match vn_ops v with
  | ramfs_vnode_ops => mret 0
  | console_ops => console_vnode_write src len
  end.

(** The console has no [close]. *)
Definition fs_close (f : file) : M fstate file :=
  if f_vn f =? 0 then mret f else
  v ← get_vnode (f_vn f);
  match vn_ops v with
  | ramfs_vnode_ops =>
      modify (λ s, s <| vnodes := delete (f_vn f) (vnodes s) |>) ;;
      fs_kfree (f_vn f) ;;
      mret (f <| f_vn := 0 |>)
  | console_ops => ub
  end.

Definition fs_register_file (path : string) (data size : Z) : M fstate bool := ramfs_register_file path data size.
Definition fs_unregister_file (path : string) : M fstate bool := ramfs_unregister_file path.

(** [builtins] is the linker section. *)
Definition ramfs_init (builtins : list ramfs_builtin_file) : M fstate unit :=
  modify (λ s, s <| ramfs_nodes := (λ n, n <| rn_in_use := false |>) <$> ramfs_nodes s |>) ;;
  forM_ builtins (λ b, ramfs_add_builtin (bf_path b) (bf_start b) (bf_end b)) ;;
  vfs_register_fs "ramfs" ramfs_vfs_ops ;;
  mret ().

Definition fs_init (builtins : list ramfs_builtin_file) : M fstate unit :=
  vfs_init ;;
  ramfs_init builtins ;;
  vfs_mount_fs "/" "ramfs" ;;
  mret ().

End fs.

Arguments fstate P : clear implicits.
