(* ===== verification/FsSpec.v ===== *)
(** * Files: what each operation does

    The operations of Fs on states whose virtual-memory part is in the normal
    form of VmsaSpec.  [fs_tables] are the facts about the vnode, mount and
    node tables that the code relies on; [node_ok] says where a file's bytes
    are; [file_node] is the node that a path names. *)

From S2P Require Import Prelude Machine MmuTable MmuBoot Vmsa VmsaWalk VmsaFault VmBits VmsaSpec VmTree VmMap VmOwn VmUnmap VmBytes VmFrame VmFaultSpec VmCopy VmStep Fs.

Open Scope kernel_scope.

Section fs_spec.
Context {P : Type} `{FrameLaws P}.
Implicit Types (p : P) (s v : vstate P) (t : treg) (X : gmap Z mm_context) (F : Z → tmap) (g : fstate P) (K : Z → Prop).

(** ** The layers *)

Definition fvm v g : fstate P := g <| f_vm := v |>.

Lemma fvm_self g : fvm (f_vm g) g = g.
Proof. by destruct g. Qed.

Lemma wp_fvm {A} (m : M (vstate P) A) (Q : A → fstate P → Prop) v g :
  wp m (λ a v', Q a (fvm v' g)) v → wp (up m) Q (fvm v g).
Proof. intros Hm. apply wp_up. exact Hm. Qed.

Lemma wp_fs_log K msg a (Q : unit → fstate P → Prop) p t X s F g : vm_ok p X F →
  (∀ p', kstep K [] [] p X F p' X F → Q () (fvm (vst p' t X s) g)) → wp (fs_log msg a) Q (fvm (vst p t X s) g).
Proof. intros Hk HQ. apply wp_fvm, wp_logf; [apply Hk|]. intros p' Hs. by apply HQ, kstep_step. Qed.

Lemma wp_fs_kmalloc K n (Q : Z → fstate P → Prop) p t X s F g :
  vm_ok p X F → can_lock L_heap (pheld p) = true → 0 ≤ n < 2 ^ 31 →
  (∀ p', kstep K [] [] p X F p' X F → Q 0 (fvm (vst p' t X s) g)) →
  (∀ a p', a ≠ 0 → u64 a = a → a mod 16 = 0 → kbuf a n → kstep K [a] [] p X F p' X F →
     (∀ i, 0 ≤ i < n → fe_span p' a (word_of (va_to_pa a + i))) → Q a (fvm (vst p' t X s) g)) →
  wp (fs_kmalloc n) Q (fvm (vst p t X s) g).
Proof. intros Hk Hl Hn HQ0 HQ. by apply wp_fvm, (wp_kmalloc K n _ p t X s F). Qed.

Lemma wp_fs_kfree K a (Q : unit → fstate P → Prop) p t X s F g :
  vm_ok p X F → can_lock L_heap (pheld p) = true → fe_live p a → X !! a = None →
  (∀ p', kstep K [] [a] p X F p' X F → Q () (fvm (vst p' t X s) g)) →
  wp (fs_kfree a) Q (fvm (vst p t X s) g).
Proof. intros Hk Hl Hla HX HQ. by apply wp_fvm, (wp_kfree K a _ p t X s F). Qed.

(** ** The tables *)

Record fs_tables g : Prop := {
  ft_vnode : ∀ b x, vnodes g !! b = Some x → b ≠ console_vnode ∧ vn_ops x = ramfs_vnode_ops ∧
    (vn_is_dir x = 0 → 0 ≤ vn_data x < RAMFS_FILES_MAX);
  ft_mount : ∀ m, m ∈ mounts g → is_Some (vnodes g !! mt_root m);
  ft_nodes : Z.of_nat (length (ramfs_nodes g)) = RAMFS_FILES_MAX;
}.

(** Where the bytes of a file are: in its own heap block, or, for a built-in
    file, in memory of the kernel outside every block. *)
Record node_ok p X (n : ramfs_node) : Prop := {
  no_size : 0 ≤ rn_size n < 2 ^ 31;
  no_buf : kbuf (rn_data n) (rn_size n);
  no_bytes : ∀ i, 0 ≤ i < rn_size n → let w := word_of (va_to_pa (rn_data n) + i) in
    if rn_owns_data n then fe_span p (rn_data n) w
    else fe_mine p w ∧ untracked X w ∧ ∀ b, ¬ fe_span p b w;
}.

(** The first node of the table that is in use and has the path. *)
Definition find_node (nodes : list ramfs_node) (path : string) : option (Z * ramfs_node) :=
  prod_map Z.of_nat id <$> list_find (λ n, rn_in_use n && ramfs_path_equals (rn_path n) path) nodes.
(** The node that [fs_open] opens. *)
Definition file_node g (path : string) : option (Z * ramfs_node) :=
  if starts_with_slash path then
    match best_mount path (mounts g) None 0 with Some _ => find_node (ramfs_nodes g) path | None => None end
  else None.

Lemma path_equals_eq l r : ramfs_path_equals l r = true ↔ l = r.
Proof.
  revert r. induction l as [|a l IH]; intros [|b r]; cbn; try done.
  destruct (Ascii.eqb_spec a b) as [->|Hne].
  - rewrite IH. split; [by intros ->|by intros [=]].
  - split; [done|]. by intros [=].
Qed.

Lemma find_node_some nodes path i n : find_node nodes path = Some (i, n) →
  0 ≤ i ∧ nodes !! Z.to_nat i = Some n ∧ rn_in_use n = true ∧ rn_path n = path ∧
  ∀ j m, nodes !! j = Some m → (j < Z.to_nat i)%nat → rn_in_use m = true → rn_path m ≠ path.
Proof.
  unfold find_node. destruct (list_find _ nodes) as [[k m]|] eqn:Hf; [|done]. intros [= <- <-]. cbn.
  apply list_find_Some in Hf as (Hk & [Hu Hp]%andb_prop_elim & Hfst). rewrite Nat2Z.id. split; [lia|].
  split; [done|]. split; [by apply Is_true_true|]. split; [by apply path_equals_eq, Is_true_true|].
  intros j m' Hj Hlt Hu' Hp'. apply (Hfst j m' Hj Hlt). apply andb_prop_intro. split; apply Is_true_true; [done|by apply path_equals_eq].
Qed.

Lemma find_node_none nodes path : find_node nodes path = None →
  ∀ j m, nodes !! j = Some m → rn_in_use m = true → rn_path m ≠ path.
Proof.
  unfold find_node. destruct (list_find _ nodes) as [[k m]|] eqn:Hf; [done|]. intros _ j m Hj Hu Hp.
  apply list_find_None in Hf. rewrite Forall_lookup in Hf. apply (Hf j m Hj).
  apply andb_prop_intro. split; apply Is_true_true; [done|by apply path_equals_eq].
Qed.

Lemma file_node_find g path x : file_node g path = Some x → find_node (ramfs_nodes g) path = Some x.
Proof. unfold file_node. destruct (starts_with_slash path); [|done]. by destruct (best_mount path (mounts g) None 0). Qed.

(** A mount is found only in the list. *)
Lemma best_mount_in path ms best n m : best_mount path ms best n = Some m → best = Some m ∨ m ∈ ms.
Proof.
  revert best n. induction ms as [|m' ms IH]; intros best n; cbn; [by left|].
  destruct (mount_match path (mt_path m')) as [len|].
  - destruct ((n <? len) || _) eqn:Hc; intros Hb; apply IH in Hb as [Hb|Hb]; [|by right; right|by left|by right; right].
    injection Hb as <-. right. by left.
  - intros [Hb|Hb]%IH; [by left|by right; right].
Qed.

(** ** Steps keep the bytes of files where they are *)

Lemma node_client p X F n j : vm_ok p X F → node_ok p X n → 0 ≤ j < rn_size n →
  fe_mine p (word_of (va_to_pa (rn_data n) + j)) ∧ untracked X (word_of (va_to_pa (rn_data n) + j)).
Proof.
  intros Hk Hn Hj. pose proof (no_bytes _ _ _ Hn j Hj) as Hb. cbv zeta in Hb.
  destruct (rn_owns_data n); [by eapply span_client|]. by destruct Hb as (? & ? & _).
Qed.

Lemma node_ok_step K B D p X F p' X' F' n : kstep K B D p X F p' X' F' → node_ok p X n →
  (rn_owns_data n = true → 0 < rn_size n → (rn_data n ∉ D) ∧ fe_live p (rn_data n)) →
  node_ok p' X' n.
Proof.
  intros Hs [Hsz Hb Hw] Hown. split; [done|done|]. intros i Hi w. specialize (Hw i Hi). cbv zeta in Hw. fold w in Hw.
  destruct (rn_owns_data n).
  - destruct Hown as [HD Hl]; [done|lia|]. apply (kp_span _ _ _ _ _ _ _ _ _ Hs); [|done].
    intros HB. by apply (kstep_fresh _ _ _ _ _ _ _ _ _ _ Hs HB).
  - destruct Hw as (Hm & Hu & Hno). destruct (kp_mem _ _ _ _ _ _ _ _ _ Hs _ Hm Hu) as (Hm' & Hu' & _); [by intros d _|].
    split; [done|]. split; [done|]. intros b Hsp. destruct (decide (b ∈ B)) as [HB|HB].
    + by apply (kp_new _ _ _ _ _ _ _ _ _ Hs b HB) in Hsp.
    + apply (kp_span _ _ _ _ _ _ _ _ _ Hs) in Hsp as [Hsp _]; [by apply Hno in Hsp|done].
Qed.

(** ** Lookup and open *)

Lemma wp_get_vnode b x (Q : vnode → fstate P → Prop) g : fs_tables g →
  vnodes g !! b = Some x → Q x g → wp (get_vnode b) Q g.
Proof.
  intros Ht Hb HQ. unfold wp, get_vnode. destruct (ft_vnode _ Ht b x Hb) as [Hc _].
  bfalse (b =? console_vnode). by rewrite Hb.
Qed.

Lemma wp_get_node i n (Q : ramfs_node → fstate P → Prop) g : 0 ≤ i →
  ramfs_nodes g !! Z.to_nat i = Some n → Q n g → wp (get_node i) Q g.
Proof. intros Hi Hn HQ. unfold wp, get_node. rewrite Hn. by btrue (0 <=? i). Qed.

Lemma wp_find_node path (Q : option Z → fstate P → Prop) g :
  Q (fst <$> find_node (ramfs_nodes g) path) g → wp (ramfs_find_node path) Q g.
Proof.
  intros HQ. apply wp_gets. unfold find_node in HQ. by destruct (list_find _ (ramfs_nodes g)) as [[k m]|].
Qed.

Lemma fs_tables_vm g v : fs_tables g → fs_tables (fvm v g).
Proof. intros []. by split. Qed.

Definition vnode_of (mnt i : Z) : vnode := Vnode mnt ramfs_vnode_ops i 0.

Lemma wp_new_vnode K x (Q : Z → fstate P → Prop) p t X s F g :
  vm_ok p X F → can_lock L_heap (pheld p) = true →
  (∀ p', kstep K [] [] p X F p' X F → Q 0 (fvm (vst p' t X s) g)) →
  (∀ a p', a ≠ 0 → a ≠ console_vnode → kstep K [a] [] p X F p' X F →
     Q a (fvm (vst p' t X s) (g <| vnodes := <[a := x]> (vnodes g) |>))) →
  wp (new_vnode x) Q (fvm (vst p t X s) g).
Proof.
  intros Hk Hl HQ0 HQ. unfold new_vnode. wp_step. apply (wp_fs_kmalloc K _ _ _ _ _ _ F); [done|done|done| |].
  - intros p' Hs. change (0 =? 0) with true. cbn iota. wp_step. by apply HQ0.
  - intros a p' Ha _ Hal _ Hs _. bfalse (a =? 0). wp_step. wp_step. wp_step. apply HQ; [done| |done].
    intros ->. done.
Qed.

Lemma wp_fs_open K path f (Q : option file → fstate P → Prop) p t X s F g :
  vm_ok p X F → can_lock L_heap (pheld p) = true → fs_tables g →
  (∀ p', kstep K [] [] p X F p' X F → Q None (fvm (vst p' t X s) g)) →
  (∀ p' vn mnt i n, kstep K [vn] [] p X F p' X F → vn ≠ 0 → vn ≠ console_vnode → file_node g path = Some (i, n) →
     Q (Some (File vn path 0 (rn_size n)))
       (fvm (vst p' t X s) (g <| vnodes := <[vn := vnode_of mnt i]> (vnodes g) |>))) →
  wp (fs_open path f) Q (fvm (vst p t X s) g).
Proof.
  intros Hk Hl Ht HQ0 HQ. unfold fs_open. wp_step. unfold vfs_lookup. unfold file_node in HQ.
  destruct (starts_with_slash path); cbn [negb]; cycle 1.
  { wp_step. wp_step. by apply HQ0, kstep_refl. }
  wp_step. wp_step. change (mounts (fvm (vst p t X s) g)) with (mounts g).
  destruct (best_mount path (mounts g) None 0) as [m|] eqn:Hm; cycle 1.
  { wp_step. apply (wp_fs_log K _ _ _ _ _ _ _ F); [done|]. intros p1 Hs1. wp_step. wp_step. by apply HQ0. }
  apply best_mount_in in Hm as [?|Hm]; [done|]. destruct (ft_mount _ Ht m Hm) as [x Hx].
  destruct (ft_vnode _ Ht _ x Hx) as (_ & Hops & _).
  unfold vnode_lookup. wp_step. eapply wp_get_vnode; [by apply fs_tables_vm|exact Hx|]. rewrite Hops.
  unfold ramfs_lookup. wp_step. eapply wp_get_vnode; [by apply fs_tables_vm|exact Hx|].
  wp_step. apply wp_find_node. change (ramfs_nodes (fvm (vst p t X s) g)) with (ramfs_nodes g).
  destruct (find_node (ramfs_nodes g) path) as [[i n]|] eqn:Hn; cbn [fmap option_fmap option_map fst]; cycle 1.
  { wp_step. apply (wp_fs_log K _ _ _ _ _ _ _ F); [done|]. intros p1 Hs1. wp_step. wp_step. by apply HQ0. }
  destruct (find_node_some _ _ _ _ Hn) as (Hi & Hin & _).
  wp_step. apply (wp_new_vnode K _ _ _ _ _ _ F); [done|done| |].
  { intros p1 Hs1. wp_step. change (0 =? 0) with true. cbn iota. wp_step. by apply HQ0. }
  intros vn p1 Hvn Hc Hs1. rewrite Hops. wp_step. bfalse (vn =? 0). cbn iota. set (g1 := g <| vnodes := _ |>).
  assert (vnodes (fvm (vst p1 t X s) g1) !! vn = Some (vnode_of (vn_mnt x) i)) as Hv by apply lookup_insert_eq.
  assert (∀ (Q' : vnode → fstate P → Prop), Q' (vnode_of (vn_mnt x) i) (fvm (vst p1 t X s) g1) → wp (get_vnode vn) Q' (fvm (vst p1 t X s) g1)) as Hget.
  { intros Q' HQ'. unfold wp, get_vnode. bfalse (vn =? console_vnode). by rewrite Hv. }
  wp_step. apply Hget. cbn [vn_ops vnode_of]. wp_step. unfold ramfs_open. wp_step. apply Hget. cbn [vn_data vnode_of].
  wp_step. eapply wp_get_node; [done|exact Hin|]. wp_step. wp_step. by eapply HQ.
Qed.

(** ** Read and close *)

(** Buffers whose words differ do not overlap. *)
Lemma apart_ranges a n b m : 0 < n → 0 < m →
  (∀ i j, 0 ≤ i < n → 0 ≤ j < m → word_of (a + i) ≠ word_of (b + j)) → a + n ≤ b ∨ b + m ≤ a.
Proof.
  intros Hn Hm Hne. destruct (decide (a + n ≤ b)); [by left|]. destruct (decide (b + m ≤ a)); [by right|].
  exfalso. set (x := a `max` b). apply (Hne (x - a) (x - b)); [lia|lia|]. f_equal. lia.
Qed.

(** The number of bytes a read returns. *)
Definition read_count (n : ramfs_node) (offset len : Z) : Z :=
  if rn_size n <=? offset then 0 else Z.min len (rn_size n - offset).

Lemma wp_fs_read f mnt i n dst len (Q : Z * file → fstate P → Prop) p t X s F g :
  vm_ok p X F → fs_tables g → vnodes g !! f_vn f = Some (vnode_of mnt i) → f_vn f ≠ 0 → 0 ≤ i →
  ramfs_nodes g !! Z.to_nat i = Some n → node_ok p X n → 0 ≤ f_offset f → 0 ≤ len →
  kbuf dst len → (∀ j, 0 ≤ j < len → fe_mine p (word_of (va_to_pa dst + j))) →
  (∀ j k, 0 ≤ j < len → 0 ≤ k < rn_size n → word_of (va_to_pa dst + j) ≠ word_of (va_to_pa (rn_data n) + k)) →
  (∀ p', let c := read_count n (f_offset f) len in
     wrote p p' (va_to_pa dst) c (λ j, rd8 (pmem p) (va_to_pa (rn_data n) + (f_offset f + j))) →
     Q (c, f <| f_offset := f_offset f + c |>) (fvm (vst p' t X s) g)) →
  wp (fs_read f dst len) Q (fvm (vst p t X s) g).
Proof.
  intros Hk Ht Hv Hvn Hi Hn Hok Hoff Hlen Hdst Hm Hap HQ. unfold fs_read. bfalse (f_vn f =? 0).
  wp_step. eapply wp_get_vnode; [by apply fs_tables_vm|exact Hv|]. cbn [vn_ops vnode_of].
  unfold ramfs_read. wp_step. eapply wp_get_vnode; [by apply fs_tables_vm|exact Hv|]. cbn [vn_data vnode_of].
  wp_step. eapply wp_get_node; [done|exact Hn|]. unfold read_count in HQ.
  destruct (rn_size n <=? f_offset f) eqn:Heof; bool_to_prop.
  { wp_step. specialize (HQ p (wrote_refl _ _ _ (vk_ok _ _ _ Hk))).
    replace (f <| f_offset := f_offset f + 0 |>) with f in HQ by (destruct f; cbn; by rewrite Z.add_0_r). exact HQ. }
  assert ((if len <? rn_size n - f_offset f then len else rn_size n - f_offset f) = Z.min len (rn_size n - f_offset f)) as ->.
  { destruct (len <? rn_size n - f_offset f) eqn:?; bool_to_prop; lia. }
  set (c := Z.min len (rn_size n - f_offset f)) in *. pose proof (no_size _ _ _ Hok) as Hsz.
  destruct (kbuf_at (rn_data n) (rn_size n) (f_offset f) (no_buf _ _ _ Hok) ltac:(lia)) as (Hu & Hnz & Hpa & Hp0).
  assert (kbuf (rn_data n + f_offset f) c) as Hsrc.
  { pose proof (no_buf _ _ _ Hok) as (? & ? & ?). unfold kbuf, c. lia. }
  assert (kbuf dst c) as Hdc by (destruct Hdst as (? & ? & ?); unfold kbuf, c; lia).
  wp_step. rewrite Hu. apply wp_fvm. apply (wp_copy_bytes dst _ c); [done|done|apply Hk| | |].
  - intros j Hj. apply Hm. unfold c in Hj. lia.
  - rewrite Hpa. destruct (decide (c = 0)) as [->|Hc0].
    { destruct (decide (va_to_pa (rn_data n) + f_offset f ≤ va_to_pa dst)); [left; lia|right; lia]. }
    destruct (apart_ranges (va_to_pa (rn_data n) + f_offset f) c (va_to_pa dst) c); [unfold c in *; lia|unfold c in *; lia| |by left|by right].
    intros j k Hj Hk' Heq. eapply (Hap k (f_offset f + j)); [unfold c in *; lia|unfold c in *; lia|]. rewrite <- Heq. f_equal. lia.
  - intros p' Hw. wp_step. apply HQ. destruct Hw as [Ho Hg Hws Hby]. split; [done|done|done|].
    intros q Hq. rewrite Hby by done. case_decide; [|done]. rewrite Hpa. f_equal. lia.
Qed.

Lemma wp_fs_close K f x (Q : file → fstate P → Prop) p t X s F g :
  vm_ok p X F → can_lock L_heap (pheld p) = true → fs_tables g → vnodes g !! f_vn f = Some x → f_vn f ≠ 0 →
  fe_live p (f_vn f) → X !! f_vn f = None →
  (∀ p', kstep K [] [f_vn f] p X F p' X F →
     Q (f <| f_vn := 0 |>) (fvm (vst p' t X s) (g <| vnodes := delete (f_vn f) (vnodes g) |>))) →
  wp (fs_close f) Q (fvm (vst p t X s) g).
Proof.
  intros Hk Hl Ht Hv Hvn Hlv HX HQ. unfold fs_close. bfalse (f_vn f =? 0).
  wp_step. eapply wp_get_vnode; [by apply fs_tables_vm|exact Hv|]. destruct (ft_vnode _ Ht _ _ Hv) as (_ & -> & _).
  wp_step. wp_step. wp_step.
  match goal with |- wp _ _ ?st => change st with (fvm (vst p t X s) (g <| vnodes := delete (f_vn f) (vnodes g) |>)) end.
  apply (wp_fs_kfree K _ _ _ _ _ _ F); [done|done|done|done|]. intros p' Hs. wp_step. by apply HQ.
Qed.

End fs_spec.
