(* ===== verification/KernelObjects.v ===== *)
(** * The kernel's objects on the heap

    [used g b u]: the heap block [b] serves as [u].  [sys_inv] is the state of
    the kernel between two calls of the process and file layers: the address
    spaces are consistent, every object is a live block with one use, and the
    tables of the file systems are sound. *)

From S2P Require Import Prelude Machine MmuTable MmuBoot Vmsa VmsaWalk VmsaFault VmBits VmsaSpec VmTree VmMap VmOwn VmUnmap VmBytes VmFrame VmFaultSpec VmCopy VmStep VmLife VmCreate VmCtx VmSys Fs FsSpec.

Open Scope kernel_scope.

(** A block is an address space, a vnode, the content of RAM file [i], a
    process object, or image [i] that process [q] owns. *)
Inductive use : Type := UCtx | UVnode | UData (i : nat) | UProc | UImage (q : Z) (i : nat).

Section objects.
Context {P : Type} `{FrameLaws P}.
Implicit Types (p : P) (s : vstate P) (t : treg) (X : gmap Z mm_context) (F : Z → tmap) (g : fstate P) (K : Z → Prop).

Definition fenv g : P := venv (f_vm g).
Definition fctx g : gmap Z mm_context := mm_contexts (f_vm g).
Definition fproc g : gmap Z process := processes (f_vm g).

Definition used g (b : Z) (u : use) : Prop :=
  match u with
  | UCtx => is_Some (fctx g !! b)
  | UVnode => is_Some (vnodes g !! b)
  | UData i => ∃ n, ramfs_nodes g !! i = Some n ∧ rn_in_use n = true ∧ rn_owns_data n = true ∧ rn_data n = b
  | UProc => is_Some (fproc g !! b)
  | UImage q i => ∃ pr, fproc g !! q = Some pr ∧ pr_owned_images pr !! i = Some b ∧ b ≠ 0
  end.

Record sys_inv g : Prop := {
  si_vm : vm_inv (f_vm g);
  si_live : ∀ b u, used g b u → b ≠ 0 ∧ fe_live (fenv g) b;
  si_once : ∀ b u u', used g b u → used g b u' → u = u';
  si_tables : fs_tables g;
  si_nodes : ∀ i n, ramfs_nodes g !! i = Some n → rn_in_use n = true → node_ok (fenv g) (fctx g) n;
}.

(** The invariant on a state in normal form. *)
Record sys_ok p t X s F g : Prop := {
  so_inv : sys_inv (fvm (vst p t X s) g);
  so_life : life nobody p X F s;
  so_held : pheld p = [];
  so_mmu : m_mmu_enabled (pmach p) = true;
}.

Lemma sys_ok_vm p t X s F g : sys_ok p t X s F g → vm_ok p X F.
Proof. intros Hs. apply (so_life _ _ _ _ _ _ Hs). Qed.

Lemma sys_normal g : sys_inv g → ∃ p t X s F, g = fvm (vst p t X s) g ∧ sys_ok p t X s F g.
Proof.
  intros Hi. destruct (si_vm _ Hi) as ([F Hl] & Hh & He). exists (venv (f_vm g)), (vreg (f_vm g)), (mm_contexts (f_vm g)), (f_vm g), F.
  rewrite <- vst_self, fvm_self. split; [done|]. split; try done. by rewrite <- vst_self, fvm_self.
Qed.

Lemma sys_ok_lock p t X s F g l : sys_ok p t X s F g → can_lock l (pheld p) = true.
Proof. intros Hs. by rewrite (so_held _ _ _ _ _ _ Hs). Qed.

Lemma sys_ok_elim p t X s F g : sys_ok p t X s F g → sys_inv (fvm (vst p t X s) g).
Proof. by intros []. Qed.

Lemma sys_tables p t X s F g : sys_ok p t X s F g → fs_tables g.
Proof. intros Hs. by destruct (si_tables _ (so_inv _ _ _ _ _ _ Hs)). Qed.

(** The tables of processes do not matter to the address spaces. *)
Lemma life_proc z p X F s f : life z p X F s → life z p X F (s <| processes := f |>).
Proof. intros [? ? Hc ? ? ? ?]. split; try done. intros mm c HX. by destruct (Hc mm c HX). Qed.

(** A step keeps the invariant when the objects it adds are live blocks that
    had no use and the objects it leaves are not freed. *)
Lemma sys_adopt K B D p t X s F g p' t' X' s' F' g' : sys_ok p t X s F g →
  kstep K B D p X F p' X' F' → life nobody p' X' F' s' →
  (∀ b u, used (fvm (vst p' t' X' s') g') b u →
     b ≠ 0 ∧ fe_live p' b ∧ (∀ v, ¬ used (fvm (vst p t X s) g) b v) ∨ used (fvm (vst p t X s) g) b u ∧ b ∉ D) →
  (∀ b u u', (∀ v, ¬ used (fvm (vst p t X s) g) b v) →
     used (fvm (vst p' t' X' s') g') b u → used (fvm (vst p' t' X' s') g') b u' → u = u') →
  fs_tables g' →
  (∀ i n, ramfs_nodes g' !! i = Some n → rn_in_use n = true → ramfs_nodes g !! i = Some n ∨ node_ok p' X' n) →
  sys_ok p' t' X' s' F' g'.
Proof.
  intros Hsys Hs Hl Huse Honce Ht Hn. pose proof Hsys as [Hi Hl0 Hh He]. destruct (kp_grows _ _ _ _ _ _ _ _ _ Hs) as (Hh' & He' & _).
  assert (pheld p' = []) as Hhp by (unfold pheld in *; congruence). assert (m_mmu_enabled (pmach p') = true) as Hep by congruence.
  assert (∀ b u, used (fvm (vst p t X s) g) b u → fe_live p b ∧ b ∉ B) as Hold.
  { intros b u Hu. destruct (si_live _ Hi b u Hu) as [_ Hlv]. split; [exact Hlv|].
    intros HB'. by apply (kstep_fresh _ _ _ _ _ _ _ _ _ b Hs HB'). }
  split; [|done|done|done]. split.
  - by apply (vm_inv_intro p' t' X' F').
  - intros b u [(Hb & Hlv & _)|[Hu HD]]%Huse; [by split|].
    destruct (Hold b u Hu) as [Hlv HnB]. split; [by apply (si_live _ Hi b u Hu)|].
    apply (kstep_live _ _ _ _ _ _ _ _ _ b Hs HnB). by split.
  - intros b u u' Hu Hu'. destruct (Huse b u Hu) as [(_ & _ & Hno)|[Hu1 _]]; [by eapply Honce|].
    destruct (Huse b u' Hu') as [(_ & _ & Hno)|[Hu2 _]]; [by eapply Honce|]. by eapply (si_once _ Hi).
  - by apply fs_tables_vm.
  - intros i n Hin Hus. destruct (Hn i n Hin Hus) as [Hin0|?]; [|done].
    apply (node_ok_step K B D p X F p' X' F' n Hs); [by apply (si_nodes _ Hi i n)|]. intros Hown Hsz.
    assert (used (fvm (vst p' t' X' s') g') (rn_data n) (UData i)) as Hu' by by exists n.
    assert (used (fvm (vst p t X s) g) (rn_data n) (UData i)) as Hu by by exists n.
    destruct (Hold _ _ Hu) as [Hlv HnB]. destruct (Huse _ _ Hu') as [(_ & _ & Hno)|[_ HD]]; [by apply Hno in Hu|by split].
Qed.

(** In particular when they are its new blocks. *)
Lemma sys_step K B D p t X s F g p' t' X' s' F' g' : sys_ok p t X s F g →
  kstep K B D p X F p' X' F' → life nobody p' X' F' s' →
  (∀ b u, used (fvm (vst p' t' X' s') g') b u → b ∈ B ∨ used (fvm (vst p t X s) g) b u ∧ b ∉ D) →
  (∀ b u u', b ∈ B → used (fvm (vst p' t' X' s') g') b u → used (fvm (vst p' t' X' s') g') b u' → u = u') →
  (∀ b, b ∈ B → b ≠ 0) → fs_tables g' →
  (∀ i n, ramfs_nodes g' !! i = Some n → rn_in_use n = true → ramfs_nodes g !! i = Some n ∨ node_ok p' X' n) →
  sys_ok p' t' X' s' F' g'.
Proof.
  intros Hsys Hs Hl Huse Honce HB Ht Hn. apply (sys_adopt K B D p t X s F g); try done.
  - intros b u Hu. destruct (Huse b u Hu) as [Hb|?]; [left|by right]. split; [by apply HB|].
    split; [by apply (kp_new _ _ _ _ _ _ _ _ _ Hs b Hb)|]. intros v Hv.
    apply (kstep_fresh _ _ _ _ _ _ _ _ _ b Hs Hb). by apply (si_live _ (so_inv _ _ _ _ _ _ Hsys) b v).
  - intros b u u' Hno Hu Hu'. destruct (Huse b u Hu) as [Hb|[Hu1 _]]; [by eapply Honce|by apply Hno in Hu1].
Qed.

(** A step that leaves every object. *)
Lemma sys_same K B p t X s F g p' : sys_ok p t X s F g → kstep K B [] p X F p' X F → sys_ok p' t X s F g.
Proof.
  intros Hsys Hs. apply (sys_adopt K B [] p t X s F g); [done|done| | | | |].
  - eapply life_ok; [apply Hsys|apply Hs].
  - intros b u Hu. right. split; [exact Hu|by intros ?%elem_of_nil].
  - intros b u u' Hno Hu. by apply Hno in Hu.
  - by eapply sys_tables.
  - intros i n Hin _. by left.
Qed.

(** The uses of a block depend on the domain of the address spaces and on the
    images of the processes. *)
Lemma used_xfer K R mm p t X s F g p' t' X' F' b u : vm_xfer K R mm p X F p' X' F' → is_Some (X !! mm) →
  used (fvm (vst p' t' X' s) g) b u → used (fvm (vst p t X s) g) b u.
Proof.
  intros Hx HX. destruct u as [| | | |]; try done. intros [c' HX']. change (X' !! b = Some c') in HX'. change (is_Some (X !! b)).
  destruct (decide (b = mm)) as [->|Hne]; [done|]. rewrite (proj1 (xf_dom _ _ _ _ _ _ _ _ _ Hx b Hne)) in HX'. by exists c'.
Qed.

Lemma used_proc p t X s g (f : gmap Z process) b u :
  (∀ q, pr_owned_images <$> f !! q = pr_owned_images <$> processes s !! q) →
  used (fvm (vst p t X (s <| processes := f |>)) g) b u → used (fvm (vst p t X s) g) b u.
Proof.
  intros Hf. destruct u as [| | | |q i]; try done.
  - intros [x Hx]. change (f !! b = Some x) in Hx. specialize (Hf b). rewrite Hx in Hf. change (is_Some (processes s !! b)).
    destruct (processes s !! b) as [y|]; [by exists y|done].
  - intros (pr & Hpr & Him & Hb). change (f !! q = Some pr) in Hpr. specialize (Hf q). rewrite Hpr in Hf.
    destruct (processes s !! q) as [y|] eqn:Hy; [|done]. injection Hf as Hf. exists y. split; [done|]. by rewrite <- Hf.
Qed.

(** An operation inside an address space. *)
Lemma sys_xfer K R mm p t X s F g p' t' X' F' : sys_ok p t X s F g → is_Some (X !! mm) →
  vm_xfer K R mm p X F p' X' F' → sys_ok p' t' X' s F' g.
Proof.
  intros [Hi Hl Hh He] [c HX] Hx. pose proof (life_xfer _ K R mm c _ _ _ _ _ _ _ Hl HX Hx) as Hl'.
  destruct (xf_grows _ _ _ _ _ _ _ _ _ Hx) as (Hh' & He' & _).
  assert (pheld p' = []) as Hhp by (unfold pheld in *; congruence). assert (m_mmu_enabled (pmach p') = true) as Hep by congruence.
  assert (∀ b u, used (fvm (vst p' t' X' s) g) b u → used (fvm (vst p t X s) g) b u) as Hu.
  { intros b u. eapply used_xfer; [exact Hx|by exists c]. }
  split; [|done|done|done]. split.
  - by apply (vm_inv_intro p' t' X' F').
  - intros b u Hub. destruct (si_live _ Hi b u (Hu b u Hub)) as [? ?]. split; [done|]. by apply (xf_span _ _ _ _ _ _ _ _ _ Hx).
  - intros b u u' H1%Hu H2%Hu. by eapply (si_once _ Hi).
  - by destruct (si_tables _ Hi).
  - intros i n Hin Hus. destruct (si_nodes _ Hi i n Hin Hus) as [Hsz Hb Hw]. split; [done|done|]. intros j Hj w.
    specialize (Hw j Hj). cbv zeta in Hw. fold w in Hw. destruct (rn_owns_data n); [by apply (xf_span _ _ _ _ _ _ _ _ _ Hx)|].
    destruct Hw as (Hm & Hun & Hno). destruct (xf_kernel _ _ _ _ _ _ _ _ _ Hx _ Hm Hun) as (? & ? & _).
    split; [done|]. split; [done|]. intros b. rewrite (xf_span _ _ _ _ _ _ _ _ _ Hx). apply Hno.
Qed.

(** The objects do not depend on a process except through its images. *)
Lemma sys_proc p t X s F g (f : gmap Z process) : sys_ok p t X s F g →
  (∀ q, pr_owned_images <$> f !! q = pr_owned_images <$> processes s !! q) →
  sys_ok p t X (s <| processes := f |>) F g.
Proof.
  intros [Hi Hl Hh He] Hf. assert (life nobody p X F (s <| processes := f |>)) as Hl' by by apply life_proc.
  assert (∀ b u, used (fvm (vst p t X (s <| processes := f |>)) g) b u → used (fvm (vst p t X s) g) b u) as Hu by (intros b u; by apply used_proc).
  split; [|done|done|done]. split.
  - by apply (vm_inv_intro p t X F).
  - intros b u Hub. apply (si_live _ Hi b u). by apply Hu.
  - intros b u u' H1%Hu H2%Hu. by eapply (si_once _ Hi).
  - by destruct (si_tables _ Hi).
  - apply (si_nodes _ Hi).
Qed.

End objects.
