(* ===== verification/FsSys.v ===== *)
(** * Files: the operations keep the kernel's invariant *)

From S2P Require Import Prelude Machine MmuTable MmuBoot Vmsa VmsaWalk VmsaFault VmBits VmsaSpec VmTree VmMap VmOwn VmUnmap VmBytes VmFrame VmFaultSpec VmCopy VmStep VmLife VmCreate VmCtx VmSys Fs FsSpec KernelObjects.

Open Scope kernel_scope.

Section fs_sys.
Context {P : Type} `{FrameLaws P}.
Implicit Types (p : P) (s : vstate P) (t : treg) (X : gmap Z mm_context) (F : Z → tmap) (g : fstate P) (K : Z → Prop).

(** A vnode comes and goes. *)
Definition with_vnode (vn mnt i : Z) g : fstate P := g <| vnodes := <[vn := vnode_of mnt i]> (vnodes g) |>.

Lemma tables_with_vnode vn mnt i g : fs_tables g → vn ≠ console_vnode → 0 ≤ i < RAMFS_FILES_MAX →
  fs_tables (with_vnode vn mnt i g).
Proof.
  intros [Hv Hm Hn] Hc Hi. split; [|intros m Hin; apply lookup_insert_is_Some'; right; by apply Hm|done].
  intros b x Hx. simpl in Hx. apply lookup_insert_Some in Hx as [[<- <-]|[_ Hx]]; [done|by apply Hv].
Qed.

Lemma wp_sys_open K path f (Q : option file → fstate P → Prop) p t X s F g : sys_ok p t X s F g →
  (∀ p', kstep K [] [] p X F p' X F → sys_ok p' t X s F g → Q None (fvm (vst p' t X s) g)) →
  (∀ p' vn mnt i n, kstep K [vn] [] p X F p' X F → vn ≠ 0 → file_node g path = Some (i, n) →
     vnodes g !! vn = None → sys_ok p' t X s F (with_vnode vn mnt i g) →
     Q (Some (File vn path 0 (rn_size n))) (fvm (vst p' t X s) (with_vnode vn mnt i g))) →
  wp (fs_open path f) Q (fvm (vst p t X s) g).
Proof.
  intros Hsys HQ0 HQ. pose proof (sys_tables _ _ _ _ _ _ Hsys) as Ht. pose proof (so_inv _ _ _ _ _ _ Hsys) as Hi.
  apply (wp_fs_open K _ _ _ _ _ _ _ F); [by eapply sys_ok_vm|by eapply sys_ok_lock|done| |].
  - intros p' Hs. apply HQ0; [done|]. by eapply sys_same.
  - intros p' vn mnt i n Hs Hvn Hc Hfn.
    assert (∀ b u, used (fvm (vst p t X s) g) b u → b ≠ vn) as Hfresh.
    { intros b u Hu ->. apply (kstep_fresh _ _ _ _ _ _ _ _ _ vn Hs); [by left|]. by apply (si_live _ Hi vn u). }
    apply (HQ p' vn mnt i n); [done|done|done| |].
    { destruct (vnodes g !! vn) as [x|] eqn:Hx; [|done]. by destruct (Hfresh vn UVnode (ex_intro _ x Hx)). }
    assert (0 ≤ i < RAMFS_FILES_MAX) as Hir.
    { apply file_node_find in Hfn. apply find_node_some in Hfn as (Hi0 & Hin & _). apply lookup_lt_Some in Hin. pose proof (ft_nodes _ Ht). lia. }
    apply (sys_step K [vn] [] p t X s F g); [done|done| | | | | |].
    + eapply life_ok; [apply Hsys|apply Hs].
    + intros b u Hu. destruct (decide (b = vn)) as [->|Hne]; [left; by left|right]. split; [|by intros ?%elem_of_nil].
      destruct u; try exact Hu. cbn in Hu. apply lookup_insert_is_Some in Hu as [->|[_ Hu]]; [done|exact Hu].
    + intros b u u' ->%list_elem_of_singleton Hu Hu'.
      assert (∀ u, used (fvm (vst p' t X s) (with_vnode vn mnt i g)) vn u → u = UVnode) as Honly; [|by rewrite (Honly u), (Honly u')].
      intros u0 Hu0. destruct u0; try done; exfalso; match type of Hu0 with used _ _ ?u1 => exact (Hfresh vn u1 Hu0 eq_refl) end.
    + by intros b ->%list_elem_of_singleton.
    + by apply tables_with_vnode.
    + intros j m Hj _. by left.
Qed.

Lemma wp_sys_close K f x (Q : file → fstate P → Prop) p t X s F g : sys_ok p t X s F g →
  vnodes g !! f_vn f = Some x → (∀ m, m ∈ mounts g → mt_root m ≠ f_vn f) →
  (∀ p', kstep K [] [f_vn f] p X F p' X F → sys_ok p' t X s F (g <| vnodes := delete (f_vn f) (vnodes g) |>) →
     Q (f <| f_vn := 0 |>) (fvm (vst p' t X s) (g <| vnodes := delete (f_vn f) (vnodes g) |>))) →
  wp (fs_close f) Q (fvm (vst p t X s) g).
Proof.
  intros Hsys Hx Hroot HQ. pose proof (sys_tables _ _ _ _ _ _ Hsys) as Ht. pose proof (so_inv _ _ _ _ _ _ Hsys) as Hi.
  assert (used (fvm (vst p t X s) g) (f_vn f) UVnode) as Huv by (by exists x).
  destruct (si_live _ Hi _ _ Huv) as [Hnz Hlv].
  apply (wp_fs_close K f x _ _ _ _ _ F); [by eapply sys_ok_vm|by eapply sys_ok_lock|done|done|done|done| |].
  { destruct (X !! f_vn f) as [c|] eqn:HX; [|done]. by pose proof (si_once _ Hi _ UVnode UCtx Huv (ex_intro _ c HX)). }
  intros p' Hs. apply HQ; [done|]. apply (sys_step K [] [f_vn f] p t X s F g); [done|done| | | | | |].
  - eapply life_ok; [apply Hsys|apply Hs].
  - intros b u Hu. right. assert (used (fvm (vst p t X s) g) b u) as Hu0.
    { destruct u; try exact Hu. cbn in Hu. by apply lookup_delete_is_Some in Hu as [_ Hu]. }
    split; [exact Hu0|]. intros ->%list_elem_of_singleton. rewrite (si_once _ Hi _ _ _ Hu0 Huv) in Hu.
    cbn in Hu. by apply lookup_delete_is_Some in Hu as [? _].
  - by intros b u u' ?%elem_of_nil.
  - by intros b ?%elem_of_nil.
  - destruct Ht as [Hv Hm Hn]. split; [|intros m Hin; simpl; apply lookup_delete_is_Some|done].
    { intros b y Hy. simpl in Hy. apply lookup_delete_Some in Hy as [_ Hy]. by apply Hv. }
     split; [by apply not_eq_sym, Hroot|by apply Hm].
  - intros j m Hj _. by left.
Qed.

(** ** Registration *)

Definition with_node (i : Z) (n : ramfs_node) g : fstate P :=
  g <| ramfs_nodes := <[Z.to_nat i := n]> (ramfs_nodes g) |>.
Definition new_node (path : string) (copy size : Z) : ramfs_node := RamfsNode true true (node_path path) copy size.

(** The node a registration takes: the one with the path, or a free one. *)
Definition target_node g (path : string) : option (Z * ramfs_node) :=
  match find_node (ramfs_nodes g) path with
  | Some x => Some x
  | None => prod_map Z.of_nat id <$> list_find (λ n, negb (rn_in_use n)) (ramfs_nodes g)
  end.

Lemma target_node_in g path i n : target_node g path = Some (i, n) → 0 ≤ i ∧ ramfs_nodes g !! Z.to_nat i = Some n.
Proof.
  unfold target_node. destruct (find_node (ramfs_nodes g) path) as [[j m]|] eqn:Hf.
  - intros [= -> ->]. by apply find_node_some in Hf as (? & ? & _).
  - destruct (list_find _ _) as [[k m]|] eqn:Hl; [|done]. intros [= <- <-]. apply list_find_Some in Hl as (Hk & _).
    cbn. rewrite Nat2Z.id. split; [lia|done].
Qed.

Lemma wp_target_node path (Q : option Z → fstate P → Prop) g : Q (fst <$> target_node g path) g →
  wp (found ← ramfs_find_node path; (match found with Some i => mret (Some i) | None => ramfs_free_node end)) Q g.
Proof.
  intros HQ. wp_step. apply wp_find_node. unfold target_node in HQ.
  destruct (find_node (ramfs_nodes g) path) as [[j m]|]; cbn [fmap option_fmap option_map fst] in *; [wp_step; exact HQ|].
  apply wp_gets. by destruct (list_find _ _) as [[k m]|].
Qed.

(** [size] client bytes at [data], in no address space. *)
Definition client_buf p X (data size : Z) : Prop :=
  kbuf data size ∧ u64 data = data ∧ ∀ i, 0 ≤ i < size → let w := word_of (va_to_pa data + i) in fe_mine p w ∧ untracked X w.

(** The node gets the copy; the replaced content, if it was owned, is freed. *)
Lemma register_kept p t X s F g path i n copy size p3 : let D := if rn_in_use n && rn_owns_data n then [rn_data n] else [] in
  sys_ok p t X s F g → ramfs_nodes g !! Z.to_nat i = Some n → kstep nowhere [copy] D p X F p3 X F →
  copy ≠ 0 → 0 ≤ size < 2 ^ 31 → kbuf copy size → (∀ j, 0 ≤ j < size → fe_span p3 copy (word_of (va_to_pa copy + j))) →
  sys_ok p3 t X s F (with_node i (new_node path copy size) g).
Proof.
  intros D Hsys Hin Hs Hc Hsz Hkb Hsp. pose proof (so_inv _ _ _ _ _ _ Hsys) as Hi.
  set (g' := with_node i (new_node path copy size) g).
  assert (∀ b u, used (fvm (vst p t X s) g) b u → b ≠ copy) as Hfresh.
  { intros b u Hu ->. apply (kstep_fresh _ _ _ _ _ _ _ _ _ copy Hs); [by left|]. by apply (si_live _ Hi copy u). }
  assert (∀ b, b ∈ D → used (fvm (vst p t X s) g) b (UData (Z.to_nat i))) as HD.
  { unfold D. destruct (rn_in_use n) eqn:Hu, (rn_owns_data n) eqn:Ho; cbn; intros b Hb; try by apply elem_of_nil in Hb.
    apply list_elem_of_singleton in Hb as ->. by exists n. }
  assert (∀ b u, used (fvm (vst p3 t X s) g') b u →
    b = copy ∧ u = UData (Z.to_nat i) ∨ used (fvm (vst p t X s) g) b u ∧ u ≠ UData (Z.to_nat i)) as Huse.
  { intros b u Hu. destruct u as [| |j| |q j]; try (right; split; [exact Hu|done]). destruct Hu as (m & Hm & Hu).
    simpl in Hm. apply list_lookup_insert_Some in Hm as [(<- & <- & _)|[Hne Hm]].
    - left. by destruct Hu as (_ & _ & <-).
    - right. split; [by exists m|]. intros [= ?]. congruence. }
  apply (sys_step nowhere [copy] D p t X s F g); [done|exact Hs| | | | | |].
  - eapply life_ok; [apply Hsys|apply Hs].
  - intros b u [[-> _]|[Hu Hne]]%Huse; [left; by left|right]. split; [done|]. intros Hb%HD.
    by rewrite (si_once _ Hi b u _ Hu Hb) in Hne.
  - intros b u u' ->%list_elem_of_singleton [[_ ->]|[Hu _]]%Huse [[_ ->]|[Hu' _]]%Huse; [done|..]; exfalso; by eapply Hfresh.
  - by intros b ->%list_elem_of_singleton.
  - destruct (sys_tables _ _ _ _ _ _ Hsys) as [Hv Hm Hn]. split; [done|done|]. simpl. by rewrite length_insert.
  - intros j m Hj _. simpl in Hj. apply list_lookup_insert_Some in Hj as [(_ & <- & _)|[_ Hj]]; [right|by left]. by split.
Qed.

Lemma wp_ramfs_register path data size (Q : bool → fstate P → Prop) p t X s F g : sys_ok p t X s F g →
  0 ≤ size < 2 ^ 31 → client_buf p X data size →
  (∀ p', kstep nowhere [] [] p X F p' X F → sys_ok p' t X s F g → Q false (fvm (vst p' t X s) g)) →
  (∀ p' i n copy, let old := rn_in_use n && rn_owns_data n in
     target_node g path = Some (i, n) → 0 ≤ i →
     kstep nowhere [copy] (if old then [rn_data n] else []) p X F p' X F →
     sys_ok p' t X s F (with_node i (new_node path copy size) g) →
     (∀ j, 0 ≤ j < size → rd8 (pmem p') (va_to_pa copy + j) = rd8 (pmem p) (va_to_pa data + j)) →
     Q true (fvm (vst p' t X s) (with_node i (new_node path copy size) g))) →
  wp (ramfs_register_file path data size) Q (fvm (vst p t X s) g).
Proof.
  intros Hsys Hsz (Hkb & Hu64 & Hbuf) HQ0 HQ.
  pose proof (sys_tables _ _ _ _ _ _ Hsys) as Ht. pose proof (so_inv _ _ _ _ _ _ Hsys) as Hi.
  pose proof (sys_ok_vm _ _ _ _ _ _ Hsys) as Hk. 
  assert (∀ p', kstep nowhere [] [] p X F p' X F → sys_ok p' t X s F g) as Hsame by (intros p' Hs; by eapply sys_same).
  change (ramfs_register_file path data size) with
    (found ← ramfs_find_node path;
     node ← (match found with Some i => mret (Some i) | None => ramfs_free_node end);
     match node with
     | None => mret false
     | Some i =>
         copy ← fs_kmalloc size;
         if copy =? 0 then mret false else
         fs_copy copy data size ;;
         n ← get_node i;
         whenM (rn_in_use n && rn_owns_data n) (fs_kfree (rn_data n)) ;;
         set_node i (new_node path copy size) ;;
         mret true
     end : M (fstate P) bool).
  wp_step. apply wp_find_node. wp_step.
  assert (∀ Q', Q' (fst <$> target_node g path) (fvm (vst p t X s) g) →
    wp (match fst <$> find_node (ramfs_nodes (fvm (vst p t X s) g)) path with Some i => mret (Some i) | None => ramfs_free_node end) Q'
      (fvm (vst p t X s) g)) as Htgt.
  { intros Q' HQ'. pose proof (wp_target_node path Q' (fvm (vst p t X s) g) HQ') as Hw. rewrite wp_bind in Hw.
    unfold wp at 1, ramfs_find_node, gets in Hw. unfold find_node. by destruct (list_find _ (ramfs_nodes (fvm (vst p t X s) g))) as [[k m]|]. }
  apply Htgt. clear Htgt. destruct (target_node g path) as [[i n]|] eqn:Hn; cbn [fmap option_fmap option_map fst]; cycle 1.
  { wp_step. apply HQ0; [by apply kstep_refl|done]. }
  destruct (target_node_in _ _ _ _ Hn) as [Hi0 Hin].
  wp_step. apply (wp_fs_kmalloc nowhere _ _ _ _ _ _ F); [done|by eapply sys_ok_lock|done| |].
  { intros p1 Hs1. change (0 =? 0) with true. cbn iota. wp_step. apply HQ0; [done|by apply Hsame]. }
  intros copy p1 Hc Hcu Hal Hck Hs1 Hcs. bfalse (copy =? 0). pose proof Hs1 as [Hk1 _ _ _ Hp1 Hn1 Hm1].
  destruct (Hn1 copy ltac:(by left)) as (Hlc & Hnc & Hmc).
  assert (∀ j, 0 ≤ j < size → fe_mine p1 (word_of (va_to_pa copy + j)) ∧ untracked X (word_of (va_to_pa copy + j))) as Hcm.
  { intros j Hj. by eapply span_client, Hcs. }
  wp_step. apply wp_fvm. apply (wp_copy_bytes copy data size); [done|done|apply Hk1|intros j Hj; by apply Hcm| |].
  { destruct (decide (size = 0)) as [->|Hnz]; [destruct (decide (va_to_pa data ≤ va_to_pa copy)); [left|right]; lia|].
    apply (apart_ranges (va_to_pa data) size (va_to_pa copy) size); [lia|lia|]. intros j k Hj Hk' Heq.
    apply (Hmc (va_to_pa copy + k)); [by apply Hcs|]. rewrite <- Heq. by apply Hbuf. }
  intros p2 Hw2. assert (kstep nowhere [copy] [] p X F p2 X F) as Hs2.
  { apply (kstep_wrote nowhere [copy] p X F p1 X F p2 (va_to_pa copy) size _ Hs1 Hw2); [|exact Hcm|].
    - destruct (decide (0 < size)); [by apply (kbuf_at copy size 0)|]. unfold va_to_pa, KERNEL_VA_OFFSET. destruct Hck as (? & _). case_match; bool_to_prop; lia.
    - intros j Hj. left. apply Hmc. by apply Hcs. }
  assert (∀ j, 0 ≤ j < size → rd8 (pmem p2) (va_to_pa copy + j) = rd8 (pmem p) (va_to_pa data + j)) as Hbytes.
  { intros j Hj. destruct (kbuf_at copy size j Hck Hj) as (_ & _ & _ & Hc0).
    rewrite (wt_bytes _ _ _ _ _ Hw2) by lia. rewrite decide_True by lia.
    replace (va_to_pa copy + j - va_to_pa copy) with j by lia. destruct (Hbuf j Hj) as [Hm Hun].
    apply Hm1; [done|done|by intros d ?%elem_of_nil|by intros []]. }
  assert (∀ p3 D, kstep nowhere [copy] D p X F p3 X F → D = (if rn_in_use n && rn_owns_data n then [rn_data n] else []) →
    (∀ j, 0 ≤ j < size → fe_span p3 copy (word_of (va_to_pa copy + j))) →
    sys_ok p3 t X s F (with_node i (new_node path copy size) g)) as Hfin.
  { intros p3 D Hs3 -> Hsp3. eapply register_kept; [done|done|exact Hs3|done..]. }
  wp_step. apply (wp_get_node i n); [done|exact Hin|]. wp_step.
  assert (∀ j, 0 ≤ j < size → fe_span p2 copy (word_of (va_to_pa copy + j))) as Hcs2.
  { intros j Hj. apply (so_span _ _ (wt_owner _ _ _ _ _ Hw2)). by apply Hcs. }
  destruct (rn_in_use n && rn_owns_data n) eqn:Hold; cbn [whenM]; cycle 1.
  { wp_step. wp_step. apply wp_modify. wp_step. apply (HQ p2 i n copy); rewrite ?Hold; [done|done|exact Hs2| |exact Hbytes].
    by apply (Hfin p2 []). }
  apply andb_true_iff in Hold as Hold'. destruct Hold' as [Huse Hown].
  assert (used (fvm (vst p t X s) g) (rn_data n) (UData (Z.to_nat i))) as Hud by by exists n.
  destruct (si_live _ Hi _ _ Hud) as [_ Hlv]. change (fe_live p (rn_data n)) in Hlv.
  assert (rn_data n ≠ copy) as Hne by (intros He; rewrite He in Hlv; by eapply Hnc).
  assert (X !! rn_data n = None) as HX.
  { destruct (X !! rn_data n) as [c|] eqn:HX; [|done]. by pose proof (si_once _ Hi _ _ UCtx Hud (ex_intro _ c HX)). }
  apply (wp_fs_kfree nowhere _ _ _ _ _ _ F); [apply Hs2| | |done|].
  { unfold pheld. rewrite (proj1 (kp_grows _ _ _ _ _ _ _ _ _ Hs2)). by eapply sys_ok_lock. }
  { apply (kstep_live _ _ _ _ _ _ _ _ _ _ Hs2); [by intros ?%list_elem_of_singleton|]. split; [done|apply not_elem_of_nil]. }
  intros p3 Hs23. wp_step. apply wp_modify. wp_step.
  assert (kstep nowhere [copy] [rn_data n] p X F p3 X F) as Hs3.
  { apply (kstep_trans nowhere [copy] [] [] [rn_data n] p X F p2 X F p3 X F); [done|exact Hs2|exact Hs23| |by left].
    intros b ->%list_elem_of_singleton Hb%list_elem_of_singleton. by symmetry in Hb. }
  assert (copy ∉ [rn_data n]) as Hcn by (intros ?%list_elem_of_singleton; congruence).
  apply (HQ p3 i n copy); rewrite ?Hold; [done|done|exact Hs3| |].
  - apply (Hfin p3 [rn_data n]); [done|done|]. intros j Hj. apply (kp_span _ _ _ _ _ _ _ _ _ Hs23); [apply not_elem_of_nil|].
    split; [by apply Hcs2|done].
  - intros j Hj. rewrite <- Hbytes by done. destruct (span_client p2 X F copy _ (kp_ok _ _ _ _ _ _ _ _ _ Hs2) (Hcs2 j Hj)) as [Hm Hun].
    apply (kp_mem _ _ _ _ _ _ _ _ _ Hs23); [done|done| |by intros []].
    intros d ->%list_elem_of_singleton Hsp. apply Hne. eapply fe_span_inj; [apply Hs2|exact Hsp|by apply Hcs2].
Qed.

(** Removal. *)
Definition drop_node (i : Z) (n : ramfs_node) g : fstate P := with_node i (n <| rn_in_use := false |>) g.

Lemma wp_ramfs_unregister path (Q : bool → fstate P → Prop) p t X s F g : sys_ok p t X s F g →
  (find_node (ramfs_nodes g) path = None → Q false (fvm (vst p t X s) g)) →
  (∀ p' i n, find_node (ramfs_nodes g) path = Some (i, n) →
     kstep nowhere [] (if rn_owns_data n then [rn_data n] else []) p X F p' X F →
     sys_ok p' t X s F (drop_node i n g) → Q true (fvm (vst p' t X s) (drop_node i n g))) →
  wp (ramfs_unregister_file path) Q (fvm (vst p t X s) g).
Proof.
  intros Hsys HQ0 HQ. pose proof (so_inv _ _ _ _ _ _ Hsys) as Hi. pose proof (sys_ok_vm _ _ _ _ _ _ Hsys) as Hk.
  unfold ramfs_unregister_file. wp_step. apply wp_find_node. change (ramfs_nodes (fvm (vst p t X s) g)) with (ramfs_nodes g).
  destruct (find_node (ramfs_nodes g) path) as [[i n]|] eqn:Hn; cbn [fmap option_fmap option_map fst]; cycle 1.
  { wp_step. by apply HQ0. }
  destruct (find_node_some _ _ _ _ Hn) as (Hi0 & Hin & Huse & _).
  wp_step. eapply wp_get_node; [done|exact Hin|]. wp_step.
  assert (∀ p' D, (∀ b, b ∈ D → rn_owns_data n = true ∧ b = rn_data n) → kstep nowhere [] D p X F p' X F →
    sys_ok p' t X s F (drop_node i n g)) as Hfin.
  { intros p' D HD Hs.
    assert (∀ b u, used (fvm (vst p' t X s) (drop_node i n g)) b u → used (fvm (vst p t X s) g) b u ∧ u ≠ UData (Z.to_nat i)) as Hu0.
    { intros b u Hu. destruct u as [| |j| |q j]; try (split; [exact Hu|done]). destruct Hu as (m & Hm & Hmu & Hu).
      simpl in Hm. apply list_lookup_insert_Some in Hm as [(_ & <- & _)|[Hne Hm]]; [done|].
      split; [by exists m|]. intros [= ->]. done. }
    apply (sys_step nowhere [] D p t X s F g); [done|exact Hs| | | | | |].
    - eapply life_ok; [apply Hsys|apply Hs].
    - intros b u [Hu Hne]%Hu0. right. split; [done|]. intros [Hown ->]%HD.
      by apply Hne, (si_once _ Hi _ _ _ Hu); exists n.
    - by intros b u u' ?%elem_of_nil.
    - by intros b ?%elem_of_nil.
    - destruct (sys_tables _ _ _ _ _ _ Hsys) as [Hv Hm Hl]. split; [done|done|]. simpl. by rewrite length_insert.
    - intros j m Hj Hmu. simpl in Hj. apply list_lookup_insert_Some in Hj as [(_ & <- & _)|[_ Hj]]; [done|by left]. }
  destruct (rn_owns_data n) eqn:Hown; cbn [whenM]; cycle 1.
  { wp_step. wp_step. apply wp_modify. wp_step. apply (HQ p i n); rewrite ?Hown; [done|by apply kstep_refl|].
    apply (Hfin p []); [by intros b ?%elem_of_nil|by apply kstep_refl]. }
  assert (used (fvm (vst p t X s) g) (rn_data n) (UData (Z.to_nat i))) as Hud by by exists n.
  destruct (si_live _ Hi _ _ Hud) as [_ Hlv].
  apply (wp_fs_kfree nowhere _ _ _ _ _ _ F); [done|by eapply sys_ok_lock|exact Hlv| |].
  { destruct (X !! rn_data n) as [c|] eqn:HX; [|done]. by pose proof (si_once _ Hi _ _ UCtx Hud (ex_intro _ c HX)). }
  intros p' Hs. wp_step. apply wp_modify. wp_step. apply (HQ p' i n); rewrite ?Hown; [done|exact Hs|].
  apply (Hfin p' [rn_data n]); [|exact Hs]. by intros b ->%list_elem_of_singleton.
Qed.

(** ** The abstract file system: a map from paths to contents *)

Definition node_content (m : gmap Z Z) (n : ramfs_node) : list Z :=
  (λ j, rd8 m (va_to_pa (rn_data n) + j)) <$> upto 0 (rn_size n).
Definition file_map g (path : string) : option (list Z) :=
  (λ x, node_content (pmem (fenv g)) x.2) <$> find_node (ramfs_nodes g) path.

(** No two files have the same path, and paths fit. *)
Definition paths_ok g : Prop := ∀ i j n m, ramfs_nodes g !! i = Some n → ramfs_nodes g !! j = Some m →
  rn_in_use n = true → rn_in_use m = true → rn_path n = rn_path m → i = j.

Lemma find_node_intro nodes path i n : nodes !! i = Some n → rn_in_use n = true → rn_path n = path →
  (∀ j m, nodes !! j = Some m → rn_in_use m = true → rn_path m = path → j = i) → find_node nodes path = Some (Z.of_nat i, n).
Proof.
  intros Hi Hu Hp Hone. destruct (find_node nodes path) as [[k m]|] eqn:Hf.
  - apply find_node_some in Hf as (Hk & Hm & Hmu & Hmp & _). pose proof (Hone _ _ Hm Hmu Hmp) as <-.
    rewrite Hi in Hm. injection Hm as ->. by rewrite Z2Nat.id.
  - by destruct (find_node_none _ _ Hf i n).
Qed.

Lemma find_node_not nodes path : (∀ j m, nodes !! j = Some m → rn_in_use m = true → rn_path m ≠ path) → find_node nodes path = None.
Proof.
  intros Hno. destruct (find_node nodes path) as [[k m]|] eqn:Hf; [|done].
  apply find_node_some in Hf as (_ & Hm & Hu & Hp & _). by destruct (Hno _ _ Hm Hu).
Qed.

Lemma paths_with_node g i n path : paths_ok g → 0 ≤ i → is_Some (ramfs_nodes g !! Z.to_nat i) →
  rn_in_use n = true → rn_path n = path →
  (∀ j m, ramfs_nodes g !! j = Some m → rn_in_use m = true → rn_path m = path → j = Z.to_nat i) →
  (∀ m, ramfs_nodes g !! Z.to_nat i = Some m → rn_in_use m = true → rn_path m = path) →
  paths_ok (with_node i n g) ∧ ∀ q, find_node (ramfs_nodes (with_node i n g)) q =
    if decide (q = path) then Some (i, n) else find_node (ramfs_nodes g) q.
Proof.
  intros Hok Hi [m0 Hm0] Hu Hp Hone Hold. pose proof (lookup_lt_Some _ _ _ Hm0) as Hlt.
  assert (∀ j m, ramfs_nodes (with_node i n g) !! j = Some m ↔ j = Z.to_nat i ∧ m = n ∨ j ≠ Z.to_nat i ∧ ramfs_nodes g !! j = Some m) as Hl.
  { intros j m. simpl. rewrite list_lookup_insert_Some. split; [intros [(-> & -> & _)|[? ?]]; [by left|by right]|].
    intros [[-> ->]|[? ?]]; [by left|by right]. }
  split.
  - intros j k mj mk [[-> ->]|[Hj Hmj]]%Hl [[-> ->]|[Hk Hmk]]%Hl Huj Huk Hpp; [done|..].
    + destruct Hk. apply (Hone k mk Hmk Huk). congruence.
    + destruct Hj. apply (Hone j mj Hmj Huj). congruence.
    + by apply (Hok j k mj mk).
  - intros q. case_decide as Hq.
    + subst q. rewrite (find_node_intro _ path (Z.to_nat i) n); [by rewrite Z2Nat.id|by apply Hl; left|done|done|].
      intros j m [[-> _]|[Hj Hm]]%Hl Hmu Hmp; [done|]. by apply (Hone j m).
    + destruct (find_node (ramfs_nodes g) q) as [[k m]|] eqn:Hf.
      * destruct (find_node_some _ _ _ _ Hf) as (Hk & Hm & Hmu & Hmp & _).
        assert (Z.to_nat k ≠ Z.to_nat i) as Hki by (intros He; rewrite He in Hm; apply Hq; rewrite <- Hmp; by apply Hold).
        rewrite (find_node_intro _ q (Z.to_nat k) m); [by rewrite Z2Nat.id|by apply Hl; right|done|done|].
        intros j m' [[-> ->]|[Hj Hm']]%Hl Hmu' Hmp'; [congruence|]. apply (Hok j (Z.to_nat k) m' m); try done. congruence.
      * apply find_node_not. intros j m [[-> ->]|[Hj Hm]]%Hl Hmu Hmp; [congruence|]. by apply (find_node_none _ _ Hf j m).
Qed.

(** A node's content survives a step that does not free its block. *)
Lemma content_kept K B D p X F p' X' F' n : vm_ok p X F → kstep K B D p X F p' X' F' → node_ok p X n →
  (rn_owns_data n = true → rn_data n ∉ D) → (∀ j, 0 ≤ j < rn_size n → ¬ K (va_to_pa (rn_data n) + j)) → node_content (pmem p') n = node_content (pmem p) n.
Proof.
  intros Hk Hs [Hsz Hb Hw] HD HK. unfold node_content. apply list_fmap_ext. intros j a Ha.
  rewrite upto_seqZ in Ha. apply lookup_seqZ in Ha as [-> Hj].
  specialize (Hw (0 + Z.of_nat j) ltac:(lia)). cbv zeta in Hw. set (q := va_to_pa (rn_data n) + _) in *.
  assert (fe_mine p (word_of q) ∧ untracked X (word_of q) ∧ ∀ d, d ∈ D → ¬ fe_span p d (word_of q)) as (Hm & Hu & Hd).
  { destruct (rn_owns_data n).
    - destruct (span_client p X F _ _ Hk Hw). split; [done|]. split; [done|]. intros d Hd Hsp. destruct (HD eq_refl).
      by rewrite (fe_span_inj p (rn_data n) d (word_of q)); [|apply Hk| |].
    - destruct Hw as (? & ? & Hno). split; [done|]. split; [done|]. intros d _. apply Hno. }
  apply (kp_mem _ _ _ _ _ _ _ _ _ Hs); [done|done|done|apply HK; lia].
Qed.

End fs_sys.
