(* ===== verification/FsClaims.v ===== *)
(** * Files: the claims *)

From S2P Require Import Prelude Machine MmuTable MmuBoot Vmsa VmsaWalk VmsaFault VmBits VmsaSpec VmTree VmMap VmOwn VmUnmap VmBytes VmFrame VmFaultSpec VmCopy VmStep VmLife VmCreate VmCtx VmSys VmEnv VmClaims Fs FsSpec KernelObjects FsSys.

Open Scope kernel_scope.

(** A use of the file interface: a file is registered from a buffer, removed,
    or opened, read into a buffer and closed, as [process_load_file_image]
    does. *)
Inductive fs_call : Type :=
  | Register (path : string) (data size : Z)
  | Unregister (path : string)
  | ReadFile (path : string) (dst len : Z).

Section claims.
Context {P : Type} `{FrameLaws P}.
Implicit Types (g : fstate P).

Definition fs_exec (c : fs_call) : M (fstate P) Z :=
  match c with
  | Register path data size => r ← fs_register_file path data size; mret (b2z r)
  | Unregister path => r ← fs_unregister_file path; mret (b2z r)
  | ReadFile path dst len =>
      o ← fs_open path (File 0 EmptyString 0 0);
      match o with
      | None => mret (-1)
      | Some f => r ← fs_read f dst len; fs_close r.2 ;; mret r.1
      end
  end.

(** Buffers are the clients' memory, in no address space; a buffer that is
    read into is in no file. *)
Definition fs_pre g (c : fs_call) : Prop :=
  match c with
  | Register path data size => Z.of_nat (String.length path) < RAMFS_PATH_MAX ∧ 0 ≤ size < 2 ^ 31 ∧
      client_buf (fenv g) (fctx g) data size
  | Unregister path => True
  | ReadFile path dst len => 0 ≤ len ∧ client_buf (fenv g) (fctx g) dst len ∧
      ∀ i n j k, ramfs_nodes g !! i = Some n → rn_in_use n = true → 0 ≤ j < len → 0 ≤ k < rn_size n →
        word_of (va_to_pa dst + j) ≠ word_of (va_to_pa (rn_data n) + k)
  end.

Definition buffer_bytes g (buf n : Z) : list Z := (λ j, rd8 (pmem (fenv g)) (va_to_pa buf + j)) <$> upto 0 n.

(** The effect on the map from paths to contents, and what a read returns. *)
Definition fs_spec g (c : fs_call) (r : Z) g' : Prop :=
  match c with
  | Register path data size =>
      r = 0 ∧ (∀ q, file_map g' q = file_map g q) ∨
      r = 1 ∧ ∀ q, file_map g' q = if decide (q = path) then Some (buffer_bytes g data size) else file_map g q
  | Unregister path =>
      r = (match file_map g path with Some _ => 1 | None => 0 end) ∧
      ∀ q, file_map g' q = if decide (q = path) then None else file_map g q
  | ReadFile path dst len => (∀ q, file_map g' q = file_map g q) ∧
      (r = -1 ∨ ∃ content, file_map g path = Some content ∧ r = Z.min len (Z.of_nat (length content)) ∧
         buffer_bytes g' dst r = take (Z.to_nat r) content)
  end.

Lemma substring_all (str : string) n : (String.length str ≤ n)%nat → String.substring 0 n str = str.
Proof.
  revert n. induction str as [|a str IH]; intros [|n] Hl; cbn in *; [done|done|lia|]. by rewrite IH by lia.
Qed.

Lemma node_path_short path : Z.of_nat (String.length path) < RAMFS_PATH_MAX → node_path path = path.
Proof. intros Hl. apply substring_all. unfold RAMFS_PATH_MAX in *. lia. Qed.

Lemma file_map_nodes g nodes q : ramfs_nodes g = nodes →
  file_map g q = (λ x, node_content (pmem (fenv g)) x.2) <$> find_node nodes q.
Proof. by intros <-. Qed.

Lemma length_content m n : 0 ≤ rn_size n → Z.of_nat (length (node_content m n)) = rn_size n.
Proof. intros Hn. unfold node_content. rewrite length_fmap, upto_seqZ, length_seqZ. lia. Qed.

Lemma take_upto r n : r ≤ n → take (Z.to_nat r) (upto 0 n) = upto 0 r.
Proof. intros Hr. rewrite !upto_seqZ. unfold seqZ. rewrite <- fmap_take, take_seq. do 2 f_equal. lia. Qed.

(** The contents that a step leaves. *)
Lemma file_map_kept K B D p t X s F g p' t' X' s' F' g' q : sys_ok p t X s F g → kstep K B D p X F p' X' F' →
  ramfs_nodes g' = ramfs_nodes g →
  (∀ i n, ramfs_nodes g !! i = Some n → rn_in_use n = true → (rn_owns_data n = true → rn_data n ∉ D) ∧
     ∀ j, 0 ≤ j < rn_size n → ¬ K (va_to_pa (rn_data n) + j)) →
  file_map (fvm (vst p' t' X' s') g') q = file_map (fvm (vst p t X s) g) q.
Proof.
  intros Hsys Hs Hn HK. rewrite (file_map_nodes (fvm (vst p' t' X' s') g') (ramfs_nodes g) q Hn), (file_map_nodes (fvm (vst p t X s) g) (ramfs_nodes g) q eq_refl).
  destruct (find_node (ramfs_nodes g) q) as [[i n]|] eqn:Hf; [|done]. cbn [fmap option_fmap option_map snd]. f_equal.
  destruct (find_node_some _ _ _ _ Hf) as (_ & Hin & Hu & _). destruct (HK _ n Hin Hu).
  apply (content_kept K B D p X F p' X' F' n); [by eapply sys_ok_vm|done| |done|done].
  by apply (si_nodes _ (so_inv _ _ _ _ _ _ Hsys) _ n Hin Hu).
Qed.

Lemma exec_register path data size p t X s F g : sys_ok p t X s F g → paths_ok g →
  fs_pre (fvm (vst p t X s) g) (Register path data size) →
  wp (fs_exec (Register path data size)) (λ r g', sys_inv g' ∧ paths_ok g' ∧
    fs_spec (fvm (vst p t X s) g) (Register path data size) r g') (fvm (vst p t X s) g).
Proof.
  intros Hsys Hp (Hlen & Hsz & Hbuf). pose proof (sys_ok_vm _ _ _ _ _ _ Hsys) as Hk. cbn [fs_exec]. unfold fs_register_file. wp_step.
  apply (wp_ramfs_register _ _ _ _ p t X s F g); [done|done|done| |].
  - intros p' Hs Hsys'. wp_step. split; [by eapply sys_ok_elim|]. split; [done|]. left. split; [done|]. intros q.
    eapply (file_map_kept nowhere [] [] p t X s F g); [done|exact Hs|done|]. intros i n _ _. split; [by intros _ ?%elem_of_nil|by intros j _ []].
  - intros p' i n copy old Htn Hi Hs Hsys' Hbytes. set (n' := new_node path copy size) in *.
    pose proof (node_path_short path Hlen) as Hnp. destruct (target_node_in _ _ _ _ Htn) as [_ Hin].
    assert ((∀ j m, ramfs_nodes g !! j = Some m → rn_in_use m = true → rn_path m = path → j = Z.to_nat i) ∧
            (∀ m, ramfs_nodes g !! Z.to_nat i = Some m → rn_in_use m = true → rn_path m = path)) as [Hone Hown].
    { unfold target_node in Htn. destruct (find_node (ramfs_nodes g) path) as [[k m]|] eqn:Hf.
      - injection Htn as -> ->. destruct (find_node_some _ _ _ _ Hf) as (_ & Hm & Hmu & Hmp & _).
        split; [intros j m' Hj Hju Hjp; apply (Hp j (Z.to_nat i) m' n); congruence|]. intros m' Hm' _. congruence.
      - destruct (list_find _ _) as [[k m]|] eqn:Hl; [|done]. injection Htn as <- <-. apply list_find_Some in Hl as (Hm & Hfree & _).
        cbn in *. rewrite Nat2Z.id in *. split; [intros j m' Hj Hju Hjp; by destruct (find_node_none _ _ Hf j m')|].
        intros m' Hm' Hu. rewrite Hm in Hm'. injection Hm' as <-. by rewrite Hu in Hfree. }
    destruct (paths_with_node g i n' path Hp Hi ltac:(by eexists) eq_refl Hnp Hone Hown) as [Hp' Hfind].
    wp_step. split; [by eapply sys_ok_elim|]. split; [done|]. right. split; [done|]. intros q.
    rewrite (file_map_nodes (fvm (vst p' t X s) (with_node i n' g)) (ramfs_nodes (with_node i n' g)) q eq_refl), Hfind. case_decide as Hq.
    + cbn [fmap option_fmap option_map snd]. f_equal. unfold node_content, buffer_bytes. cbn [rn_data rn_size n' new_node].
      apply list_fmap_ext. intros j a Ha. rewrite upto_seqZ in Ha. apply lookup_seqZ in Ha as [-> Hj]. apply Hbytes. lia.
    + rewrite (file_map_nodes (fvm (vst p t X s) g) (ramfs_nodes g) q eq_refl).
      destruct (find_node (ramfs_nodes g) q) as [[k m]|] eqn:Hf; [|done]. cbn [fmap option_fmap option_map snd]. f_equal.
      destruct (find_node_some _ _ _ _ Hf) as (_ & Hm & Hmu & Hmp & _).
      eapply (content_kept nowhere [copy]); [exact Hk|exact Hs| | |by intros j _ []].
      { by apply (si_nodes _ (so_inv _ _ _ _ _ _ Hsys) _ m Hm Hmu). }
      intros Hmo Hd. unfold old in Hd. destruct (rn_in_use n) eqn:Hnu; [|by apply elem_of_nil in Hd].
      destruct (rn_owns_data n) eqn:Hno; [|by apply elem_of_nil in Hd]. apply list_elem_of_singleton in Hd.
      assert (UData (Z.to_nat k) = UData (Z.to_nat i)) as [= Hki].
      { apply (si_once _ (so_inv _ _ _ _ _ _ Hsys) (rn_data m)); [by exists m|]. exists n. by rewrite Hd. }
      apply Hq. rewrite <- Hmp. apply Hown; [|done]. by rewrite <- Hki.
Qed.

Lemma exec_unregister path p t X s F g : sys_ok p t X s F g → paths_ok g →
  wp (fs_exec (Unregister path)) (λ r g', sys_inv g' ∧ paths_ok g' ∧
    fs_spec (fvm (vst p t X s) g) (Unregister path) r g') (fvm (vst p t X s) g).
Proof.
  intros Hsys Hp. pose proof (sys_ok_vm _ _ _ _ _ _ Hsys) as Hk. cbn [fs_exec]. unfold fs_unregister_file. wp_step.
  apply (wp_ramfs_unregister _ _ p t X s F g); [done| |].
  - intros Hf. wp_step. split; [by eapply sys_ok_elim|]. split; [done|].
    assert (file_map (fvm (vst p t X s) g) path = None) as Hn.
    { rewrite (file_map_nodes (fvm (vst p t X s) g) (ramfs_nodes g) path eq_refl), Hf. done. }
    cbn [fs_spec]. rewrite Hn. split; [done|]. intros q. by case_decide; subst.
  - intros p' i n Hf Hs Hsys'. wp_step. split; [by eapply sys_ok_elim|].
    destruct (find_node_some _ _ _ _ Hf) as (Hi & Hin & Hnu & Hnp & _). set (n' := n <| rn_in_use := false |>).
    assert (∀ j m, ramfs_nodes (drop_node i n g) !! j = Some m ∧ rn_in_use m = true ↔
              j ≠ Z.to_nat i ∧ ramfs_nodes g !! j = Some m ∧ rn_in_use m = true) as Hl.
    { intros j m. simpl. rewrite list_lookup_insert_Some. split; [intros [[(_ & <- & _)|[? ?]] Hu]; [done|by split]|].
      intros (Hne & Hm & Hu). split; [right; by split|done]. }
    split.
    { intros j k mj mk Hj Hk' Hju Hku. destruct (proj1 (Hl j mj) (conj Hj Hju)) as (_ & ? & _).
      destruct (proj1 (Hl k mk) (conj Hk' Hku)) as (_ & ? & _). by apply (Hp j k). }
    assert (∀ q, find_node (ramfs_nodes (drop_node i n g)) q = if decide (q = path) then None else find_node (ramfs_nodes g) q) as Hfind.
    { intros q. case_decide as Hq.
      - subst q. apply find_node_not. intros j m Hj Hju Hjp. destruct (proj1 (Hl j m) (conj Hj Hju)) as (Hne & Hm & _).
        apply Hne. apply (Hp j (Z.to_nat i) m n); try done. congruence.
      - destruct (find_node (ramfs_nodes g) q) as [[k m]|] eqn:Hfq.
        + destruct (find_node_some _ _ _ _ Hfq) as (Hk0 & Hm & Hmu & Hmp & _).
          rewrite (find_node_intro _ q (Z.to_nat k) m); [by rewrite Z2Nat.id| |done|done|].
          * apply (Hl (Z.to_nat k) m). split; [|done]. intros He. apply Hq. rewrite He in Hm. congruence.
          * intros j m' Hj Hju Hjp. destruct (proj1 (Hl j m') (conj Hj Hju)) as (_ & Hm' & _).
            apply (Hp j (Z.to_nat k) m' m); try done. congruence.
        + apply find_node_not. intros j m Hj Hju Hjp. destruct (proj1 (Hl j m) (conj Hj Hju)) as (_ & Hm & _).
          by apply (find_node_none _ _ Hfq j m). }
    cbn [fs_spec]. rewrite (file_map_nodes (fvm (vst p t X s) g) (ramfs_nodes g) path eq_refl), Hf. split; [done|]. intros q.
    rewrite (file_map_nodes (fvm (vst p' t X s) (drop_node i n g)) (ramfs_nodes (drop_node i n g)) q eq_refl), Hfind. case_decide as Hq; [done|].
    rewrite (file_map_nodes (fvm (vst p t X s) g) (ramfs_nodes g) q eq_refl).
    destruct (find_node (ramfs_nodes g) q) as [[k m]|] eqn:Hfq; [|done]. cbn [fmap option_fmap option_map snd]. f_equal.
    destruct (find_node_some _ _ _ _ Hfq) as (_ & Hm & Hmu & Hmp & _).
    eapply (content_kept nowhere []); [exact Hk|exact Hs| | |by intros j _ []].
    { by apply (si_nodes _ (so_inv _ _ _ _ _ _ Hsys) _ m Hm Hmu). }
    intros Hmo Hd. destruct (rn_owns_data n) eqn:Hno; [|by apply elem_of_nil in Hd]. apply list_elem_of_singleton in Hd.
    assert (UData (Z.to_nat k) = UData (Z.to_nat i)) as [= Hki].
    { apply (si_once _ (so_inv _ _ _ _ _ _ Hsys) (rn_data m)); [by exists m|]. exists n. by rewrite Hd. }
    apply Hq. rewrite <- Hmp. rewrite Hki in Hm. congruence.
Qed.

(** The vnode of an open file is not the root of a mount: the blocks differ. *)
Lemma exec_read path dst len p t X s F g : sys_ok p t X s F g → paths_ok g →
  fs_pre (fvm (vst p t X s) g) (ReadFile path dst len) →
  wp (fs_exec (ReadFile path dst len)) (λ r g', sys_inv g' ∧ paths_ok g' ∧
    fs_spec (fvm (vst p t X s) g) (ReadFile path dst len) r g') (fvm (vst p t X s) g).
Proof.
  intros Hsys Hp (Hlen & (Hkb & Hu & Hbuf) & Hap). pose proof (sys_ok_vm _ _ _ _ _ _ Hsys) as Hk.
  pose proof (sys_tables _ _ _ _ _ _ Hsys) as Ht. cbn [fs_exec]. wp_step.
  apply (wp_sys_open nowhere _ _ _ p t X s F g); [done| |].
  { intros p1 Hs1 Hsys1. wp_step. split; [by eapply sys_ok_elim|]. split; [done|]. split; [|by left]. intros q.
    eapply (file_map_kept nowhere [] [] p t X s F g); [done|exact Hs1|done|]. intros i n _ _. split; [by intros _ ?%elem_of_nil|by intros j _ []]. }
  intros p1 vn mnt i n Hs1 Hvn Hfn Hno Hsys1. set (g1 := with_vnode vn mnt i g) in *.
  pose proof (file_node_find _ _ _ Hfn) as Hf. destruct (find_node_some _ _ _ _ Hf) as (Hi & Hin & Hnu & _).
  pose proof (si_nodes _ (so_inv _ _ _ _ _ _ Hsys1) _ n Hin Hnu) as Hnok. change (node_ok p1 X n) in Hnok.
  assert (∀ j, 0 ≤ j < len → fe_mine p1 (word_of (va_to_pa dst + j)) ∧ untracked X (word_of (va_to_pa dst + j))) as Hd1.
  { intros j Hj. destruct (Hbuf j Hj) as [Hm Hun]. by destruct (kp_mem _ _ _ _ _ _ _ _ _ Hs1 _ Hm Hun ltac:(by intros d ?%elem_of_nil)) as (? & ? & _). }
  wp_step. apply (wp_fs_read (File vn path 0 (rn_size n)) mnt i n dst len _ p1 t X s F g1); [by eapply sys_ok_vm|by eapply sys_tables| |done|done|exact Hin|done|done|done|done| | |].
  { apply lookup_insert_eq. }
  { intros j Hj. by apply Hd1. }
  { intros j k Hj Hk'. by eapply Hap. }
  cbn [f_offset]. set (c := read_count n 0 len). intros p2 Hw2.
  assert (c = Z.min len (rn_size n)) as Hc.
  { unfold c, read_count. pose proof (no_size _ _ _ Hnok). destruct (rn_size n <=? 0) eqn:?; bool_to_prop; lia. }
  set (K := λ a, va_to_pa dst ≤ a < va_to_pa dst + c).
  assert (kstep K [] [] p1 X F p2 X F) as Hs2.
  { apply (kstep_wrote K [] p1 X F p1 X F p2 (va_to_pa dst) c (λ j, rd8 (pmem p1) (va_to_pa (rn_data n) + (0 + j)))); [by apply kstep_refl; eapply sys_ok_vm|exact Hw2| | |].
    - destruct (decide (0 < len)); [by apply (kbuf_at dst len 0)|]. unfold va_to_pa, KERNEL_VA_OFFSET. destruct Hkb as (? & _). case_match; bool_to_prop; lia.
    - intros j Hj. apply Hd1. lia.
    - intros j Hj. right. unfold K. lia. }
  assert (sys_ok p2 t X s F g1) as Hsys2 by by eapply sys_same.
  assert (∀ k m, ramfs_nodes g !! k = Some m → rn_in_use m = true → ∀ j, 0 ≤ j < rn_size m → ¬ K (va_to_pa (rn_data m) + j)) as HK.
  { intros k m Hm Hmu j Hj HKj. unfold K in HKj. apply (Hap k m (va_to_pa (rn_data m) + j - va_to_pa dst) j Hm Hmu); [lia|done|]. f_equal. lia. }
  wp_step. eapply (wp_sys_close nowhere _ _ _ p2 t X s F g1); [done|apply lookup_insert_eq| |].
  { intros m Hm Hr. destruct (ft_mount _ Ht m Hm) as [x Hx]. rewrite Hr in Hx. change (vnodes g !! vn = Some x) in Hx. congruence. }
  cbn [f_vn]. intros p3 Hs3 Hsys3. wp_step. split; [by eapply sys_ok_elim|]. split; [exact Hp|]. cbn [fs_spec fst].
  assert (∀ q, file_map (fvm (vst p3 t X s) (g1 <| vnodes := delete vn (vnodes g1) |>)) q = file_map (fvm (vst p t X s) g) q) as Hmap.
  { intros q. etrans; [eapply (file_map_kept nowhere [] [vn] p2 t X s F g1); [done|exact Hs3|done|]|].
    { intros k m Hm Hmu. split; [|by intros j _ []]. intros Hmo Hd%list_elem_of_singleton.
      assert (UData k = UVnode); [|done]. apply (si_once _ (so_inv _ _ _ _ _ _ Hsys2) (rn_data m)); [by exists m|].
      rewrite Hd. eexists. apply lookup_insert_eq. }
    etrans; [eapply (file_map_kept K [] [] p1 t X s F g1); [done|exact Hs2|done|]|].
    { intros k m Hm Hmu. split; [by intros _ ?%elem_of_nil|by eapply HK]. }
    eapply (file_map_kept nowhere [vn] [] p t X s F g); [done|exact Hs1|done|].
    intros k m Hm Hmu. split; [by intros _ ?%elem_of_nil|by intros j _ []]. }
  split; [exact Hmap|]. right. exists (node_content (pmem p) n).
  rewrite (file_map_nodes (fvm (vst p t X s) g) (ramfs_nodes g) path eq_refl), Hf. split; [done|].
  pose proof (si_nodes _ (so_inv _ _ _ _ _ _ Hsys) _ n Hin Hnu) as Hnok0. pose proof (no_size _ _ _ Hnok0) as Hsz.
  rewrite length_content, <- Hc by lia. split; [done|].
  assert (node_content (pmem p1) n = node_content (pmem p) n) as <-.
  { eapply (content_kept nowhere [vn] []); [exact Hk|exact Hs1|exact Hnok0|by intros _ ?%elem_of_nil|by intros j _ []]. }
  unfold buffer_bytes, node_content. rewrite <- fmap_take, take_upto by lia.
  apply list_fmap_ext. intros j a Ha. rewrite upto_seqZ in Ha. apply lookup_seqZ in Ha as [-> Hj].
  change (fenv (fvm (vst p3 t X s) (g1 <| vnodes := delete vn (vnodes g1) |>))) with p3.
  destruct (kbuf_at dst len (0 + Z.of_nat j) Hkb ltac:(lia)) as (_ & _ & _ & Hd0).
  destruct (Hd1 (0 + Z.of_nat j) ltac:(lia)) as [Hm1 Hu1].
  destruct (kp_mem _ _ _ _ _ _ _ _ _ Hs2 _ Hm1 Hu1 ltac:(by intros d ?%elem_of_nil)) as (Hm2 & Hu2 & _).
  etrans; [apply (kp_mem _ _ _ _ _ _ _ _ _ Hs3); [done|done| |by intros []]|].
  - intros d ->%list_elem_of_singleton Hsp.
    assert (fe_span p1 vn (word_of (va_to_pa dst + (0 + Z.of_nat j)))) as Hsp1.
    { apply (kp_span _ _ _ _ _ _ _ _ _ Hs2) in Hsp as [Hsp _]; [done|apply not_elem_of_nil]. }
    apply (kp_new _ _ _ _ _ _ _ _ _ Hs1 vn ltac:(by left)) in Hsp1. apply Hsp1, Hbuf. lia.
  - rewrite (wt_bytes _ _ _ _ _ Hw2) by lia. rewrite decide_True by lia. f_equal. lia.
Qed.

(** C37.  The RAM file system is a map from paths to contents.  Under the
    kernel's invariant, with distinct paths, every call returns and keeps
    both: a registration replaces the content of its path by a copy of the
    buffer, or fails and changes nothing; a removal says whether the file was
    there and removes it; opening, reading and closing a file delivers the
    first bytes of its content, as many as fit, and changes no file. *)
Theorem ram_files_refine_map g c : sys_inv g → paths_ok g → fs_pre g c →
  ∃ r g', fs_exec c g = Some (r, g') ∧ sys_inv g' ∧ paths_ok g' ∧ fs_spec g c r g'.
Proof.
  intros Hi Hp Hpre. destruct (sys_normal g Hi) as (p & t & X & s & F & Hg & Hsys).
  assert (wp (fs_exec c) (λ r g', sys_inv g' ∧ paths_ok g' ∧ fs_spec g c r g') g) as Hwp.
  { rewrite Hg in Hpre |- *. destruct c; [by eapply exec_register|by eapply exec_unregister|by eapply exec_read]. }
  destruct (wp_elim _ _ _ Hwp) as (r & g' & Hr & Hres). by exists r, g'.
Qed.

End claims.

(** The kernel with the address spaces of [v], no process and no file. *)
Definition no_files {P} `{FrameEnv P} (v : vstate P) : fstate P :=
  FState (v <| processes := ∅ |>) [] [] (replicate (Z.to_nat RAMFS_FILES_MAX) ramfs_node0) ∅ [].

Section no_files.
Context {P : Type} `{FrameLaws P}.
Implicit Types (v : vstate P).

Lemma no_node v i n : ramfs_nodes (no_files v) !! i = Some n → rn_in_use n = false.
Proof. by intros [-> _]%lookup_replicate_1. Qed.

Lemma no_files_inv v : vm_inv v → sys_inv (no_files v).
Proof.
  intros ([F Hl] & Hh & He).
  assert (∀ b u, used (no_files v) b u → u = UCtx ∧ is_Some (mm_contexts v !! b)) as Hu.
  { intros b [| |i| |q i] Hb; [done|..]; exfalso; cbn in Hb.
    - by destruct Hb as [x Hx].
    - destruct Hb as (n & Hin & Hu & _). by rewrite (no_node v i n Hin) in Hu.
    - by destruct Hb as [x Hx].
    - by destruct Hb as (pr & Hpr & _). }
  split.
  - split; [|done]. exists F. by apply (life_proc nobody (venv v) (mm_contexts v) F v ∅).
  - intros b u (-> & c & Hc)%Hu. by apply (vk_live _ _ _ (lf_ok _ _ _ _ _ Hl) b c).
  - by intros b u u' [-> _]%Hu [-> _]%Hu.
  - split; [done|by intros m ?%elem_of_nil|reflexivity].
  - intros i n Hin Hus. by rewrite (no_node v i n Hin) in Hus.
Qed.

Lemma no_files_paths v : paths_ok (no_files v).
Proof. intros i j n m Hn _ Hu. by rewrite (no_node v i n Hn) in Hu. Qed.

Lemma no_files_buffer v buf n : kernel_buffer (venv v) (mm_contexts v) buf n → client_buf (fenv (no_files v)) (fctx (no_files v)) buf n.
Proof. intros (_ & Hk). exact Hk. Qed.

Lemma no_files_register v path data size : (Z.of_nat (String.length path) <? RAMFS_PATH_MAX) && (0 <=? size) && (size <? 2 ^ 31) = true →
  kernel_buffer (venv v) (mm_contexts v) data size → fs_pre (no_files v) (Register path data size).
Proof. intros Hb (_ & Hk). bool_to_prop. split; [lia|]. split; [lia|exact Hk]. Qed.

End no_files.

#[local] Opaque v_mapped vm_buf v_mm.

Lemma ram_files_refine_map_witness : ∃ r g', fs_exec (Register "/a" (pa_to_va vm_buf) 16) (no_files v_mapped) = Some (r, g') ∧
  sys_inv g' ∧ paths_ok g' ∧ fs_spec (no_files v_mapped) (Register "/a" (pa_to_va vm_buf) 16) r g'.
Proof.
  apply (ram_files_refine_map (no_files v_mapped) (Register "/a" (pa_to_va vm_buf) 16)).
  - exact (no_files_inv v_mapped (vm_reach_inv _ v_mapped_reach)).
  - exact (no_files_paths v_mapped).
  - exact (no_files_register v_mapped "/a" (pa_to_va vm_buf) 16 eq_refl v_buffer).
Defined.
