(* ===== verification/Log.v ===== *)
(** * Console and log: src/src/kernel/console.c and log.c

    What the kernel writes to the UART, over the state of the file component,
    which has the bytes sent ([console_out]).  A C string is a string; the
    variable arguments of [log_printf] are a list of [log_arg].  The other
    components log through an event of the trace (Machine.v) instead. *)

From Stdlib Require Import Ascii.
From S2P Require Import Prelude Machine MmuTable Vmsa VmsaSpec Fs.

Open Scope kernel_scope.

(** One argument of [log_printf]: a string, null for [None], or the 64 bits of
    a number. *)
Inductive log_arg : Type := LogStr (s : option string) | LogNum (v : Z).

Definition char_code (c : ascii) : Z := Z.of_N (N_of_ascii c).
Definition string_codes (s : string) : list Z := char_code <$> String.list_ascii_of_string s.

(** [sizeof(buffer)] in [log_write_u64_unlocked]. *)
Definition U64_BUFFER : Z := 21.

(** [digits[(value >> shift) & 0xf]]. *)
Definition hex_digit (value shift : Z) : Z :=
  let d := Z.land (Z.shiftr value shift) 0xf in if d <? 10 then 48 + d else 87 + d.

(** [rx] is the byte the UART has received, if any. *)
Definition console_try_getc (rx : option Z) : option Z := u8 <$> rx.

Section log.
Context {P : Type} `{FrameEnv P}.

Abbreviation fs := (fstate P).

Definition console_lock_acquire : M fs unit := up (S := vstate P) (vlock L_console).
Definition console_lock_release : M fs unit := up (S := vstate P) (vunlock L_console).

(** [m] between the two. *)
Definition with_console {A} (m : M fs A) : M fs A :=
  console_lock_acquire ;; a ← m; console_lock_release ;; mret a.

Definition console_write_unlocked (message : string) : M fs unit := forM_ (string_codes message) console_putc_unlocked.

(** The shifts of the loop are 60, 56, ..., 0. *)
Definition console_write_hex_unlocked (value : Z) : M fs unit :=
  console_write_unlocked "0x" ;;
  forM_ (upto 0 16) (λ i, console_putc_unlocked (hex_digit value (60 - 4 * i))).

Definition console_putc (ch : Z) : M fs unit := with_console (console_putc_unlocked ch).
Definition console_write (message : string) : M fs unit := with_console (console_write_unlocked message).
Definition console_write_hex (value : Z) : M fs unit := with_console (console_write_hex_unlocked value).

(** The digits go into the array from the last to the first; a store outside
    the array has no outcome. *)
Definition log_write_u64_unlocked (value : Z) : M fs unit :=
  if value =? 0 then console_putc_unlocked 48 else
  buffer ← whileM 32 (λ '(value, buffer),
    if value =? 0 then mret (inr buffer) else
    if U64_BUFFER <=? Z.of_nat (length buffer) then ub else
    mret (inl (value / 10, buffer ++ [48 + value mod 10]))) (value, []);
  forM_ (reverse buffer) console_putc_unlocked.

Definition log_putc (ch : Z) : M fs unit := with_console (console_putc_unlocked ch).
Definition log_write (message : string) : M fs unit := with_console (console_write_unlocked message).
Definition log_write_hex (value : Z) : M fs unit := with_console (console_write_hex_unlocked value).
Definition log_write_u64 (value : Z) : M fs unit := with_console (log_write_u64_unlocked value).

(** [va_arg]; a missing argument or one of another kind has no outcome. *)
Definition arg_num (args : list log_arg) : M fs (Z * list log_arg) :=
  match args with LogNum v :: args => mret (v, args) | _ => ub end.
Definition arg_str (args : list log_arg) : M fs (option string * list log_arg) :=
  match args with LogStr s :: args => mret (s, args) | _ => ub end.

(** The [switch] on the conversion [c]; the rest of the arguments. *)
Definition log_spec (is_long : bool) (c : ascii) (args : list log_arg) : M fs (list log_arg) :=
  let unsigned v := if is_long then u64 v else u32 v in
  let signed v := if is_long then s64 v else s32 v in
  match c with
  | "s"%char =>
      '(s, args) ← arg_str args;
      console_write_unlocked (default "(null)" s) ;; mret args
  | "c"%char => '(v, args) ← arg_num args; console_putc_unlocked (u8 v) ;; mret args
  | "u"%char => '(v, args) ← arg_num args; log_write_u64_unlocked (unsigned v) ;; mret args
  | "d"%char =>
      '(v, args) ← arg_num args;
      (if signed v <? 0 then
         console_putc_unlocked 45 ;;
         if signed v =? - 2 ^ 63 then ub else log_write_u64_unlocked (- signed v)
       else log_write_u64_unlocked (signed v)) ;;
      mret args
  | "x"%char => '(v, args) ← arg_num args; console_write_hex_unlocked (unsigned v) ;; mret args
  | "p"%char => '(v, args) ← arg_num args; console_write_hex_unlocked (u64 v) ;; mret args
  | "%"%char => console_putc_unlocked 37 ;; mret args
  | _ =>
      console_putc_unlocked 37 ;;
      whenM is_long (console_putc_unlocked 108) ;;
      console_putc_unlocked (char_code c) ;;
      mret args
  end.

(** The loop over the format; a format that ends after a [%] is read past its
    end. *)
Fixpoint log_format (fmt : list ascii) (args : list log_arg) : M fs unit :=
  match fmt with
  | [] => mret ()
  | c :: p =>
      if negb (Ascii.eqb c "%") then console_putc_unlocked (char_code c) ;; log_format p args else
      match p with
      | [] => ub
      | c :: p =>
          if Ascii.eqb c "l" then
            match p with
            | [] => ub
            | c :: p => args ← log_spec true c args; log_format p args
            end
          else args ← log_spec false c args; log_format p args
      end
  end.

(** [curr] is the name and the id of the current task, if it has a name. *)
Definition log_printf (cpu : Z) (curr : option (string * Z)) (fmt : string) (args : list log_arg) : M fs unit :=
  with_console (
    console_putc_unlocked 91 ;;
    console_write_unlocked "cpu" ;;
    log_write_u64_unlocked cpu ;;
    (match curr with
     | Some (name, id) =>
         console_putc_unlocked 58 ;; console_write_unlocked name ;; console_putc_unlocked 58 ;; log_write_u64_unlocked id
     | None => mret ()
     end) ;;
    console_write_unlocked "] " ;;
    log_format (String.list_ascii_of_string fmt) args).

End log.

(** ** What the number writers print

    [prints m a l]: from every state in which the UART can be used, [m]
    returns [a] and the UART has sent [l]; nothing else changes. *)

Section held.
Context {T : Type} `{Sub machine T}.
Implicit Types t : T.

Definition held_of t : list lock := m_held (sub_get t : machine).
Definition with_held (h : list lock) t : T := sub_set ((sub_get t : machine) <| m_held := h |>) t.

Lemma with_held_get h t : held_of (with_held h t) = h.
Proof. unfold held_of, with_held. by rewrite sub_get_set. Qed.

Lemma with_held_back h t : with_held (held_of t) (with_held h t) = t.
Proof.
  unfold held_of, with_held. rewrite sub_get_set, sub_set_set. 
  transitivity (sub_set (sub_get t : machine) t); [|apply sub_set_get]. f_equal. by destruct (sub_get t : machine).
Qed.

Lemma lock_with_held l t : can_lock l (held_of t) = true →
  up (T := T) (spin_lock_irqsave l) t = Some ((), with_held (l :: held_of t) t).
Proof. unfold up, spin_lock_irqsave, held_of. by intros ->. Qed.

Lemma unlock_with_held l h t : held_of t = l :: h → up (T := T) (spin_unlock_irqrestore l) t = Some ((), with_held h t).
Proof. unfold up, spin_unlock_irqrestore, held_of. intros ->. by rewrite decide_True. Qed.

End held.

Section prints.
Context {P : Type} `{FrameEnv P}.
Implicit Types (s : fstate P) (l : list Z).

Definition fheld s : list lock := held_of (f_vm s).
Definition sent l s : fstate P := s <| console_out := reverse l ++ console_out s |>.

Definition prints {A} (m : M (fstate P) A) (a : A) l : Prop :=
  ∀ s, can_lock L_uart (fheld s) = true → m s = Some (a, sent l s).

Lemma sent_sent l l' s : sent l' (sent l s) = sent (l ++ l') s.
Proof. unfold sent. destruct s. cbn. by rewrite reverse_app, (assoc_L (++)). Qed.

Lemma sent_nil s : sent [] s = s.
Proof. by destruct s. Qed.

Lemma prints_ret {A} (a : A) : prints (mret a) a [].
Proof. intros s _. by rewrite sent_nil. Qed.

Lemma prints_bind {A B} (m : M (fstate P) A) (k : A → M (fstate P) B) a b l l' :
  prints m a l → prints (k a) b l' → prints (m ≫= k) b (l ++ l').
Proof. intros Hm Hk s Hs. unfold mbind, M_bind. rewrite (Hm s Hs), (Hk (sent l s) Hs). by rewrite sent_sent. Qed.

Lemma prints_forM {A} (f : A → M (fstate P) unit) (g : A → list Z) (xs : list A) :
  (∀ x, x ∈ xs → prints (f x) () (g x)) → prints (forM_ xs f) () (xs ≫= g).
Proof.
  induction xs as [|x xs IH]; intros Hf; [apply prints_ret|]. cbn [forM_]. rewrite bind_cons.
  apply prints_bind with (); [apply Hf; by left|]. apply IH. intros y Hy. apply Hf. by right.
Qed.

(** The same with the locks [h] held. *)
Definition holding (h : list lock) s : fstate P := s <| f_vm := with_held h (f_vm s) |>.

Lemma holding_held h s : fheld (holding h s) = h.
Proof. exact (with_held_get h (f_vm s)). Qed.

Lemma holding_sent h l s : sent l (holding h s) = holding h (sent l s).
Proof. done. Qed.

Lemma lock_holds lk s : can_lock lk (fheld s) = true → up (S := vstate P) (vlock lk) s = Some ((), holding (lk :: fheld s) s).
Proof. intros Hl. pose proof (lock_with_held lk (f_vm s) Hl) as Hw. unfold up at 1. cbn [sub_get sub_fs_vm]. unfold vlock. by rewrite Hw. Qed.

Lemma unlock_holds lk s : up (S := vstate P) (vunlock lk) (holding (lk :: fheld s) s) = Some ((), s).
Proof.
  pose proof (unlock_with_held lk (fheld s) (with_held (lk :: fheld s) (f_vm s)) (with_held_get _ _)) as Hw.
  unfold up at 1. change (sub_get (holding (lk :: fheld s) s)) with (with_held (lk :: fheld s) (f_vm s)).
  unfold vunlock. rewrite Hw. unfold fheld at 1. rewrite with_held_back. by destruct s.
Qed.

(** What runs under a lock prints the same. *)
Lemma prints_locked {A} lk (m : M (fstate P) A) a l s : can_lock lk (fheld s) = true →
  m (holding (lk :: fheld s) s) = Some (a, sent l (holding (lk :: fheld s) s)) →
  (up (S := vstate P) (vlock lk) ;; a ← m; up (S := vstate P) (vunlock lk) ;; mret a) s = Some (a, sent l s).
Proof.
  intros Hl Hm. unfold mbind, M_bind. rewrite (lock_holds lk s Hl), Hm, holding_sent.
  change (fheld s) with (fheld (sent l s)). by rewrite unlock_holds.
Qed.

Lemma prints_pl011 v : prints (pl011_write v) () [v].
Proof.
  intros s Hs. pose proof (prints_locked L_uart (modify (λ s, s <| console_out := v :: console_out s |>)) () [v] s Hs eq_refl) as Hp.
  unfold pl011_write. unfold mbind, M_bind in *. destruct (up (vlock L_uart) s) as [[[] s1]|]; [|done]. cbn in *.
  by destruct (up (vunlock L_uart) _) as [[[] s2]|].
Qed.

(** A line feed is sent with a carriage return before it. *)
Definition raw (ch : Z) : list Z := if ch =? 10 then [13; 10] else [u8 ch].

Lemma prints_putc ch : prints (console_putc_unlocked ch) () (raw ch).
Proof.
  unfold console_putc_unlocked, raw. destruct (ch =? 10) eqn:Hc; bool_to_prop; cbn [whenM].
  - subst. apply (prints_bind _ _ () () [13] [10]); apply prints_pl011.
  - apply (prints_bind _ _ () () [] [u8 ch]); [apply prints_ret|apply prints_pl011].
Qed.

Lemma prints_codes (cs : list Z) : Forall (λ c, 10 < c < 256) cs → prints (forM_ cs console_putc_unlocked) () cs.
Proof.
  intros Hcs. replace cs with (cs ≫= raw) at 2; [apply prints_forM; intros; apply prints_putc|].
  induction Hcs as [|c cs Hc _ IH]; [done|]. rewrite bind_cons, IH. unfold raw. bfalse (c =? 10).
  unfold u8. rewrite Z.mod_small by lia. done.
Qed.

(** ** Numbers read back *)

(** The value of digits in base [b], the first the most significant. *)
Definition read_base (b : Z) (digits : list Z) : Z := foldl (λ acc d, b * acc + d) 0 digits.

Lemma read_base_app b ds d : read_base b (ds ++ [d]) = b * read_base b ds + d.
Proof. unfold read_base. by rewrite foldl_app. Qed.

(** The digits of [value] to base 10, the last first, below [10 ^ n]. *)
Fixpoint decimal (n : nat) (value : Z) : list Z :=
  match n with
  | O => []
  | Datatypes.S n' => if value =? 0 then [] else value mod 10 :: decimal n' (value / 10)
  end.

Lemma decimal_digits n value : 0 ≤ value → Forall (λ d, 0 ≤ d < 10) (decimal n value).
Proof.
  revert value. induction n as [|n IH]; intros value Hv; cbn; [constructor|]. destruct (value =? 0); [constructor|].
  constructor; [by apply Z.mod_pos_bound|]. apply IH. apply Z.div_pos; lia.
Qed.

Lemma decimal_value n value : 0 ≤ value < 10 ^ Z.of_nat n → read_base 10 (reverse (decimal n value)) = value.
Proof.
  revert value. induction n as [|n IH]; intros value Hv; [change (10 ^ Z.of_nat 0) with 1 in Hv; cbn; lia|]. cbn [decimal].
  destruct (value =? 0) eqn:Hz; bool_to_prop; [by subst|]. rewrite reverse_cons, read_base_app, IH.
  - pose proof (Z.div_mod value 10). lia.
  - rewrite Nat2Z.inj_succ, Z.pow_succ_r in Hv by lia. split; [apply Z.div_pos; lia|]. apply Z.div_lt_upper_bound; lia.
Qed.

Lemma decimal_length n value : (length (decimal n value) ≤ n)%nat.
Proof. revert value. induction n as [|n IH]; intros value; cbn; [lia|]. destruct (value =? 0); cbn; [lia|]. specialize (IH (value / 10)). lia. Qed.

(** The loop of [log_write_u64_unlocked]. *)
Lemma u64_loop n fuel value buffer s : (n < fuel)%nat → 0 ≤ value < 10 ^ Z.of_nat n → Z.of_nat (length buffer + n) < U64_BUFFER →
  whileM fuel (λ '(value, buffer),
    if value =? 0 then mret (inr buffer) else
    if U64_BUFFER <=? Z.of_nat (length buffer) then ub else
    mret (inl (value / 10, buffer ++ [48 + value mod 10]))) (value, buffer) s =
  Some (buffer ++ ((λ d, 48 + d) <$> decimal n value), s).
Proof.
  revert n value buffer. induction fuel as [|fuel IH]; intros n value buffer Hn Hv Hb; [lia|]. cbn [whileM]. unfold mbind at 1, M_bind.
  destruct (value =? 0) eqn:Hz; bool_to_prop.
  - subst. cbn. replace (decimal n 0) with (@nil Z) by (by destruct n). by rewrite app_nil_r.
  - destruct n as [|n]; [change (10 ^ Z.of_nat 0) with 1 in Hv; lia|]. bfalse (U64_BUFFER <=? Z.of_nat (length buffer)). cbn.
    rewrite (IH n).
    + bfalse (value =? 0). cbn. by rewrite <- (assoc_L (++)).
    + lia.
    + rewrite Nat2Z.inj_succ, Z.pow_succ_r in Hv by lia. split; [apply Z.div_pos; lia|]. apply Z.div_lt_upper_bound; lia.
    + rewrite length_app. cbn. lia.
Qed.

(** [log_write_u64_unlocked] stays within its array and prints decimal digits
    that read back as the value. *)
Theorem log_u64_reads_back value : 0 ≤ value < 2 ^ 64 → ∃ digits,
  prints (log_write_u64_unlocked value) () ((λ d, 48 + d) <$> digits) ∧
  Forall (λ d, 0 ≤ d < 10) digits ∧ (1 ≤ length digits ≤ 20)%nat ∧ read_base 10 digits = value.
Proof.
  intros Hv. unfold log_write_u64_unlocked. destruct (value =? 0) eqn:Hz; bool_to_prop.
  { subst. exists [0]. split; [apply (prints_putc 48)|]. split; [by repeat constructor|]. split; [cbn; lia|done]. }
  assert (0 ≤ value < 10 ^ Z.of_nat 20) as Hv' by (change (10 ^ Z.of_nat 20) with 100000000000000000000; lia).
  exists (reverse (decimal 20 value)). split.
  - intros s Hs. unfold mbind, M_bind. rewrite (u64_loop 20) by (done || lia). cbn [app].
    rewrite <- fmap_reverse. apply prints_codes; [|done]. apply Forall_fmap, Forall_reverse.
    eapply Forall_impl; [apply decimal_digits; lia|]. cbn. lia.
  - split; [apply Forall_reverse, decimal_digits; lia|]. split; [rewrite length_reverse; split; [cbn; bfalse (value =? 0); cbn; lia|apply decimal_length]|].
    by apply decimal_value.
Qed.

(** ** Hexadecimal *)

Lemma forM_fmap {S A B} (g : A → B) (f : B → M S unit) (xs : list A) : forM_ (g <$> xs) f = forM_ xs (λ x, f (g x)).
Proof.
  induction xs as [|x xs IH]; [done|]. change (g <$> x :: xs) with (g x :: (g <$> xs)). cbn [forM_].
  by rewrite IH.
Qed.

Definition hex_value (c : Z) : Z := if c <? 58 then c - 48 else c - 87.

Lemma hex_digit_value value shift : hex_value (hex_digit value shift) = Z.land (Z.shiftr value shift) 0xf ∧
  10 < hex_digit value shift < 256.
Proof.
  unfold hex_digit, hex_value. change 0xf with (Z.ones 4). rewrite Z.land_ones by done.
  pose proof (Z.mod_pos_bound (Z.shiftr value shift) (2 ^ 4) eq_refl). set (d := Z.shiftr value shift mod 2 ^ 4) in *. cbv zeta.
  destruct (d <? 10) eqn:Hd; bool_to_prop.
  - btrue (48 + d <? 58). lia.
  - bfalse (87 + d <? 58). lia.
Qed.

(** The value of the first [k] digits that are printed. *)
Lemma hex_prefix value k : 0 ≤ value < 2 ^ 64 → (k ≤ 16)%nat →
  read_base 16 ((λ i, hex_value (hex_digit value (60 - 4 * i))) <$> upto 0 (Z.of_nat k)) = value / 2 ^ (64 - 4 * Z.of_nat k).
Proof.
  intros Hv. induction k as [|k IH]; intros Hk.
  { cbn. rewrite Z.div_small; [done|lia]. }
  rewrite upto_seqZ in *. rewrite Nat2Z.inj_succ in *. unfold Z.succ. rewrite seqZ_app by lia.
  rewrite fmap_app.
  replace (seqZ (0 + Z.of_nat k) 1) with [Z.of_nat k] by (cbn; f_equal; lia). cbn [fmap list_fmap]. rewrite read_base_app, IH by lia.
  rewrite (proj1 (hex_digit_value _ _)). change 0xf with (Z.ones 4). rewrite Z.land_ones, Z.shiftr_div_pow2 by lia.
  replace (60 - 4 * Z.of_nat k) with (64 - 4 * (Z.of_nat k + 1)) by lia.
  set (m := 64 - 4 * (Z.of_nat k + 1)). replace (64 - 4 * Z.of_nat k) with (m + 4) by lia.
  rewrite Z.pow_add_r, <- Z.div_div by lia. change (2 ^ 4) with 16. rewrite (Z.div_mod (value / 2 ^ m) 16) at 3 by done. lia.
Qed.

(** [console_write_hex_unlocked] prints a prefix and sixteen digits that read
    back as the value. *)
Theorem hex_reads_back value : 0 ≤ value < 2 ^ 64 → ∃ digits,
  prints (console_write_hex_unlocked value) () (48 :: 120 :: digits) ∧ length digits = 16%nat ∧
  Forall (λ c, ∃ shift, c = hex_digit value shift) digits ∧ read_base 16 (hex_value <$> digits) = value.
Proof.
  intros Hv. exists ((λ i, hex_digit value (60 - 4 * i)) <$> upto 0 16). split; [|split; [done|split]].
  - unfold console_write_hex_unlocked. apply (prints_bind _ _ () () [48; 120]).
    { apply (prints_codes [48; 120]). by repeat constructor. }
    rewrite <- forM_fmap. apply prints_codes. apply Forall_fmap, Forall_forall. intros i _. apply hex_digit_value.
  - apply Forall_fmap, Forall_forall. intros i _. by eexists.
  - rewrite <- list_fmap_compose. pose proof (hex_prefix value 16 Hv ltac:(lia)) as Hp.
    change (64 - 4 * Z.of_nat 16) with 0 in Hp. rewrite Z.div_1_r in Hp. exact Hp.
Qed.

End prints.
