(* ===== verification/Process.v ===== *)
(** * Processes: src/src/kernel/process.c, images and process objects

    ELF images are read from memory byte by byte.  A process object is an entry
    of [processes] by its address; [garbage] is what a fresh block holds before
    the code assigns its fields.  [kstack] is the address of the array of that
    name in the frame of [process_populate_arg_stack].  The functions that
    work on tasks are in ProcTask. *)

From S2P Require Import Prelude Machine MmuTable MmuBoot Vmsa VmsaWalk VmsaFault Fs.

Open Scope kernel_scope.

Definition ELF_CLASS_64 : Z := 2.
Definition ELF_DATA_LE : Z := 1.
Definition ELF_ET_EXEC : Z := 2.
Definition ELF_ET_DYN : Z := 3.
Definition ELF_EM_AARCH64 : Z := 183.
Definition ELF_PT_LOAD : Z := 1.
Definition ELF_PT_INTERP : Z := 3.
Definition ELF_PF_X : Z := 1.
Definition ELF_PF_W : Z := 2.
Definition SIZEOF_EHDR : Z := 64.
Definition SIZEOF_PHDR : Z := 56.
Definition SIZEOF_PROCESS : Z := 1120.

Definition PROCESS_ELF_HEAP_GUARD_SIZE : Z := PAGE_SIZE.
Definition PROCESS_ELF_LOAD_STRIDE : Z := 0x10000.
Definition PROCESS_ELF_OBJECTS_MAX : Z := 8.
Definition PROCESS_ELF_NAME_MAX : Z := 64.
Definition PROCESS_OWNED_IMAGES_MAX : Z := 8.
Definition KSTACK_SIZE : Z := 1024.

Definition AT_NULL : Z := 0.
Definition AT_PHDR : Z := 3.
Definition AT_PHENT : Z := 4.
Definition AT_PHNUM : Z := 5.
Definition AT_PAGESZ : Z := 6.
Definition AT_BASE : Z := 7.
Definition AT_ENTRY : Z := 9.
Definition AT_EXECFN : Z := 31.

(** The fields that are read. *)
Record elf64_ehdr : Type := Ehdr {
  e_class : Z; e_data : Z; e_type : Z; e_machine : Z; e_entry : Z; e_phoff : Z;
  e_phentsize : Z; e_phnum : Z;
}.
Record elf64_phdr : Type := Phdr {
  p_type : Z; p_flags : Z; p_offset : Z; p_vaddr : Z; p_filesz : Z; p_memsz : Z;
}.

Record process_elf_object : Type := ElfObject {
  eo_name : string;
  eo_owned_image : Z;
  eo_image : Z;
  eo_image_size : Z;
  eo_phdrs : Z;
  eo_phnum : Z;
  eo_image_start : Z;
  eo_image_end : Z;
  eo_load_bias : Z;
  eo_mapped_end : Z;
}.

(** [ls_objects] are the first [object_count] entries of [objects]. *)
Record process_elf_load_state : Type := LoadState {
  ls_process : Z;
  ls_objects : list process_elf_object;
  ls_max_mapped_end : Z;
  ls_main_phdr_va : Z;
  ls_main_phent : Z;
  ls_main_phnum : Z;
  ls_main_entry : Z;
  ls_interp_load_bias : Z;
  ls_interp_entry : Z;
}.

#[export] Instance eta_load_state : Eta process_elf_load_state := λ l,
  LoadState (ls_process l) (ls_objects l) (ls_max_mapped_end l) (ls_main_phdr_va l) (ls_main_phent l)
    (ls_main_phnum l) (ls_main_entry l) (ls_interp_load_bias l) (ls_interp_entry l).

(** ** Pure parts *)

Definition process_align_up (value alignment : Z) : Z :=
  Z.land (u64 (value + alignment - 1)) (not64 (alignment - 1)).
Definition process_align_down (value alignment : Z) : Z := Z.land value (not64 (alignment - 1)).

(** The string, when it and its terminator fit. *)
Definition process_copy_string (src : string) (max_len : Z) : option string :=
  if Z.of_nat (String.length src) <? max_len then Some src else None.

Definition process_elf_page_flags (elf_flags : Z) : Z :=
  let page_flags := bits [MMU_USER_PAGE_NORMAL; MMU_USER_PAGE_AF; MMU_USER_PAGE_INNER_SH] in
  if negb (Z.land elf_flags ELF_PF_W =? 0) then
    Z.lor page_flags (bits [MMU_USER_PAGE_AP_RW; MMU_USER_PAGE_UXN; MMU_USER_PAGE_PXN])
  else if negb (Z.land elf_flags ELF_PF_X =? 0) then
    Z.lor page_flags (bits [MMU_USER_PAGE_AP_RO; MMU_USER_PAGE_PXN])
  else Z.lor page_flags (bits [MMU_USER_PAGE_AP_RO; MMU_USER_PAGE_UXN; MMU_USER_PAGE_PXN]).

(** [process_validate_elf_header] on the header's fields. *)
Definition ehdr_valid (h : elf64_ehdr) (image_size : Z) : bool :=
  (e_class h =? ELF_CLASS_64) && (e_data h =? ELF_DATA_LE) &&
  ((e_type h =? ELF_ET_EXEC) || (e_type h =? ELF_ET_DYN)) && (e_machine h =? ELF_EM_AARCH64) &&
  negb (e_phoff h =? 0) && (e_phentsize h =? SIZEOF_PHDR) && negb (e_phnum h =? 0) &&
  negb (image_size <? u64 (e_phoff h + e_phnum h * SIZEOF_PHDR)).

(** The loop of [process_elf_load_bounds] on the program headers. *)
Fixpoint load_bounds (l : list elf64_phdr) (min_vaddr max_vaddr : Z) (found : bool) : option (Z * Z) :=
  match l with
  | [] => if found then Some (min_vaddr, max_vaddr) else None
  | h :: l' =>
      if negb (p_type h =? ELF_PT_LOAD) || (p_memsz h =? 0) then load_bounds l' min_vaddr max_vaddr found
      else if p_memsz h <? p_filesz h then None
      else
        let segment_end := u64 (p_vaddr h + p_memsz h) in
        if segment_end <=? p_vaddr h then None else
        load_bounds l'
          (if negb found || (p_vaddr h <? min_vaddr) then p_vaddr h else min_vaddr)
          (if negb found || (max_vaddr <? segment_end) then segment_end else max_vaddr) true
  end.
Definition process_elf_load_bounds (l : list elf64_phdr) : option (Z * Z) :=
  load_bounds l (not64 0) 0 false.

(** [process_map_elf_segment] up to the call of [process_add_region]: nothing
    to map, an invalid segment, or the region. *)
Definition elf_segment (image image_size : Z) (h : elf64_phdr) (load_bias : Z) : option (option vm_region) :=
  if negb (p_type h =? ELF_PT_LOAD) || (p_memsz h =? 0) then Some None else
  if negb (Z.land (p_flags h) ELF_PF_W =? 0) && negb (Z.land (p_flags h) ELF_PF_X =? 0) then None else
  if (p_memsz h <? p_filesz h) || (image_size <? u64 (p_offset h + p_filesz h)) then None else
  let vaddr_start := p_vaddr h in
  let vaddr_end := u64 (vaddr_start + p_memsz h) in
  let aligned_vaddr := process_align_down vaddr_start PAGE_SIZE in
  let aligned_vaddr_end := process_align_up vaddr_end PAGE_SIZE in
  let offset_diff := u64 (vaddr_start - aligned_vaddr) in
  let segment_start := u64 (load_bias + aligned_vaddr) in
  let segment_end := u64 (load_bias + aligned_vaddr_end) in
  let segment_offset := u64 (p_offset h - offset_diff) in
  let segment_filesz := u64 (p_filesz h + offset_diff) in
  if (segment_start <? USER_CODE_BASE) || (USER_HEAP_LIMIT <? segment_end) || (segment_end <=? segment_start)
  then None
  else Some (Some (VmRegion segment_start segment_end VM_TYPE_ELF (process_elf_page_flags (p_flags h))
                     image segment_offset segment_filesz)).

(** The next load base and the bias, 0 when the image does not fit. *)
Definition choose_bias (next_base image_start image_end : Z) : Z * Z :=
  let image_span := process_align_up (u64 (image_end - image_start)) PAGE_SIZE in
  if (image_span =? 0) || (USER_HEAP_LIMIT - USER_CODE_BASE <=? image_span) then (next_base, 0) else
  let max_base := u64 (USER_HEAP_LIMIT - PROCESS_ELF_HEAP_GUARD_SIZE - image_span) in
  if max_base <? USER_CODE_BASE then (next_base, 0) else
  let base := if (next_base <? USER_CODE_BASE) || (max_base <? next_base) then USER_CODE_BASE else next_base in
  let next := u64 (base + PROCESS_ELF_LOAD_STRIDE) in
  (if max_base <? next then USER_CODE_BASE else next, u64 (base - image_start)).

(** The flags of the stack and heap regions, and of the code region of a flat
    binary. *)
Definition CODE_FLAGS : Z :=
  bits [MMU_USER_PAGE_NORMAL; MMU_USER_PAGE_AF; MMU_USER_PAGE_INNER_SH; MMU_USER_PAGE_AP_RO; MMU_USER_PAGE_PXN].

Section process.
Context {P : Type} `{FrameEnv P}.

Record pstate : Type := PState {
  p_fs : fstate P;
  process_next_elf_load_base : Z;
}.

#[global] Instance eta_pstate : Eta pstate := λ s, PState (p_fs s) (process_next_elf_load_base s).

#[global, refine] Instance sub_proc_fs : Sub (fstate P) pstate := {
  sub_get := p_fs;
  sub_set := λ v s, s <| p_fs := v |>;
}.
Proof. all: intros; by destruct t. Defined.

Definition vm {A} (m : M (vstate P) A) : M pstate A := up (S := fstate P) (up (S := vstate P) m).
Definition fs {A} (m : M (fstate P) A) : M pstate A := up (S := fstate P) m.
Definition p_kmalloc (size : Z) : M pstate Z := fs (fs_kmalloc size).
Definition p_kfree (ptr : Z) : M pstate unit := fs (fs_kfree ptr).
Definition p_load8 (ptr : Z) : M pstate Z := vm (up (S := machine) (load8 ptr)).
Definition p_store8 (ptr v : Z) : M pstate unit := vm (up (S := machine) (store8 ptr v)).
Definition ker_info (message : string) : M pstate unit := vm (ker_logf message 0).
Definition cpu_invalidate_icache_all : M pstate unit := vm (up (S := machine) (emit (Ev_sysreg "ic iallu" 0))).

(** A little-endian field of [n] bytes. *)
Fixpoint load_le (n : nat) (ptr : Z) : M pstate Z :=
  match n with
  | O => mret 0
  | Datatypes.S n' => b ← p_load8 (u64 ptr); r ← load_le n' (ptr + 1); mret (b + 256 * r)
  end.
Fixpoint store_le (n : nat) (ptr v : Z) : M pstate unit :=
  match n with
  | O => mret ()
  | Datatypes.S n' => p_store8 (u64 ptr) (v mod 256) ;; store_le n' (ptr + 1) (v / 256)
  end.

Definition load_ehdr (image : Z) : M pstate elf64_ehdr :=
  c ← load_le 1 (image + 4); d ← load_le 1 (image + 5); ty ← load_le 2 (image + 16);
  ma ← load_le 2 (image + 18); en ← load_le 8 (image + 24); po ← load_le 8 (image + 32);
  ps ← load_le 2 (image + 54); pn ← load_le 2 (image + 56);
  mret (Ehdr c d ty ma en po ps pn).
Definition load_phdr (ptr : Z) : M pstate elf64_phdr :=
  ty ← load_le 4 ptr; fl ← load_le 4 (ptr + 4); po ← load_le 8 (ptr + 8); va ← load_le 8 (ptr + 16);
  fz ← load_le 8 (ptr + 32); mz ← load_le 8 (ptr + 40);
  mret (Phdr ty fl po va fz mz).
(** [phdrs[0], ..., phdrs[phnum - 1]]. *)
Definition load_phdrs (phdrs phnum : Z) : M pstate (list elf64_phdr) :=
  foldM (upto 0 phnum) (λ l i, h ← load_phdr (u64 (phdrs + SIZEOF_PHDR * i)); mret (l ++ [h])) [].

(** The C string at [ptr], as far as anyone looks: paths are compared with
    node paths of at most 63 characters and copied to arrays of 64. *)
Fixpoint load_path (n : nat) (ptr : Z) : M pstate string :=
  match n with
  | O => mret EmptyString
  | Datatypes.S n' =>
      b ← p_load8 (u64 ptr);
      if b =? 0 then mret EmptyString else
      r ← load_path n' (ptr + 1);
      mret (String (Ascii.ascii_of_N (Z.to_N b)) r)
  end.

Definition process_is_elf_image (image image_size : Z) : M pstate bool :=
  if (image =? 0) || (image_size <? SIZEOF_EHDR) then mret false else
  a ← p_load8 (u64 image); b ← p_load8 (u64 (image + 1)); c ← p_load8 (u64 (image + 2)); d ← p_load8 (u64 (image + 3));
  mret ((a =? 0x7f) && (b =? 0x45) && (c =? 0x4c) && (d =? 0x46)).

Definition process_validate_elf_header (ehdr image_size : Z) : M pstate bool :=
  if (ehdr =? 0) || (image_size <? SIZEOF_EHDR) then mret false else
  h ← load_ehdr ehdr;
  mret (ehdr_valid h image_size).

Definition process_choose_elf_load_bias (image_start image_end : Z) : M pstate Z :=
  λ s, let '(next, bias) := choose_bias (process_next_elf_load_base s) image_start image_end in
       Some (bias, s <| process_next_elf_load_base := next |>).

(** ** The process object *)

Definition get_proc (p : Z) : M pstate process := vm (get_process p).
Definition upd_proc (p : Z) (f : process → process) : M pstate unit :=
  vm (λ s, match processes s !! p with
           | Some x => Some ((), s <| processes := <[p := f x]> (processes s) |>)
           | None => None
           end).
Definition lock_proc (p : Z) : M pstate unit := vm (lock_process p).
Definition unlock_proc (p : Z) : M pstate unit := vm (vunlock (L_process p)).
(** [kmalloc(sizeof(struct process))]. *)
Definition new_process (garbage : process) : M pstate Z :=
  p ← p_kmalloc SIZEOF_PROCESS;
  if p =? 0 then mret 0 else
  vm (modify (λ s, s <| processes := <[p := garbage]> (processes s) |>)) ;;
  mret p.
Definition free_process (p : Z) : M pstate unit :=
  vm (modify (λ s, s <| processes := delete p (processes s) |>)) ;; p_kfree p.

Definition process_add_region (p start stop : Z) (type : vm_type) (flags image offset filesz : Z) : M pstate bool :=
  lock_proc p ;;
  pr ← get_proc p;
  if PROCESS_VM_REGIONS_MAX <=? Z.of_nat (length (pr_regions pr)) then unlock_proc p ;; mret false else
  upd_proc p (λ x, x <| pr_regions := pr_regions x ++ [VmRegion start stop type flags image offset filesz] |>) ;;
  unlock_proc p ;;
  mret true.

Definition process_map_elf_segment (p image image_size : Z) (h : elf64_phdr) (load_bias : Z) : M pstate bool :=
  match elf_segment image image_size h load_bias with
  | None => mret false
  | Some None => mret true
  | Some (Some r) =>
      process_add_region p (vr_start r) (vr_end r) (vr_type r) (vr_flags r) (vr_elf_image r) (vr_elf_offset r) (vr_file_size r)
  end.

(** ** Loaded images *)

Definition process_release_loaded_images (st : process_elf_load_state) : M pstate unit :=
  forM_ (ls_objects st) (λ o, whenM (negb (eo_owned_image o =? 0)) (p_kfree (eo_owned_image o))).

(** The captured images leave [st]: releasing it afterwards frees nothing. *)
Definition process_capture_loaded_images (p : Z) (st : process_elf_load_state) : M pstate unit :=
  forM_ (ls_objects st) (λ o,
    if eo_owned_image o =? 0 then mret () else
    pr ← get_proc p;
    if Z.of_nat (length (pr_owned_images pr)) <? PROCESS_OWNED_IMAGES_MAX
    then upd_proc p (λ x, x <| pr_owned_images := pr_owned_images x ++ [eo_owned_image o] |>)
    else p_kfree (eo_owned_image o)).

(** The image and its size. *)
Definition process_load_file_image (path : string) : M pstate (option (Z * Z)) :=
  f ← fs (fs_open path (File 0 EmptyString 0 0));
  match f with
  | None => mret None
  | Some f =>
      let file_size := f_size f in
      buffer ← p_kmalloc file_size;
      if buffer =? 0 then fs (fs_close f) ;; mret None else
      r ← fs (fs_read f buffer file_size);
      let '(read_count, f) := r in
      fs (fs_close f) ;;
      if negb (read_count =? file_size) then p_kfree buffer ;; mret None
      else mret (Some (buffer, file_size))
  end.

(** The segments in order, up to the first that fails. *)
Definition map_segments (p image image_size : Z) (l : list elf64_phdr) (load_bias : Z) : M pstate bool :=
  r ← iterM l (λ (_ : unit) h,
        ok ← process_map_elf_segment p image image_size h load_bias;
        mret (if (ok : bool) then inl () else inr ())) ();
  mret (match r with inl _ => true | inr _ => false end).

(** The bias of the object and the next load base; nothing when the object
    cannot be placed. *)
Definition place_object (st : process_elf_load_state) (h : elf64_ehdr) (image_start image_end : Z) : M pstate (option Z) :=
  if e_type h =? ELF_ET_DYN then
    bias ← process_choose_elf_load_bias image_start image_end;
    mret (if (bias =? 0) && negb (image_start =? 0) && negb (bool_decide (ls_objects st = [])) then None else Some bias)
  else
    let image_span := process_align_up (u64 (image_end - image_start)) PAGE_SIZE in
    modify (λ s, if process_next_elf_load_base s <? u64 (image_start + image_span)
                 then s <| process_next_elf_load_base :=
                             process_align_up (u64 (image_start + image_span)) PROCESS_ELF_LOAD_STRIDE |> else s) ;;
    mret (Some 0).

(** [owned_image] of the fresh object is [image] in both callers.  After a
    failure the caller destroys the process and looks at nothing else. *)
Definition process_register_loaded_object (st : process_elf_load_state) (object_name : string)
    (owned_image image image_size : Z) (set_entry : bool) : M pstate (option process_elf_load_state) :=
  if PROCESS_ELF_OBJECTS_MAX <=? Z.of_nat (length (ls_objects st)) then mret None else
  valid ← process_validate_elf_header image image_size;
  if negb valid then mret None else
  match process_copy_string object_name PROCESS_ELF_NAME_MAX with
  | None => mret None
  | Some nm =>
      h ← load_ehdr image;
      let phdrs := u64 (image + e_phoff h) in
      l ← load_phdrs phdrs (e_phnum h);
      match process_elf_load_bounds l with
      | None => mret None
      | Some (image_start, image_end) =>
          bias ← place_object st h image_start image_end;
          match bias with
          | None => mret None
          | Some load_bias =>
              let first := bool_decide (ls_objects st = []) in
              let p := ls_process st in
              let st := if first then
                st <| ls_main_phdr_va := u64 (load_bias + e_phoff h) |> <| ls_main_phent := e_phentsize h |>
                   <| ls_main_phnum := e_phnum h |> <| ls_main_entry := u64 (load_bias + e_entry h) |>
                else st in
              if set_entry && ((e_entry h <? image_start) || (image_end <=? e_entry h)) then mret None else
              whenM set_entry (upd_proc p (λ x, x <| pr_entry_va := u64 (load_bias + e_entry h) |>)) ;;
              let st := if set_entry && negb first then
                st <| ls_interp_load_bias := load_bias |> <| ls_interp_entry := u64 (load_bias + e_entry h) |>
                else st in
              ok ← map_segments p image image_size l load_bias;
              if negb ok then mret None else
              let mapped_end := process_align_up (u64 (load_bias + image_end)) PAGE_SIZE in
              let heap_guard_base := process_align_up (u64 (mapped_end + PROCESS_ELF_HEAP_GUARD_SIZE)) PAGE_SIZE in
              if USER_HEAP_LIMIT <? heap_guard_base then mret None else
              let object := ElfObject nm owned_image image image_size phdrs (e_phnum h) image_start image_end
                              load_bias mapped_end in
              mret (Some (st <| ls_max_mapped_end := if ls_max_mapped_end st <? mapped_end then mapped_end
                                                     else ls_max_mapped_end st |>
                             <| ls_objects := ls_objects st ++ [object] |>))
          end
      end
  end.

(** ** Creation *)

(** What both creators do first: the object with its context, or null. *)
Definition process_alloc (garbage : process) : M pstate Z :=
  p ← new_process garbage;
  if p =? 0 then mret 0 else
  mm ← vm mmu_context_create;
  upd_proc p (λ x, x <| pr_mm := mm |>) ;;
  if mm =? 0 then free_process p ;; mret 0 else
  upd_proc p (λ x, x <| pr_ref_count := 1 |> <| pr_exec_in_progress := 0 |>) ;;
  mret p.

Definition add_stack_region (p : Z) : M pstate bool :=
  process_add_region p (USER_STACK_TOP - 0x100000) USER_STACK_TOP VM_TYPE_ANON ANON_FLAGS 0 0 0.

Definition process_create_flat_binary (garbage : process) (code code_size : Z) : M pstate Z :=
  if (code =? 0) || (code_size =? 0) then mret 0 else
  let code_pages := process_align_up code_size PAGE_SIZE / PAGE_SIZE in
  if USER_HEAP_BASE <? u64 (USER_CODE_BASE + code_pages * PAGE_SIZE)
  then ker_info "process image too large for user layout" ;; mret 0 else
  p ← process_alloc garbage;
  if p =? 0 then mret 0 else
  upd_proc p (λ x, x <| pr_entry_va := USER_CODE_BASE |> <| pr_stack_top := USER_STACK_TOP |>
                     <| pr_heap_start := USER_HEAP_BASE |> <| pr_brk := USER_HEAP_BASE |>
                     <| pr_heap_limit := USER_HEAP_LIMIT |> <| pr_heap_mapped_end := USER_HEAP_BASE |>
                     <| pr_regions := [] |> <| pr_owned_images := [] |>) ;;
  process_add_region p USER_CODE_BASE (USER_CODE_BASE + code_pages * PAGE_SIZE) VM_TYPE_ELF CODE_FLAGS code 0 code_size ;;
  add_stack_region p ;;
  process_add_region p USER_HEAP_BASE USER_HEAP_LIMIT VM_TYPE_ANON ANON_FLAGS 0 0 0 ;;
  cpu_invalidate_icache_all ;;
  mret p.

(** One auxiliary vector entry, below [ksp]. *)
Definition push_auxv (kstack ksp tag value : Z) : M pstate Z :=
  let ksp := ksp - 16 in
  store_le 8 (kstack + ksp) tag ;;
  store_le 8 (kstack + ksp + 8) value ;;
  mret ksp.
(** One word, below [ksp]. *)
Definition push_word (kstack ksp value : Z) : M pstate Z :=
  let ksp := ksp - 8 in
  store_le 8 (kstack + ksp) value ;;
  mret ksp.
(** A string with its terminator, below [ksp]. *)
Definition push_string (kstack ksp : Z) (str : string) : M pstate Z :=
  let ksp := ksp - (Z.of_nat (String.length str) + 1) in
  forM_ (imap (λ i c, (Z.of_nat i, Z.of_N (Ascii.N_of_ascii c))) (String.list_ascii_of_string str ++ [Ascii.zero]))
    (λ '(i, c), p_store8 (u64 (kstack + ksp + i)) c) ;;
  mret ksp.

(** The first task of the current CPU is [cur], as for the user copies. *)
Definition process_populate_arg_stack (cur : option (Z * Z)) (kstack p : Z) (path : option string)
    (st : process_elf_load_state) : M pstate unit :=
  pr ← get_proc p;
  let stack_top := pr_stack_top pr in
  let stack_page_va := Z.land (u64 (stack_top - 1)) (not64 0xFFF) in
  handled ← vm (mmu_handle_process_page_fault p stack_page_va 0x90000004);
  if negb handled then mret () else
  ksp ← push_string kstack KSTACK_SIZE (default EmptyString path);
  let path_va := u64 (stack_top - (KSTACK_SIZE - ksp)) in
  ksp ← push_string kstack ksp "LD_DEBUG=1";
  let env_va := u64 (stack_top - (KSTACK_SIZE - ksp)) in
  let ksp := Z.land ksp (not64 15) in
  ksp ← push_auxv kstack ksp AT_NULL 0;
  ksp ← push_auxv kstack ksp AT_PAGESZ 4096;
  ksp ← push_auxv kstack ksp AT_EXECFN path_va;
  ksp ← push_auxv kstack ksp AT_PHDR (ls_main_phdr_va st);
  ksp ← push_auxv kstack ksp AT_PHNUM (ls_main_phnum st);
  ksp ← push_auxv kstack ksp AT_PHENT (ls_main_phent st);
  ksp ← push_auxv kstack ksp AT_BASE (ls_interp_load_bias st);
  ksp ← push_auxv kstack ksp AT_ENTRY (ls_main_entry st);
  ksp ← push_word kstack ksp 0;
  ksp ← push_word kstack ksp env_va;
  ksp ← push_word kstack ksp 0;
  ksp ← push_word kstack ksp path_va;
  ksp ← push_word kstack ksp 1;
  let ksp := Z.land ksp (not64 15) in
  let user_sp := u64 (stack_top - (KSTACK_SIZE - ksp)) in
  vm (mmu_copy_to_user cur (pr_mm pr) user_sp (u64 (kstack + ksp)) (KSTACK_SIZE - ksp)) ;;
  upd_proc p (λ x, x <| pr_stack_top := user_sp |> <| pr_user_sp := user_sp |>).

(** ** The end of a process *)

Definition process_destroy (p : Z) : M pstate unit :=
  if p =? 0 then mret () else
  lock_proc p ;;
  pr ← get_proc p;
  if 1 <? pr_ref_count pr then
    upd_proc p (λ x, x <| pr_ref_count := pr_ref_count x - 1 |>) ;; unlock_proc p
  else if pr_ref_count pr =? 0 then unlock_proc p
  else
    upd_proc p (λ x, x <| pr_ref_count := 0 |> <| pr_mm := 0 |> <| pr_owned_images := [] |>) ;;
    unlock_proc p ;;
    whenM (negb (pr_mm pr =? 0)) (vm (mmu_context_destroy (pr_mm pr))) ;;
    forM_ (pr_owned_images pr) (λ image, whenM (negb (image =? 0)) (p_kfree image)) ;;
    free_process p.

Definition process_brk (p new_break : Z) : M pstate Z :=
  if p =? 0 then mret 0 else
  lock_proc p ;;
  pr ← get_proc p;
  if new_break =? 0 then unlock_proc p ;; mret (pr_brk pr) else
  if (new_break <? pr_heap_start pr) || (pr_heap_limit pr <? new_break) then unlock_proc p ;; mret (pr_brk pr) else
  upd_proc p (λ x, x <| pr_brk := new_break |>) ;;
  unlock_proc p ;;
  mret new_break.

(** ** Creation from an ELF image *)

(** The scan for [PT_INTERP]: the offset of the path when it is in the image. *)
Fixpoint find_interp (l : list elf64_phdr) (image_size : Z) : option Z :=
  match l with
  | [] => None
  | h :: l' => if p_type h =? ELF_PT_INTERP then
                 (if u64 (p_offset h + p_filesz h) <=? image_size then Some (p_offset h) else None)
               else find_interp l' image_size
  end.

(** The interpreter, when the image names one. *)
Definition load_interp (st : process_elf_load_state) (interp_path : Z) : M pstate (option process_elf_load_state) :=
  path ← load_path (Z.to_nat PROCESS_ELF_NAME_MAX) interp_path;
  interp ← process_load_file_image path;
  match interp with
  | None => ker_info "failed to load interpreter" ;; process_destroy (ls_process st) ;; mret None
  | Some (interp_image, interp_size) =>
      st' ← process_register_loaded_object st path interp_image interp_image interp_size true;
      match st' with
      | None => p_kfree interp_image ;; process_destroy (ls_process st) ;; mret None
      | Some st' => mret (Some st')
      end
  end.

Definition process_create_from_elf (cur : option (Z * Z)) (kstack : Z) (garbage : process) (image image_size : Z)
    (path : option string) : M pstate Z :=
  is_elf ← process_is_elf_image image image_size;
  if negb is_elf then mret 0 else
  valid ← process_validate_elf_header image image_size;
  if negb valid then ker_info "invalid ELF image" ;; mret 0 else
  h ← load_ehdr image;
  phdrs ← load_phdrs (u64 (image + e_phoff h)) (e_phnum h);
  let interp_path := (λ o, u64 (image + o)) <$> find_interp phdrs image_size in
  p ← process_alloc garbage;
  if p =? 0 then mret 0 else
  let st := LoadState p [] 0 0 0 0 0 0 0 in
  modify (λ s, s <| process_next_elf_load_base := USER_CODE_BASE |>) ;;
  upd_proc p (λ x, x <| pr_entry_va := 0 |> <| pr_stack_top := USER_STACK_TOP |> <| pr_heap_start := 0 |>
                     <| pr_brk := 0 |> <| pr_heap_limit := USER_HEAP_LIMIT |> <| pr_heap_mapped_end := 0 |>
                     <| pr_regions := [] |> <| pr_owned_images := [] |>
                     <| pr_name := match path with
                                   | Some s => String.substring 0 (Z.to_nat (PROCESS_ELF_NAME_MAX - 1)) s
                                   | None => pr_name x
                                   end |>) ;;
  main ← process_register_loaded_object st "<main>" image image image_size (bool_decide (interp_path = None));
  match main with
  | None => process_destroy p ;; mret 0
  | Some st =>
      loaded ← (match interp_path with None => mret (Some st) | Some ip => load_interp st ip end);
      match loaded with
      | None => mret 0
      | Some st =>
          let heap_start := process_align_up (u64 (ls_max_mapped_end st + PROCESS_ELF_HEAP_GUARD_SIZE)) PAGE_SIZE in
          if USER_HEAP_LIMIT <? heap_start then
            process_release_loaded_images st ;; process_destroy p ;; mret 0
          else
          upd_proc p (λ x, x <| pr_heap_start := heap_start |> <| pr_brk := heap_start |>
                             <| pr_heap_limit := USER_HEAP_LIMIT |> <| pr_heap_mapped_end := heap_start |>) ;;
          add_stack_region p ;;
          process_add_region p heap_start USER_HEAP_LIMIT VM_TYPE_ANON ANON_FLAGS 0 0 0 ;;
          process_populate_arg_stack cur kstack p path st ;;
          cpu_invalidate_icache_all ;;
          process_capture_loaded_images p st ;;
          mret p
      end
  end.

Definition process_create_from_buffer (cur : option (Z * Z)) (kstack : Z) (garbage : process) (code code_size : Z) : M pstate Z :=
  is_elf ← process_is_elf_image code code_size;
  if (is_elf : bool) then process_create_from_elf cur kstack garbage code code_size None
  else process_create_flat_binary garbage code code_size.

Definition process_create_from_image (cur : option (Z * Z)) (kstack : Z) (garbage : process) (code_start code_end : Z) : M pstate Z :=
  if (code_start =? 0) || (code_end =? 0) || (code_end <=? code_start) then mret 0
  else process_create_from_buffer cur kstack garbage code_start (code_end - code_start).

End process.

Arguments pstate P : clear implicits.
