(* ===== verification/ProcElf.v ===== *)
(** * ELF images: headers as functions of the bytes, and the bounds of segments

    [ehdr_at f], [phdr_at f]: the headers of an image whose byte [i] is [f i].
    [elf_sane]: the sums that the code forms of a header's fields do not wrap,
    which the code does not check.  The bounds of the regions of an object
    follow from the checks of the code; they hold modulo 2^64 only, because
    load biases are differences. *)

From S2P Require Import Prelude Machine MmuTable MmuBoot Vmsa VmsaWalk VmsaFault VmBits VmsaSpec VmFaultSpec Process.

Open Scope kernel_scope.

(** ** Headers *)

Fixpoint le_at (f : Z → Z) (n : nat) (k : Z) : Z :=
  match n with
  | O => 0
  | Datatypes.S n' => f k + 256 * le_at f n' (k + 1)
  end.

Definition ehdr_at (f : Z → Z) : elf64_ehdr :=
  Ehdr (le_at f 1 4) (le_at f 1 5) (le_at f 2 16) (le_at f 2 18) (le_at f 8 24) (le_at f 8 32) (le_at f 2 54) (le_at f 2 56).
Definition phdr_at (f : Z → Z) (k : Z) : elf64_phdr :=
  Phdr (le_at f 4 k) (le_at f 4 (k + 4)) (le_at f 8 (k + 8)) (le_at f 8 (k + 16)) (le_at f 8 (k + 32)) (le_at f 8 (k + 40)).
Definition phdrs_at (f : Z → Z) : list elf64_phdr :=
  (λ i, phdr_at f (e_phoff (ehdr_at f) + SIZEOF_PHDR * i)) <$> upto 0 (e_phnum (ehdr_at f)).

Definition phdr_ok (h : elf64_phdr) : Prop :=
  0 ≤ p_offset h < 2 ^ 64 ∧ 0 ≤ p_vaddr h < 2 ^ 64 ∧ 0 ≤ p_filesz h < 2 ^ 64 ∧ 0 ≤ p_memsz h < 2 ^ 64.

Lemma le_at_range f n k : (∀ i, 0 ≤ f i < 256) → 0 ≤ le_at f n k < 256 ^ Z.of_nat n.
Proof.
  intros Hf. revert k. induction n as [|n IH]; intros k; cbn [le_at]; [done|].
  specialize (IH (k + 1)). specialize (Hf k). rewrite Nat2Z.inj_succ, Z.pow_succ_r by lia. revert IH. generalize (256 ^ Z.of_nat n). lia.
Qed.

Lemma phdr_at_ok f k : (∀ i, 0 ≤ f i < 256) → phdr_ok (phdr_at f k).
Proof. intros Hf. repeat split; by apply (le_at_range f 8). Qed.

Definition loads (h : elf64_phdr) : bool := (p_type h =? ELF_PT_LOAD) && negb (p_memsz h =? 0).

(** What an image has to satisfy beyond the checks of the code: the sums of
    header fields do not wrap, a segment starts in the file at least as far as
    its address does in its page, and the path of the interpreter ends in
    the image. *)
Record elf_sane (f : Z → Z) (size : Z) : Prop := {
  es_bytes : ∀ i, 0 ≤ f i < 256;
  es_phoff : e_phoff (ehdr_at f) + e_phnum (ehdr_at f) * SIZEOF_PHDR < 2 ^ 64;
  es_segs : ∀ h, h ∈ phdrs_at f → loads h = true →
    p_offset h + p_filesz h < 2 ^ 64 ∧ p_vaddr h mod PAGE_SIZE ≤ p_offset h;
  es_interp : ∀ o, find_interp (phdrs_at f) size = Some o → ∃ k, 0 ≤ k < PROCESS_ELF_NAME_MAX ∧ o + k < size ∧ f (o + k) = 0;
}.

(** An image that is sane if it passes the validation of the code. *)
Definition elf_safe (f : Z → Z) (size : Z) : Prop :=
  (∀ i, 0 ≤ f i < 256) ∧ (SIZEOF_EHDR ≤ size → ehdr_valid (ehdr_at f) size = true → elf_sane f size).

(** ** Alignment *)

Lemma align_up_pg x : process_align_up x PAGE_SIZE = pg (u64 (x + 4095)).
Proof.
  unfold process_align_up, pg, PAGE_SIZE. replace (x + 4096 - 1) with (x + 4095) by lia.
  change (4096 - 1) with (2 ^ 12 - 1). by rewrite land_not_ones by (lia || (apply Z.mod_pos_bound; lia)).
Qed.

Lemma align_down_pg x : 0 ≤ x < 2 ^ 64 → process_align_down x PAGE_SIZE = pg x.
Proof. intros Hx. exact (page_base_eq x Hx). Qed.

Lemma pg_bounds x : pg x ≤ x < pg x + 4096 ∧ pg x mod 4096 = 0.
Proof.
  unfold pg, PAGE_SIZE. pose proof (Z.mod_pos_bound x 4096). split; [lia|].
  rewrite Zminus_mod, Z.mod_mod, Z.sub_diag by lia. done.
Qed.

(** Rounding up adds less than a page, modulo 2^64. *)
Lemma align_up_mod x : ∃ d, 0 ≤ d < 4096 ∧ process_align_up x PAGE_SIZE = u64 (x + d) ∧
  process_align_up x PAGE_SIZE mod 4096 = 0.
Proof.
  rewrite align_up_pg. remember (u64 (x + 4095)) as y eqn:Ey. destruct (pg_bounds y) as [Hy Hm].
  exists (4095 - y mod 4096). pose proof (Z.mod_pos_bound y 4096). split; [lia|]. split; [|done].
  assert (0 ≤ y < 2 ^ 64) as Hr by (subst y; apply Z.mod_pos_bound; lia).
  unfold pg, PAGE_SIZE in *. unfold u64 at 1. apply (Z.mod_unique_pos _ _ ((x + 4095) / 2 ^ 64)); [pose proof (Z.mod_le y 4096); lia|].
  unfold u64 in *. pose proof (Z.div_mod (x + 4095) (2 ^ 64)). lia.
Qed.

Lemma align_up_small x : 0 ≤ x → x + 4095 < 2 ^ 64 →
  x ≤ process_align_up x PAGE_SIZE < x + 4096 ∧ process_align_up x PAGE_SIZE mod 4096 = 0.
Proof.
  intros H0 Hx. rewrite align_up_pg. unfold u64. rewrite Z.mod_small by lia.
  destruct (pg_bounds (x + 4095)) as [Hb Hm]. split; [lia|done].
Qed.

Lemma find_interp_pos l n o : Forall phdr_ok l → find_interp l n = Some o → 0 ≤ o.
Proof.
  induction 1 as [|h l (Ho & _) Hl IH]; [done|]. cbn [find_interp]. destruct (_ =? _); [|done].
  destruct (_ <=? n); [|done]. intros [= <-]. lia.
Qed.

(** ** Segments *)

Lemma load_bounds_spec l lo0 hi0 found lo hi : Forall phdr_ok l → load_bounds l lo0 hi0 found = Some (lo, hi) →
  (∀ h, h ∈ l → loads h = true → lo ≤ p_vaddr h ∧ p_filesz h ≤ p_memsz h ∧ p_vaddr h + p_memsz h < 2 ^ 64 ∧
     p_vaddr h + p_memsz h ≤ hi) ∧
  ((∃ h, h ∈ l ∧ loads h = true ∧ hi = p_vaddr h + p_memsz h) ∨ found = true ∧ hi = hi0) ∧
  ((∃ h, h ∈ l ∧ loads h = true ∧ lo = p_vaddr h) ∨ found = true ∧ lo = lo0) ∧
  (found = true → lo ≤ lo0 ∧ hi0 ≤ hi).
Proof.
  intros Hl. revert lo0 hi0 found. induction Hl as [|h l (_ & Hv & Hf & Hm) Hl IH]; intros lo0 hi0 found; cbn [load_bounds].
  { destruct found; [|done]. intros [= <- <-]. split; [by intros h ?%elem_of_nil|]. split; [by right|]. split; [by right|]. lia. }
  destruct (negb (p_type h =? ELF_PT_LOAD) || (p_memsz h =? 0)) eqn:Hld.
  { intros Hb. destruct (IH _ _ _ Hb) as (H1 & H2 & H3 & H4).
    assert (loads h = false) as Hn by (unfold loads; destruct (p_type h =? ELF_PT_LOAD), (p_memsz h =? 0); done).
    split; [intros h' [->|Hin]%elem_of_cons; [by rewrite Hn|by apply H1]|].
    split; [destruct H2 as [(h' & ? & ?)|?]; [left; exists h'; split; [by right|done]|by right]|].
    split; [destruct H3 as [(h' & ? & ?)|?]; [left; exists h'; split; [by right|done]|by right]|done]. }
  assert (loads h = true) as Hy by (unfold loads; destruct (p_type h =? ELF_PT_LOAD), (p_memsz h =? 0); done).
  assert (p_memsz h ≠ 0) as Hnz by (bool_to_prop; lia).
  destruct (p_memsz h <? p_filesz h) eqn:Hfm; [done|]. destruct (u64 _ <=? p_vaddr h) eqn:Hw; [done|]. bool_to_prop.
  assert (u64 (p_vaddr h + p_memsz h) = p_vaddr h + p_memsz h ∧ p_vaddr h + p_memsz h < 2 ^ 64) as [Hu Hlt].
  { unfold u64 in *. destruct (Z_lt_le_dec (p_vaddr h + p_memsz h) (2 ^ 64)) as [?|Hge]; [by rewrite Z.mod_small by lia|].
    exfalso. assert ((p_vaddr h + p_memsz h) mod 2 ^ 64 = p_vaddr h + p_memsz h - 2 ^ 64) as Hq; [|lia].
    symmetry. apply (Z.mod_unique_pos _ _ 1); lia. }
  rewrite Hu. intros Hb. destruct (IH _ _ _ Hb) as (H1 & H2 & H3 & H4). specialize (H4 eq_refl).
  set (lo1 := if negb found || (p_vaddr h <? lo0) then p_vaddr h else lo0) in *.
  set (hi1 := if negb found || (hi0 <? p_vaddr h + p_memsz h) then p_vaddr h + p_memsz h else hi0) in *.
  assert (lo1 ≤ p_vaddr h ∧ (lo1 = p_vaddr h ∨ found = true ∧ lo1 = lo0) ∧ (found = true → lo1 ≤ lo0)) as (Hl1 & Hl2 & Hl3).
  { unfold lo1. destruct found; cbn; [|lia]. destruct (p_vaddr h <? lo0) eqn:?; bool_to_prop; lia. }
  assert (p_vaddr h + p_memsz h ≤ hi1 ∧ (hi1 = p_vaddr h + p_memsz h ∨ found = true ∧ hi1 = hi0) ∧ (found = true → hi0 ≤ hi1)) as (Hh1 & Hh2 & Hh3).
  { unfold hi1. destruct found; cbn; [|lia]. destruct (hi0 <? p_vaddr h + p_memsz h) eqn:?; bool_to_prop; lia. }
  split; [|split; [|split]].
  - intros h' [->|Hin]%elem_of_cons Hld'; [lia|]. by apply H1.
  - destruct H2 as [(h' & ? & ?)|[_ ->]]; [left; exists h'; split; [by right|done]|].
    destruct Hh2 as [?|?]; [|by right]. left. exists h. split; [by left|done].
  - destruct H3 as [(h' & ? & ?)|[_ ->]]; [left; exists h'; split; [by right|done]|].
    destruct Hl2 as [?|?]; [|by right]. left. exists h. split; [by left|done].
  - intros Hfd. specialize (Hl3 Hfd). specialize (Hh3 Hfd). lia.
Qed.

(** A region that a segment maps. *)
Record segment_of (image size : Z) (h : elf64_phdr) (b : Z) (r : vm_region) : Prop := {
  sg_loads : loads h = true;
  sg_file : p_filesz h ≤ p_memsz h ∧ u64 (p_offset h + p_filesz h) ≤ size;
  sg_wx : Z.land (p_flags h) ELF_PF_W = 0 ∨ Z.land (p_flags h) ELF_PF_X = 0;
  sg_start : vr_start r = u64 (b + pg (p_vaddr h));
  sg_end : vr_end r = u64 (b + process_align_up (u64 (p_vaddr h + p_memsz h)) PAGE_SIZE);
  sg_range : USER_CODE_BASE ≤ vr_start r < vr_end r ∧ vr_end r ≤ USER_HEAP_LIMIT;
  sg_type : vr_type r = VM_TYPE_ELF;
  sg_flags : vr_flags r = process_elf_page_flags (p_flags h);
  sg_image : vr_elf_image r = image;
  sg_offset : vr_elf_offset r = u64 (p_offset h - p_vaddr h mod PAGE_SIZE);
  sg_filesz : vr_file_size r = u64 (p_filesz h + p_vaddr h mod PAGE_SIZE);
}.

Lemma elf_segment_of image size h b r : phdr_ok h → elf_segment image size h b = Some (Some r) → segment_of image size h b r.
Proof.
  intros (_ & Hv & _ & Hm). unfold elf_segment.
  destruct (negb (p_type h =? ELF_PT_LOAD) || (p_memsz h =? 0)) eqn:Hld; [done|].
  destruct (negb _ && negb _) eqn:Hwx; [done|]. destruct ((p_memsz h <? p_filesz h) || _) eqn:Hf; [done|].
  destruct (_ || _ || _) eqn:Hr; [done|]. intros [= <-]. cbn zeta in Hr.
  rewrite (align_down_pg _ Hv) in *. assert (u64 (p_vaddr h - pg (p_vaddr h)) = p_vaddr h mod PAGE_SIZE) as Hd.
  { unfold pg, u64, PAGE_SIZE in *. pose proof (Z.mod_pos_bound (p_vaddr h) 4096).
    replace (p_vaddr h - _) with (p_vaddr h mod 4096) by lia. rewrite Z.mod_small; lia. }
  rewrite Hd in *. bool_to_prop. split; cbn; try done.
  - unfold loads. destruct (p_type h =? ELF_PT_LOAD) eqn:?, (p_memsz h =? 0) eqn:?; try done; bool_to_prop; lia.
  - by destruct Hwx as [Hf%negb_false_iff%Z.eqb_eq|Hf%negb_false_iff%Z.eqb_eq]; [left|right].
Qed.

(** A bias that [place_object] gives. *)
Definition bias_ok (lo hi b : Z) : Prop := b = 0 ∨ hi - lo < 2 ^ 63.

Lemma choose_bias_ok next lo hi : 0 ≤ lo < hi → hi < 2 ^ 64 → bias_ok lo hi (choose_bias next lo hi).2.
Proof.
  intros Hlo Hhi. unfold choose_bias. destruct ((_ =? 0) || _) eqn:Hsp; [by left|]. bool_to_prop.
  destruct (_ <? USER_CODE_BASE); [by left|]. right. unfold u64 in *. rewrite (Z.mod_small (hi - lo)) in * by lia.
  destruct (Z_lt_le_dec (hi - lo) (2 ^ 63)) as [?|Hge]; [done|]. exfalso.
  destruct (align_up_mod (hi - lo)) as (d & Hd & He & _). unfold u64 in He.
  destruct (Z_lt_le_dec (hi - lo + d) (2 ^ 64)) as [Hlt|Hwr].
  - rewrite Z.mod_small in He by lia. unfold USER_HEAP_LIMIT, USER_CODE_BASE in *. lia.
  - assert (process_align_up (hi - lo) PAGE_SIZE = 0) as Hz; [|lia]. rewrite align_up_pg. unfold u64, pg, PAGE_SIZE.
    assert ((hi - lo + 4095) mod 2 ^ 64 = hi - lo + 4095 - 2 ^ 64) as ->; [symmetry; apply (Z.mod_unique_pos _ _ 1); lia|].
    rewrite Z.mod_small by lia. lia.
Qed.

(** The end of an object bounds its regions, up to less than a page. *)
Lemma object_end image size l b lo hi h hm r rm : Forall phdr_ok l → load_bounds l (not64 0) 0 false = Some (lo, hi) →
  bias_ok lo hi b → h ∈ l → hm ∈ l → hi = p_vaddr hm + p_memsz hm →
  segment_of image size h b r → segment_of image size hm b rm →
  let mapped_end := process_align_up (u64 (b + hi)) PAGE_SIZE in
  vr_end r < mapped_end + 4096 ∧ 0 < mapped_end < USER_HEAP_LIMIT + 4096 ∧ mapped_end mod 4096 = 0.
Proof.
  intros Hl Hb Hbias Hin Hinm Hhi [Hld _ _ _ He Hr _ _ _ _ _] [Hldm _ _ _ Hem Hrm _ _ _ _ _] mapped_end.
  destruct (load_bounds_spec _ _ _ _ _ _ Hl Hb) as (Hall & _). rewrite Forall_forall in Hl.
  destruct (Hl _ Hin) as (_ & Hv & _ & Hm). destruct (Hl _ Hinm) as (_ & Hvm & _ & Hmm).
  destruct (Hall _ Hin Hld) as (Hlo & _ & Hlt & Hle). destruct (Hall _ Hinm Hldm) as (Hlom & _ & Hltm & _).
  destruct (align_up_mod (u64 (p_vaddr h + p_memsz h))) as (d & Hd & Ha & _).
  destruct (align_up_mod (u64 (p_vaddr hm + p_memsz hm))) as (dm & Hdm & Ham & _).
  rewrite Ha in He. rewrite Ham in Hem. rewrite <- Hhi in *.
  unfold u64 in He, Hem. rewrite (Z.mod_small (p_vaddr h + p_memsz h)) in He by lia. rewrite (Z.mod_small hi) in Hem by lia.
  rewrite Zplus_mod_idemp_r in He, Hem.
  unfold USER_CODE_BASE, USER_HEAP_LIMIT in *.
  assert (u64 (b + hi) = vr_end rm - dm) as Hu.
  { unfold u64. symmetry. apply (Z.mod_unique_pos _ _ ((b + (hi + dm)) / 2 ^ 64)); [lia|].
    pose proof (Z.div_mod (b + (hi + dm)) (2 ^ 64)). lia. }
  destruct (align_up_small (u64 (b + hi))) as [Hup Hmod]; [lia..|]. fold mapped_end in Hup, Hmod.
  split; [|split; [lia|done]].
  assert (0 ≤ hi - (p_vaddr h + p_memsz h) < 2 ^ 63) as Hk.
  { split; [lia|]. destruct Hbias as [->|?]; [|lia]. rewrite Z.add_0_l in Hem, Hu. unfold u64 in Hu. rewrite Z.mod_small in Hu by lia. lia. }
  assert (vr_end r = u64 (b + hi) - (hi - (p_vaddr h + p_memsz h)) + d) as ->; [|lia].
  set (x := u64 (b + hi) - (hi - (p_vaddr h + p_memsz h)) + d). assert (vr_end r = x mod 2 ^ 64) as Hx.
  { rewrite He. unfold x, u64. rewrite <- (Zplus_mod_idemp_l (_ - _) d), Zminus_mod_idemp_l, Zplus_mod_idemp_l. f_equal. lia. }
  destruct (Z_lt_le_dec x 0) as [Hneg|Hpos]; [|by rewrite Hx, Z.mod_small by lia]. exfalso.
  assert (x mod 2 ^ 64 = x + 2 ^ 64); [symmetry; apply (Z.mod_unique_pos _ _ (-1)); lia|lia].
Qed.

(** ** Regions *)

(** Code may not be written, nothing is executable for the kernel, and the
    flags leave the address bits alone. *)
Record flags_wf (flags : Z) : Prop := {
  fw_addr : flags_ok flags;
  fw_pxn : Z.land flags MMU_USER_PAGE_PXN ≠ 0;
  fw_wx : mmu_user_access_allowed flags true = true → Z.land flags MMU_USER_PAGE_UXN ≠ 0;
}.

Lemma elf_flags_wf fl : flags_wf (process_elf_page_flags fl).
Proof.
  unfold process_elf_page_flags. destruct (Z.land fl ELF_PF_W =? 0); cbn [negb].
  - destruct (Z.land fl ELF_PF_X =? 0); cbn [negb]; split; vm_compute; done.
  - split; vm_compute; done.
Qed.

Lemma anon_flags_wf : flags_wf ANON_FLAGS.
Proof. split; vm_compute; done. Qed.
Lemma code_flags_wf : flags_wf CODE_FLAGS.
Proof. split; vm_compute; done. Qed.

(** The bytes that a segment's region reads are in the image. *)
Lemma segment_file f image size h b r : elf_sane f size → h ∈ phdrs_at f → segment_of image size h b r →
  0 ≤ vr_elf_offset r ∧ 0 ≤ vr_file_size r ∧ vr_elf_offset r + vr_file_size r ≤ size.
Proof.
  intros Hs Hin [Hld [Hfm Hfs] _ _ _ _ _ _ _ Ho Hf]. destruct (es_segs _ _ Hs h Hin Hld) as [Hsum Hoff].
  assert (phdr_ok h) as (Hpo & Hpv & Hpf & Hpm).
  { apply list_elem_of_fmap in Hin as (i & -> & _). apply phdr_at_ok, (es_bytes _ _ Hs). }
  pose proof (Z.mod_pos_bound (p_vaddr h) PAGE_SIZE ltac:(done)). unfold u64 in *.
  set (d := p_vaddr h mod PAGE_SIZE) in *. clearbody d.
  rewrite Ho, Hf, !Z.mod_small by lia. rewrite Z.mod_small in Hfs by lia. lia.
Qed.

Lemma elf_segment_none image size h b : elf_segment image size h b = Some None → loads h = false.
Proof.
  unfold elf_segment, loads. destruct (p_type h =? ELF_PT_LOAD), (p_memsz h =? 0); cbn [negb orb andb]; try done.
  destruct (_ && _); [done|]. destruct (_ || _); [done|]. by destruct (_ || _ || _).
Qed.

(** Headers depend on their bytes. *)
Lemma le_at_ext f f' n k : (∀ i, k ≤ i < k + Z.of_nat n → f i = f' i) → le_at f n k = le_at f' n k.
Proof.
  revert k. induction n as [|n IH]; intros k Hf; cbn [le_at]; [done|]. rewrite Hf by lia. f_equal. f_equal. apply IH. intros i Hi. apply Hf. lia.
Qed.

Lemma ehdr_at_ext f f' : (∀ i, 0 ≤ i < SIZEOF_EHDR → f i = f' i) → ehdr_at f = ehdr_at f'.
Proof. unfold SIZEOF_EHDR. intros Hf. unfold ehdr_at. f_equal; apply le_at_ext; intros i Hi; apply Hf; lia. Qed.

Lemma phdr_at_ext f f' k : (∀ i, k ≤ i < k + SIZEOF_PHDR → f i = f' i) → phdr_at f k = phdr_at f' k.
Proof. unfold SIZEOF_PHDR. intros Hf. unfold phdr_at. f_equal; apply le_at_ext; intros i Hi; apply Hf; lia. Qed.

(** An image whose headers are those of [f'] in its [size] bytes. *)
Lemma elf_safe_ext f f' size : (∀ i, 0 ≤ f i < 256) → (∀ i, 0 ≤ i < size → f i = f' i) → SIZEOF_EHDR ≤ size →
  0 ≤ e_phoff (ehdr_at f') → e_phoff (ehdr_at f') + e_phnum (ehdr_at f') * SIZEOF_PHDR ≤ size → find_interp (phdrs_at f') size = None →
  elf_sane f' size → elf_safe f size ∧ phdrs_at f = phdrs_at f'.
Proof.
  intros Hr Hf Hsz Hpo Hph Hno [_ H2 H3 _]. assert (ehdr_at f = ehdr_at f') as He by (apply ehdr_at_ext; intros i Hi; apply Hf; lia).
  assert (phdrs_at f = phdrs_at f') as Hp.
  { unfold phdrs_at. rewrite He. apply list_fmap_ext. intros j k Hj. rewrite upto_seqZ in Hj. apply lookup_seqZ in Hj as [-> Hj].
    apply phdr_at_ext. intros i Hi. apply Hf. unfold SIZEOF_PHDR in *. lia. }
  split; [|done]. split; [done|]. intros _ _. split; [done|by rewrite He|by rewrite Hp|]. rewrite Hp, Hno. done.
Qed.
