(* ===== verification/ProcSpec.v ===== *)
(** * Processes under construction

    [holds p X im]: the bytes of the image [im] are clients' memory.  Header
    fields read from memory are those of ProcElf.  [building]: between two
    statements of [process_create_from_elf] the kernel's invariant holds, the
    process object [q] with the address space [mm] is new, and of the rest
    only the bytes of [K] changed. *)

From S2P Require Import Prelude Machine MmuTable MmuBoot Vmsa VmsaWalk VmsaFault VmBits VmsaSpec VmTree VmMap VmOwn VmUnmap VmBytes VmFrame VmFaultSpec VmCopy VmStep VmLife VmCreate VmCtx VmSys Fs FsSpec KernelObjects FsSys Process ProcElf.

Open Scope kernel_scope.

(** [im_size] bytes at [im_ptr]. *)
Record kimage : Type := KImage { im_ptr : Z; im_size : Z; im_byte : Z → Z }.

(** The path of the interpreter: the bytes from [k] up to a zero, at most [n]. *)
Fixpoint path_at (f : Z → Z) (n : nat) (k : Z) : string :=
  match n with
  | O => EmptyString
  | Datatypes.S n' => if f k =? 0 then EmptyString else String (Ascii.ascii_of_N (Z.to_N (f k))) (path_at f n' (k + 1))
  end.

Section spec.
Context {P : Type} `{FrameLaws P}.
Implicit Types (p : P) (s : vstate P) (t : treg) (X : gmap Z mm_context) (F : Z → tmap) (g : fstate P)
  (K : Z → Prop) (im : kimage).

(** ** The layers *)

Definition pst p t X s g (nb : Z) : pstate P := PState (fvm (vst p t X s) g) nb.

Lemma wp_pvm {A} (m : M (vstate P) A) (Q : A → pstate P → Prop) v g nb :
  wp m (λ a v', Q a (PState (fvm v' g) nb)) v → wp (vm m) Q (PState (fvm v g) nb).
Proof. intros Hm. apply wp_up, wp_fvm. exact Hm. Qed.

Lemma wp_pfs {A} (m : M (fstate P) A) (Q : A → pstate P → Prop) g nb :
  wp m (λ a g', Q a (PState g' nb)) g → wp (fs m) Q (PState g nb).
Proof. intros Hm. apply wp_up. exact Hm. Qed.

(** ** Images in memory *)

Definition holds p X im : Prop :=
  client_buf p X (im_ptr im) (im_size im) ∧
  ∀ i, 0 ≤ i < im_size im → rd8 (pmem p) (va_to_pa (im_ptr im) + i) = im_byte im i.

Definition outside K im : Prop := ∀ i, 0 ≤ i < im_size im → ¬ K (va_to_pa (im_ptr im) + i).

Lemma holds_step K B D p X F p' X' F' im : kstep K B D p X F p' X' F' → outside K im →
  (∀ d i, d ∈ D → 0 ≤ i < im_size im → ¬ fe_span p d (word_of (va_to_pa (im_ptr im) + i))) →
  holds p X im → holds p' X' im.
Proof.
  intros Hs HK HD [(Hkb & Hu & Hb) Hv].
  assert (∀ i, 0 ≤ i < im_size im → let a := va_to_pa (im_ptr im) + i in
    fe_mine p' (word_of a) ∧ untracked X' (word_of a) ∧ rd8 (pmem p') a = rd8 (pmem p) a) as Hkept.
  { intros i Hi a. destruct (Hb i Hi) as [Hm Hun].
    destruct (kp_mem _ _ _ _ _ _ _ _ _ Hs _ Hm Hun) as (? & ? & Hr); [intros d Hd; by apply HD|].
    split; [done|]. split; [done|]. by apply Hr, HK. }
  split; [split; [done|]; split; [done|]; intros i Hi; by destruct (Hkept i Hi) as (? & ? & _)|].
  intros i Hi. destruct (Hkept i Hi) as (_ & _ & ->). by apply Hv.
Qed.

Lemma holds_xfer K R mm p X F p' X' F' im : vm_xfer K R mm p X F p' X' F' → outside K im →
  holds p X im → holds p' X' im.
Proof.
  intros Hx HK [(Hkb & Hu & Hb) Hv].
  assert (∀ i, 0 ≤ i < im_size im → let a := va_to_pa (im_ptr im) + i in
    fe_mine p' (word_of a) ∧ untracked X' (word_of a) ∧ rd8 (pmem p') a = rd8 (pmem p) a) as Hkept.
  { intros i Hi a. destruct (Hb i Hi) as [Hm Hun]. destruct (xf_kernel _ _ _ _ _ _ _ _ _ Hx _ Hm Hun) as (? & ? & Hr).
    split; [done|]. split; [done|]. by apply Hr, HK. }
  split; [split; [done|]; split; [done|]; intros i Hi; by destruct (Hkept i Hi) as (? & ? & _)|].
  intros i Hi. destruct (Hkept i Hi) as (_ & _ & ->). by apply Hv.
Qed.

(** ** Loads *)

Lemma wp_image8 im ptr k (Q : Z → pstate P → Prop) p t X s g nb : holds p X im → ptr = im_ptr im + k →
  0 ≤ k < im_size im → Q (im_byte im k) (pst p t X s g nb) → wp (p_load8 (u64 ptr)) Q (pst p t X s g nb).
Proof.
  intros [(Hkb & _) Hv] -> Hk HQ. apply wp_pvm. eapply wp_load8; [exact Hkb|done|]. by rewrite Hv.
Qed.

Lemma wp_load_le im n ptr k (Q : Z → pstate P → Prop) p t X s g nb : holds p X im → ptr = im_ptr im + k →
  0 ≤ k → k + Z.of_nat n ≤ im_size im → Q (le_at (im_byte im) n k) (pst p t X s g nb) →
  wp (load_le n ptr) Q (pst p t X s g nb).
Proof.
  intros Hh. revert ptr k Q. induction n as [|n IH]; intros ptr k Q Hptr Hk Hn HQ; cbn [load_le]; [by wp_step|].
  wp_step. apply (wp_image8 im ptr k); [done|done|lia|]. wp_step. apply (IH _ (k + 1)); [lia..|]. by wp_step.
Qed.

Lemma wp_load_ehdr im ptr (Q : elf64_ehdr → pstate P → Prop) p t X s g nb : holds p X im → ptr = im_ptr im →
  SIZEOF_EHDR ≤ im_size im → Q (ehdr_at (im_byte im)) (pst p t X s g nb) → wp (load_ehdr ptr) Q (pst p t X s g nb).
Proof.
  intros Hh -> Hn HQ. unfold SIZEOF_EHDR in *. unfold load_ehdr.
  do 8 (wp_step; eapply (wp_load_le im); [exact Hh|reflexivity|lia|lia|]). by wp_step.
Qed.

Lemma wp_load_phdr im ptr k (Q : elf64_phdr → pstate P → Prop) p t X s g nb : holds p X im → ptr = im_ptr im + k →
  0 ≤ k → k + SIZEOF_PHDR ≤ im_size im → Q (phdr_at (im_byte im) k) (pst p t X s g nb) →
  wp (load_phdr ptr) Q (pst p t X s g nb).
Proof.
  intros Hh -> Hk Hn HQ. unfold SIZEOF_PHDR in *. unfold load_phdr.
  wp_step. apply (wp_load_le im _ _ k); [done|done|lia..|].
  do 5 (wp_step; eapply (wp_load_le im); [exact Hh|symmetry; apply Z.add_assoc|lia|lia|]). by wp_step.
Qed.

(** The program headers of an image that passed the validation. *)
Lemma wp_load_phdrs im (Q : list elf64_phdr → pstate P → Prop) p t X s g nb : holds p X im →
  elf_sane (im_byte im) (im_size im) → ehdr_valid (ehdr_at (im_byte im)) (im_size im) = true →
  Q (phdrs_at (im_byte im)) (pst p t X s g nb) →
  let h := ehdr_at (im_byte im) in
  wp (load_phdrs (u64 (im_ptr im + e_phoff h)) (e_phnum h)) Q (pst p t X s g nb).
Proof.
  intros Hh Hs Hv HQ h. unfold load_phdrs. pose proof Hh as [(Hkb & _) _].
  unfold ehdr_valid in Hv. fold h in Hv. apply andb_prop in Hv as [Hv Hsz]. apply andb_prop in Hv as [Hv Hnz].
  apply andb_prop in Hv as [_ Hpe]. clear Hpe. bool_to_prop.
  assert (0 ≤ e_phoff h) as Ho by by apply (le_at_range _ 8), es_bytes with (size := im_size im).
  assert (0 ≤ e_phnum h) as Hpn by by apply (le_at_range _ 2), es_bytes with (size := im_size im).
  pose proof (es_phoff _ _ Hs) as Hpo. fold h in Hpo. unfold u64 in Hsz. rewrite Z.mod_small in Hsz by (unfold SIZEOF_PHDR in *; lia).
  eapply wp_mono; [apply (wp_foldM _ _ _ (λ pre l ps, ps = pst p t X s g nb ∧
    l = (λ i, phdr_at (im_byte im) (e_phoff h + SIZEOF_PHDR * i)) <$> pre))|].
  - done.
  - intros pre i post l ps Heq [-> ->]. assert (0 ≤ i < e_phnum h) as Hi.
    { assert (i ∈ seqZ 0 (e_phnum h)) as Hin by (rewrite <- upto_seqZ, Heq; apply elem_of_app; right; left).
      apply elem_of_seqZ in Hin. lia. }
    unfold SIZEOF_PHDR in *. destruct (kbuf_at (im_ptr im) (im_size im) (e_phoff h) Hkb) as (Hu & _); [lia|]. rewrite Hu.
    destruct (kbuf_at (im_ptr im) (im_size im) (e_phoff h + 56 * i) Hkb) as (Hu' & _); [lia|].
    wp_step. apply (wp_load_phdr im _ (e_phoff h + 56 * i)); [done| |lia|unfold SIZEOF_PHDR; lia|].
    { rewrite <- Z.add_assoc. exact Hu'. }
    wp_step. split; [done|]. by rewrite fmap_app.
  - by intros l ps [-> ->].
Qed.

Lemma wp_load_path im n ptr k (Q : string → pstate P → Prop) p t X s g nb : holds p X im → ptr = im_ptr im + k →
  0 ≤ k → (∃ j, 0 ≤ j < Z.of_nat n ∧ k + j < im_size im ∧ im_byte im (k + j) = 0) →
  Q (path_at (im_byte im) n k) (pst p t X s g nb) → wp (load_path n ptr) Q (pst p t X s g nb).
Proof.
  intros Hh. revert ptr k Q. induction n as [|n IH]; intros ptr k Q Hptr Hk (j & Hj & Hjn & Hz) HQ; cbn [load_path path_at] in *; [lia|].
  wp_step. apply (wp_image8 im ptr k); [done|done|lia|]. destruct (im_byte im k =? 0) eqn:Hb; [by wp_step|]. bool_to_prop.
  wp_step. apply (IH _ (k + 1)); [lia|lia| |by wp_step]. exists (j - 1).
  assert (j ≠ 0) by (intros ->; rewrite Z.add_0_r in Hz; done). split; [lia|]. split; [lia|]. by replace (k + 1 + (j - 1)) with (k + j) by lia.
Qed.

(** ** Under construction *)

(** A live block that no object of the kernel uses. *)
Definition loose p X s g (b : Z) : Prop :=
  b ≠ 0 ∧ fe_live p b ∧ ∀ p1 t u, ¬ used (fvm (vst p1 t X s) g) b u.

Section building.
Context (K : Z → Prop) (p0 : P) (X0 : gmap Z mm_context) (F0 : Z → tmap) (procs0 : gmap Z process) (g : fstate P).
Context (q mm : Z) (Hq : q ≠ 0) (HX0 : X0 !! mm = None) (Hk0 : vm_ok p0 X0 F0).

Record building (B : list Z) (I : list kimage) (pr : process) p t X s F : Prop := {
  bd_sys : sys_ok p t X s F g;
  bd_step : kstep K B [] p0 X0 F0 p X F;
  bd_in : q ∈ B ∧ mm ∈ B;
  bd_procs : processes s = <[q := pr]> procs0;
  bd_ctx : ∃ c, X !! mm = Some c ∧ mm_refs c = 1 ∧ mm_active_cpu_mask c = 0;
  bd_pr : pr_mm pr = mm ∧ pr_ref_count pr = 1 ∧ pr_owned_images pr = [];
  bd_holds : ∀ im, im ∈ I → holds p X im ∧ outside K im;
  bd_loose : ∀ im, im ∈ I → loose p X s g (im_ptr im);
}.

(** The state under construction. *)
Definition st B I pr (ps : pstate P) : Prop := ∃ p t X s F nb, ps = pst p t X s g nb ∧ building B I pr p t X s F.

Lemma bd_get B I pr p t X s F : building B I pr p t X s F → processes s !! q = Some pr.
Proof. intros Hb. rewrite (bd_procs _ _ _ _ _ _ _ _ Hb). apply lookup_insert_eq. Qed.

Lemma bd_update B I pr pr' p t X s F : building B I pr p t X s F → pr_mm pr' = pr_mm pr →
  pr_ref_count pr' = pr_ref_count pr → pr_owned_images pr' = pr_owned_images pr →
  building B I pr' p t X (s <| processes := <[q := pr']> (processes s) |>) F.
Proof.
  intros Hb Hmm Hr Ho. pose proof (bd_get _ _ _ _ _ _ _ _ Hb) as Hg. destruct Hb as [Hsys Hs Hin Hp Hc Hpr Hh Hlo]. split; try done.
  - apply sys_proc; [done|]. intros x. destruct (decide (x = q)) as [->|Hne]; [by rewrite lookup_insert_eq, Hg; cbn; rewrite Ho|].
    by rewrite lookup_insert_ne.
  - change (<[q := pr']> (processes s) = <[q := pr']> procs0). by rewrite Hp, insert_insert_eq.
  - by rewrite Hmm, Hr, Ho.
  - intros im Hi. destruct (Hlo im Hi) as (Hnz & Hlv & Hno). split; [done|]. split; [done|]. intros p1 t1 u Hu. apply (Hno p1 t1 u).
    revert Hu. apply used_proc. intros x. destruct (decide (x = q)) as [->|Hne]; [by rewrite lookup_insert_eq, Hg; cbn; rewrite Ho|].
    by rewrite lookup_insert_ne.
Qed.

Lemma bd_grow B' B I pr p t X s F p' : building B I pr p t X s F → kstep K B' [] p X F p' X F → building (B' ++ B) I pr p' t X s F.
Proof.
  intros [Hsys Hs Hin Hp Hc Hpr Hh Hlo] Hs2. split; try done.
  - by eapply sys_same.
  - by apply (kstep_seq K B B' p0 X0 F0 p X F p' X F).
  - split; apply elem_of_app; right; apply Hin.
  - intros im Hi. destruct (Hh im Hi) as [Hm Ho]. split; [|done]. eapply holds_step; [exact Hs2|done| |done]. by intros d i ?%elem_of_nil.
  - intros im Hi. destruct (Hlo im Hi) as (Hnz & Hlv & Hno). split; [done|]. split; [|done].
    apply (kstep_live _ _ _ _ _ _ _ _ _ _ Hs2); [|split; [done|apply not_elem_of_nil]].
    intros HB. by apply (kstep_fresh _ _ _ _ _ _ _ _ _ _ Hs2 HB).
Qed.

Lemma bd_kstep B I pr p t X s F p' : building B I pr p t X s F → kstep K [] [] p X F p' X F → building B I pr p' t X s F.
Proof. intros Hb Hs. exact (bd_grow [] B I pr p t X s F p' Hb Hs). Qed.

(** A loose block that is new is given back. *)
Lemma bd_free B I pr im p t X s F p' : building (im_ptr im :: B) (im :: I) pr p t X s F →
  kstep K [] [im_ptr im] p X F p' X F → im_ptr im ∉ B → q ≠ im_ptr im → mm ≠ im_ptr im →
  (∀ im' i, im' ∈ I → 0 ≤ i < im_size im' → fe_mine p0 (word_of (va_to_pa (im_ptr im') + i))) →
  (∀ im', im' ∈ I → im_ptr im' ≠ im_ptr im) → building B I pr p' t X s F.
Proof.
  intros [Hsys Hs Hin Hp Hc Hpr Hh Hlo] Hs2 HB Hqb Hmb Hmine Hne. destruct (Hlo im ltac:(by left)) as (_ & _ & Hun). split; try done.
  - apply (sys_adopt K [] [im_ptr im] p t X s F g); [done|done| | | | |].
    + eapply life_ok; [apply Hsys|apply Hs2].
    + intros b u Hu. right. split; [exact Hu|]. intros ->%list_elem_of_singleton. by eapply (Hun p').
    + intros b u u' Hno Hu. by apply Hno in Hu.
    + by eapply sys_tables.
    + intros i n Hin' _. by left.
  - by eapply kstep_cancel.
  - destruct Hin as [[?|?]%elem_of_cons [?|?]%elem_of_cons]; by split.
  - intros im' Hi. destruct (Hh im' ltac:(by right)) as [Hm Ho]. split; [|done]. eapply holds_step; [exact Hs2|done| |done].
    intros d i ->%list_elem_of_singleton Hir Hsp. apply (kp_new _ _ _ _ _ _ _ _ _ Hs (im_ptr im) ltac:(by left)) in Hsp. by apply Hsp, Hmine.
  - intros im' Hi. destruct (Hlo im' ltac:(by right)) as (Hnz & Hlv & Hno). split; [done|]. split; [|done].
    apply (kstep_live _ _ _ _ _ _ _ _ _ _ Hs2); [apply not_elem_of_nil|]. split; [done|]. intros ?%list_elem_of_singleton. by apply (Hne im').
Qed.

Lemma bd_xfer (K' R : Z → Prop) B I pr p t X s F p' t' X' F' : building B I pr p t X s F →
  vm_xfer K' R mm p X F p' X' F' → (∀ a, K' a → K a) → building B I pr p' t' X' s F'.
Proof.
  intros [Hsys Hs Hin Hp (c & HX & Hc) Hpr Hh Hlo] Hx HK.
  assert (vm_xfer K R mm p X F p' X' F') as Hx' by by eapply xfer_weaken. split; try done.
  - eapply sys_xfer; [exact Hsys|by exists c|exact Hx].
  - eapply kstep_xfer; [exact Hs|apply Hin|exact HX0|exact Hx|exact HK].
  - destruct (xf_ctx _ _ _ _ _ _ _ _ _ Hx c HX) as [l Hl]. by eexists.
  - intros im Hi. destruct (Hh im Hi) as [Hm Ho]. split; [|done]. by eapply holds_xfer.
  - intros im Hi. destruct (Hlo im Hi) as (Hnz & Hlv & Hno). split; [done|]. split; [by apply (xf_span _ _ _ _ _ _ _ _ _ Hx)|].
    intros p1 t1 u Hu. apply (Hno p1 t1 u). revert Hu.
    change (used (fvm (vst p' t1 X' s) g) (im_ptr im) u → used (fvm (vst p t1 X s) g) (im_ptr im) u).
    eapply used_xfer; [exact Hx|by exists c].
Qed.

Lemma bd_locked l B I pr p t X s F : building B I pr p t X s F → building B I pr (plocks (pheld p) (plocks l p)) t X s F.
Proof.
  intros Hb. eapply bd_kstep; [exact Hb|]. pose proof (sys_ok_vm _ _ _ _ _ _ (bd_sys _ _ _ _ _ _ _ _ Hb)) as Hk.
  apply kstep_step; [done|]. apply (vmstep_plocks l); [apply Hk|]. apply vmstep_refl. apply plocks_owner, Hk.
Qed.

(** ** Operations on the process object *)

Lemma wp_upd_process (x : Z) f pr (Q : unit → pstate P → Prop) p t X s nb : processes s !! x = Some pr →
  Q () (pst p t X (s <| processes := <[x := f pr]> (processes s) |>) g nb) → wp (upd_proc x f) Q (pst p t X s g nb).
Proof.
  intros Hx HQ. apply wp_pvm. unfold wp. change (processes (vst p t X s)) with (processes s). rewrite Hx. exact HQ.
Qed.

Lemma wp_get_proc B I pr ps (Q : process → pstate P → Prop) : st B I pr ps → Q pr ps → wp (get_proc q) Q ps.
Proof.
  intros (p & t & X & s & F & nb & -> & Hb) HQ. apply wp_pvm. eapply wp_get_process; [by eapply bd_get|]. exact HQ.
Qed.

Lemma wp_upd_proc B I pr f ps : st B I pr ps → pr_mm (f pr) = pr_mm pr → pr_ref_count (f pr) = pr_ref_count pr →
  pr_owned_images (f pr) = pr_owned_images pr → wp (upd_proc q f) (λ _, st B I (f pr)) ps.
Proof.
  intros (p & t & X & s & F & nb & -> & Hb) H1 H2 H3. eapply wp_upd_process; [by eapply bd_get|].
  exists p, t, X, (s <| processes := <[q := f pr]> (processes s) |>), F, nb. split; [done|]. by eapply bd_update.
Qed.

Lemma wp_p_log B I pr msg ps : st B I pr ps → wp (ker_info msg) (λ _, st B I pr) ps.
Proof.
  intros (p & t & X & s & F & nb & -> & Hb). apply wp_pvm.
  pose proof (sys_ok_vm _ _ _ _ _ _ (bd_sys _ _ _ _ _ _ _ _ Hb)) as Hk. apply wp_logf; [apply Hk|].
  intros p' Hs. exists p', t, X, s, F, nb. split; [done|]. eapply bd_kstep; [exact Hb|]. by apply kstep_step.
Qed.

(** The region is appended, unless the table is full. *)
Lemma wp_add_region B I pr a b ty fl image off fsz ps : st B I pr ps →
  wp (process_add_region q a b ty fl image off fsz) (λ r ps', ∃ pr', st B I pr' ps' ∧
    pr' = if (r : bool) then pr <| pr_regions := pr_regions pr ++ [VmRegion a b ty fl image off fsz] |> else pr) ps.
Proof.
  intros (p & t & X & s & F & nb & -> & Hb). pose proof (so_held _ _ _ _ _ _ (bd_sys _ _ _ _ _ _ _ _ Hb)) as Hh.
  pose proof (bd_get _ _ _ _ _ _ _ _ Hb) as Hg. pose proof (bd_locked [L_process q] _ _ _ _ _ _ _ _ Hb) as Hb'. rewrite Hh in Hb'.
  unfold process_add_region, lock_proc, lock_process. wp_step. apply wp_pvm. wp_step. eapply wp_get_process; [exact Hg|].
  apply wp_vlock; [by rewrite Hh|]. rewrite Hh. set (p1 := plocks [L_process q] p) in *.
  assert (pheld p1 = [L_process q]) as Hh1 by apply pheld_plocks.
  wp_step. apply wp_pvm. eapply wp_get_process; [exact Hg|].
  destruct (_ <=? _).
  - wp_step. apply wp_pvm. eapply wp_vunlock; [exact Hh1|]. wp_step. exists pr. split; [|done]. by exists (plocks [] p1), t, X, s, F, nb.
  - wp_step. eapply (wp_upd_process q _ pr _ p1 t X s nb); [exact Hg|]. wp_step. apply wp_pvm. set (pr' := pr <| pr_regions := _ |>).
    apply (wp_vunlock (L_process q) [] _ p1 t X (s <| processes := <[q := pr']> (processes s) |>)); [exact Hh1|].
    wp_step. exists pr'. split; [|done]. exists (plocks [] p1), t, X, (s <| processes := <[q := pr']> (processes s) |>), F, nb.
    split; [done|]. by eapply bd_update.
Qed.

End building.

End spec.
