(* ===== verification/ProcLoad.v ===== *)
(** * The process under construction: its ELF objects and its argument stack

    [process_register_loaded_object] adds the regions of the loadable segments
    ([mapped]): each reads only bytes of its image, none is both writable and
    executable, and all end within a page of the end that the object's record
    gives, below which the heap does not start. *)

From S2P Require Import Prelude Machine MmuTable MmuBoot Vmsa VmsaWalk VmsaFault VmBits VmsaSpec VmTree VmMap VmOwn VmUnmap VmBytes VmFrame VmFaultSpec VmCopy VmStep VmLife VmCreate VmCtx VmSys Fs FsSpec KernelObjects FsSys Process ProcElf ProcSpec.

Open Scope kernel_scope.

(** The regions [rs] come from segments of [l]; all of them when [all]. *)
Record mapped (im : kimage) (l : list elf64_phdr) (b : Z) (all : bool) (rs : list vm_region) : Prop := {
  mp_from : ∀ r, r ∈ rs → ∃ h, h ∈ l ∧ segment_of (im_ptr im) (im_size im) h b r;
  mp_all : all = true → ∀ h, h ∈ l → loads h = true → ∃ r, r ∈ rs ∧ segment_of (im_ptr im) (im_size im) h b r;
}.

Lemma mapped_part im l b rs : mapped im l b true rs → mapped im l b false rs.
Proof. intros [H1 H2]. split; [done|by intros [=]]. Qed.

Lemma mapped_more im pre h b rs all : mapped im pre b true rs → loads h = false ∨ all = false → mapped im (pre ++ [h]) b all rs.
Proof.
  intros [H1 H2] Hh. split; [intros r Hr; destruct (H1 r Hr) as (h' & ? & ?); exists h'; split; [apply elem_of_app; by left|done]|].
  intros Hall h' [Hin| ->%list_elem_of_singleton]%elem_of_app Hl; [by apply H2|]. destruct Hh as [?|?]; congruence.
Qed.

Lemma mapped_region im pre h b rs r : mapped im pre b true rs → segment_of (im_ptr im) (im_size im) h b r →
  mapped im (pre ++ [h]) b true (rs ++ [r]).
Proof.
  intros [H1 H2] Hs. split.
  - intros r' [Hr| ->%list_elem_of_singleton]%elem_of_app; [|exists h; split; [apply elem_of_app; right; by left|done]].
    destruct (H1 r' Hr) as (h' & ? & ?). exists h'. split; [apply elem_of_app; by left|done].
  - intros _ h' [Hin| ->%list_elem_of_singleton]%elem_of_app Hl; [|exists r; split; [apply elem_of_app; right; by left|done]].
    destruct (H2 eq_refl h' Hin Hl) as (r' & ? & ?). exists r'. split; [apply elem_of_app; by left|done].
Qed.

Lemma mapped_prefix im pre post b rs : mapped im pre b false rs → mapped im (pre ++ post) b false rs.
Proof.
  intros [H1 _]. split; [|by intros [=]]. intros r Hr. destruct (H1 r Hr) as (h & ? & ?). exists h. split; [apply elem_of_app; by left|done].
Qed.

Section load.
Context {P : Type} `{FrameLaws P}.
Context (K : Z → Prop) (p0 : P) (X0 : gmap Z mm_context) (F0 : Z → tmap) (procs0 : gmap Z process) (g : fstate P).
Context (q mm : Z) (Hq : q ≠ 0) (HX0 : X0 !! mm = None) (Hk0 : vm_ok p0 X0 F0).
Abbreviation st := (st K p0 X0 F0 procs0 g q mm).

Definition add_regions (rs : list vm_region) (pr : process) : process := pr <| pr_regions := pr_regions pr ++ rs |>.

Lemma add_regions_nil pr : add_regions [] pr = pr.
Proof. unfold add_regions. destruct pr. unfold setf. cbn. by rewrite app_nil_r. Qed.

Lemma add_regions_app rs r pr : (add_regions rs pr) <| pr_regions := pr_regions (add_regions rs pr) ++ [r] |> = add_regions (rs ++ [r]) pr.
Proof. unfold add_regions. destruct pr. unfold setf. cbn. by rewrite <- app_assoc. Qed.

Lemma wp_map_segments B I pr im l b ps : st B I pr ps → Forall phdr_ok l →
  wp (map_segments q (im_ptr im) (im_size im) l b) (λ r ps', ∃ rs, st B I (add_regions rs pr) ps' ∧ mapped im l b r rs) ps.
Proof.
  intros Hst Hl. unfold map_segments. wp_step. eapply wp_mono; [apply (wp_iterM _ _ _
    (λ pre _ ps', ∃ rs, st B I (add_regions rs pr) ps' ∧ mapped im pre b true rs)
    (λ _ ps', ∃ rs, st B I (add_regions rs pr) ps' ∧ mapped im l b false rs))|].
  - exists []. rewrite add_regions_nil. split; [done|]. by split; intros ? ?%elem_of_nil || (intros ? ? ?%elem_of_nil).
  - intros pre h post _ ps' Heq (rs & Hs & Hm). rewrite Heq in Hl. apply Forall_app in Hl as [_ [Hh _]%Forall_cons].
    assert (l = (pre ++ [h]) ++ post) as Heq' by by rewrite <- app_assoc.
    unfold process_map_elf_segment. wp_step. destruct (elf_segment _ _ h b) as [[r|]|] eqn:He.
    + pose proof (elf_segment_of _ _ _ _ _ Hh He) as Hsg.
      eapply wp_mono; [apply (wp_add_region K p0 X0 F0 procs0 g q mm Hk0 B I (add_regions rs pr)); exact Hs|].
      intros [|] ps2 (pr' & Hs2 & ->); wp_step.
      * exists (rs ++ [r]). rewrite <- add_regions_app. split; [|by apply mapped_region]. by destruct r.
      * exists rs. split; [done|]. rewrite Heq'. apply mapped_prefix, mapped_more; [done|by right].
    + wp_step. wp_step. exists rs. split; [done|]. apply mapped_more; [done|left; by eapply elf_segment_none].
    + wp_step. wp_step. exists rs. split; [done|]. rewrite Heq'. apply mapped_prefix, mapped_more; [done|by right].
  - intros [[]|[]] ps' (rs & Hs & Hm); wp_step; exists rs; by split.
Qed.

(** ** Placement *)

Lemma wp_image_valid im (Q : bool → pstate P → Prop) p t X s nb : holds p X im →
  Q ((SIZEOF_EHDR <=? im_size im) && ehdr_valid (ehdr_at (im_byte im)) (im_size im)) (pst p t X s g nb) →
  wp (process_validate_elf_header (im_ptr im) (im_size im)) Q (pst p t X s g nb).
Proof.
  intros Hh HQ. unfold process_validate_elf_header. pose proof Hh as [((Hp & _) & _) _].
  bfalse (im_ptr im =? 0). cbn [orb]. rewrite Z.leb_antisym in HQ. destruct (im_size im <? SIZEOF_EHDR) eqn:Hs; cbn [negb andb] in HQ; [by wp_step|].
  bool_to_prop. wp_step. eapply (wp_load_ehdr im); [exact Hh|done|lia|]. by wp_step.
Qed.

Lemma wp_place_object B I pr lst h lo hi ps : st B I pr ps → 0 ≤ lo < hi → hi < 2 ^ 64 →
  wp (place_object lst h lo hi) (λ r ps', st B I pr ps' ∧ ∀ b, r = Some b → bias_ok lo hi b) ps.
Proof.
  intros (p & t & X & s & F & nb & -> & Hb) Hlo Hhi. unfold place_object. destruct (e_type h =? ELF_ET_DYN).
  - wp_step. unfold process_choose_elf_load_bias, wp at 1. cbn [process_next_elf_load_base pst].
    pose proof (choose_bias_ok nb lo hi Hlo Hhi) as Hok. destruct (choose_bias nb lo hi) as [nb' b]. cbn [snd] in Hok.
    wp_step. split; [by exists p, t, X, s, F, nb'|]. intros b'. by destruct (_ && _); intros [= <-].
  - wp_step. wp_step. wp_step. cbn [process_next_elf_load_base pst].
    split; [|intros b [= <-]; by left]. destruct (nb <? _); by eexists p, t, X, s, F, _.
Qed.

(** ** One object *)

(** What the load state promises of the objects so far. *)
Definition top_ok (m : Z) : Prop := 0 ≤ m ∧ m mod 4096 = 0 ∧ m + 4096 ≤ USER_HEAP_LIMIT.

Lemma guard_base m : 0 ≤ m < USER_HEAP_LIMIT + 4096 → m mod 4096 = 0 →
  process_align_up (u64 (m + PROCESS_ELF_HEAP_GUARD_SIZE)) PAGE_SIZE = m + 4096.
Proof.
  unfold PROCESS_ELF_HEAP_GUARD_SIZE, PAGE_SIZE at 1, USER_HEAP_LIMIT. intros Hm Hmod.
  rewrite (u64_small (m + 4096)) by lia. destruct (align_up_small (m + 4096)) as [Hb Hb']; [lia..|].
  assert (process_align_up (m + 4096) PAGE_SIZE - (m + 4096) = 0); [|lia].
  rewrite <- (Z.mod_small (_ - _) 4096) by lia. rewrite Zminus_mod, Hb', Zplus_mod, Hmod by lia. done.
Qed.

Definition elf_region im (r : vm_region) : Prop :=
  ∃ h b, h ∈ phdrs_at (im_byte im) ∧ segment_of (im_ptr im) (im_size im) h b r.

(** The process after an object: its entry and its regions. *)
Definition with_object (e : Z) (rs : list vm_region) (pr : process) : process := add_regions rs (pr <| pr_entry_va := e |>).

Record object_added im (lst : process_elf_load_state) (rs : list vm_region) (lst' : process_elf_load_state) : Prop := {
  oa_process : ls_process lst' = ls_process lst;
  oa_objects : eo_owned_image <$> ls_objects lst' = (eo_owned_image <$> ls_objects lst) ++ [im_ptr im];
  oa_top : ls_max_mapped_end lst ≤ ls_max_mapped_end lst' ∧ top_ok (ls_max_mapped_end lst');
  oa_below : ∀ r, r ∈ rs → vr_end r < ls_max_mapped_end lst' + 4096;
}.

Definition object_post B I pr im lst (r : option process_elf_load_state) (ps : pstate P) : Prop :=
  ∃ e rs, st B I (with_object e rs pr) ps ∧ Forall (elf_region im) rs ∧ ∀ lst', r = Some lst' → object_added im lst rs lst' ∧
    SIZEOF_EHDR ≤ im_size im ∧ ehdr_valid (ehdr_at (im_byte im)) (im_size im) = true.

Lemma object_failed B I pr im lst e rs ps : st B I (with_object e rs pr) ps → Forall (elf_region im) rs →
  object_post B I pr im lst None ps.
Proof. intros Hst Hr. by exists e, rs. Qed.

Lemma object_none B I pr im lst ps : st B I pr ps → object_post B I pr im lst None ps.
Proof.
  intros Hst. apply (object_failed _ _ _ _ _ (pr_entry_va pr) []); [|done]. unfold with_object. rewrite add_regions_nil. by destruct pr.
Qed.

Lemma phdrs_ok f : (∀ i, 0 ≤ f i < 256) → Forall phdr_ok (phdrs_at f).
Proof. intros Hf. apply Forall_forall. intros h Hin. apply list_elem_of_fmap in Hin as (i & -> & _). by apply phdr_at_ok. Qed.

(** The bounds of an object all of whose segments are mapped. *)
Lemma object_bounds im b lo hi rs r : (∀ i, 0 ≤ im_byte im i < 256) →
  process_elf_load_bounds (phdrs_at (im_byte im)) = Some (lo, hi) → bias_ok lo hi b →
  mapped im (phdrs_at (im_byte im)) b true rs → r ∈ rs →
  let m := process_align_up (u64 (b + hi)) PAGE_SIZE in
  vr_end r < m + 4096 ∧ 0 < m < USER_HEAP_LIMIT + 4096 ∧ m mod 4096 = 0.
Proof.
  intros Hf Hb Hbias [Hfrom Hall] Hr. pose proof (phdrs_ok _ Hf) as Hl.
  destruct (load_bounds_spec _ _ _ _ _ _ Hl Hb) as (_ & [(hm & Hinm & Hldm & Hhi)|[? _]] & _); [|done].
  destruct (Hfrom r Hr) as (h & Hin & Hsg). destruct (Hall eq_refl hm Hinm Hldm) as (rm & _ & Hsgm).
  by apply (object_end (im_ptr im) (im_size im) (phdrs_at (im_byte im)) b lo hi h hm r rm).
Qed.

(** The object when its segments are mapped. *)
Lemma wp_finish_object B I pr im lst lst1 nm b lo hi ps : st B I pr ps → (∀ i, 0 ≤ im_byte im i < 256) →
  ls_process lst1 = ls_process lst → ls_objects lst1 = ls_objects lst → ls_max_mapped_end lst1 = ls_max_mapped_end lst →
  top_ok (ls_max_mapped_end lst) → process_elf_load_bounds (phdrs_at (im_byte im)) = Some (lo, hi) → bias_ok lo hi b → ∀ phdrs phnum,
  wp (ok ← map_segments q (im_ptr im) (im_size im) (phdrs_at (im_byte im)) b;
      if negb ok then mret None else
      let mapped_end := process_align_up (u64 (b + hi)) PAGE_SIZE in
      let heap_guard_base := process_align_up (u64 (mapped_end + PROCESS_ELF_HEAP_GUARD_SIZE)) PAGE_SIZE in
      if USER_HEAP_LIMIT <? heap_guard_base then mret None else
      let object := ElfObject nm (im_ptr im) (im_ptr im) (im_size im) phdrs phnum lo hi b mapped_end in
      mret (Some (lst1 <| ls_max_mapped_end := if ls_max_mapped_end lst1 <? mapped_end then mapped_end else ls_max_mapped_end lst1 |>
                       <| ls_objects := ls_objects lst1 ++ [object] |>)))
    (λ r ps', ∃ rs, st B I (add_regions rs pr) ps' ∧ Forall (elf_region im) rs ∧ ∀ lst', r = Some lst' → object_added im lst rs lst') ps.
Proof.
  intros Hst Hf Hp Ho Hm Htop Hb Hbias phdrs phnum. wp_step.
  eapply wp_mono; [apply (wp_map_segments B I pr im); [exact Hst|by apply phdrs_ok]|]. intros ok ps2 (rs & Hst2 & Hmap).
  assert (Forall (elf_region im) rs) as Hreg.
  { apply Forall_forall. intros r Hr. destruct (mp_from _ _ _ _ _ Hmap r Hr) as (h & ? & ?). by exists h, b. }
  destruct ok; cbn [negb]; [|wp_step; by exists rs]. set (m := process_align_up (u64 (b + hi)) PAGE_SIZE) in *. cbn zeta.
  destruct (USER_HEAP_LIMIT <? _) eqn:Hlim; wp_step; exists rs; (split; [done|]); (split; [done|]); [done|].
  intros lst' [= <-]. bool_to_prop. pose proof (λ r, object_bounds im b lo hi rs r Hf Hb Hbias Hmap) as Hbd. fold m in Hbd.
  assert (∃ r, r ∈ rs) as [r0 Hr0].
  { pose proof (phdrs_ok _ Hf) as Hl. destruct (load_bounds_spec _ _ _ _ _ _ Hl Hb) as (_ & [(hm & Hinm & Hldm & _)|[? _]] & _); [|done].
    destruct (mp_all _ _ _ _ _ Hmap eq_refl hm Hinm Hldm) as (r & ? & _). by exists r. }
  destruct (Hbd r0 Hr0) as (_ & Hm0 & Hmod). rewrite guard_base in Hlim by (done || lia).
  destruct Htop as (H1 & H2 & H3). split; cbn.
  - done.
  - by rewrite Ho, fmap_app.
  - rewrite Hm. unfold top_ok. destruct (ls_max_mapped_end lst <? m) eqn:?; bool_to_prop; repeat split; try done; lia.
  - intros r Hr. destruct (Hbd r Hr) as (Hre & _). rewrite Hm. destruct (ls_max_mapped_end lst <? m) eqn:?; bool_to_prop; lia.
Qed.

Lemma wp_register_object B I pr im lst nm se ps : st B I pr ps → im ∈ I → elf_safe (im_byte im) (im_size im) →
  ls_process lst = q → top_ok (ls_max_mapped_end lst) →
  wp (process_register_loaded_object lst nm (im_ptr im) (im_ptr im) (im_size im) se) (object_post B I pr im lst) ps.
Proof.
  intros Hst Hin [Hf Hsane] Hlq Htop.
  unfold process_register_loaded_object. destruct (_ <=? _); [wp_step; by apply object_none|].
  wp_step. pose proof Hst as (p & t & X & s & F & nb & -> & Hb). destruct (bd_holds _ _ _ _ _ _ _ _ _ _ _ _ _ _ _ _ Hb im Hin) as [Hh Hout].
  apply (wp_image_valid im); [done|]. destruct (_ && ehdr_valid _ _) eqn:Hv; cbn [negb]; [|wp_step; by apply object_none].
  apply andb_prop in Hv as [Hsz Hv]. bool_to_prop. specialize (Hsane Hsz Hv).
  destruct (process_copy_string nm PROCESS_ELF_NAME_MAX) as [nm'|]; [|wp_step; by apply object_none].
  wp_step. eapply (wp_load_ehdr im); [exact Hh|done|done|]. wp_step. apply (wp_load_phdrs im); [done|done|done|].
  destruct (process_elf_load_bounds _) as [[lo hi]|] eqn:Hlb; [|wp_step; by apply object_none].
  destruct (load_bounds_spec _ _ _ _ _ _ (phdrs_ok _ Hf) Hlb) as (Hall & [(hm & Hinm & Hldm & Hhi)|[? _]] & [(hl & Hinl & Hldl & Hlo)|[? _]] & _); [|done..].
  pose proof (phdrs_ok _ Hf) as Hok. rewrite Forall_forall in Hok.
  assert (0 ≤ lo < hi ∧ hi < 2 ^ 64) as [Hlohi Hhi'].
  { destruct (Hok _ Hinl) as (_ & ? & _ & Hml). destruct (Hall _ Hinl Hldl) as (_ & _ & _ & ?). destruct (Hall _ Hinm Hldm) as (_ & _ & ? & _).
    unfold loads in Hldl. apply andb_prop in Hldl as [_ Hnz]. bool_to_prop. lia. }
  wp_step. eapply wp_mono; [by apply (wp_place_object B I pr)|]. intros [b|] ps2 [Hst2 Hbias]; [|wp_step; by apply object_none].
  specialize (Hbias b eq_refl). cbn zeta. destruct (se && _); [wp_step; by apply object_none|]. rewrite Hlq.
  wp_step. eapply (wp_mono _ (λ _ ps3, ∃ e, st B I (pr <| pr_entry_va := e |>) ps3)).
  { destruct se; cbn [whenM]; [|wp_step; exists (pr_entry_va pr); replace (pr <| pr_entry_va := pr_entry_va pr |>) with pr by (by destruct pr); exact Hst2].
    eapply wp_mono; [by apply (wp_upd_proc K p0 X0 F0 procs0 g q mm B I pr)|]. intros [] ps3 Hst3. exists (u64 (b + e_entry (ehdr_at (im_byte im)))). exact Hst3. }
  intros _ ps3 [e Hst3]. eapply wp_mono; [eapply (wp_finish_object B I); [exact Hst3|done|..|exact Hlb|exact Hbias]|].
  4: done. 1-3: by destruct (bool_decide _), (se && _).
  intros r ps4 (rs & Hst4 & Hr & Hadd). exists e, rs. split; [done|]. split; [done|]. intros lst' Hl. split; [by apply Hadd|by split].
Qed.

End load.

(** ** The argument stack

    [process_populate_arg_stack] builds the arguments in an array of its own
    frame ([kstack], the only bytes outside the new blocks that creation
    changes) and copies them below the top of the new user stack, faulting in
    the page first. *)

(** A region has sound flags and reads only bytes of the images [I]. *)
Record region_in (I : list kimage) (r : vm_region) : Prop := {
  ri_flags : flags_wf (vr_flags r);
  ri_image : vr_elf_image r ≠ 0 → ∃ im, im ∈ I ∧ vr_elf_image r = im_ptr im ∧
    0 ≤ vr_elf_offset r ∧ 0 ≤ vr_file_size r ∧ vr_elf_offset r + vr_file_size r ≤ im_size im;
}.

Definition kstack_bytes (kstack : Z) (a : Z) : Prop := va_to_pa kstack ≤ a < va_to_pa kstack + KSTACK_SIZE.

Section stack.
Context {P : Type} `{FrameLaws P}.

Lemma region_in_src p X I r : (∀ im, im ∈ I → holds p X im) → region_in I r → region_src p X r.
Proof.
  intros Hh [[Hf _ _] Hi].
  assert (vr_elf_image r ≠ 0 → kbuf (vr_elf_image r + vr_elf_offset r) (vr_file_size r) ∧
    ∀ i, 0 ≤ i < vr_file_size r → let w := word_of (va_to_pa (vr_elf_image r + vr_elf_offset r) + i) in fe_mine p w ∧ untracked X w) as Hb.
  { intros Hne. destruct (Hi Hne) as (im & Hin & -> & Ho & Hs & Hle). destruct (Hh im Hin) as [(Hkb & _ & Hbytes) _].
    split; [unfold kbuf in *; lia|]. intros i Hir w. destruct (kbuf_at _ _ (vr_elf_offset r) Hkb) as (_ & _ & Hpa & _); [lia|].
    unfold w. rewrite Hpa, <- Z.add_assoc. apply Hbytes. lia. }
  split; [split; [done|]|]; intros Hne; destruct (Hb Hne) as [? Hw]; [|by intros i Hir; apply Hw].
  intros _. split; [done|]. intros i Hir. by apply Hw.
Qed.

Context (kstack : Z).
Context (p0 : P) (X0 : gmap Z mm_context) (F0 : Z → tmap) (procs0 : gmap Z process) (g : fstate P).
Context (q mm : Z) (Hq : q ≠ 0) (HX0 : X0 !! mm = None) (Hk0 : vm_ok p0 X0 F0).
Context (Hks : client_buf p0 X0 kstack KSTACK_SIZE).
Abbreviation K := (kstack_bytes kstack).
Abbreviation st := (st K p0 X0 F0 procs0 g q mm).
Abbreviation bld := (building K p0 X0 F0 procs0 g q mm).

Lemma kstack_client B I pr p t X s F i : bld B I pr p t X s F → 0 ≤ i < KSTACK_SIZE →
  fe_mine p (word_of (va_to_pa kstack + i)) ∧ untracked X (word_of (va_to_pa kstack + i)).
Proof.
  intros Hb Hi. destruct Hks as (_ & _ & Hc). destruct (Hc i Hi) as [Hm Hu].
  destruct (kp_mem _ _ _ _ _ _ _ _ _ (bd_step _ _ _ _ _ _ _ _ _ _ _ _ _ _ _ _ Hb) _ Hm Hu) as (? & ? & _); [|done].
  by intros d ?%elem_of_nil.
Qed.

Lemma wp_kstack8 B I pr ptr i v ps : st B I pr ps → ptr = kstack + i → 0 ≤ i < KSTACK_SIZE →
  wp (p_store8 (u64 ptr) v) (λ _, st B I pr) ps.
Proof.
  intros (p & t & X & s & F & nb & -> & Hb) -> Hi. destruct Hks as (Hkb & _ & _). apply wp_pvm.
  pose proof (sys_ok_vm _ _ _ _ _ _ (bd_sys _ _ _ _ _ _ _ _ _ _ _ _ _ _ _ _ Hb)) as Hk.
  eapply wp_store8; [exact Hkb|done|]. eexists _, t, X, s, F, nb. split; [reflexivity|]. eapply bd_kstep; [exact Hk0|exact Hb|].
  destruct (kbuf_at kstack KSTACK_SIZE i Hkb Hi) as (_ & _ & _ & Hd). destruct (kstack_client _ _ _ _ _ _ _ _ i Hb Hi) as [Hm Hu].
  apply (kstep_wrote K [] p X F p X F _ (va_to_pa kstack + i) 1 (λ _, u8 v)); [by apply kstep_refl| |lia| |].
  - pose proof (wrote_step p p (va_to_pa kstack + i) 0 (λ _, u8 v) v) as Hw. rewrite Z.add_0_r in Hw. apply Hw; [lia|lia| |apply wrote_refl, Hk|done].
    intros j Hj. by replace (va_to_pa kstack + i + j) with (va_to_pa kstack + i) by lia.
  - intros j Hj. by replace (va_to_pa kstack + i + j) with (va_to_pa kstack + i) by lia.
  - intros j Hj. right. unfold kstack_bytes. lia.
Qed.

Lemma wp_store_le B I pr n ptr i v ps : st B I pr ps → ptr = kstack + i → 0 ≤ i → i + Z.of_nat n ≤ KSTACK_SIZE →
  wp (store_le n ptr v) (λ _, st B I pr) ps.
Proof.
  revert ptr i v ps. induction n as [|n IH]; intros ptr i v ps Hst Hp Hi Hn; cbn [store_le]; [by wp_step|].
  wp_step. eapply wp_mono; [apply (wp_kstack8 B I pr ptr i); [done|done|lia]|]. intros [] ps' Hst'. apply (IH _ (i + 1)); [done|lia..].
Qed.

Lemma wp_push_auxv B I pr k tag v ps : st B I pr ps → 16 ≤ k ≤ KSTACK_SIZE →
  wp (push_auxv kstack k tag v) (λ r ps', r = k - 16 ∧ st B I pr ps') ps.
Proof.
  intros Hst Hk. unfold push_auxv. cbn zeta. wp_step. eapply wp_mono; [apply (wp_store_le B I pr 8 _ (k - 16)); [done|done|lia..]|].
  intros [] ps1 H1. wp_step. eapply wp_mono; [apply (wp_store_le B I pr 8 _ (k - 16 + 8)); [done|lia..]|]. intros [] ps2 H2. by wp_step.
Qed.

Lemma wp_push_word B I pr k v ps : st B I pr ps → 8 ≤ k ≤ KSTACK_SIZE →
  wp (push_word kstack k v) (λ r ps', r = k - 8 ∧ st B I pr ps') ps.
Proof.
  intros Hst Hk. unfold push_word. cbn zeta. wp_step. eapply wp_mono; [apply (wp_store_le B I pr 8 _ (k - 8)); [done|done|lia..]|].
  intros [] ps1 H1. by wp_step.
Qed.

Lemma wp_push_string B I pr k str ps : st B I pr ps → Z.of_nat (String.length str) + 1 ≤ k ≤ KSTACK_SIZE →
  wp (push_string kstack k str) (λ r ps', r = k - (Z.of_nat (String.length str) + 1) ∧ st B I pr ps') ps.
Proof.
  intros Hst Hk. unfold push_string. cbn zeta. wp_step. eapply wp_mono; [apply (wp_forM _ _ (λ _ ps', st B I pr ps'))|].
  - done.
  - intros pre [i c] post ps' Heq Hst'. apply (wp_kstack8 B I pr _ (k - (Z.of_nat (String.length str) + 1) + i)); [done|lia|].
    assert ((i, c) ∈ imap (λ i c, (Z.of_nat i, Z.of_N (Ascii.N_of_ascii c))) (String.list_ascii_of_string str ++ [Ascii.zero])) as Hin.
    { rewrite Heq. apply elem_of_app. right. by left. }
    apply elem_of_lookup_imap_1 in Hin as (j & x & [= -> _] & Hj). apply lookup_lt_Some in Hj. rewrite length_app in Hj. cbn in Hj.
    assert (length (String.list_ascii_of_string str) = String.length str) as Hl.
    { clear. induction str as [|a str IH]; cbn; [done|]. by rewrite IH. }
    lia.
  - intros [] ps' Hst'. by wp_step.
Qed.

(** The fault of the top page of the stack, and the copy. *)
Lemma wp_stack_fault B I pr far esr ps : st B I pr ps → Forall (region_in I) (pr_regions pr) → 0 ≤ far < 2 ^ 64 →
  wp (vm (mmu_handle_process_page_fault q far esr)) (λ _, st B I pr) ps.
Proof.
  intros (p & t & X & s & F & nb & -> & Hb) Hr Hfar. apply wp_pvm. pose proof Hb as [Hsys _ _ _ (c & HX & _) (Hmm & _) Hh].
  pose proof (sys_ok_vm _ _ _ _ _ _ Hsys) as Hk. rewrite <- Hmm in HX.
  assert (Forall (region_ok p) (pr_regions pr)) as Hro.
  { eapply Forall_impl; [exact Hr|]. intros r Hir. apply (region_in_src p X I); [|done]. intros im Him. by apply Hh. }
  assert (∀ (r : bool) p' t' X' F', vm_frame (pr_mm pr) p X F p' X' F' → st B I pr (pst p' t' X' s g nb)) as Hout.
  { intros r p' t' X' F' Hf. exists p', t', X', s, F', nb. split; [done|]. eapply (bd_xfer _ _ _ _ _ _ _ mm HX0 nowhere nowhere); [exact Hb| |by intros a []].
    rewrite <- Hmm. by apply xfer_frame. }
  apply (wp_fault q pr c far esr _ p t X s F); [done|done|by eapply bd_get|done| |done|done| |].
  - by rewrite (so_held _ _ _ _ _ _ Hsys).
  - intros p' t' X' F' Hf. by apply (Hout false p' t' X' F').
  - intros p' t' X' F' Hf _. by apply (Hout true p' t' X' F').
Qed.

Lemma wp_stack_copy B I pr cur dst k ps : st B I pr ps → faulting_process cur mm = 0 → 0 ≤ k ≤ KSTACK_SIZE →
  0 ≤ dst → dst + (KSTACK_SIZE - k) ≤ 2 ^ 48 →
  wp (vm (mmu_copy_to_user cur mm dst (u64 (kstack + k)) (KSTACK_SIZE - k))) (λ _, st B I pr) ps.
Proof.
  intros Hst Hcur Hkr Hd Hend. pose proof Hst as (p & t & X & s & F & nb & -> & Hb). apply wp_pvm. unfold mmu_copy_to_user.
  destruct (_ =? 0) eqn:Hz; [by wp_step|]. bool_to_prop. destruct (_ =? 0); [by wp_step|].
  destruct (bd_ctx _ _ _ _ _ _ _ _ _ _ _ _ _ _ _ _ Hb) as (c & HX & _). destruct Hks as (Hkb & _ & _).
  destruct (kbuf_sub kstack KSTACK_SIZE k (KSTACK_SIZE - k) Hkb) as (Hsub & Hpa & Hu); [lia..|].
  destruct (kbuf_at kstack KSTACK_SIZE k Hkb ltac:(lia)) as (Hu' & _). rewrite Hu'.
  pose proof (bd_sys _ _ _ _ _ _ _ _ _ _ _ _ _ _ _ _ Hb) as Hsys.
  apply (wp_copy_user_range cur mm true (kstack + k) dst (KSTACK_SIZE - k) s p X F c); try done.
  - by eapply sys_ok_vm.
  - by rewrite (so_held _ _ _ _ _ _ Hsys).
  - intros i Hi. rewrite Hpa, <- Z.add_assoc. apply (kstack_client B I pr p t X s F (k + i) Hb). lia.
  - lia.
  - intros r s' (j & p' & t' & X' & F' & -> & [Hx _] & _). exists p', t', X', s, F', nb. split; [done|].
    eapply (bd_xfer _ _ _ _ _ _ _ mm HX0); [exact Hb|exact Hx|]. by intros a [].
Qed.

(** The arguments fit the array when the path is at most 800 characters, and
    the new stack pointer is aligned and on the stack. *)
Definition with_stack (sp : Z) (pr : process) : process := pr <| pr_stack_top := sp |> <| pr_user_sp := sp |>.

Lemma align16 k : 0 ≤ k < 2 ^ 64 → Z.land k (not64 15) = k - k mod 16.
Proof. intros Hk. change 15 with (2 ^ 4 - 1). by rewrite land_not_ones by lia. Qed.

Lemma wp_populate B I pr cur path lst ps : st B I pr ps → Forall (region_in I) (pr_regions pr) →
  pr_stack_top pr = USER_STACK_TOP → faulting_process cur mm = 0 → Z.of_nat (String.length (default EmptyString path)) ≤ 800 →
  wp (process_populate_arg_stack cur kstack q path lst) (λ _ ps', ∃ pr', st B I pr' ps' ∧ (pr' = pr ∨ ∃ sp, pr' = with_stack sp pr ∧
    USER_STACK_TOP - KSTACK_SIZE ≤ sp ≤ USER_STACK_TOP ∧ sp mod 16 = 0)) ps.
Proof.
  intros Hst Hr Htop Hcur Hlen. unfold process_populate_arg_stack. set (str := default EmptyString path) in *. clearbody str.
  wp_step. eapply (wp_get_proc K p0 X0 F0 procs0 g q mm B I pr); [exact Hst|]. rewrite Htop. cbn zeta.
  wp_step. eapply wp_mono; [apply (wp_stack_fault B I pr); [exact Hst|exact Hr|by vm_compute]|].
  intros handled ps1 H1. destruct handled; cbn [negb]; [|wp_step; exists pr; split; [done|by left]].
  unfold KSTACK_SIZE in *. set (n1 := 1024 - (Z.of_nat (String.length str) + 1)).
  wp_step. eapply wp_mono; [apply (wp_push_string B I pr); [exact H1|unfold KSTACK_SIZE; lia]|]. intros k1 ps2 [-> H2]. fold n1.
  wp_step. eapply wp_mono; [apply (wp_push_string B I pr); [exact H2|cbn; unfold KSTACK_SIZE; lia]|]. intros k2 ps3 [-> H3].
  set (n2 := n1 - _). assert (n2 = n1 - 11) as Hn2 by done. rewrite (align16 n2) by lia.
  pose proof (Z.mod_pos_bound n2 16 ltac:(done)) as Hm2. set (n3 := n2 - n2 mod 16) in *. assert (197 ≤ n3 ≤ 1024) as Hn3 by (unfold n3; lia). clearbody n3.
  do 8 (wp_step; eapply wp_mono; [apply (wp_push_auxv B I pr); [eassumption|unfold KSTACK_SIZE; lia]|]; intros ? ? [-> ?]).
  do 5 (wp_step; eapply wp_mono; [apply (wp_push_word B I pr); [eassumption|unfold KSTACK_SIZE; lia]|]; intros ? ? [-> ?]).
  set (n4 := n3 - _ - _ - _ - _ - _ - _ - _ - _ - _ - _ - _ - _ - _). assert (n4 = n3 - 168) as Hn4 by (unfold n4; lia). rewrite (align16 n4) by lia.
  pose proof (Z.mod_pos_bound n4 16 ltac:(done)) as Hm4. set (n5 := n4 - n4 mod 16) in *. assert (0 ≤ n5 ≤ 1024 ∧ n5 mod 16 = 0) as [Hn5 Hn5m].
  { unfold n5. split; [lia|]. rewrite Zminus_mod, Z.mod_mod, Z.sub_diag by lia. done. }
  clearbody n5.
  assert (pr_mm pr = mm) as -> by (destruct Hst as (? & ? & ? & ? & ? & ? & _ & Hb); apply Hb).
  unfold USER_STACK_TOP. rewrite (u64_small (2147483648 - (1024 - n5))) by lia.
  wp_step. eapply wp_mono; [apply (wp_stack_copy B I pr); [eassumption|exact Hcur|unfold KSTACK_SIZE; lia|lia|unfold KSTACK_SIZE; lia]|].
  intros copied ps4 Hc4. eapply wp_mono; [apply (wp_upd_proc K p0 X0 F0 procs0 g q mm B I pr); done|]. intros [] ps5 Hc5.
  eexists. split; [exact Hc5|]. right. exists (2147483648 - (1024 - n5)). split; [by destruct pr|]. split; [lia|].
  replace (2147483648 - (1024 - n5)) with (n5 + 134217664 * 16) by lia. by rewrite Z.mod_add.
Qed.

End stack.
