(* ===== verification/ProcCreate.v ===== *)
(** * Creation of a process: allocation, the interpreter, and undoing

    A file is loaded into a fresh block ([wp_load_file]); the object and its
    address space are allocated ([wp_process_alloc]); a creation that fails
    gives everything back ([wp_undo]). *)

From S2P Require Import Prelude Machine MmuTable MmuBoot Vmsa VmsaWalk VmsaFault VmBits VmsaSpec VmTree VmMap VmOwn VmUnmap VmBytes VmFrame VmFaultSpec VmCopy VmStep VmLife VmCreate VmCtx VmSys Fs FsSpec KernelObjects FsSys Process ProcElf ProcSpec ProcLoad.

Open Scope kernel_scope.

Lemma vnode_returned {P} `{FrameEnv P} vn mnt i (g : fstate P) : vnodes g !! vn = None →
  (with_vnode vn mnt i g) <| vnodes := delete vn (vnodes (with_vnode vn mnt i g)) |> = g.
Proof. intros Hn. destruct g as [? ? ? ? vs ?]. unfold with_vnode, setf. cbn in *. by rewrite delete_insert_id. Qed.

Section create.
Context {P : Type} `{FrameLaws P}.
Context (K : Z → Prop) (p0 : P) (t0 : treg) (X0 : gmap Z mm_context) (s0 : vstate P) (F0 : Z → tmap) (g : fstate P).
Context (q mm : Z) (Hq : q ≠ 0) (HX0 : X0 !! mm = None) (Hsys0 : sys_ok p0 t0 X0 s0 F0 g).
Context (Hfiles : ∀ k m, ramfs_nodes g !! k = Some m → rn_in_use m = true →
  ∀ j, 0 ≤ j < rn_size m → ¬ K (va_to_pa (rn_data m) + j)).
Context (HK : ∀ a, K a → fe_mine p0 (word_of a)).
Abbreviation st := (st K p0 X0 F0 (processes s0) g q mm).
Abbreviation bld := (building K p0 X0 F0 (processes s0) g q mm).

Lemma base_ok : vm_ok p0 X0 F0.
Proof. by eapply sys_ok_vm. Qed.

(** The content of a file, as it was at the start. *)
Definition file_byte (n : ramfs_node) (j : Z) : Z := rd8 (pmem p0) (va_to_pa (rn_data n) + j).

Lemma node_byte B p X F i n : kstep K B [] p0 X0 F0 p X F → ramfs_nodes g !! i = Some n → rn_in_use n = true →
  ∀ j, 0 ≤ j < rn_size n → fe_mine p (word_of (va_to_pa (rn_data n) + j)) ∧
    rd8 (pmem p) (va_to_pa (rn_data n) + j) = file_byte n j.
Proof.
  intros Hs Hi Hu j Hj. destruct (node_client p0 X0 F0 n j base_ok (si_nodes _ (so_inv _ _ _ _ _ _ Hsys0) i n Hi Hu) Hj) as [Hm Hun].
  destruct (kp_mem _ _ _ _ _ _ _ _ _ Hs _ Hm Hun) as (? & _ & Hr); [by intros d ?%elem_of_nil|]. split; [done|].
  apply Hr. by apply (Hfiles i n).
Qed.

(** The file's block, when it was read whole. *)
Definition loaded B I pr path (r : option (Z * Z)) (ps : pstate P) : Prop :=
  match r with
  | None => st B I pr ps
  | Some (buf, size) => ∃ i n, file_node g path = Some (i, n) ∧ size = rn_size n ∧ (buf ∉ B) ∧ (∀ im, im ∈ I → im_ptr im ≠ buf) ∧
      st (buf :: B) (KImage buf size (file_byte n) :: I) pr ps
  end.

Lemma wp_load_file B I pr path ps : st B I pr ps → wp (process_load_file_image path) (loaded B I pr path) ps.
Proof.
  intros (p & t & X & s & F & nb & -> & Hb). pose proof (bd_sys _ _ _ _ _ _ _ _ _ _ _ _ _ _ _ _ Hb) as Hsys.
  pose proof (sys_ok_vm _ _ _ _ _ _ Hsys) as Hk. unfold process_load_file_image. wp_step. apply wp_pfs.
  apply (wp_sys_open K _ _ _ p t X s F g); [done| |].
  { intros p1 Hs1 Hsys1. wp_step. exists p1, t, X, s, F, nb. split; [done|]. eapply bd_kstep; [exact base_ok|exact Hb|done]. }
  intros p1 vn mnt i n Hs1 Hvn Hfn Hno Hsys1. set (g1 := with_vnode vn mnt i g) in *.
  pose proof (file_node_find _ _ _ Hfn) as Hf. destruct (find_node_some _ _ _ _ Hf) as (Hi & Hin & Hnu & _).
  pose proof (si_nodes _ (so_inv _ _ _ _ _ _ Hsys1) _ n Hin Hnu) as Hnok. change (node_ok p1 X n) in Hnok.
  pose proof (sys_ok_vm _ _ _ _ _ _ Hsys1) as Hk1. cbn [f_size]. pose proof (no_size _ _ _ Hnok) as Hsz.
  assert (∀ m, m ∈ mounts g1 → mt_root m ≠ vn) as Hroot.
  { intros m Hm Hr. destruct (ft_mount _ (sys_tables _ _ _ _ _ _ Hsys) m Hm) as [x Hx]. rewrite Hr in Hx. congruence. }
  (* closing frees the vnode *)
  assert (∀ B' f p2 (Q : file → pstate P → Prop), kstep K B' [] p1 X F p2 X F → f_vn f = vn →
    (∀ f' p3, kstep K B' [] p X F p3 X F → kstep K [] [vn] p2 X F p3 X F → sys_ok p3 t X s F g → Q f' (pst p3 t X s g nb)) →
    wp (fs (fs_close f)) Q (pst p2 t X s g1 nb)) as Hclose.
  { intros B' f p2 Q Hs2 Hfv HQ. apply wp_pfs. subst vn. apply (wp_sys_close K f (vnode_of mnt i) _ p2 t X s F g1).
    - by eapply sys_same.
    - apply lookup_insert_eq.
    - exact Hroot.
    - intros p3 Hs3. unfold g1. rewrite vnode_returned by done. intros Hsys3. apply HQ; [|exact Hs3|exact Hsys3].
      assert (f_vn f ∉ B') as HB'.
      { intros HB'. apply (kstep_fresh _ _ _ _ _ _ _ _ _ _ Hs2 HB'). by apply (kp_new _ _ _ _ _ _ _ _ _ Hs1 (f_vn f) ltac:(by left)). }
      apply (kstep_cancel K B' (f_vn f) p X F p2 X F p3 X F); [done|done| |done].
      apply (kstep_blocks K (B' ++ [f_vn f])); [|by apply (kstep_seq K [f_vn f] B' p X F p1 X F p2 X F)].
      intros b. rewrite elem_of_app, !elem_of_cons. split; [intros [?|[?|[]%elem_of_nil]]|intros [?|?]]; tauto. }
  wp_step. apply wp_pfs. apply (wp_fs_kmalloc K (rn_size n) _ p1 t X s F g1); [done|by eapply sys_ok_lock|done| |].
  { intros p2 Hs2. change (0 =? 0) with true. cbn iota. wp_step. apply (Hclose [] _ p2); [done|done|].
    intros f' p3 Hs3 _ Hsys3. wp_step. exists p3, t, X, s, F, nb. split; [done|]. eapply bd_kstep; [exact base_ok|exact Hb|done]. }
  intros buf p2 Hbnz Hbu _ Hkb Hs2 Hspan. bfalse (buf =? 0). pose proof (sys_ok_vm _ _ _ _ _ _ (sys_same _ _ _ _ _ _ _ _ _ Hsys1 Hs2)) as Hk2.
  assert (∀ j, 0 ≤ j < rn_size n → fe_mine p2 (word_of (va_to_pa buf + j)) ∧ untracked X (word_of (va_to_pa buf + j)) ∧
    ¬ fe_mine p1 (word_of (va_to_pa buf + j))) as Hbuf.
  { intros j Hj. destruct (span_client p2 X F _ _ Hk2 (Hspan j Hj)). split; [done|]. split; [done|].
    apply (kp_new _ _ _ _ _ _ _ _ _ Hs2 buf ltac:(by left)). by apply Hspan. }
  assert (kstep K ([buf] ++ [vn] ++ B) [] p0 X0 F0 p2 X F) as Hs02.
  { apply (kstep_seq K ([vn] ++ B) [buf] p0 X0 F0 p1 X F p2 X F); [exact base_ok| |done].
    apply (kstep_seq K B [vn] p0 X0 F0 p X F p1 X F); [exact base_ok|apply Hb|done]. }
  assert (kstep K ([vn] ++ B) [] p0 X0 F0 p1 X F) as Hs01.
  { apply (kstep_seq K B [vn] p0 X0 F0 p X F p1 X F); [exact base_ok|apply Hb|done]. }
  wp_step. apply wp_pfs. apply (wp_fs_read (File vn path 0 (rn_size n)) mnt i n buf (rn_size n) _ p2 t X s F g1); try done.
  { by apply sys_tables with (p := p1) (t := t) (X := X) (s := s) (F := F). }
  { apply lookup_insert_eq. }
  { eapply node_ok_step; [exact Hs2|done|]. intros Hown Hpos. split; [apply not_elem_of_nil|].
    apply (si_live _ (so_inv _ _ _ _ _ _ Hsys1) (rn_data n) (UData (Z.to_nat i))). by exists n. }
  { lia. }
  { intros j Hj. by apply Hbuf. }
  { intros j k Hj Hkr Heq. destruct (Hbuf j Hj) as (_ & _ & Hnm). apply Hnm. rewrite Heq.
    by apply (node_byte ([vn] ++ B) p1 X F (Z.to_nat i) n Hs01). }
  cbn [f_offset]. set (c := read_count n 0 (rn_size n)). intros p3 Hw.
  assert (c = rn_size n) as Hc.
  { unfold c, read_count. destruct (rn_size n <=? 0) eqn:?; bool_to_prop; lia. }
  assert (kstep K [buf] [] p1 X F p3 X F) as Hs3.
  { eapply (kstep_wrote K [buf] p1 X F p2 X F p3 (va_to_pa buf) c); [exact Hs2|exact Hw| | |].
    - unfold va_to_pa, KERNEL_VA_OFFSET. destruct Hkb as (? & _). case_match; bool_to_prop; lia.
    - intros j Hj. destruct (Hbuf j) as (? & ? & _); [lia|done].
    - intros j Hj. left. destruct (Hbuf j) as (_ & _ & ?); [lia|done]. }
  wp_step. apply (Hclose [buf] _ p3); [done|done|]. intros f' p4 Hs4 Hs34 Hsys4.
  assert (negb (c =? rn_size n) = false) as -> by (by rewrite Hc, Z.eqb_refl). wp_step.
  assert (buf ∉ B) as HnB.
  { intros HB. apply (kstep_fresh _ _ _ _ _ _ _ _ _ buf Hs4 ltac:(by left)).
    by apply (kp_new _ _ _ _ _ _ _ _ _ (bd_step _ _ _ _ _ _ _ _ _ _ _ _ _ _ _ _ Hb) buf HB). }
  assert (∀ b, b = buf → ¬ fe_live p b) as Hfresh.
  { intros b ->. apply (kstep_fresh _ _ _ _ _ _ _ _ _ buf Hs4). by left. }
  exists i, n. split; [done|]. split; [done|]. split; [done|].
  assert (∀ im, im ∈ I → im_ptr im ≠ buf) as Hne.
  { intros im Him Heq. apply (Hfresh _ Heq). by apply (bd_loose _ _ _ _ _ _ _ _ _ _ _ _ _ _ _ _ Hb im Him). }
  split; [done|]. exists p4, t, X, s, F, nb. split; [done|].
  destruct (bd_grow K p0 X0 F0 (processes s0) g q mm base_ok [buf] B I pr p t X s F p4 Hb Hs4) as [G1 G2 G3 G4 G5 G6 G7 G8]. split; try done.
  - intros im [->|Him]%elem_of_cons; [|by apply G7].
    assert (∀ j, 0 ≤ j < rn_size n → ¬ K (va_to_pa buf + j)) as HnK.
    { intros j Hj HKj. apply HK in HKj. destruct (Hbuf j Hj) as (_ & _ & Hnm). eapply kstep_mine; [exact base_ok|exact Hs01|exact HKj|exact Hnm]. }
    assert (∀ j, 0 ≤ j < rn_size n → fe_span p4 buf (word_of (va_to_pa buf + j))) as Hspan4.
    { intros j Hj. apply (kp_span _ _ _ _ _ _ _ _ _ Hs34); [apply not_elem_of_nil|]. split; [by apply (so_span _ _ (wt_owner _ _ _ _ _ Hw)), Hspan|].
      intros ->%list_elem_of_singleton. apply (kstep_fresh _ _ _ _ _ _ _ _ _ vn Hs2 ltac:(by left)).
      by apply (kp_new _ _ _ _ _ _ _ _ _ Hs1 vn ltac:(by left)). }
    split; [|exact HnK]. split; [split; [exact Hkb|split; [exact Hbu|]]|]; cbn [im_ptr im_size im_byte]; intros j Hj.
    { eapply span_client; [by apply (sys_ok_vm p4 t X s F g)|by apply Hspan4]. }
    destruct (Hbuf j Hj) as (Hm2 & Hu2 & _). destruct (kbuf_at buf (rn_size n) j Hkb Hj) as (_ & _ & _ & Hpos).
    destruct (kp_mem _ _ _ _ _ _ _ _ _ Hs34 (va_to_pa buf + j)) as (_ & _ & Hr4); [by apply (so_mine _ _ (wt_owner _ _ _ _ _ Hw))|done| |].
    { intros d ->%list_elem_of_singleton Hsp. apply (so_span _ _ (wt_owner _ _ _ _ _ Hw)) in Hsp.
      apply (kp_span _ _ _ _ _ _ _ _ _ Hs2) in Hsp as [Hsp _]; [|intros ->%list_elem_of_singleton].
      + destruct (Hbuf j Hj) as (_ & _ & Hnm). apply Hnm. by destruct (span_client p1 X F _ _ Hk1 Hsp).
      + apply (kstep_fresh _ _ _ _ _ _ _ _ _ buf Hs2 ltac:(by left)). by apply (kp_new _ _ _ _ _ _ _ _ _ Hs1 buf ltac:(by left)). }
    rewrite Hr4 by (by apply HnK). rewrite (wt_bytes _ _ _ _ _ Hw) by lia. rewrite decide_True by lia. replace (va_to_pa buf + j - va_to_pa buf) with j by lia.
    rewrite Z.add_0_l. by apply (node_byte ([buf] ++ [vn] ++ B) p2 X F (Z.to_nat i) n Hs02).
  - intros im [->|Him]%elem_of_cons; [|by apply G8]. split; [done|]. split; [by apply (kp_new _ _ _ _ _ _ _ _ _ Hs4 buf ltac:(by left))|].
    intros p1' t' u Hu. apply (Hfresh buf eq_refl). by apply (si_live _ (so_inv _ _ _ _ _ _ Hsys) buf u).
Qed.

(** ** Undoing *)

(** Nothing is left but what was there at the start. *)
Definition idle (ps : pstate P) : Prop := ∃ p t X s F nb, ps = pst p t X s g nb ∧ sys_ok p t X s F g ∧
  kstep K [] [] p0 X0 F0 p X F ∧ processes s = processes s0.

Lemma idle_intro p t X s F nb : kstep K [] [] p0 X0 F0 p X F → life nobody p X F s → processes s = processes s0 →
  idle (pst p t X s g nb).
Proof.
  intros Hs Hl Hp. exists p, t, X, s, F, nb. split; [done|]. split; [|by split].
  apply (sys_step K [] [] p0 t0 X0 s0 F0 g); [done|done|done| |by intros ? ? ? ?%elem_of_nil|by intros ? ?%elem_of_nil| |].
  - intros b u Hu. right. split; [|apply not_elem_of_nil]. destruct u as [| | | |x i]; try exact Hu.
    + destruct (kp_dom _ _ _ _ _ _ _ _ _ Hs b Hu) as [?%elem_of_nil|[? _]]; done.
    + change (is_Some (processes s !! b)) in Hu. by rewrite Hp in Hu.
    + change (∃ pr, processes s !! x = Some pr ∧ pr_owned_images pr !! i = Some b ∧ b ≠ 0) in Hu. by rewrite Hp in Hu.
  - by eapply sys_tables.
  - intros i n Hin _. by left.
Qed.

Context (Hp0 : processes s0 !! q = None) (Hqm : q ≠ mm).

Lemma bd_ctx_none B I pr p t X s F : bld B I pr p t X s F → X !! q = None.
Proof.
  intros Hb. destruct (X !! q) as [c|] eqn:Hc; [|done]. exfalso.
  assert (UCtx = UProc) as [=]. apply (si_once _ (so_inv _ _ _ _ _ _ (bd_sys _ _ _ _ _ _ _ _ _ _ _ _ _ _ _ _ Hb)) q); [by exists c|].
  exists pr. by apply (bd_get K p0 X0 F0 (processes s0) g q mm B I pr p t X s F).
Qed.

Lemma wp_undo B I pr ps : st B I pr ps → (∀ b, b ∈ B ↔ b = q ∨ b = mm) → wp (process_destroy q) (λ _, idle) ps.
Proof.
  intros (p & t & X & s & F & nb & -> & Hb) HB. pose proof (bd_ctx_none _ _ _ _ _ _ _ _ Hb) as HXq.
  pose proof (bd_get _ _ _ _ _ _ _ _ _ _ _ _ _ _ _ _ Hb) as Hg.
  pose proof (bd_locked K p0 X0 F0 (processes s0) g q mm base_ok [L_process q] B I pr p t X s F Hb) as Hb'.
  destruct Hb as [Hsys _ _ _ _ _ _ _]. pose proof (so_held _ _ _ _ _ _ Hsys) as Hh. rewrite Hh in Hb'.
  unfold process_destroy. bfalse (q =? 0). unfold lock_proc, lock_process. wp_step. apply wp_pvm. wp_step. eapply wp_get_process; [exact Hg|].
  apply wp_vlock; [by rewrite Hh|]. rewrite Hh. set (p1 := plocks [L_process q] p) in *. set (p2 := plocks [] p1) in *.
  assert (pheld p1 = [L_process q]) as Hh1 by apply pheld_plocks.
  destruct Hb' as [Hsys2 Hs2 _ Hprocs (c & HX & Hcr & Hcm) (Hmm & Href & Himg) _ _]. destruct (vk_live _ _ _ (sys_ok_vm _ _ _ _ _ _ Hsys2) mm c HX) as [Hmmz _].
  wp_step. apply wp_pvm. eapply wp_get_process; [exact Hg|]. rewrite Href, Hmm, Himg. change (1 <? 1) with false. change (1 =? 0) with false. cbn iota.
  wp_step. eapply (wp_upd_process g q _ pr _ p1 t X s nb); [exact Hg|]. set (pr' := pr <| pr_ref_count := _ |> <| pr_mm := _ |> <| pr_owned_images := _ |>).
  set (s1 := s <| processes := <[q := pr']> (processes s) |>). wp_step. apply wp_pvm.
  apply (wp_vunlock (L_process q) [] _ p1 t X s1); [exact Hh1|]. fold p2. bfalse (mm =? 0). cbn [negb whenM forM_].
  assert (life nobody p2 X F s1) as Hl1 by apply life_proc, Hsys2.
  wp_step. apply wp_pvm. unfold mmu_context_destroy. apply (wp_context_put K mm c _ p2 t X s1 F); [exact Hl1|exact HX|unfold p2; by rewrite pheld_plocks| | |].
  { intros p3 _ Hz. exfalso. lia. }
  { intros p3 c' _ _ Hz. exfalso. lia. }
  intros p3 s3 _ _ Hl3 Hs3. wp_step. wp_step. unfold free_process. wp_step. apply wp_pvm. wp_step.
  match goal with |- wp (p_kfree q) _ ?z => change z with (pst p3 t (delete mm X) (s3 <| processes := delete q (processes s1) |>) g nb) end.
  apply wp_pfs, (wp_fs_kfree K q _ p3 t (delete mm X) _ F g).
  - apply Hl3.
  - destruct (kp_grows _ _ _ _ _ _ _ _ _ Hs3) as (Hh3 & _). assert (pheld p3 = []) as ->; [|done]. etrans; [exact Hh3|]. exact (so_held _ _ _ _ _ _ Hsys2).
  - apply (kstep_live _ _ _ _ _ _ _ _ _ q Hs3); [apply not_elem_of_nil|]. split; [|by intros ?%list_elem_of_singleton].
    apply (kp_new _ _ _ _ _ _ _ _ _ Hs2 q). apply HB. by left.
  - by rewrite lookup_delete_ne.
  - intros p4 Hs4. apply idle_intro with (F := F).
    + apply (kstep_cancel K [] q p0 X0 F0 p3 (delete mm X) F); [exact base_ok|apply not_elem_of_nil| |exact Hs4].
      apply (kstep_cancel K [q] mm p0 X0 F0 p2 X F); [exact base_ok|by intros ?%list_elem_of_singleton| |exact Hs3].
      eapply kstep_blocks; [|exact Hs2]. intros b. rewrite HB, elem_of_cons, list_elem_of_singleton. tauto.
    + apply life_proc. eapply life_ok; [exact Hl3|apply Hs4].
    + cbn. rewrite Hprocs. rewrite !insert_insert_eq. by rewrite delete_insert_id.
Qed.

End create.

(** ** Allocation *)

Section alloc.
Context {P : Type} `{FrameLaws P}.
Context (K : Z → Prop) (p0 : P) (t0 : treg) (X0 : gmap Z mm_context) (s0 : vstate P) (F0 : Z → tmap) (g : fstate P).
Context (Hsys0 : sys_ok p0 t0 X0 s0 F0 g).
Abbreviation idle := (idle K p0 X0 s0 F0 g).

(** A new object [q] with the new address space [mm]. *)
Record allocated (q mm : Z) (pr : process) (p : P) X s F : Prop := {
  al_ne : q ≠ 0 ∧ q ≠ mm;
  al_step : kstep K [mm; q] [] p0 X0 F0 p X F;
  al_life : life nobody p X F s;
  al_procs : processes s = <[q := pr]> (processes s0);
  al_ctx : ∃ c, X = <[mm := c]> X0 ∧ mm_refs c = 1 ∧ mm_active_cpu_mask c = 0;
}.

Lemma not_used p X F b B u : kstep K B [] p0 X0 F0 p X F → b ∈ B → ¬ used (fvm (vst p0 t0 X0 s0) g) b u.
Proof.
  intros Hs Hb Hu. apply (kstep_fresh _ _ _ _ _ _ _ _ _ b Hs Hb). by apply (si_live _ (so_inv _ _ _ _ _ _ Hsys0) b u).
Qed.

Lemma allocated_fresh q mm pr p X s F : allocated q mm pr p X s F →
  X0 !! mm = None ∧ X0 !! q = None ∧ processes s0 !! q = None.
Proof.
  intros [_ Hs _ _ _]. split; [|split]; apply eq_None_not_Some; intros Hx.
  - apply (not_used p X F mm [mm; q] UCtx Hs); [by left|exact Hx].
  - apply (not_used p X F q [mm; q] UCtx Hs); [right; by left|exact Hx].
  - apply (not_used p X F q [mm; q] UProc Hs); [right; by left|exact Hx].
Qed.

(** Once the object has no image, it is under construction. *)
Lemma building_intro q mm I pr pr' p X s F : allocated q mm pr p X s F →
  pr_mm pr' = mm → pr_ref_count pr' = 1 → pr_owned_images pr' = [] →
  (∀ im, im ∈ I → holds p0 X0 im ∧ outside K im ∧ loose p0 X0 s0 g (im_ptr im)) →
  building K p0 X0 F0 (processes s0) g q mm [mm; q] I pr' p t0 X (s <| processes := <[q := pr']> (processes s) |>) F.
Proof.
  intros Hal Hmm Hr Ho HI. destruct (allocated_fresh _ _ _ _ _ _ _ Hal) as (HXm & HXq & Hpq).
  pose proof Hal as [[Hq Hqm] Hs Hl Hp (c & HX & Hc)]. assert (is_Some (X !! mm)) as HXmm by (rewrite HX; exists c; apply lookup_insert_eq).
  assert (∀ b u, used (fvm (vst p t0 X (s <| processes := <[q := pr']> (processes s) |>)) g) b u →
    (b = mm ∧ u = UCtx) ∨ (b = q ∧ u = UProc) ∨ used (fvm (vst p0 t0 X0 s0) g) b u) as Huse.
  { intros b u. rewrite Hp, insert_insert_eq. destruct u as [| | | |x i]; try (intros Hu; right; right; exact Hu).
    - intros Hu. change (is_Some (X !! b)) in Hu. rewrite HX in Hu. apply lookup_insert_is_Some in Hu as [<-|[_ Hu]]; [by left|by right; right].
    - intros Hu. change (is_Some (<[q := pr']> (processes s0) !! b)) in Hu.
      apply lookup_insert_is_Some in Hu as [<-|[_ Hu]]; [by right; left|by right; right].
    - intros (y & Hy & Hi & Hb). change (<[q := pr']> (processes s0) !! x = Some y) in Hy.
      apply lookup_insert_Some in Hy as [[<- <-]|[_ Hy]]; [by rewrite Ho in Hi|]. right. right. by exists y. }
  assert (∀ b u, b ∈ [mm; q] → ¬ used (fvm (vst p0 t0 X0 s0) g) b u) as Hnot by (intros b u Hb; by eapply not_used).
  split; try done.
  - apply (sys_step K [mm; q] [] p0 t0 X0 s0 F0 g); [done|done|by apply life_proc| | | | |].
    + intros b u [[-> _]|[[-> _]|Hu]]%Huse; [left; by left|left; right; by left|right]. split; [done|apply not_elem_of_nil].
    + intros b u u' Hb Hu Hu'.
      destruct (Huse b u Hu) as [[-> ->]|[[-> ->]|Hu0]]; [| |by destruct (Hnot b u Hb)];
      destruct (Huse _ u' Hu') as [[He ->]|[[He ->]|Hu0']]; try done; by destruct (Hnot _ u' Hb).
    + intros b [->|[->|[]%elem_of_nil]%elem_of_cons]%elem_of_cons; [|done].
      destruct HXmm as [c' Hc']. by apply (vk_live _ _ _ (lf_ok _ _ _ _ _ Hl) mm c').
    + by eapply sys_tables.
    + intros i n Hin _. by left.
  - split; [right; by left|by left].
  - cbn. by rewrite Hp, insert_insert_eq.
  - exists c. rewrite HX. split; [apply lookup_insert_eq|done].
  - intros im Hi. destruct (HI im Hi) as (Hh & Hout & _). split; [|done]. eapply holds_step; [exact Hs|done| |done]. by intros d j ?%elem_of_nil.
  - intros im Hi. destruct (HI im Hi) as (_ & _ & Hnz & Hlv & Hno). assert (im_ptr im ∉ [mm; q]) as Hni.
    { intros Hb. by apply (kstep_fresh _ _ _ _ _ _ _ _ _ _ Hs Hb). }
    split; [done|]. split; [apply (kstep_live _ _ _ _ _ _ _ _ _ _ Hs Hni); split; [done|apply not_elem_of_nil]|].
    intros p1 t u Hu. destruct (Huse _ u Hu) as [[He _]|[[He _]|Hu0]]; [| |by eapply (Hno p1 t u)].
    + apply Hni. rewrite He. by left.
    + apply Hni. rewrite He. right. by left.
Qed.

Lemma wp_process_alloc garbage (Q : Z → pstate P → Prop) nb :
  (∀ ps, idle ps → Q 0 ps) →
  (∀ q mm p X s F, let pr := garbage <| pr_mm := mm |> <| pr_ref_count := 1 |> <| pr_exec_in_progress := 0 |> in
     allocated q mm pr p X s F → Q q (pst p t0 X s g nb)) →
  wp (process_alloc garbage) Q (pst p0 t0 X0 s0 g nb).
Proof.
  intros HQ0 HQ. pose proof (sys_ok_vm _ _ _ _ _ _ Hsys0) as Hk0. pose proof (so_life _ _ _ _ _ _ Hsys0) as Hl0.
  unfold process_alloc, new_process. wp_step. wp_step. apply wp_pfs.
  apply (wp_fs_kmalloc K SIZEOF_PROCESS _ p0 t0 X0 s0 F0 g); [done|by eapply sys_ok_lock|done| |].
  { intros p1 Hs1. change (0 =? 0) with true. cbn iota. wp_step. change (0 =? 0) with true. cbn iota. wp_step. apply HQ0.
    eapply idle_intro; [exact Hsys0|exact Hs1| |done]. eapply life_ok; [exact Hl0|apply Hs1]. }
  intros q p1 Hq _ _ _ Hs1 _. bfalse (q =? 0). pose proof Hs1 as [Hk1 _ _ _ _ _ _].
  assert (processes s0 !! q = None) as Hpq.
  { apply eq_None_not_Some. intros Hx. by apply (not_used p1 X0 F0 q [q] UProc Hs1); [left|]. }
  assert (X0 !! q = None) as HXq.
  { apply eq_None_not_Some. intros Hx. by apply (not_used p1 X0 F0 q [q] UCtx Hs1); [left|]. }
  wp_step. apply wp_pvm. wp_step. wp_step. bfalse (q =? 0).
  set (s1 := s0 <| processes := <[q := garbage]> (processes s0) |>). wp_step. apply wp_pvm.
  match goal with |- wp _ _ ?z => change z with (vst p1 t0 X0 s1) end.
  assert (pheld p1 = []) as Hh1. { etrans; [apply (kp_grows _ _ _ _ _ _ _ _ _ Hs1)|]. by eapply so_held. }
  assert (life nobody p1 X0 F0 s1) as Hl1 by (apply life_proc; by eapply life_ok).
  (* the object is freed again when there is no address space *)
  assert (∀ p2 s2 (Q' : Z → pstate P → Prop), kstep K [] [] p1 X0 F0 p2 X0 F0 → life nobody p2 X0 F0 s2 → processes s2 = processes s1 →
    (∀ ps, idle ps → Q' 0 ps) →
    wp (upd_proc q (λ x, x <| pr_mm := 0 |>) ;; free_process q ;; mret 0) Q' (pst p2 t0 X0 s2 g nb)) as Hfree.
  { intros p2 s2 Q' Hs2 Hl2 Hp2 HQ'. wp_step. eapply (wp_upd_process g q _ garbage _ p2 t0 X0 s2 nb).
    { rewrite Hp2. apply lookup_insert_eq. }
    set (s3 := s2 <| processes := _ |>). unfold free_process. wp_step. wp_step. apply wp_pvm. wp_step.
    match goal with |- wp _ _ ?z => change z with (pst p2 t0 X0 (s3 <| processes := delete q (processes s3) |>) g nb) end.
    apply wp_pfs, (wp_fs_kfree K q _ p2 t0 X0 _ F0 g).
    - apply Hl2.
    - assert (pheld p2 = []) as ->; [|done]. etrans; [apply (kp_grows _ _ _ _ _ _ _ _ _ Hs2)|]. exact Hh1.
    - apply (kstep_live _ _ _ _ _ _ _ _ _ q Hs2); [apply not_elem_of_nil|]. split; [|apply not_elem_of_nil].
      apply (kp_new _ _ _ _ _ _ _ _ _ Hs1). by left.
    - exact HXq.
    - intros p3 Hs3. wp_step. apply HQ'. eapply idle_intro; [exact Hsys0| |do 2 apply life_proc; eapply life_ok; [exact Hl2|apply Hs3]|].
      + apply (kstep_cancel K [] q p0 X0 F0 p2 X0 F0); [exact Hk0|apply not_elem_of_nil| |exact Hs3].
        by apply (kstep_seq K [q] [] p0 X0 F0 p1 X0 F0 p2 X0 F0).
      + cbn. rewrite Hp2. cbn. by rewrite insert_insert_eq, delete_insert_id. }
  apply (wp_context_create K _ p1 t0 X0 s1 F0); [done|by rewrite Hh1|apply Hl1| | |].
  - intros p2 n Hs2 Hn. eapply (Hfree p2 (s1 <| next_asid := n |>)); [done| |done|exact HQ0].
    eapply life_next; [exact Hl1|apply Hs2|done].
  - intros p2 n Hs2 _. eapply (Hfree p2 s1); [done| |done|exact HQ0]. eapply life_ok; [exact Hl1|apply Hs2].
  - intros mm root a p2 n c HXm Hmm Hs2 Hn Ha Hau. set (X2 := <[mm := c]> X0) in *. set (s2 := asid_write _ _ _).
    assert (life nobody p2 X2 (fset F0 mm (root_tree root)) s2) as Hl2 by (apply (life_create nobody p1 X0 F0 s1); try done; apply Hs2).
    wp_step. eapply (wp_upd_process g q _ garbage _ p2 t0 X2 s2 nb); [apply lookup_insert_eq|]. bfalse (mm =? 0).
    set (s3 := s2 <| processes := _ |>). wp_step. eapply (wp_upd_process g q _ _ _ p2 t0 X2 s3 nb); [apply lookup_insert_eq|].
    wp_step. match goal with |- Q _ (pst _ _ _ ?z _ _) => apply (HQ q mm p2 X2 z (fset F0 mm (root_tree root))) end. split.
    + split; [done|]. intros <-. apply (kstep_fresh _ _ _ _ _ _ _ _ _ q Hs2 ltac:(by left)). apply (kp_new _ _ _ _ _ _ _ _ _ Hs1). by left.
    + by apply (kstep_seq K [q] [mm] p0 X0 F0 p1 X0 F0 p2 X2).
    + do 2 apply life_proc. exact Hl2.
    + cbn. by rewrite !insert_insert_eq.
    + by exists c.
Qed.

End alloc.
