(* ===== verification/ProcNew.v ===== *)
(** * Creation of a process: the whole of process_create_from_elf

    After the regions of the objects are known ([built]) the heap, the stack
    and the arguments are added; the loaded images become the process's own. *)

From S2P Require Import Prelude Machine MmuTable MmuBoot Vmsa VmsaWalk VmsaFault VmBits VmsaSpec VmTree VmMap VmOwn VmUnmap VmBytes VmFrame VmFaultSpec VmCopy VmStep VmLife VmCreate VmCtx VmSys Fs FsSpec KernelObjects FsSys Process ProcElf ProcSpec ProcLoad ProcCreate.

Open Scope kernel_scope.

(** The regions of a process whose objects end below [m]. *)
Record built (I : list kimage) (m : Z) (rs : list vm_region) : Prop := {
  bt_in : Forall (region_in I) rs;
  bt_range : ∀ r, r ∈ rs → USER_CODE_BASE ≤ vr_start r ≤ vr_end r ∧ vr_end r ≤ USER_STACK_TOP;
  bt_below : ∀ r, r ∈ rs → vr_type r = VM_TYPE_ELF → vr_end r ≤ m + 4096;
}.

Lemma built_nil m : built [] m [].
Proof. split; [done|by intros r ?%elem_of_nil..]. Qed.

Lemma built_app I m rs rs' : built I m rs → built I m rs' → built I m (rs ++ rs').
Proof.
  intros [H1 H2 H3] [H1' H2' H3']. split; [by apply Forall_app|..]; intros r [?|?]%elem_of_app; auto.
Qed.

Lemma built_mono I I' m m' rs : (∀ im, im ∈ I → im ∈ I') → m ≤ m' → built I m rs → built I' m' rs.
Proof.
  intros HI Hm [H1 H2 H3]. split; [|done|intros r Hr Ht; specialize (H3 r Hr Ht); lia].
  eapply Forall_impl; [exact H1|]. intros r [Hf Hi]. split; [done|]. intros Hne. destruct (Hi Hne) as (im & ? & ?). exists im. split; [by apply HI|done].
Qed.

Lemma built_object im m rs : elf_safe (im_byte im) (im_size im) → SIZEOF_EHDR ≤ im_size im →
  ehdr_valid (ehdr_at (im_byte im)) (im_size im) = true → Forall (elf_region im) rs →
  (∀ r, r ∈ rs → vr_end r < m + 4096) → built [im] m rs.
Proof.
  intros [_ Hsafe] Hsz Hv Hr Hm. specialize (Hsafe Hsz Hv). rewrite Forall_forall in Hr. split.
  - apply Forall_forall. intros r Hin. destruct (Hr r Hin) as (h & b & Hh & Hsg).
    destruct (segment_file _ _ _ _ _ _ Hsafe Hh Hsg) as (? & ? & ?). destruct Hsg as [_ _ _ _ _ _ _ Hfl Him _ _].
    split; [rewrite Hfl; apply elf_flags_wf|]. intros _. exists im. split; [by left|done].
  - intros r Hin. destruct (Hr r Hin) as (h & b & Hh & [_ _ _ _ _ Hrg _ _ _ _ _]). unfold USER_HEAP_LIMIT, USER_STACK_TOP in *. lia.
  - intros r Hin _. specialize (Hm r Hin). lia.
Qed.

Lemma built_anon I m a b : USER_CODE_BASE ≤ a ≤ b → b ≤ USER_STACK_TOP → built I m [VmRegion a b VM_TYPE_ANON ANON_FLAGS 0 0 0].
Proof.
  intros Ha Hb. split; [constructor; [split; [exact anon_flags_wf|done]|constructor]| |]; by intros r ->%list_elem_of_singleton.
Qed.

Section new.
Context {P : Type} `{FrameLaws P}.
Context (kstack : Z) (p0 : P) (t0 : treg) (X0 : gmap Z mm_context) (s0 : vstate P) (F0 : Z → tmap) (g : fstate P).
Context (Hsys0 : sys_ok p0 t0 X0 s0 F0 g) (Hks : client_buf p0 X0 kstack KSTACK_SIZE).
Abbreviation K := (kstack_bytes kstack).
Context (Hfiles : ∀ k m, ramfs_nodes g !! k = Some m → rn_in_use m = true →
  ∀ j, 0 ≤ j < rn_size m → ¬ K (va_to_pa (rn_data m) + j)).
Abbreviation idle := (idle K p0 X0 s0 F0 g).

Lemma kstack_mine a : K a → fe_mine p0 (word_of a).
Proof.
  intros Ha. unfold kstack_bytes in Ha. destruct Hks as (_ & _ & Hb). destruct (Hb (a - va_to_pa kstack)) as [Hm _]; [lia|].
  by replace (va_to_pa kstack + (a - va_to_pa kstack)) with a in Hm by lia.
Qed.

(** ** The interpreter *)

(** [im1] is a copy of the file whose path is in the image at [o]. *)
Definition interp_file (im0 : kimage) (o : Z) (im1 : kimage) : Prop := ∃ i n,
  file_node g (path_at (im_byte im0) (Z.to_nat PROCESS_ELF_NAME_MAX) o) = Some (i, n) ∧
  im_size im1 = rn_size n ∧ im_byte im1 = file_byte p0 n.

(** The images [I] that a process is made of the image [im0], and those of
    their blocks that become its own. *)
Inductive images_of (im0 : kimage) : list kimage → list Z → Prop :=
  | images_flat : images_of im0 [im0] []
  | images_static : find_interp (phdrs_at (im_byte im0)) (im_size im0) = None → images_of im0 [im0] [im_ptr im0]
  | images_dynamic o im1 : find_interp (phdrs_at (im_byte im0)) (im_size im0) = Some o → interp_file im0 o im1 →
      im_ptr im1 ≠ im_ptr im0 → ¬ fe_live p0 (im_ptr im1) → images_of im0 [im1; im0] [im_ptr im0; im_ptr im1].

Section loading.
Context (q mm : Z) (Hq : q ≠ 0) (Hqm : q ≠ mm) (HX0 : X0 !! mm = None) (Hp0 : processes s0 !! q = None).
Abbreviation st := (st K p0 X0 F0 (processes s0) g q mm).
Abbreviation Hk0 := (base_ok p0 t0 X0 s0 F0 g Hsys0).

Lemma wp_image_free B I pr im ps : st (im_ptr im :: B) (im :: I) pr ps → im_ptr im ∉ B → q ∈ B → mm ∈ B →
  (∀ im', im' ∈ I → holds p0 X0 im' ∧ im_ptr im' ≠ im_ptr im) →
  wp (p_kfree (im_ptr im)) (λ _, st B I pr) ps.
Proof.
  intros (p & t & X & s & F & nb & -> & Hb) HnB HqB HmB HI. pose proof (bd_sys _ _ _ _ _ _ _ _ _ _ _ _ _ _ _ _ Hb) as Hsys.
  destruct (bd_loose _ _ _ _ _ _ _ _ _ _ _ _ _ _ _ _ Hb im ltac:(by left)) as (_ & Hlv & Hno).
  apply wp_pfs, (wp_fs_kfree K (im_ptr im) _ p t X s F g); [by eapply sys_ok_vm|by eapply sys_ok_lock|done| |].
  { apply eq_None_not_Some. intros Hx. by apply (Hno p t UCtx). }
  intros p' Hs'. exists p', t, X, s, F, nb. split; [done|].
  apply (bd_free K p0 X0 F0 (processes s0) g q mm Hk0 B I pr im p t X s F p'); try done.
  - by intros ->.
  - by intros ->.
  - intros im' i Him Hi. destruct (HI im' Him) as [[(_ & _ & Hc) _] _]. by apply Hc.
  - intros im' Him. by apply HI.
Qed.

Lemma wp_load_interp im0 pr lst o ps : st [mm; q] [im0] pr ps → holds p0 X0 im0 →
  (∀ n i, file_node g (path_at (im_byte im0) (Z.to_nat PROCESS_ELF_NAME_MAX) o) = Some (i, n) → elf_safe (file_byte p0 n) (rn_size n)) →
  0 ≤ o → (∃ k, 0 ≤ k < PROCESS_ELF_NAME_MAX ∧ o + k < im_size im0 ∧ im_byte im0 (o + k) = 0) →
  ls_process lst = q → top_ok (ls_max_mapped_end lst) →
  wp (load_interp lst (u64 (im_ptr im0 + o))) (λ r ps', match r with
    | None => idle ps'
    | Some lst' => ∃ e rs im1, st [im_ptr im1; mm; q] [im1; im0] (with_object e rs pr) ps' ∧ im_ptr im1 ≠ im_ptr im0 ∧
        interp_file im0 o im1 ∧ ¬ fe_live p0 (im_ptr im1) ∧ object_added im1 lst rs lst' ∧ built [im1] (ls_max_mapped_end lst') rs
    end) ps.
Proof.
  intros Hst Hh0 Hsafe Ho Hz Hlq Htop. unfold load_interp. pose proof Hst as (p & t & X & s & F & nb & -> & Hb).
  assert (∀ b, b ∈ [mm; q] ↔ b = q ∨ b = mm) as HB by (intros b; rewrite elem_of_cons, list_elem_of_singleton; tauto).
  destruct (bd_holds _ _ _ _ _ _ _ _ _ _ _ _ _ _ _ _ Hb im0 ltac:(by left)) as [Hh _].
  assert (u64 (im_ptr im0 + o) = im_ptr im0 + o) as ->.
  { destruct Hh as [(Hkb & _) _], Hz as (k & ? & ? & _). by apply (kbuf_at _ _ o Hkb); lia. }
  wp_step. apply (wp_load_path im0 _ _ o); [exact Hh|done|done|exact Hz|]. wp_step.
  eapply wp_mono; [apply (wp_load_file K p0 t0 X0 s0 F0 g q mm Hsys0 Hfiles kstack_mine [mm; q] [im0] pr); exact Hst|].
  intros [[buf size]|] ps1; cycle 1.
  { intros Hst1. wp_step. eapply wp_mono; [apply (wp_p_log K p0 X0 F0 (processes s0) g q mm Hk0 [mm; q] [im0] pr); exact Hst1|].
    intros [] ps2 Hst2. wp_step. rewrite Hlq.
    eapply wp_mono; [by apply (wp_undo K p0 t0 X0 s0 F0 g q mm Hq Hsys0 Hp0 Hqm [mm; q] [im0] pr)|]. intros [] ps3 Hi. by wp_step. }
  intros (i & n & Hfn & -> & HnB & Hne & Hst1). set (im1 := KImage buf (rn_size n) (file_byte p0 n)) in *.
  specialize (Hsafe n i Hfn). wp_step. change buf with (im_ptr im1) at 1 2. change (rn_size n) with (im_size im1).
  eapply wp_mono; [apply (wp_register_object K p0 X0 F0 (processes s0) g q mm Hk0 (im_ptr im1 :: [mm; q]) [im1; im0] pr im1); [exact Hst1|by left|exact Hsafe|done|done]|].
  intros [lst'|] ps2 (e & rs & Hst2 & Hr & Hadd).
  - wp_step. destruct (Hadd lst' eq_refl) as (Ha & Hsz & Hv). exists e, rs, im1. split; [exact Hst2|]. split; [apply not_eq_sym; apply Hne; by left|].
    split; [by exists i, n|]. split; [|split; [done|]].
    { pose proof Hst2 as (p2 & t2 & X2 & s2 & F2 & nb2 & _ & Hb2).
      apply (kstep_fresh _ _ _ _ _ _ _ _ _ _ (bd_step _ _ _ _ _ _ _ _ _ _ _ _ _ _ _ _ Hb2)). by left. }
    apply built_object; try done. apply Ha.
  - wp_step. eapply wp_mono; [apply (wp_image_free [mm; q] [im0] (with_object e rs pr) im1); [exact Hst2|exact HnB|right; by left|by left|]|].
    { intros im' ->%list_elem_of_singleton. split; [done|]. apply Hne. by left. }
    intros [] ps3 Hst3. wp_step. rewrite Hlq.
    eapply wp_mono; [by apply (wp_undo K p0 t0 X0 s0 F0 g q mm Hq Hsys0 Hp0 Hqm [mm; q] [im0] (with_object e rs pr))|]. intros [] ps4 Hi. by wp_step.
Qed.

(** ** The images become the process's own *)

Lemma capture_ok B I pr p t X s s' F l : building K p0 X0 F0 (processes s0) g q mm B I pr p t X s F → NoDup l →
  (∀ b, b ∈ l → ∃ im, im ∈ I ∧ b = im_ptr im) →
  life nobody p X F s' → processes s' = <[q := pr <| pr_owned_images := l |>]> (processes s0) → sys_ok p t X s' F g.
Proof.
  intros Hb Hnd Hl Hlf Hp. pose proof Hb as [Hsys _ _ Hps _ (_ & _ & Him) _ Hlo].
  assert (∀ b u, used (fvm (vst p t X s') g) b u → used (fvm (vst p t X s) g) b u ∨ ∃ i, u = UImage q i ∧ l !! i = Some b) as Huse.
  { intros b u. destruct u as [| | | |x i]; try (intros Hu; left; exact Hu).
    - intros Hu. left. change (is_Some (processes s' !! b)) in Hu. change (is_Some (processes s !! b)). rewrite Hp in Hu. rewrite Hps.
      destruct (decide (b = q)) as [->|Hne]; [rewrite lookup_insert_eq; by eexists|]. by rewrite lookup_insert_ne in * by done.
    - intros (y & Hy & Hi & Hbz). change (processes s' !! x = Some y) in Hy. rewrite Hp in Hy.
      apply lookup_insert_Some in Hy as [[<- <-]|[Hne Hy]]; [right; by exists i|left]. exists y. split; [|done].
      change (processes s !! x = Some y). by rewrite Hps, lookup_insert_ne. }
  assert (∀ b, b ∈ l → b ≠ 0 ∧ fe_live p b ∧ ∀ v, ¬ used (fvm (vst p t X s) g) b v) as Hloose.
  { intros b (im & Hin & ->)%Hl. destruct (Hlo im Hin) as (? & ? & Hno). split; [done|]. split; [done|]. intros v. apply Hno. }
  apply (sys_adopt K [] [] p t X s F g); [done|by apply kstep_refl; eapply sys_ok_vm|done| | |by eapply sys_tables|intros i n Hin _; by left].
  - intros b u [Hu|(i & -> & Hi)]%Huse; [right; split; [done|apply not_elem_of_nil]|left]. apply Hloose. by eapply list_elem_of_lookup_2.
  - intros b u u' Hno [Hu|(i & -> & Hi)]%Huse; [by apply Hno in Hu|]. intros [Hu|(j & -> & Hj)]%Huse; [by apply Hno in Hu|].
    by rewrite (NoDup_lookup l i j b Hnd Hi Hj).
Qed.

Lemma wp_capture B I pr p t X s F nb lst (Q : unit → pstate P → Prop) :
  let l := eo_owned_image <$> ls_objects lst in
  building K p0 X0 F0 (processes s0) g q mm B I pr p t X s F → NoDup l → (∀ b, b ∈ l → ∃ im, im ∈ I ∧ b = im_ptr im) →
  Z.of_nat (length l) ≤ PROCESS_OWNED_IMAGES_MAX →
  (∀ s', processes s' = <[q := pr <| pr_owned_images := l |>]> (processes s0) → sys_ok p t X s' F g → Q () (pst p t X s' g nb)) →
  wp (process_capture_loaded_images q lst) Q (pst p t X s g nb).
Proof.
  intros l Hb Hnd Hl Hlen HQ. pose proof Hb as [Hsys _ _ Hps _ (_ & _ & Him) _ Hlo]. unfold process_capture_loaded_images.
  eapply wp_mono; [apply (wp_forM _ _ (λ pre ps', ∃ s', ps' = pst p t X s' g nb ∧ life nobody p X F s' ∧
    processes s' = <[q := pr <| pr_owned_images := eo_owned_image <$> pre |>]> (processes s0)))|].
  - exists s. split; [done|]. split; [apply Hsys|]. rewrite Hps. f_equal. destruct pr. cbn in *. by rewrite Him.
  - intros pre o post ps' Heq (s' & -> & Hlf & Hp). destruct (Hl (eo_owned_image o)) as (im & Hin & Hptr).
    { unfold l. rewrite Heq, fmap_app. apply elem_of_app. right. by left. }
    destruct (Hlo im Hin) as (Hnz & _). rewrite <- Hptr in Hnz. bfalse (eo_owned_image o =? 0).
    assert (processes s' !! q = Some (pr <| pr_owned_images := eo_owned_image <$> pre |>)) as Hg by (rewrite Hp; apply lookup_insert_eq).
    wp_step. apply wp_pvm. eapply wp_get_process; [exact Hg|]. cbn [pr_owned_images].
    assert (Z.of_nat (length (eo_owned_image <$> pre)) < PROCESS_OWNED_IMAGES_MAX) as Hlt.
    { unfold l in Hlen. rewrite Heq, fmap_app, length_app in Hlen. cbn in Hlen. lia. }
    apply Z.ltb_lt in Hlt. change (pr_owned_images (pr <| pr_owned_images := eo_owned_image <$> pre |>)) with (eo_owned_image <$> pre). rewrite Hlt.
    eapply (wp_upd_process g q _ _ _ p t X s' nb); [exact Hg|]. eexists. split; [reflexivity|]. split; [by apply life_proc|].
    cbn. rewrite Hp, insert_insert_eq. f_equal. by rewrite fmap_app.
  - intros [] ps' (s' & -> & Hlf & Hp). apply HQ; [done|]. by eapply capture_ok.
Qed.

(** ** Completion *)

(** The process when it is complete: it is made of the images [I]. *)
Record process_wf p X (I : list kimage) (pr : process) : Prop := {
  np_count : pr_ref_count pr = 1 ∧ pr_exec_in_progress pr = 0;
  np_images : ∀ im, im ∈ I → holds p X im;
  np_backed : Forall (region_in I) (pr_regions pr);
  np_src : Forall (region_src p X) (pr_regions pr);
  np_regions : ∀ r, r ∈ pr_regions pr → USER_CODE_BASE ≤ vr_start r ≤ vr_end r ∧ vr_end r ≤ USER_STACK_TOP ∧ flags_wf (vr_flags r);
  np_heap : pr_heap_start pr mod PAGE_SIZE = 0 ∧ pr_brk pr = pr_heap_start pr ∧ pr_heap_start pr ≤ pr_heap_limit pr ∧
    pr_heap_limit pr = USER_HEAP_LIMIT;
  np_below : ∀ r, r ∈ pr_regions pr → vr_type r = VM_TYPE_ELF → vr_end r ≤ pr_heap_start pr;
  np_stack : USER_STACK_TOP - KSTACK_SIZE ≤ pr_stack_top pr ≤ USER_STACK_TOP ∧ pr_stack_top pr mod 16 = 0;
}.

Definition created (I : list kimage) (images : list Z) (ps : pstate P) : Prop := ∃ B p t X s F nb pr,
  ps = pst p t X s g nb ∧ sys_ok p t X s F g ∧ kstep K B [] p0 X0 F0 p X F ∧ processes s = <[q := pr]> (processes s0) ∧
  pr_mm pr = mm ∧ is_Some (X !! mm) ∧ pr_owned_images pr = images ∧ process_wf p X I pr.

Lemma wp_icache B I pr ps : st B I pr ps → wp cpu_invalidate_icache_all (λ _, st B I pr) ps.
Proof.
  intros (p & t & X & s & F & nb & -> & Hb). apply wp_pvm, wp_mach, wp_modify.
  exists (pemit (Ev_sysreg "ic iallu" 0) p), t, X, s, F, nb. split; [done|]. eapply bd_kstep; [exact Hk0|exact Hb|].
  pose proof (sys_ok_vm _ _ _ _ _ _ (bd_sys _ _ _ _ _ _ _ _ _ _ _ _ _ _ _ _ Hb)) as Hk. apply kstep_step; [exact Hk|]. apply vmstep_emit, Hk.
Qed.

(** The heap and the stack are regions unless the table is full. *)
Lemma wp_add_anon B I pr a b m ps : st B I pr ps → built I m (pr_regions pr) → USER_CODE_BASE ≤ a ≤ b → b ≤ USER_STACK_TOP →
  wp (process_add_region q a b VM_TYPE_ANON ANON_FLAGS 0 0 0) (λ _ ps', ∃ rs, st B I (pr <| pr_regions := rs |>) ps' ∧ built I m rs) ps.
Proof.
  intros Hst Hbt Ha Hb. eapply wp_mono; [apply (wp_add_region K p0 X0 F0 (processes s0) g q mm Hk0 B I pr); exact Hst|].
  intros r ps' (pr' & Hst' & ->). destruct r; [eexists; split; [exact Hst'|]; apply built_app; [done|by apply built_anon]|].
  exists (pr_regions pr). split; [|done]. by replace (pr <| pr_regions := pr_regions pr |>) with pr by (by destruct pr).
Qed.

Definition with_heap (h : Z) (pr : process) : process :=
  pr <| pr_heap_start := h |> <| pr_brk := h |> <| pr_heap_limit := USER_HEAP_LIMIT |> <| pr_heap_mapped_end := h |>.

Lemma process_wf_intro B I m h pr p t X s F : building K p0 X0 F0 (processes s0) g q mm B I pr p t X s F →
  built I m (pr_regions pr) → m + 4096 = h → h mod 4096 = 0 → h ≤ USER_HEAP_LIMIT → pr_exec_in_progress pr = 0 →
  pr_heap_start pr = h → pr_brk pr = h → pr_heap_limit pr = USER_HEAP_LIMIT →
  USER_STACK_TOP - KSTACK_SIZE ≤ pr_stack_top pr ≤ USER_STACK_TOP → pr_stack_top pr mod 16 = 0 → process_wf p X I pr.
Proof.
  intros [_ _ _ _ _ (_ & Href & _) Hh _] [Hin Hrg Hbl] Hm Hmod Hlim He H1 H2 H3 Hst Hst'. split.
  - by split.
  - intros im Hi. by apply Hh.
  - exact Hin.
  - eapply Forall_impl; [exact Hin|]. intros r Hr. apply (region_in_src p X I r); [|exact Hr]. intros im Hi. by apply Hh.
  - intros r Hr. destruct (Hrg r Hr). split; [done|]. split; [done|]. rewrite Forall_forall in Hin. apply (Hin r Hr).
  - rewrite H1, H2, H3. done.
  - intros r Hr Ht. specialize (Hbl r Hr Ht). lia.
  - by split.
Qed.

(** The end of [process_create_from_elf]. *)
Definition finish_elf cur (kstk x : Z) path lst : M (pstate P) Z :=
  let heap_start := process_align_up (u64 (ls_max_mapped_end lst + PROCESS_ELF_HEAP_GUARD_SIZE)) PAGE_SIZE in
  if USER_HEAP_LIMIT <? heap_start then process_release_loaded_images lst ;; process_destroy x ;; mret 0 else
  upd_proc x (with_heap heap_start) ;;
  add_stack_region x ;;
  process_add_region x heap_start USER_HEAP_LIMIT VM_TYPE_ANON ANON_FLAGS 0 0 0 ;;
  process_populate_arg_stack cur kstk x path lst ;;
  cpu_invalidate_icache_all ;;
  process_capture_loaded_images x lst ;;
  mret x.

Lemma wp_complete B I pr lst cur path ps : let m := ls_max_mapped_end lst in let l := eo_owned_image <$> ls_objects lst in
  st B I pr ps → built I m (pr_regions pr) → top_ok m → pr_stack_top pr = USER_STACK_TOP → pr_exec_in_progress pr = 0 →
  faulting_process cur mm = 0 → Z.of_nat (String.length (default EmptyString path)) ≤ 800 →
  NoDup l → (∀ b, b ∈ l → ∃ im, im ∈ I ∧ b = im_ptr im) → Z.of_nat (length l) ≤ PROCESS_OWNED_IMAGES_MAX →
  wp (finish_elf cur kstack q path lst) (λ r ps', r = q ∧ created I l ps') ps.
Proof.
  intros m l Hst Hbt (Hm1 & Hm2 & Hm3) Htop Hex Hcur Hpath Hnd Hl Hlen. unfold finish_elf. fold m. rewrite guard_base by (done || lia).
  cbn zeta. bfalse (USER_HEAP_LIMIT <? m + 4096). set (h := m + 4096).
  assert (h mod 4096 = 0) as Hh by (unfold h; by rewrite Zplus_mod, Hm2).
  wp_step. eapply wp_mono; [apply (wp_upd_proc K p0 X0 F0 (processes s0) g q mm B I pr); done|]. intros [] ps1 H1.
  unfold add_stack_region. wp_step. eapply wp_mono; [apply (wp_add_anon B I _ _ _ m ps1 H1); [done|by vm_compute|by vm_compute]|]. intros ok1 ps2 (rs2 & H2 & Hb2).
  wp_step. eapply wp_mono; [apply (wp_add_anon B I _ h USER_HEAP_LIMIT m ps2 H2 Hb2); unfold h, USER_CODE_BASE, USER_HEAP_LIMIT, USER_STACK_TOP in *; lia|].
  intros ok2 ps3 (rs3 & H3 & Hb3). match type of H3 with st _ _ ?z _ => set (pr3 := z) in * end.
  wp_step. eapply wp_mono; [apply (wp_populate kstack p0 X0 F0 (processes s0) g q mm Hq HX0 Hk0 Hks B I pr3); [exact H3|apply Hb3|exact Htop|done|done]|].
  intros u4 ps4 (pr4 & H4 & Hpr4).
  assert (pr_regions pr4 = rs3 ∧ pr_heap_start pr4 = h ∧ pr_brk pr4 = h ∧ pr_heap_limit pr4 = USER_HEAP_LIMIT ∧ pr_exec_in_progress pr4 = 0 ∧
    USER_STACK_TOP - KSTACK_SIZE ≤ pr_stack_top pr4 ≤ USER_STACK_TOP ∧ pr_stack_top pr4 mod 16 = 0) as (R1 & R2 & R3 & R4 & R5 & R6).
  { destruct Hpr4 as [->|(sp & -> & Hsp)]; cbn; repeat (split; [done|]); [|exact Hsp]. rewrite Htop. done. }
  wp_step. eapply wp_mono; [apply (wp_icache B I pr4); exact H4|]. intros u5 ps5 (p & t & X & s & F & nb & -> & Hb).
  wp_step. apply (wp_capture B I pr4 p t X s F nb lst); [exact Hb|done|done|done|]. intros s' Hp' Hsys'. wp_step. split; [done|].
  exists B, p, t, X, s', F, nb, (pr4 <| pr_owned_images := l |>). split; [done|]. split; [done|]. split; [apply Hb|]. split; [done|].
  split; [apply Hb|]. split; [destruct (bd_ctx _ _ _ _ _ _ _ _ _ _ _ _ _ _ _ _ Hb) as (c & Hc & _); by exists c|]. split; [done|].
  assert (process_wf p X I pr4) as []; [|by split].
  apply (process_wf_intro B I m h pr4 p t X s F Hb); rewrite ?R1; done || lia.
Qed.

End loading.

(** ** The creators *)

Abbreviation stq q mm := (st K p0 X0 F0 (processes s0) g q mm).

(** The image [im0] and the interpreter it names. *)
Record creation_ok (im0 : kimage) : Prop := {
  co_image : holds p0 X0 im0 ∧ outside K im0 ∧ loose p0 X0 s0 g (im_ptr im0);
  co_safe : elf_safe (im_byte im0) (im_size im0);
  co_interp : ∀ o i n, find_interp (phdrs_at (im_byte im0)) (im_size im0) = Some o →
    file_node g (path_at (im_byte im0) (Z.to_nat PROCESS_ELF_NAME_MAX) o) = Some (i, n) → elf_safe (file_byte p0 n) (rn_size n);
}.

Context (im0 : kimage) (Him : creation_ok im0).

(** What a creator returns: null and nothing new, or a new process. *)
Definition creation_post (r : Z) (ps : pstate P) : Prop :=
  r = 0 ∧ idle ps ∨ ∃ mm I images, r ≠ 0 ∧ r ≠ mm ∧ X0 !! mm = None ∧ processes s0 !! r = None ∧
    images_of im0 I images ∧ created r mm I images ps.

Lemma idle_same nb : idle (pst p0 t0 X0 s0 g nb).
Proof. eapply idle_intro; [exact Hsys0|apply kstep_refl; by eapply sys_ok_vm|by eapply so_life|done]. Qed.

Lemma idle_log msg nb : wp (ker_info msg) (λ _, idle) (pst p0 t0 X0 s0 g nb).
Proof.
  pose proof (sys_ok_vm _ _ _ _ _ _ Hsys0) as Hk. apply wp_pvm, wp_logf; [apply Hk|]. intros p' Hs.
  eapply idle_intro; [exact Hsys0|by apply kstep_step| |done]. eapply life_ok; [by eapply so_life|]. eapply (kp_ok K). by apply kstep_step.
Qed.

Lemma wp_is_elf (Q : bool → pstate P → Prop) nb : (∀ b, Q b (pst p0 t0 X0 s0 g nb)) →
  wp (process_is_elf_image (im_ptr im0) (im_size im0)) Q (pst p0 t0 X0 s0 g nb).
Proof.
  intros HQ. destruct (co_image _ Him) as [Hh _]. unfold process_is_elf_image. destruct (_ || _) eqn:Hz; [by wp_step|]. bool_to_prop.
  unfold SIZEOF_EHDR in *. wp_step. apply (wp_image8 im0 _ 0); [exact Hh|lia|lia|].
  wp_step. apply (wp_image8 im0 _ 1); [exact Hh|lia|lia|]. wp_step. apply (wp_image8 im0 _ 2); [exact Hh|lia|lia|].
  wp_step. apply (wp_image8 im0 _ 3); [exact Hh|lia|lia|]. by wp_step.
Qed.

(** The kernel task that creates runs in no new address space. *)
Definition caller_ok (cur : option (Z * Z)) : Prop :=
  match cur with Some (cur_mm, _) => cur_mm = 0 ∨ is_Some (X0 !! cur_mm) | None => True end.

Lemma caller_faults cur mm : caller_ok cur → mm ≠ 0 → X0 !! mm = None → faulting_process cur mm = 0.
Proof.
  destruct cur as [[cm cq]|]; [|done]. intros Hc Hmm HX. cbn. destruct (cm =? mm) eqn:He; [|done]. bool_to_prop. subst cm.
  destruct Hc as [?|[c ?]]; congruence.
Qed.

Lemma wp_create_elf cur garbage path nb : caller_ok cur → Z.of_nat (String.length (default EmptyString path)) ≤ 800 →
  wp (process_create_from_elf cur kstack garbage (im_ptr im0) (im_size im0) path) creation_post (pst p0 t0 X0 s0 g nb).
Proof.
  intros Hcur Hpath. pose proof Him as [(Hh & Hout & Hlo) [Hf Hsafe] Hint]. unfold process_create_from_elf.
  assert (∀ ps, idle ps → creation_post 0 ps) as Hnull by (intros ps ?; by left).
  wp_step. apply wp_is_elf. intros [|]; cbn [negb]; [|wp_step; apply Hnull, idle_same].
  wp_step. apply (wp_image_valid g im0); [exact Hh|]. destruct (_ && ehdr_valid _ _) eqn:Hv; cbn [negb]; cycle 1.
  { wp_step. eapply wp_mono; [apply idle_log|]. intros [] ps Hi. wp_step. by apply Hnull. }
  apply andb_prop in Hv as [Hsz Hv]. bool_to_prop. specialize (Hsafe Hsz Hv).
  wp_step. eapply (wp_load_ehdr im0); [exact Hh|done|done|]. wp_step. apply (wp_load_phdrs im0); [done|done|done|].
  set (interp := find_interp _ _) in *. cbn zeta. wp_step. apply (wp_process_alloc K p0 t0 X0 s0 F0 g Hsys0); [intros ps Hi; change (0 =? 0) with true; cbn iota; wp_step; by apply Hnull|].
  intros q mm p X s F pr Hal. destruct (allocated_fresh K p0 t0 X0 s0 F0 g Hsys0 _ _ _ _ _ _ _ Hal) as (HXm & _ & Hpq).
  pose proof Hal as [[Hq Hqm] _ Hl Hp _]. bfalse (q =? 0). wp_step. wp_step.
  match goal with |- wp _ _ ?z => change z with (pst p t0 X s g USER_CODE_BASE) end.
  assert (mm ≠ 0) as Hmm.
  { destruct Hal as [_ _ _ _ (c & -> & _)]. by apply (vk_live _ _ _ (lf_ok _ _ _ _ _ Hl) mm c), lookup_insert_eq. }
  wp_step. eapply (wp_upd_process g q _ pr _ p t0 X s); [rewrite Hp; apply lookup_insert_eq|].
  match goal with |- context [<[q := ?z]> (processes s)] => set (pr1 := z) end.
  assert (stq q mm [mm; q] [im0] pr1 (pst p t0 X (s <| processes := <[q := pr1]> (processes s) |>) g USER_CODE_BASE)) as Hst1.
  { eexists _, _, _, _, F, _. split; [reflexivity|]. eapply (building_intro K p0 t0 X0 s0 F0 g Hsys0); [exact Hal|done..|].
    by intros im ->%list_elem_of_singleton. }
  match goal with |- wp _ _ ?z => set (ps1 := z) in * end. clearbody ps1.
  assert (∀ b, b ∈ [mm; q] ↔ b = q ∨ b = mm) as HB by (intros b; rewrite elem_of_cons, list_elem_of_singleton; tauto).
  pose proof (base_ok p0 t0 X0 s0 F0 g Hsys0) as Hk0. set (lst0 := LoadState q [] 0 0 0 0 0 0 0).
  wp_step. eapply wp_mono; [apply (wp_register_object K p0 X0 F0 (processes s0) g q mm Hk0 [mm; q] [im0] pr1 im0 lst0); [exact Hst1|by left|split; [done|intros _ _; exact Hsafe]|done|by vm_compute]|].
  intros [lst1|] ps2 (e & rs & Hst2 & Hr & Hadd); cycle 1.
  { wp_step. eapply wp_mono; [apply (wp_undo K p0 t0 X0 s0 F0 g q mm Hq Hsys0 Hpq Hqm [mm; q] [im0] (with_object e rs pr1)); done|].
    intros [] ps3 Hi. wp_step. by apply Hnull. }
  destruct (Hadd lst1 eq_refl) as ([A1 A2 [A3 A4] A5] & _ & _).
  assert (built [im0] (ls_max_mapped_end lst1) rs) as Hbt by (by apply built_object; [split; [done|intros _ _; exact Hsafe]|..]).
  assert (pr_regions (with_object e rs pr1) = rs) as Hrs by done.
  assert (ls_process lst1 = q) as Hlq by (by rewrite A1).
  assert (∀ B I pr2 lst2 ps3 Q, stq q mm B I pr2 ps3 → built I (ls_max_mapped_end lst2) (pr_regions pr2) → top_ok (ls_max_mapped_end lst2) →
    pr_stack_top pr2 = USER_STACK_TOP → pr_exec_in_progress pr2 = 0 → NoDup (eo_owned_image <$> ls_objects lst2) →
    (∀ b, b ∈ eo_owned_image <$> ls_objects lst2 → ∃ im, im ∈ I ∧ b = im_ptr im) →
    Z.of_nat (length (eo_owned_image <$> ls_objects lst2)) ≤ PROCESS_OWNED_IMAGES_MAX →
    (∀ ps4, created q mm I (eo_owned_image <$> ls_objects lst2) ps4 → Q q ps4) → wp (finish_elf cur kstack q path lst2) Q ps3) as Hfinish.
  { intros B I pr2 lst2 ps3 Q H1 H2 H3 H4 H5 H6 H7 H8 HQ. eapply wp_mono; [apply (wp_complete q mm Hq HXm B I pr2 lst2 cur path); try done|].
    - by apply caller_faults.
    - intros r ps4 [-> Hc]. by apply HQ. }
  wp_step. fold interp. destruct interp as [o|] eqn:Hi; cbn [fmap option_fmap option_map]; cycle 1.
  - wp_step. apply (Hfinish [mm; q] [im0] (with_object e rs pr1)); try done.
    + rewrite A2. apply NoDup_singleton.
    + rewrite A2. intros b ->%list_elem_of_singleton. exists im0. split; [by left|done].
    + by rewrite A2.
    + intros ps4 Hc. right. exists mm, [im0], (eo_owned_image <$> ls_objects lst1). repeat (split; [done|]). split; [|done].
      rewrite A2. by apply images_static.
  - eapply wp_mono; [apply (wp_load_interp q mm Hq Hqm HXm Hpq im0 (with_object e rs pr1) lst1 o)|]; try done.
    + intros n i. by apply Hint.
    + by apply (find_interp_pos (phdrs_at (im_byte im0)) (im_size im0)), Hi; apply phdrs_ok.
    + by apply (es_interp _ (im_size im0)).
    + intros [lst2|] ps3; [|intros Hid; wp_step; by apply Hnull]. intros (e2 & rs2 & im1 & Hst3 & Hne & Hif & Hfr & [C1 C2 [C3 C4] C5] & Hbt2).
      assert (eo_owned_image <$> ls_objects lst2 = [im_ptr im0; im_ptr im1]) as Hobj by by rewrite C2, A2.
      apply (Hfinish [im_ptr im1; mm; q] [im1; im0] (with_object e2 rs2 (with_object e rs pr1))); try done.
      * apply built_app; [eapply built_mono; [|exact C3|exact Hbt]|eapply built_mono; [|apply Z.le_refl|exact Hbt2]]; intros im ->%list_elem_of_singleton; [right|]; by left.
      * rewrite Hobj. apply NoDup_cons. split; [by intros ?%list_elem_of_singleton|apply NoDup_singleton].
      * rewrite Hobj. intros b [->| ->%list_elem_of_singleton]%elem_of_cons; [exists im0|exists im1]; split; try done; [right|]; by left.
      * by rewrite Hobj.
      * intros ps4 Hc. right. exists mm, [im1; im0], (eo_owned_image <$> ls_objects lst2). repeat (split; [done|]). split; [|done].
        rewrite Hobj. by apply (images_dynamic im0 o).
Qed.

(** The start of the construction of an object without images. *)
Lemma building_start q mm p X s F pr f nb : allocated K p0 X0 s0 F0 q mm pr p X s F → 
  pr_mm pr = mm → pr_ref_count pr = 1 → pr_mm (f pr) = pr_mm pr → pr_ref_count (f pr) = pr_ref_count pr → pr_owned_images (f pr) = [] →
  wp (upd_proc q f) (λ _, stq q mm [mm; q] [im0] (f pr)) (pst p t0 X s g nb).
Proof.
  intros Hal Hm Hr E1 E2 E3. destruct (co_image _ Him) as (Hh & Hout & Hlo). pose proof Hal as [_ _ _ Hp _].
  eapply (wp_upd_process g q _ pr _ p t0 X s); [rewrite Hp; apply lookup_insert_eq|].
  eexists _, _, _, _, F, _. split; [reflexivity|]. eapply (building_intro K p0 t0 X0 s0 F0 g Hsys0); [exact Hal|congruence..|].
  by intros im ->%list_elem_of_singleton.
Qed.

Lemma wp_create_flat garbage nb :
  wp (process_create_flat_binary garbage (im_ptr im0) (im_size im0)) creation_post (pst p0 t0 X0 s0 g nb).
Proof.
  pose proof Him as [(Hh & Hout & Hlo) _ _]. unfold process_create_flat_binary. pose proof Hh as [((Hp & Hn & Hkb) & _) _].
  assert (∀ ps, idle ps → creation_post 0 ps) as Hnull by (intros ps ?; by left).
  bfalse (im_ptr im0 =? 0). cbn [orb]. destruct (im_size im0 =? 0) eqn:Hz; [wp_step; apply Hnull, idle_same|]. bool_to_prop.
  assert (im_size im0 + 4095 < 2 ^ 64) as Hlt by (unfold KERNEL_VA_OFFSET in *; lia).
  destruct (align_up_small (im_size im0) Hn Hlt) as [Hup Hmod]. set (a := process_align_up (im_size im0) PAGE_SIZE) in *. cbn zeta.
  assert (a / PAGE_SIZE * PAGE_SIZE = a) as Hdiv. { pose proof (Z.div_mod a 4096). unfold PAGE_SIZE. lia. } rewrite Hdiv.
  destruct (USER_HEAP_BASE <? u64 (USER_CODE_BASE + a)) eqn:Hbig.
  { wp_step. eapply wp_mono; [apply idle_log|]. intros [] ps Hi. wp_step. by apply Hnull. }
  bool_to_prop. assert (u64 (USER_CODE_BASE + a) = USER_CODE_BASE + a) as Hu by (apply u64_small; unfold USER_CODE_BASE, KERNEL_VA_OFFSET in *; lia).
  rewrite Hu in Hbig. wp_step. apply (wp_process_alloc K p0 t0 X0 s0 F0 g Hsys0); [intros ps Hi; change (0 =? 0) with true; cbn iota; wp_step; by apply Hnull|].
  intros q mm p X s F pr Hal. destruct (allocated_fresh K p0 t0 X0 s0 F0 g Hsys0 _ _ _ _ _ _ _ Hal) as (HXm & _ & Hpq).
  pose proof (base_ok p0 t0 X0 s0 F0 g Hsys0) as Hk0. pose proof Hal as [[Hq Hqm] _ _ _ _]. bfalse (q =? 0).
  wp_step. eapply wp_mono; [apply (building_start q mm p X s F pr); [exact Hal|done..]|]. intros [] ps1 H1.
  wp_step. eapply wp_mono; [apply (wp_add_region K p0 X0 F0 (processes s0) g q mm Hk0 [mm; q] [im0]); exact H1|].
  intros ok ps2 (pr2 & H2 & Hpr2). set (m := USER_HEAP_BASE - 4096).
  assert (built [im0] m (pr_regions pr2) ∧ (∀ rs, pr2 <| pr_regions := rs |> = pr2 <| pr_regions := rs |> <| pr_heap_start := USER_HEAP_BASE |>
    <| pr_brk := USER_HEAP_BASE |> <| pr_heap_limit := USER_HEAP_LIMIT |> <| pr_stack_top := USER_STACK_TOP |> <| pr_exec_in_progress := 0 |>)) as [Hb2 Hfix].
  { subst pr2. split; [|by destruct ok]. destruct ok; [|split; [constructor|by intros r ?%elem_of_nil..]]. cbn [pr_regions].
    change (built [im0] m [VmRegion USER_CODE_BASE (USER_CODE_BASE + a) VM_TYPE_ELF CODE_FLAGS (im_ptr im0) 0 (im_size im0)]).
    split; [constructor; [|constructor]| |]; [split; [exact code_flags_wf|]; intros _; exists im0; split; [by left|cbn; lia]| |];
      intros r ->%list_elem_of_singleton; cbn; unfold m, USER_HEAP_BASE, USER_CODE_BASE, USER_STACK_TOP in *; lia. }
  unfold add_stack_region. wp_step.
  eapply wp_mono; [apply (wp_add_anon q mm [mm; q] [im0] _ _ _ m ps2 H2); [done|by vm_compute|by vm_compute]|]. intros ok3 ps3 (rs3 & H3 & Hb3).
  wp_step. eapply wp_mono; [apply (wp_add_anon q mm [mm; q] [im0] _ _ _ m ps3 H3); [done|by vm_compute|by vm_compute]|]. intros ok4 ps4 (rs4 & H4 & Hb4).
  wp_step. eapply wp_mono; [apply (wp_icache q mm [mm; q] [im0]); exact H4|]. intros [] ps5 (p5 & t5 & X5 & s5 & F5 & nb5 & -> & Hb). wp_step.
  right. exists mm, [im0], []. repeat (split; [done|]). split; [exact (images_flat im0)|].
  match type of Hb with building _ _ _ _ _ _ _ _ _ _ ?z _ _ _ _ _ => set (pr5 := z) in * end.
  exists [mm; q], p5, t5, X5, s5, F5, nb5, pr5. pose proof Hb as [G1 G2 _ G4 (c & G5 & _) (G6 & _ & G7) _ _].
  split; [done|]. split; [done|]. split; [done|]. split; [done|]. split; [done|]. split; [by exists c|]. split; [done|].
  assert (pr5 = pr2 <| pr_regions := rs4 |>) as Hpr5 by (by destruct pr2). pose proof (Hfix rs4) as He. rewrite <- Hpr5 in He.
  assert (pr_regions pr5 = rs4) as Hrs by (by rewrite Hpr5).
  apply (process_wf_intro q mm [mm; q] [im0] m USER_HEAP_BASE pr5 p5 t5 X5 s5 F5 Hb); rewrite ?Hrs; try done; rewrite He; done.
Qed.

Lemma wp_create_buffer cur garbage nb : caller_ok cur →
  wp (process_create_from_buffer cur kstack garbage (im_ptr im0) (im_size im0)) creation_post (pst p0 t0 X0 s0 g nb).
Proof.
  intros Hcur. unfold process_create_from_buffer. wp_step. apply wp_is_elf. intros [|]; [by apply wp_create_elf|apply wp_create_flat].
Qed.

End new.
