(* ===== verification/ProcClaims.v ===== *)
(** * Processes: the claims *)

From S2P Require Import Prelude Machine MmuTable MmuBoot Vmsa VmsaWalk VmsaFault VmBits VmsaSpec VmTree VmMap VmOwn VmUnmap VmBytes VmFrame VmFaultSpec VmCopy VmEnv VmStep VmLife VmCreate VmCtx VmSys VmView VmClaims Fs FsSpec KernelObjects FsSys FsClaims Process ProcElf ProcSpec ProcLoad ProcCreate ProcNew.

Open Scope kernel_scope.

Section claims.
Context {P : Type} `{FrameLaws P}.
Implicit Types (g : fstate P) (ps : pstate P).

(** ** Creation *)

(** The two ways to make a process of an image in memory. *)
Inductive creation : Type := FromElf (path : option string) | FromBuffer.

Definition create (c : creation) cur (kstack : Z) (garbage : process) (image size : Z) : M (pstate P) Z :=
  match c with
  | FromElf path => process_create_from_elf cur kstack garbage image size path
  | FromBuffer => process_create_from_buffer cur kstack garbage image size
  end.

Definition byte_at g (b i : Z) : Z := rd8 (pmem (fenv g)) (va_to_pa b + i).

(** The image is a block of the heap that nothing uses yet; the array on the
    kernel's stack is apart from it and from the files; what the code does not
    check of the headers, of the image and of the interpreter it names, holds. *)
Record creation_pre g (c : creation) (cur : option (Z * Z)) (kstack image size : Z) : Prop := {
  cp_kstack : client_buf (fenv g) (fctx g) kstack KSTACK_SIZE;
  cp_image : client_buf (fenv g) (fctx g) image size;
  cp_loose : fe_live (fenv g) image ∧ ∀ u, ¬ used g image u;
  cp_apart : ∀ i, 0 ≤ i < size → ¬ kstack_bytes kstack (va_to_pa image + i);
  cp_files : ∀ k m j, ramfs_nodes g !! k = Some m → rn_in_use m = true → 0 ≤ j < rn_size m →
    ¬ kstack_bytes kstack (va_to_pa (rn_data m) + j);
  cp_safe : elf_safe (byte_at g image) size;
  cp_interp : ∀ o i n, find_interp (phdrs_at (byte_at g image)) size = Some o →
    file_node g (path_at (byte_at g image) (Z.to_nat PROCESS_ELF_NAME_MAX) o) = Some (i, n) →
    elf_safe (byte_at g (rn_data n)) (rn_size n);
  cp_cur : match cur with Some (cur_mm, _) => cur_mm = 0 ∨ is_Some (fctx g !! cur_mm) | None => True end;
  cp_path : match c with FromElf (Some path) => Z.of_nat (String.length path) ≤ 800 | _ => True end;
}.

(** What is not the new process's stays: the translations and the bytes of
    the other address spaces, and the files. *)
Definition others_kept g g' : Prop :=
  (∀ mm va, is_Some (fctx g !! mm) → is_Some (fctx g' !! mm) ∧ user_entry (f_vm g') mm va = user_entry (f_vm g) mm va ∧
     user_byte (f_vm g') mm va = user_byte (f_vm g) mm va) ∧
  ∀ q, file_map g' q = file_map g q.

Lemma kept_by_step K B p t X s F g p' t' X' s' F' : sys_ok p t X s F g → kstep K B [] p X F p' X' F' →
  (∀ k m, ramfs_nodes g !! k = Some m → rn_in_use m = true → ∀ j, 0 ≤ j < rn_size m → ¬ K (va_to_pa (rn_data m) + j)) →
  others_kept (fvm (vst p t X s) g) (fvm (vst p' t' X' s') g).
Proof.
  intros Hsys Hs HK. pose proof (sys_ok_vm _ _ _ _ _ _ Hsys) as Hk. split.
  - intros mm va [c HX]. change (X !! mm = Some c) in HX.
    destruct (kp_ctx _ _ _ _ _ _ _ _ _ Hs mm c HX) as (HX' & Hl & Hb); [apply not_elem_of_nil|].
    split; [by exists c|]. change (f_vm (fvm (vst p' t' X' s') g)) with (vst p' t' X' s'). change (f_vm (fvm (vst p t X s) g)) with (vst p t X s).
    rewrite (user_entry_leaf p' t' X' s' F' mm c), (user_entry_leaf p t X s F mm c) by (done || apply Hs).
    rewrite (user_byte_leaf p' t' X' s' F' mm c), (user_byte_leaf p t X s F mm c) by (done || apply Hs).
    split; [apply Hl|]. unfold ubyte. rewrite Hl. destruct (leaf (pmem p) (F mm) (vpn va)) as [e|] eqn:He; [|done]. cbn. f_equal.
    apply (Hb _ _ He). by apply Z.mod_pos_bound.
  - intros q. eapply (file_map_kept K B []); [exact Hsys|exact Hs|done|]. intros i n Hin Hu. split; [intros _; apply not_elem_of_nil|by eapply HK].
Qed.

(** C38.  A created process is well formed.  Take a state with the kernel's
    invariant and the conditions of [creation_pre]: the image is a heap block
    nothing uses yet, the array on the kernel's stack holds neither the image
    nor a file, the caller's address space (if any) exists, the path has at
    most 800 characters, and the header fields that the code adds without a
    check do not wrap, in the image and in the interpreter it names
    ([elf_safe]).  Then creating a process from the image returns, keeps the
    invariant, and leaves every other address space and every file as it was.
    The result is null and there is no new process and no new address space,
    or a new process object, whose address space is new.  Its regions with a
    file part lie inside the loaded images ([np_backed]), which are the image
    given and, when it names an interpreter, a new block with the bytes of
    that file ([images_of]); both still hold those bytes, in no user's memory
    ([np_images]), and become blocks of the process unless the image is flat.  The
    regions lie between the code base and the stack top and are never both
    writable and executable nor executable for the kernel; the heap starts on
    a page above every ELF region and is empty; the stack pointer is aligned,
    near the top of the stack; and page faults and user copies may be
    taken on the process ([runs_in] is their precondition). *)
Theorem created_process_well_formed c cur kstack garbage image size ps : let g := p_fs ps in
  sys_inv g → creation_pre g c cur kstack image size →
  ∃ q ps', create c cur kstack garbage image size ps = Some (q, ps') ∧ let g' := p_fs ps' in
    sys_inv g' ∧ others_kept g g' ∧
    if q =? 0 then fproc g' = fproc g ∧ ∀ mm, is_Some (fctx g' !! mm) → is_Some (fctx g !! mm)
    else fproc g !! q = None ∧ ∃ pr, fproc g' = <[q := pr]> (fproc g) ∧ fctx g !! pr_mm pr = None ∧
      runs_in (fenv g') (fctx g') (f_vm g') q (pr_mm pr) ∧
      ∃ I, images_of (fenv g) g (KImage image size (byte_at g image)) I (pr_owned_images pr) ∧ process_wf (fenv g') (fctx g') I pr.
Proof.
  intros g Hi [Hks Hib Hlo Hap Hfl Hsf Hin Hcur Hpath]. destruct (sys_normal g Hi) as (p & t & X & s & F & Hg & Hsys).
  assert (ps = pst p t X s g (process_next_elf_load_base ps)) as Hps by (unfold pst; rewrite <- Hg; by destruct ps).
  set (im := KImage image size (byte_at g image)).
  assert (∀ k m, ramfs_nodes g !! k = Some m → rn_in_use m = true → ∀ j, 0 ≤ j < rn_size m → ¬ kstack_bytes kstack (va_to_pa (rn_data m) + j)) as Hfl'
    by (intros k m Hm Hu j Hj; by eapply Hfl).
  assert (fenv g = p ∧ fctx g = X ∧ fproc g = processes s ∧ ∀ b, byte_at g b = λ i, rd8 (pmem p) (va_to_pa b + i)) as (E1 & E2 & E3 & E4).
  { rewrite Hg. done. }
  rewrite E1, E2 in *.
  assert (creation_ok kstack p X s g im) as Him.
  { split; cbn [im_ptr im_size im_byte im].
    - split; [split; [exact Hib|intros i Hir; change (rd8 (pmem p) (va_to_pa image + i) = byte_at g image i); by rewrite E4]|]. split; [exact Hap|]. destruct Hlo as [Hlv Hno].
      split; [destruct Hib as [(? & _) _]; cbn; lia|]. split; [exact Hlv|]. intros p1 t1 u Hu. apply (Hno u). rewrite Hg. by destruct u.
    - exact Hsf.
    - intros o i n Ho Hn. specialize (Hin o i n Ho Hn). by rewrite (E4 (rn_data n)) in Hin. }
  assert (wp (create c cur kstack garbage image size) (creation_post kstack p X s F g im) ps) as Hwp.
  { rewrite Hps. destruct c as [path|]; cbn [create].
    - apply (wp_create_elf kstack p t X s F g Hsys Hks Hfl' im Him); [exact Hcur|]. by destruct path.
    - by apply (wp_create_buffer kstack p t X s F g Hsys Hks Hfl' im Him). }
  destruct (wp_elim _ _ _ Hwp) as (q & ps' & Hrun & Hres). exists q, ps'. split; [exact Hrun|]. rewrite Hg.
  destruct Hres as [(-> & p' & t' & X' & s' & F' & nb' & -> & Hsys' & Hs & Hp)|(mm & I & images & Hq & Hqm & HXm & Hpq & Hof & Hc)].
  - split; [by eapply sys_ok_elim|]. split; [by eapply kept_by_step|]. change (0 =? 0) with true. cbn iota. split; [exact Hp|].
    intros k HX'. by destruct (kp_dom _ _ _ _ _ _ _ _ _ Hs k HX') as [?%elem_of_nil|[? _]].
  - destruct Hc as (B & p' & t' & X' & s' & F' & nb' & pr & -> & Hsys' & Hs & Hp & Hmm & HX' & Himg & Hnew).
    split; [by eapply sys_ok_elim|]. split; [by eapply kept_by_step|]. bfalse (q =? 0). split; [exact Hpq|]. exists pr. split; [exact Hp|].
    split; [by rewrite Hmm|]. split; [|exists I; rewrite Himg, <- Hg; split; [exact Hof|exact Hnew]]. split; [done|]. exists pr. split; [|split; [done|split; [by rewrite Hmm|apply Hnew]]].
    change (processes s' !! q = Some pr). rewrite Hp. apply lookup_insert_eq.
Qed.

End claims.

(** ** A machine with an ELF image in a heap block *)

(** The bytes of a value, the lowest first, and an executable of one segment. *)
Fixpoint le_bytes (n : nat) (v : Z) : list Z :=
  match n with O => [] | Datatypes.S n' => v mod 256 :: le_bytes n' (v / 256) end.
Definition elf_file : list Z :=
  [0x7f; 0x45; 0x4c; 0x46; 2; 1; 1; 0] ++ le_bytes 8 0 ++ le_bytes 2 2 ++ le_bytes 2 183 ++ le_bytes 4 1 ++
  le_bytes 8 0x1040 ++ le_bytes 8 64 ++ le_bytes 8 0 ++ le_bytes 4 0 ++ le_bytes 2 64 ++ le_bytes 2 56 ++ le_bytes 2 1 ++ le_bytes 6 0 ++
  le_bytes 4 1 ++ le_bytes 4 5 ++ le_bytes 8 0 ++ le_bytes 8 0x1000 ++ le_bytes 8 0x1000 ++ le_bytes 8 120 ++ le_bytes 8 120 ++ le_bytes 8 0x1000.
Definition elf_byte (i : Z) : Z := nth (Z.to_nat i) elf_file 0.

Section image.
Context {P : Type} `{FrameLaws P}.

(** The image is written into a fresh block. *)
Definition load_image : M (fstate P) Z :=
  a ← fs_kmalloc 120;
  if a =? 0 then mret 0 else
  up (S := vstate P) (forM_ (upto 0 120) (λ i, up (S := machine) (store8 (u64 (a + i)) (elf_byte i)))) ;;
  mret a.

Lemma elf_byte_range i : 0 ≤ elf_byte i < 256.
Proof.
  unfold elf_byte. destruct (decide (Z.to_nat i < length elf_file)%nat) as [Hlt|Hge]; [|rewrite nth_overflow by lia; lia].
  assert (Forall (λ b, 0 ≤ b < 256) elf_file) as Hall by (apply (bool_decide_eq_true_1 _); vm_compute; reflexivity).
  rewrite Forall_forall in Hall. apply Hall. apply list_elem_of_In, nth_In. lia.
Qed.

Lemma elf_file_sane : elf_sane elf_byte 120.
Proof.
  split; [exact elf_byte_range|done| |done].
  change (phdrs_at elf_byte) with [phdr_at elf_byte 64]. intros h ->%list_elem_of_singleton _. by vm_compute.
Qed.

(** The file system, the address spaces and the buffer [buf] are as before,
    and the block is an image for which creation may be called. *)
Lemma load_image_ok (v : vstate P) buf n (Q : Z → fstate P → Prop) : let g0 := no_files v in
  sys_inv g0 → client_buf (fenv g0) (fctx g0) buf KSTACK_SIZE →
  (∀ g, Q 0 g) →
  (∀ a g, a ≠ 0 → sys_inv g → creation_pre g (FromElf (Some n)) None buf a 120 → Q a g) →
  Z.of_nat (String.length n) ≤ 800 →
  wp load_image Q g0.
Proof.
  intros g0 Hi Hb HQ0 HQ Hlen. destruct (sys_normal g0 Hi) as (p & t & X & s & F & Hg & Hsys).
  pose proof (sys_ok_vm _ _ _ _ _ _ Hsys) as Hk. rewrite Hg in Hb |- *.
  unfold load_image. wp_step. apply (wp_fs_kmalloc nowhere 120 _ p t X s F g0); [done|by eapply sys_ok_lock|done| |].
  { intros p1 _. change (0 =? 0) with true. cbn iota. wp_step. apply HQ0. }
  intros a p1 Ha Hau _ Hkb Hs1 Hspan. bfalse (a =? 0).
  pose proof (sys_same _ _ _ _ _ _ _ _ _ Hsys Hs1) as Hsys1. pose proof (sys_ok_vm _ _ _ _ _ _ Hsys1) as Hk1.
  assert (∀ i, 0 ≤ i < 120 → fe_mine p1 (word_of (va_to_pa a + i)) ∧ untracked X (word_of (va_to_pa a + i)) ∧ ¬ fe_mine p (word_of (va_to_pa a + i))) as Hin.
  { intros i Hir. destruct (span_client p1 X F _ _ Hk1 (Hspan i Hir)). split; [done|]. split; [done|].
    apply (kp_new _ _ _ _ _ _ _ _ _ Hs1 a ltac:(by left)). by apply Hspan. }
  wp_step. apply wp_fvm. apply (wp_byte_loop a 120 elf_byte); [done|apply Hk1|intros i Hir; by apply Hin| |].
  { intros i p' Hir Hw. apply (wp_store8 a 120 i); [done|done|]. exists (elf_byte i). split; [done|].
    symmetry. apply u8_small, elf_byte_range. }
  intros p2 Hw. wp_step.
  assert (kstep nowhere [a] [] p X F p2 X F) as Hs2.
  { eapply (kstep_wrote nowhere [a] p X F p1 X F p2 (va_to_pa a) 120); [exact Hs1|exact Hw| | |].
    - by apply (kbuf_at a 120 0).
    - intros i Hir. by destruct (Hin i Hir) as (? & ? & _).
    - intros i Hir. left. by destruct (Hin i Hir) as (_ & _ & ?). }
  pose proof (sys_same _ _ _ _ _ _ _ _ _ Hsys Hs2) as Hsys2. pose proof (sys_ok_vm _ _ _ _ _ _ Hsys2) as Hk2.
  assert (∀ i, 0 ≤ i < 120 → rd8 (pmem p2) (va_to_pa a + i) = elf_byte i) as Hbytes.
  { intros i Hir. destruct (kbuf_at a 120 i Hkb Hir) as (_ & _ & _ & Hpos). rewrite (wt_bytes _ _ _ _ _ Hw) by lia.
    rewrite decide_True by lia. f_equal. lia. }
  set (g := fvm (vst p2 t X s) g0). apply (HQ a g); [done|by eapply sys_ok_elim|].
  destruct (elf_safe_ext (byte_at g a) elf_byte 120) as [Hsafe Hph]; [intros i; apply rd8_range|exact Hbytes|done..|apply elf_file_sane|].
  destruct Hb as (Hkbb & Hub & Hcb).
  assert (∀ j, 0 ≤ j < KSTACK_SIZE → fe_mine p (word_of (va_to_pa buf + j)) ∧ untracked X (word_of (va_to_pa buf + j))) as Hcb' by exact Hcb.
  split.
  - split; [done|]. split; [done|]. intros j Hj. destruct (Hcb' j Hj) as [Hm Hu].
    destruct (kp_mem _ _ _ _ _ _ _ _ _ Hs2 _ Hm Hu) as (? & ? & _); [by intros d ?%elem_of_nil|done].
  - split; [done|]. split; [done|]. intros i Hir. destruct (Hin i Hir) as (Hm & Hu & _). split; [by apply (so_mine _ _ (wt_owner _ _ _ _ _ Hw))|exact Hu].
  - split; [by apply (kp_new _ _ _ _ _ _ _ _ _ Hs2 a ltac:(by left))|]. intros u Hu.
    apply (kstep_fresh _ _ _ _ _ _ _ _ _ a Hs2 ltac:(by left)). by apply (si_live _ (so_inv _ _ _ _ _ _ Hsys) a u).
  - intros i Hir Hks. unfold kstack_bytes in Hks. destruct (Hcb' (va_to_pa a + i - va_to_pa buf)) as [Hm _]; [lia|].
    replace (va_to_pa buf + (va_to_pa a + i - va_to_pa buf)) with (va_to_pa a + i) in Hm by lia. by destruct (Hin i Hir) as (_ & _ & ?).
  - intros k m j Hkm Hu. by rewrite (no_node v k m Hkm) in Hu.
  - exact Hsafe.
  - intros o i m Ho. exfalso. rewrite Hph in Ho. by vm_compute in Ho.
  - done.
  - done.
Qed.

End image.

(** The image on the kernel's own heap; the array is in the page [vm_buf]. *)
Definition v_image : Z := match load_image (no_files v_mapped) with Some (a, _) => a | None => 0 end.
Definition v_loaded : pstate kheap :=
  PState (match load_image (no_files v_mapped) with Some (_, g) => g | None => no_files v_mapped end) 0.
(** What the block of the process object held before. *)
Definition v_garbage : process := Process "?" 1 2 3 4 5 6 7 [] [8] 9 10 11.

Lemma v_image_ok : negb (v_image =? 0) = true.
Proof. vm_compute. reflexivity. Qed.

Definition v_create : M (pstate kheap) Z := create (FromElf (Some "/bin/init")) None (pa_to_va vm_buf) v_garbage v_image 120.

(** The process is created. *)
Lemma v_creates : match v_create v_loaded with Some (q, _) => q =? 0 | None => true end = false.
Proof. vm_compute. reflexivity. Qed.

#[local] Opaque v_mapped vm_buf v_mm.

Lemma v_loaded_ok : sys_inv (p_fs v_loaded) ∧
  creation_pre (p_fs v_loaded) (FromElf (Some "/bin/init")) None (pa_to_va vm_buf) v_image 120.
Proof.
  pose proof v_image_ok as Hnz. unfold v_loaded, v_image in *. cbn [p_fs].
  assert (wp load_image (λ a g, negb (a =? 0) = true → sys_inv g ∧ creation_pre g (FromElf (Some "/bin/init")) None (pa_to_va vm_buf) a 120) (no_files v_mapped)) as Hwp.
  { apply (load_image_ok v_mapped (pa_to_va vm_buf) "/bin/init").
    - exact (no_files_inv v_mapped (vm_reach_inv _ v_mapped_reach)).
    - assert (0 ≤ KSTACK_SIZE ≤ 4096) as Hn by (split; discriminate). exact (no_files_buffer v_mapped (pa_to_va vm_buf) KSTACK_SIZE (v_page KSTACK_SIZE Hn)).
    - intros g Hz. discriminate Hz.
    - intros a g _ Hi Hpre _. split; [exact Hi|exact Hpre].
    - discriminate. }
  unfold wp in Hwp. destruct (load_image (no_files v_mapped)) as [[a g]|]; [|destruct Hwp]. exact (Hwp Hnz).
Qed.

#[local] Opaque v_loaded v_image.

Lemma created_process_well_formed_witness : ∃ q ps' pr, v_create v_loaded = Some (q, ps') ∧ sys_inv (p_fs ps') ∧
  fproc (p_fs ps') !! q = Some pr ∧ ∃ I,
    images_of (fenv (p_fs v_loaded)) (p_fs v_loaded) (KImage v_image 120 (byte_at (p_fs v_loaded) v_image)) I (pr_owned_images pr) ∧
    process_wf (fenv (p_fs ps')) (fctx (p_fs ps')) I pr.
Proof.
  destruct v_loaded_ok as [Hi Hpre].
  destruct (created_process_well_formed (FromElf (Some "/bin/init")) None (pa_to_va vm_buf) v_garbage v_image 120 v_loaded Hi Hpre)
    as (q & ps' & Hrun & Hi' & _ & Hres).
  pose proof v_creates as Hq. unfold v_create in *. rewrite Hrun in Hq. cbn iota in Hq. rewrite Hq in Hres.
  destruct Hres as (_ & pr & Hp & _ & _ & Hnew). exists q, ps', pr. split; [exact Hrun|]. split; [exact Hi'|].
  split; [rewrite Hp; apply lookup_insert_eq|exact Hnew].
Defined.
