(* ===== verification/Kernel.v ===== *)
(** * The composed kernel

    The state of the whole kernel: below the scheduler lies the process
    component with the files open in its tasks ([ostate]); above it lie the
    synchronisation objects and the statics of syscall.c ([kstate]).  This file
    gives the scheduler its environment and lifts the operations of each
    component to the composed states.  [StackPages] is what task creation and
    reaping ask of the page allocator. *)

From S2P Require Import Prelude Machine PageAlloc Heap MmuTable Vmsa VmsaWalk VmsaFault VmEnv Fs Process Task WaitQueue Sched SyncSched Sync Mutex Semaphore Condvar Ipc.

Open Scope kernel_scope.

(** [page_alloc_contiguous] and [page_free_contiguous]. *)
Class StackPages (P : Type) := {
  sp_alloc : Z → M P Z;
  sp_free : Z → Z → M P unit;
}.

#[export] Instance kheap_stacks : StackPages kheap := {
  sp_alloc := λ n, up (page_alloc_contiguous n);
  sp_free := λ p n, up (page_free_contiguous p n);
}.

Section kernel.
Context {P : Type} `{FrameEnv P, !StackPages P}.

(** [open_files]: the [struct file] objects by their address. *)
Record ostate : Type := OState {
  o_proc : pstate P;
  open_files : gmap Z file;
}.

#[global] Instance eta_ostate : Eta ostate := λ s, OState (o_proc s) (open_files s).

#[global, refine] Instance sub_o_proc : Sub (pstate P) ostate := {
  sub_get := o_proc;
  sub_set := λ p s, s <| o_proc := p |>;
}.
Proof. all: intros; by destruct t. Defined.

#[global] Instance sub_o_vm : Sub (vstate P) ostate := sub_trans sub_fs_vm (sub_trans sub_proc_fs sub_o_proc).
#[global] Instance sub_o_machine : Sub machine ostate := sub_trans sub_vm_machine sub_o_vm.

Definition o_fs {A} (m : M (fstate P) A) : M ostate A := up (S := pstate P) (Process.fs m).
Definition o_vm {A} (m : M (vstate P) A) : M ostate A := up (S := pstate P) (Process.vm m).

(** [*file], for a [struct file *]. *)
Definition get_file (fp : Z) : M ostate file :=
  λ s, match open_files s !! fp with Some f => Some (f, s) | None => None end.
Definition set_file (fp : Z) (f : file) : M ostate unit :=
  modify (λ s, s <| open_files := <[fp := f]> (open_files s) |>).

Definition console_open_file : M ostate Z :=
  fp ← o_fs (fs_kmalloc SIZEOF_FILE);
  if fp =? 0 then mret 0 else
  set_file fp (File console_vnode "console" 0 0) ;;
  mret fp.

#[global] Instance kernel_pages : PageSource ostate := {
  ps_sub := sub_o_machine;
  ps_alloc := λ n, o_vm (up (S := P) (sp_alloc n));
}.

#[global] Instance kernel_sched : SchedEnv ostate := {
  Sched.mmu_context_switch := λ cpu mm, o_vm (Vmsa.mmu_context_switch cpu mm);
  Sched.console_open_file := console_open_file;
}.

(** The scheduler's state, and the kernel's. *)
Definition ksched : Type := sstate ostate.

Record kstate : Type := KState {
  k_sync : ystate ksched;
  next_mmap_addr : Z;
}.

#[global] Instance eta_kstate : Eta kstate := λ s, KState (k_sync s) (next_mmap_addr s).

#[global, refine] Instance sub_k_sync : Sub (ystate ksched) kstate := {
  sub_get := k_sync;
  sub_set := λ p s, s <| k_sync := p |>;
}.
Proof. all: intros; by destruct t. Defined.

(** ** Lifting *)

Definition t_o {A} (m : M ostate A) : M ksched A := up m.
Definition t_proc {A} (m : M (pstate P) A) : M ksched A := t_o (up m).
Definition t_vm {A} (m : M (vstate P) A) : M ksched A := t_o (o_vm m).
Definition t_mach {A} (m : M machine A) : M ksched A := t_vm (up m).

Definition k_y {A} (m : M (ystate ksched) A) : M kstate A := up m.
Definition k_t {A} (m : M ksched A) : M kstate A := k_y (up m).
Definition k_o {A} (m : M ostate A) : M kstate A := k_t (t_o m).
Definition k_proc {A} (m : M (pstate P) A) : M kstate A := k_t (t_proc m).
Definition k_vm {A} (m : M (vstate P) A) : M kstate A := k_t (t_vm m).
Definition k_mach {A} (m : M machine A) : M kstate A := k_t (t_mach m).

(** The context and the process of the current task, as the fault handler and
    the user copies read them. *)
Definition cur_space (cpu : Z) : M ksched (option (Z * Z)) :=
  t ← sched_current cpu;
  if is_null t then mret None else
  c ← get_task t;
  mret (Some (Task.mm c, Task.process c)).

(** ** The end of a task, and [schedule]

    [release_task] gives back the stack and the reference to the process of a
    task that [sched_reap_dead] has detached.  [schedule] is the whole function;
    from its last step on, the CPU runs the task that was picked. *)

Definition release_task (stack proc : Z) : M ostate unit :=
  whenM (negb (stack =? 0)) (o_vm (up (S := P) (sp_free (va_to_pa stack) TASK_TOTAL_PAGES))) ;;
  whenM (negb (proc =? 0)) (up (process_destroy proc)).

Definition kernel_reap_dead (cpu : Z) : M kstate unit := k_y (sched_reap_dead release_task cpu).

Definition schedule (cpu : Z) : M kstate unit := kernel_reap_dead cpu ;; k_t (schedule_locked cpu).

End kernel.

Arguments ostate P : clear implicits.
Arguments ksched P : clear implicits.
Arguments kstate P : clear implicits.
