(* ===== verification/ProcTask.v ===== *)
(** * Processes and tasks: src/src/kernel/process.c, clone, fork, execve and
    thread creation

    [ctx] is the address of the caller's saved exception frame, 800 bytes on
    its kernel stack; [c_va] and [kstack] are the addresses of the locals of
    those names ([char c] and [kstack[]]).  [garbage] is what a fresh process
    object holds.  [el0_entry_trampoline] and [fork_child_exit] are assembly
    symbols. *)

From S2P Require Import Prelude Machine Heap MmuTable Vmsa VmsaWalk VmsaFault Fs Process Task Sched Kernel.

Open Scope kernel_scope.

(** exception.h: the offsets of the fields of [struct exception_context]. *)
Definition EXCEPTION_CONTEXT_SIZE : Z := 800.
Definition ctx_gpr (ctx i : Z) : Z := u64 (ctx + 8 * i).
Definition ctx_elr_el1 (ctx : Z) : Z := u64 (ctx + 248).
Definition ctx_sp_el0 (ctx : Z) : Z := u64 (ctx + 264).

Definition CLONE_THREAD : Z := 0x00010000.
Definition CLONE_SETTLS : Z := 0x00080000.

(** [(unsigned long)-1]. *)
Definition SYS_ERROR : Z := 2 ^ 64 - 1.
(** [sizeof(path)] in sys_open, [sizeof(filename)] in process_execve. *)
Definition USER_PATH_MAX : Z := 128.

Section proctask.
Context {P : Type} `{FrameEnv P, !StackPages P}.

Abbreviation ks := (ksched P).

(** A task has a name from its creation to its end. *)
Definition task_name (c : task) : M ks string :=
  match name c with Some nm => mret nm | None => ub end.

(** The fields of the process are read by [task_create_user] itself. *)
Definition create_user (cpu el0_entry_trampoline p : Z) (nm : string) : M ks tptr :=
  if p =? 0 then task_create_user cpu el0_entry_trampoline 0 0 0 0 nm else
  x ← t_proc (get_proc p);
  task_create_user cpu el0_entry_trampoline p (pr_mm x) (pr_entry_va x) (pr_stack_top x) nm.

(** A new reference to [p] for a thread, refused while it dies or is replaced. *)
Definition take_thread_ref (p : Z) : M ks bool :=
  t_proc (lock_proc p) ;;
  x ← t_proc (get_proc p);
  if (pr_ref_count x =? 0) || negb (pr_exec_in_progress x =? 0) then
    t_proc (unlock_proc p) ;; mret false
  else
    t_proc (upd_proc p (λ x, x <| pr_ref_count := u32 (pr_ref_count x + 1) |>)) ;;
    t_proc (unlock_proc p) ;;
    mret true.

Definition drop_thread_ref (p : Z) : M ks unit :=
  t_proc (lock_proc p) ;;
  t_proc (upd_proc p (λ x, x <| pr_ref_count := u32 (pr_ref_count x - 1) |>)) ;;
  t_proc (unlock_proc p).

(** The branch of [CLONE_THREAD]: a task in the same process. *)
Definition clone_thread (cpu el0_entry_trampoline p : Z) (nm : string) : M ks tptr :=
  taken ← take_thread_ref p;
  if negb taken then mret None else
  child ← create_user cpu el0_entry_trampoline p nm;
  if is_null child then drop_thread_ref p ;; mret None else
  mret child.

(** The fields a forked process gets from its parent.  Its name, its
    [user_sp] and its owned images stay what the block held. *)
Definition forked (parent child : Vmsa.process) : Vmsa.process :=
  child <| pr_entry_va := pr_entry_va parent |> <| pr_stack_top := pr_stack_top parent |>
        <| pr_heap_start := pr_heap_start parent |> <| pr_brk := pr_brk parent |>
        <| pr_heap_limit := pr_heap_limit parent |> <| pr_heap_mapped_end := pr_heap_mapped_end parent |>
        <| pr_regions := pr_regions parent |>.

(** The other branch: a copy-on-write copy of the process and a task in it. *)
Definition clone_process (cpu el0_entry_trampoline : Z) (garbage : Vmsa.process) (parent parent_mm : Z) (nm : string) : M ks tptr :=
  p ← t_proc (new_process garbage);
  if p =? 0 then mret None else
  t_proc (upd_proc p (λ x, x <| pr_ref_count := 1 |> <| pr_exec_in_progress := 0 |>)) ;;
  t_proc (lock_proc parent) ;;
  x ← t_proc (get_proc parent);
  t_proc (upd_proc p (forked x)) ;;
  mm ← t_vm (mmu_context_clone parent_mm);
  t_proc (upd_proc p (λ x, x <| pr_mm := mm |>)) ;;
  t_proc (unlock_proc parent) ;;
  if mm =? 0 then t_proc (free_process p) ;; mret None else
  child ← create_user cpu el0_entry_trampoline p nm;
  if is_null child then
    t_vm (mmu_context_destroy mm) ;;
    t_proc (free_process p) ;;
    mret None
  else mret child.

(** The loop that copies the frame. *)
Definition copy_frame (dst src : Z) : M ks unit :=
  forM_ (upto 0 EXCEPTION_CONTEXT_SIZE) (λ i,
    b ← t_mach (load8 (u64 (src + i)));
    t_mach (store8 (u64 (dst + i)) b)).

Definition dsb_ish : M ks unit := t_mach (emit (Ev_sysreg "dsb ish" 0)).

(** The child resumes from a copy of the parent's frame at the top of its stack. *)
Definition clone_start (cpu fork_child_exit flags stack tls ctx parent_id_ : Z) (child : tptr) : M ks Z :=
  upd_task child (λ t, t <| parent_id := parent_id_ |>) ;;
  c ← get_task child;
  let child_frame := u64 (stack_base c + stack_size c - EXCEPTION_CONTEXT_SIZE) in
  copy_frame child_frame ctx ;;
  upd_task child (λ t, t <| context := (context t) <| x30 := fork_child_exit |> <| sp := child_frame |> |>) ;;
  t_mach (store64 (ctx_gpr child_frame 0) 0) ;;
  whenM (negb (stack =? 0)) (t_mach (store64 (ctx_sp_el0 child_frame) stack)) ;;
  whenM (negb (Z.land flags CLONE_SETTLS =? 0))
    (upd_task child (λ t, t <| context := (context t) <| tpidr_el0 := tls |> |>)) ;;
  dsb_ish ;;
  sched_wake_task cpu child ;;
  c ← get_task child;
  mret (Task.id c).

Definition process_clone (cpu el0_entry_trampoline fork_child_exit : Z) (garbage : Vmsa.process)
    (flags stack tls ctx : Z) : M ks Z :=
  parent_task ← sched_current cpu;
  if is_null parent_task then mret SYS_ERROR else
  t ← get_task parent_task;
  nm ← task_name t;
  child ← (if negb (Z.land flags CLONE_THREAD =? 0)
           then clone_thread cpu el0_entry_trampoline (Task.process t) nm
           else clone_process cpu el0_entry_trampoline garbage (Task.process t) (Task.mm t) nm);
  if is_null child then mret SYS_ERROR else
  clone_start cpu fork_child_exit flags stack tls ctx (Task.id t) child.

Definition process_fork (cpu el0_entry_trampoline fork_child_exit : Z) (garbage : Vmsa.process) (ctx : Z) : M ks Z :=
  process_clone cpu el0_entry_trampoline fork_child_exit garbage 0 0 0 ctx.

Definition process_thread_create (cpu el0_entry_trampoline ctx : Z) : M ks Z :=
  entry ← t_mach (load64 (ctx_gpr ctx 0));
  arg ← t_mach (load64 (ctx_gpr ctx 1));
  user_sp ← t_mach (load64 (ctx_gpr ctx 2));
  parent_task ← sched_current cpu;
  if is_null parent_task then mret SYS_ERROR else
  t ← get_task parent_task;
  if Task.process t =? 0 then mret SYS_ERROR else
  nm ← task_name t;
  thread_task ← clone_thread cpu el0_entry_trampoline (Task.process t) nm;
  if is_null thread_task then mret SYS_ERROR else
  upd_task thread_task (λ c, c <| parent_id := Task.id t |>
    <| context := (context c) <| x19 := entry |> <| x20 := user_sp |> <| x21 := arg |>
                                <| x30 := el0_entry_trampoline |> |>) ;;
  dsb_ish ;;
  sched_wake_task cpu thread_task ;;
  c ← get_task thread_task;
  mret (Task.id c).

(** ** execve *)

(** The loop that copies a path from user space, as sys_open has it too: at
    most [USER_PATH_MAX - 1] characters, one at a time through [c_va]; or the
    index of the character that could not be read. *)
Definition copy_path_from_user (cur : option (Z * Z)) (mm c_va path_va : Z) : M ks (Z + string) :=
  r ← iterM (upto 0 (USER_PATH_MAX - 1)) (λ path i,
        ok ← t_vm (mmu_copy_from_user cur mm c_va (u64 (path_va + i)) 1);
        if negb ok then mret (inr (inl i)) else
        c ← t_mach (load8 c_va);
        if c =? 0 then mret (inr (inr path))
        else mret (inl (path +:+ String (Ascii.ascii_of_N (Z.to_N c)) EmptyString))) EmptyString;
  mret (match r with inl path => inr path | inr r => r end).

(** The flag that keeps new threads out while the image is built. *)
Definition begin_exec (p : Z) : M ks bool :=
  t_proc (lock_proc p) ;;
  x ← t_proc (get_proc p);
  if negb (pr_ref_count x =? 1) || negb (pr_exec_in_progress x =? 0) then
    t_proc (unlock_proc p) ;; mret false
  else
    t_proc (upd_proc p (λ x, x <| pr_exec_in_progress := 1 |>)) ;;
    t_proc (unlock_proc p) ;;
    mret true.
Definition end_exec (p : Z) : M ks unit :=
  t_proc (lock_proc p) ;;
  t_proc (upd_proc p (λ x, x <| pr_exec_in_progress := 0 |>)) ;;
  t_proc (unlock_proc p).

(** Steps 2 and 3: the new process object, 0 when there is none. *)
Definition exec_image (cur : option (Z * Z)) (kstack : Z) (garbage : Vmsa.process) (filename : string) : M ks Z :=
  image ← t_proc (process_load_file_image filename);
  match image with
  | None => t_vm (ker_logf "[process] execve: failed to load" 0) ;; mret 0
  | Some (image_buffer, image_size) =>
      new_process ← t_proc (process_create_from_elf cur kstack garbage image_buffer image_size (Some filename));
      t_proc (p_kfree image_buffer) ;;
      whenM (new_process =? 0) (t_vm (ker_logf "[process] execve: failed to parse ELF" 0)) ;;
      mret new_process
  end.

(** Steps 4 and 5: the task moves to the new process and its frame starts it;
    the old process loses the task's reference. *)
Definition exec_replace (cpu ctx : Z) (t : tptr) (new_process : Z) : M ks unit :=
  c ← get_task t;
  let old_mm := Task.mm c in
  let old_process := Task.process c in
  x ← t_proc (get_proc new_process);
  upd_task t (λ c, c <| Task.mm := pr_mm x |> <| Task.process := new_process |>) ;;
  t_vm (Vmsa.mmu_context_switch cpu (pr_mm x)) ;;
  x ← t_proc (get_proc new_process);
  t_mach (store64 (ctx_elr_el1 ctx) (pr_entry_va x)) ;;
  t_mach (store64 (ctx_sp_el0 ctx) (pr_user_sp x)) ;;
  forM_ (upto 0 31) (λ i, t_mach (store64 (ctx_gpr ctx i) 0)) ;;
  if negb (old_process =? 0) then
    t_proc (upd_proc old_process (λ x, x <| pr_mm := old_mm |>)) ;;
    t_proc (process_destroy old_process)
  else t_vm (mmu_context_destroy old_mm).

Definition process_execve (cpu c_va kstack : Z) (garbage : Vmsa.process) (filename_va ctx : Z) : M ks Z :=
  task ← arch_get_current_task cpu;
  if is_null task then mret SYS_ERROR else
  c ← get_task task;
  if Task.process c =? 0 then mret SYS_ERROR else
  begun ← begin_exec (Task.process c);
  if negb begun then mret SYS_ERROR else
  let cur := Some (Task.mm c, Task.process c) in
  filename ← copy_path_from_user cur (Task.mm c) c_va filename_va;
  match filename with
  | inl _ => end_exec (Task.process c) ;; mret SYS_ERROR
  | inr filename =>
      t_vm (ker_logf "[process] execve" 0) ;;
      new_process ← exec_image cur kstack garbage filename;
      if new_process =? 0 then end_exec (Task.process c) ;; mret SYS_ERROR else
      exec_replace cpu ctx task new_process ;;
      mret 0
  end.

End proctask.
