(* ===== verification/Syscall.v ===== *)
(** * System calls: src/src/kernel/syscall.c

    A handler runs on the caller's kernel stack until it returns or calls
    [schedule]; [sys_outcome] says which.  [SysBlocked k] is left on the stack
    of a task that called [schedule], [syscall_resume k] is what it runs when it
    is switched back to.  [sys_env] holds what a handler finds outside the
    kernel's state: the CPU, two assembly symbols, the address of the array or
    variable of its frame that it copies user memory through, and what fresh
    memory holds. *)

From S2P Require Import Prelude Machine Heap MmuTable MmuBoot Vmsa VmsaWalk VmsaFault Fs Process Task WaitQueue Sched SyncSched Sync Mutex Semaphore Condvar Ipc Kernel ProcTask.

Open Scope kernel_scope.

Definition SYS_WRITE : Z := 64.
Definition SYS_READ : Z := 63.
Definition SYS_OPEN : Z := 56.
Definition SYS_EXIT : Z := 93.
Definition SYS_YIELD : Z := 124.
Definition SYS_GETPID : Z := 172.
Definition SYS_GETCPU : Z := 168.
Definition SYS_BRK : Z := 214.
Definition SYS_MUNMAP : Z := 215.
Definition SYS_MMAP : Z := 222.
Definition SYS_FORK : Z := 220.
Definition SYS_CLONE : Z := 224.
Definition SYS_THREAD_CREATE : Z := 223.
Definition SYS_EXECVE : Z := 221.
Definition SYS_WAIT4 : Z := 260.
Definition SYS_NANOSLEEP : Z := 101.
Definition SYS_IPC_SEND : Z := 451.
Definition SYS_IPC_RECV : Z := 452.
Definition SYS_MUTEX_INIT : Z := 502.
Definition SYS_MUTEX_DESTROY : Z := 503.
Definition SYS_MUTEX_LOCK : Z := 500.
Definition SYS_MUTEX_UNLOCK : Z := 501.
Definition SYS_MUTEX_TRYLOCK : Z := 504.
Definition SYS_SEM_INIT : Z := 510.
Definition SYS_SEM_DESTROY : Z := 511.
Definition SYS_SEM_WAIT : Z := 512.
Definition SYS_SEM_TRYWAIT : Z := 513.
Definition SYS_SEM_POST : Z := 514.
Definition SYS_COND_INIT : Z := 520.
Definition SYS_COND_DESTROY : Z := 521.
Definition SYS_COND_WAIT : Z := 522.
Definition SYS_COND_SIGNAL : Z := 523.
Definition SYS_COND_BROADCAST : Z := 524.

(** [sizeof(kbuf)]. *)
Definition KBUF_SIZE : Z := 128.
Definition MAP_ANONYMOUS : Z := 0x20.

Record sys_env : Type := SysEnv {
  se_cpu : Z;
  se_el0_entry : Z;
  se_fork_exit : Z;
  se_kbuf : Z;
  se_kstack : Z;
  se_garbage : Vmsa.process;
}.

(** What remains of a handler after its [schedule]. *)
Inductive sys_resume : Type :=
  | ResumeReturn (ret : Z)
  | ResumeWait4 (pid status_ptr : Z)
  | ResumeIpcRecv (channel_id buf_va capacity : Z)
  | ResumeMutexLock (i : Z)
  | ResumeSemWait (i : Z)
  | ResumeCondWait (i mutex_handle : Z)
  | ResumeCondMutex (i m : Z).

Inductive sys_outcome : Type := SysReturns (ret : Z) | SysBlocked (k : sys_resume).

(** [condition ? 0UL : (unsigned long)-1]. *)
Definition sys_status (ok : bool) : Z := if ok then 0 else SYS_ERROR.

(** [task->files[fd]]. *)
Definition task_file (t : task) (fd : Z) : Z := default 0 (files t !! fd).

(** The flags of a mapping from its protection bits. *)
Definition mmap_flags (prot : Z) : Z :=
  let f := bits [MMU_USER_PAGE_NORMAL; MMU_USER_PAGE_AF] in
  let f := if negb (Z.land prot 1 =? 0) then Z.lor f MMU_USER_PAGE_AP_RO else f in
  let f := if negb (Z.land prot 2 =? 0)
           then Z.lor (Z.land f (not64 MMU_USER_PAGE_AP_RO)) MMU_USER_PAGE_AP_RW else f in
  if Z.land prot 4 =? 0 then Z.lor f MMU_USER_PAGE_UXN else f.

Section syscall.
Context {P : Type} `{FrameEnv P, !StackPages P}.

Abbreviation K := (kstate P).

Definition sys_log (message : string) (arg : Z) : M K unit := k_vm (ker_logf message arg).

(** The current task and what the user copies see of it. *)
Definition sys_current (cpu : Z) : M K tptr := k_t (sched_current cpu).
Definition sys_task (t : tptr) : M K task := k_t (get_task t).
Definition task_space (t : task) : option (Z * Z) := Some (Task.mm t, Task.process t).

(** [schedule()], with what the caller does next. *)
Definition sys_block (cpu : Z) (k : sys_resume) : M K sys_outcome :=
  schedule cpu ;; mret (SysBlocked k).
Definition sys_return (m : M K Z) : M K sys_outcome := r ← m; mret (SysReturns r).

(** ** Files *)

(** Every round but the last moves a whole buffer. *)
Definition chunk_fuel (len : Z) : nat := Z.to_nat (len / KBUF_SIZE + 2).

Definition sys_write (e : sys_env) (fd buf_va len : Z) : M K Z :=
  task ← sys_current (se_cpu e);
  if is_null task then mret SYS_ERROR else
  t ← sys_task task;
  if (MAX_FILES_PER_TASK <=? fd) || (task_file t fd =? 0) then mret SYS_ERROR else
  let fp := task_file t fd in
  whileM (chunk_fuel len) (λ '(remaining, total_written),
    if remaining =? 0 then mret (inr total_written) else
    let chunk := if remaining <? KBUF_SIZE then remaining else KBUF_SIZE in
    ok ← k_vm (mmu_copy_from_user (task_space t) (Task.mm t) (se_kbuf e) (u64 (buf_va + total_written)) chunk);
    if negb ok then mret (inr (if negb (total_written =? 0) then total_written else SYS_ERROR)) else
    f ← k_o (get_file fp);
    written ← k_o (o_fs (fs_write f (se_kbuf e) chunk));
    if written =? 0 then mret (inr total_written) else
    let total_written := total_written + written in
    let remaining := remaining - written in
    mret (if written <? chunk then inr total_written else inl (remaining, total_written))) (len, 0).

(** One round of the loop of [sys_read]: the locals, or the result and whether
    the loop was left by its condition or a [break]. *)
Definition sys_read_round (e : sys_env) (t : task) (fp buf_va : Z) : Z * Z → M K (Z * Z + bool * Z) :=
  λ '(remaining, total_read),
    if remaining =? 0 then mret (inr (true, total_read)) else
    let chunk := if remaining <? KBUF_SIZE then remaining else KBUF_SIZE in
    f ← k_o (get_file fp);
    '(nread, f) ← k_o (o_fs (fs_read f (se_kbuf e) chunk));
    k_o (set_file fp f) ;;
    if nread =? 0 then mret (inr (true, total_read)) else
    ok ← k_vm (mmu_copy_to_user (task_space t) (Task.mm t) (u64 (buf_va + total_read)) (se_kbuf e) nread);
    if negb ok then mret (inr (false, if negb (total_read =? 0) then total_read else SYS_ERROR)) else
    let total_read := total_read + nread in
    let remaining := remaining - nread in
    mret (if nread <? chunk then inr (true, total_read) else inl (remaining, total_read)).

Definition sys_read (e : sys_env) (fd buf_va len : Z) : M K Z :=
  task ← sys_current (se_cpu e);
  if is_null task then mret SYS_ERROR else
  t ← sys_task task;
  if (MAX_FILES_PER_TASK <=? fd) || (task_file t fd =? 0) then mret SYS_ERROR else
  sys_log "[syscall] sys_read" len ;;
  '(completed, r) ← whileM (chunk_fuel len) (sys_read_round e t (task_file t fd) buf_va) (len, 0);
  whenM completed (sys_log "[syscall] sys_read: returns" r) ;;
  mret r.

Definition sys_open (e : sys_env) (path_va : Z) : M K Z :=
  task ← sys_current (se_cpu e);
  if is_null task then mret SYS_ERROR else
  t ← sys_task task;
  path ← k_t (copy_path_from_user (task_space t) (Task.mm t) (se_kbuf e) path_va);
  match path with
  | inl i => sys_log "[syscall] sys_open: copy_from_user failed" i ;; mret SYS_ERROR
  | inr path =>
      sys_log "[syscall] sys_open" 0 ;;
      match list_find (λ j, task_file t j = 0) (upto 0 MAX_FILES_PER_TASK) with
      | None => mret SYS_ERROR
      | Some (_, fd) =>
          fp ← k_o (o_fs (fs_kmalloc SIZEOF_FILE));
          if fp =? 0 then mret SYS_ERROR else
          f ← k_o (o_fs (fs_open path (File 0 EmptyString 0 0)));
          match f with
          | None => k_o (o_fs (fs_kfree fp)) ;; mret SYS_ERROR
          | Some f =>
              k_o (set_file fp f) ;;
              k_t (upd_task task (λ t, t <| files := <[fd := fp]> (files t) |>)) ;;
              mret fd
          end
      end
  end.

(** ** Memory *)

(** The next address for a mapping without one. *)
Definition mmap_pick (len : Z) : M K Z :=
  k_mach (spin_lock_irqsave L_mmap) ;;
  start ← gets next_mmap_addr;
  modify (λ s, s <| next_mmap_addr := u64 (next_mmap_addr s + Z.land (u64 (len + 0xFFF)) (not64 0xFFF)) |>) ;;
  k_mach (spin_unlock_irqrestore L_mmap) ;;
  mret start.

Definition sys_mmap (e : sys_env) (addr len prot flags fd offset : Z) : M K Z :=
  task ← sys_current (se_cpu e);
  if is_null task then mret SYS_ERROR else
  t ← sys_task task;
  if Task.process t =? 0 then mret SYS_ERROR else
  let file := if (Z.land flags MAP_ANONYMOUS =? 0) && (fd <? MAX_FILES_PER_TASK) then task_file t fd else 0 in
  start ← (if addr =? 0 then mmap_pick len else mret addr);
  if negb (file =? 0) then
    f ← k_o (get_file file);
    data ← k_o (o_fs (ramfs_get_data_ptr f));
    if data =? 0 then mret SYS_ERROR else
    ok ← k_proc (process_add_region (Task.process t) start (u64 (start + len)) VM_TYPE_ELF (mmap_flags prot)
                   data offset (u64 (f_size f - offset)));
    mret (if (ok : bool) then start else SYS_ERROR)
  else
    ok ← k_proc (process_add_region (Task.process t) start (u64 (start + len)) VM_TYPE_HEAP (mmap_flags prot) 0 0 0);
    mret (if (ok : bool) then start else SYS_ERROR).

Definition sys_brk (e : sys_env) (new_break : Z) : M K Z :=
  task ← sys_current (se_cpu e);
  if is_null task then mret 0 else
  t ← sys_task task;
  if Task.process t =? 0 then mret 0 else
  k_proc (process_brk (Task.process t) new_break).

Definition sys_munmap (e : sys_env) (addr len : Z) : M K Z :=
  task ← sys_current (se_cpu e);
  if is_null task then mret SYS_ERROR else
  t ← sys_task task;
  if Task.mm t =? 0 then mret SYS_ERROR else
  ok ← k_vm (mmu_unmap_user_range (Task.mm t) addr len);
  mret (sys_status ok).

(** ** Tasks *)

Definition sys_yield (e : sys_env) : M K sys_outcome := sys_block (se_cpu e) (ResumeReturn 0).

Definition sys_getpid (e : sys_env) : M K Z :=
  task ← sys_current (se_cpu e);
  if is_null task then mret SYS_ERROR else
  t ← sys_task task;
  mret (Task.id t).

Definition sys_getcpu (e : sys_env) : M K Z := mret (se_cpu e).

(** [task_exit] ends in [schedule]; a task that is dead is never switched back to. *)
Definition sys_exit (e : sys_env) (code : Z) : M K sys_outcome :=
  k_t (sched_set_current_exit_status (se_cpu e) (s32 code)) ;;
  sys_log "[syscall] user task exited" code ;;
  k_t (task_exit (se_cpu e)) ;;
  sys_block (se_cpu e) (ResumeReturn 0).

(** The loop of [sched_wait4] from one of its rounds; the status word of a
    collected child is copied out through a local of four bytes. *)
Definition sys_wait4 (e : sys_env) (pid status_ptr : Z) : M K sys_outcome :=
  r ← k_t (sched_wait4 (se_cpu e) pid);
  match r with
  | WaitNoChild => mret (SysReturns SYS_ERROR)
  | WaitBlocked => sys_block (se_cpu e) (ResumeWait4 pid status_ptr)
  | WaitChild child_id status =>
      whenM (negb (status_ptr =? 0))
        (task ← sys_current (se_cpu e);
         t ← sys_task task;
         k_proc (store_le 4 (se_kbuf e) (u32 status)) ;;
         k_vm (mmu_copy_to_user (task_space t) (Task.mm t) status_ptr (se_kbuf e) 4) ;;
         mret ()) ;;
      mret (SysReturns child_id)
  end.

Definition sys_nanosleep (e : sys_env) (seconds : Z) : M K sys_outcome :=
  ok ← k_t (sched_sleep_current (se_cpu e) (u64 (seconds * 2)));
  if negb ok then mret (SysReturns SYS_ERROR) else sys_block (se_cpu e) (ResumeReturn 0).

(** ** Messages *)

(** The bytes of a local array. *)
Definition load_bytes (buf n : Z) : M K (list Z) :=
  foldM (upto 0 n) (λ l i, b ← k_mach (load8 (u64 (buf + i))); mret (l ++ [b])) [].
Definition store_bytes (buf : Z) (l : list Z) : M K unit :=
  forM_ (imap (λ i b, (Z.of_nat i, b)) l) (λ '(i, b), k_mach (store8 (u64 (buf + i)) b)).

(** A loop of copies of one byte, up to the first that fails. *)
Definition each_byte (n : Z) (copy : Z → M K bool) : M K bool :=
  r ← iterM (upto 0 n) (λ (_ : unit) index,
        ok ← copy index; mret (if (ok : bool) then inl () else inr ())) ();
  mret (match r with inl _ => true | inr _ => false end).

Definition sys_ipc_send (e : sys_env) (channel_id buf_va len : Z) : M K Z :=
  if (len =? 0) || (IPC_MESSAGE_MAX <? len) then mret SYS_ERROR else
  task ← sys_current (se_cpu e);
  if is_null task then mret SYS_ERROR else
  t ← sys_task task;
  if Task.mm t =? 0 then mret SYS_ERROR else
  ok ← each_byte len (λ index,
         k_vm (mmu_copy_from_user (task_space t) (Task.mm t) (u64 (se_kbuf e + index)) (u64 (buf_va + index)) 1));
  if negb ok then mret SYS_ERROR else
  bytes ← load_bytes (se_kbuf e) len;
  result ← k_y (ipc_send (se_cpu e) channel_id (Some bytes) len);
  mret (if result <? 0 then SYS_ERROR else result).

(** One round of the loop. *)
Definition sys_ipc_recv (e : sys_env) (channel_id buf_va capacity : Z) : M K sys_outcome :=
  if (capacity =? 0) || (IPC_MESSAGE_MAX <? capacity) then mret (SysReturns SYS_ERROR) else
  task ← sys_current (se_cpu e);
  if is_null task then mret (SysReturns SYS_ERROR) else
  t ← sys_task task;
  if Task.mm t =? 0 then mret (SysReturns SYS_ERROR) else
  '(result, bytes) ← k_y (ipc_receive channel_id task false capacity);
  if result =? IPC_RESULT_BLOCKED then sys_block (se_cpu e) (ResumeIpcRecv channel_id buf_va capacity) else
  if result <? 0 then mret (SysReturns SYS_ERROR) else
  store_bytes (se_kbuf e) bytes ;;
  ok ← each_byte result (λ index,
         k_vm (mmu_copy_to_user (task_space t) (Task.mm t) (u64 (buf_va + index)) (u64 (se_kbuf e + index)) 1));
  mret (SysReturns (if (ok : bool) then result else SYS_ERROR)).

(** ** Synchronisation objects *)

(** [pool_call(...) ? 0UL : (unsigned long)-1]. *)
Definition sys_pool_status (r : Z) : Z := sys_status (negb (r =? 0)).

Definition sys_mutex_lock (e : sys_env) (handle : Z) : M K sys_outcome :=
  r ← k_y (mutex_pool_lock (se_cpu e) handle);
  match r with
  | PoolReturns r => mret (SysReturns (sys_pool_status r))
  | PoolBlocked i => sys_block (se_cpu e) (ResumeMutexLock i)
  end.

Definition sys_sem_wait (e : sys_env) (handle : Z) : M K sys_outcome :=
  r ← k_y (semaphore_pool_wait (se_cpu e) handle);
  match r with
  | PoolReturns r => mret (SysReturns (sys_pool_status r))
  | PoolBlocked i => sys_block (se_cpu e) (ResumeSemWait i)
  end.

Definition sys_cond_wait (e : sys_env) (cond_handle mutex_handle : Z) : M K sys_outcome :=
  '(pinned, r) ← k_y (condvar_pool_wait (se_cpu e) cond_handle mutex_handle);
  match pinned, r with
  | _, CondReturns r => mret (SysReturns (sys_pool_status r))
  | Some i, CondParked => sys_block (se_cpu e) (ResumeCondWait i mutex_handle)
  | Some i, CondRelocking m => sys_block (se_cpu e) (ResumeCondMutex i m)
  | None, _ => ub
  end.

(** ** What follows a [schedule] *)

Definition syscall_resume (e : sys_env) (k : sys_resume) : M K sys_outcome :=
  match k with
  | ResumeReturn ret => mret (SysReturns ret)
  | ResumeWait4 pid status_ptr => sys_wait4 e pid status_ptr
  | ResumeIpcRecv channel_id buf_va capacity => sys_ipc_recv e channel_id buf_va capacity
  | ResumeMutexLock i => r ← k_y (mutex_pool_lock_return i); mret (SysReturns (sys_pool_status r))
  | ResumeSemWait i => r ← k_y (semaphore_pool_wait_return i); mret (SysReturns (sys_pool_status r))
  | ResumeCondWait i mutex_handle =>
      r ← k_y (condvar_wait_return (se_cpu e) mutex_handle);
      match r with
      | CondReturns r => k_y (condvar_pool_unpin i) ;; mret (SysReturns (sys_pool_status r))
      | CondRelocking m => sys_block (se_cpu e) (ResumeCondMutex i m)
      | CondParked => ub
      end
  | ResumeCondMutex i m =>
      r ← k_y (mutex_pool_lock_return m);
      k_y (condvar_pool_unpin i) ;;
      mret (SysReturns (sys_pool_status r))
  end.

(** ** Dispatch *)

(** [nr] with the argument registers [x i]. *)
Definition syscall_enter (e : sys_env) (nr : Z) (x : Z → Z) (ctx : Z) : M K sys_outcome :=
  let cpu := se_cpu e in
  let h := s32 (x 0) in
  let status (m : M K bool) := sys_return (b ← m; mret (sys_status b)) in
  let pool_status (m : M K Z) := sys_return (r ← m; mret (sys_pool_status r)) in
  if nr =? SYS_WRITE then sys_return (sys_write e (x 0) (x 1) (x 2))
  else if nr =? SYS_READ then sys_return (sys_read e (x 0) (x 1) (x 2))
  else if nr =? SYS_OPEN then sys_return (sys_open e (x 0))
  else if nr =? SYS_MMAP then sys_return (sys_mmap e (x 0) (x 1) (x 2) (x 3) (x 4) (x 5))
  else if nr =? SYS_YIELD then sys_yield e
  else if nr =? SYS_GETPID then sys_return (sys_getpid e)
  else if nr =? SYS_GETCPU then sys_return (sys_getcpu e)
  else if nr =? SYS_EXIT then sys_exit e (x 0)
  else if nr =? SYS_BRK then sys_return (sys_brk e (x 0))
  else if nr =? SYS_MUNMAP then sys_return (sys_munmap e (x 0) (x 1))
  else if nr =? SYS_FORK then
    sys_return (k_t (process_fork cpu (se_el0_entry e) (se_fork_exit e) (se_garbage e) ctx))
  else if nr =? SYS_CLONE then
    sys_return (k_t (process_clone cpu (se_el0_entry e) (se_fork_exit e) (se_garbage e) (x 0) (x 1) (x 3) ctx))
  else if nr =? SYS_THREAD_CREATE then sys_return (k_t (process_thread_create cpu (se_el0_entry e) ctx))
  else if nr =? SYS_EXECVE then
    sys_return (k_t (process_execve cpu (se_kbuf e) (se_kstack e) (se_garbage e) (x 0) ctx))
  else if nr =? SYS_WAIT4 then sys_wait4 e (s64 (x 0)) (x 1)
  else if nr =? SYS_IPC_SEND then sys_return (sys_ipc_send e (x 0) (x 1) (x 2))
  else if nr =? SYS_IPC_RECV then sys_ipc_recv e (x 0) (x 1) (x 2)
  else if nr =? SYS_MUTEX_INIT then sys_return (r ← k_y mutex_pool_alloc; mret (u64 r))
  else if nr =? SYS_MUTEX_DESTROY then status (k_y (mutex_pool_free h))
  else if nr =? SYS_MUTEX_LOCK then sys_mutex_lock e h
  else if nr =? SYS_MUTEX_UNLOCK then pool_status (k_y (mutex_pool_unlock cpu h))
  else if nr =? SYS_MUTEX_TRYLOCK then sys_return (k_y (mutex_pool_trylock cpu h))
  else if nr =? SYS_SEM_INIT then sys_return (r ← k_y (semaphore_pool_alloc (x 0)); mret (u64 r))
  else if nr =? SYS_SEM_DESTROY then status (k_y (semaphore_pool_free h))
  else if nr =? SYS_SEM_WAIT then sys_sem_wait e h
  else if nr =? SYS_SEM_TRYWAIT then sys_return (k_y (semaphore_pool_trywait h))
  else if nr =? SYS_SEM_POST then pool_status (k_y (semaphore_pool_post cpu h))
  else if nr =? SYS_COND_INIT then sys_return (r ← k_y condvar_pool_alloc; mret (u64 r))
  else if nr =? SYS_COND_DESTROY then status (k_y (condvar_pool_free h))
  else if nr =? SYS_COND_WAIT then sys_cond_wait e h (s32 (x 1))
  else if nr =? SYS_COND_SIGNAL then pool_status (k_y (condvar_pool_signal cpu h))
  else if nr =? SYS_COND_BROADCAST then pool_status (k_y (condvar_pool_broadcast cpu h))
  else if nr =? SYS_NANOSLEEP then sys_nanosleep e (x 0)
  else sys_log "[syscall] unknown" nr ;; mret (SysReturns SYS_ERROR).

(** The return value goes to the saved [x0]. *)
Definition syscall_finish (ctx : Z) (r : sys_outcome) : M K sys_outcome :=
  match r with
  | SysReturns ret => k_mach (store64 (ctx_gpr ctx 0) ret) ;; mret r
  | SysBlocked _ => mret r
  end.

(** The argument registers are read from the frame. *)
Definition syscall_dispatch (e : sys_env) (nr ctx : Z) : M K sys_outcome :=
  args ← foldM (upto 0 6) (λ l i, v ← k_mach (load64 (ctx_gpr ctx i)); mret (l ++ [v])) [];
  r ← syscall_enter e nr (λ i, default 0 (args !! Z.to_nat i)) ctx;
  syscall_finish ctx r.

(** The rest of the call of a task that is switched back to. *)
Definition syscall_continue (e : sys_env) (k : sys_resume) (ctx : Z) : M K sys_outcome :=
  r ← syscall_resume e k;
  syscall_finish ctx r.

End syscall.
