(* ===== verification/Exception.v ===== *)
(** * Exceptions and interrupts: src/src/kernel/exception.c, timer.c and the
    interrupt controller's driver gicv3.c

    The interrupt handler works on the scheduler and the timer's statics, over
    any state [P] below the scheduler that has the TLB shootdown handler
    ([IrqEnv]); the composed kernel is one.  Writes of device and system
    registers are events of the trace; what a register holds when it is read is
    an argument ([cpu_regs]), and the loops that wait for a device are left out.
    Synchronous exceptions work on the whole kernel. *)

From S2P Require Import Prelude Machine Heap MmuTable MmuBoot Vmsa VmsaWalk VmsaFault Fs Process Task Sched SyncSched Sync Kernel ProcTask Syscall.

Open Scope kernel_scope.

Definition QEMU_VIRT_TIMER_PPI : Z := 27.
Definition CNTV_CTL_ENABLE : Z := 1.
Definition GIC_INTID_MASK : Z := 0x3FF.
Definition GIC_SPURIOUS : Z := 1020.

Definition QEMU_VIRT_GICD_BASE : Z := 0x08000000.
Definition QEMU_VIRT_GICR_BASE : Z := 0x080a0000.
Definition GICD_CTLR : Z := 0x0000.
Definition GICD_ISENABLER : Z := 0x0100.
Definition GICD_CTLR_ENABLE_G1NS : Z := 2 ^ 1.
Definition GICD_CTLR_ARE_NS : Z := 2 ^ 4.
Definition GICR_STRIDE : Z := 0x20000.
Definition GICR_WAKER : Z := 0x0014.
Definition GICR_WAKER_PS : Z := 2 ^ 1.
Definition GICR_SGI_BASE : Z := 0x10000.
Definition GICR_IGROUPR0 : Z := 0x0080.
Definition GICR_ISENABLER0 : Z := 0x0100.

Definition gicr_base_for_cpu (cpu_id : Z) : Z := QEMU_VIRT_GICR_BASE + cpu_id * GICR_STRIDE.

(** What the registers read at start-up hold: the redistributor's WAKER,
    ICC_SRE_EL1 and CNTFRQ_EL0. *)
Record cpu_regs : Type := CpuRegs { cr_waker : Z; cr_sre : Z; cr_cntfrq : Z }.

(** The statics of timer.c. *)
Record timer_state : Type := TimerState {
  timer_ticks : Z;
  timer_frequency : Z;
  timer_interval : Z;
}.

#[export] Instance eta_timer_state : Eta timer_state := λ t,
  TimerState (timer_ticks t) (timer_frequency t) (timer_interval t).

Definition exception_vector_name (vector_id : Z) : string :=
  default "unknown" (["current_el_sp0_sync"; "current_el_sp0_irq"; "current_el_sp0_fiq"; "current_el_sp0_serror";
    "current_el_spx_sync"; "current_el_spx_irq"; "current_el_spx_fiq"; "current_el_spx_serror";
    "lower_el_aarch64_sync"; "lower_el_aarch64_irq"; "lower_el_aarch64_fiq"; "lower_el_aarch64_serror";
    "lower_el_aarch32_sync"; "lower_el_aarch32_irq"; "lower_el_aarch32_fiq"; "lower_el_aarch32_serror"]%string
    !! Z.to_nat vector_id).

(** ** Interrupts *)

(** [mmu_handle_shootdown_ipi] of the address spaces. *)
Class IrqEnv (P : Type) := { irq_shootdown : Z → M P unit }.

Section irq.
Context {P : Type} `{SchedEnv P, !IrqEnv P}.

Record irq_state : Type := IrqState {
  irq_sched : sstate P;
  irq_timer : timer_state;
}.

#[global] Instance eta_irq_state : Eta irq_state := λ s, IrqState (irq_sched s) (irq_timer s).

#[global, refine] Instance sub_irq_sched : Sub (sstate P) irq_state := {
  sub_get := irq_sched;
  sub_set := λ p s, s <| irq_sched := p |>;
}.
Proof. all: intros; by destruct t. Defined.

Definition irq_emit (ev : event) : M irq_state unit := up (S := sstate P) (up (S := P) (up (emit ev))).

(** The system registers of the interrupt controller and of the timer. *)
Definition gic_acknowledge_irq (iar : Z) : M irq_state Z := irq_emit (Ev_sysreg "icc_iar1_el1" iar) ;; mret (u32 iar).
Definition gic_end_of_interrupt (iar : Z) : M irq_state unit := irq_emit (Ev_sysreg "icc_eoir1_el1" iar).

Definition gic_write32 (pa value : Z) : M irq_state unit := irq_emit (Ev_mmio pa value).

Definition gicv3_enable_system_registers (sre : Z) : M irq_state unit :=
  irq_emit (Ev_sysreg "icc_sre_el1" (Z.lor sre 1)) ;;
  irq_emit (Ev_sysreg "icc_pmr_el1" 0xff) ;;
  irq_emit (Ev_sysreg "icc_bpr1_el1" 0) ;;
  irq_emit (Ev_sysreg "icc_igrpen1_el1" 1).

Definition gic_init_secondary (cpu : Z) (regs : cpu_regs) : M irq_state unit :=
  let redistributor := gicr_base_for_cpu cpu in
  gic_write32 (redistributor + GICR_WAKER) (Z.land (cr_waker regs) (u32 (Z.lnot GICR_WAKER_PS))) ;;
  gic_write32 (redistributor + GICR_SGI_BASE + GICR_IGROUPR0) 0xffffffff ;;
  gic_write32 (redistributor + GICR_SGI_BASE + GICR_ISENABLER0) (bits [2 ^ 0; 2 ^ 1]) ;;
  gicv3_enable_system_registers (cr_sre regs).

Definition gic_init (cpu : Z) (regs : cpu_regs) : M irq_state unit :=
  gic_write32 (QEMU_VIRT_GICD_BASE + GICD_CTLR) 0 ;;
  gic_write32 (QEMU_VIRT_GICD_BASE + GICD_CTLR) (bits [GICD_CTLR_ARE_NS; GICD_CTLR_ENABLE_G1NS]) ;;
  gic_init_secondary cpu regs.

Definition gic_enable_irq (cpu intid : Z) : M irq_state unit :=
  if intid <? 32 then
    gic_write32 (gicr_base_for_cpu cpu + GICR_SGI_BASE + GICR_ISENABLER0) (u32 (Z.shiftl 1 intid))
  else
    gic_write32 (QEMU_VIRT_GICD_BASE + GICD_ISENABLER + intid / 32 * 4) (u32 (Z.shiftl 1 (intid mod 32))).

(** [vbar] is the run-time address of the vector table. *)
Definition exception_init (vbar : Z) : M irq_state unit := irq_emit (Ev_sysreg "vbar_el1" vbar).

Definition timer_program_next_tick : M irq_state unit :=
  interval ← gets (λ s, timer_interval (irq_timer s));
  irq_emit (Ev_sysreg "cntv_tval_el0" interval) ;;
  irq_emit (Ev_sysreg "cntv_ctl_el0" CNTV_CTL_ENABLE).

Definition arch_local_irq_enable : M irq_state unit := irq_emit (Ev_sysreg "daifclr" 2).

Definition timer_init (cpu : Z) (regs : cpu_regs) : M irq_state unit :=
  gic_enable_irq cpu QEMU_VIRT_TIMER_PPI ;;
  let frequency := cr_cntfrq regs in
  let interval := frequency / 2 in
  modify (λ s, s <| irq_timer := (irq_timer s) <| timer_frequency := frequency |>
                     <| timer_interval := if interval =? 0 then 1 else interval |> |>) ;;
  timer_program_next_tick ;;
  arch_local_irq_enable.

Definition timer_handle_irq (cpu intid : Z) : M irq_state bool :=
  if negb (intid =? QEMU_VIRT_TIMER_PPI) then mret false else
  whenM (cpu =? 0)
    (modify (λ s, s <| irq_timer := (irq_timer s) <| timer_ticks := u64 (timer_ticks (irq_timer s) + 1) |> |>)) ;;
  up (S := sstate P) (sched_tick cpu) ;;
  timer_program_next_tick ;;
  mret true.

Definition timer_tick_count : M irq_state Z := gets (λ s, timer_ticks (irq_timer s)).

(** What is done for an interrupt that is not spurious. *)
Definition irq_serve (cpu vector_id intid : Z) : M irq_state unit :=
  if intid =? 0 then mret ()
  else if intid =? MMU_SHOOTDOWN_SGI then up (S := sstate P) (up (S := P) (irq_shootdown cpu))
  else
    handled ← timer_handle_irq cpu intid;
    whenM (negb handled)
      (irq_emit (Ev_warn (String.append "[irq] unexpected vector=" (exception_vector_name vector_id)) vector_id) ;;
       irq_emit (Ev_warn "[irq] unexpected intid" intid)).

(** The result says whether [sched_irq_exit] ends in [schedule]. *)
Definition exception_handle_irq (cpu vector_id iar : Z) : M irq_state bool :=
  up (S := sstate P) (sched_irq_enter cpu) ;;
  iar ← gic_acknowledge_irq iar;
  let intid := Z.land iar GIC_INTID_MASK in
  if GIC_SPURIOUS <=? intid then up (S := sstate P) (sched_irq_exit cpu) else
  irq_serve cpu vector_id intid ;;
  gic_end_of_interrupt iar ;;
  up (S := sstate P) (sched_irq_exit cpu).

End irq.

Arguments irq_state P : clear implicits.

(** ** Synchronous exceptions *)

Definition ESR_EC_SHIFT : Z := 26.
Definition ESR_EC_MASK : Z := 0x3F.
Definition ESR_EC_SVC64 : Z := 0x15.
Definition ESR_EC_IABT_LOW : Z := 0x20.
Definition ESR_EC_DABT_LOW : Z := 0x24.
Definition ESR_EC_IABT_CUR : Z := 0x21.
Definition ESR_EC_DABT_CUR : Z := 0x25.
Definition ESR_ISS_FSC_TRANSL : Z := 0x04.
Definition ESR_ISS_FSC_ACCFLAG : Z := 0x08.
Definition ESR_ISS_FSC_PERM : Z := 0x0C.
Definition ESR_ISS_FSC_TYPE_MASK : Z := 0x3C.
Definition ESR_ISS_FSC_LEVEL_MASK : Z := 0x03.
Definition ESR_DABT_WNR : Z := 2 ^ 6.

Definition esr_class (esr : Z) : Z := Z.land (Z.shiftr esr ESR_EC_SHIFT) ESR_EC_MASK.

(** The words of the report of a fatal user abort. *)
Definition abort_access (esr : Z) : string :=
  if esr_class esr =? ESR_EC_DABT_LOW
  then (if negb (Z.land esr ESR_DABT_WNR =? 0) then "data abort (write" else "data abort (read")
  else "instruction abort (fetch".
Definition abort_type (esr : Z) : string :=
  let fsc_type := Z.land esr ESR_ISS_FSC_TYPE_MASK in
  if fsc_type =? ESR_ISS_FSC_TRANSL then "translation"
  else if fsc_type =? ESR_ISS_FSC_PERM then "permission"
  else if fsc_type =? ESR_ISS_FSC_ACCFLAG then "access-flag"
  else "other".
Definition abort_level (esr : Z) : Z := Z.land esr ESR_ISS_FSC_LEVEL_MASK.

(** How the handler ends: it returns 1 and the frame is restored; its task is
    in the [schedule] of a system call; its task was terminated, in the loop of
    [schedule] after [task_exit]; or the CPU is parked for good. *)
Inductive sync_outcome : Type :=
  | SyncReturns
  | SyncBlocked (k : sys_resume)
  | SyncKilled
  | SyncParked.

Section sync.
Context {P : Type} `{FrameEnv P, !StackPages P}.

Abbreviation K := (kstate P).

#[global] Instance kernel_irq_env : IrqEnv (ostate P) :=
  { irq_shootdown := λ cpu, o_vm (mmu_handle_shootdown_ipi cpu) }.

Definition exception_dump_registers (ctx : Z) : M K unit :=
  if ctx =? 0 then sys_log "exception register dump unavailable" 0 else
  forM_ (upto 0 31) (λ i, v ← k_mach (load64 (ctx_gpr ctx i)); sys_log "[fault] x" v) ;;
  sys_log "[fault] SP_EL1(ex-entry)" (u64 (ctx + EXCEPTION_CONTEXT_SIZE)) ;;
  v ← k_mach (load64 (ctx_sp_el0 ctx)); sys_log "[fault] SP_EL0" v ;;
  v ← k_mach (load64 (u64 (ctx + 272))); sys_log "[fault] FPCR" v ;;
  v ← k_mach (load64 (u64 (ctx + 280))); sys_log "FPSR" v.

Definition exception_dump (vector_id esr elr spsr far ctx : Z) : M K unit :=
  sys_log (String.append "[fault] vector=" (exception_vector_name vector_id)) vector_id ;;
  sys_log "[fault] ESR_EL1" esr ;;
  sys_log "[fault] ELR_EL1" elr ;;
  sys_log "[fault] SPSR_EL1" spsr ;;
  sys_log "[fault] FAR_EL1" far ;;
  exception_dump_registers ctx ;;
  sys_log "exception handler parked the CPU" 0.

(** [task_exit(); while (1) schedule();] up to the switch. *)
Definition kill_current (cpu : Z) : M K sync_outcome :=
  sys_log "[fault] killing user task" 0 ;;
  k_t (task_exit cpu) ;;
  schedule cpu ;;
  mret SyncKilled.

Definition exception_handle_sync (e : sys_env) (vector_id esr elr spsr far ctx : Z) : M K sync_outcome :=
  let ec := esr_class esr in
  if ec =? ESR_EC_SVC64 then
    nr ← k_mach (load64 (ctx_gpr ctx 8));
    r ← syscall_dispatch e nr ctx;
    mret (match r with SysReturns _ => SyncReturns | SysBlocked k => SyncBlocked k end)
  else if (ec =? ESR_EC_DABT_LOW) || (ec =? ESR_EC_IABT_LOW) then
    cur ← k_t (cur_space (se_cpu e));
    handled ← k_vm (mmu_handle_page_fault cur far esr);
    if (handled : bool) then mret SyncReturns else
    sys_log (String.append "[fault] EL0 " (String.append (abort_access esr) (String.append " " (abort_type esr)))) (abort_level esr) ;;
    sys_log "FAR" far ;; sys_log "ELR" elr ;; sys_log "ESR" esr ;;
    kill_current (se_cpu e)
  else if 8 <=? vector_id then
    sys_log "[fault] EL0 unhandled sync exception EC" ec ;; sys_log "ELR" elr ;; sys_log "ESR" esr ;;
    kill_current (se_cpu e)
  else
    exception_dump vector_id esr elr spsr far ctx ;;
    whenM ((ec =? ESR_EC_DABT_CUR) || (ec =? ESR_EC_IABT_CUR))
      (sys_log (if ec =? ESR_EC_DABT_CUR then "[PANIC] EL1 data abort FAR" else "[PANIC] EL1 instruction abort FAR") far ;;
       sys_log "ELR" elr ;; sys_log "ESR" esr) ;;
    mret SyncParked.

(** ** The interrupt handler in the whole kernel *)

Record xstate : Type := XState {
  x_kernel : kstate P;
  x_timer : timer_state;
}.

#[global] Instance eta_xstate : Eta xstate := λ s, XState (x_kernel s) (x_timer s).

#[global, refine] Instance sub_x_kernel : Sub (kstate P) xstate := {
  sub_get := x_kernel;
  sub_set := λ p s, s <| x_kernel := p |>;
}.
Proof. all: intros; by destruct t. Defined.

#[global, refine] Instance sub_x_irq : Sub (irq_state (ostate P)) xstate := {
  sub_get := λ s, IrqState (y_sched (k_sync (x_kernel s))) (x_timer s);
  sub_set := λ i s, XState ((x_kernel s) <| k_sync := (k_sync (x_kernel s)) <| y_sched := irq_sched i |> |>) (irq_timer i);
}.
Proof. all: intros; repeat match goal with x : irq_state _ |- _ => destruct x | x : xstate |- _ => destruct x
  | x : kstate P |- _ => destruct x | x : ystate _ |- _ => destruct x end; done. Defined.

(** The handler with the [schedule] of its end. *)
Definition kernel_handle_irq (cpu vector_id iar : Z) : M xstate unit :=
  resched ← up (S := irq_state (ostate P)) (exception_handle_irq cpu vector_id iar);
  whenM resched (up (S := kstate P) (schedule cpu)).

End sync.

Arguments xstate P : clear implicits.
