(* ===== verification/Boot.v ===== *)
(** * Start-up: src/src/kernel/main.c, loader.c, driver.c, device_tree.c and
    the UART's initialisation in pl011.c

    [kernel_main_early] runs with physical addresses, [secondary_main] on each
    secondary CPU, [kernel_main] (Shell.v) with virtual addresses.  The power
    controller's answers and what device registers hold are arguments; the loop
    that waits for a secondary CPU is left out. *)

From Stdlib Require Import Ascii.
From S2P Require Import Prelude Machine PageAlloc Heap HeapClaims MmuTable MmuBoot Vmsa VmsaWalk VmsaFault VmEnv Fs Log Process Task WaitQueue Sched SyncSched Sync Mutex Semaphore Condvar Ipc Kernel ProcTask Syscall Exception.

Open Scope kernel_scope.

(** [page_allocator_init] and [kernel_heap_init] of the layer below, and the
    five counters of each that the shell prints, in that order. *)
Class BootEnv (P : Type) := {
  be_page_init : Z → M P unit;
  be_heap_init : M P unit;
  be_page_counters : M P (list Z);
  be_heap_counters : M P (list Z);
}.

#[export] Instance kheap_boot : BootEnv kheap := {
  be_page_init := λ kernel_end, up (page_allocator_init kernel_end);
  be_heap_init := kernel_heap_init;
  be_page_counters := up (
    total ← page_allocator_total_pages; free ← page_allocator_free_pages; reserved ← page_allocator_reserved_bytes;
    invalid ← page_allocator_invalid_free_count; double ← page_allocator_double_free_count;
    mret [total; free; reserved; invalid; double]);
  be_heap_counters :=
    total ← kernel_heap_total_pages; used ← kernel_heap_used_bytes; free ← kernel_heap_free_bytes;
    allocs ← kernel_heap_allocation_count; failed ← kernel_heap_failed_allocations;
    mret [total; used; free; allocs; failed];
}.

(** ** Registers and constants *)

Definition QEMU_VIRT_PL011_BASE : Z := 0x09000000.
Definition PL011_IBRD : Z := QEMU_VIRT_PL011_BASE + 0x24.
Definition PL011_FBRD : Z := QEMU_VIRT_PL011_BASE + 0x28.
Definition PL011_LCRH : Z := QEMU_VIRT_PL011_BASE + 0x2c.
Definition PL011_CR : Z := QEMU_VIRT_PL011_BASE + 0x30.
Definition PL011_IMSC : Z := QEMU_VIRT_PL011_BASE + 0x38.
Definition PL011_ICR : Z := QEMU_VIRT_PL011_BASE + 0x44.
Definition PL011_LCRH_FEN : Z := 2 ^ 4.
Definition PL011_LCRH_WLEN : Z := Z.shiftl 3 5.
Definition PL011_CR_UARTEN : Z := 2 ^ 0.
Definition PL011_CR_TXE : Z := 2 ^ 8.
Definition PL011_CR_RXE : Z := 2 ^ 9.

Definition FDT_MAGIC : Z := 0xd00dfeed.

(** The user programs started after init. *)
Definition boot_services : list (string * string * Z) := [("/bin/test_pthread.elf", "pthread", 1)].

Definition newline : string := String "010" EmptyString.

(** The statics of driver.c, device_tree.c and main.c. *)
Record boot_statics : Type := BootStatics {
  uart_ready : Z;
  gic_ready : Z;
  timer_ready : Z;
  device_tree_pa : Z;
  device_tree_size : Z;
  device_tree_valid : Z;
  boot_stage : Z;
  boot_heartbeat : Z;
  secondary_ready : Z;
}.

#[export] Instance eta_boot_statics : Eta boot_statics := λ b,
  BootStatics (uart_ready b) (gic_ready b) (timer_ready b) (device_tree_pa b) (device_tree_size b)
    (device_tree_valid b) (boot_stage b) (boot_heartbeat b) (secondary_ready b).

Section boot.
Context {P : Type} `{FrameEnv P, !StackPages P, !BootEnv P}.

Record boot_state : Type := BootState {
  b_x : xstate P;
  b_statics : boot_statics;
}.

#[global] Instance eta_boot_state : Eta boot_state := λ b, BootState (b_x b) (b_statics b).

#[global, refine] Instance sub_b_x : Sub (xstate P) boot_state := {
  sub_get := b_x;
  sub_set := λ p s, s <| b_x := p |>;
}.
Proof. all: intros; by destruct t. Defined.

Abbreviation B := boot_state.

Definition b_k {A} (m : M (kstate P) A) : M B A := up (S := xstate P) (up m).
Definition b_irq {A} (m : M (irq_state (ostate P)) A) : M B A := up (S := xstate P) (up m).
Definition get_statics : M B boot_statics := gets b_statics.
Definition upd_statics (f : boot_statics → boot_statics) : M B unit := modify (λ s, s <| b_statics := f (b_statics s) |>).

(** ** The log with the current task in front *)

Definition KER_LOGF (cpu : Z) (fmt : string) (args : list log_arg) : M (kstate P) unit :=
  t ← k_t (arch_get_current_task cpu);
  curr ← (if is_null t then mret None else
          c ← sys_task t;
          mret (match name c with Some nm => Some (nm, Task.id c) | None => None end));
  k_o (o_fs (log_printf cpu curr fmt args)).

Definition KER_INFO (cpu : Z) (message : string) : M (kstate P) unit :=
  KER_LOGF cpu ("[info] %s" +:+ newline) [LogStr (Some message)].

(** ** Devices *)

Definition mmio_write (reg value : Z) : M (kstate P) unit := k_mach (emit (Ev_mmio reg value)).

Definition pl011_init : M (kstate P) unit :=
  k_mach (spin_lock_irqsave L_uart) ;;
  mmio_write PL011_CR 0 ;;
  mmio_write PL011_IMSC 0 ;;
  mmio_write PL011_ICR 0x7ff ;;
  mmio_write PL011_IBRD 13 ;;
  mmio_write PL011_FBRD 1 ;;
  mmio_write PL011_LCRH (bits [PL011_LCRH_FEN; PL011_LCRH_WLEN]) ;;
  mmio_write PL011_CR (bits [PL011_CR_UARTEN; PL011_CR_TXE; PL011_CR_RXE]) ;;
  k_mach (spin_unlock_irqrestore L_uart).

Definition driver_uart_is_ready : M B Z := b ← get_statics; mret (uart_ready b).
Definition driver_gic_is_ready : M B Z := b ← get_statics; mret (gic_ready b).
Definition driver_timer_is_ready : M B Z := b ← get_statics; mret (timer_ready b).

(** [console_init] and [log_init], which calls it. *)
Definition console_init : M B unit :=
  ready ← driver_uart_is_ready;
  whenM (ready =? 0) (b_k pl011_init).

Definition driver_system_init (cpu : Z) (regs : cpu_regs) : M B unit :=
  ready ← driver_uart_is_ready;
  whenM (ready =? 0) (b_k pl011_init ;; upd_statics (λ b, b <| uart_ready := 1 |>)) ;;
  ready ← driver_gic_is_ready;
  whenM (ready =? 0) (b_irq (gic_init cpu regs) ;; upd_statics (λ b, b <| gic_ready := 1 |>)) ;;
  ready ← driver_timer_is_ready;
  whenM (ready =? 0) (b_irq (timer_init cpu regs) ;; upd_statics (λ b, b <| timer_ready := 1 |>)).

Definition driver_secondary_init (cpu : Z) (regs : cpu_regs) : M B unit :=
  b_irq (gic_init_secondary cpu regs) ;;
  b_irq (timer_init cpu regs).

Definition driver_system_dump (cpu : Z) : M B unit :=
  b ← get_statics;
  let st r := LogStr (Some (if negb (r =? 0) then "ready" else "off")) in
  b_k (KER_LOGF cpu ("[driver] uart=%s gic=%s timer=%s" +:+ newline) [st (uart_ready b); st (gic_ready b); st (timer_ready b)]).

(** ** The device tree *)

Definition device_tree_init (fdt_pa : Z) : M B bool :=
  upd_statics (λ b, b <| device_tree_pa := 0 |> <| device_tree_size := 0 |> <| device_tree_valid := 0 |>) ;;
  if fdt_pa =? 0 then mret false else
  magic ← b_k (k_proc (load_le 4 fdt_pa));
  size ← b_k (k_proc (load_le 4 (fdt_pa + 4)));
  if negb (magic =? FDT_MAGIC) || (size =? 0) then mret false else
  upd_statics (λ b, b <| device_tree_pa := fdt_pa |> <| device_tree_size := size |> <| device_tree_valid := 1 |>) ;;
  mret true.

(** ** User services *)

(** The process takes the image over; it is not given back when there is no
    process. *)
Definition loader_load_process_image (cur : option (Z * Z)) (kstack : Z) (garbage : Vmsa.process) (path : string) : M (pstate P) Z :=
  image ← process_load_file_image path;
  match image with
  | None => mret 0
  | Some (buffer, image_size) => process_create_from_elf cur kstack garbage buffer image_size (Some path)
  end.

(** The loader as a task calls it. *)
Definition load_program (e : sys_env) (path : string) : M (kstate P) Z :=
  cur ← k_t (cur_space (se_cpu e));
  k_proc (loader_load_process_image cur (se_kstack e) (se_garbage e) path).

Definition kernel_spawn_init (e : sys_env) : M (kstate P) tptr :=
  let cpu := se_cpu e in
  proc ← load_program e "/bin/init.elf";
  if proc =? 0 then KER_INFO cpu "[boot] failed to load /bin/init.elf" ;; mret None else
  task ← k_t (create_user cpu (se_el0_entry e) proc "init");
  if is_null task then
    k_proc (process_destroy proc) ;;
    KER_INFO cpu "[boot] failed to create init task" ;;
    mret None
  else
  registered ← k_t (sched_register_init_task task);
  c ← sys_task task;
  if negb registered then
    _ ← k_t (sched_kill_task cpu (Task.id c));
    KER_INFO cpu "[boot] failed to register init task" ;;
    mret None
  else
  k_t (sched_wake_task cpu task) ;;
  KER_LOGF cpu ("[boot] spawned init task id=%lu" +:+ newline) [LogNum (Task.id c)] ;;
  mret task.

Definition kernel_spawn_service (e : sys_env) (path nm : string) : M (kstate P) unit :=
  let cpu := se_cpu e in
  proc ← load_program e path;
  if proc =? 0 then KER_LOGF cpu ("[boot] failed to load %s" +:+ newline) [LogStr (Some path)] else
  t ← k_t (create_user cpu (se_el0_entry e) proc nm);
  if is_null t then
    KER_LOGF cpu ("[boot] task_create_user failed: %s" +:+ newline) [LogStr (Some nm)] ;;
    k_proc (process_destroy proc)
  else
  adopted ← k_t (sched_adopt_task t);
  c ← sys_task t;
  if negb adopted then
    _ ← k_t (sched_kill_task cpu (Task.id c));
    KER_LOGF cpu ("[boot] init could not adopt %s" +:+ newline) [LogStr (Some nm)]
  else
  k_t (sched_wake_task cpu t) ;;
  KER_LOGF cpu ("[boot] spawned %s (%s)" +:+ newline) [LogStr (Some nm); LogStr (Some path)].

Definition kernel_start_user_services (e : sys_env) : M (kstate P) unit :=
  KER_INFO (se_cpu e) "starting user services" ;;
  init ← kernel_spawn_init e;
  if is_null init then KER_INFO (se_cpu e) "[boot] user services disabled: init unavailable" else
  forM_ boot_services (λ '(path, nm, count), forM_ (upto 0 count) (λ _, kernel_spawn_service e path nm)).

(** ** The start of the CPUs *)

(** What [psci_cpu_on] returns for a CPU, and whether it comes up in time. *)
Record psci_answers : Type := PsciAnswers {
  psci_version : Z;
  psci_cpu_on : Z → Z;
  psci_comes_up : Z → bool;
}.

Definition wake_cpu (psci : psci_answers) (boot_cpu_id entry_pa i : Z) : M B unit :=
  let log fmt args := b_k (KER_LOGF boot_cpu_id (fmt +:+ newline) args) in
  upd_statics (λ b, b <| secondary_ready := 0 |>) ;;
  b_k (k_mach (emit (Ev_sysreg "psci_cpu_on" i))) ;;
  let status := psci_cpu_on psci i in
  log "[boot] Waking CPU %u (MPIDR=%lx) return=%d" [LogNum i; LogNum i; LogNum status] ;;
  if status =? 0 then
    let ready := if psci_comes_up psci i then 1 else 0 in
    upd_statics (λ b, b <| secondary_ready := ready |>) ;;
    if negb (ready =? 0) then log "[boot] CPU %u is ready" [LogNum i]
    else log "[boot] CPU %u timed out (final check secondary_ready=%d)" [LogNum i; LogNum ready]
  else log "[boot] CPU %u wake failed: %d" [LogNum i; LogNum status].

(** [entry_pa] is the physical address of [secondary_entry], [vbar] that of the
    vector table; the kernel ends at [kernel_end ld]. *)
Definition kernel_main_early (ld : layout) (vbar entry_pa : Z) (regs : cpu_regs) (psci : psci_answers)
    (boot_fdt_pa boot_mpidr : Z) : M B unit :=
  let cpu := 0 in
  let logf fmt args := b_k (KER_LOGF cpu (fmt +:+ newline) args) in
  upd_statics (λ b, b <| boot_stage := 6 |>) ;;
  console_init ;;
  b_irq (exception_init vbar) ;;
  b_k (k_vm (up (S := P) (be_page_init (kernel_end ld)))) ;;
  found ← device_tree_init boot_fdt_pa;
  b ← get_statics;
  (if (found : bool) then logf "[boot] dtb pa=%lx size=%lu" [LogNum (device_tree_pa b); LogNum (device_tree_size b)]
   else b_k (KER_INFO cpu "[boot] no valid dtb supplied")) ;;
  driver_system_init cpu regs ;;
  b_k (k_vm (up (mmu_init ld))) ;;
  b_k (k_o (o_fs (log_write ("[boot] MMU initialized" +:+ newline)))) ;;
  b_k (k_t sched_init) ;;
  logf "[boot] entry_pa=%lx psci_version=%x" [LogNum entry_pa; LogNum (psci_version psci)] ;;
  let boot_cpu_id := Z.land boot_mpidr 0xFF in
  logf "[boot] Boot CPU MPIDR=%lx (ID=%u)" [LogNum boot_mpidr; LogNum boot_cpu_id] ;;
  forM_ (upto 0 4) (λ i, if i =? boot_cpu_id then mret () else wake_cpu psci boot_cpu_id entry_pa i).

Definition secondary_main_early : M B unit := b_k (k_vm (up mmu_init_secondary)).

(** Up to the loop, in which the CPU runs [schedule] and waits for an event. *)
Definition secondary_main (cpu vbar : Z) (regs : cpu_regs) : M B unit :=
  b_k (k_t (secondary_start cpu)) ;;
  b_irq (exception_init vbar) ;;
  driver_secondary_init cpu regs ;;
  b_irq arch_local_irq_enable ;;
  upd_statics (λ b, b <| secondary_ready := 1 |>) ;;
  b_k (KER_LOGF cpu ("[cpu] CPU %u online" +:+ newline) [LogNum cpu]).

End boot.

Arguments boot_state P : clear implicits.
