(* ===== verification/Shell.v ===== *)
(** * The shell and the kernel's main loop: src/src/kernel/shell.c,
    [sched_dump_tasks] of sched.c and [kernel_main] of main.c

    A line of input is a string; [line_tokens] is the tokenizer on values, the
    code's pointers into the line being those substrings.  The name of a loaded
    task is such a pointer in the code, a value here.  [shell_poll] gets the
    byte that the UART has received, if any; a command that has to wait in
    [schedule] ends there ([ShellWaits]) and goes on with [shell_resume]. *)

From Stdlib Require Import Ascii.
From S2P Require Import Prelude Machine PageAlloc Heap HeapClaims MmuTable MmuBoot Vmsa VmsaWalk VmsaFault VmEnv Fs Log Process Task WaitQueue Sched SyncSched Sync Mutex Semaphore Condvar Ipc Kernel ProcTask Syscall Exception Boot.

Open Scope kernel_scope.

Definition SHELL_INPUT_MAX : Z := 128.
Definition SHELL_TOKENS_MAX : nat := 4.
Definition SHELL_READ_CHUNK : Z := 16.
Definition SHELL_DEFAULT_READ : Z := 64.
Definition SHELL_UPLOAD_PATH_MAX : Z := 64.

(** ** Characters, numbers and lines *)

Definition shell_is_space (ch : Z) : bool := (ch =? 32) || (ch =? 9) || (ch =? 13) || (ch =? 10).
Definition shell_is_printable (ch : Z) : bool := (32 <=? ch) && (ch <=? 126).

Fixpoint shell_streq (lhs rhs : string) : bool :=
  match lhs, rhs with
  | String a lhs', String b rhs' => if Ascii.eqb a b then shell_streq lhs' rhs' else false
  | EmptyString, EmptyString => true
  | _, _ => false
  end.

Fixpoint shell_skip_spaces (text : string) : string :=
  match text with
  | String c text' => if shell_is_space (char_code c) then shell_skip_spaces text' else text
  | EmptyString => EmptyString
  end.

(** A digit of [shell_parse_ulong]. *)
Definition ulong_digit (base ch : Z) : option Z :=
  if (48 <=? ch) && (ch <=? 57) then Some (ch - 48)
  else if (base =? 16) && (97 <=? ch) && (ch <=? 102) then Some (10 + (ch - 97))
  else if (base =? 16) && (65 <=? ch) && (ch <=? 70) then Some (10 + (ch - 65))
  else None.

Fixpoint parse_digits (base : Z) (text : string) (result : Z) (seen_digit : bool) : option Z :=
  match text with
  | EmptyString => if seen_digit then Some result else None
  | String c text' =>
      match ulong_digit base (char_code c) with
      | Some digit => parse_digits base text' (u64 (u64 (result * base) + digit)) true
      | None => None
      end
  end.

Definition shell_parse_ulong (text : string) : option Z :=
  match text with
  | String a (String b text') =>
      if (char_code a =? 48) && ((char_code b =? 120) || (char_code b =? 88))
      then parse_digits 16 text' 0 false else parse_digits 10 text 0 false
  | _ => parse_digits 10 text 0 false
  end.

Definition shell_hex_value (ch : Z) : Z :=
  if (48 <=? ch) && (ch <=? 57) then ch - 48
  else if (97 <=? ch) && (ch <=? 102) then 10 + (ch - 97)
  else if (65 <=? ch) && (ch <=? 70) then 10 + (ch - 65)
  else -1.

(** The first word, and the text from the space after it on. *)
Fixpoint take_word (text : string) : string * string :=
  match text with
  | EmptyString => (EmptyString, EmptyString)
  | String c text' =>
      if shell_is_space (char_code c) then (EmptyString, text)
      else let '(w, rest) := take_word text' in (String c w, rest)
  end.

(** At most [n] tokens.  The last of them is not cut off at its space: the loop
    ends before it would write the null. *)
Fixpoint line_tokens (n : nat) (line : string) : list string :=
  match n with
  | O => []
  | Datatypes.S n' =>
      match shell_skip_spaces line with
      | EmptyString => []
      | line =>
          match n' with
          | O => [line]
          | _ => let '(w, rest) := take_word line in w :: line_tokens n' rest
          end
      end
  end.
Definition shell_tokenize (line : string) : list string := line_tokens SHELL_TOKENS_MAX line.

Definition shell_copy_line (src : string) (dst_size : Z) : string := String.substring 0 (Z.to_nat (dst_size - 1)) src.

(** What follows the last slash. *)
Fixpoint after_slash (name path : string) : string :=
  match path with
  | EmptyString => name
  | String c path' => after_slash (if char_code c =? 47 then path' else name) path'
  end.
Definition shell_default_task_name (path : string) : string := after_slash path path.

(** ** State *)

Record shell_state : Type := ShellState {
  shell_input : string;
  shell_upload_buffer : Z;
  shell_upload_size : Z;
  shell_upload_received : Z;
  shell_upload_high_nibble_valid : Z;
  shell_upload_high_nibble : Z;
  shell_upload_path : string;
}.

#[export] Instance eta_shell_state : Eta shell_state := λ s,
  ShellState (shell_input s) (shell_upload_buffer s) (shell_upload_size s) (shell_upload_received s)
    (shell_upload_high_nibble_valid s) (shell_upload_high_nibble s) (shell_upload_path s).

Definition upload_reset (s : shell_state) : shell_state :=
  s <| shell_upload_buffer := 0 |> <| shell_upload_size := 0 |> <| shell_upload_received := 0 |>
    <| shell_upload_high_nibble_valid := 0 |> <| shell_upload_high_nibble := 0 |> <| shell_upload_path := EmptyString |>.

Inductive shell_outcome : Type := ShellReturns (r : Z) | ShellWaits (task_id : Z).

Section shell.
Context {P : Type} `{FrameEnv P, !StackPages P, !BootEnv P}.

Record main_state : Type := MainState {
  m_boot : boot_state P;
  m_shell : shell_state;
}.

#[global] Instance eta_main_state : Eta main_state := λ s, MainState (m_boot s) (m_shell s).

#[global, refine] Instance sub_m_boot : Sub (boot_state P) main_state := {
  sub_get := m_boot;
  sub_set := λ p s, s <| m_boot := p |>;
}.
Proof. all: intros; by destruct t. Defined.

Abbreviation W := main_state.

Definition m_b {A} (m : M (boot_state P) A) : M W A := up m.
Definition m_k {A} (m : M (kstate P) A) : M W A := m_b (b_k m).
Definition m_fs {A} (m : M (fstate P) A) : M W A := m_k (k_o (o_fs m)).
Definition get_shell : M W shell_state := gets m_shell.
Definition upd_shell (f : shell_state → shell_state) : M W unit := modify (λ s, s <| m_shell := f (m_shell s) |>).

Definition say (message : string) : M W unit := m_fs (log_write message).
Definition sayln (message : string) : M W unit := say (message +:+ newline).
Definition logf (e : sys_env) (fmt : string) (args : list log_arg) : M W unit :=
  m_k (KER_LOGF (se_cpu e) (fmt +:+ newline) args).

(** ** Output *)

Definition shell_print_prompt : M W unit := say "os> ".
Definition shell_write_hex_digit (value : Z) : M W unit := m_fs (log_putc (hex_digit value 0)).
Definition shell_write_hex_byte (value : Z) : M W unit :=
  shell_write_hex_digit (Z.land (Z.shiftr value 4) 0xf) ;;
  shell_write_hex_digit (Z.land value 0xf).
Definition shell_write_hex_width (value digits : Z) : M W unit :=
  forM_ (upto 0 digits) (λ i, shell_write_hex_digit (Z.land (Z.shiftr value (4 * (digits - 1 - i))) 0xf)).

Definition shell_dump_read_chunk (offset : Z) (buffer : list Z) : M W unit :=
  say "[shell] " ;;
  shell_write_hex_width offset 8 ;;
  say " :" ;;
  forM_ (upto 0 SHELL_READ_CHUNK) (λ index,
    match buffer !! Z.to_nat index with
    | Some b => m_fs (log_putc 32) ;; shell_write_hex_byte b
    | None => say "   "
    end) ;;
  say "  |" ;;
  forM_ buffer (λ b, m_fs (log_putc (if shell_is_printable b then b else 46))) ;;
  sayln "|".

(** ** Commands *)

Definition shell_cmd_help : M W unit :=
  forM_ ["commands:"; "  help"; "  read <path> [count]"; "  write <text>"; "  show process | ps";
         "  show memory | memory | mem"; "  load <path> [task-name]"; "  unload <task-id>"; "  receive <path> <size>"]%string
    (λ l, sayln (String.append "[shell] " l)).

(** [file] and [buffer] are locals, the buffer at [se_kbuf]. *)
Definition shell_cmd_read (e : sys_env) (argv : list string) : M W unit :=
  match argv with
  | _ :: path :: rest =>
      let limit := match rest with count :: _ => shell_parse_ulong count | [] => Some SHELL_DEFAULT_READ end in
      match limit with
      | None => sayln "[shell] invalid count"
      | Some limit =>
          f ← m_fs (fs_open path (File 0 EmptyString 0 0));
          match f with
          | None => logf e "[shell] read failed: %s" [LogStr (Some path)]
          | Some f =>
              logf e "[shell] file=%s size=%lu" [LogStr (Some (f_name f)); LogNum (f_size f)] ;;
              f ← whileM (Z.to_nat (f_size f + 1)) (λ '(f, total),
                    if negb ((total <? limit) && (total <? f_size f)) then mret (inr f) else
                    let remaining := limit - total in
                    let want := if remaining <? SHELL_READ_CHUNK then remaining else SHELL_READ_CHUNK in
                    r ← m_fs (fs_read f (se_kbuf e) want);
                    let '(count, f) := r in
                    if count =? 0 then mret (inr f) else
                    buffer ← m_k (load_bytes (se_kbuf e) count);
                    shell_dump_read_chunk total buffer ;;
                    mret (inl (f, total + count))) (f, 0);
              m_fs (fs_close f) ;;
              mret ()
          end
      end
  | _ => sayln "[shell] usage: read <path> [count]"
  end.

Definition shell_cmd_write (e : sys_env) (line : string) : M W unit :=
  let text := shell_skip_spaces (String.substring 5 (String.length line - 5) line) in
  if shell_streq text EmptyString then sayln "[shell] usage: write <text>" else
  logf e "[shell] %s" [LogStr (Some text)].

Definition shell_cmd_memory (e : sys_env) : M W unit :=
  pages ← m_k (k_vm (up (S := P) be_page_counters));
  logf e "[shell] pages total=%lu free=%lu reserved_bytes=%lu invalid_free=%lu double_free=%lu" (LogNum <$> pages) ;;
  heap ← m_k (k_vm (up (S := P) be_heap_counters));
  logf e "[shell] heap pages=%lu used=%lu free=%lu allocs=%lu failed=%lu" (LogNum <$> heap).

(** Without the scheduler's lock. *)
Definition sched_dump_tasks (e : sys_env) : M W unit :=
  sayln "[shell] task list:" ;;
  forM_ all_slots (λ i,
    c ← m_k (sys_task (Some i));
    match name c with
    | None => mret ()
    | Some nm =>
        m_k (KER_LOGF (se_cpu e) "[shell]   id=%lu state=%s cpu=%u name=%s mode=%s"
          [LogNum (Task.id c); LogStr (Some (sched_state_name (state c))); LogNum (current_cpu c); LogStr (Some nm);
           LogStr (Some (if negb (Task.process c =? 0) then "user"%string else "kernel"%string))]) ;;
        whenM (negb (Task.process c =? 0))
          (x ← m_k (k_proc (get_proc (Task.process c)));
           m_k (KER_LOGF (se_cpu e) " brk=%lx" [LogNum (pr_brk x)])) ;;
        sayln ""
    end).

Definition shell_cmd_load (e : sys_env) (argv : list string) : M W unit :=
  match argv with
  | _ :: path :: rest =>
      let task_name := match rest with nm :: _ => nm | [] => shell_default_task_name path end in
      process ← m_k (load_program e path);
      if process =? 0 then logf e "[shell] load failed: %s" [LogStr (Some path)] else
      task ← m_k (k_t (create_user (se_cpu e) (se_el0_entry e) process task_name));
      if is_null task then
        m_k (k_proc (process_destroy process)) ;;
        logf e "[shell] spawn failed: %s" [LogStr (Some task_name)]
      else
      m_k (k_t (sched_wake_task (se_cpu e) task)) ;;
      c ← m_k (sys_task task);
      x ← m_k (k_proc (get_proc process));
      logf e "[shell] loaded %s as task id=%lu entry=%lx brk=%lx"
        [LogStr (Some task_name); LogNum (Task.id c); LogNum (pr_entry_va x); LogNum (pr_brk x)]
  | _ => sayln "[shell] usage: load <path> [task-name]"
  end.

(** [sched_kill_task_sync] from the test of its loop on: the task is waited
    for, or the command ends. *)
Definition shell_unload_wait (e : sys_env) (task_id : Z) : M W (option Z) :=
  done ← m_k (k_t (kill_sync_done task_id));
  if (done : bool) then logf e "[shell] task %lu stopped" [LogNum task_id] ;; mret None
  else m_k (schedule (se_cpu e)) ;; mret (Some task_id).

Definition shell_cmd_unload (e : sys_env) (argv : list string) : M W (option Z) :=
  match argv with
  | _ :: text :: _ =>
      match shell_parse_ulong text with
      | None => sayln "[shell] invalid task id" ;; mret None
      | Some task_id =>
          killed ← m_k (k_t (sched_kill_task (se_cpu e) task_id));
          if negb killed then logf e "[shell] unload failed: %lu" [LogNum task_id] ;; mret None
          else shell_unload_wait e task_id
      end
  | _ => sayln "[shell] usage: unload <task-id>" ;; mret None
  end.

Definition shell_reset_upload_state : M W unit := upd_shell upload_reset.

Definition shell_cmd_receive (e : sys_env) (argv : list string) : M W unit :=
  match argv with
  | _ :: path :: text :: _ =>
      s ← get_shell;
      if negb (shell_upload_buffer s =? 0) then sayln "[shell] receive already active" else
      match shell_parse_ulong text with
      | None => sayln "[shell] invalid receive size"
      | Some size =>
          if size =? 0 then sayln "[shell] invalid receive size" else
          upd_shell (λ s, s <| shell_upload_path := shell_copy_line path SHELL_UPLOAD_PATH_MAX |>) ;;
          s ← get_shell;
          if shell_streq (shell_upload_path s) EmptyString then sayln "[shell] invalid receive path" else
          buffer ← m_fs (fs_kmalloc size);
          upd_shell (λ s, s <| shell_upload_buffer := buffer |>) ;;
          if buffer =? 0 then sayln "[shell] receive alloc failed" ;; shell_reset_upload_state else
          upd_shell (λ s, s <| shell_upload_size := size |> <| shell_upload_received := 0 |>
            <| shell_upload_high_nibble_valid := 0 |> <| shell_upload_high_nibble := 0 |>) ;;
          logf e "[shell] receiving %s size=%lu as hex stream" [LogStr (Some (shell_upload_path s)); LogNum size]
      end
  | _ => sayln "[shell] usage: receive <path> <size>"
  end.

Definition shell_finish_upload (e : sys_env) (success : bool) : M W unit :=
  s ← get_shell;
  let buffer := shell_upload_buffer s in
  let size := shell_upload_size s in
  let path := shell_copy_line (shell_upload_path s) SHELL_UPLOAD_PATH_MAX in
  shell_reset_upload_state ;;
  (if success then
     logf e "[shell] received %s size=%lu" [LogStr (Some path); LogNum size] ;;
     whenM (negb (buffer =? 0)) (m_fs (fs_kfree buffer))
   else
     whenM (negb (buffer =? 0)) (m_fs (fs_kfree buffer) ;; sayln "[shell] receive aborted")) ;;
  shell_print_prompt.

(** The command of a line; the task it waits for, if it does. *)
Definition shell_command (e : sys_env) (raw_line : string) (argv : list string) : M W (option Z) :=
  let arg i word := match argv !! i with Some t => shell_streq t word | None => false end in
  let plain (m : M W unit) : M W (option Z) := m ;; mret None in
  if arg 0%nat "help"%string then plain shell_cmd_help
  else if arg 0%nat "read"%string then plain (shell_cmd_read e argv)
  else if arg 0%nat "write"%string then plain (shell_cmd_write e raw_line)
  else if arg 0%nat "ps"%string || (arg 0%nat "show"%string && arg 1%nat "process"%string) then plain (sched_dump_tasks e)
  else if arg 0%nat "mem"%string || arg 0%nat "memory"%string || (arg 0%nat "show"%string && arg 1%nat "memory"%string)
  then plain (shell_cmd_memory e)
  else if arg 0%nat "load"%string then plain (shell_cmd_load e argv)
  else if arg 0%nat "unload"%string then shell_cmd_unload e argv
  else if arg 0%nat "receive"%string then plain (shell_cmd_receive e argv)
  else plain (logf e "[shell] unknown command: %s" [LogStr (argv !! 0%nat)]).

Definition shell_execute (e : sys_env) (line : string) : M W (option Z) :=
  let raw_line := shell_copy_line line SHELL_INPUT_MAX in
  let argv := shell_tokenize line in
  if bool_decide (argv = []) then mret None else
  m_k (k_mach (spin_lock_irqsave L_shell)) ;;
  waits ← shell_command e raw_line argv;
  whenM (bool_decide (waits = None)) (m_k (k_mach (spin_unlock_irqrestore L_shell))) ;;
  mret waits.

(** ** Input *)

Definition shell_init : M W unit :=
  upd_shell (λ s, s <| shell_input := EmptyString |>) ;;
  shell_reset_upload_state ;;
  sayln "[shell] ready" ;;
  shell_print_prompt.

(** The end of a line, when its command has ended. *)
Definition shell_line_done (waits : option Z) : M W shell_outcome :=
  match waits with
  | Some task_id => mret (ShellWaits task_id)
  | None =>
      upd_shell (λ s, s <| shell_input := EmptyString |>) ;;
      shell_print_prompt ;;
      mret (ShellReturns 1)
  end.

(** The file that was received goes to the RAM file system. *)
Definition upload_register (e : sys_env) : M W unit :=
  s ← get_shell;
  ok ← m_fs (fs_register_file (shell_upload_path s) (shell_upload_buffer s) (shell_upload_size s));
  shell_finish_upload e ok.

(** A character of the hex stream. *)
Definition shell_upload_char (e : sys_env) (ch : Z) : M W unit :=
  s ← get_shell;
  if shell_is_space ch then mret () else
  if shell_upload_size s <=? shell_upload_received s then upload_register e else
  let value := shell_hex_value ch in
  if value <? 0 then shell_finish_upload e false else
  if shell_upload_high_nibble_valid s =? 0 then
    upd_shell (λ s, s <| shell_upload_high_nibble := value |> <| shell_upload_high_nibble_valid := 1 |>)
  else
  m_k (k_mach (store8 (u64 (shell_upload_buffer s + shell_upload_received s))
                 (u8 (Z.lor (Z.shiftl (shell_upload_high_nibble s) 4) value)))) ;;
  upd_shell (λ s, s <| shell_upload_received := shell_upload_received s + 1 |> <| shell_upload_high_nibble_valid := 0 |>) ;;
  s ← get_shell;
  whenM (shell_upload_received s =? shell_upload_size s) (upload_register e).

Definition shell_poll (e : sys_env) (rx : option Z) : M W shell_outcome :=
  s ← get_shell;
  match console_try_getc rx with
  | None => mret (ShellReturns 0)
  | Some ch =>
      if negb (shell_upload_buffer s =? 0) then shell_upload_char e ch ;; mret (ShellReturns 1) else
      if (ch =? 13) || (ch =? 10) then
        sayln "" ;;
        waits ← shell_execute e (shell_input s);
        shell_line_done waits
      else if (ch =? 8) || (ch =? 127) then
        whenM (negb (shell_streq (shell_input s) EmptyString))
          (upd_shell (λ s, s <| shell_input := String.substring 0 (String.length (shell_input s) - 1) (shell_input s) |>) ;;
           say (String "008" (String " " (String "008" EmptyString)))) ;;
        mret (ShellReturns 1)
      else if negb (shell_is_printable ch) then mret (ShellReturns 1)
      else if SHELL_INPUT_MAX - 1 <=? Z.of_nat (String.length (shell_input s)) then
        say newline ;; sayln "[shell] input too long" ;;
        upd_shell (λ s, s <| shell_input := EmptyString |>) ;;
        shell_print_prompt ;;
        mret (ShellReturns 1)
      else
        upd_shell (λ s, s <| shell_input := shell_input s +:+ String (ascii_of_N (Z.to_N ch)) EmptyString |>) ;;
        m_fs (log_putc ch) ;;
        mret (ShellReturns 1)
  end.

(** The rest of a line whose command waited, when the CPU runs the shell again. *)
Definition shell_resume (e : sys_env) (task_id : Z) : M W shell_outcome :=
  waits ← shell_unload_wait e task_id;
  whenM (bool_decide (waits = None)) (m_k (k_mach (spin_unlock_irqrestore L_shell))) ;;
  shell_line_done waits.

(** ** [kernel_main] *)

(** Up to its loop; [run_demos] is CONFIG_RUN_OS_DEMOS, [builtins] the linker's
    table of files. *)
Definition kernel_main (e : sys_env) (vbar : Z) (builtins : list ramfs_builtin_file) (run_demos : bool) : M W unit :=
  forM_ (upto 0 4) (λ i, m_k (k_t (upd_task (Some i) (λ t, t <| next := Some ((i + 1) mod 4) |>)))) ;;
  m_k (k_t (secondary_start 0)) ;;
  m_k (KER_INFO (se_cpu e) "kernel_main: jumped to high virtual address") ;;
  m_b (b_irq (exception_init vbar)) ;;
  m_k (k_vm mmu_install_empty_ttbr0_root) ;;
  m_k (k_vm (up (S := P) be_heap_init)) ;;
  m_fs (fs_init builtins) ;;
  m_k (k_y ipc_init) ;;
  m_b (b_irq arch_local_irq_enable) ;;
  whenM run_demos (m_k (kernel_start_user_services e)) ;;
  m_k (KER_INFO (se_cpu e) "kernel init complete") ;;
  m_b (driver_system_dump (se_cpu e)) ;;
  shell_init.

(** One round of the loop; the shell's command may wait. *)
Definition kernel_main_round (e : sys_env) (rx : option Z) : M W shell_outcome :=
  m_b (upd_statics (λ b, b <| boot_heartbeat := u64 (boot_heartbeat b + 1) |>)) ;;
  r ← shell_poll e rx;
  match r with
  | ShellReturns 0 => m_k (schedule (se_cpu e)) ;; mret r
  | _ => mret r
  end.

End shell.

Arguments main_state P : clear implicits.

(** ** The shell reads the numbers that the kernel prints *)

(** The string with these character codes. *)
Definition text_of (codes : list Z) : string := String.string_of_list_ascii ((λ c, ascii_of_N (Z.to_N c)) <$> codes).

Lemma char_code_of c : 0 ≤ c < 256 → char_code (ascii_of_N (Z.to_N c)) = c.
Proof. intros Hc. unfold char_code. rewrite N_ascii_embedding by lia. lia. Qed.

Lemma string_codes_text codes : Forall (λ c, 0 ≤ c < 256) codes → string_codes (text_of codes) = codes.
Proof.
  unfold string_codes, text_of. rewrite String.list_ascii_of_string_of_list_ascii, <- list_fmap_compose.
  intros Hc. rewrite <- (list_fmap_id codes) at 2. apply list_fmap_ext. intros i c Hi.
  apply char_code_of. by eapply Forall_lookup_1 in Hc.
Qed.

Lemma text_cons c codes : text_of (c :: codes) = String (ascii_of_N (Z.to_N c)) (text_of codes).
Proof. done. Qed.

(** The value after more digits in base [b]. *)
Definition read_from (b acc : Z) (ds : list Z) : Z := foldl (λ acc d, b * acc + d) acc ds.

Lemma read_from_ge b acc ds : 1 ≤ b → 0 ≤ acc → Forall (λ d, 0 ≤ d) ds → acc ≤ read_from b acc ds.
Proof.
  intros Hb. revert acc. induction ds as [|d ds IH]; intros acc Ha Hd; [done|]. apply Forall_cons in Hd as [Hd Hds]. cbn.
  specialize (IH (b * acc + d) ltac:(nia) Hds). unfold read_from in *. nia.
Qed.

(** Digits that read below [2 ^ 64] are parsed to their value. *)
Lemma parse_digits_read b ds acc seen codes : 1 ≤ b → 0 ≤ acc → Forall2 (λ c d, 0 ≤ c < 256 ∧ 0 ≤ d ∧ ulong_digit b c = Some d) codes ds →
  read_from b acc ds < 2 ^ 64 → (seen || negb (bool_decide (ds = []))) = true →
  parse_digits b (text_of codes) acc seen = Some (read_from b acc ds).
Proof.
  intros Hb Ha Hf. revert acc seen Ha. induction Hf as [|c d codes ds (Hc & Hd & Hu) Hf IH]; intros acc seen Ha Hlt Hs.
  { cbn in *. by destruct seen. }
  assert (Forall (λ d, 0 ≤ d) ds) as Hds by (clear -Hf; induction Hf as [|? ? ? ? (_ & ? & _)]; constructor; done).
  pose proof (read_from_ge b (b * acc + d) ds Hb ltac:(nia) Hds) as Hge. change (read_from b acc (d :: ds)) with (read_from b (b * acc + d) ds) in *.
  rewrite text_cons. cbn [parse_digits]. rewrite char_code_of by done. rewrite Hu.
  rewrite (u64_small (acc * b)) by nia. rewrite u64_small by nia. replace (acc * b + d) with (b * acc + d) by lia.
  apply IH; [nia|done|done].
Qed.

Lemma decimal_code d : 0 ≤ d < 10 → 0 ≤ 48 + d < 256 ∧ 0 ≤ d ∧ ulong_digit 10 (48 + d) = Some d.
Proof.
  intros Hd. split; [lia|]. split; [lia|]. unfold ulong_digit. btrue (48 <=? 48 + d). btrue (48 + d <=? 57). cbn [andb]. f_equal. lia.
Qed.

Lemma hex_code value shift : let c := hex_digit value shift in 0 ≤ c < 256 ∧ 0 ≤ hex_value c ∧ ulong_digit 16 c = Some (hex_value c).
Proof.
  intros c. unfold c. destruct (hex_digit_value value shift) as [Hv Hc]. split; [lia|]. rewrite Hv.
  split; [change 0xf with (Z.ones 4); rewrite Z.land_ones by done; by apply Z.mod_pos_bound|]. rewrite <- Hv. clear Hv Hc.
  unfold hex_digit, hex_value, ulong_digit. change 0xf with (Z.ones 4). rewrite Z.land_ones by done.
  pose proof (Z.mod_pos_bound (Z.shiftr value shift) (2 ^ 4) eq_refl). set (d := Z.shiftr value shift mod 2 ^ 4) in *. cbv zeta.
  destruct (d <? 10) eqn:Hd; bool_to_prop.
  - btrue (48 + d <? 58). btrue (48 <=? 48 + d). by btrue (48 + d <=? 57).
  - bfalse (87 + d <? 58). bfalse (87 + d <=? 57). rewrite andb_false_r. btrue (97 <=? 87 + d). btrue (87 + d <=? 102). cbn. f_equal. lia.
Qed.

(** Text that does not start like a hexadecimal number is decimal. *)
Lemma parse_decimal_text codes : Forall (λ c, 0 ≤ c < 88) codes → shell_parse_ulong (text_of codes) = parse_digits 10 (text_of codes) 0 false.
Proof.
  intros Hc. destruct codes as [|a [|b codes]]; [done..|]. apply Forall_cons in Hc as [_ [Hb _]%Forall_cons].
  rewrite !text_cons. unfold shell_parse_ulong. rewrite (char_code_of b) by lia. bfalse (b =? 120). bfalse (b =? 88). by rewrite andb_false_r.
Qed.

(** Whatever number the kernel prints, in decimal or in hexadecimal, the shell
    reads back when it is typed in. *)
Theorem shell_reads_printed_numbers {P} `{FrameEnv P} value : 0 ≤ value < 2 ^ 64 →
  (∃ text, prints (log_write_u64_unlocked (P := P) value) () (string_codes text) ∧ shell_parse_ulong text = Some value) ∧
  (∃ text, prints (console_write_hex_unlocked (P := P) value) () (string_codes text) ∧ shell_parse_ulong text = Some value).
Proof.
  intros Hv. split.
  - destruct (log_u64_reads_back (P := P) value Hv) as (ds & Hp & Hd & Hlen & Hr). exists (text_of ((λ d, 48 + d) <$> ds)).
    assert (Forall2 (λ c d, 0 ≤ c < 256 ∧ 0 ≤ d ∧ ulong_digit 10 c = Some d) ((λ d, 48 + d) <$> ds) ds) as Hf.
    { clear -Hd. induction Hd as [|d ds Hd _ IH]; [constructor|]. constructor; [by apply decimal_code|exact IH]. }
    assert (Forall (λ c, 0 ≤ c < 88) ((λ d, 48 + d) <$> ds)) as Hc.
    { apply Forall_fmap. eapply Forall_impl; [exact Hd|]. cbn. lia. }
    rewrite string_codes_text by (eapply Forall_impl; [exact Hc|cbn; lia]). split; [exact Hp|].
    rewrite parse_decimal_text by done. change (read_base 10 ds) with (read_from 10 0 ds) in Hr. rewrite <- Hr.
    apply parse_digits_read; try done; [lia|]. destruct ds; [cbn in Hlen; lia|done].
  - destruct (hex_reads_back (P := P) value Hv) as (cs & Hp & Hlen & Hcs & Hr). exists (text_of (48 :: 120 :: cs)).
    rewrite string_codes_text by (repeat constructor; [lia..|]; eapply Forall_impl; [exact Hcs|intros c [shift ->]; apply hex_code]).
    split; [exact Hp|]. rewrite !text_cons. change (shell_parse_ulong _) with (parse_digits 16 (text_of cs) 0 false).
    change (read_base 16 (hex_value <$> cs)) with (read_from 16 0 (hex_value <$> cs)) in Hr. rewrite <- Hr.
    apply parse_digits_read; try done; [|lia|by destruct cs].
    clear -Hcs. induction Hcs as [|c cs [shift ->] _ IH]; [constructor|]. constructor; [apply hex_code|exact IH].
Qed.

(** ** A run of the whole kernel

    The machine is switched on, the kernel boots, a program of 124 bytes that is
    built into it is loaded by the shell and runs: it asks for its id, writes its
    four bytes of text, tries to write from an unmapped page, and exits.  The
    program is code of the user's; what is run is what the kernel does at each of
    its [svc] instructions. *)

Module Session.

Definition kernel0 : kstate kheap :=
  KState (YState
    (SState (OState (PState (FState (VState (BState (TState (HState
        (PaState (Machine ∅ [] true []) 0 0 0 0 0 0 0 0 ∅) 0 0 0 0 0 0) [] 0) 0 0 0 0 0 0 0) 0 0 ∅ ∅ ∅ 0 0 ∅)
      [] [] (replicate (Z.to_nat RAMFS_FILES_MAX) ramfs_node0) ∅ []) 0) ∅) ∅ ∅ 0 0 0 0 ∅ ∅)
    (Pool ∅ ∅ ∅) (Pool ∅ ∅ ∅) (Pool ∅ ∅ ∅) ∅) 0x7000000000.
(** Translation is on from the start, so that [mmu_init] has no boot tables to
    build. *)
Definition machine_off : main_state kheap :=
  MainState (BootState (XState kernel0 (TimerState 0 0 0)) (BootStatics 0 0 0 0 0 0 0 0 0)) (ShellState EmptyString 0 0 0 0 0 EmptyString).

(** The kernel's image ends 256 pages below the end of memory. *)
Definition image_layout : layout :=
  Layout 0x40080000 0x40100000 0x40100000 0x40120000 0x40120000 0x40130000 0x40130000 0x40140000
         0x40150000 0x40160000 0x40140000 0x40141000 0x47F00000.
Definition session_env : sys_env :=
  SysEnv 0 0x40081000 0x40082000 (pa_to_va 0x40090000) (pa_to_va 0x40091000) (Vmsa.Process EmptyString 0 0 0 0 0 0 0 [] [] 0 0 0).

(** An ELF header, one program header, and the text, in hexadecimal. *)
Definition program : string := String.concat EmptyString
  ["7f454c460201010000000000000000000200b7000100000078004000000000004000000000000000";
   "00000000000000000000000040003800010000000000000001000000050000000000000000000000";
   "000040000000000000004000000000007c000000000000007c000000000000000010000000000000";
   "4869210a"]%string.
Fixpoint program_bytes (hex : list Z) : list Z :=
  match hex with
  | a :: b :: hex => shell_hex_value a * 16 + shell_hex_value b :: program_bytes hex
  | _ => []
  end.
Definition program_pa : Z := 0x40100000.

Definition power_on : M (main_state kheap) unit :=
  m_k (forM_ (imap pair (program_bytes (string_codes program))) (λ '(i, b), k_mach (store8 (program_pa + Z.of_nat i) b))) ;;
  m_b (kernel_main_early image_layout 0x40080800 0x40080000 (CpuRegs 2 0 62500000) (PsciAnswers 0x10001 (λ _, 0) (λ _, true)) 0 0) ;;
  kernel_main session_env (pa_to_va 0x40080800) [Builtin "/bin/p" (pa_to_va program_pa) (pa_to_va program_pa + 124)] true.
Definition type_text (text : string) : M (main_state kheap) unit :=
  forM_ (string_codes text) (λ c, _ ← kernel_main_round session_env (Some c); mret ()).
Definition type_line (line : string) : M (main_state kheap) unit := type_text line ;; type_text (String "013" EmptyString).

(** The current task executes [svc] with these registers: its frame is at the
    top of its kernel stack.  The value it gets back in [x0]. *)
Definition svc (nr x0 x1 x2 : Z) : M (main_state kheap) Z :=
  m_k (
    t ← sys_current 0;
    c ← sys_task t;
    let frame := u64 (stack_base c + stack_size c - EXCEPTION_CONTEXT_SIZE) in
    forM_ [(8, nr); (0, x0); (1, x1); (2, x2)] (λ '(i, v), k_mach (store64 (ctx_gpr frame i) v)) ;;
    _ ← exception_handle_sync session_env 8 (Z.shiftl ESR_EC_SVC64 ESR_EC_SHIFT) 0 0 0 frame;
    k_mach (load64 (ctx_gpr frame 0))).

Definition run_session : M (main_state kheap) (list Z) :=
  power_on ;;
  type_line "load /bin/p" ;;
  _ ← kernel_main_round session_env None;
  pid ← svc SYS_GETPID 0 0 0;
  written ← svc SYS_WRITE 1 0x400078 4;
  bad ← svc SYS_WRITE 1 0x100000 4;
  _ ← svc SYS_EXIT 7 0 0;
  mret [pid; written; bad].

(** What the terminal shows from the shell's start on. *)
Definition console_text (w : main_state kheap) : string :=
  text_of (reverse (console_out (p_fs (o_proc (s_env (y_sched (k_sync (x_kernel (b_x (m_boot w)))))))))).
Definition crlf : string := String "013" newline.
Definition expected : string := String.concat crlf
  ["[shell] ready";
   "os> load /bin/p";
   "[cpu0:idle0:0] [shell] loaded p as task id=4 entry=0x0000000000400078 brk=0x0000000000402000";
   "os> Hi!"; EmptyString]%string.
Definition suffix_of (text : string) (n : nat) : string := String.substring (String.length text - n) n text.

Example kernel_runs_a_program :
  match run_session machine_off with
  | Some (results, w) => bool_decide (results = [4; 4; SYS_ERROR]) && String.eqb (suffix_of (console_text w) (String.length expected)) expected
  | None => false
  end = true.
Proof. vm_compute. reflexivity. Qed.

End Session.
