(* ===== verification/IrqClaims.v ===== *)
(** * Interrupts: what the handler leaves, and its property

    [preserves R m]: every run of [m] moves the state along [R].  With it the
    calls of the interrupt path are shown to touch neither the interrupt
    controller nor the nesting depths ([quiet]); the scheduler's theorems say
    what they do to the tasks. *)

From S2P Require Import Prelude Machine PageAllocSpec Heap HeapSpec Task WaitQueue Sched SchedQueue SchedInv SchedOps SchedLife SchedSwitch SchedSys SchedClaims Exception.

Open Scope kernel_scope.

Section preserves.
Context {S : Type} (R : S → S → Prop) `{!PreOrder R}.

Definition preserves {A} (m : M S A) : Prop := ∀ s a s', m s = Some (a, s') → R s s'.

Lemma preserves_ret {A} (a : A) : preserves (mret a).
Proof. by intros s b s' [= _ <-]. Qed.
Lemma preserves_gets {A} (f : S → A) : preserves (gets f).
Proof. by intros s b s' [= _ <-]. Qed.
Lemma preserves_modify (f : S → S) : (∀ s, R s (f s)) → preserves (modify f).
Proof. intros Hf s b s' [= _ <-]. apply Hf. Qed.
Lemma preserves_bind {A B} (m : M S A) (k : A → M S B) : preserves m → (∀ a, preserves (k a)) → preserves (m ≫= k).
Proof.
  intros Hm Hk s b s' Hs. unfold mbind, M_bind in Hs. destruct (m s) as [[a s1]|] eqn:He; [|done].
  etrans; [by eapply Hm|by eapply Hk].
Qed.
Lemma preserves_if {A} (b : bool) (m1 m2 : M S A) : preserves m1 → preserves m2 → preserves (if b then m1 else m2).
Proof. by destruct b. Qed.
Lemma preserves_when (b : bool) (m : M S unit) : preserves m → preserves (whenM b m).
Proof. destruct b; [done|]. intros _. apply preserves_ret. Qed.
Lemma preserves_fold {A B} (l : list A) (f : B → A → M S B) : (∀ b a, preserves (f b a)) → ∀ b, preserves (foldM l f b).
Proof. intros Hf. induction l as [|a l IH]; intros b; [apply preserves_ret|]. by apply preserves_bind. Qed.

Lemma wp_preserved {A} (m : M S A) (Q : A → S → Prop) s : preserves m → wp m Q s →
  wp m (λ a s', Q a s' ∧ m s = Some (a, s') ∧ R s s') s.
Proof. intros Hp. unfold wp. destruct (m s) as [[a s']|] eqn:He; [|done]. intros HQ. split; [done|]. split; [done|by eapply Hp]. Qed.

End preserves.

(** One step along the text of the code. *)
Ltac preserves_step :=
  lazymatch goal with
  | |- preserves _ (_ ≫= _) => apply preserves_bind; [apply _| |intros ?]
  | |- preserves _ (mret _) => apply preserves_ret; apply _
  | |- preserves _ (gets _) => apply preserves_gets; apply _
  | |- preserves _ (whenM _ _) => apply preserves_when; [apply _|]
  | |- preserves _ (if _ then _ else _) => apply preserves_if
  | |- preserves _ (match ?x with (_, _) => _ end) => destruct x
  | |- preserves _ (foldM _ _ _) => apply preserves_fold; [apply _|intros ? ?]
  end.

(** ** The interrupt controller's registers in the trace *)

Inductive gic_access : Type := GicAck (iar : Z) | GicEoi (iar : Z).

Definition gic_of (ev : event) : option gic_access :=
  match ev with
  | Ev_sysreg nm v => if String.eqb nm "icc_iar1_el1" then Some (GicAck v)
                      else if String.eqb nm "icc_eoir1_el1" then Some (GicEoi v) else None
  | _ => None
  end.

(** The accesses, newest first. *)
Definition gic_log (m : machine) : list gic_access := omap gic_of (m_trace m).

(** What the handler of the shootdown interrupt promises. *)
Class IrqEnvLaws (P : Type) `{SchedEnvLaws P, !IrqEnv P} := {
  irq_shootdown_law : ∀ (p : P) cpu, ps_ok p → m_held (sub_get p) = [] → 0 ≤ cpu < 4 →
    wp (irq_shootdown cpu) (λ _ p', ps_ok p' ∧ m_held (sub_get p') = [] ∧
                                    gic_log (sub_get p') = gic_log (sub_get p)) p;
}.

Section irq.
Context {P : Type} `{IrqEnvLaws P}.
Implicit Types s : sstate P.

Definition quiet s s' : Prop :=
  gic_log (smachine s') = gic_log (smachine s) ∧ ∀ c, irq_depth (rq_at s' c) = irq_depth (rq_at s c).

#[global] Instance quiet_preorder : PreOrder quiet.
Proof.
  split; [done|]. intros s1 s2 s3 [Hg Hd] [Hg' Hd']. split; [congruence|]. intros c. by rewrite Hd'.
Qed.

Lemma quiet_mach {A} (m : M machine A) : (∀ k a k', m k = Some (a, k') → gic_log k' = gic_log k) →
  preserves quiet (up (S := P) (up m) : M (sstate P) A).
Proof.
  intros Hm s a s' Hs. unfold up in Hs. destruct (m (sub_get (sub_get s))) as [[b k]|] eqn:He; [|done].
  injection Hs as _ <-. split; [|done]. change (gic_log (sub_get (sub_set k (s_env s))) = gic_log (sub_get (s_env s))).
  rewrite sub_get_set. by eapply Hm.
Qed.

Lemma quiet_emit ev : gic_of ev = None → preserves quiet (up (S := P) (up (emit ev)) : M (sstate P) unit).
Proof. intros He. apply quiet_mach. intros k a k' [= _ <-]. unfold gic_log. cbn. by rewrite He. Qed.

Lemma quiet_lock : preserves quiet lock_sched.
Proof.
  apply quiet_mach. intros k a k'. unfold spin_lock_irqsave. by destruct (can_lock _ _); intros [= _ <-].
Qed.
Lemma quiet_unlock : preserves quiet unlock_sched.
Proof.
  apply quiet_mach. intros k a k'. unfold spin_unlock_irqrestore. destruct (m_held k); [done|].
  by destruct (decide _); intros [= _ <-].
Qed.

Lemma quiet_tasks {A} (m : M tasktab A) : preserves quiet (up m : M (sstate P) A).
Proof. intros s a s' Hs. unfold up in Hs. destruct (m (sub_get s)) as [[b k]|]; [|done]. by injection Hs as _ <-. Qed.
Lemma quiet_get_rq c : preserves quiet (get_rq c).
Proof. intros s a s'. unfold get_rq. by destruct (cpu_ok c); intros [= _ <-]. Qed.
Lemma quiet_upd_rq c f : (∀ q, irq_depth (f q) = irq_depth q) → preserves quiet (upd_rq c f).
Proof.
  intros Hf s a s'. unfold upd_rq. destruct (cpu_ok c); intros [= _ <-]. split; [done|]. intros c'. unfold rq_at at 1. cbn. rewrite lookup_insert.
  case_decide; [subst; apply Hf|done].
Qed.

Lemma quiet_least : preserves quiet sched_least_loaded_cpu_locked.
Proof.
  unfold sched_least_loaded_cpu_locked. repeat preserves_step; first [apply quiet_get_rq|apply preserves_modify; by split|idtac].
  destruct b. repeat preserves_step. apply quiet_get_rq.
Qed.

Lemma quiet_enqueue t cpu : preserves quiet (sched_rq_enqueue_locked t cpu).
Proof.
  unfold sched_rq_enqueue_locked. repeat preserves_step; try apply quiet_tasks; try apply quiet_get_rq; by apply quiet_upd_rq.
Qed.

Lemma quiet_make_ready t : preserves quiet (sched_make_ready_locked t).
Proof.
  unfold sched_make_ready_locked. repeat preserves_step; try apply quiet_tasks.
  - apply quiet_least.
  - apply quiet_enqueue.
  - by apply quiet_upd_rq.
Qed.

Lemma quiet_tick cpu : preserves quiet (sched_tick cpu).
Proof.
  unfold sched_tick, gic_send_ipi. repeat preserves_step; try apply quiet_tasks.
  all: first [apply quiet_lock|apply quiet_unlock|apply quiet_make_ready|by apply quiet_emit|by apply quiet_upd_rq].
Qed.

(** A spurious call aside, a tick leaves a reschedule request on its CPU. *)
Lemma tick_requests cpu s a s' : cpu_ok cpu = true → sched_tick cpu s = Some (a, s') → need_resched (rq_at s' cpu) = 1.
Proof.
  intros Hc. unfold sched_tick, mbind, M_bind. destruct (lock_sched s) as [[? s1]|]; [|done].
  match goal with |- context [if cpu =? 0 then ?m else ?k] => destruct ((if cpu =? 0 then m else k) s1) as [[mask s2]|]; [|done] end.
  apply cpu_ok_spec in Hc as Hb. unfold SCHED_MAX_CPUS. btrue (cpu <? 4). cbn [whenM]. unfold upd_rq at 1. rewrite Hc.
  set (s3 := s2 <| run_queues := _ |>). assert (need_resched (rq_at s3 cpu) = 1) as H3.
  { unfold rq_at, s3. cbn. by rewrite lookup_insert_eq. }
  clearbody s3. destruct (unlock_sched s3) as [[? s4]|] eqn:Hu; [|done].
  assert (run_queues s4 = run_queues s3) as H4.
  { unfold unlock_sched, up, spin_unlock_irqrestore in Hu. destruct (m_held _); [done|]. destruct (decide _); [|done]. by injection Hu as _ <-. }
  destruct (negb _); cbn [whenM]; intros Hs; [|injection Hs as _ <-; unfold rq_at; by rewrite H4].
  unfold gic_send_ipi, up, emit, modify in Hs. injection Hs as _ <-. unfold rq_at. cbn. by rewrite H4.
Qed.

(** ** Depth *)

Definition depth_to (c d : Z) s : sstate P :=
  s <| run_queues := <[c := (rq_at s c) <| irq_depth := d |>]> (run_queues s) |>.

Lemma rq_at_depth c d s c' : rq_at (depth_to c d s) c' = if decide (c = c') then (rq_at s c) <| irq_depth := d |> else rq_at s c'.
Proof. unfold rq_at, depth_to. cbn. rewrite lookup_insert. by case_decide. Qed.

Lemma kept_depth hole L s s' c d : kept hole L s s' → kept hole L s (depth_to c d s').
Proof.
  intros ((Q & Hi) & Hh & Hcu). split; [|done]. exists Q.
  by apply (inv_rq_fields _ _ _ _ c (λ q, q <| irq_depth := d |>)).
Qed.

Lemma irq_enter_run c s : cpu_ok c = true → 0 ≤ irq_depth (rq_at s c) < 2 ^ 32 - 1 →
  sched_irq_enter c s = Some ((), depth_to c (irq_depth (rq_at s c) + 1) s).
Proof.
  intros Hc Hd. apply cpu_ok_spec in Hc as Hb. unfold sched_irq_enter, SCHED_MAX_CPUS. btrue (c <? 4).
  unfold upd_rq. rewrite Hc, u32_small by lia. done.
Qed.

Lemma irq_exit_run c i s : cpu_ok c = true → curr s c = Some i → slot_ok i = true → 0 < irq_depth (rq_at s c) →
  sched_irq_exit c s = Some ((irq_depth (rq_at s c) =? 1) && negb (need_resched (rq_at s c) =? 0) && (preempt_count (tk s i) =? 0),
                             depth_to c (irq_depth (rq_at s c) - 1) s).
Proof.
  intros Hc Hcu Hi Hd. apply cpu_ok_spec in Hc as Hb. unfold sched_irq_exit, sched_current, arch_get_current_task, SCHED_MAX_CPUS.
  unfold mbind, M_bind at 1, gets. change (cur_task s !! c) with (curr s c). rewrite Hcu. bfalse (4 <=? c).
  unfold M_bind at 1, get_rq. rewrite Hc. bfalse (irq_depth (rq_at s c) =? 0). unfold M_bind at 1, upd_rq. rewrite Hc.
  fold (depth_to c (irq_depth (rq_at s c) - 1) s). rewrite is_null_some, andb_true_r.
  replace (irq_depth (rq_at s c) - 1 =? 0) with (irq_depth (rq_at s c) =? 1) by (apply eq_true_iff_eq; rewrite !Z.eqb_eq; lia).
  destruct (_ && _); [|done]. unfold M_bind, get_task, up, tget. rewrite Hi. by destruct s.
Qed.

(** ** What is done between acknowledging and ending an interrupt *)

Implicit Types x : irq_state P.

Definition on_sched x s : irq_state P := x <| irq_sched := s |>.

Lemma wp_irq_sched {A} (m : M (sstate P) A) (Q : A → irq_state P → Prop) x :
  wp m (λ a s', Q a (on_sched x s')) (irq_sched x) → wp (up m) Q x.
Proof. intros Hm. apply wp_up. exact Hm. Qed.

(** A step of the handler: the scheduler's state moved along [R]. *)
Definition irq_moves hole L x x' : Prop :=
  kept hole L (irq_sched x) (irq_sched x') ∧ quiet (irq_sched x) (irq_sched x').

Lemma kept_trans hole L s1 s2 s3 : kept hole L s1 s2 → kept hole L s2 s3 → kept hole L s1 s3.
Proof. intros (_ & Hh & Hc) (Hq & Hh' & Hc'). split; [done|]. split; congruence. Qed.

Lemma wp_irq_emit hole L ev (Q : unit → irq_state P → Prop) x Qs : sched_inv hole L Qs (irq_sched x) →
  (∀ s', kept hole L (irq_sched x) s' → tasks s' = tasks (irq_sched x) → run_queues s' = run_queues (irq_sched x) →
     gic_log (smachine s') = from_option (λ g, [g]) [] (gic_of ev) ++ gic_log (smachine (irq_sched x)) → Q () (on_sched x s')) →
  wp (irq_emit ev) Q x.
Proof.
  intros Hi HQ. apply wp_irq_sched. rewrite !wp_up. apply wp_modify. apply HQ; [|done|done|].
  - split; [exists Qs; by apply inv_mach|]. split; [|done]. unfold sheld, smachine. cbn. by rewrite sub_get_set.
  - unfold smachine. cbn. rewrite sub_get_set. unfold gic_log. cbn. by destruct (gic_of ev).
Qed.

Lemma quiet_emitted s s' : run_queues s' = run_queues s → gic_log (smachine s') = gic_log (smachine s) → quiet s s'.
Proof. intros Hr Hg. split; [done|]. intros c. unfold rq_at. by rewrite Hr. Qed.

(** Only the timer's interrupt on CPU 0 advances the clock. *)
Definition is_tick (cpu intid : Z) : bool := (intid =? QEMU_VIRT_TIMER_PPI) && (cpu =? 0).

Record served hole L (cpu intid : Z) x x' : Prop := {
  sv_kept : kept hole L (irq_sched x) (irq_sched x');
  sv_quiet : quiet (irq_sched x) (irq_sched x');
  sv_tasks : ∀ j, slot_ok j = true → core (tk (irq_sched x') j) =
    core (if is_tick cpu intid then ticked (tk (irq_sched x) j) else tk (irq_sched x) j);
  sv_timer : timer_ticks (irq_timer x') =
    if is_tick cpu intid then u64 (timer_ticks (irq_timer x) + 1) else timer_ticks (irq_timer x);
  sv_resched : intid = QEMU_VIRT_TIMER_PPI → need_resched (rq_at (irq_sched x') cpu) = 1;
}.

(** An event that is none of the interrupt controller's. *)
Lemma wp_irq_note hole L cpu intid ev (Q : unit → irq_state P → Prop) x x' : gic_of ev = None →
  served hole L cpu intid x x' → (∀ x'', served hole L cpu intid x x'' → Q () x'') → wp (irq_emit ev) Q x'.
Proof.
  intros He [Hk Hq Ht Htm Hr] HQ. destruct Hk as ((Q0 & Hi) & Hh & Hc). eapply (wp_irq_emit hole L); [exact Hi|].
  intros s' Hk' Hta Hrq Hg. rewrite He in Hg. apply HQ. split.
  - eapply kept_trans; [|exact Hk']. split; [by exists Q0|done].
  - etrans; [exact Hq|]. by apply quiet_emitted.
  - intros j Hj. cbn. rewrite (tk_tasks (irq_sched x')) by done. by apply Ht.
  - exact Htm.
  - intros Hp. cbn. unfold rq_at. rewrite Hrq. by apply Hr.
Qed.

Lemma wp_tick hole L Q s cpu : sched_inv hole L Q s → sheld s = [] → cpu_ok cpu = true →
  wp (sched_tick cpu) (λ _ s', kept hole L s s' ∧ quiet s s' ∧ need_resched (rq_at s' cpu) = 1 ∧
    ∀ j, slot_ok j = true → core (tk s' j) = core (if cpu =? 0 then ticked (tk s j) else tk s j)) s.
Proof.
  intros Hi Hh Hc. eapply wp_mono; [apply (wp_preserved quiet); [apply quiet_tick|]|].
  - apply (sched_tick_spec hole L Q); [done|by rewrite Hh|done].
  - intros a s' ([Hk Ht] & Hrun & Hq). do 2 (split; [done|]). split; [by eapply tick_requests|done].
Qed.

Lemma served_refl hole L Q x cpu intid : sched_inv hole L Q (irq_sched x) → intid ≠ QEMU_VIRT_TIMER_PPI →
  served hole L cpu intid x x.
Proof.
  intros Hi Hne. assert (is_tick cpu intid = false) as Ht by (unfold is_tick; by bfalse (intid =? QEMU_VIRT_TIMER_PPI)).
  split; [by apply (kept_refl _ _ Q)|done|by rewrite Ht|by rewrite Ht|done].
Qed.

Lemma wp_irq_serve hole L Q x cpu vector_id intid : sched_inv hole L Q (irq_sched x) → sheld (irq_sched x) = [] →
  cpu_ok cpu = true → wp (irq_serve cpu vector_id intid) (λ _, served hole L cpu intid x) x.
Proof.
  intros Hi Hh Hc. unfold irq_serve. destruct (intid =? 0) eqn:Hz; bool_to_prop.
  { wp_step. apply (served_refl _ _ Q); [done|]. unfold QEMU_VIRT_TIMER_PPI. lia. }
  destruct (intid =? Vmsa.MMU_SHOOTDOWN_SGI) eqn:Hsg; bool_to_prop.
  - assert (intid ≠ QEMU_VIRT_TIMER_PPI) as Hne by (unfold Vmsa.MMU_SHOOTDOWN_SGI, QEMU_VIRT_TIMER_PPI in *; lia).
    apply wp_irq_sched. rewrite wp_up. eapply wp_mono; [apply irq_shootdown_law; [apply Hi|exact Hh|by apply cpu_ok_spec]|].
    intros [] p' (Hok & Hh' & Hg). assert (is_tick cpu intid = false) as Ht by (unfold is_tick; by bfalse (intid =? QEMU_VIRT_TIMER_PPI)).
    split; [|by split|by rewrite Ht|by rewrite Ht|done].
    split; [exists Q; by apply (inv_env _ _ _ (irq_sched x))|]. split; [|done]. unfold sheld, smachine. cbn. by rewrite Hh', <- Hh.
  - wp_step. unfold timer_handle_irq. destruct (intid =? QEMU_VIRT_TIMER_PPI) eqn:Ht; cbn [negb]; bool_to_prop.
    + set (x1 := if cpu =? 0 then x <| irq_timer := (irq_timer x) <| timer_ticks := u64 (timer_ticks (irq_timer x) + 1) |> |> else x).
      assert (irq_sched x1 = irq_sched x) as Hx1 by (unfold x1; by destruct (cpu =? 0)).
      wp_step. apply (wp_mono _ (λ _ y, y = x1)).
      { unfold x1. destruct (cpu =? 0); cbn [whenM]; by wp_step. }
      intros _ y ->. wp_step. apply wp_irq_sched. rewrite Hx1. eapply wp_mono; [by apply (wp_tick hole L Q)|].
      intros [] s' (Hk & Hq & Hr & Htk). set (x2 := on_sched x1 s').
      assert (served hole L cpu intid x x2) as Hs.
      { split; [done|done| | |done].
        - intros j Hj. unfold is_tick. rewrite Ht. by apply Htk.
        - unfold is_tick. rewrite Ht. cbn. unfold x1. by destruct (cpu =? 0). }
      clearbody x2. unfold timer_program_next_tick. do 4 wp_step.
      eapply (wp_irq_note hole L cpu intid); [done|exact Hs|]. intros x3 Hs3.
      eapply (wp_irq_note hole L cpu intid); [done|exact Hs3|]. intros x4 Hs4. wp_step. cbn [negb whenM]. by wp_step.
    + wp_step. cbn [negb whenM]. pose proof (served_refl _ _ _ _ cpu intid Hi Ht) as Hs. wp_step.
      eapply (wp_irq_note hole L cpu intid); [done|exact Hs|]. intros x3 Hs3.
      eapply (wp_irq_note hole L cpu intid); [done|exact Hs3|]. by intros x4 Hs4.
Qed.

(** ** The end of the handler *)

Lemma ticked_preempt t : preempt_count (ticked t) = preempt_count t.
Proof. unfold ticked, readied. by repeat case_match. Qed.

Lemma core_preempt t t' : core t = core t' → preempt_count t = preempt_count t'.
Proof. destruct t, t'. unfold core. cbn. by intros [=]. Qed.

(** Before [sched_irq_exit]: [x] is the state at the interrupt, [g] the log. *)
Record before_exit hole L (cpu intid : Z) (g : list gic_access) x x' : Prop := {
  be_kept : kept hole L (irq_sched x) (irq_sched x');
  be_depth : ∀ c, irq_depth (rq_at (irq_sched x') c) =
    irq_depth (rq_at (irq_sched x) c) + if decide (c = cpu) then 1 else 0;
  be_gic : gic_log (smachine (irq_sched x')) = g;
  be_tasks : ∀ j, slot_ok j = true → core (tk (irq_sched x') j) =
    core (if is_tick cpu intid then ticked (tk (irq_sched x) j) else tk (irq_sched x) j);
  be_timer : timer_ticks (irq_timer x') =
    if is_tick cpu intid then u64 (timer_ticks (irq_timer x) + 1) else timer_ticks (irq_timer x);
  be_resched : intid = QEMU_VIRT_TIMER_PPI → need_resched (rq_at (irq_sched x') cpu) = 1;
}.

Lemma be_served hole L cpu intid g x x1 x' : kept hole L (irq_sched x) (irq_sched x1) →
  (∀ c, irq_depth (rq_at (irq_sched x1) c) = irq_depth (rq_at (irq_sched x) c) + if decide (c = cpu) then 1 else 0) →
  gic_log (smachine (irq_sched x1)) = g → tasks (irq_sched x1) = tasks (irq_sched x) → irq_timer x1 = irq_timer x →
  served hole L cpu intid x1 x' → before_exit hole L cpu intid g x x'.
Proof.
  intros Hk Hd Hg Ht Htm [Hk' [Hq Hqd] Hts Htt Hr]. split.
  - by eapply kept_trans.
  - intros c. by rewrite Hqd.
  - by rewrite Hq.
  - intros j Hj. rewrite Hts by done. by rewrite !(tk_tasks (irq_sched x) (irq_sched x1)).
  - by rewrite Htt, Htm.
  - done.
Qed.

Lemma be_eoi hole L cpu intid g iar x x' (Q : unit → irq_state P → Prop) : before_exit hole L cpu intid g x x' →
  (∀ x'', before_exit hole L cpu intid (GicEoi iar :: g) x x'' → Q () x'') → wp (gic_end_of_interrupt iar) Q x'.
Proof.
  intros [Hk Hd Hg Ht Htm Hr] HQ. pose proof Hk as ((Q0 & Hi) & _). eapply (wp_irq_emit hole L); [exact Hi|].
  intros s' Hk' Hta Hrq Hlog. apply HQ. split.
  - by eapply kept_trans.
  - intros c. cbn. unfold rq_at. rewrite Hrq. apply Hd.
  - cbn. rewrite Hlog, Hg. done.
  - intros j Hj. cbn. rewrite (tk_tasks (irq_sched x')) by done. by apply Ht.
  - exact Htm.
  - intros Hp. cbn. unfold rq_at. rewrite Hrq. by apply Hr.
Qed.

Lemma wp_irq_leave hole L Q0 cpu i intid g x x' (Q : bool → irq_state P → Prop) : sched_inv hole L Q0 (irq_sched x) →
  cpu_ok cpu = true → curr (irq_sched x) cpu = Some i → 0 ≤ irq_depth (rq_at (irq_sched x) cpu) →
  before_exit hole L cpu intid g x x' →
  (∀ s', kept hole L (irq_sched x) s' → (∀ c, irq_depth (rq_at s' c) = irq_depth (rq_at (irq_sched x) c)) →
     gic_log (smachine s') = g → (∀ j, slot_ok j = true → core (tk s' j) =
       core (if is_tick cpu intid then ticked (tk (irq_sched x) j) else tk (irq_sched x) j)) →
     (intid = QEMU_VIRT_TIMER_PPI → need_resched (rq_at s' cpu) = 1) →
     Q ((irq_depth (rq_at (irq_sched x) cpu) =? 0) && negb (need_resched (rq_at s' cpu) =? 0)
          && (preempt_count (tk (irq_sched x) i) =? 0)) (on_sched x' s')) →
  wp (up (S := sstate P) (sched_irq_exit cpu)) Q x'.
Proof.
  intros Hi Hc Hcu Hd [Hk Hdep Hg Ht _ Hr] HQ. destruct (inv_current _ _ _ _ _ Hi Hc) as (i' & Hcu' & Hs & _).
  rewrite Hcu in Hcu'. injection Hcu' as <-. set (s := irq_sched x) in *. set (s' := irq_sched x') in *.
  assert (irq_depth (rq_at s' cpu) = irq_depth (rq_at s cpu) + 1) as Hdc by (by rewrite Hdep, decide_True).
  apply wp_irq_sched. fold s'. eapply wp_intro; [apply (irq_exit_run cpu i)|]; [done| |done|lia|].
  { unfold curr. destruct Hk as (_ & _ & ->). exact Hcu. }
  rewrite Hdc. replace (irq_depth (rq_at s cpu) + 1 - 1) with (irq_depth (rq_at s cpu)) by lia.
  replace (irq_depth (rq_at s cpu) + 1 =? 1) with (irq_depth (rq_at s cpu) =? 0) by (apply eq_true_iff_eq; rewrite !Z.eqb_eq; lia).
  assert (preempt_count (tk s' i) = preempt_count (tk s i)) as ->.
  { rewrite (core_preempt _ _ (Ht i Hs)). destruct (is_tick cpu intid); [apply ticked_preempt|done]. }
  set (s2 := depth_to cpu (irq_depth (rq_at s cpu)) s').
  assert (need_resched (rq_at s' cpu) = need_resched (rq_at s2 cpu)) as Hnr by (unfold s2; by rewrite rq_at_depth, decide_True).
  rewrite Hnr. apply HQ.
  - by apply kept_depth.
  - intros c. unfold s2. rewrite rq_at_depth. destruct (decide (cpu = c)) as [->|Hne]; [done|].
    rewrite Hdep, decide_False by done. lia.
  - exact Hg.
  - exact Ht.
  - by rewrite <- Hnr.
Qed.

End irq.

(** ** The claim *)

Section claims.
Context {P : Type} `{IrqEnvLaws P}.

(** C39.  [exception_handle_irq] is balanced.  From every state of the
    scheduler's invariant in which the CPU holds no lock, for every value of
    the acknowledge register, at every nesting depth below overflow, the
    handler returns; it has read the acknowledge register once and written the
    end-of-interrupt register once, with the value it read, unless the
    interrupt is spurious, and then not at all; the nesting depth of every CPU
    is what it was; the invariant, the locks and the current tasks are kept;
    tasks change only by the sleep ticks of the timer's interrupt on CPU 0,
    which also advances the clock by one; the timer's interrupt leaves a
    reschedule request; and the handler ends in [schedule] exactly when it is
    not nested, a reschedule is requested and the interrupted task allows
    preemption. *)
Theorem interrupt_balanced (hole : Z → Prop) L Q (x : irq_state P) cpu i vector_id iar :
  let s := irq_sched x in
  let intid := Z.land iar GIC_INTID_MASK in
  sched_inv hole L Q s → sheld s = [] → cpu_ok cpu = true → curr s cpu = Some i →
  0 ≤ irq_depth (rq_at s cpu) < 2 ^ 32 - 1 → 0 ≤ iar < 2 ^ 32 →
  ∃ b x', exception_handle_irq cpu vector_id iar x = Some (b, x') ∧ let s' := irq_sched x' in
    kept hole L s s' ∧
    (∀ c, irq_depth (rq_at s' c) = irq_depth (rq_at s c)) ∧
    gic_log (smachine s') = (if GIC_SPURIOUS <=? intid then [] else [GicEoi iar]) ++ GicAck iar :: gic_log (smachine s) ∧
    (∀ j, slot_ok j = true → core (tk s' j) = core (if is_tick cpu intid then ticked (tk s j) else tk s j)) ∧
    timer_ticks (irq_timer x') = (if is_tick cpu intid then u64 (timer_ticks (irq_timer x) + 1) else timer_ticks (irq_timer x)) ∧
    (intid = QEMU_VIRT_TIMER_PPI → need_resched (rq_at s' cpu) = 1) ∧
    b = (irq_depth (rq_at s cpu) =? 0) && negb (need_resched (rq_at s' cpu) =? 0) && (preempt_count (tk s i) =? 0).
Proof.
  intros s intid Hi Hh Hc Hcu Hd Hiar. apply wp_elim.
  unfold exception_handle_irq. wp_step. apply wp_irq_sched. eapply wp_intro; [by apply irq_enter_run|].
  fold s. set (s1 := depth_to cpu _ s).
  assert (kept hole L s s1) as Hk1 by (by apply kept_depth, (kept_refl _ _ Q)). pose proof Hk1 as ((Q1 & Hi1) & _).
  unfold gic_acknowledge_irq. do 2 wp_step. eapply (wp_irq_emit hole L); [exact Hi1|].
  intros s2 Hk2 Ht2 Hr2 Hg2. wp_step. rewrite u32_small by done. fold intid. set (x2 := on_sched _ s2).
  pose proof (kept_trans _ _ _ _ _ Hk1 Hk2) as Hk. pose proof Hk as ((Q2 & Hi2) & Hh2 & _).
  assert (∀ x3, served hole L cpu intid x2 x3 → before_exit hole L cpu intid (GicAck iar :: gic_log (smachine s)) x x3) as Hserved.
  { intros x3. apply be_served; try done. intros c.
    assert (rq_at s2 c = rq_at s1 c) as E by (unfold rq_at; by rewrite Hr2).
    change (irq_sched x2) with s2. rewrite E. unfold s1. rewrite rq_at_depth. fold s. destruct (decide (cpu = c)) as [->|Hne]; [by rewrite decide_True|].
    rewrite decide_False by done. lia. }
  assert (∀ x3 g, before_exit hole L cpu intid (g ++ GicAck iar :: gic_log (smachine s)) x x3 →
    wp (up (S := sstate P) (sched_irq_exit cpu)) (λ b x', let s' := irq_sched x' in
      kept hole L s s' ∧ (∀ c, irq_depth (rq_at s' c) = irq_depth (rq_at s c)) ∧
      gic_log (smachine s') = g ++ GicAck iar :: gic_log (smachine s) ∧
      (∀ j, slot_ok j = true → core (tk s' j) = core (if is_tick cpu intid then ticked (tk s j) else tk s j)) ∧
      timer_ticks (irq_timer x') = (if is_tick cpu intid then u64 (timer_ticks (irq_timer x) + 1) else timer_ticks (irq_timer x)) ∧
      (intid = QEMU_VIRT_TIMER_PPI → need_resched (rq_at s' cpu) = 1) ∧
      b = (irq_depth (rq_at s cpu) =? 0) && negb (need_resched (rq_at s' cpu) =? 0) && (preempt_count (tk s i) =? 0)) x3) as Hleave.
  { intros x3 g Hbe. eapply (wp_irq_leave hole L Q cpu i intid _ x); [exact Hi|exact Hc|exact Hcu|apply Hd|exact Hbe|].
    intros s' Hk' Hd' Hg' Ht' Hr'. do 4 (split; [done|]). split; [exact (be_timer _ _ _ _ _ _ _ Hbe)|done]. }
  destruct (GIC_SPURIOUS <=? intid) eqn:Hsp; bool_to_prop.
  - apply (Hleave x2 []), Hserved, (served_refl _ _ Q2); [exact Hi2|]. unfold GIC_SPURIOUS, QEMU_VIRT_TIMER_PPI in *. lia.
  - wp_step. eapply wp_mono; [apply (wp_irq_serve hole L Q2); [exact Hi2|exact (eq_trans Hh2 Hh)|exact Hc]|].
    intros [] x3 Hs3. wp_step. eapply be_eoi; [by apply Hserved|]. intros x4 Hx4. by apply (Hleave x4 [GicEoi iar]).
Qed.

End claims.

(** ** Witness: the timer's interrupt, then an inter-processor interrupt, on
    CPU 0 while a task runs there. *)

#[export] Instance bump_irq : IrqEnv bump := { irq_shootdown := λ cpu, up (emit (Ev_tlbi_asid 1)) }.
#[export, refine] Instance bump_irq_laws : IrqEnvLaws bump := {}.
Proof. intros b cpu Hok Hh Hc. done. Defined.

Definition irq_run : irq_state bump := IrqState sched_run (TimerState 41 62500000 31250000).

Lemma interrupt_balanced_witness :
  ∃ x', exception_handle_irq 0 9 27 irq_run = Some (true, x') ∧ timer_ticks (irq_timer x') = 42 ∧
    gic_log (smachine (irq_sched x')) = [GicEoi 27; GicAck 27] ∧ irq_depth (rq_at (irq_sched x') 0) = 0.
Proof.
  destruct (sched_reach_good closed sched_run sched_run_reach) as [(L & Q & Hi) Hh].
  assert (curr sched_run 0 = Some 4) as Hcu by (vm_compute; reflexivity).
  assert (irq_depth (rq_at sched_run 0) = 0) as Hd by (vm_compute; reflexivity).
  assert (gic_log (smachine sched_run) = []) as Hg by (vm_compute; reflexivity).
  assert (preempt_count (tk sched_run 4) = 0) as Hp by (vm_compute; reflexivity).
  destruct (interrupt_balanced closed L Q irq_run 0 4 9 27 Hi Hh eq_refl Hcu ltac:(change (irq_sched irq_run) with sched_run; rewrite Hd; lia) ltac:(lia))
    as (b & x' & Hrun & _ & Hdep & Hlog & _ & Htm & Hr & Hb).
  assert (b = true) as Hbt.
  { rewrite Hb, Hr by reflexivity. change (irq_sched irq_run) with sched_run. rewrite Hd, Hp. reflexivity. }
  exists x'. split; [rewrite <- Hbt; exact Hrun|]. split; [rewrite Htm; reflexivity|].
  split; [rewrite Hlog; change (irq_sched irq_run) with sched_run; rewrite Hg; reflexivity|]. rewrite Hdep. exact Hd.
Defined.
