(* ===== verification/SyscallClaims.v ===== *)
(** * Reading a file from user space

    [sys_read] end to end: the bytes go from the file's node through the
    handler's buffer to the caller's memory, 128 at a time.  [reading total]
    is the invariant of its loop: the first [total] bytes are in user memory,
    and nothing else of the machine changed but the buffer and the page tables
    of the caller. *)

From S2P Require Import Prelude Machine PageAlloc PageAllocSpec Heap Task WaitQueue Sched Sync Mutex Semaphore Condvar Ipc MmuTable MmuBoot Vmsa VmsaWalk VmsaFault VmBits VmsaSpec VmTree VmMap VmOwn VmBytes VmFrame VmFaultSpec VmCopy VmEnv VmStep VmLife VmCreate VmCtx VmSys VmView VmClaims Fs FsSpec KernelObjects FsSys FsClaims Process ProcSpec Kernel ProcTask Syscall.

Open Scope kernel_scope.

Section spec.
Context {P : Type} `{FrameLaws P, !StackPages P}.
Implicit Types (p : P) (s : vstate P) (t : treg) (X : gmap Z mm_context) (F : Z → tmap) (g : fstate P) (k : kstate P) (fl : gmap Z file).

(** ** The layers *)

Definition o_at k (o : ostate P) : kstate P :=
  k <| k_sync := (k_sync k) <| y_sched := (y_sched (k_sync k)) <| s_env := o |> |> |>.
Definition ost p t X s g (nb : Z) fl : ostate P := OState (pst p t X s g nb) fl.

Lemma wp_ko {A} (m : M (ostate P) A) (Q : A → kstate P → Prop) k o :
  wp m (λ a o', Q a (o_at k o')) o → wp (k_o m) Q (o_at k o).
Proof. intros Hm. unfold k_o, k_t, k_y, t_o. rewrite !wp_up. exact Hm. Qed.

Lemma wp_ofs {A} (m : M (fstate P) A) (Q : A → ostate P → Prop) g nb fl :
  wp m (λ a g', Q a (OState (PState g' nb) fl)) g → wp (o_fs m) Q (OState (PState g nb) fl).
Proof. intros Hm. apply wp_up, wp_pfs. exact Hm. Qed.

Lemma wp_kvm {A} (m : M (vstate P) A) (Q : A → kstate P → Prop) k p t X s g nb fl :
  wp m (λ a v', Q a (o_at k (OState (PState (fvm v' g) nb) fl))) (vst p t X s) →
  wp (k_vm m) Q (o_at k (ost p t X s g nb fl)).
Proof. intros Hm. apply wp_ko, wp_up, wp_pvm. exact Hm. Qed.

Lemma wp_get_file fp f (Q : file → ostate P → Prop) o : open_files o !! fp = Some f → Q f o → wp (get_file fp) Q o.
Proof. unfold wp, get_file. by intros ->. Qed.

(** The current task of the calling CPU. *)
Definition task_of k (cpu : Z) : option task :=
  let s := y_sched (k_sync k) in
  match cur_task s !! cpu with Some i => if slot_ok i then Some (task_at (tasks s) i) else None | None => None end.

(** ** A file's bytes *)

Definition file_byte p (n : ramfs_node) (j : Z) : Z := rd8 (pmem p) (va_to_pa (rn_data n) + j).

Lemma node_ok_xfer K R mm p X F p' X' F' n : vm_ok p X F → vm_xfer K R mm p X F p' X' F' → node_ok p X n → node_ok p' X' n.
Proof.
  intros Hk Hx Hn. pose proof Hn as [Hs Hb Hw]. split; [done|done|]. intros i Hi w.
  destruct (node_client p X F n i Hk Hn Hi) as [Hm Hu]. specialize (Hw i Hi). cbv zeta in Hw. fold w in Hw, Hm, Hu.
  destruct (rn_owns_data n); [by apply (xf_span _ _ _ _ _ _ _ _ _ Hx)|]. destruct Hw as (_ & _ & Hno).
  destruct (xf_kernel _ _ _ _ _ _ _ _ _ Hx (va_to_pa (rn_data n) + i)) as (Hm' & Hu' & _); [done|done|].
  split; [done|]. split; [done|]. intros b. rewrite (xf_span _ _ _ _ _ _ _ _ _ Hx). apply Hno.
Qed.

Lemma file_eta f : f <| f_offset := f_offset f |> = f.
Proof. by destruct f. Qed.

Section read.
Context (e : sys_env) (tk : task) (fp : Z) (f0 : file) (mnt i : Z) (n : ramfs_node) (buf len : Z).
Context (k : kstate P) (s : vstate P) (g : fstate P) (nb : Z) (fl : gmap Z file).
Context (p0 : P) (X0 : gmap Z mm_context) (F0 : Z → tmap) (c0 : mm_context).
Let mm := Task.mm tk.
Let kb := se_kbuf e.
Let off := f_offset f0.
Hypotheses (Hk0 : vm_ok p0 X0 F0) (HX0 : X0 !! mm = Some c0) (Hheld : pheld p0 = []).
Hypotheses (Hcur0 : cur_ok (task_space tk) mm p0 X0 s) (Hbuf : 0 ≤ buf) (Hend : buf + len ≤ 2 ^ 48) (Hlen : 0 ≤ len).
Hypotheses (Hkb : client_buf p0 X0 kb KBUF_SIZE) (Hkb0 : kb ≠ 0) (Ht : fs_tables g).
Hypotheses (Hvn : vnodes g !! f_vn f0 = Some (vnode_of mnt i)) (Hvn0 : f_vn f0 ≠ 0).
Hypotheses (Hi : 0 ≤ i) (Hn : ramfs_nodes g !! Z.to_nat i = Some n) (Hok : node_ok p0 X0 n) (Hoff : 0 ≤ off).
Hypothesis (Hap : ∀ j l, 0 ≤ j < KBUF_SIZE → 0 ≤ l < rn_size n →
  word_of (va_to_pa kb + j) ≠ word_of (va_to_pa (rn_data n) + l)).

(** The bytes the file still has for this call. *)
Definition wanted : Z := read_count n off len.

Lemma wanted_range : 0 ≤ wanted ≤ len ∧ (rn_size n <= off → wanted = 0) ∧ (off < rn_size n → wanted = Z.min len (rn_size n - off)).
Proof. unfold wanted, read_count. destruct (rn_size n <=? off) eqn:Hs; bool_to_prop; repeat split; lia. Qed.

(** The handler's buffer and the caller's. *)
Definition in_kbuf (a : Z) : Prop := va_to_pa kb ≤ a < va_to_pa kb + KBUF_SIZE.
Definition in_user (va : Z) : Prop := buf ≤ va < buf + len.

Record reading (total : Z) p X F : Prop := {
  rd_xfer : vm_xfer in_kbuf in_user mm p0 X0 F0 p X F;
  rd_same : ∀ j, 0 ≤ j < total → ubyte (pmem p) (F mm) (buf + j) = Some (file_byte p0 n (off + j)) ∧
    uaccess (pmem p) (F mm) true (buf + j);
}.

(** The file object after [c] bytes, and the state of the loop. *)
Definition file_at (c : Z) : gmap Z file := <[fp := f0 <| f_offset := off + c |>]> fl.
Definition read_state (fl' : gmap Z file) p t X : kstate P := o_at k (ost p t X s g nb fl').

Lemma reading_ctx total p X F : reading total p X F → ∃ c, X !! mm = Some c.
Proof. intros [Hx _]. destruct (xf_ctx _ _ _ _ _ _ _ _ _ Hx c0 HX0) as [l ?]. by eexists. Qed.

Lemma reading_held total p X F : reading total p X F → pheld p = [].
Proof. intros [Hx _]. rewrite <- Hheld. apply (xf_grows _ _ _ _ _ _ _ _ _ Hx). Qed.

Lemma reading_kbuf total p X F j : reading total p X F → 0 ≤ j < KBUF_SIZE →
  fe_mine p (word_of (va_to_pa kb + j)) ∧ untracked X (word_of (va_to_pa kb + j)).
Proof.
  intros [Hx _] Hj. destruct Hkb as (_ & _ & Hb). destruct (Hb j Hj) as [Hm Hu].
  by destruct (xf_kernel _ _ _ _ _ _ _ _ _ Hx _ Hm Hu) as (? & ? & _).
Qed.

Lemma reading_byte total p X F j : reading total p X F → 0 ≤ j < rn_size n →
  rd8 (pmem p) (va_to_pa (rn_data n) + j) = file_byte p0 n j.
Proof.
  intros [Hx _] Hj. destruct (node_client _ _ _ _ j Hk0 Hok Hj) as [Hm Hu].
  destruct (xf_kernel _ _ _ _ _ _ _ _ _ Hx _ Hm Hu) as (_ & _ & Hb). apply Hb. intros [Hlo Hhi].
  apply (Hap (va_to_pa (rn_data n) + j - va_to_pa kb) j); [lia|done|]. f_equal. lia.
Qed.

Lemma reading_cur total p X F : reading total p X F → cur_ok (task_space tk) mm p X s.
Proof.
  intros Hr Hq. destruct (Hcur0 Hq) as (_ & pr & Hpr & Hmm & Hreg). split; [by rewrite (reading_held _ _ _ _ Hr)|].
  exists pr. split; [done|]. split; [done|]. eapply Forall_impl; [exact Hreg|]. intros r. eapply region_src_kept, Hr.
Qed.

(** A step that writes no user byte before [total]. *)
Lemma reading_step (K R : Z → Prop) total p X F p' X' F' : reading total p X F → vm_xfer K R mm p X F p' X' F' →
  (∀ a, K a → in_kbuf a) → (∀ va, R va → in_user va ∧ buf + total ≤ va) → total ≤ len → reading total p' X' F'.
Proof.
  intros Hr Hx HK HR Htl. destruct (reading_ctx _ _ _ _ Hr) as [c HX]. destruct Hr as [Hx0 Hs]. split.
  - eapply xfer_trans; [exact Hx0|]. eapply xfer_weaken; [exact Hx|done|]. by intros va []%HR.
  - intros j Hj. destruct (Hs j Hj) as [Hb Ha]. split; [|by eapply uaccess_kept].
    eapply ubyte_kept; [exact Hx|exact HX|lia| |exact Hb]. intros [_ Hva]%HR. lia.
Qed.

Lemma reading_start : reading 0 p0 X0 F0.
Proof. split; [by apply xfer_refl|lia]. Qed.

(** ** The two halves of a round *)

Lemma wp_read_file total chunk fl' (Q : Z * file → kstate P → Prop) p t X F : reading total p X F → total ≤ len →
  0 ≤ total → 0 ≤ chunk ≤ KBUF_SIZE →
  (∀ p', let c := read_count n (off + total) chunk in reading total p' X F →
     (∀ j, 0 ≤ j < c → rd8 (pmem p') (va_to_pa kb + j) = file_byte p0 n (off + total + j)) →
     Q (c, f0 <| f_offset := off + (total + c) |>) (read_state fl' p' t X)) →
  wp (k_o (o_fs (fs_read (f0 <| f_offset := off + total |>) kb chunk))) Q (read_state fl' p t X).
Proof.
  intros Hr Htl Htot Hch HQ. pose proof (xf_ok _ _ _ _ _ _ _ _ _ (rd_xfer _ _ _ _ Hr)) as Hk.
  pose proof Hkb as ((Hk1 & Hk2 & Hk3) & Hu & _). unfold KBUF_SIZE in *.
  assert (kbuf kb chunk) as Hkc by (unfold kbuf; lia).
  apply wp_ko, wp_ofs. apply (wp_fs_read _ mnt i n _ _ _ _ _ _ _ F); try done.
  - by eapply node_ok_xfer; [exact Hk0|apply Hr|].
  - cbn. lia.
  - lia.
  - intros j Hj. apply (reading_kbuf _ _ _ _ j Hr). unfold KBUF_SIZE. lia.
  - intros j l Hj Hl. apply Hap; [unfold KBUF_SIZE; lia|done].
  - intros p' c Hw. cbn [f_offset setf] in *. assert (0 ≤ c ≤ chunk ∧ (0 < c → off + total + c ≤ rn_size n)) as [Hc Hcn].
    { unfold c, read_count. destruct (rn_size n <=? off + total) eqn:Hs; bool_to_prop; lia. }
    assert (vm_xfer in_kbuf nowhere mm p X F p' X F) as Hx.
    { eapply xfer_kernel; [exact Hk| | |exact Hw].
      { destruct (kbuf_at kb KBUF_SIZE 0 (proj1 Hkb)) as (_ & _ & _ & Hpa); [done|lia]. }
      intros j Hj. split; [apply (reading_kbuf _ _ _ _ j Hr); unfold KBUF_SIZE; lia|unfold in_kbuf, KBUF_SIZE; lia]. }
    specialize (HQ p'). fold c in HQ. rewrite Z.add_assoc in HQ.
    apply HQ.
    + eapply reading_step; [exact Hr|exact Hx|done|by intros va []|done].
    + intros j Hj. destruct (kbuf_at kb KBUF_SIZE 0 (proj1 Hkb)) as (_ & _ & _ & Hpa); [done|].
      rewrite (wt_bytes _ _ _ _ _ Hw) by lia. rewrite decide_True by lia.
      rewrite <- (reading_byte total p X F (off + total + j) Hr) by lia. do 3 f_equal. lia.
Qed.

Lemma wp_read_user total c fl' (Q : bool → kstate P → Prop) p t X F : reading total p X F → 0 ≤ total →
  0 < c ≤ KBUF_SIZE → total + c ≤ len →
  (∀ j, 0 ≤ j < c → rd8 (pmem p) (va_to_pa kb + j) = file_byte p0 n (off + total + j)) →
  (∀ p' t' X' F', reading (total + c) p' X' F' → Q true (read_state fl' p' t' X')) →
  (∀ p' t' X' F' j, reading total p' X' F' → total ≤ j < total + c → ¬ uaccess (pmem p0) (F0 mm) true (buf + j) →
     Q false (read_state fl' p' t' X')) →
  wp (k_vm (mmu_copy_to_user (task_space tk) mm (u64 (buf + total)) kb c)) Q (read_state fl' p t X).
Proof.
  intros Hr Htot Hc Hcl Hbytes HQt HQf. rewrite u64_small by lia. apply wp_kvm. unfold mmu_copy_to_user.
  bfalse (c =? 0). bfalse (kb =? 0). destruct (reading_ctx _ _ _ _ Hr) as [cx HX].
  pose proof (xf_ok _ _ _ _ _ _ _ _ _ (rd_xfer _ _ _ _ Hr)) as Hk.
  pose proof Hkb as ((Hk1 & Hk2 & Hk3) & Hu & _). unfold KBUF_SIZE in *.
  apply (wp_copy_user_range (task_space tk) mm true kb (buf + total) c s p X F cx); try done.
  - by rewrite (reading_held _ _ _ _ Hr).
  - by eapply reading_cur.
  - lia.
  - lia.
  - unfold kbuf. lia.
  - intros j Hj. apply (reading_kbuf _ _ _ _ j Hr). unfold KBUF_SIZE. lia.
  - lia.
  - intros r s' (j & p' & t' & X' & F' & -> & [Hx Hs] & Hout).
    assert (reading total p' X' F') as Hr'.
    { eapply reading_step; [exact Hr|exact Hx|by intros a []| |lia]. intros va [_ ?]. unfold in_user. lia. }
    destruct r.
    + subst j. apply (HQt p' t' X' F'). split; [apply Hr'|]. intros j Hj. destruct (decide (j < total)); [apply (rd_same _ _ _ _ Hr'); lia|].
      destruct (Hs (j - total)) as [Hb Ha]; [lia|]. replace (buf + total + (j - total)) with (buf + j) in * by lia.
      split; [|done]. rewrite Hb. f_equal. destruct (reading_kbuf _ _ _ _ (j - total) Hr) as [Hm Hun]; [unfold KBUF_SIZE; lia|].
      destruct (xf_kernel _ _ _ _ _ _ _ _ _ Hx _ Hm Hun) as (_ & _ & ->); [|by intros []].
      rewrite Hbytes by lia. f_equal. lia.
    + destruct Hout as [Hj Hna]. apply (HQf p' t' X' F' (total + j) Hr'); [lia|]. rewrite Z.add_assoc. intros Ha. apply Hna.
      eapply uaccess_kept; [apply Hr|exact HX0|exact Ha].
Qed.

(** ** The loop *)

Definition read_outcome (r : bool * Z) (k' : kstate P) : Prop := ∃ total lost p t X F,
  k' = read_state (file_at (total + lost)) p t X ∧ reading total p X F ∧ 0 ≤ total ∧
  if r.1 then lost = 0 ∧ total = wanted ∧ r.2 = total
  else r.2 = (if total =? 0 then SYS_ERROR else total) ∧ 0 < lost ≤ KBUF_SIZE ∧ total + lost ≤ wanted ∧
       ∃ j, total ≤ j < total + lost ∧ ¬ uaccess (pmem p0) (F0 mm) true (buf + j).

Definition read_inv (m : nat) : Z * Z → kstate P → Prop := λ '(remaining, total) k',
  ∃ p t X F, k' = read_state (file_at total) p t X ∧ reading total p X F ∧ 0 ≤ total ≤ wanted ∧
    remaining = len - total ∧ m = Z.to_nat ((remaining + (KBUF_SIZE - 1)) / KBUF_SIZE).

Definition read_next (m : nat) (r : Z * Z + bool * Z) (k' : kstate P) : Prop :=
  match r with inl b => ∃ m', (m' < m)%nat ∧ read_inv m' b k' | inr r => read_outcome r k' end.

(** What one read from the file gives of what is wanted. *)
Lemma read_count_wanted total chunk : 0 ≤ total ≤ wanted → chunk = Z.min (len - total) KBUF_SIZE → 0 < chunk →
  let c := read_count n (off + total) chunk in
  0 ≤ c ≤ chunk ∧ total + c ≤ wanted ∧ (c < chunk → total + c = wanted).
Proof.
  intros Ht' -> Hc c. destruct wanted_range as (Hr & Hw1 & Hw2). unfold c, read_count.
  destruct (rn_size n <=? off + total) eqn:Hs; bool_to_prop; lia.
Qed.

Lemma blocks_left r : KBUF_SIZE ≤ r → (Z.to_nat ((r - KBUF_SIZE + (KBUF_SIZE - 1)) / KBUF_SIZE) < Z.to_nat ((r + (KBUF_SIZE - 1)) / KBUF_SIZE))%nat.
Proof.
  unfold KBUF_SIZE. intros Hr. replace (r + (128 - 1)) with (r - 128 + (128 - 1) + 1 * 128) by lia.
  rewrite Z.div_add by done. pose proof (Z.div_pos (r - 128 + (128 - 1)) 128). lia.
Qed.

Lemma wp_read_round m b k' : read_inv m b k' → wp (sys_read_round e tk fp buf b) (read_next m) k'.
Proof.
  destruct b as [remaining total]. intros (p & t & X & F & -> & Hr & Htot & -> & ->).
  destruct wanted_range as (Hw & _). unfold sys_read_round. destruct (len - total =? 0) eqn:Hz; bool_to_prop.
  { wp_step. exists total, 0, p, t, X, F. rewrite Z.add_0_r. cbn. do 3 (split; [done||lia|]). lia. }
  set (chunk := if len - total <? KBUF_SIZE then len - total else KBUF_SIZE).
  assert (chunk = Z.min (len - total) KBUF_SIZE) as Hch.
  { unfold chunk. destruct (len - total <? KBUF_SIZE) eqn:?; bool_to_prop; lia. }
  assert (0 < chunk ≤ KBUF_SIZE) as Hchr by (unfold KBUF_SIZE in *; lia).
  pose proof (read_count_wanted total chunk Htot Hch ltac:(lia)) as Hcw.
  wp_step. apply wp_ko, wp_get_file with (f0 <| f_offset := off + total |>); [apply lookup_insert_eq|]. wp_step.
  apply (wp_read_file total chunk (file_at total)) with F; [done|lia..|]. intros p1 c Hr1 Hbytes. fold c in Hcw.
  destruct Hcw as (Hc & Hct & Hcs). wp_step. apply wp_ko, wp_modify.
  match goal with |- context [o_at k ?o] => change o with (ost p1 t X s g nb (<[fp := f0 <| f_offset := off + (total + c) |>]> (file_at total))) end.
  unfold file_at at 1. rewrite insert_insert_eq. fold (file_at (total + c)).
  match goal with |- wp _ _ ?x => change x with (read_state (file_at (total + c)) p1 t X) end.
  destruct (c =? 0) eqn:Hc0; bool_to_prop.
  { wp_step. exists total, 0, p1, t, X, F. rewrite Hc0. cbn. split; [done|]. split; [done|]. lia. }
  wp_step. apply (wp_read_user total c (file_at (total + c))) with F; [done|lia..|done| |].
  - intros p2 t2 X2 F2 Hr2. cbn [negb]. destruct (c <? chunk) eqn:Hlt; bool_to_prop; wp_step.
    + exists (total + c), 0, p2, t2, X2, F2. rewrite Z.add_0_r. cbn. split; [done|]. split; [done|]. lia.
    + destruct (decide (len - total < KBUF_SIZE)) as [Hlast|Hmore].
      * exists 0%nat. split.
        { unfold KBUF_SIZE in *. pose proof (Z.div_le_lower_bound (len - total + (128 - 1)) 128 1). lia. }
        exists p2, t2, X2, F2. do 2 (split; [done|]). split; [lia|]. split; [lia|].
        replace (len - total - c) with 0 by lia. done.
      * exists (Z.to_nat ((len - total - KBUF_SIZE + (KBUF_SIZE - 1)) / KBUF_SIZE)). split; [apply blocks_left; lia|].
        exists p2, t2, X2, F2. do 2 (split; [done|]). split; [lia|]. split; [lia|]. by replace c with KBUF_SIZE by lia.
  - intros p2 t2 X2 F2 j Hr2 Hj Hna. cbn [negb]. wp_step. exists total, c, p2, t2, X2, F2. cbn. do 2 (split; [done|]). split; [lia|].
    split; [by destruct (total =? 0)|]. split; [lia|]. split; [done|]. by exists j.
Qed.

Lemma wp_read_loop p t X F : fl !! fp = Some f0 → reading 0 p X F →
  wp (whileM (chunk_fuel len) (sys_read_round e tk fp buf) (len, 0)) read_outcome (read_state fl p t X).
Proof.
  intros Hf Hr0. apply (wp_whileM _ _ _ read_inv read_outcome (Z.to_nat ((len + (KBUF_SIZE - 1)) / KBUF_SIZE))).
  - unfold chunk_fuel, KBUF_SIZE. pose proof (Z.div_le_mono (len + (128 - 1)) (len + 1 * 128) 128).
    rewrite Z.div_add in * by done. pose proof (Z.div_pos len 128). pose proof (Z.div_pos (len + (128 - 1)) 128). lia.
  - destruct wanted_range as (Hw & _). exists p, t, X, F. split; [|split; [exact Hr0|split; [lia|split; [lia|done]]]].
    unfold file_at. rewrite Z.add_0_r. rewrite insert_id; [done|]. rewrite Hf. f_equal. symmetry. exact (file_eta f0).
  - intros m b k' Hi'. eapply wp_mono; [by apply wp_read_round|]. by intros [b'|r] k2.
Qed.

(** ** The whole call *)

Lemma reading_log total p X F p' : reading total p X F → total ≤ len → vmstep p p' [] nowhere → reading total p' X F.
Proof.
  intros Hr Htl Hs. eapply (reading_step nowhere nowhere); [exact Hr| |by intros a []|by intros a []|done].
  apply xfer_frame, frame_step; [apply (xf_ok _ _ _ _ _ _ _ _ _ (rd_xfer _ _ _ _ Hr))|exact Hs].
Qed.

Lemma wp_read_log total msg v fl' (Q : unit → kstate P → Prop) p t X F : reading total p X F → total ≤ len →
  (∀ p', reading total p' X F → Q () (read_state fl' p' t X)) → wp (sys_log msg v) Q (read_state fl' p t X).
Proof.
  intros Hr Htl HQ. apply wp_kvm, wp_logf; [apply (xf_ok _ _ _ _ _ _ _ _ _ (rd_xfer _ _ _ _ Hr))|].
  intros p' Hs. apply HQ. by eapply reading_log.
Qed.

Lemma wp_sys_read fd t : task_of k (se_cpu e) = Some tk → 0 ≤ fd < MAX_FILES_PER_TASK → task_file tk fd = fp →
  fp ≠ 0 → fl !! fp = Some f0 →
  wp (sys_read e fd buf len) (λ r k', ∃ b, read_outcome (b, r) k') (read_state fl p0 t X0).
Proof.
  intros Htk Hfd Hfp Hfp0 Hf. unfold sys_read. unfold task_of in Htk. set (ks := y_sched (k_sync k)) in *.
  destruct (cur_task ks !! se_cpu e) as [j|] eqn:Hcu; [|done]. destruct (slot_ok j) eqn:Hj; [|done]. injection Htk as Htk.
  wp_step. eapply wp_intro.
  { unfold sys_current, sched_current, arch_get_current_task, k_t, k_y, up, gets. cbn. fold ks. rewrite Hcu. reflexivity. }
  change (is_null (Some j)) with false. cbn iota. wp_step. eapply wp_intro.
  { unfold sys_task, get_task, tget, k_t, k_y, up. cbn. fold ks. rewrite Hj. reflexivity. }
  rewrite Htk, Hfp. unfold MAX_FILES_PER_TASK in *. bfalse (16 <=? fd). bfalse (fp =? 0). cbn [orb].
  match goal with |- wp _ _ ?x => change x with (read_state fl p0 t X0) end. destruct wanted_range as (Hw & _).
  wp_step. apply (wp_read_log 0) with F0; [apply reading_start|lia|]. intros p1 Hr1. wp_step.
  eapply wp_mono; [by apply (wp_read_loop p1 t X0 F0)|].
  intros [b r] k2 (total & lost & p2 & t2 & X2 & F2 & -> & Hr2 & Htot & Hout). cbn [fst snd] in Hout.
  assert (total ≤ len) as Htl by (destruct b; lia). destruct b; cbn [whenM].
  - wp_step. apply (wp_read_log total) with F2; [done..|]. intros p3 Hr3. wp_step.
    exists true, total, lost, p3, t2, X2, F2. done.
  - do 2 wp_step. exists false, total, lost, p2, t2, X2, F2. done.
Qed.

End read.

End spec.

(** ** The claim *)

Section claims.
Context {P : Type} `{FrameLaws P, !StackPages P}.
Implicit Types (k : kstate P).

(** The file systems, the address spaces and the open files of a state. *)
Definition kernel_fs k : fstate P := p_fs (o_proc (s_env (y_sched (k_sync k)))).
Definition kernel_vm k : vstate P := f_vm (kernel_fs k).
Definition kernel_files k : gmap Z file := open_files (s_env (y_sched (k_sync k))).

(** The state [k] with other address spaces and other open files. *)
Definition with_vm_files k (v : vstate P) (fl : gmap Z file) : kstate P :=
  o_at k (OState (PState (fvm v (kernel_fs k)) (process_next_elf_load_base (o_proc (s_env (y_sched (k_sync k)))))) fl).

(** The current task of the CPU has the file [f], at [fp], open as [fd]; the
    file is the node [n] of the RAM file system, whose bytes are in no address
    space and apart from the handler's buffer; the range is in the user half
    of the address space. *)
Record read_ready e k tk fd fp f mnt i n buf len : Prop := {
  rr_inv : vm_inv (kernel_vm k);
  rr_tables : fs_tables (kernel_fs k);
  rr_task : task_of k (se_cpu e) = Some tk;
  rr_space : is_Some (mm_contexts (kernel_vm k) !! Task.mm tk);
  rr_process : faulting_process (task_space tk) (Task.mm tk) ≠ 0 →
    runs_in (venv (kernel_vm k)) (mm_contexts (kernel_vm k)) (kernel_vm k) (faulting_process (task_space tk) (Task.mm tk)) (Task.mm tk);
  rr_fd : 0 ≤ fd < MAX_FILES_PER_TASK;
  rr_file : task_file tk fd = fp ∧ fp ≠ 0 ∧ kernel_files k !! fp = Some f;
  rr_offset : 0 ≤ f_offset f;
  rr_vnode : f_vn f ≠ 0 ∧ vnodes (kernel_fs k) !! f_vn f = Some (vnode_of mnt i);
  rr_node : 0 ≤ i ∧ ramfs_nodes (kernel_fs k) !! Z.to_nat i = Some n;
  rr_data : node_ok (venv (kernel_vm k)) (mm_contexts (kernel_vm k)) n;
  rr_buf : 0 ≤ buf ∧ 0 ≤ len ∧ buf + len ≤ 2 ^ 48;
  rr_kbuf : kernel_buffer (venv (kernel_vm k)) (mm_contexts (kernel_vm k)) (se_kbuf e) KBUF_SIZE;
  rr_apart : ∀ j l, 0 ≤ j < KBUF_SIZE → 0 ≤ l < rn_size n →
    word_of (va_to_pa (se_kbuf e) + j) ≠ word_of (va_to_pa (rn_data n) + l);
}.

Lemma kstate_normal k p t X s : kernel_vm k = vst p t X s →
  k = o_at k (ost p t X s (kernel_fs k) (process_next_elf_load_base (o_proc (s_env (y_sched (k_sync k))))) (kernel_files k)).
Proof.
  unfold kernel_vm, kernel_files, kernel_fs, o_at, ost, pst. intros Hv. destruct k as [[ss mp sp cp ic] nm]. destruct ss as [[[g nb] fl] ? ? ? ? ? ? ? ?].
  cbn in *. by rewrite <- Hv, fvm_self.
Qed.

(** C40.  [sys_read] of an open RAM file delivers the file.  The call returns;
    the first [total] bytes of the user's buffer are the file's bytes from the
    offset on and the user may write them; every other user byte of every
    address space, and the kernel's memory apart from the handler's 128-byte
    buffer, is as before ([user_kept]), and so is the rest of the state apart
    from the file's offset.  Either every byte there was to read up to [len]
    is delivered and counted by the result, or the user could not write some
    byte of the next piece: the result is then what was delivered, or the error
    when nothing was, but the offset has also moved past the [lost] bytes of
    the piece, which are not delivered. *)
Theorem sys_read_delivers e k tk fd fp f mnt i n buf len :
  read_ready e k tk fd fp f mnt i n buf len →
  ∃ r v' total lost, let v := kernel_vm k in let mm := Task.mm tk in
    sys_read e fd buf len k =
      Some (r, with_vm_files k v' (<[fp := f <| f_offset := f_offset f + (total + lost) |>]> (kernel_files k))) ∧
    vm_inv v' ∧
    user_kept (λ a, va_to_pa (se_kbuf e) ≤ a < va_to_pa (se_kbuf e) + KBUF_SIZE) (λ va, buf ≤ va < buf + len) mm v v' ∧
    0 ≤ total ∧
    (∀ j, 0 ≤ j < total → user_can v' mm true (buf + j) = true ∧
       user_byte v' mm (buf + j) = Some (rd8 (memory v) (va_to_pa (rn_data n) + (f_offset f + j)))) ∧
    (lost = 0 ∧ r = total ∧ total = Z.max 0 (Z.min len (rn_size n - f_offset f)) ∨
     r = (if total =? 0 then SYS_ERROR else total) ∧ 0 < lost ≤ KBUF_SIZE ∧
     total + lost ≤ Z.min len (rn_size n - f_offset f) ∧
     ∃ j, total ≤ j < total + lost ∧ user_can v mm true (buf + j) = false).
Proof.
  intros [Hi Ht Htk [c HX] Hcur Hfd (Hfp & Hfp0 & Hf) Hoff [Hvn0 Hvn] [Hi0 Hn] Hok (Hb & Hlen & Hend) (Hkz & Hkb) Hap].
  destruct (inv_normal _ Hi) as (p & t & X & F & Hv & Ep & EX & Hl & Hk & Hh & He). rewrite <- Ep, <- EX in *.
  pose proof (wp_sys_read e tk fp f mnt i n buf len k (kernel_vm k) (kernel_fs k) (process_next_elf_load_base (o_proc (s_env (y_sched (k_sync k)))))
    (kernel_files k) p X F c Hk HX Hh ltac:(by apply runs_in_cur) Hb Hend Hlen Hkb Hkz Ht Hvn Hvn0 Hi0 Hn Hok Hoff Hap fd t Htk Hfd Hfp Hfp0 Hf) as Hwp.
  unfold read_state in Hwp. rewrite <- (kstate_normal k p t X (kernel_vm k) Hv) in Hwp.
  apply wp_elim in Hwp as (r & k' & Hs & b & total & lost & p' & t' & X' & F' & -> & [Hx Hsame] & Htot & Hout). cbn [fst snd] in Hout.
  exists r, (vst p' t' X' (kernel_vm k)), total, lost. cbv zeta. split; [exact Hs|].
  destruct (xf_ctx _ _ _ _ _ _ _ _ _ Hx c HX) as [l HX']. destruct (wanted_range e tk f n len Hlen) as (_ & Hw0 & Hw1).
  split; [eapply vm_inv_grows; [by eapply life_xfer|by eapply xfer_held|done..]|].
  split; [rewrite Hv at 1; eapply user_kept_xfer; [done|by eexists|exact Hx]|]. split; [exact Htot|]. split.
  - intros j Hj. destruct (Hsame j Hj) as [Hby Ha].
    rewrite (user_byte_leaf p' t' X' (kernel_vm k) F' _ _ _ (xf_ok _ _ _ _ _ _ _ _ _ Hx) HX').
    split; [by apply (user_can_leaf p' t' X' (kernel_vm k) F' _ _ true _ (xf_ok _ _ _ _ _ _ _ _ _ Hx) HX')|].
    rewrite Hby. unfold file_byte, memory. by rewrite Ep.
  - destruct b; [left|right].
    + destruct Hout as (-> & Htw & ->). split; [done|]. split; [done|]. rewrite Htw.
      destruct (decide (rn_size n ≤ f_offset f)); [rewrite Hw0 by lia|rewrite Hw1 by lia]; lia.
    + destruct Hout as (-> & Hlost & Hle & j & Hj & Hna). split; [done|]. split; [done|]. split.
      { destruct (decide (rn_size n ≤ f_offset f)); [rewrite Hw0 in Hle by lia|rewrite Hw1 in Hle by lia]; lia. }
      exists j. split; [done|]. apply not_true_is_false. intros Hc. apply Hna.
      apply (user_can_leaf p t X (kernel_vm k) F _ c true _ Hk HX). by rewrite <- Hv.
Qed.

End claims.

(** ** Witness

    The machine of VmClaims: a page [a] of the kernel's own holds the handler's
    buffer and, 512 bytes further, the 16 bytes of a file that the current task
    has open as descriptor 3, at offset 4. *)

Section machine.
Context (v : vstate kheap) (mm a : Z).

Definition one_file : ramfs_node := RamfsNode true false "/a" (pa_to_va (a + 512)) 16.
Definition one_task : task := task0 <| Task.mm := mm |> <| files := {[3 := 80]} |>.
Definition opened : file := File 96 "/a" 4 16.
Definition read_fs : fstate kheap :=
  FState (v <| processes := ∅ |>) [] [] (one_file :: replicate (pred (Z.to_nat RAMFS_FILES_MAX)) ramfs_node0) {[96 := vnode_of 64 0]} [].
Definition read_sched : ksched kheap :=
  SState (OState (PState read_fs 0) {[80 := opened]}) {[4 := one_task]} ∅ 5 0 0 0 ∅ {[0 := 4]}.
Definition read_kernel : kstate kheap := KState (YState read_sched (Pool ∅ ∅ ∅) (Pool ∅ ∅ ∅) (Pool ∅ ∅ ∅) ∅) 0.
Definition read_env : sys_env := SysEnv 0 0 0 (pa_to_va a) 0 v_process.

Hypotheses (Hi : vm_inv v) (HX : is_Some (mm_contexts v !! mm)) (Ha : page_ok a).
Hypotheses (Hown : ∃ r, fe_own (venv v) a = Some r) (Hunt : ∀ mm' c, mm_contexts v !! mm' = Some c → a ∉ mm_pages c).

Lemma page_client k n : 0 ≤ k → 0 < n → k + n ≤ 4096 → client_buf (venv v) (mm_contexts v) (pa_to_va (a + k)) n ∧
  ∀ i, 0 ≤ i < n → pg (word_of (va_to_pa (pa_to_va (a + k)) + i)) = a.
Proof.
  intros Hk Hn Hkn. destruct (kbuf_page a k n Ha) as [Hb Hpa]; [lia..|]. rewrite Hpa.
  assert (∀ i, 0 ≤ i < n → pg (word_of (a + k + i)) = a) as Hpg.
  { intros i Hin. rewrite pg_word_of, <- Z.add_assoc. apply pg_offset; [exact Ha|lia]. }
  split; [|exact Hpg]. split; [exact Hb|]. split.
  { destruct Hb as (? & _ & [?|[? ?]]); apply u64_small; unfold KERNEL_VA_OFFSET in *; lia. }
  rewrite Hpa. intros i Hin. cbv zeta. destruct Hown as [r Hr]. split.
  - eapply fe_own_mine; [|exact Hr|by apply Hpg]. destruct Hi as [[F Hl] _]. apply Hl.
  - intros mm' c Hc. rewrite Hpg by done. by apply (Hunt mm' c).
Qed.

Lemma read_machine_ready va : 0 ≤ va → va + 16 ≤ 2 ^ 48 →
  read_ready read_env (read_kernel) one_task 3 80 opened 64 0 one_file va 16.
Proof.
  intros Hva Hend. destruct (page_client 0 128) as [(Hb & Hu & Hc) _]; [lia..|]. rewrite Z.add_0_r in *.
  destruct (page_client 512 16) as [(Hb' & _ & Hc') Hp']; [lia..|].
  assert (va_to_pa (pa_to_va a) = a) as Hpa.
  { destruct (kbuf_page a 0 128 Ha) as [_ Hpa]; [lia..|]. by rewrite Z.add_0_r in Hpa. }
  destruct (kbuf_page a 512 16 Ha) as [_ Hpa']; [lia..|].
  split; try done.
  - destruct Hi as [[F Hl] Hhe]. split; [|exact Hhe]. exists F. by apply (life_proc nobody (venv v) (mm_contexts v) F v ∅).
  - split; [|by intros m ?%elem_of_nil|reflexivity]. intros b x Hx. change (({[96 := vnode_of 64 0]} : gmap Z vnode) !! b = Some x) in Hx. apply lookup_singleton_Some in Hx as [<- <-]. done.
  - intros []. unfold faulting_process. cbn. by destruct (mm =? mm).
  - split; [done|done|]. intros i Hin. cbv zeta. destruct (Hc' i Hin) as [Hm Hun]. cbn [one_file rn_owns_data].
    split; [exact Hm|]. split; [exact Hun|]. intros b Hs. destruct Hi as [[F Hl] _].
    destruct (fe_span_mine _ _ _ (vk_ok _ _ _ (lf_ok _ _ _ _ _ Hl)) Hs) as [_ Hn]. destruct Hown as [r Hr].
    change (rn_data one_file) with (pa_to_va (a + 512)) in Hn. by rewrite Hp', Hr in Hn.
  - split; [|by split]. intros Hz. cbn in Hz. destruct Hb as [Hpos _]. lia.
  - intros j l Hj Hl. cbn. rewrite Hpa, Hpa', <- Z.add_assoc. unfold KBUF_SIZE in *. cbn in Hl.
    rewrite (proj1 (word_of_page a j Ha ltac:(lia))), (proj1 (word_of_page a (512 + l) Ha ltac:(lia))). pose proof (Z.div_lt_upper_bound j 8 16). pose proof (Z.div_le_lower_bound (512 + l) 8 64). lia.
Qed.

End machine.

(** Addresses of one page have the same rights. *)
Lemma user_can_page (v : vstate kheap) mm w va va' : va / 2 ^ 12 = va' / 2 ^ 12 → user_can v mm w va = user_can v mm w va'.
Proof.
  intros Hp. assert (∀ k, 12 ≤ k → va / 2 ^ k = va' / 2 ^ k) as Hdiv.
  { intros k Hk. replace k with (12 + (k - 12)) by lia. rewrite Z.pow_add_r, <- !Z.div_div by lia. by rewrite Hp. }
  unfold user_can, user_entry. destruct (mm_contexts v !! mm) as [c|]; [|done].
  unfold arch_walk, arch_entry. by rewrite !Hdiv by lia.
Qed.

Lemma read_kernel_can v m a mm w va : user_can (kernel_vm (read_kernel v m a)) mm w va = user_can v mm w va.
Proof. reflexivity. Qed.

#[local] Opaque v_mapped vm_buf v_mm.

(** The kernel's page in the machine of VmClaims. *)
Lemma vm_buf_page : page_ok vm_buf ∧ fe_own (venv v_mapped) vm_buf = Some 1 ∧
  ∀ mm c, mm_contexts v_mapped !! mm = Some c → vm_buf ∉ mm_pages c.
Proof.
  v_facts. split; [rewrite Hbuf; split; [reflexivity|lia]|]. split; [exact Hown|].
  exact (bool_decide_eq_true_1 _ Huntr).
Qed.

Definition v_read : kstate kheap := read_kernel v_mapped v_mm vm_buf.

Lemma v_read_ready : read_ready (read_env vm_buf) v_read (one_task v_mm) 3 80 opened 64 0 (one_file vm_buf) v_va 16.
Proof.
  destruct vm_buf_page as (Hp & Ho & Hu). destruct v_mapped_ctx as (c & HX & _).
  apply (read_machine_ready v_mapped v_mm vm_buf (vm_reach_inv _ v_mapped_reach)); [exists c; exact HX|exact Hp|exists 1; exact Ho|exact Hu|..];
    unfold v_va; lia.
Qed.

Lemma sys_read_delivers_witness :
  ∃ v', sys_read (read_env vm_buf) 3 v_va 16 v_read =
      Some (12, with_vm_files v_read v' (<[80 := opened <| f_offset := 16 |>]> (kernel_files v_read))) ∧
    ∀ j, 0 ≤ j < 12 → user_byte v' v_mm (v_va + j) =
      Some (rd8 (memory (kernel_vm v_read)) (va_to_pa (rn_data (one_file vm_buf)) + (4 + j))).
Proof.
  destruct (sys_read_delivers _ _ _ _ _ _ _ _ _ _ _ v_read_ready) as (r & v' & total & lost & Hs & _ & _ & Htot & Hb & Hout).
  cbv zeta in *. change (f_offset opened) with 4 in *. change (rn_size (one_file vm_buf)) with 16 in *.
  destruct Hout as [(-> & -> & ->)|(_ & _ & Hle & j & Hj & Hna)].
  - exists v'. split; [exact Hs|]. intros j Hj. exact (proj2 (Hb j Hj)).
  - exfalso. v_facts. unfold v_read in Hna. rewrite read_kernel_can in Hna. change (Task.mm (one_task v_mm)) with v_mm in Hna. rename Hna into Hf.
    rewrite (user_can_page v_mapped v_mm true (v_va + j) v_va) in Hf.
    + rewrite Hcan in Hf. exact (diff_true_false Hf).
    + unfold v_va. change (0x400000) with (1024 * 2 ^ 12). rewrite Z.add_comm, Z.div_add, Z.div_mul by done.
      rewrite Z.div_small; [reflexivity|]. lia.
Defined.
